(* ===== verification/_CoqProject ===== *)
-Q . S2P
Prelude.v
Text.v
Nostr.v
Demo.v
Kinds.v
Ingest.v
FilterMatch.v
Store.v
StoreTheory.v
Auth.v
OwnerAttestation.v
Replication.v
Identity.v
Declarations.v
Relay.v
RelayApi.v
Session.v
Push.v
Pull.v
RelayTheory.v
SessionTheory.v
Node.v
Scenarios.v
Handoff.v
HandoffTheory.v
ArtifactSync.v
EventQueue.v
EventQueueTheory.v
AgentBridge.v
GitPerms.v
Sdk.v
SdkTheory.v
Prompt.v
PromptTheory.v
Json.v
PushArgs.v
AcpFilter.v
AcpFilterTheory.v
Inbound.v
InboundTheory.v
RelayLink.v
RelayLinkTheory.v
AgentConfig.v
AgentTypes.v
AgentLlm.v
AgentTurn.v
AgentTheory.v
AgentTurnTheory.v
AgentMcp.v
AgentMcpTheory.v
AgentSessions.v
AgentSessionsTheory.v
AgentServers.v
Mentions.v
Cli.v
CliTheory.v
CliPaging.v
CliMessages.v
CliMessagesTheory.v
PairingQr.v
Pairing.v
PairingTheory.v
PairRelay.v
PairRelayTheory.v
