(* ===== verification/Prelude.v ===== *)
(** * A verified model of the Buzz Solo node, its agent bridge and its agent

    Buzz Solo is a local-first Nostr node: a relay a person runs on a laptop,
    tools that move its journal between nodes, a command line for people and
    agents, and a bridge that lets coding agents answer the events of its
    channels, and a coding agent of its own.  This library models the parts of the repository that decide
    something, from the Rust sources under [src/crates/], and proves what makes
    them correct.

    ** The parts and the files that model them

    Shared:
    - [Prelude.v] (this file): results and the [let?] of the [?] operator,
      machine integers, string order, sorting, list lemmas, the hint database
      [guards] and the tactics [ok_facts], [guard_facts] and [case_members].
      [Text.v]: the [str] functions the code uses, decimal numbers, [Debug]
      printing, splitting and joining.  [Json.v]: [serde_json::Value].
    - [Nostr.v]: events, filters and tags as the [nostr] crate has them, the
      wrappers [buzz-core/src/event.rs] and [verification.rs], and the classes
      of third-party functions [NostrLib] and [SerdeJson] with their laws.
      [Demo.v]: an instance of both, for the witnesses.

    The node, [buzz-core], [buzz-auth] and [buzz-local-relay]:
    - [Kinds.v], [Ingest.v], [FilterMatch.v]: [buzz-core/src/kind.rs],
      [ingest.rs] and [filter.rs].  [Store.v] and [StoreTheory.v]: the event
      store of [buzz-local-relay/src/lib.rs], its log file and its queries.
    - [Auth.v]: the crate [buzz-auth] (NIP-42, NIP-98, scopes, access).
      [Identity.v]: principals, the single-use proof ledger and the peer policy
      ([identity.rs] of [buzz-core] and of [buzz-local-relay]).
      [Declarations.v]: [declarations.rs], configuration derived from the
      owner's signed events.
    - [Relay.v], [RelayApi.v], [Session.v]: the rest of
      [buzz-local-relay/src/lib.rs], namely submission, group projections,
      Beacon pulses, the HTTP handlers and the WebSocket sessions.
      [RelayTheory.v], [SessionTheory.v]: what single handlers guarantee.
      [Node.v]: all handlers as one state machine and its invariants.
      [Scenarios.v]: complete runs on concrete nodes, which serve as witnesses
      and show where the code departs from its documentation.

    Between nodes:
    - [Replication.v]: the replication contract
      ([buzz-core/src/replication.rs]) and the journal as a source.  [Push.v],
      [PushArgs.v]: [bin/buzz-relay-push.rs].  [Pull.v]:
      [bin/buzz-relay-pull.rs].  [ArtifactSync.v]: [bin/buzz-artifact-sync.rs].
      These programs are proved against the classes [Destination], [Origin] and
      [ArtifactNode]; [RelayTheory.v] and [ArtifactSync.v] show that the relay
      implements them.
    - [Handoff.v] and [HandoffTheory.v]: the reducer
      [bin/buzz-handoff-state.rs].

    Devices and repositories:
    - [PairingQr.v], [Pairing.v], [PairingTheory.v]: device pairing
      ([buzz-core/src/pairing/]).  [PairRelay.v], [PairRelayTheory.v]: the relay
      the two devices meet on ([buzz-pair-relay/src/lib.rs]).
    - [GitPerms.v]: channel roles and branch protection ([channel.rs],
      [git_perms.rs] of [buzz-core]).

    Writing events:
    - [OwnerAttestation.v], [Sdk.v], [SdkTheory.v], [Mentions.v]: [nip_oa.rs],
      the event builders and the mention scanner of [buzz-sdk].
    - [Cli.v], [CliTheory.v], [CliPaging.v], [CliMessages.v],
      [CliMessagesTheory.v]: errors, argument checks, the HTTP client and the
      message commands of [buzz-cli].

    The agent bridge, [buzz-acp]:
    - [RelayLink.v], [RelayLinkTheory.v]: the background task of [relay.rs]
      that owns the WebSocket.  [AcpFilter.v], [AcpFilterTheory.v]: the
      subscription rules of [filter.rs] and [config.rs].  [Inbound.v],
      [InboundTheory.v]: the event arm of the main loop of [lib.rs].
    - [EventQueue.v], [EventQueueTheory.v]: the queue of [queue.rs].
      [AgentBridge.v]: pool lifecycle, claiming of agents, dispatch and the
      settlement of finished turns ([pool_lifecycle.rs], [pool.rs], [lib.rs]).
      [Prompt.v], [PromptTheory.v]: the texts an agent reads, from [queue.rs].

    The coding agent, [buzz-agent]:
    - [AgentConfig.v]: [config.rs], the settings and the thinking efforts of the
      model families.  [AgentTypes.v]: [types.rs], the frames of [wire.rs] and
      the cutting of texts.  [AgentLlm.v]: [llm.rs], requests to the providers.
      [AgentTurn.v]: [agent.rs] and [handoff.rs], the rounds of a turn, with the
      parallel tool calls as a machine that any schedule drives.  [AgentMcp.v]:
      [mcp.rs], the tool servers.  [AgentSessions.v]: [lib.rs], the requests of
      a client and the tasks they spawn, as a machine any interleaving drives.
    - [AgentTheory.v], [AgentTurnTheory.v], [AgentMcpTheory.v],
      [AgentSessionsTheory.v]: their properties.  A turn is proved against the
      class [ToolBox], sessions against [SessionWorld]; [AgentServers.v] shows
      that the registry of tool servers implements both, and has the theorems
      about the agent as a whole.

    An event of a channel thus goes from [Relay.v] through a session of
    [Session.v] to [RelayLink.v], is gated by [Inbound.v] with the rules of
    [AcpFilter.v], waits in [EventQueue.v], is dispatched by [AgentBridge.v] as
    the prompt of [Prompt.v], and the answer is built by [Sdk.v] and sent by
    [CliMessages.v] over [Cli.v].

    ** How the code is modelled

    A struct is a record, an enum an inductive type, a [Result] a [result], and
    an early return a [let?].  A handler is one function on explicit state;
    where the source threads state and errors through many calls the model has
    a monad: pairing sessions (an error keeps what was assigned before it),
    the command line (a world with the requests sent) and the relay connection
    (a world, a log of effects, and runs that stop early), and requests of the
    agent (a log of effects, and a future dropped by a cancellation).  Concurrent
    connections of the pairing relay are steps in any order, cut where the
    source takes a lock.  A [u64] is an [N] whose saturating and wrapping
    operations are written out; a [HashMap] is a [gmap], and where the code
    iterates over one the order is an argument about which only that it lists
    the map is known; clocks, random values, and the outcome of a write to disk
    are arguments.  What the code prints, error texts included, is kept.
    Functions of crates outside the repository are fields of a class ([NostrLib],
    [SerdeJson], [SchnorrLib], [SdkLib], [JsonLib], [PromptLib], [MentionLib],
    [CliLib], [PairLib], [EvalLib], [RestLib], [LinkWorld], [LlmLib], [AgentWorld],
    [McpWorld], [WireParams], [Surroundings] and others), with the
    documented facts a theorem needs in a second class; each such class has an
    instance that satisfies it, which the witnesses use.

    ** What the theorems show

    - The store: its effective events are those no other event of the history
      beats, whatever the order of arrival; its log rebuilds it; stores that saw
      the same events answer alike; keyset paging is exact.
    - The node: the journal only grows, holds each id once and has provenance;
      HTTP and WebSocket writes and reads are bound to a fresh proof, used
      once, and to the policy of the node; leases, pulses, recognition and
      artifacts are accounted for in every reachable state.
    - Replication: requests are bounded, the push loop ends, its checkpoint
      never runs ahead of what the destination accepted, even when a write of
      the cursor is torn, draining a journal reads all of it once, a pull into
      the relay takes over what it was shown and nothing else, and an artifact
      run leaves only the stated references unresolved.
    - Declarations and attestations: what is admitted or disclosed has a
      current, signed ground; conditions are accepted exactly when canonical.
    - Handoffs: the reducer computes the specified lifecycle, independently of
      the order of events, and strangers cannot influence it.
    - Branch protection: the pattern language and the push policy are the
      documented ones, rules only restrict.
    - Pairing: codes round trip, every run of a session follows its script with
      authenticated messages, honest devices complete; the pairing relay keeps
      its limits, delivers an event at most once and forwards what is in order.
    - Writing: builders scope their events to the channel given and bound the
      content; the thread a builder writes is the thread the bridge reads; the
      client executes a moderation command at most once and reads every page.
    - The agent bridge: the connection's subscriptions follow the commands
      whatever fails, dropped events stay asked for, observer frames are
      accounted for and events are handed over once within a window; rules fail
      closed and subscriptions cover them; only trusted authors reach an agent;
      no event of a channel is lost or served twice except for the stated
      reasons, queues and retries are bounded, the dispatch loop is complete, a
      finished turn accounts for its batch, and a prompt shows the whole batch.
    - The coding agent: in every reachable state a session has at most one turn
      and a history in which every tool call is answered, so that every request
      posted follows its provider's rules; requests of the client are answered
      once; a turn ends within its rounds and settles every call it announced;
      tools offered have valid, distinct names; tool results keep their budgets.

    ** Bounds and fuel

    Most functions recur on their data.  Cutting a page into requests takes the
    number of records as fuel, which [split_serialized_batches_spec] shows is
    enough; the push loop and the reading of a source take fuel, and [push_safe]
    and [drain_complete] show that one more than the number of journal events is
    enough; the dispatch loop takes a number of rounds, and [dispatch_complete]
    shows that one more than the number of channels with work is enough.  The
    scans of texts and arguments that are not structural (flags, leading
    mentions, code fences, replacements) take the length of their input, and
    paging takes the number of pages asked for, with [client_reads_everything]
    showing when all is read.  The remote of a pull may grow while it is read,
    so its loop has no bound of its own: [pull_to_relay] holds at every fuel.
    A round of tool calls takes [round_fuel], which [round_ends] shows is enough;
    a turn takes one more than its configured rounds, which [agent_turn_ends]
    shows is enough, and with the rounds unlimited it may go on for ever.
    The relay connection may be kept busy by the outside for ever too: its
    runs carry a number of turns and a fuel for inner loops, and its theorems
    hold wherever a run stops, whether it ended, ran out or panicked. An
    [Instant] is unbounded unless its overflow matters; sizes of lists stand
    for [usize].

    ** What is not modelled

    Process set-up and command lines other than those named ([main.rs] files,
    the [clap] declarations), sockets, subprocesses and HTTP stacks; memory
    zeroing; logging.  Of [buzz-acp]: the ACP wire protocol ([acp.rs]), the
    prompt tasks and sessions of [pool.rs], the start-up, heartbeat and observer
    code of [lib.rs], the parsing of its configuration, and the HTTP client of
    [relay.rs].  Of [buzz-cli]: the commands other than those on messages.  Of
    [buzz-core] and [buzz-auth]: value types and limits used by hosted
    deployments only.  Of [buzz-agent]: credentials ([auth.rs]), hint files
    and skills ([hints.rs], [builtin.rs]) and the listing of models; the runs of
    different sessions are each one step, what they share being read from the
    outside.  The crates [buzz-dev-mcp], [buzz-persona], [buzz-ws-client] and
    the git helpers are programs of their own around files and processes.  [wait_for_reconnect] is modelled with
    the value of [skip_drain] that its callers pass.  The TypeScript relay under
    [cloudflare/] is another program in another language. *)

From stdpp Require Export base gmap strings list sorting.
From Stdlib Require Export Lia ZifyBool Ascii.

Export Bool.

(** ** Results

    Rust's [Result<A, E>], with the early return of the [?] operator as a
    notation of its own scope. *)

Inductive result (E A : Type) : Type :=
| Ok (a : A)
| Err (e : E).

Arguments Ok {E A} a.
Arguments Err {E A} e.

Declare Scope result_scope.
Delimit Scope result_scope with res.
Open Scope result_scope.

(** [let? x := e in k] is [let x = e?; k]. *)
Notation "'let?' x ':=' e 'in' k" :=
  (match e with Ok x => k | Err err => Err err end)
  (at level 10, x pattern, e at level 200, k at level 200) : result_scope.

(** [if c then return Err(..)] guards: [ensure c e] is [Ok ()] when [c]. *)
Definition ensure {E} (c : bool) (e : E) : result E unit :=
  if c then Ok tt else Err e.

(** [Option::ok_or]. *)
Definition ok_or {E A} (o : option A) (e : E) : result E A :=
  match o with Some a => Ok a | None => Err e end.

(** [Result::map_err]. *)
Definition map_err {E F A} (f : E -> F) (r : result E A) : result F A :=
  match r with Ok a => Ok a | Err e => Err (f e) end.

Definition is_ok {E A} (r : result E A) : bool :=
  match r with Ok _ => true | Err _ => false end.

Definition res_ok {E A} (r : result E A) : option A :=
  match r with Ok a => Some a | Err _ => None end.

(** Collecting an iterator of results stops at the first error. *)
Fixpoint map_res {E A B} (f : A -> result E B) (l : list A) : result E (list B) :=
  match l with
  | [] => Ok []
  | x :: l' =>
      let? y := f x in
      let? ys := map_res f l' in
      Ok (y :: ys)
  end.

(** ** Machine integers

    A [u64] is an [N]; the operations the source uses are written out. *)

Definition u64_max : N := 18446744073709551615.
Definition u32_max : N := 4294967295.

Definition u64_saturating_add (a b : N) : N := N.min (a + b) u64_max.
(** [+] on [u64] in a release build wraps around. *)
Definition u64_wrapping_add (a b : N) : N := ((a + b) mod (u64_max + 1))%N.
Definition u64_saturating_sub (a b : N) : N := (a - b)%N.
Definition u64_saturating_mul (a b : N) : N := N.min (a * b) u64_max.
Definition u64_abs_diff (a b : N) : N := if (a <=? b)%N then (b - a)%N else (a - b)%N.

(** ** Strings: the byte order of Rust's [str] *)

Definition str_ltb (a b : string) : bool :=
  match String.compare a b with Lt => true | _ => false end.
Definition str_leb (a b : string) : bool :=
  match String.compare a b with Gt => false | _ => true end.

Definition is_lower_hex_char (c : ascii) : bool :=
  let n := N_of_ascii c in
  ((48 <=? n) && (n <=? 57) || (97 <=? n) && (n <=? 102))%N.

Fixpoint str_forallb (f : ascii -> bool) (s : string) : bool :=
  match s with
  | EmptyString => true
  | String c s' => f c && str_forallb f s'
  end.

(** [str::starts_with] and [str::strip_prefix]. *)
Fixpoint strip_prefix (p s : string) : option string :=
  match p, s with
  | EmptyString, _ => Some s
  | String a p', String b s' => if Ascii.eqb a b then strip_prefix p' s' else None
  | String _ _, EmptyString => None
  end.

Definition starts_with (s p : string) : bool := String.prefix p s.

(** ** Iterators *)

Section iterators.
Context {A B : Type}.

(** [Iterator::find_map]. *)
Fixpoint find_map (f : A -> option B) (l : list A) : option B :=
  match l with
  | [] => None
  | x :: l' => match f x with Some y => Some y | None => find_map f l' end
  end.

(** [Iterator::position]. *)
Fixpoint position (p : A -> bool) (l : list A) : option nat :=
  match l with
  | [] => None
  | x :: l' => if p x then Some 0 else S <$> position p l'
  end.

(** [slice::sort_by] is a stable sort; [le x y] says that [x] may stay
    before [y]. *)
Fixpoint insert_by (le : A -> A -> bool) (x : A) (l : list A) : list A :=
  match l with
  | [] => [x]
  | y :: l' => if le x y then x :: l else y :: insert_by le x l'
  end.

Fixpoint sort_by (le : A -> A -> bool) (l : list A) : list A :=
  match l with
  | [] => []
  | x :: l' => insert_by le x (sort_by le l')
  end.
End iterators.

(** ** Lemmas on the string order *)

Lemma N_of_ascii_inj (a b : ascii) : N_of_ascii a = N_of_ascii b -> a = b.
Proof.
  intros H. apply (f_equal ascii_of_N) in H.
  by rewrite !ascii_N_embedding in H.
Qed.

Lemma str_compare_cons a s b t :
  String.compare (String a s) (String b t) =
  match N.compare (N_of_ascii a) (N_of_ascii b) with
  | Eq => String.compare s t
  | c => c
  end.
Proof. simpl. unfold Ascii.compare. by destruct (N.compare _ _). Qed.

Lemma str_compare_eq s t : String.compare s t = Eq <-> s = t.
Proof.
  split; [apply String.compare_eq_iff|intros ->].
  induction t as [|a t IH]; [done|]. by rewrite str_compare_cons, N.compare_refl.
Qed.

Lemma str_compare_refl s : String.compare s s = Eq.
Proof. by apply str_compare_eq. Qed.

Lemma str_compare_flip s t : String.compare t s = CompOpp (String.compare s t).
Proof. apply String.compare_antisym. Qed.

Lemma str_compare_lt_trans s t u :
  String.compare s t = Lt -> String.compare t u = Lt -> String.compare s u = Lt.
Proof.
  revert t u; induction s as [|a s IH]; intros [|b t] [|c u]; try done.
  rewrite !str_compare_cons.
  destruct (N.compare_spec (N_of_ascii a) (N_of_ascii b)) as [E1|E1|E1]; [| |done];
  destruct (N.compare_spec (N_of_ascii b) (N_of_ascii c)) as [E2|E2|E2]; try done;
  destruct (N.compare_spec (N_of_ascii a) (N_of_ascii c)) as [E3|E3|E3]; try lia; try done.
  apply IH.
Qed.

Lemma str_ltb_irrefl s : str_ltb s s = false.
Proof. unfold str_ltb. by rewrite str_compare_refl. Qed.

Lemma str_ltb_trans s t u : str_ltb s t = true -> str_ltb t u = true -> str_ltb s u = true.
Proof.
  unfold str_ltb. destruct (String.compare s t) eqn:E1; try done.
  destruct (String.compare t u) eqn:E2; try done.
  by rewrite (str_compare_lt_trans s t u).
Qed.

Lemma str_ltb_total s t : str_ltb s t = true \/ s = t \/ str_ltb t s = true.
Proof.
  unfold str_ltb. rewrite (str_compare_flip s t).
  destruct (String.compare s t) eqn:E; simpl; auto.
  right; left. by apply str_compare_eq.
Qed.

Lemma str_ltb_asym s t : str_ltb s t = true -> str_ltb t s = false.
Proof.
  unfold str_ltb. rewrite (str_compare_flip s t). by destruct (String.compare s t).
Qed.

Lemma str_leb_ltb s t : str_leb s t = negb (str_ltb t s).
Proof.
  unfold str_leb, str_ltb. rewrite (str_compare_flip s t). by destruct (String.compare s t).
Qed.

Lemma str_leb_refl s : str_leb s s = true.
Proof. by rewrite str_leb_ltb, str_ltb_irrefl. Qed.

Lemma str_leb_antisym s t : str_leb s t = true -> str_leb t s = true -> s = t.
Proof.
  rewrite !str_leb_ltb, !negb_true_iff.
  destruct (str_ltb_total s t) as [H|[H|H]]; congruence.
Qed.

Lemma str_leb_trans s t u : str_leb s t = true -> str_leb t u = true -> str_leb s u = true.
Proof.
  rewrite !str_leb_ltb, !negb_true_iff. intros H1 H2.
  destruct (str_ltb u s) eqn:E; [|done].
  destruct (str_ltb_total s t) as [H|[->|H]]; try congruence.
  by rewrite (str_ltb_trans u s t) in H2.
Qed.

Lemma str_leb_total s t : str_leb s t = true \/ str_leb t s = true.
Proof.
  rewrite !str_leb_ltb, !negb_true_iff.
  destruct (str_ltb s t) eqn:E; [left; by apply str_ltb_asym | by right].
Qed.

(** ** Lemmas on concatenation *)

Lemma str_app_cons c s t : String c s +:+ t = String c (s +:+ t).
Proof. done. Qed.

Lemma str_app_assoc a b c : (a +:+ b) +:+ c = a +:+ (b +:+ c).
Proof. induction a as [|x a IH]; [done|]. by rewrite !str_app_cons, IH. Qed.

Lemma str_app_nil_r s : s +:+ EmptyString = s.
Proof. induction s as [|c s IH]; [done|]. by rewrite str_app_cons, IH. Qed.

(** ** Lemmas on iterators *)

Lemma find_some_iff {A} (p : A -> bool) l x :
  find p l = Some x <-> exists i, l !! i = Some x /\ p x = true /\
    forall j y, j < i -> l !! j = Some y -> p y = false.
Proof.
  induction l as [|a l IH]; simpl.
  - split; [done|]. by intros (i & H & _).
  - destruct (p a) eqn:Ha.
    + split.
      * intros [= <-]. exists 0. split_and!; try done. intros j y Hj. lia.
      * intros ([|i] & H1 & H2 & H3); simpl in H1; [done|].
        specialize (H3 0 a ltac:(lia) eq_refl). congruence.
    + rewrite IH. split.
      * intros (i & H1 & H2 & H3). exists (S i). split_and!; try done.
        intros [|j] y Hj Hy; simpl in Hy; [congruence|]. eapply H3; [|done]; lia.
      * intros ([|i] & H1 & H2 & H3); simpl in H1; [congruence|].
        exists i. split_and!; try done. intros j y Hj Hy. by apply (H3 (S j) y); [lia|].
Qed.

Lemma find_elem {A} (p : A -> bool) l x : find p l = Some x -> x ∈ l /\ p x = true.
Proof.
  intros (i & H & Hp & _)%find_some_iff. split; [|done]. by eapply list_elem_of_lookup_2.
Qed.

Lemma find_none_elem {A} (p : A -> bool) l x : find p l = None -> x ∈ l -> p x = false.
Proof. intros H Hx. by eapply find_none, list_elem_of_In. Qed.

Lemma find_none_intro {A} (p : A -> bool) l : (forall x, x ∈ l -> p x = false) -> find p l = None.
Proof.
  intros H. destruct (find p l) as [x|] eqn:E; [|done].
  apply find_elem in E as [Hx Hp]. rewrite H in Hp; done.
Qed.

Lemma position_find {A} (p : A -> bool) l :
  find p l = i ← position p l; l !! i.
Proof.
  induction l as [|a l IH]; simpl; [done|].
  destruct (p a); [done|]. rewrite IH. by destruct (position p l).
Qed.

Lemma position_some {A} (p : A -> bool) l i :
  position p l = Some i ->
  exists l1 x l2, l = l1 ++ x :: l2 /\ length l1 = i /\ p x = true /\ Forall (fun y => p y = false) l1.
Proof.
  revert i; induction l as [|a l IH]; intros i; simpl; [done|].
  destruct (p a) eqn:Ha.
  - intros [= <-]. by exists [], a, l.
  - destruct (position p l) as [j|]; simpl; [|done]. intros [= <-].
    destruct (IH j eq_refl) as (l1 & x & l2 & -> & <- & Hx & Hl).
    exists (a :: l1), x, l2. split_and!; try done. by constructor.
Qed.

Lemma position_lookup {A} (p : A -> bool) (l : list A) i : position p l = Some i -> exists x, l !! i = Some x /\ p x = true.
Proof.
  intros H. apply position_some in H as (l1 & x & l2 & -> & <- & Hx & _). exists x. split; [|done].
  by apply list_lookup_middle.
Qed.

Lemma position_none {A} (p : A -> bool) l :
  position p l = None -> Forall (fun y => p y = false) l.
Proof.
  induction l as [|a l IH]; simpl; [done|].
  destruct (p a) eqn:Ha; [done|]. destruct (position p l); [done|]. constructor; auto.
Qed.

Lemma existsb_elem {A} (p : A -> bool) l : existsb p l = true <-> exists x, x ∈ l /\ p x = true.
Proof. rewrite existsb_exists. by setoid_rewrite list_elem_of_In. Qed.

Lemma existsb_elem_false {A} (p : A -> bool) l : existsb p l = false <-> forall x, x ∈ l -> p x = false.
Proof.
  rewrite <-not_true_iff_false, existsb_elem. split.
  - intros H x Hx. apply not_true_iff_false. naive_solver.
  - intros H (x & Hx & Hp). rewrite H in Hp; done.
Qed.

(** ** The stable sort *)

Section sort_by.
Context {A : Type} (le : A -> A -> bool).

Lemma insert_by_perm x l : insert_by le x l ≡ₚ x :: l.
Proof.
  induction l as [|y l IH]; simpl; [done|].
  destruct (le x y); [done|]. rewrite IH. apply Permutation_swap.
Qed.

Lemma sort_by_perm l : sort_by le l ≡ₚ l.
Proof. induction l as [|x l IH]; simpl; [done|]. by rewrite insert_by_perm, IH. Qed.

Lemma elem_of_sort_by x l : x ∈ sort_by le l <-> x ∈ l.
Proof. by rewrite sort_by_perm. Qed.

Lemma length_sort_by l : length (sort_by le l) = length l.
Proof. by rewrite sort_by_perm. Qed.

Context (le_total : forall x y, le x y = true \/ le y x = true).
Context (le_trans : forall x y z, le x y = true -> le y z = true -> le x z = true).

Lemma insert_by_sorted x l :
  StronglySorted (fun a b => le a b = true) l ->
  StronglySorted (fun a b => le a b = true) (insert_by le x l).
Proof using le_total le_trans.
  induction 1 as [|y l Hl IH Hy]; simpl; [repeat constructor|].
  destruct (le x y) eqn:E.
  - constructor; [by constructor|]. constructor; [done|].
    eapply Forall_impl; [apply Hy|]. simpl. eauto.
  - constructor; [done|]. rewrite insert_by_perm. constructor; [|done].
    destruct (le_total x y); congruence.
Qed.

Lemma sort_by_sorted l : StronglySorted (fun a b => le a b = true) (sort_by le l).
Proof using le_total le_trans. induction l; simpl; [constructor|]. by apply insert_by_sorted. Qed.

(** Two permutations sort to the same list when the order separates their
    elements. *)
Lemma sorted_unique l1 l2 :
  (forall x y, x ∈ l1 -> y ∈ l1 -> le x y = true -> le y x = true -> x = y) ->
  StronglySorted (fun a b => le a b = true) l1 ->
  StronglySorted (fun a b => le a b = true) l2 ->
  l1 ≡ₚ l2 -> l1 = l2.
Proof using Type.
  intros Hanti H1. revert l2; induction H1 as [|x l1 H1 IH Hx]; intros l2 H2 HP.
  - by apply Permutation_nil in HP.
  - destruct H2 as [|y l2 H2 Hy]; [symmetry in HP; by apply Permutation_nil_cons in HP|].
    assert (x = y) as ->.
    { assert (x ∈ y :: l2) as Hxin by (rewrite <-HP; left).
      assert (y ∈ x :: l1) as Hyin by (rewrite HP; left).
      apply elem_of_cons in Hxin as [->|Hxin]; [done|].
      apply elem_of_cons in Hyin as [->|Hyin]; [done|].
      rewrite Forall_forall in Hx, Hy.
      apply Hanti; [left|by right|by apply Hx|by apply Hy]. }
    f_equal. apply IH; [|done|by apply (Permutation_cons_inv (a:=y))].
    intros a b Ha Hb. apply Hanti; by right.
Qed.

Lemma sort_by_perm_eq l1 l2 :
  (forall x y, x ∈ l1 -> y ∈ l1 -> le x y = true -> le y x = true -> x = y) ->
  l1 ≡ₚ l2 -> sort_by le l1 = sort_by le l2.
Proof using le_total le_trans.
  intros Hanti HP. apply sorted_unique; try apply sort_by_sorted.
  - intros x y. rewrite !elem_of_sort_by. apply Hanti.
  - by rewrite !sort_by_perm.
Qed.
End sort_by.

(** The sort is stable: it does nothing to a list already in order. *)
Lemma sort_by_id {A} (le : A -> A -> bool) l :
  StronglySorted (fun a b => le a b = true) l -> sort_by le l = l.
Proof.
  induction 1 as [|x l Hl IH Hx]; simpl; [done|]. rewrite IH.
  destruct l as [|y l]; [done|]. simpl. inversion_clear Hx as [|? ? Hxy _]. by rewrite Hxy.
Qed.

Lemma Permutation_filter {A} (p : A -> bool) (l1 l2 : list A) :
  l1 ≡ₚ l2 -> List.filter p l1 ≡ₚ List.filter p l2.
Proof.
  induction 1 as [|x l l' _ IH|x y l|l l' l'' _ IH1 _ IH2]; simpl.
  - done.
  - destruct (p x); [by constructor|done].
  - destruct (p x), (p y); [apply Permutation_swap|done..].
  - by transitivity (List.filter p l').
Qed.

Lemma filter_sublist {A} (p : A -> bool) (l : list A) : sublist (List.filter p l) l.
Proof. induction l as [|x l IH]; simpl; [constructor|]. destruct (p x); by constructor. Qed.

Lemma NoDup_fmap_sublist {A B} (f : A -> B) (l1 l2 : list A) :
  sublist l1 l2 -> NoDup (f <$> l2) -> NoDup (f <$> l1).
Proof. intros H Hnd. eapply sublist_NoDup; [done|]. by apply fmap_sublist. Qed.

Lemma elem_of_filter_b {A} (p : A -> bool) (l : list A) x :
  x ∈ List.filter p l <-> x ∈ l /\ p x = true.
Proof. rewrite !list_elem_of_In. apply filter_In. Qed.

Lemma filter_filter_b {A} (p q : A -> bool) (l : list A) :
  List.filter q (List.filter p l) = List.filter (fun x => p x && q x) l.
Proof. induction l as [|x l IH]; simpl; [done|]. destruct (p x); simpl; by rewrite IH. Qed.

Lemma StronglySorted_sublist {A} (R : relation A) (l1 l2 : list A) :
  sublist l1 l2 -> StronglySorted R l2 -> StronglySorted R l1.
Proof.
  induction 1 as [|x l1 l2 H IH|x l1 l2 H IH]; intros Hs; [done| |];
    inversion_clear Hs as [|? ? Hs' Hall]; [|by apply IH].
  constructor; [by apply IH|]. rewrite Forall_forall in Hall |- *.
  intros y Hy. apply Hall. by eapply sublist_subseteq.
Qed.

Lemma NoDup_snoc_iff {A} (l : list A) x : NoDup (l ++ [x]) <-> NoDup l /\ ~ x ∈ l.
Proof.
  rewrite NoDup_app. split.
  - intros (H & Hd & _). split; [done|]. intros Hx. apply (Hd x Hx). left.
  - intros [H Hx]. split_and!; [done| |apply NoDup_singleton].
    intros y Hy ->%list_elem_of_singleton. done.
Qed.

Lemma map_res_forall {E A B} (f : A -> result E B) (Q : B -> Prop) l ys :
  (forall x y, f x = Ok y -> Q y) -> map_res f l = Ok ys -> Forall Q ys.
Proof.
  intros Hf. revert ys. induction l as [|x l IH]; intros ys; simpl; [by intros [= <-]|].
  destruct (f x) as [y|] eqn:Ef; [|done]. destruct (map_res f l) as [ys'|]; [|done].
  intros [= <-]. constructor; [by eapply Hf|by apply IH].
Qed.

Lemma map_res_ok {E A B} (f : A -> result E B) l ys :
  map_res f l = Ok ys <-> Forall2 (fun x y => f x = Ok y) l ys.
Proof.
  revert ys. induction l as [|x l IH]; intros ys; simpl.
  - split; [intros [= <-]; constructor|]. by inversion 1.
  - destruct (f x) as [y|] eqn:Ex.
    + destruct (map_res f l) as [ys'|] eqn:El.
      * split; [intros [= <-]; constructor; [done|by apply IH]|].
        inversion_clear 1 as [|? ? ? ? Hy Hr]. apply IH in Hr. congruence.
      * split; [done|]. inversion_clear 1 as [|? ? ? ? Hy Hr]. apply IH in Hr. congruence.
    + split; [done|]. inversion_clear 1. congruence.
Qed.

(** A loop of checks passes when each check does. *)
Lemma map_res_checks {E A} (f : A -> result E unit) l :
  (exists us, map_res f l = Ok us) <-> forall x, x ∈ l -> f x = Ok tt.
Proof.
  rewrite <-Forall_forall. split.
  - intros [us H%map_res_ok]. induction H as [|x [] l us Hx _ IH]; by constructor.
  - intros H. exists (replicate (length l) tt). apply map_res_ok. induction H; simpl; by constructor.
Qed.

Lemma size_list_to_set_iff (l : list string) : size (list_to_set l : gset string) = length l <-> NoDup l.
Proof.
  split; [|by apply size_list_to_set]. induction l as [|x l IH]; [constructor|].
  intros H. rewrite list_to_set_cons in H. cbn [length] in H.
  assert (size (list_to_set l : gset string) <= length l) as Hle.
  { clear. induction l as [|x l IH]; [done|]. rewrite list_to_set_cons.
    pose proof (size_union_alt {[x]} (list_to_set l : gset string)) as E. rewrite size_singleton in E.
    pose proof (subseteq_size (list_to_set l ∖ {[x]} : gset string) (list_to_set l)) as Hs.
    cbn [length]. specialize (Hs ltac:(set_solver)). lia. }
  destruct (decide (x ∈ l)) as [Hx|Hx].
  - assert ({[x]} ∪ list_to_set l = (list_to_set l : gset string)) as E by (apply set_eq; set_solver).
    rewrite E in H. lia.
  - constructor; [done|]. apply IH. rewrite size_union, size_singleton in H by set_solver. lia.
Qed.

Lemma ensure_ok {E} (c : bool) (e : E) u : ensure c e = Ok u <-> c = true.
Proof. unfold ensure. destruct u, c; split; congruence. Qed.

Lemma ok_or_ok {E A} (o : option A) (e : E) a : ok_or o e = Ok a <-> o = Some a.
Proof. unfold ok_or. destruct o; split; congruence. Qed.

Lemma map_err_ok {E F A} (f : E -> F) (r : result E A) a : map_err f r = Ok a <-> r = Ok a.
Proof. unfold map_err. destruct r; split; congruence. Qed.

(** ** Automation *)

(** A fact about the result or the final state of a run that was given names. *)
Ltac by_run E :=
  match type of E with
  | ?run = (?r, ?w) =>
      let Hr := fresh in let Hw := fresh in
      assert (Hr : run.1 = r) by (rewrite E; reflexivity); assert (Hw : run.2 = w) by (rewrite E; reflexivity);
      try rewrite <- Hr; try rewrite <- Hw; clear; vm_compute; reflexivity
  end.

(** Successful steps of a [let?] chain: [r = Ok] facts come apart. *)
Ltac ok_facts :=
  repeat match goal with
  | H : ensure _ _ = Ok _ |- _ => apply ensure_ok in H
  | H : ok_or _ _ = Ok _ |- _ => apply ok_or_ok in H
  | H : map_err _ _ = Ok _ |- _ => apply map_err_ok in H
  | H : match ?r with Ok _ => _ | Err _ => _ end = Ok _ |- _ => let E := fresh "E" in destruct r eqn:E; [|discriminate H]
  | H : (let (_, _) := ?p in _) = Ok _ |- _ => destruct p
  end.

(** Decisions on texts and numbers, as the rewriting the guards of the code
    need. *)
Create HintDb guards.
Create Rewrite HintDb guards.
#[export] Hint Resolve String.eqb_refl Ascii.eqb_refl N.leb_refl N.eqb_refl str_leb_refl : guards.
#[export] Hint Rewrite @bool_decide_eq_true @bool_decide_eq_false negb_true_iff negb_false_iff andb_true_iff orb_true_iff
  String.eqb_eq String.eqb_neq N.eqb_eq N.leb_le N.ltb_lt Nat.eqb_eq Nat.leb_le Nat.ltb_lt @ensure_ok @ok_or_ok @map_err_ok : guards.

(** Guards of the code as propositions. *)
Ltac guard_facts := autorewrite with guards in *.


(** Case analysis on the members of concrete lists. *)
Ltac case_members :=
  repeat match goal with
  | H : _ ∈ [] |- _ => by apply not_elem_of_nil in H
  | H : _ ∈ _ :: _ |- _ => apply elem_of_cons in H as [->|H]
  end.
