(* ===== verification/Text.v ===== *)
(** * Text of the standard library

    The functions of Rust's [str], [u64] and formatting that the components
    share, on UTF-8 bytes: lines, trimming, splitting, decimal numbers. *)

From Stdlib Require Import DecimalString DecimalN DecimalFacts DecimalPos.
From S2P Require Import Prelude.

(** ** Text lines

    [str::lines] and [str::trim] of Rust's standard library, on UTF-8 bytes. *)
Module Lines.
Definition newline : ascii := "010"%char.
Definition carriage_return : ascii := "013"%char.

(** [split_inclusive('\n')] *)
Fixpoint split_inclusive (s : string) : list string :=
  match s with
  | EmptyString => []
  | String c s' =>
      if Ascii.eqb c newline then String c EmptyString :: split_inclusive s'
      else match split_inclusive s' with
           | [] => [String c EmptyString]
           | l :: ls => String c l :: ls
           end
  end.

(** [strip_suffix(c)] *)
Fixpoint strip_suffix_char (c : ascii) (s : string) : option string :=
  match s with
  | EmptyString => None
  | String a EmptyString => if Ascii.eqb a c then Some EmptyString else None
  | String a s' => String a <$> strip_suffix_char c s'
  end.

Definition strip_eol (line : string) : string :=
  match strip_suffix_char newline line with
  | None => line
  | Some line' => default line' (strip_suffix_char carriage_return line')
  end.

Definition lines (s : string) : list string := strip_eol <$> split_inclusive s.

Definition byte_in (lo hi : N) (c : ascii) : bool :=
  (lo <=? N_of_ascii c)%N && (N_of_ascii c <=? hi)%N.
Definition byte_is (n : N) (c : ascii) : bool := (N_of_ascii c =? n)%N.

(** [s.trim().is_empty()]: every character is Unicode white space, one to
    three bytes long. *)
Fixpoint trim_is_empty (s : string) : bool :=
  match s with
  | EmptyString => true
  | String a s1 =>
      if byte_in 9 13 a || byte_is 32 a then trim_is_empty s1
      else match s1 with
           | String b s2 =>
               if byte_is 194 a && (byte_is 133 b || byte_is 160 b) then trim_is_empty s2
               else match s2 with
                    | String c s3 =>
                        if (byte_is 225 a && byte_is 154 b && byte_is 128 c)
                           || (byte_is 226 a && byte_is 128 b
                               && (byte_in 128 138 c || byte_is 168 c || byte_is 169 c || byte_is 175 c))
                           || (byte_is 226 a && byte_is 129 b && byte_is 159 c)
                           || (byte_is 227 a && byte_is 128 b && byte_is 128 c)
                        then trim_is_empty s3 else false
                    | EmptyString => false
                    end
           | EmptyString => false
           end
  end.

Lemma split_inclusive_line l s :
  str_forallb (fun c => (32 <=? N_of_ascii c)%N) l = true ->
  split_inclusive (l +:+ String newline s) = (l +:+ String newline EmptyString) :: split_inclusive s.
Proof.
  induction l as [|c l IH]; intros H; [done|].
  simpl in H. apply andb_true_iff in H as [Hc Hl].
  change (String c l +:+ String newline s) with (String c (l +:+ String newline s)).
  simpl split_inclusive. destruct (Ascii.eqb_spec c newline) as [->|_]; [done|].
  by rewrite IH.
Qed.

Lemma strip_suffix_char_app l c a :
  strip_suffix_char c (l +:+ String a EmptyString) = if Ascii.eqb a c then Some l else None.
Proof.
  induction l as [|b l IH]; [done|].
  change (String b l +:+ String a EmptyString) with (String b (l +:+ String a EmptyString)).
  assert (exists d r, l +:+ String a EmptyString = String d r) as (d & r & E).
  { destruct l; simpl; eauto. }
  simpl. rewrite E. rewrite E in IH. rewrite IH. by destruct (Ascii.eqb a c).
Qed.

Lemma strip_suffix_char_plain l c :
  (N_of_ascii c < 32)%N -> str_forallb (fun c => (32 <=? N_of_ascii c)%N) l = true ->
  strip_suffix_char c l = None.
Proof.
  intros Hc. induction l as [|a l IH]; simpl; [done|]. intros [Ha Hl]%andb_true_iff.
  destruct l as [|b l]; [|by rewrite IH].
  destruct (Ascii.eqb_spec a c) as [->|_]; [lia|done].
Qed.

Lemma lines_line l s :
  str_forallb (fun c => (32 <=? N_of_ascii c)%N) l = true ->
  lines (l +:+ String newline s) = l :: lines s.
Proof.
  intros H. unfold lines. rewrite split_inclusive_line by done. simpl. f_equal.
  unfold strip_eol. rewrite strip_suffix_char_app. simpl.
  by rewrite strip_suffix_char_plain.
Qed.

(** Text whose lines are [ls], each ended by a newline. *)
Fixpoint unlines (ls : list string) : string :=
  match ls with
  | [] => EmptyString
  | l :: ls => l +:+ String newline (unlines ls)
  end.

Lemma unlines_snoc ls l : unlines (ls ++ [l]) = unlines ls +:+ (l +:+ String newline EmptyString).
Proof.
  induction ls as [|k ls IH]; [done|]. simpl. by rewrite IH, str_app_assoc, str_app_cons.
Qed.

Lemma lines_unlines ls :
  Forall (fun l => str_forallb (fun c => (32 <=? N_of_ascii c)%N) l = true) ls ->
  lines (unlines ls) = ls.
Proof. induction 1 as [|l ls Hl _ IH]; [done|]. simpl. by rewrite lines_line, IH. Qed.
End Lines.

(** ** Appending to a file

    The outcome of [write_all], [flush] and [sync_data]: a failure may leave
    some bytes of the record behind. *)
Inductive WriteOutcome :=
| Written
| WriteFailed (partial : string) (error : string).

(** ** Decimal numbers: [Display] and [FromStr] of [u64] *)

Definition u64_to_string (n : N) : string := NilZero.string_of_uint (N.to_uint n).

Definition parse_u64 (s : string) : option N :=
  let digits := match s with String "+" rest => rest | _ => s end in
  match NilZero.uint_of_string digits with
  | Some d => let n := N.of_uint d in if (n <=? u64_max)%N then Some n else None
  | None => None
  end.

(** ** Searching and trimming *)

(** [str::trim]. *)
Fixpoint trim_start (s : string) : string :=
  match s with
  | EmptyString => EmptyString
  | String a s1 =>
      if Lines.byte_in 9 13 a || Lines.byte_is 32 a then trim_start s1
      else match s1 with
           | String b s2 =>
               if Lines.byte_is 194 a && (Lines.byte_is 133 b || Lines.byte_is 160 b) then trim_start s2
               else match s2 with
                    | String c s3 =>
                        if (Lines.byte_is 225 a && Lines.byte_is 154 b && Lines.byte_is 128 c)
                           || (Lines.byte_is 226 a && Lines.byte_is 128 b
                               && (Lines.byte_in 128 138 c || Lines.byte_is 168 c || Lines.byte_is 169 c
                                   || Lines.byte_is 175 c))
                           || (Lines.byte_is 226 a && Lines.byte_is 129 b && Lines.byte_is 159 c)
                           || (Lines.byte_is 227 a && Lines.byte_is 128 b && Lines.byte_is 128 c)
                        then trim_start s3 else s
                    | EmptyString => s
                    end
           | EmptyString => s
           end
  end.

Fixpoint trim_end (s : string) : string :=
  if Lines.trim_is_empty s then EmptyString
  else match s with EmptyString => EmptyString | String a s => String a (trim_end s) end.

Definition trim (s : string) : string := trim_end (trim_start s).

(** [str::split_once(c)]. *)
Fixpoint split_once (c : ascii) (s : string) : option (string * string) :=
  match s with
  | EmptyString => None
  | String a s' =>
      if Ascii.eqb a c then Some (EmptyString, s')
      else match split_once c s' with
           | Some (l, r) => Some (String a l, r)
           | None => None
           end
  end.

(** [str::split(c)]: never empty. *)
Fixpoint split_on (c : ascii) (s : string) : list string :=
  match s with
  | EmptyString => [EmptyString]
  | String a s' =>
      if Ascii.eqb a c then EmptyString :: split_on c s'
      else match split_on c s' with
           | [] => [String a EmptyString]
           | l :: ls => String a l :: ls
           end
  end.

(** Texts joined by a separator. *)
Fixpoint join_with (c : ascii) (parts : list string) : string :=
  match parts with
  | [] => EmptyString
  | [s] => s
  | s :: rest => s +:+ String c (join_with c rest)
  end.

(** [str::contains(needle)]. *)
Fixpoint str_contains (needle s : string) : bool :=
  String.prefix needle s ||
  match s with EmptyString => false | String _ s' => str_contains needle s' end.

(** [str::trim_end_matches(c)]. *)
Fixpoint trim_end_matches (c : ascii) (s : string) : string :=
  match s with
  | EmptyString => EmptyString
  | String a s' =>
      match trim_end_matches c s' with
      | EmptyString => if Ascii.eqb a c then EmptyString else String a EmptyString
      | t => String a t
      end
  end.

Definition to_ascii_lowercase_char (c : ascii) : ascii :=
  let n := N_of_ascii c in
  if (65 <=? n)%N && (n <=? 90)%N then ascii_of_N (n + 32) else c.

Fixpoint to_ascii_lowercase (s : string) : string :=
  match s with
  | EmptyString => EmptyString
  | String c s' => String (to_ascii_lowercase_char c) (to_ascii_lowercase s')
  end.

Lemma lowercase_char_idem c : to_ascii_lowercase_char (to_ascii_lowercase_char c) = to_ascii_lowercase_char c.
Proof. by destruct c as [[] [] [] [] [] [] [] []]. Qed.

Lemma lowercase_idem s : to_ascii_lowercase (to_ascii_lowercase s) = to_ascii_lowercase s.
Proof. induction s as [|c s IH]; [done|]. cbn [to_ascii_lowercase]. by rewrite lowercase_char_idem, IH. Qed.

Lemma lowercase_length s : String.length (to_ascii_lowercase s) = String.length s.
Proof. induction s as [|c s IH]; [done|]. cbn. by rewrite IH. Qed.

(** [str::eq_ignore_ascii_case]. *)
Definition eq_ignore_ascii_case (a b : string) : bool :=
  String.eqb (to_ascii_lowercase a) (to_ascii_lowercase b).

(** [{:?}] of a [str], for texts whose other characters are printable. *)
Definition hex_digit (n : N) : ascii :=
  if (n <? 10)%N then ascii_of_N (48 + n) else ascii_of_N (87 + n).

Definition debug_char (c : ascii) : string :=
  let n := N_of_ascii c in
  if (n =? 34)%N then String "\" (String c EmptyString)
  else if (n =? 92)%N then String "\" (String c EmptyString)
  else if (n =? 0)%N then "\0"
  else if (n =? 9)%N then "\t"
  else if (n =? 10)%N then "\n"
  else if (n =? 13)%N then "\r"
  else if (n <? 16)%N then "\u{" +:+ String (hex_digit n) "}"
  else if (n <? 32)%N || (n =? 127)%N
       then "\u{" +:+ String (hex_digit (n / 16)) (String (hex_digit (n mod 16)) "}")
  else String c EmptyString.

Fixpoint debug_chars (s : string) : string :=
  match s with
  | EmptyString => EmptyString
  | String c s' => debug_char c +:+ debug_chars s'
  end.

Definition quote : ascii := "034"%char.
Definition debug_str (s : string) : string :=
  String quote (debug_chars s +:+ String quote EmptyString).

(** ** Lemmas *)

Lemma strip_prefix_app p s : strip_prefix p (p +:+ s) = Some s.
Proof.
  induction p as [|a p IH]; [done|]. rewrite str_app_cons. simpl. by rewrite Ascii.eqb_refl.
Qed.

Lemma strip_prefix_some p s t : strip_prefix p s = Some t -> s = p +:+ t.
Proof.
  revert s. induction p as [|a p IH]; intros s; simpl; [by intros [= ->]|].
  destruct s as [|b s]; [done|]. destruct (Ascii.eqb_spec a b) as [->|]; [|done]. intros H. by rewrite (IH _ H).
Qed.

Lemma string_of_uint_no_plus d rest : NilZero.string_of_uint d <> String "+" rest.
Proof. destruct d; simpl; congruence. Qed.

Lemma parse_u64_to_string n : (n <= u64_max)%N -> parse_u64 (u64_to_string n) = Some n.
Proof.
  intros Hn. unfold parse_u64, u64_to_string. set (d := N.to_uint n).
  assert (match NilZero.string_of_uint d with String "+" rest => rest | _ => NilZero.string_of_uint d end =
          NilZero.string_of_uint d) as ->.
  { pose proof (string_of_uint_no_plus d) as Hp.
    destruct (NilZero.string_of_uint d) as [|[[] [] [] [] [] [] [] []] r]; try done.
    by destruct (Hp r). }
  rewrite NilZero.usu.
  - unfold d. rewrite DecimalN.Unsigned.of_to. by assert ((n <=? u64_max)%N = true) as -> by lia.
  - unfold d. destruct n as [|p]; [done|]. simpl.
    pose proof (DecimalPos.Unsigned.to_uint_nonnil p). by destruct (Pos.to_uint p).
Qed.

(** Decimal digits are plain characters. *)
Definition is_digit (c : ascii) : bool := Lines.byte_in 48 57 c.

(** What follows the first occurrence. *)
Fixpoint after_str (needle s : string) : option string :=
  match strip_prefix needle s with
  | Some rest => Some rest
  | None => match s with EmptyString => None | String _ r => after_str needle r end
  end.

Fixpoint take_digits (s : string) : string * string :=
  match s with
  | String c r => if is_digit c then let '(d, t) := take_digits r in (String c d, t) else (EmptyString, s)
  | EmptyString => (EmptyString, EmptyString)
  end.

Lemma str_forallb_impl (f g : ascii -> bool) s :
  (forall c, f c = true -> g c = true) -> str_forallb f s = true -> str_forallb g s = true.
Proof.
  intros H. induction s as [|c s IH]; simpl; [done|].
  intros [Hc Hs]%andb_true_iff. apply andb_true_iff. auto.
Qed.

Lemma str_forallb_app f s t : str_forallb f (s +:+ t) = str_forallb f s && str_forallb f t.
Proof. induction s as [|c s IH]; [done|]. rewrite str_app_cons. simpl. by rewrite IH, andb_assoc. Qed.

Lemma string_of_uint_digits d : str_forallb is_digit (NilEmpty.string_of_uint d) = true.
Proof. induction d; simpl; try done. Qed.

Lemma u64_to_string_digits n : str_forallb is_digit (u64_to_string n) = true.
Proof.
  unfold u64_to_string, NilZero.string_of_uint.
  pose proof (string_of_uint_digits (N.to_uint n)). by destruct (N.to_uint n).
Qed.

Lemma split_once_app c l r :
  str_forallb (fun a => negb (Ascii.eqb a c)) l = true ->
  split_once c (l +:+ String c r) = Some (l, r).
Proof.
  induction l as [|a l IH]; [simpl; by rewrite Ascii.eqb_refl|]. cbn [str_forallb].
  intros [Ha Hl]%andb_true_iff. apply negb_true_iff in Ha.
  change (String a l +:+ String c r) with (String a (l +:+ String c r)). simpl.
  by rewrite Ha, IH.
Qed.

(** Text of printable ASCII has nothing to trim. *)
Definition printable (c : ascii) : bool := Lines.byte_in 33 126 c.

Lemma printable_not_blank c : printable c = true ->
  Lines.byte_in 9 13 c || Lines.byte_is 32 c = false /\
  Lines.byte_is 194 c = false /\ Lines.byte_is 225 c = false /\ Lines.byte_is 226 c = false /\ Lines.byte_is 227 c = false.
Proof. unfold printable, Lines.byte_in, Lines.byte_is. lia. Qed.

Lemma trim_printable s : str_forallb printable s = true -> trim s = s.
Proof.
  intros H. unfold trim. assert (trim_start s = s) as ->.
  { destruct s as [|a s]; [done|]. cbn [str_forallb] in H. apply andb_true_iff in H as [Ha _].
    apply printable_not_blank in Ha as (H1 & H2 & H3 & H4 & H5). cbn [trim_start]. rewrite H1, H2, H3, H4, H5.
    by destruct s as [|? [|? ?]]. }
  induction s as [|a s IH]; [done|]. cbn [str_forallb] in H. apply andb_true_iff in H as [Ha Hs].
  apply printable_not_blank in Ha as (H1 & H2 & H3 & H4 & H5). cbn [trim_end Lines.trim_is_empty].
  rewrite H1, H2, H3, H4, H5. simpl. rewrite IH by done. by destruct s as [|? [|? ?]].
Qed.

(** *** Prefixes of decimal texts *)

Lemma decimal_rev_app d1 d2 : Decimal.rev (Decimal.app d1 d2) = Decimal.revapp d2 (Decimal.rev d1).
Proof.
  apply to_list_inj. by rewrite rev_spec, app_spec, revapp_spec, rev_spec, rev_append_rev, rev_app_distr.
Qed.

Lemma of_uint_app_le d1 d2 : (N.of_uint d1 <= N.of_uint (Decimal.app d1 d2))%N.
Proof.
  unfold N.of_uint. rewrite !DecimalPos.Unsigned.of_uint_alt, decimal_rev_app, DecimalPos.Unsigned.of_lu_revapp.
  assert (1 <= 10 ^ DecimalPos.Unsigned.usize d2)%N; [|nia].
  pose proof (N.pow_nonzero 10 (DecimalPos.Unsigned.usize d2)). lia.
Qed.

Lemma uint_of_char_app c d0 d d1 d2 :
  uint_of_char c (Some (Decimal.app d1 d2)) = Some d -> uint_of_char c (Some d1) = Some d0 ->
  d = Decimal.app d0 d2.
Proof.
  intros H H0. apply uint_of_char_spec in H, H0. apply to_list_inj. rewrite app_spec.
  repeat (destruct H as [[Hc ->]|H]); try destruct H as [Hc ->];
    repeat (destruct H0 as [[H0c ->]|H0]); try destruct H0 as [H0c ->];
    try (subst; discriminate); simpl; by rewrite app_spec.
Qed.

Lemma uint_of_string_app t r d d1 :
  NilEmpty.uint_of_string (t +:+ r) = Some d -> NilEmpty.uint_of_string t = Some d1 ->
  exists d2, d = Decimal.app d1 d2.
Proof.
  revert d d1. induction t as [|c t IH]; intros d d1; [|rewrite str_app_cons]; cbn [NilEmpty.uint_of_string].
  - intros _ [= <-]. exists d. apply to_list_inj. by rewrite app_spec.
  - destruct (NilEmpty.uint_of_string t) as [dt|] eqn:Et; [|done].
    destruct (NilEmpty.uint_of_string (t +:+ r)) as [dtr|] eqn:Etr; [|done].
    intros H H1. destruct (IH dtr dt eq_refl eq_refl) as (d2 & ->). exists d2. by eapply uint_of_char_app.
Qed.

(** What [u64::from_str] accepts is printable. *)
Lemma uint_of_string_digits s d : NilZero.uint_of_string s = Some d -> str_forallb is_digit s = true.
Proof.
  intros H. apply NilZero.sus in H. subst s. unfold NilZero.string_of_uint.
  pose proof (string_of_uint_digits d). by destruct d.
Qed.

Lemma parse_u64_spec s n : parse_u64 s = Some n ->
  exists digits d, (s = digits \/ s = String "+" digits) /\ NilZero.uint_of_string digits = Some d /\ n = N.of_uint d /\
    (s = digits -> forall rest, s <> String "+" rest).
Proof.
  unfold parse_u64. set (digits := match s with String "+" rest => rest | _ => s end).
  destruct (NilZero.uint_of_string digits) as [d|] eqn:E; [|done].
  destruct (_ <=? _)%N; [|done]. intros [= <-]. exists digits, d.
  assert (s = digits \/ s = String "+" digits) as Hor.
  { unfold digits. destruct s as [|[[] [] [] [] [] [] [] []] s]; by auto. }
  split_and!; try done. intros Es rest ->. unfold digits in Es. simpl in Es.
  apply (f_equal String.length) in Es. simpl in Es. lia.
Qed.

Lemma digit_printable c : is_digit c = true -> printable c = true.
Proof. unfold is_digit, printable, Lines.byte_in. lia. Qed.

Lemma parse_u64_printable s n : parse_u64 s = Some n -> str_forallb printable s = true.
Proof.
  intros (digits & d & Hor & Hd%uint_of_string_digits & _)%parse_u64_spec.
  apply (str_forallb_impl _ _ _ digit_printable) in Hd. by destruct Hor as [-> | ->].
Qed.

(** A prefix of a number's text that is a number is no larger. *)
Lemma parse_u64_prefix t r n m :
  parse_u64 (t +:+ r) = Some n -> parse_u64 t = Some m -> (m <= n)%N.
Proof.
  intros (ds & d & Hor & Hd & -> & Hno)%parse_u64_spec (ds' & d' & Hor' & Hd' & -> & Hno')%parse_u64_spec.
  assert (exists r', ds = ds' +:+ r') as [r' ->].
  { destruct Hor' as [-> | ->], Hor as [H|H].
    - exists r. by rewrite <-H.
    - destruct ds' as [|c ds']; [done|]. rewrite str_app_cons in H. injection H as -> _.
      by destruct (Hno' eq_refl ds').
    - rewrite str_app_cons in H. by destruct (Hno ltac:(by rewrite str_app_cons) (ds' +:+ r)).
    - exists r. rewrite str_app_cons in H. by injection H as <-. }
  destruct ds' as [|c ds']; [done|]. rewrite str_app_cons in Hd. unfold NilZero.uint_of_string in Hd, Hd'.
  rewrite <-str_app_cons in Hd. destruct (uint_of_string_app _ _ _ _ Hd Hd') as (d2 & ->). apply of_uint_app_le.
Qed.

(** *** Splitting and joining *)

Lemma split_on_none c s :
  str_forallb (fun a => negb (Ascii.eqb a c)) s = true -> split_on c s = [s].
Proof.
  induction s as [|a s IH]; [done|]. cbn [str_forallb split_on]. intros [Ha Hs]%andb_true_iff.
  apply negb_true_iff in Ha. by rewrite Ha, IH.
Qed.

Lemma split_on_app c s t :
  str_forallb (fun a => negb (Ascii.eqb a c)) s = true -> split_on c (s +:+ String c t) = s :: split_on c t.
Proof.
  induction s as [|a s IH]; intros H.
  - change (EmptyString +:+ String c t) with (String c t). cbn [split_on]. by rewrite Ascii.eqb_refl.
  - revert H. cbn [str_forallb]. intros [Ha Hs]%andb_true_iff. apply negb_true_iff in Ha.
    change (String a s +:+ String c t) with (String a (s +:+ String c t)). cbn [split_on]. by rewrite Ha, IH.
Qed.

Lemma split_on_join c ss :
  ss <> [] -> Forall (fun s => str_forallb (fun a => negb (Ascii.eqb a c)) s = true) ss ->
  split_on c (join_with c ss) = ss.
Proof.
  induction ss as [|s ss IH]; [done|]. intros _ [Hs Hss]%Forall_cons.
  destruct ss as [|t ss]; [by apply split_on_none|].
  cbn [join_with]. rewrite split_on_app by done. f_equal. by apply IH.
Qed.

Lemma join_split_on c s : join_with c (split_on c s) = s.
Proof.
  induction s as [|a s IH]; [done|]. cbn [split_on]. destruct (Ascii.eqb_spec a c) as [->|Hne].
  - destruct (split_on c s) as [|l ls] eqn:E; [by destruct s as [|? ?]; cbn in E; repeat case_match|].
    cbn [join_with] in *. by rewrite IH.
  - destruct (split_on c s) as [|l ls] eqn:E; [by destruct s as [|? ?]; cbn in E; repeat case_match|].
    destruct ls as [|l2 ls]; cbn [join_with] in *; rewrite <-IH; [done|by rewrite str_app_cons].
Qed.

Lemma split_on_pieces c s : Forall (fun p => str_forallb (fun a => negb (Ascii.eqb a c)) p = true) (split_on c s).
Proof.
  induction s as [|a s IH]; cbn [split_on]; [by constructor|].
  destruct (Ascii.eqb a c) eqn:E; [by constructor|].
  destruct (split_on c s) as [|l ls]; [constructor; [|done]; cbn [str_forallb]; by rewrite E|].
  apply Forall_cons in IH as [Hl Hls]. constructor; [|done]. cbn [str_forallb]. by rewrite E, Hl.
Qed.

(** *** Canonical decimals *)

(** Digits without a leading zero are the text of the number they denote. *)
Lemma canonical_decimal s n :
  str_forallb is_digit s = true -> (s = "0" \/ starts_with s "0" = false) -> parse_u64 s = Some n ->
  u64_to_string n = s.
Proof.
  intros Hd Hz (digits & d & Hor & Hp & -> & _)%parse_u64_spec.
  assert (s = digits) as ->. { destruct Hor as [|H]; [done|]. subst s. cbn in Hd. done. }
  pose proof (NilZero.sus _ _ Hp) as Hs. pose proof (NilZero.uint_of_string_nonnil digits) as Hn. rewrite Hp in Hn.
  unfold u64_to_string. rewrite DecimalN.Unsigned.to_of.
  assert (Decimal.unorm d = d) as Hu; [|rewrite Hu; exact Hs].
  unfold NilZero.string_of_uint in Hs. destruct d; try done.
  destruct Hz as [->|Hz].
  - cbn in Hp. by injection Hp as <-.
  - rewrite <-Hs in Hz. unfold starts_with in Hz. simpl in Hz. by destruct (NilEmpty.string_of_uint d).
Qed.

Lemma u64_to_string_canonical n :
  u64_to_string n <> EmptyString /\ (1 <? String.length (u64_to_string n))%nat && starts_with (u64_to_string n) "0" = false.
Proof.
  unfold u64_to_string, NilZero.string_of_uint, starts_with.
  assert (Decimal.unorm (N.to_uint n) = N.to_uint n) as Hu.
  { by rewrite <-DecimalN.Unsigned.to_of, DecimalN.Unsigned.of_to. }
  destruct (N.to_uint n) as [|d|d|d|d|d|d|d|d|d|d]; split; try done; try (by destruct (NilEmpty.string_of_uint d); rewrite ?andb_false_r).
  unfold Decimal.unorm in Hu. cbn [Decimal.nzhead] in Hu. destruct (Decimal.nzhead d) eqn:E; try discriminate Hu.
  - injection Hu as <-. done.
  - by destruct (nzhead_nonzero d u).
Qed.

(** ** Sizes, joining and character boundaries *)

(** [str::len]. *)
Definition len (s : string) : N := N.of_nat (String.length s).

Lemma str_length_add a b : String.length (a +:+ b) = String.length a + String.length b.
Proof. induction a as [|x a IH]; [done|]. rewrite str_app_cons. cbn [String.length]. by rewrite IH. Qed.

Lemma len_app a b : len (a +:+ b) = (len a + len b)%N.
Proof. unfold len. rewrite str_length_add. lia. Qed.

(** [Vec<String>::join(sep)]. *)
Fixpoint join_str (sep : string) (l : list string) : string :=
  match l with [] => EmptyString | [x] => x | x :: rest => x +:+ sep +:+ join_str sep rest end.

(** A byte that begins a character. *)
Definition char_start (c : ascii) : bool := negb (Lines.byte_in 128 191 c).

(** [str::is_char_boundary]. *)
Definition is_char_boundary (s : string) (i : nat) : bool :=
  (i =? 0)%nat || match String.get i s with Some c => char_start c | None => (i =? String.length s)%nat end.
