(* ===== verification/Nostr.v ===== *)
(** * Nostr values and the third-party interface

    The data the program takes from the [nostr], [uuid] and [serde_json]
    crates, and a class [NostrLib] of the functions it calls there.  The crates
    are not part of the repository, so their functions are parameters of every
    definition that uses them; [NostrLaws] states the documented facts that the
    theorems rely on.  The relay's own wrappers of these values,
    [buzz-core/src/event.rs] and [buzz-core/src/verification.rs], are modelled
    here too. *)

From S2P Require Import Prelude.

(** Event ids and public keys are 32-byte values that the program only
    compares, hashes and prints: they are represented by their lowercase hex
    text, the value of [to_hex]. *)
Definition EventId := string.
Definition PublicKey := string.
Definition to_hex (x : string) : string := x.

(** A tag is its array of strings, the value of [Tag::as_slice]. *)
Definition Tag := list string.

(** A 128-bit UUID. *)
Definition Uuid := N.

(** Tag kinds the program matches on; every other kind is [TK_Other]. *)
Inductive TagKind :=
| SingleLetterLower (c : ascii)
| TK_Challenge
| TK_Relay
| TK_Payload
| TK_Method
| TK_Other (name : string).

#[global] Instance TagKind_eq_dec : EqDecision TagKind.
Proof. solve_decision. Defined.

(** [nostr::Event]. [created_at] is a [u64] of seconds, [kind] a [u16]. *)
Record Event := mkEvent {
  ev_id : EventId;
  ev_pubkey : PublicKey;
  ev_created_at : N;
  ev_kind : N;
  ev_tags : list Tag;
  ev_content : string;
  ev_sig : string;
}.

#[global] Instance Event_eq_dec : EqDecision Event.
Proof. solve_decision. Defined.

(** [nostr::Filter]. The key of a generic tag is its printed letter. *)
Record Filter := mkFilter {
  f_ids : option (list EventId);
  f_authors : option (list PublicKey);
  f_kinds : option (list N);
  f_search : option string;
  f_since : option N;
  f_until : option N;
  f_limit : option nat;
  f_generic_tags : list (string * list string);
}.

(** [Filter::new()]. *)
Definition Filter_new : Filter := mkFilter None None None None None None None [].

(** Functions of the crates. *)
Class NostrLib := {
  verify_id : Event -> bool;
  verify_signature : Event -> bool;
  (** [EventId::new(pubkey, created_at, kind, tags, content)] *)
  EventId_new : PublicKey -> N -> N -> list Tag -> string -> EventId;
  EventId_from_hex : string -> option EventId;
  PublicKey_from_hex : string -> option PublicKey;
  (** [Tag::kind] and [Tag::content], [TagKind]'s [Display] *)
  tag_kind : Tag -> TagKind;
  tag_content : Tag -> option string;
  tag_kind_to_string : TagKind -> string;
  (** [Tags::filter] and [Tags::find] *)
  tags_filter : TagKind -> list Tag -> list Tag;
  tags_find : TagKind -> list Tag -> option Tag;
  Uuid_parse : string -> option Uuid;
  Uuid_to_string : Uuid -> string;
  (** hex of the SHA-256 digest of a byte string *)
  sha256_hex : string -> string;
}.

(** Documented facts of the crates: a tag's content is its second item, a
    tag's kind prints as its first item and is a letter when that is one,
    [Tags::filter] and [Tags::find] select
    by kind, an event's id hashes its author, time, kind, tags and content,
    and prints as hex, which reads back and holds no blank. *)
Class NostrLaws (NL : NostrLib) := {
  tag_content_spec : forall t, tag_content t = t !! 1;
  tag_kind_spec : forall t n, t !! 0 = Some n -> tag_kind_to_string (tag_kind t) = n;
  tag_kind_letter : forall t c, (97 <= N_of_ascii c <= 122)%N ->
    tag_kind t = SingleLetterLower c <-> t !! 0 = Some (String c EmptyString);
  tags_filter_spec : forall k ts, tags_filter k ts = List.filter (fun t => bool_decide (tag_kind t = k)) ts;
  tags_find_spec : forall k ts, tags_find k ts = List.find (fun t => bool_decide (tag_kind t = k)) ts;
  verify_id_spec : forall e, verify_id e = true ->
    ev_id e = EventId_new (ev_pubkey e) (ev_created_at e) (ev_kind e) (ev_tags e) (ev_content e);
  verify_id_hex : forall e, verify_id e = true ->
    EventId_from_hex (to_hex (ev_id e)) = Some (ev_id e) /\
    str_forallb (fun c => (33 <=? N_of_ascii c)%N) (to_hex (ev_id e)) = true;
}.

(** JSON values: [serde_json::Value] with the accessors the program calls and
    the decoders of the types it reads. *)
Class SerdeJson := {
  Value : Type;
  from_str : string -> result string Value;
  as_str : Value -> option string;
  as_u64 : Value -> option N;
  as_bool : Value -> option bool;
  is_null : Value -> bool;
  is_array : Value -> bool;
  is_object : Value -> bool;
  as_array : Value -> option (list Value);
  (** [Value::get(field)]: [None] on a missing field and on a non-object *)
  get : Value -> string -> option Value;
  (** [serde_json::from_str::<Event>] and [serde_json::to_vec] *)
  event_from_str : string -> result string Event;
  event_to_string : Event -> result string string;
  filters_from_value : Value -> result string (list Filter);
  (** [serde_json::to_string] of a slice of strings *)
  strings_to_string : list string -> result string string;
}.

(** Documented facts of the JSON encoder: what it writes decodes to the same
    event, is an object, and holds no raw control character, since string
    contents are escaped; an array of strings reads back. *)
Class SerdeJsonLaws (SJ : SerdeJson) := {
  event_decode_encode : forall e s, event_to_string e = Ok s -> event_from_str s = Ok e;
  event_encode_object : forall e s, event_to_string e = Ok s -> String.prefix "{" s = true;
  event_encode_plain : forall e s, event_to_string e = Ok s ->
    str_forallb (fun c => (32 <=? N_of_ascii c)%N) s = true;
  strings_decode_encode : forall l s, strings_to_string l = Ok s ->
    exists v vs, from_str s = Ok v /\ as_array v = Some vs /\ as_str <$> vs = Some <$> l;
}.

(** ** [buzz-core/src/event.rs] *)
Module StoredEvent.
Record t := mk {
  event : Event;
  received_at : N;
  channel_id : option Uuid;
  verified : bool;
}.

(** [Utc::now()] is an argument. *)
Definition new (now : N) (e : Event) (ch : option Uuid) : t := mk e now ch false.

Definition is_verified (s : t) : bool := verified s.

Definition with_received_at (e : Event) (received : N) (ch : option Uuid) (v : bool) : t :=
  mk e received ch v.
End StoredEvent.

(** ** [buzz-core/src/verification.rs] *)
Inductive VerificationError :=
| VE_InvalidId (computed got : string)
| VE_InvalidSignature
| VE_Secp (error : string).

(** The [Display] of [buzz-core/src/error.rs]. *)
Definition verification_error_to_string (e : VerificationError) : string :=
  match e with
  | VE_InvalidId computed got =>
      "invalid event id: computed " +:+ computed +:+ ", got " +:+ got
  | VE_InvalidSignature => "invalid schnorr signature"
  | VE_Secp error => "secp256k1 error: " +:+ error
  end.

Section verification.
Context `{NL : NostrLib}.

Definition verify_event (e : Event) : result VerificationError unit :=
  if negb (verify_id e) then
    let computed := to_hex (EventId_new (ev_pubkey e) (ev_created_at e) (ev_kind e)
                                        (ev_tags e) (ev_content e)) in
    Err (VE_InvalidId computed (to_hex (ev_id e)))
  else if negb (verify_signature e) then Err VE_InvalidSignature
  else Ok tt.

Lemma verify_event_ok e :
  verify_event e = Ok tt <-> verify_id e = true /\ verify_signature e = true.
Proof.
  unfold verify_event. destruct (verify_id e), (verify_signature e); simpl; intuition congruence.
Qed.

(** Two verified events with one id agree on everything the id hashes; only
    their signatures may differ. *)
Lemma verified_same_id `{!NostrLaws NL} e1 e2 :
  (forall p1 t1 k1 g1 c1 p2 t2 k2 g2 c2,
      EventId_new p1 t1 k1 g1 c1 = EventId_new p2 t2 k2 g2 c2 ->
      p1 = p2 /\ t1 = t2 /\ k1 = k2 /\ g1 = g2 /\ c1 = c2) ->
  verify_event e1 = Ok tt -> verify_event e2 = Ok tt -> ev_id e1 = ev_id e2 ->
  ev_pubkey e1 = ev_pubkey e2 /\ ev_created_at e1 = ev_created_at e2 /\
  ev_kind e1 = ev_kind e2 /\ ev_tags e1 = ev_tags e2 /\ ev_content e1 = ev_content e2.
Proof.
  intros Hinj [H1 _]%verify_event_ok [H2 _]%verify_event_ok E.
  apply Hinj. rewrite <-(verify_id_spec e1 H1), <-(verify_id_spec e2 H2). done.
Qed.
End verification.
