(* ===== verification/Demo.v ===== *)
(** * A concrete library

    One instance of the third-party interface of [Nostr.v] that satisfies its
    laws, used by the witnesses: ids are the event contents, a signature is
    genuine when it reads [sig], and an event is encoded as an object of bits. *)

From S2P Require Import Prelude Text Nostr.

Local Open Scope string_scope.

Definition single_letter (s : string) : option ascii :=
  match s with
  | String c EmptyString =>
      if (97 <=? N_of_ascii c)%N && (N_of_ascii c <=? 122)%N then Some c else None
  | _ => None
  end.

Definition demo_tag_kind (t : Tag) : TagKind :=
  let name := default EmptyString (t !! 0) in
  match single_letter name with
  | Some c => SingleLetterLower c
  | None =>
      if String.eqb name "challenge" then TK_Challenge
      else if String.eqb name "relay" then TK_Relay
      else if String.eqb name "payload" then TK_Payload
      else if String.eqb name "method" then TK_Method
      else TK_Other name
  end.

Definition demo_kind_to_string (k : TagKind) : string :=
  match k with
  | SingleLetterLower c => String c EmptyString
  | TK_Challenge => "challenge"
  | TK_Relay => "relay"
  | TK_Payload => "payload"
  | TK_Method => "method"
  | TK_Other name => name
  end.

Definition demo_digest : string := "aaaaaaaaaaaaaaaabbbbbbbbbbbbbbbb0000000000000000ffffffffffffffff".

#[global] Instance demo_nostr : NostrLib := {|
  verify_id e := String.eqb (ev_id e) (ev_content e) &&
                 str_forallb (fun c => (33 <=? N_of_ascii c)%N) (ev_id e);
  verify_signature e := String.eqb (ev_sig e) "sig";
  EventId_new _ _ _ _ c := c;
  EventId_from_hex s := Some s;
  PublicKey_from_hex s := if String.eqb s "bad" then None else Some s;
  tag_kind := demo_tag_kind;
  tag_content t := t !! 1;
  tag_kind_to_string := demo_kind_to_string;
  tags_filter k ts := List.filter (fun t => bool_decide (demo_tag_kind t = k)) ts;
  tags_find k ts := List.find (fun t => bool_decide (demo_tag_kind t = k)) ts;
  Uuid_parse s := if String.eqb s "room" then Some 7%N else None;
  Uuid_to_string _ := "room";
  sha256_hex s := if String.eqb s "blob" then demo_digest else "hash-" +:+ s;
|}.

#[global] Instance demo_nostr_laws : NostrLaws demo_nostr.
Proof.
  split; try done.
  - intros t n H. simpl. unfold demo_tag_kind. rewrite H. simpl.
    destruct (single_letter n) as [c|] eqn:E.
    + destruct n as [|a [|b s]]; simpl in E; try done. case_match; by simplify_eq.
    + destruct (String.eqb_spec n "challenge") as [->|]; [done|].
      destruct (String.eqb_spec n "relay") as [->|]; [done|].
      destruct (String.eqb_spec n "payload") as [->|]; [done|].
      by destruct (String.eqb_spec n "method") as [->|].
  - intros t c Hc. simpl. unfold demo_tag_kind. split.
    + destruct (t !! 0) as [n|]; simpl; [|done].
      destruct n as [|a [|b s]]; simpl; repeat case_match; intros; simplify_eq; done.
    + intros ->. simpl. by assert ((97 <=? N_of_ascii c)%N && (N_of_ascii c <=? 122)%N = true) as -> by lia.
  - intros e [H _]%andb_true_iff. by apply String.eqb_eq in H.
  - intros e [_ H]%andb_true_iff. by split.
Qed.

(** Bit strings of positives. *)
Fixpoint bits (p : positive) : string :=
  match p with
  | xH => EmptyString
  | xO p => String "0" (bits p)
  | xI p => String "1" (bits p)
  end.

Fixpoint unbits (s : string) : option positive :=
  match s with
  | EmptyString => Some xH
  | String c s =>
      p ← unbits s;
      if Ascii.eqb c "0" then Some (xO p) else if Ascii.eqb c "1" then Some (xI p) else None
  end.

Lemma unbits_bits p : unbits (bits p) = Some p.
Proof. induction p as [p IH|p IH|]; simpl; [by rewrite IH..|done]. Qed.

Lemma bits_plain p : str_forallb (fun c => (32 <=? N_of_ascii c)%N) (bits p) = true.
Proof. induction p as [p IH|p IH|]; simpl; by rewrite ?IH. Qed.

#[global] Instance Event_countable : Countable Event :=
  inj_countable'
    (fun e => (ev_id e, ev_pubkey e, ev_created_at e, ev_kind e, ev_tags e, ev_content e, ev_sig e))
    (fun '(a, b, c, d, e, f, g) => mkEvent a b c d e f g)
    ltac:(by intros []).

(** JSON values, with a table of the texts the witnesses parse; what follows a
    [#] is a comment.  A text that opens with a bracket is an array: its items
    are separated by commas, and [name=number] is an object of one field; after
    an at sign it is the bits of a list of strings. *)
Inductive Json :=
| JNull
| JBool (b : bool)
| JNum (n : N)
| JStr (s : string)
| JArr
| JItem (value : Json) (rest : Json)
| JEmpty
| JField (name : string) (value : Json) (rest : Json).

Fixpoint json_get (v : Json) (field : string) : option Json :=
  match v with
  | JField name value rest => if String.eqb name field then Some value else json_get rest field
  | _ => None
  end.

Definition json_texts : list (string * Json) :=
  [("{}", JEmpty);
   ("active-admit", JField "status" (JStr "active") (JField "principal" (JStr "did:peer") JEmpty));
   ("numeric-status", JField "status" (JNum 0) JEmpty);
   ("revoked-admit", JField "status" (JStr "revoked") JEmpty);
   ("recognize-n1", JField "stance" (JStr "recognize") (JField "head" (JStr "n1")
      (JField "mine" (JField "sequence" (JNum 0) (JField "head" JNull JEmpty)) (JField "observed" JEmpty JEmpty))));
   ("handoff-open", JField "title" (JStr "Port the parser") (JField "base_commit"
      (JStr "0123456789abcdef0123456789abcdef01234567") JEmpty));
   ("handoff-return", JField "claim_id" (JStr "handoff-claim") (JField "status" (JStr "done") JEmpty));
   ("handoff-close", JField "return_id" (JStr "handoff-return") JEmpty);
   ("handoff-ack", JField "status" (JStr "acknowledged-invalid") (JField "open_ids" (JItem (JStr demo_digest) JArr) JEmpty));
   ("mirror-export", JField "selection" (JField "mirror" (JBool true) JEmpty) JEmpty)].

Definition json_item (s : string) : Json :=
  match split_once "=" s with
  | Some (name, digits) => JField name (JNum (default 0%N (parse_u64 digits))) JEmpty
  | None => JStr s
  end.

Definition json_array (s : string) : Json := foldr (fun x => JItem (json_item x)) JArr (split_on "," s).

Definition json_strings (l : list string) : Json := foldr (fun x => JItem (JStr x)) JArr l.

Definition json_parse (s : string) : result string Json :=
  match strip_prefix "[" s, strip_prefix "@" s with
  | Some items, _ => Ok (json_array items)
  | None, Some bits =>
      match p ← unbits bits; decode p with Some l => Ok (json_strings l) | None => Err "expected value" end
  | None, None =>
      let text := match split_once "#" s with Some (text, _) => text | None => s end in
      match find (fun kv => String.eqb kv.1 text) json_texts with
      | Some (_, v) => Ok v
      | None => Err "expected value"
      end
  end.

Fixpoint json_items (v : Json) : option (list Json) :=
  match v with
  | JArr => Some []
  | JItem x rest => xs ← json_items rest; Some (x :: xs)
  | _ => None
  end.

#[global] Instance demo_json : SerdeJson := {|
  Value := Json;
  from_str := json_parse;
  as_str v := match v with JStr s => Some s | _ => None end;
  as_u64 v := match v with JNum n => Some n | _ => None end;
  as_bool v := match v with JBool b => Some b | _ => None end;
  is_null v := match v with JNull => true | _ => false end;
  is_array v := match v with JArr | JItem _ _ => true | _ => false end;
  is_object v := match v with JEmpty | JField _ _ _ => true | _ => false end;
  get := json_get;
  event_from_str s :=
    match s with
    | String c s' =>
        if Ascii.eqb c "{" then
          match p ← unbits s'; decode p with Some e => Ok e | None => Err "bad event" end
        else Err "bad event"
    | EmptyString => Err "bad event"
    end;
  event_to_string e := Ok (String "{" (bits (encode e)));
  filters_from_value _ := Ok [];
  as_array := json_items;
  strings_to_string l := Ok (String "@" (bits (encode l)));
|}.

#[global] Instance demo_json_laws : SerdeJsonLaws demo_json.
Proof.
  split.
  - intros e s [= <-]. simpl. rewrite unbits_bits. simpl. by rewrite decode_encode.
  - intros e s [= <-]. destruct (bits (encode e)); reflexivity.
  - intros e s [= <-]. simpl. apply bits_plain.
  - intros l s [= <-]. exists (json_strings l), (JStr <$> l).
    assert (json_parse (String "@" (bits (encode l))) = Ok (json_strings l)) as E.
    { unfold json_parse. cbn [strip_prefix Ascii.eqb Bool.eqb]. rewrite unbits_bits. cbn [mbind option_bind].
      by rewrite decode_encode. }
    split_and!; [exact E| |by rewrite <-list_fmap_compose]. clear E.
    induction l as [|x l IH]; [done|]. simpl in *. by rewrite IH.
Qed.

(** A signed event of the demo library. *)
Definition demo_event (id author : string) (at_ kind : N) (tags : list Tag) : Event :=
  mkEvent id author at_ kind tags id "sig".
