(* ===== verification/Kinds.v ===== *)
(** * Kind registry

    [buzz-core/src/kind.rs]: the kind numbers, the lists built from them and
    the range classifiers.  A kind is the [u32] of the registry, an [N]. *)

From S2P Require Import Prelude Nostr.

Definition KIND_PROFILE : N := 0.
Definition KIND_TEXT_NOTE : N := 1.
Definition KIND_CONTACT_LIST : N := 3.
Definition KIND_MUTE_LIST : N := 10000.
Definition KIND_PIN_LIST : N := 10001.
Definition KIND_NIP65_RELAY_LIST_METADATA : N := 10002.
Definition KIND_BOOKMARK_LIST : N := 10003.
Definition KIND_EMOJI_LIST : N := 10030.
Definition KIND_FOLLOW_SET : N := 30000.
Definition KIND_BOOKMARK_SET : N := 30003.
Definition KIND_EMOJI_SET : N := 30030.
Definition KIND_CHANNEL_METADATA : N := 41.
Definition KIND_DELETION : N := 5.
Definition KIND_REACTION : N := 7.
Definition KIND_GIFT_WRAP : N := 1059.
Definition KIND_FILE_METADATA : N := 1063.
Definition KIND_LONG_FORM : N := 30023.
Definition KIND_USER_STATUS : N := 30315.
Definition KIND_READ_STATE : N := 30078.
Definition KIND_AUTH : N := 22242.
Definition KIND_BLOSSOM_AUTH : N := 24242.
Definition KIND_NOSTR_IDENTITY_BINDING : N := 24243.
Definition KIND_HTTP_AUTH : N := 27235.
Definition KIND_AGENT_PROFILE : N := 10100.
Definition KIND_AGENT_ENGRAM : N := 30174.
Definition KIND_SYNC_DECLARATION : N := 30700.
Definition KIND_BEACON_PULSE : N := 20700.
Definition KIND_BEACON_RESPONSE : N := 20701.
Definition KIND_EVENT_REMINDER : N := 30300.
Definition KIND_PUSH_LEASE : N := 30350.
Definition KIND_PERSONA : N := 30175.
Definition KIND_TEAM : N := 30176.
Definition KIND_MANAGED_AGENT : N := 30177.
Definition KIND_REPORT : N := 1984.
Definition KIND_PRODUCT_FEEDBACK : N := 42000.
Definition KIND_NIP29_PUT_USER : N := 9000.
Definition KIND_NIP29_REMOVE_USER : N := 9001.
Definition KIND_NIP29_EDIT_METADATA : N := 9002.
Definition KIND_NIP29_DELETE_EVENT : N := 9005.
Definition KIND_NIP29_CREATE_GROUP : N := 9007.
Definition KIND_NIP29_DELETE_GROUP : N := 9008.
Definition KIND_NIP29_CREATE_INVITE : N := 9009.
Definition KIND_NIP29_JOIN_REQUEST : N := 9021.
Definition KIND_NIP29_LEAVE_REQUEST : N := 9022.
Definition KIND_MODERATION_BAN : N := 9040.
Definition KIND_MODERATION_UNBAN : N := 9041.
Definition KIND_MODERATION_TIMEOUT : N := 9042.
Definition KIND_MODERATION_UNTIMEOUT : N := 9043.
Definition KIND_MODERATION_RESOLVE_REPORT : N := 9044.
Definition RELAY_ADMIN_ADD_MEMBER : N := 9030.
Definition RELAY_ADMIN_REMOVE_MEMBER : N := 9031.
Definition RELAY_ADMIN_CHANGE_ROLE : N := 9032.
Definition RELAY_ADMIN_SET_WORKSPACE_PROFILE : N := 9033.
Definition KIND_NIP43_MEMBERSHIP_LIST : N := 13534.
Definition KIND_NIP43_MEMBER_ADDED : N := 8000.
Definition KIND_NIP43_MEMBER_REMOVED : N := 8001.
Definition KIND_NIP43_LEAVE_REQUEST : N := 28936.
Definition KIND_IA_ARCHIVE_REQUEST : N := 9035.
Definition KIND_IA_UNARCHIVE_REQUEST : N := 9036.
Definition KIND_IA_ARCHIVED : N := 8002.
Definition KIND_IA_UNARCHIVED : N := 8003.
Definition KIND_IA_ARCHIVED_LIST : N := 13535.
Definition KIND_NIP29_GROUP_METADATA : N := 39000.
Definition KIND_NIP29_GROUP_ADMINS : N := 39001.
Definition KIND_NIP29_GROUP_MEMBERS : N := 39002.
Definition KIND_NIP29_GROUP_ROLES : N := 39003.
Definition KIND_THREAD_SUMMARY : N := 39005.
Definition KIND_WINDOW_BOUNDS : N := 39006.
Definition KIND_WORKFLOW_DEF : N := 30620.
Definition KIND_DM_VISIBILITY : N := 30622.
Definition PARAM_REPLACEABLE_KIND_MIN : N := 30000.
Definition PARAM_REPLACEABLE_KIND_MAX : N := 39999.
Definition EPHEMERAL_KIND_MIN : N := 20000.
Definition EPHEMERAL_KIND_MAX : N := 29999.
Definition KIND_PRESENCE_UPDATE : N := 20001.
Definition KIND_PAIRING : N := 24134.
Definition KIND_TYPING_INDICATOR : N := 20002.
Definition KIND_AGENT_OBSERVER_FRAME : N := 24200.
Definition KIND_HUDDLE_REACTION : N := 24810.
Definition KIND_STREAM_MESSAGE : N := 9.
Definition KIND_STREAM_MESSAGE_V2 : N := 40002.
Definition KIND_STREAM_MESSAGE_EDIT : N := 40003.
Definition KIND_STREAM_MESSAGE_PINNED : N := 40004.
Definition KIND_STREAM_MESSAGE_BOOKMARKED : N := 40005.
Definition KIND_STREAM_MESSAGE_SCHEDULED : N := 40006.
Definition KIND_STREAM_REMINDER : N := 40007.
Definition KIND_STREAM_MESSAGE_DIFF : N := 40008.
Definition KIND_CANVAS : N := 40100.
Definition KIND_SYSTEM_MESSAGE : N := 40099.
Definition KIND_CHANNEL_SUMMARY : N := 40901.
Definition KIND_PRESENCE_SNAPSHOT : N := 40902.
Definition KIND_DM_OPEN : N := 41010.
Definition KIND_DM_ADD_MEMBER : N := 41011.
Definition KIND_DM_HIDE : N := 41012.
Definition KIND_DM_CREATED : N := 41001.
Definition KIND_JOB_REQUEST : N := 43001.
Definition KIND_JOB_ACCEPTED : N := 43002.
Definition KIND_JOB_PROGRESS : N := 43003.
Definition KIND_JOB_RESULT : N := 43004.
Definition KIND_JOB_CANCEL : N := 43005.
Definition KIND_JOB_ERROR : N := 43006.
Definition KIND_MEMBER_ADDED_NOTIFICATION : N := 44100.
Definition KIND_MEMBER_REMOVED_NOTIFICATION : N := 44101.
Definition KIND_AGENT_TURN_METRIC : N := 44200.
Definition KIND_FORUM_POST : N := 45001.
Definition KIND_FORUM_VOTE : N := 45002.
Definition KIND_FORUM_COMMENT : N := 45003.
Definition KIND_WORKFLOW_TRIGGER : N := 46020.
Definition KIND_APPROVAL_GRANT : N := 46030.
Definition KIND_APPROVAL_DENY : N := 46031.
Definition KIND_WORKFLOW_TRIGGERED : N := 46001.
Definition KIND_WORKFLOW_STEP_STARTED : N := 46002.
Definition KIND_WORKFLOW_STEP_COMPLETED : N := 46003.
Definition KIND_WORKFLOW_STEP_FAILED : N := 46004.
Definition KIND_WORKFLOW_COMPLETED : N := 46005.
Definition KIND_WORKFLOW_FAILED : N := 46006.
Definition KIND_WORKFLOW_CANCELLED : N := 46007.
Definition KIND_WORKFLOW_APPROVAL_REQUESTED : N := 46010.
Definition KIND_WORKFLOW_APPROVAL_GRANTED : N := 46011.
Definition KIND_WORKFLOW_APPROVAL_DENIED : N := 46012.
Definition KIND_AUDIT_ENTRY : N := 48001.
Definition KIND_HUDDLE_STARTED : N := 48100.
Definition KIND_HUDDLE_PARTICIPANT_JOINED : N := 48101.
Definition KIND_HUDDLE_PARTICIPANT_LEFT : N := 48102.
Definition KIND_HUDDLE_ENDED : N := 48103.
Definition KIND_HUDDLE_GUIDELINES : N := 48106.
Definition KIND_MEDIA_UPLOAD : N := 49001.
Definition KIND_GIT_REPO_ANNOUNCEMENT : N := 30617.
Definition KIND_GIT_REPO_STATE : N := 30618.
Definition KIND_GIT_PATCH : N := 1617.
Definition KIND_GIT_PULL_REQUEST : N := 1618.
Definition KIND_GIT_PR_UPDATE : N := 1619.
Definition KIND_GIT_ISSUE : N := 1621.
Definition KIND_GIT_STATUS_OPEN : N := 1630.
Definition KIND_GIT_STATUS_MERGED : N := 1631.
Definition KIND_GIT_STATUS_CLOSED : N := 1632.
Definition KIND_GIT_STATUS_DRAFT : N := 1633.

Definition AUTHOR_ONLY_KINDS : list N :=
  [KIND_EVENT_REMINDER; KIND_PUSH_LEASE].

Definition RESULT_GATED_KINDS : list N :=
  [KIND_DM_VISIBILITY; KIND_AGENT_TURN_METRIC].

Definition P_GATED_KINDS : list N :=
  [KIND_AGENT_OBSERVER_FRAME; KIND_MEMBER_ADDED_NOTIFICATION;
   KIND_MEMBER_REMOVED_NOTIFICATION; KIND_GIFT_WRAP; KIND_DM_VISIBILITY;
   KIND_AGENT_TURN_METRIC].

Definition ALL_KINDS : list N :=
  [KIND_PROFILE; KIND_TEXT_NOTE; KIND_CONTACT_LIST; KIND_MUTE_LIST;
   KIND_PIN_LIST; KIND_NIP65_RELAY_LIST_METADATA; KIND_BOOKMARK_LIST;
   KIND_EMOJI_LIST; KIND_FOLLOW_SET; KIND_BOOKMARK_SET; KIND_EMOJI_SET;
   KIND_CHANNEL_METADATA; KIND_DELETION; KIND_REACTION; KIND_GIFT_WRAP;
   KIND_FILE_METADATA; KIND_AGENT_PROFILE; KIND_AGENT_ENGRAM;
   KIND_SYNC_DECLARATION; KIND_BEACON_PULSE; KIND_BEACON_RESPONSE;
   KIND_EVENT_REMINDER; KIND_PERSONA; KIND_TEAM; KIND_MANAGED_AGENT;
   KIND_REPORT; KIND_PRODUCT_FEEDBACK; KIND_NIP29_PUT_USER;
   KIND_NIP29_REMOVE_USER; KIND_NIP29_EDIT_METADATA;
   KIND_NIP29_DELETE_EVENT; KIND_NIP29_CREATE_GROUP;
   KIND_NIP29_DELETE_GROUP; KIND_NIP29_CREATE_INVITE;
   KIND_NIP29_JOIN_REQUEST; KIND_NIP29_LEAVE_REQUEST; KIND_MODERATION_BAN;
   KIND_MODERATION_UNBAN; KIND_MODERATION_TIMEOUT;
   KIND_MODERATION_UNTIMEOUT; KIND_MODERATION_RESOLVE_REPORT;
   RELAY_ADMIN_ADD_MEMBER; RELAY_ADMIN_REMOVE_MEMBER;
   RELAY_ADMIN_CHANGE_ROLE; RELAY_ADMIN_SET_WORKSPACE_PROFILE;
   KIND_NIP43_MEMBERSHIP_LIST; KIND_NIP43_MEMBER_ADDED;
   KIND_NIP43_MEMBER_REMOVED; KIND_NIP43_LEAVE_REQUEST;
   KIND_IA_ARCHIVE_REQUEST; KIND_IA_UNARCHIVE_REQUEST; KIND_IA_ARCHIVED;
   KIND_IA_UNARCHIVED; KIND_IA_ARCHIVED_LIST; KIND_NIP29_GROUP_METADATA;
   KIND_NIP29_GROUP_ADMINS; KIND_NIP29_GROUP_MEMBERS;
   KIND_NIP29_GROUP_ROLES; KIND_THREAD_SUMMARY; KIND_WINDOW_BOUNDS;
   KIND_PRESENCE_UPDATE; KIND_TYPING_INDICATOR; KIND_HUDDLE_REACTION;
   KIND_BLOSSOM_AUTH; KIND_PAIRING; KIND_AGENT_OBSERVER_FRAME;
   KIND_HTTP_AUTH; KIND_STREAM_MESSAGE; KIND_STREAM_MESSAGE_V2;
   KIND_STREAM_MESSAGE_EDIT; KIND_STREAM_MESSAGE_PINNED;
   KIND_STREAM_MESSAGE_BOOKMARKED; KIND_STREAM_MESSAGE_SCHEDULED;
   KIND_STREAM_REMINDER; KIND_STREAM_MESSAGE_DIFF; KIND_CANVAS;
   KIND_SYSTEM_MESSAGE; KIND_CHANNEL_SUMMARY; KIND_PRESENCE_SNAPSHOT;
   KIND_DM_VISIBILITY; KIND_DM_OPEN; KIND_DM_ADD_MEMBER; KIND_DM_HIDE;
   KIND_DM_CREATED; KIND_JOB_REQUEST; KIND_JOB_ACCEPTED;
   KIND_JOB_PROGRESS; KIND_JOB_RESULT; KIND_JOB_CANCEL; KIND_JOB_ERROR;
   KIND_MEMBER_ADDED_NOTIFICATION; KIND_MEMBER_REMOVED_NOTIFICATION;
   KIND_AGENT_TURN_METRIC; KIND_WORKFLOW_DEF; KIND_LONG_FORM;
   KIND_USER_STATUS; KIND_READ_STATE; KIND_FORUM_POST; KIND_FORUM_VOTE;
   KIND_FORUM_COMMENT; KIND_WORKFLOW_TRIGGER; KIND_APPROVAL_GRANT;
   KIND_APPROVAL_DENY; KIND_WORKFLOW_TRIGGERED;
   KIND_WORKFLOW_STEP_STARTED; KIND_WORKFLOW_STEP_COMPLETED;
   KIND_WORKFLOW_STEP_FAILED; KIND_WORKFLOW_COMPLETED;
   KIND_WORKFLOW_FAILED; KIND_WORKFLOW_CANCELLED;
   KIND_WORKFLOW_APPROVAL_REQUESTED; KIND_WORKFLOW_APPROVAL_GRANTED;
   KIND_WORKFLOW_APPROVAL_DENIED; KIND_AUDIT_ENTRY; KIND_HUDDLE_STARTED;
   KIND_HUDDLE_PARTICIPANT_JOINED; KIND_HUDDLE_PARTICIPANT_LEFT;
   KIND_HUDDLE_ENDED; KIND_HUDDLE_GUIDELINES; KIND_MEDIA_UPLOAD;
   KIND_GIT_REPO_ANNOUNCEMENT; KIND_GIT_REPO_STATE; KIND_GIT_PATCH;
   KIND_GIT_PULL_REQUEST; KIND_GIT_PR_UPDATE; KIND_GIT_ISSUE;
   KIND_GIT_STATUS_OPEN; KIND_GIT_STATUS_MERGED; KIND_GIT_STATUS_CLOSED;
   KIND_GIT_STATUS_DRAFT].

(** [slice::contains] on kinds. *)
Definition kind_in (k : N) (ks : list N) : bool := existsb (N.eqb k) ks.

Definition event_kind_u32 (e : Event) : N := ev_kind e.

Definition is_ephemeral (kind : N) : bool :=
  (EPHEMERAL_KIND_MIN <=? kind)%N && (kind <=? EPHEMERAL_KIND_MAX)%N.

Definition is_replaceable (kind : N) : bool :=
  (kind =? 0)%N || (kind =? 3)%N || (kind =? KIND_CHANNEL_METADATA)%N ||
  ((10000 <=? kind)%N && (kind <=? 19999)%N).

Definition is_parameterized_replaceable (kind : N) : bool :=
  (PARAM_REPLACEABLE_KIND_MIN <=? kind)%N && (kind <=? PARAM_REPLACEABLE_KIND_MAX)%N.

Definition is_workflow_execution_kind (kind : N) : bool :=
  (KIND_WORKFLOW_TRIGGERED <=? kind)%N && (kind <=? KIND_WORKFLOW_APPROVAL_DENIED)%N.

Definition is_moderation_command_kind (kind : N) : bool :=
  kind_in kind [KIND_MODERATION_BAN; KIND_MODERATION_UNBAN; KIND_MODERATION_TIMEOUT;
                KIND_MODERATION_UNTIMEOUT; KIND_MODERATION_RESOLVE_REPORT].

Definition is_relay_admin_kind (kind : N) : bool :=
  kind_in kind [RELAY_ADMIN_ADD_MEMBER; RELAY_ADMIN_REMOVE_MEMBER; RELAY_ADMIN_CHANGE_ROLE;
                RELAY_ADMIN_SET_WORKSPACE_PROFILE].

Definition is_identity_archive_request_kind (kind : N) : bool :=
  kind_in kind [KIND_IA_ARCHIVE_REQUEST; KIND_IA_UNARCHIVE_REQUEST].

Definition is_command_kind (kind : N) : bool :=
  kind_in kind [KIND_WORKFLOW_DEF; KIND_DM_OPEN; KIND_DM_ADD_MEMBER; KIND_DM_HIDE;
                KIND_WORKFLOW_TRIGGER; KIND_APPROVAL_GRANT; KIND_APPROVAL_DENY].

Definition is_relay_only_kind (kind : N) : bool :=
  kind_in kind [KIND_NIP43_MEMBERSHIP_LIST; KIND_CHANNEL_SUMMARY; KIND_PRESENCE_SNAPSHOT;
                KIND_DM_VISIBILITY; KIND_THREAD_SUMMARY; KIND_WINDOW_BOUNDS].

Definition is_persona_shared_kind (kind : N) : bool := (kind =? KIND_PERSONA)%N.

(** The loop over the tags of [persona_event_is_shared]: [None] is its early
    [return false]. *)
Fixpoint count_shared (tags : list Tag) (count : nat) : option nat :=
  match tags with
  | [] => Some count
  | parts :: rest =>
      if (length parts =? 2)%nat && bool_decide (parts !! 0 = Some "shared"%string) then
        if negb (bool_decide (parts !! 1 = Some "true"%string)) then None
        else count_shared rest (S count)
      else if negb (bool_decide (parts = [])) && bool_decide (parts !! 0 = Some "shared"%string)
      then None
      else count_shared rest count
  end.

Definition persona_event_is_shared (e : Event) : bool :=
  match count_shared (ev_tags e) 0 with
  | Some count => (count =? 1)%nat
  | None => false
  end.

(** The requester's key bytes are compared with the author's. *)
Definition is_unshared_persona_event (e : Event) (requester : PublicKey) : bool :=
  let kind := event_kind_u32 e in
  if negb (is_persona_shared_kind kind) then false
  else if bool_decide (ev_pubkey e = requester) then false
  else negb (persona_event_is_shared e).

Lemma kind_in_elem k ks : kind_in k ks = true <-> k ∈ ks.
Proof.
  unfold kind_in. rewrite existsb_elem. split.
  - by intros (x & Hx & ->%N.eqb_eq).
  - intros H. exists k. by rewrite N.eqb_refl.
Qed.

(** The three ranges are disjoint. *)
Lemma kind_ranges_disjoint kind :
  (is_ephemeral kind = true -> is_replaceable kind = false /\ is_parameterized_replaceable kind = false) /\
  (is_parameterized_replaceable kind = true -> is_replaceable kind = false).
Proof.
  unfold is_ephemeral, is_replaceable, is_parameterized_replaceable,
    EPHEMERAL_KIND_MIN, EPHEMERAL_KIND_MAX, PARAM_REPLACEABLE_KIND_MIN,
    PARAM_REPLACEABLE_KIND_MAX, KIND_CHANNEL_METADATA.
  split; intros H; repeat split; lia.
Qed.
