(* ===== verification/Ingest.v ===== *)
(** * Event classification and effective-state reduction

    [buzz-core/src/ingest.rs]: which events are ephemeral, which compete for a
    replacement stream, and how an accepted event changes the effective
    projection.  The theorems characterise the projection of any history by a
    specification that does not mention order: an event is effective exactly
    when it is durable and nothing in the history beats it in its stream. *)

From S2P Require Import Prelude Nostr Kinds.

Inductive ReplacementKey :=
| Replaceable (author : PublicKey) (kind : N)
| Parameterized (author : PublicKey) (kind : N) (identifier : string).

#[global] Instance ReplacementKey_eq_dec : EqDecision ReplacementKey.
Proof. solve_decision. Defined.

Inductive EventClass :=
| ClassRegular
| ClassReplaceable (key : ReplacementKey)
| ClassEphemeral.

Inductive EventDecision := Stored | Duplicate | Superseded | Ephemeral.

#[global] Instance EventDecision_eq_dec : EqDecision EventDecision.
Proof. solve_decision. Defined.

Definition is_ephemeral_kind (kind : N) : bool := (20000 <=? kind)%N && (kind <? 30000)%N.

Section ingest.
Context `{NL : NostrLib}.

Definition replacement_key (e : Event) : option ReplacementKey :=
  let kind := ev_kind e in
  if (kind =? 0)%N || (kind =? 3)%N || ((10000 <=? kind)%N && (kind <? 20000)%N) then
    Some (Replaceable (ev_pubkey e) kind)
  else if (30000 <=? kind)%N && (kind <? 40000)%N then
    let identifier :=
      default ""%string
        (find_map tag_content (tags_filter (SingleLetterLower "d"%char) (ev_tags e))) in
    Some (Parameterized (ev_pubkey e) kind identifier)
  else None.

Definition classify_event (e : Event) : EventClass :=
  if is_ephemeral_kind (ev_kind e) then ClassEphemeral
  else match replacement_key e with
       | Some key => ClassReplaceable key
       | None => ClassRegular
       end.

Definition replacement_candidate_wins (candidate current : Event) : bool :=
  (ev_created_at current <? ev_created_at candidate)%N ||
  ((ev_created_at candidate =? ev_created_at current)%N &&
   str_ltb (to_hex (ev_id candidate)) (to_hex (ev_id current))).

(** [stored.event.id == id] and [replacement_key(&stored.event) == Some(key)]. *)
Definition has_id (id : EventId) (s : StoredEvent.t) : bool :=
  bool_decide (ev_id (StoredEvent.event s) = id).
Definition has_key (key : ReplacementKey) (s : StoredEvent.t) : bool :=
  bool_decide (replacement_key (StoredEvent.event s) = Some key).

Definition decide_event (effective_events : list StoredEvent.t)
    (previously_accepted : bool) (candidate : Event) : EventDecision :=
  if previously_accepted || existsb (has_id (ev_id candidate)) effective_events then Duplicate
  else match classify_event candidate with
       | ClassEphemeral => Ephemeral
       | ClassRegular => Stored
       | ClassReplaceable candidate_key =>
           match find (has_key candidate_key) effective_events with
           | Some current =>
               if negb (replacement_candidate_wins candidate (StoredEvent.event current))
               then Superseded else Stored
           | None => Stored
           end
       end.

(** The new projection and the decision. *)
Definition apply_effective_event (effective_events : list StoredEvent.t)
    (candidate : StoredEvent.t) : list StoredEvent.t * EventDecision :=
  let decision := decide_event effective_events false (StoredEvent.event candidate) in
  if negb (bool_decide (decision = Stored)) then (effective_events, decision)
  else
    let replacement_index :=
      key ← replacement_key (StoredEvent.event candidate);
      position (has_key key) effective_events in
    match replacement_index with
    | Some index => (<[index := candidate]> effective_events, Stored)
    | None => (effective_events ++ [candidate], Stored)
    end.
End ingest.

(** ** The order of a replacement stream *)

Lemma wins_irrefl e : replacement_candidate_wins e e = false.
Proof. unfold replacement_candidate_wins, to_hex. rewrite str_ltb_irrefl. lia. Qed.

Lemma wins_trans a b c :
  replacement_candidate_wins a b = true -> replacement_candidate_wins b c = true ->
  replacement_candidate_wins a c = true.
Proof.
  unfold replacement_candidate_wins, to_hex.
  destruct (str_ltb (ev_id a) (ev_id b)) eqn:E1, (str_ltb (ev_id b) (ev_id c)) eqn:E2;
    try rewrite (str_ltb_trans _ _ _ E1 E2); lia.
Qed.

Lemma wins_asym a b :
  replacement_candidate_wins a b = true -> replacement_candidate_wins b a = false.
Proof.
  intros H. destruct (replacement_candidate_wins b a) eqn:E; [|done].
  by rewrite <-(wins_trans a b a H E), wins_irrefl.
Qed.

(** Two events of which neither wins have one time and one id. *)
Lemma wins_total a b :
  replacement_candidate_wins a b = false -> replacement_candidate_wins b a = false ->
  ev_id a = ev_id b.
Proof.
  unfold replacement_candidate_wins, to_hex. intros H1 H2.
  destruct (str_ltb_total (ev_id a) (ev_id b)) as [H|[H|H]]; [|done|]; rewrite H in *; exfalso; lia.
Qed.

#[global] Hint Resolve wins_irrefl wins_asym : core.

Section ingest_theory.
Context `{NL : NostrLib}.

Definition events_of (eff : list StoredEvent.t) : list Event := StoredEvent.event <$> eff.

Lemma ephemeral_no_key e : is_ephemeral_kind (ev_kind e) = true -> replacement_key e = None.
Proof.
  unfold is_ephemeral_kind, replacement_key. cbv zeta. intros H.
  repeat case_match; try done; exfalso; lia.
Qed.

Lemma has_id_true id s : has_id id s = true <-> ev_id (StoredEvent.event s) = id.
Proof. apply bool_decide_eq_true. Qed.

Lemma has_key_true key s :
  has_key key s = true <-> replacement_key (StoredEvent.event s) = Some key.
Proof. apply bool_decide_eq_true. Qed.

Lemma existsb_has_id eff id :
  existsb (has_id id) eff = true <-> exists e, e ∈ events_of eff /\ ev_id e = id.
Proof.
  rewrite existsb_elem. unfold events_of. setoid_rewrite list_elem_of_fmap.
  setoid_rewrite has_id_true. split; [intros (x & ? & ?) | intros (e & (x & -> & ?) & ?)]; eauto.
Qed.

Lemma find_has_key_some eff key s :
  find (has_key key) eff = Some s ->
  StoredEvent.event s ∈ events_of eff /\ replacement_key (StoredEvent.event s) = Some key.
Proof.
  intros [H1 H2%has_key_true]%find_elem. split; [|done].
  by apply list_elem_of_fmap_2.
Qed.

Lemma find_has_key_none eff key e :
  find (has_key key) eff = None -> e ∈ events_of eff -> replacement_key e <> Some key.
Proof.
  intros H (s & -> & Hs)%list_elem_of_fmap Hk.
  apply (find_none_elem _ _ s) in H; [|done]. by apply has_key_true in Hk; rewrite Hk in H.
Qed.

(** *** What [apply_effective_event] does to the set of effective events *)

(** Members that leave share the candidate's stream and lose to it. *)
Inductive applied (eff : list Event) (c : Event) (eff' : list Event) : EventDecision -> Prop :=
| applied_noop d :
    d <> Stored -> eff' = eff -> applied eff c eff' d
| applied_push :
    eff' = eff ++ [c] ->
    (forall key e, replacement_key c = Some key -> e ∈ eff -> replacement_key e <> Some key) ->
    applied eff c eff' Stored
| applied_replace l1 old l2 key :
    eff = l1 ++ old :: l2 -> eff' = l1 ++ c :: l2 ->
    replacement_key c = Some key -> replacement_key old = Some key ->
    replacement_candidate_wins c old = true ->
    Forall (fun e => replacement_key e <> Some key) l1 ->
    applied eff c eff' Stored.

Lemma apply_effective_event_decision eff s :
  (apply_effective_event eff s).2 = decide_event eff false (StoredEvent.event s).
Proof.
  unfold apply_effective_event. case_bool_decide as H; simpl; [|done].
  destruct (_ ≫= _); simpl; congruence.
Qed.

Lemma apply_effective_event_applied eff s :
  applied (events_of eff) (StoredEvent.event s)
    (events_of (apply_effective_event eff s).1) (apply_effective_event eff s).2.
Proof.
  unfold apply_effective_event. case_bool_decide as Hd; simpl; [|by apply applied_noop].
  destruct (replacement_key (StoredEvent.event s)) as [key|] eqn:Hk; simpl.
  - destruct (position (has_key key) eff) as [i|] eqn:Hp; simpl.
    + apply position_some in Hp as (l1 & x & l2 & -> & <- & Hx%has_key_true & Hl1).
      rewrite <-(Nat.add_0_r (length l1)), insert_app_r; simpl.
      unfold events_of; rewrite !fmap_app, !fmap_cons.
      eapply applied_replace; try done.
      * revert Hd. unfold decide_event. destruct (existsb _ _); [done|]. simpl.
        unfold classify_event. destruct (is_ephemeral_kind _); [done|]. rewrite Hk.
        rewrite (proj2 (find_some_iff (has_key key) (l1 ++ x :: l2) x)).
        { by destruct (replacement_candidate_wins _ _). }
        exists (length l1). split_and!.
        -- by rewrite list_lookup_middle.
        -- by apply has_key_true.
        -- intros j y Hj Hy. rewrite lookup_app_l in Hy by done.
           by eapply Forall_lookup_1 in Hl1.
      * apply Forall_fmap. eapply Forall_impl; [apply Hl1|]. simpl.
        intros y Hy E. apply has_key_true in E. congruence.
    + apply position_none in Hp. unfold events_of; rewrite fmap_app.
      apply applied_push; [done|]. intros key' e Hk' (y & -> & Hy)%list_elem_of_fmap E.
      rewrite Hk in Hk'; injection Hk' as <-.
      rewrite Forall_forall in Hp. apply has_key_true in E. rewrite Hp in E; done.
  - unfold events_of; rewrite fmap_app. apply applied_push; [done|congruence].
Qed.

Lemma decide_event_accepted eff c : decide_event eff true c = Duplicate.
Proof. done. Qed.

(** The decision tells the candidate's class. *)
Lemma decide_stored_not_ephemeral eff p c :
  decide_event eff p c = Stored -> is_ephemeral_kind (ev_kind c) = false.
Proof.
  unfold decide_event, classify_event. destruct (_ || _); [done|].
  by destruct (is_ephemeral_kind _).
Qed.

Lemma decide_ephemeral eff p c :
  decide_event eff p c = Ephemeral -> is_ephemeral_kind (ev_kind c) = true.
Proof.
  unfold decide_event, classify_event. destruct (_ || _); [done|].
  destruct (is_ephemeral_kind _); [done|]. destruct (replacement_key c); [|done].
  destruct (find _ _); [|done]. by destruct (negb _).
Qed.

Lemma decide_superseded eff p c :
  decide_event eff p c = Superseded ->
  exists key e, replacement_key c = Some key /\ e ∈ events_of eff /\
    replacement_key e = Some key /\ replacement_candidate_wins c e = false.
Proof.
  unfold decide_event, classify_event. destruct (_ || _); [done|].
  destruct (is_ephemeral_kind _); [done|]. destruct (replacement_key c) as [key|]; [|done].
  destruct (find _ _) as [s|] eqn:E; [|done].
  apply find_has_key_some in E as [E1 E2].
  destruct (replacement_candidate_wins _ _) eqn:W; [done|]. intros _. eauto 10.
Qed.

Lemma decide_duplicate eff c :
  decide_event eff false c = Duplicate -> exists e, e ∈ events_of eff /\ ev_id e = ev_id c.
Proof.
  unfold decide_event. simpl. destruct (existsb _ _) eqn:E.
  - by intros _; apply existsb_has_id in E.
  - destruct (classify_event c); try done. destruct (find _ _); [|done]. by destruct (negb _).
Qed.

Lemma decide_stored_fresh eff p c e :
  decide_event eff p c = Stored -> e ∈ events_of eff -> ev_id e <> ev_id c.
Proof.
  unfold decide_event. destruct (_ || _) eqn:E; [done|].
  apply orb_false_iff in E as [_ E]. intros _ He Hid.
  assert (existsb (has_id (ev_id c)) eff = true) by (apply existsb_has_id; eauto). congruence.
Qed.
End ingest_theory.

(** ** Histories and their effective events *)

Section history.
Context `{NL : NostrLib}.
Implicit Types (h eff : list Event).

Definition durable (e : Event) : Prop := is_ephemeral_kind (ev_kind e) = false.

Definition same_stream (a b : Event) : Prop :=
  replacement_key a = replacement_key b /\ replacement_key b <> None.

(** The specification of effectiveness, on an unordered history. *)
Definition effective_spec h (e : Event) : Prop :=
  e ∈ h /\ durable e /\
  forall e', e' ∈ h -> same_stream e' e -> replacement_candidate_wins e' e = false.

(** An id names one signed envelope within the history. *)
Definition id_injective h : Prop :=
  forall e1 e2, e1 ∈ h -> e2 ∈ h -> ev_id e1 = ev_id e2 -> e1 = e2.

Record reduces h eff : Prop := {
  red_sound : forall w, w ∈ eff -> effective_spec h w;
  red_complete : forall e, e ∈ h -> durable e ->
    exists w, w ∈ eff /\ (w = e \/ same_stream w e /\ replacement_candidate_wins w e = true);
  red_nodup : NoDup eff;
}.

Lemma reduces_nil : reduces [] [].
Proof. split; [intros ? []%not_elem_of_nil|intros ? []%not_elem_of_nil|constructor]. Qed.

Lemma same_stream_trans a b c : same_stream a b -> same_stream b c -> same_stream a c.
Proof. intros [H1 H2] [H3 H4]. split; congruence. Qed.

Lemma same_stream_sym a b : same_stream a b -> same_stream b a.
Proof. intros [H1 H2]. split; congruence. Qed.

Lemma same_stream_key a b k :
  replacement_key a = Some k -> replacement_key b = Some k -> same_stream a b.
Proof. intros H1 H2. split; congruence. Qed.

Lemma same_stream_durable a b : same_stream a b -> durable a.
Proof.
  intros [H1 H2]. unfold durable. destruct (is_ephemeral_kind (ev_kind a)) eqn:E; [|done].
  apply ephemeral_no_key in E. congruence.
Qed.

(** One effective event per stream. *)
Lemma reduces_one_per_stream h eff a b :
  reduces h eff -> id_injective h -> a ∈ eff -> b ∈ eff -> same_stream a b -> a = b.
Proof.
  intros Hr Hinj Ha Hb Hab.
  destruct (red_sound _ _ Hr a Ha) as (Hah & _ & Hamax).
  destruct (red_sound _ _ Hr b Hb) as (Hbh & _ & Hbmax).
  apply Hinj; [done..|]. apply wins_total; [by apply Hbmax|].
  apply Hamax; [done|by apply same_stream_sym].
Qed.

(** The reduction computes the specification. *)
Lemma reduces_spec h eff :
  reduces h eff -> id_injective h -> forall e, e ∈ eff <-> effective_spec h e.
Proof.
  intros Hr Hinj e. split; [by apply red_sound|].
  intros (He & Hd & Hmax).
  destruct (red_complete _ _ Hr e He Hd) as (w & Hw & [->|[Hs Hwin]]); [done|].
  destruct (red_sound _ _ Hr w Hw) as (Hwh & _). rewrite (Hmax w) in Hwin; done.
Qed.

(** *** One step of the reduction *)

Lemma reduces_old h eff c : reduces h eff -> c ∈ h -> reduces (h ++ [c]) eff.
Proof.
  intros Hr Hc. assert (forall e, e ∈ h ++ [c] <-> e ∈ h) as Heq by set_solver.
  destruct Hr as [H1 H2 H3]. split; [|setoid_rewrite Heq; done|done].
  intros w Hw. destruct (H1 w Hw) as (? & ? & ?).
  unfold effective_spec. setoid_rewrite Heq. done.
Qed.

Lemma reduces_ephemeral h eff c :
  reduces h eff -> is_ephemeral_kind (ev_kind c) = true -> reduces (h ++ [c]) eff.
Proof.
  intros [H1 H2 H3] Hc. split; [| |done].
  - intros w Hw. destruct (H1 w Hw) as (? & ? & Hmax). split_and!; [set_solver|done|].
    intros e [He| ->%list_elem_of_singleton]%elem_of_app Hs; [by apply Hmax|].
    apply same_stream_durable in Hs. unfold durable in Hs. congruence.
  - intros e [He| ->%list_elem_of_singleton]%elem_of_app Hd; [by apply H2|].
    unfold durable in Hd. congruence.
Qed.

Lemma reduces_superseded h eff c w key :
  reduces h eff -> id_injective (h ++ [c]) ->
  replacement_key c = Some key -> w ∈ eff -> replacement_key w = Some key ->
  replacement_candidate_wins c w = false -> reduces (h ++ [c]) eff.
Proof.
  intros Hr Hinj Hc Hw Hkw Hwin.
  assert (id_injective h) as Hinj' by (intros e1 e2 ? ?; apply Hinj; set_solver).
  destruct (red_sound _ _ Hr w Hw) as (Hwh & _).
  split; [| |by apply (red_nodup _ _ Hr)].
  - intros w' Hw'. destruct (red_sound _ _ Hr w' Hw') as (? & ? & Hmax).
    split_and!; [set_solver|done|].
    intros e [He| ->%list_elem_of_singleton]%elem_of_app Hs; [by apply Hmax|].
    rewrite (reduces_one_per_stream h eff w' w); try done.
    apply same_stream_sym in Hs. eapply same_stream_trans; [done|].
    by eapply same_stream_key.
  - intros e [He| ->%list_elem_of_singleton]%elem_of_app Hd; [by apply (red_complete _ _ Hr)|].
    exists w. split; [done|].
    destruct (replacement_candidate_wins w c) eqn:E.
    + right. split; [by eapply same_stream_key|done].
    + left. apply Hinj; [set_solver..|]. by apply wins_total.
Qed.

Lemma reduces_push h eff c :
  reduces h eff -> durable c ->
  (forall e, e ∈ eff -> ev_id e <> ev_id c) ->
  (forall key e, replacement_key c = Some key -> e ∈ eff -> replacement_key e <> Some key) ->
  reduces (h ++ [c]) (eff ++ [c]).
Proof.
  intros Hr Hd Hfresh Hkey.
  assert (forall e, e ∈ eff -> ~ same_stream e c) as Hnot.
  { intros e He [H1 H2]. destruct (replacement_key c) as [k|] eqn:Hk; [|done].
    by apply (Hkey k e). }
  assert (forall e, e ∈ h -> ~ same_stream e c) as Hnoth.
  { intros e He Hs.
    destruct (red_complete _ _ Hr e He (same_stream_durable _ _ Hs)) as (w & Hw & [->|[Hs' _]]).
    - by apply (Hnot e).
    - apply (Hnot w Hw). by eapply same_stream_trans. }
  split.
  - intros w [Hw| ->%list_elem_of_singleton]%elem_of_app.
    + destruct (red_sound _ _ Hr w Hw) as (? & ? & Hmax). split_and!; [set_solver|done|].
      intros e [He| ->%list_elem_of_singleton]%elem_of_app Hs; [by apply Hmax|].
      apply same_stream_sym in Hs. by apply Hnot in Hs.
    + split_and!; [set_solver|done|].
      intros e [He| ->%list_elem_of_singleton]%elem_of_app Hs; [by apply Hnoth in Hs|done].
  - intros e [He| ->%list_elem_of_singleton]%elem_of_app Hde; [|exists c; set_solver].
    destruct (red_complete _ _ Hr e He Hde) as (w & Hw & ?). exists w. set_solver.
  - apply NoDup_app. split_and!; [apply (red_nodup _ _ Hr)| |apply NoDup_singleton].
    intros e He ->%list_elem_of_singleton. by apply (Hfresh c).
Qed.

Lemma reduces_replace h l1 old l2 c key :
  reduces h (l1 ++ old :: l2) -> id_injective (h ++ [c]) -> durable c ->
  (forall e, e ∈ l1 ++ old :: l2 -> ev_id e <> ev_id c) ->
  replacement_key c = Some key -> replacement_key old = Some key ->
  replacement_candidate_wins c old = true ->
  reduces (h ++ [c]) (l1 ++ c :: l2).
Proof.
  intros Hr Hinj Hd Hfresh Hkc Hko Hwin.
  assert (id_injective h) as Hinj' by (intros e1 e2 ? ?; apply Hinj; set_solver).
  assert (same_stream c old) as Hco by (by eapply same_stream_key).
  pose proof (red_nodup _ _ Hr) as Hnd.
  assert (forall w, w ∈ l1 \/ w ∈ l2 -> w ∈ l1 ++ old :: l2 /\ w <> old) as Hrest.
  { intros w Hw. split; [set_solver|]. intros ->.
    apply NoDup_app in Hnd as (_ & Hn1 & Hn2). apply NoDup_cons in Hn2 as [Hn2 _].
    destruct Hw as [Hw|Hw]; [|done]. apply (Hn1 old Hw). set_solver. }
  split.
  - intros w Hw. assert (w = c \/ w ∈ l1 \/ w ∈ l2) as [->|Hw'] by set_solver.
    + split_and!; [set_solver|done|].
      intros e [He| ->%list_elem_of_singleton]%elem_of_app Hs; [|done].
      destruct (replacement_candidate_wins e c) eqn:E; [|done].
      assert (replacement_candidate_wins e old = true) as E' by (by eapply wins_trans).
      destruct (red_sound _ _ Hr old ltac:(set_solver)) as (_ & _ & Hmax).
      rewrite Hmax in E'; [done|done|by eapply same_stream_trans].
    + destruct (Hrest w Hw') as [Hin Hne].
      destruct (red_sound _ _ Hr w Hin) as (? & ? & Hmax). split_and!; [set_solver|done|].
      intros e [He| ->%list_elem_of_singleton]%elem_of_app Hs; [by apply Hmax|].
      destruct Hne. eapply reduces_one_per_stream; [done|done|done|set_solver|].
      eapply same_stream_trans; [by apply same_stream_sym|done].
  - intros e [He| ->%list_elem_of_singleton]%elem_of_app Hde; [|exists c; set_solver].
    destruct (red_complete _ _ Hr e He Hde) as (w & Hw & Hor).
    destruct (decide (w = old)) as [->|Hne]; [|exists w; set_solver].
    exists c. split; [set_solver|]. right.
    destruct Hor as [<-|[Hs Hw']]; [done|].
    split; [by eapply same_stream_trans | by eapply wins_trans].
  - apply NoDup_app in Hnd as (Hn0 & Hn1 & Hn2). apply NoDup_cons in Hn2 as [Hn2 Hn3].
    apply NoDup_app. split_and!; [done| |apply NoDup_cons; split; [|done]].
    + intros e He [->|He']%elem_of_cons; [apply (Hfresh c); set_solver|].
      apply (Hn1 e He). set_solver.
    + intros He. apply (Hfresh c); set_solver.
Qed.

(** Applying an event to a reduction of [h] gives a reduction of [h ++ [c]]. *)
Lemma reduces_apply h (eff : list StoredEvent.t) s :
  reduces h (events_of eff) -> id_injective (h ++ [StoredEvent.event s]) ->
  reduces (h ++ [StoredEvent.event s]) (events_of (apply_effective_event eff s).1).
Proof.
  intros Hr Hinj. pose proof (apply_effective_event_applied eff s) as Ha.
  pose proof (apply_effective_event_decision eff s) as Hd.
  remember (StoredEvent.event s) as c eqn:Hc. clear Hc.
  assert (forall w, w ∈ events_of eff -> w ∈ h) as Hsub.
  { intros w Hw. by destruct (red_sound _ _ Hr w Hw). }
  destruct Ha as [d Hne -> | -> Hk | l1 old l2 key Heq -> Hkc Hko Hwin _].
  - destruct d; [done| | |]; symmetry in Hd.
    + apply decide_duplicate in Hd as (e & He & Hid).
      apply reduces_old; [done|]. rewrite <-(Hinj e c); [by apply Hsub| | |done]; set_solver.
    + apply decide_superseded in Hd as (key & e & ? & ? & ? & ?).
      by eapply reduces_superseded.
    + apply reduces_ephemeral; [done|]. by eapply decide_ephemeral.
  - apply reduces_push; try done; [by eapply decide_stored_not_ephemeral|].
    intros e He. by eapply decide_stored_fresh.
  - rewrite Heq in Hr, Hsub.
    eapply reduces_replace; try done; [by eapply decide_stored_not_ephemeral|].
    intros e He. eapply decide_stored_fresh; [done|]. by rewrite Heq.
Qed.
End history.
