(* ===== verification/FilterMatch.v ===== *)
(** * NIP-01 filter matching

    [buzz-core/src/filter.rs]: filters are OR-ed, the fields of one filter are
    AND-ed, and a channel filter falls back on the relay-assigned channel of an
    event that carries no channel tag. *)

From S2P Require Import Prelude Nostr Kinds.

Section filter.
Context `{NL : NostrLib}.

(** [if let Some(xs) = &f.field { if !xs.contains(x) { return false } }] *)
Definition field_allows {A} (p : A -> bool) (field : option A) : bool :=
  match field with Some a => p a | None => true end.

Definition tag_named (key : string) (t : Tag) : bool :=
  bool_decide (tag_kind_to_string (tag_kind t) = key).

Definition has_tag_match (key : string) (values : list string) (ev : StoredEvent.t) : bool :=
  existsb (fun filter_val =>
    existsb (fun event_val => bool_decide (event_val = filter_val))
      (omap tag_content (List.filter (tag_named key) (ev_tags (StoredEvent.event ev)))))
    values.

(** One turn of the loop over [generic_tags]; [false] is its [return false]. *)
Definition generic_tag_match (ev : StoredEvent.t) (kv : string * list string) : bool :=
  let '(tag_key_str, tag_values) := kv in
  let has_match := has_tag_match tag_key_str tag_values ev in
  if negb has_match && bool_decide (tag_key_str = "h"%string) then
    let event_has_h_tags := existsb (tag_named "h") (ev_tags (StoredEvent.event ev)) in
    if negb event_has_h_tags then
      match StoredEvent.channel_id ev with
      | Some ch_id =>
          let ch_str := Uuid_to_string ch_id in
          existsb (fun v => bool_decide (v = ch_str)) tag_values
      | None => false
      end
    else false
  else if negb has_match then false
  else true.

Definition filter_match_one (f : Filter) (ev : StoredEvent.t) : bool :=
  let e := StoredEvent.event ev in
  if negb (field_allows (fun kinds => kind_in (ev_kind e) kinds) (f_kinds f)) then false
  else if negb (field_allows (fun authors => bool_decide (ev_pubkey e ∈ authors)) (f_authors f)) then false
  else if negb (field_allows (fun since => negb (ev_created_at e <? since)%N) (f_since f)) then false
  else if negb (field_allows (fun until => negb (until <? ev_created_at e)%N) (f_until f)) then false
  else if negb (field_allows
                  (fun ids => existsb (fun id => starts_with (to_hex (ev_id e)) (to_hex id)) ids)
                  (f_ids f)) then false
  else forallb (generic_tag_match ev) (f_generic_tags f).

Definition filters_match (filters : list Filter) (ev : StoredEvent.t) : bool :=
  existsb (fun f => filter_match_one f ev) filters.

(** Result-level gate of owner-private kinds. *)
Definition reader_authorized_for_event (e : Event) (reader_pubkey_hex : string) : bool :=
  let kind := event_kind_u32 e in
  if negb (kind =? KIND_DM_VISIBILITY)%N && negb (kind =? KIND_AGENT_TURN_METRIC)%N then true
  else existsb (fun t => bool_decide (tag_content t = Some reader_pubkey_hex))
         (tags_filter (SingleLetterLower "p"%char) (ev_tags e)).
End filter.

Section filter_theory.
Context `{NL : NostrLib}.

Lemma filter_match_one_fields f ev :
  filter_match_one f ev = true <->
  field_allows (fun kinds => kind_in (ev_kind (StoredEvent.event ev)) kinds) (f_kinds f) = true /\
  field_allows (fun authors => bool_decide (ev_pubkey (StoredEvent.event ev) ∈ authors)) (f_authors f) = true /\
  field_allows (fun since => negb (ev_created_at (StoredEvent.event ev) <? since)%N) (f_since f) = true /\
  field_allows (fun until => negb (until <? ev_created_at (StoredEvent.event ev))%N) (f_until f) = true /\
  field_allows (fun ids => existsb (fun id => starts_with (to_hex (ev_id (StoredEvent.event ev))) (to_hex id)) ids)
    (f_ids f) = true /\
  forallb (generic_tag_match ev) (f_generic_tags f) = true.
Proof.
  unfold filter_match_one. repeat (destruct (field_allows _ _); simpl); naive_solver.
Qed.

(** Matching looks at the event and its channel only, not at the time of
    receipt or the verification flag. *)
Lemma filter_match_one_ext f a b :
  StoredEvent.event a = StoredEvent.event b -> StoredEvent.channel_id a = StoredEvent.channel_id b ->
  filter_match_one f a = filter_match_one f b.
Proof.
  intros E1 E2. unfold filter_match_one. rewrite E1.
  repeat (destruct (field_allows _ _); simpl; [|done]).
  induction (f_generic_tags f) as [|[k vs] l IH]; simpl; [done|].
  rewrite IH. f_equal. unfold has_tag_match. by rewrite E1, E2.
Qed.

Lemma filters_match_ext fs a b :
  StoredEvent.event a = StoredEvent.event b -> StoredEvent.channel_id a = StoredEvent.channel_id b ->
  filters_match fs a = filters_match fs b.
Proof.
  intros E1 E2. unfold filters_match. induction fs as [|f fs IH]; simpl; [done|].
  by rewrite IH, (filter_match_one_ext f a b).
Qed.

Lemma filter_match_until f ev until :
  f_until f = Some until -> filter_match_one f ev = true ->
  (ev_created_at (StoredEvent.event ev) <= until)%N.
Proof.
  intros E (_ & _ & _ & H & _)%filter_match_one_fields. rewrite E in H. simpl in H. lia.
Qed.
End filter_theory.
