(* ===== verification/Store.v ===== *)
(** * The event store

    [EventStore] of [buzz-local-relay/src/lib.rs]: verified events in an
    effective projection, an append-only NDJSON log, and the ids accepted so
    far.  The file behind the writer is its bytes; the wall clock, the outcome
    of the verification task and the outcome of the write are arguments of the
    operation that observes them. *)

From S2P Require Import Prelude Text Nostr Kinds Ingest FilterMatch.

Definition DEFAULT_QUERY_LIMIT : nat := 500.
Definition MAX_QUERY_LIMIT : nat := 5000.

(** ** Errors and results *)

Inductive StoreError :=
| Io (error : string)
| MalformedRecord (line : nat) (source : string)
| InvalidRecord (line : nat) (reason : string)
| VerificationTask (error : string)
| Serialization (error : string)
| Materialization (reason : string).

Inductive QueryError :=
| SearchUnsupported
| UnsupportedFilterField (field : string)
| IncompleteCursor.

(** [Display] of the errors. *)
Definition store_error_to_string (e : StoreError) : string :=
  match e with
  | Io error => "event log I/O failed: " +:+ error
  | MalformedRecord line source =>
      "event log line " +:+ u64_to_string (N.of_nat line) +:+ " is malformed: " +:+ source
  | InvalidRecord line reason =>
      "event log line " +:+ u64_to_string (N.of_nat line) +:+ " failed verification: " +:+ reason
  | VerificationTask error => "event verification task failed: " +:+ error
  | Serialization error => "event serialization failed: " +:+ error
  | Materialization reason => "relay state materialization failed: " +:+ reason
  end.

Definition query_error_to_string (e : QueryError) : string :=
  match e with
  | SearchUnsupported => "NIP-50 search filters require the production relay"
  | UnsupportedFilterField field => "unsupported filter field: " +:+ field
  | IncompleteCursor => "before_id requires until to be set"
  end.

Module WriteResult.
Record t := mk {
  event_id : string;
  accepted : bool;
  message : string;
  publish_live : bool;
}.

Definition accept (e : Event) (message : string) (publish_live : bool) : t :=
  mk (to_hex (ev_id e)) true message publish_live.

Definition reject (e : Event) (message : string) : t :=
  mk (to_hex (ev_id e)) false message false.
End WriteResult.

Record AcceptEnv := mkAcceptEnv {
  env_now : N;
  env_join : result string unit;
  env_write : WriteOutcome;
}.

(** [StoreInner]; [log] is the file behind [writer]. *)
Record StoreInner := mkStoreInner {
  events : list StoredEvent.t;
  journal : list Event;
  seen_ids : gset EventId;
  log : option string;
}.

Record CursorFilter := mkCursorFilter { cf_filter : Filter; cf_before_id : option EventId }.

Section store.
Context `{NL : NostrLib, SJ : SerdeJson}.

Definition stored_event (now : N) (e : Event) : StoredEvent.t :=
  let channel_id :=
    find_map Uuid_parse
      (omap tag_content (tags_filter (SingleLetterLower "h"%char) (ev_tags e))) in
  StoredEvent.with_received_at e now channel_id true.

(** ** [EventStore::accept] *)

Definition with_seen (inner : StoreInner) (id : EventId) : StoreInner :=
  mkStoreInner (events inner) (journal inner) ({[id]} ∪ seen_ids inner) (log inner).

(** The bytes appended to the log for one event. *)
Definition record_bytes (json : string) : string := json +:+ String Lines.newline EmptyString.

Definition with_log (inner : StoreInner) (l : option string) : StoreInner :=
  mkStoreInner (events inner) (journal inner) (seen_ids inner) l.

(** Durable append; [Err] leaves the projection alone. *)
Definition append_record (outcome : WriteOutcome) (inner : StoreInner) (e : Event)
    : StoreInner * result StoreError unit :=
  match log inner with
  | None => (inner, Ok tt)
  | Some bytes =>
      match event_to_string e with
      | Err error => (inner, Err (Serialization error))
      | Ok json =>
          match outcome with
          | Written => (with_log inner (Some (bytes +:+ record_bytes json)), Ok tt)
          | WriteFailed partial error =>
              (with_log inner (Some (bytes +:+ partial)), Err (Io error))
          end
      end
  end.

Definition accept (env : AcceptEnv) (inner : StoreInner) (e : Event)
    : StoreInner * result StoreError WriteResult.t :=
  match env_join env with
  | Err error => (inner, Err (VerificationTask error))
  | Ok _ =>
      match verify_event e with
      | Err reason =>
          (inner, Ok (WriteResult.reject e
             ("invalid: " +:+ verification_error_to_string reason)))
      | Ok _ =>
          match decide_event (events inner) (bool_decide (ev_id e ∈ seen_ids inner)) e with
          | Duplicate => (inner, Ok (WriteResult.accept e "duplicate" false))
          | Ephemeral => (with_seen inner (ev_id e), Ok (WriteResult.accept e "ephemeral" true))
          | Superseded => (with_seen inner (ev_id e), Ok (WriteResult.accept e "superseded" false))
          | Stored =>
              match append_record (env_write env) inner e with
              | (inner', Err error) => (inner', Err error)
              | (inner', Ok _) =>
                  let stored := stored_event (env_now env) e in
                  (mkStoreInner (apply_effective_event (events inner') stored).1
                                (journal inner' ++ [e])
                                ({[ev_id e]} ∪ seen_ids inner')
                                (log inner'),
                   Ok (WriteResult.accept e "stored" true))
              end
          end
      end
  end.

(** ** [replay_log] and [EventStore::open] *)

Record ReplayedLog := mkReplayedLog {
  r_events : list StoredEvent.t;
  r_journal : list Event;
  r_seen_ids : gset EventId;
}.

Definition replayed_default : ReplayedLog := mkReplayedLog [] [] ∅.

(** The body of the loop for one non-blank line. *)
Definition replay_event (now : N) (r : ReplayedLog) (e : Event) : ReplayedLog :=
  mkReplayedLog (apply_effective_event (r_events r) (stored_event now e)).1
                (r_journal r ++ [e])
                ({[ev_id e]} ∪ r_seen_ids r).

Fixpoint replay_lines (now : N) (index : nat) (ls : list string) (r : ReplayedLog)
    : result StoreError ReplayedLog :=
  match ls with
  | [] => Ok r
  | line :: ls' =>
      if Lines.trim_is_empty line then replay_lines now (S index) ls' r
      else
        let line_number := index + 1 in
        let? e := map_err (fun source => MalformedRecord line_number source) (event_from_str line) in
        let? _ := map_err (fun err => InvalidRecord line_number (verification_error_to_string err))
                          (verify_event e) in
        replay_lines now (S index) ls' (replay_event now r e)
  end.

(** [std::fs::read_to_string]: the contents, [None] for [NotFound], or
    another error. *)
Definition replay_log (now : N) (file : result string (option string))
    : result StoreError ReplayedLog :=
  match file with
  | Err error => Err (Io error)
  | Ok contents => replay_lines now 0 (Lines.lines (default EmptyString contents)) replayed_default
  end.

(** A durable mode carries what the file system answers: the contents read,
    and the outcome of creating the directory and opening for append. *)
Inductive StorageMode :=
| Durable (file : result string (option string)) (opened : result string unit)
| EphemeralMode.

Definition open (now : N) (mode : StorageMode) : result StoreError StoreInner :=
  match mode with
  | Durable file opened =>
      let? r := replay_log now file in
      let? _ := map_err Io opened in
      Ok (mkStoreInner (r_events r) (r_journal r) (r_seen_ids r)
            (Some (match file with Ok (Some contents) => contents | _ => EmptyString end)))
  | EphemeralMode => Ok (mkStoreInner [] [] ∅ None)
  end.

(** ** Queries *)

Definition journal_events_referencing (inner : StoreInner) (sha256 : string) : list Event :=
  List.filter (fun e =>
    existsb (fun t => bool_decide (t !! 0 = Some "x"%string) && bool_decide (t !! 1 = Some sha256))
      (ev_tags e))
    (journal inner).

Definition validate_filters (filters : list Filter) : result QueryError unit :=
  if existsb (fun f => bool_decide (is_Some (f_search f))) filters then Err SearchUnsupported
  else Ok tt.

(** Newest first, then by id: the comparison of both [sort_by] calls. *)
Definition event_le (a b : Event) : bool :=
  (ev_created_at b <? ev_created_at a)%N ||
  ((ev_created_at a =? ev_created_at b)%N && str_leb (to_hex (ev_id a)) (to_hex (ev_id b))).

Definition stored_le (a b : StoredEvent.t) : bool :=
  event_le (StoredEvent.event a) (StoredEvent.event b).

Definition after_cursor (cf : CursorFilter) (e : Event) : bool :=
  match cf_before_id cf, f_until (cf_filter cf) with
  | Some before_id, Some until =>
      (ev_created_at e <? until)%N ||
      ((ev_created_at e =? until)%N && str_ltb (to_hex before_id) (to_hex (ev_id e)))
  | None, _ => true
  | Some _, None => false
  end.

(** The candidates one filter contributes. *)
Definition select_for (ordered : list StoredEvent.t) (cf : CursorFilter) : list Event :=
  let limit := Nat.min (default DEFAULT_QUERY_LIMIT (f_limit (cf_filter cf))) MAX_QUERY_LIMIT in
  StoredEvent.event <$>
    take limit (List.filter (fun s => filters_match [cf_filter cf] s
                                      && after_cursor cf (StoredEvent.event s)) ordered).

(** [if selected_ids.insert(id) { matches.push(event) }] *)
Fixpoint push_new (selected_ids : gset EventId) (matches : list Event) (candidates : list Event)
    : gset EventId * list Event :=
  match candidates with
  | [] => (selected_ids, matches)
  | e :: rest =>
      if bool_decide (ev_id e ∈ selected_ids) then push_new selected_ids matches rest
      else push_new ({[ev_id e]} ∪ selected_ids) (matches ++ [e]) rest
  end.

Fixpoint select_all (ordered : list StoredEvent.t) (filters : list CursorFilter)
    (selected_ids : gset EventId) (matches : list Event) : list Event :=
  match filters with
  | [] => matches
  | cf :: rest =>
      let '(ids', matches') := push_new selected_ids matches (select_for ordered cf) in
      select_all ordered rest ids' matches'
  end.

Definition query_with_cursors (inner : StoreInner) (filters : list CursorFilter)
    : result QueryError (list Event) :=
  if existsb (fun cf => bool_decide (is_Some (cf_before_id cf))
                        && negb (bool_decide (is_Some (f_until (cf_filter cf))))) filters
  then Err IncompleteCursor
  else
    let? _ := validate_filters (cf_filter <$> filters) in
    match filters with
    | [] => Ok []
    | _ =>
        let ordered := sort_by stored_le (events inner) in
        Ok (sort_by event_le (select_all ordered filters ∅ []))
    end.

Definition query (inner : StoreInner) (filters : list Filter) : result QueryError (list Event) :=
  query_with_cursors inner ((fun f => mkCursorFilter f None) <$> filters).

Definition count (inner : StoreInner) (filters : list Filter) : result QueryError nat :=
  let? _ := validate_filters filters in
  match filters with
  | [] => Ok 0
  | _ => Ok (length (List.filter (filters_match filters) (events inner)))
  end.
End store.
