(* ===== verification/StoreTheory.v ===== *)
(** * Correctness of the event store

    Three groups of results on the store of [Store.v]: what one [accept] does
    on every branch; that a run of accepts keeps the effective projection equal
    to the order-free specification of [Ingest.v], so that stores converge; and
    that replaying the log after a restart rebuilds the state. *)

From S2P Require Import Prelude Text Nostr Kinds Ingest FilterMatch Store Demo.

(** ** Stored events up to the time of receipt

    A restart re-reads the clock, so recovered state equals the old one except
    for [received_at]. *)

#[global] Instance stored_equiv : Equiv StoredEvent.t := fun a b =>
  StoredEvent.event a = StoredEvent.event b /\
  StoredEvent.channel_id a = StoredEvent.channel_id b /\
  StoredEvent.verified a = StoredEvent.verified b.

#[global] Instance stored_equivalence : Equivalence (≡@{StoredEvent.t}).
Proof.
  split.
  - by intros a.
  - intros a b (? & ? & ?). by split_and!.
  - intros a b c (? & ? & ?) (? & ? & ?). split_and!; congruence.
Qed.

#[global] Instance stored_event_proper : Proper ((≡) ==> (=)) StoredEvent.event.
Proof. by intros a b (? & ? & ?). Qed.

Section equiv.
Context `{NL : NostrLib}.

#[global] Instance events_of_proper : Proper ((≡) ==> (=)) events_of.
Proof.
  intros l1 l2 H. induction H as [|a b l1 l2 [E _] H IH]; [done|].
  unfold events_of in *. rewrite !fmap_cons. by f_equal.
Qed.

#[global] Instance has_id_proper id : Proper ((≡) ==> (=)) (has_id id).
Proof. intros a b [E _]. unfold has_id. by rewrite E. Qed.

#[global] Instance has_key_proper key : Proper ((≡) ==> (=)) (has_key key).
Proof. intros a b [E _]. unfold has_key. by rewrite E. Qed.

Lemma existsb_proper (p : StoredEvent.t -> bool) l1 l2 :
  Proper ((≡) ==> (=)) p -> l1 ≡ l2 -> existsb p l1 = existsb p l2.
Proof. intros Hp H. induction H as [|a b l1 l2 E H IH]; simpl; [done|]. by rewrite E, IH. Qed.

Lemma find_proper (p : StoredEvent.t -> bool) l1 l2 :
  Proper ((≡) ==> (=)) p -> l1 ≡ l2 -> find p l1 ≡ find p l2.
Proof.
  intros Hp H. induction H as [|a b l1 l2 E H IH]; simpl; [done|].
  rewrite (Hp _ _ E). destruct (p b); [by constructor|done].
Qed.

Lemma position_proper (p : StoredEvent.t -> bool) l1 l2 :
  Proper ((≡) ==> (=)) p -> l1 ≡ l2 -> position p l1 = position p l2.
Proof.
  intros Hp H. induction H as [|a b l1 l2 E H IH]; simpl; [done|].
  rewrite (Hp _ _ E). by rewrite IH.
Qed.

#[global] Instance decide_event_proper :
  Proper ((≡) ==> (=) ==> (=) ==> (=)) decide_event.
Proof.
  intros l1 l2 H p ? <- c ? <-. unfold decide_event.
  rewrite (existsb_proper _ _ _ _ H). destruct (_ || _); [done|].
  destruct (classify_event c) as [|key|]; try done.
  pose proof (find_proper (has_key key) _ _ _ H) as E.
  destruct E as [a b [E _]|]; [by rewrite E|done].
Qed.

Lemma apply_effective_event_proper l1 l2 a b :
  l1 ≡ l2 -> a ≡ b -> (apply_effective_event l1 a).1 ≡ (apply_effective_event l2 b).1.
Proof.
  intros Hl Hab. unfold apply_effective_event.
  rewrite (proj1 Hab), (decide_event_proper l1 l2 Hl false false eq_refl _ _ eq_refl).
  destruct (negb _); [done|].
  destruct (replacement_key (StoredEvent.event b)) as [key|]; simpl.
  - rewrite (position_proper _ _ _ _ Hl). destruct (position _ l2) as [i|]; simpl.
    + by rewrite Hl, Hab.
    + by rewrite Hl, Hab.
  - by rewrite Hl, Hab.
Qed.

Lemma stored_event_equiv now1 now2 e : stored_event now1 e ≡ stored_event now2 e.
Proof. done. Qed.
End equiv.

(** ** One accept *)

Section accept.
Context `{NL : NostrLib, SJ : SerdeJson}.

(** A failed accept changes neither the projection, the journal nor the
    accepted ids. *)
Lemma accept_err env inner e inner' err :
  accept env inner e = (inner', Err err) ->
  events inner' = events inner /\ journal inner' = journal inner /\ seen_ids inner' = seen_ids inner.
Proof.
  unfold accept, append_record, with_log. intros H.
  repeat case_match; simplify_eq; done.
Qed.

Inductive accepted_step (env : AcceptEnv) (inner : StoreInner) (e : Event) :
    StoreInner -> string -> Prop :=
| step_duplicate :
    decide_event (events inner) (bool_decide (ev_id e ∈ seen_ids inner)) e = Duplicate ->
    accepted_step env inner e inner "duplicate"
| step_ephemeral :
    decide_event (events inner) (bool_decide (ev_id e ∈ seen_ids inner)) e = Ephemeral ->
    accepted_step env inner e (with_seen inner (ev_id e)) "ephemeral"
| step_superseded :
    decide_event (events inner) (bool_decide (ev_id e ∈ seen_ids inner)) e = Superseded ->
    accepted_step env inner e (with_seen inner (ev_id e)) "superseded"
| step_stored log' :
    decide_event (events inner) (bool_decide (ev_id e ∈ seen_ids inner)) e = Stored ->
    match log inner with
    | None => log' = None
    | Some bytes => exists json, event_to_string e = Ok json /\ log' = Some (bytes +:+ record_bytes json)
    end ->
    accepted_step env inner e
      (mkStoreInner (apply_effective_event (events inner) (stored_event (env_now env) e)).1
         (journal inner ++ [e]) ({[ev_id e]} ∪ seen_ids inner) log') "stored".

(** Every outcome of [accept]: an error, a rejection that changes nothing, or
    one of the four accepted steps. *)
Lemma accept_cases env inner e inner' r :
  accept env inner e = (inner', r) ->
  (exists err, r = Err err) \/
  (verify_event e <> Ok tt /\ inner' = inner /\
     exists reason, r = Ok (WriteResult.reject e ("invalid: " +:+ reason))) \/
  (verify_event e = Ok tt /\ exists msg live, r = Ok (WriteResult.accept e msg live) /\
     accepted_step env inner e inner' msg).
Proof.
  unfold accept. destruct (env_join env) as [u|err]; [|intros [= <- <-]; eauto].
  destruct (verify_event e) as [[]|err] eqn:Hv; [|intros [= <- <-]; right; left; eauto].
  destruct (decide_event _ _ e) eqn:Hd.
  - unfold append_record. destruct (log inner) as [bytes|] eqn:Hlog.
    + destruct (event_to_string e) as [json|error] eqn:Hj; [|intros [= <- <-]; eauto].
      destruct (env_write env); [|intros [= <- <-]; eauto].
      intros [= <- <-]. right; right. split; [done|]. eexists _, _. split; [done|].
      eapply step_stored; [done|]. rewrite Hlog. eauto.
    + intros [= <- <-]. right; right. split; [done|]. eexists _, _. split; [done|].
      rewrite Hlog. eapply step_stored; [done|]. by rewrite Hlog.
  - intros [= <- <-]. right; right. split; [done|]. eexists _, _. split; [done|]. by constructor.
  - intros [= <- <-]. right; right. split; [done|]. eexists _, _. split; [done|]. by constructor.
  - intros [= <- <-]. right; right. split; [done|]. eexists _, _. split; [done|]. by constructor.
Qed.

(** An accepted id is a duplicate from then on. *)
Lemma accepted_step_known env inner e inner' msg :
  accepted_step env inner e inner' msg ->
  decide_event (events inner') (bool_decide (ev_id e ∈ seen_ids inner')) e = Duplicate.
Proof.
  destruct 1 as [H|H|H|l H _]; [done|..];
    (rewrite bool_decide_true; [done|simpl; set_solver]).
Qed.
End accept.

(** ** Runs of accepts *)

Section runs.
Context `{NL : NostrLib, SJ : SerdeJson}.

(** Submissions in order, each with the environment it meets. *)
Fixpoint run (inner : StoreInner) (subs : list (AcceptEnv * Event)) : StoreInner :=
  match subs with
  | [] => inner
  | (env, e) :: rest => run (accept env inner e).1 rest
  end.

Definition was_accepted (r : result StoreError WriteResult.t) : bool :=
  match r with Ok w => WriteResult.accepted w | Err _ => false end.

(** The events a run accepted, in order. *)
Fixpoint accepted_of (inner : StoreInner) (subs : list (AcceptEnv * Event)) : list Event :=
  match subs with
  | [] => []
  | (env, e) :: rest =>
      (if was_accepted (accept env inner e).2 then [e] else [])
      ++ accepted_of (accept env inner e).1 rest
  end.

Definition empty_store (l : option string) : StoreInner := mkStoreInner [] [] ∅ l.

(** The state after accepting the history [h]. *)
Record store_inv (h : list Event) (inner : StoreInner) : Prop := {
  inv_reduces : reduces h (events_of (events inner));
  inv_seen : forall id, id ∈ seen_ids inner <-> exists e, e ∈ h /\ ev_id e = id;
}.

Lemma store_inv_empty l : store_inv [] (empty_store l).
Proof.
  split; [apply reduces_nil|]. intros id. simpl. split; [set_solver|].
  intros (e & []%not_elem_of_nil & _).
Qed.

Lemma store_inv_step h env inner e inner' msg :
  store_inv h inner -> id_injective (h ++ [e]) ->
  accepted_step env inner e inner' msg -> store_inv (h ++ [e]) inner'.
Proof.
  intros [Hr Hs] Hinj Hstep.
  assert (forall id, id ∈ ({[ev_id e]} ∪ seen_ids inner : gset EventId) <->
                     exists e', e' ∈ h ++ [e] /\ ev_id e' = id) as Hseen.
  { intros id. rewrite elem_of_union, elem_of_singleton, Hs. setoid_rewrite elem_of_app.
    setoid_rewrite list_elem_of_singleton. naive_solver. }
  pose proof (reduces_apply h (events inner) (stored_event (env_now env) e) Hr Hinj) as Happ.
  simpl in Happ.
  assert (forall d, d <> Stored ->
    decide_event (events inner) false e = d ->
    reduces (h ++ [e]) (events_of (events inner))) as Hnoop.
  { intros d Hd E. revert Happ. unfold apply_effective_event. simpl. rewrite E.
    by rewrite bool_decide_false. }
  destruct Hstep as [H|H|H|l H _].
  - split; simpl.
    + case_bool_decide as Hin.
      * apply reduces_old; [done|]. apply Hs in Hin as (e' & He' & Hid).
        rewrite <-(Hinj e' e); [done| | |done]; set_solver.
      * by eapply Hnoop; [|exact H].
    + intros id. rewrite <-Hseen, elem_of_union, elem_of_singleton.
      split; [by right|]. intros [->|?]; [|done].
      case_bool_decide as Hin; [done|].
      apply decide_duplicate in H as (e' & He' & Hid). apply Hs. exists e'. split; [|done].
      by destruct (red_sound _ _ Hr e' He').
  - split; simpl; [|done].
    case_bool_decide as Hin; [by rewrite decide_event_accepted in H|].
    by eapply Hnoop; [|exact H].
  - split; simpl; [|done].
    case_bool_decide as Hin; [by rewrite decide_event_accepted in H|].
    by eapply Hnoop; [|exact H].
  - by split; simpl.
Qed.

Lemma store_inv_accept h env inner e :
  store_inv h inner -> id_injective (h ++ [e]) ->
  store_inv (h ++ if was_accepted (accept env inner e).2 then [e] else []) (accept env inner e).1.
Proof.
  intros Hinv Hinj. destruct (accept env inner e) as [inner' r] eqn:E.
  destruct (accept_cases _ _ _ _ _ E) as [(err & ->)|[(_ & -> & reason & ->)|(_ & msg & live & -> & Hst)]];
    simpl; rewrite ?app_nil_r; [|done|by eapply store_inv_step].
  apply accept_err in E as (E1 & _ & E3). destruct Hinv as [H1 H2].
  split; [by rewrite E1|by rewrite E3].
Qed.

Lemma store_inv_run h inner subs :
  store_inv h inner -> id_injective (h ++ (snd <$> subs)) ->
  store_inv (h ++ accepted_of inner subs) (run inner subs).
Proof.
  revert h inner. induction subs as [|[env e] subs IH]; intros h inner Hinv Hinj; simpl.
  - by rewrite app_nil_r.
  - rewrite app_assoc. apply IH.
    + apply store_inv_accept; [done|]. intros e1 e2 ? ?. apply Hinj; set_solver.
    + intros e1 e2 H1 H2. apply Hinj; destruct (was_accepted _); set_solver.
Qed.

Lemma accepted_of_submitted inner subs e : e ∈ accepted_of inner subs -> e ∈ (snd <$> subs).
Proof.
  revert inner; induction subs as [|[env e'] subs IH]; intros inner; simpl; [done|].
  rewrite elem_of_app. intros [H|H]; [|right; by eapply IH].
  destruct (was_accepted _); [|by apply not_elem_of_nil in H].
  apply list_elem_of_singleton in H as ->. left.
Qed.

Lemma id_injective_sub h h' : id_injective h -> (forall e, e ∈ h' -> e ∈ h) -> id_injective h'.
Proof. intros H Hs e1 e2 H1 H2. by apply H; apply Hs. Qed.

End runs.

(** ** Restart *)

Section restart.
Context `{NL : NostrLib, SJ : SerdeJson, SJL : !SerdeJsonLaws SJ}.

Definition encodes (e : Event) (j : string) : Prop := event_to_string e = Ok j.

(** The log holds the journal, and the projection is its replay. *)
Record durable_inv (inner : StoreInner) : Prop := {
  dur_log : exists js, log inner = Some (Lines.unlines js) /\ Forall2 encodes (journal inner) js;
  dur_verified : Forall (fun e => verify_event e = Ok tt) (journal inner);
  dur_events : forall now,
    events inner ≡ r_events (foldl (replay_event now) replayed_default (journal inner));
}.

(** Writes that leave no torn record: they succeed, or write nothing. *)
Definition clean_write (env : AcceptEnv) : Prop :=
  match env_write env with Written => True | WriteFailed partial _ => partial = EmptyString end.

Lemma durable_inv_empty : durable_inv (empty_store (Some EmptyString)).
Proof. split; [by exists []|constructor|done]. Qed.

Lemma accept_log_on_err env inner e inner' err bytes :
  clean_write env -> log inner = Some bytes ->
  accept env inner e = (inner', Err err) -> log inner' = Some bytes.
Proof.
  unfold accept, append_record, clean_write. intros Hc Hl H.
  repeat case_match; simplify_eq/=; try done. by rewrite str_app_nil_r.
Qed.

Lemma durable_inv_accept env inner e :
  clean_write env -> durable_inv inner -> durable_inv (accept env inner e).1.
Proof.
  intros Hc [(js & Hlog & Hjs) Hv He].
  destruct (accept env inner e) as [inner' r] eqn:E; simpl.
  destruct (accept_cases _ _ _ _ _ E) as [(err & ->)|[(_ & -> & _)|(Hver & msg & live & -> & Hst)]].
  - pose proof (accept_log_on_err _ _ _ _ _ _ Hc Hlog E) as Hlog'.
    apply accept_err in E as (E1 & E2 & _).
    split; [exists js; by rewrite E2|by rewrite E2|intros now; by rewrite E1, E2].
  - split; eauto.
  - destruct Hst as [H|H|H|l H Hl]; try (split; simpl; by eauto).
    rewrite Hlog in Hl. destruct Hl as (json & Hj & ->). split; simpl.
    + exists (js ++ [json]). rewrite Lines.unlines_snoc. split; [done|].
      apply Forall2_app; [done|]. by constructor.
    + apply Forall_app. split; [done|]. by constructor.
    + intros now. rewrite foldl_app. simpl.
      apply apply_effective_event_proper; [apply He|done].
Qed.

Lemma durable_inv_run inner subs :
  Forall (fun s => clean_write s.1) subs -> durable_inv inner -> durable_inv (run inner subs).
Proof.
  revert inner. induction subs as [|[env e] subs IH]; intros inner Hc Hinv; simpl; [done|].
  inversion_clear Hc. apply IH; [done|]. by apply durable_inv_accept.
Qed.

Lemma encodes_not_blank e j : encodes e j -> Lines.trim_is_empty j = false.
Proof.
  intros H. pose proof (event_encode_object e j H) as Hp.
  destruct j as [|a j]; [done|]. revert Hp. cbn [String.prefix].
  destruct (ascii_dec "{" a) as [<-|]; [intros _|done]. by destruct j as [|? [|? ?]].
Qed.

Lemma replay_lines_log now index js es r :
  Forall2 encodes es js -> Forall (fun e => verify_event e = Ok tt) es ->
  replay_lines now index (Lines.lines (Lines.unlines js)) r = Ok (foldl (replay_event now) r es).
Proof.
  intros Hjs. revert index r. induction Hjs as [|e j es js Hj Hjs IH]; intros index r Hv; [done|].
  inversion_clear Hv as [|? ? Hve Hvs]. simpl.
  rewrite Lines.lines_line by (by eapply event_encode_plain). simpl.
  rewrite (encodes_not_blank e j Hj).
  rewrite (event_decode_encode e j Hj). simpl. rewrite Hve. simpl. by apply IH.
Qed.

Lemma foldl_replay_journal now es r :
  r_journal (foldl (replay_event now) r es) = r_journal r ++ es.
Proof.
  revert r. induction es as [|e es IH]; intros r; simpl; [by rewrite app_nil_r|].
  rewrite IH. simpl. by rewrite <-app_assoc.
Qed.

Lemma foldl_replay_seen now es r :
  r_seen_ids (foldl (replay_event now) r es) = list_to_set (ev_id <$> es) ∪ r_seen_ids r.
Proof.
  revert r. induction es as [|e es IH]; intros r; simpl; [set_solver|].
  rewrite IH. simpl. set_solver.
Qed.

(** C3: stopping a durable relay and opening its log again rebuilds the
    state: the same journal, the same effective events in the same order up
    to their time of receipt, and the same log to append to, whatever was
    submitted before the stop, as long as no write tore a record. *)
Theorem restart_recovers (subs : list (AcceptEnv * Event)) (now : N) :
  Forall (fun s => clean_write s.1) subs ->
  let inner := run (empty_store (Some EmptyString)) subs in
  exists inner', open now (Durable (Ok (log inner)) (Ok tt)) = Ok inner' /\
    journal inner' = journal inner /\
    events inner' ≡ events inner /\
    log inner' = log inner /\
    seen_ids inner' = list_to_set (ev_id <$> journal inner).
Proof.
  intros Hc inner.
  destruct (durable_inv_run _ subs Hc durable_inv_empty) as [(js & Hlog & Hjs) Hv He].
  fold inner in Hlog, Hjs, Hv, He. unfold open, replay_log. rewrite Hlog. simpl.
  rewrite (replay_lines_log now 0 js (journal inner)) by done. simpl.
  eexists. split; [done|]. simpl. split_and!.
  - by rewrite foldl_replay_journal.
  - by rewrite <-(He now).
  - done.
  - rewrite foldl_replay_seen. simpl. by rewrite (right_id_L ∅ (∪)).
Qed.
End restart.

(** ** Queries *)

Section query.
Context `{NL : NostrLib, SJ : SerdeJson}.

Lemma event_le_total a b : event_le a b = true \/ event_le b a = true.
Proof.
  unfold event_le, to_hex. destruct (str_leb_total (ev_id a) (ev_id b)) as [H|H]; rewrite H; lia.
Qed.

Lemma event_le_trans a b c : event_le a b = true -> event_le b c = true -> event_le a c = true.
Proof.
  unfold event_le, to_hex.
  destruct (str_leb (ev_id a) (ev_id b)) eqn:E1, (str_leb (ev_id b) (ev_id c)) eqn:E2;
    try rewrite (str_leb_trans _ _ _ E1 E2); lia.
Qed.

Lemma event_le_antisym a b : event_le a b = true -> event_le b a = true -> ev_id a = ev_id b.
Proof.
  unfold event_le, to_hex. intros H1 H2. apply str_leb_antisym; lia.
Qed.

(** Sorting stored events sorts their events. *)
Lemma events_of_sort l : events_of (sort_by stored_le l) = sort_by event_le (events_of l).
Proof.
  assert (forall x l, events_of (insert_by stored_le x l) =
                      insert_by event_le (StoredEvent.event x) (events_of l)) as Hins.
  { intros x l'. induction l' as [|y l' IH]; [done|].
    unfold events_of in *. simpl. unfold stored_le at 1.
    destruct (event_le _ _); [done|]. rewrite fmap_cons. by f_equal. }
  induction l as [|x l IH]; [done|].
  simpl. rewrite Hins, IH. done.
Qed.

(** The relay wraps every event it stores the same way. *)
Definition canonical (s : StoredEvent.t) : Prop := s ≡ stored_event 0 (StoredEvent.event s).

Definition cursor_match (cf : CursorFilter) (e : Event) : bool :=
  filters_match [cf_filter cf] (stored_event 0 e) && after_cursor cf e.

Definition limit_of (cf : CursorFilter) : nat :=
  Nat.min (default DEFAULT_QUERY_LIMIT (f_limit (cf_filter cf))) MAX_QUERY_LIMIT.

Lemma filter_fmap_events (p : Event -> bool) (l : list StoredEvent.t) :
  StoredEvent.event <$> List.filter (fun s => p (StoredEvent.event s)) l =
  List.filter p (events_of l).
Proof.
  induction l as [|s l IH]; [done|]. simpl. destruct (p _); [rewrite fmap_cons; by f_equal|done].
Qed.

Lemma select_for_canonical ordered cf :
  Forall canonical ordered ->
  select_for ordered cf = take (limit_of cf) (List.filter (cursor_match cf) (events_of ordered)).
Proof.
  intros Hc. unfold select_for. rewrite fmap_take. f_equal.
  rewrite <-filter_fmap_events. f_equal.
  apply filter_ext_in. intros s Hs%list_elem_of_In.
  rewrite Forall_forall in Hc. destruct (Hc s Hs) as (E1 & E2 & E3).
  unfold cursor_match. f_equal. by apply filters_match_ext.
Qed.

Lemma Forall_sort_by (P : StoredEvent.t -> Prop) l :
  Forall P l -> Forall P (sort_by stored_le l).
Proof. by rewrite sort_by_perm. Qed.

(** A query reads the store through the sorted list of its events only. *)
Lemma select_all_canonical l1 l2 filters ids matches :
  Forall canonical l1 -> Forall canonical l2 -> events_of l1 = events_of l2 ->
  select_all l1 filters ids matches = select_all l2 filters ids matches.
Proof.
  intros H1 H2 E. revert ids matches. induction filters as [|cf filters IH]; intros ids matches; [done|].
  simpl. rewrite !select_for_canonical by done. rewrite E.
  by destruct (push_new _ _ _).
Qed.

Lemma query_canonical inner1 inner2 filters :
  Forall canonical (events inner1) -> Forall canonical (events inner2) ->
  sort_by event_le (events_of (events inner1)) = sort_by event_le (events_of (events inner2)) ->
  query_with_cursors inner1 filters = query_with_cursors inner2 filters.
Proof.
  intros H1 H2 E. unfold query_with_cursors. destruct (existsb _ _); [done|].
  destruct (validate_filters _); [|done]. destruct filters as [|cf filters]; [done|].
  do 2 f_equal. apply select_all_canonical; [by apply Forall_sort_by..|].
  by rewrite !events_of_sort.
Qed.

(** Everything a query returns is effective and matches one of its filters. *)
Lemma push_new_sound ids matches candidates e :
  e ∈ (push_new ids matches candidates).2 -> e ∈ matches \/ e ∈ candidates.
Proof.
  revert ids matches. induction candidates as [|c cs IH]; intros ids matches; simpl; [by left|].
  case_match; intros He; apply IH in He; set_solver.
Qed.

Lemma select_all_sound ordered filters ids matches e :
  e ∈ select_all ordered filters ids matches ->
  e ∈ matches \/ exists cf, cf ∈ filters /\ e ∈ select_for ordered cf.
Proof.
  revert ids matches. induction filters as [|cf filters IH]; intros ids matches; simpl; [by left|].
  destruct (push_new ids matches (select_for ordered cf)) as [ids' matches'] eqn:E. intros He.
  destruct (IH _ _ He) as [Hm|(cf' & Hcf & Hs)]; [|right; exists cf'; split; [by right|done]].
  assert (e ∈ (push_new ids matches (select_for ordered cf)).2) as Hp by by rewrite E.
  apply push_new_sound in Hp as [Hp|Hp]; [by left|]. right. exists cf. split; [left|done].
Qed.

Lemma query_sound inner filters r e :
  query_with_cursors inner filters = Ok r -> e ∈ r ->
  exists cf s, cf ∈ filters /\ s ∈ events inner /\ StoredEvent.event s = e /\
    filters_match [cf_filter cf] s = true /\ after_cursor cf e = true.
Proof.
  unfold query_with_cursors. destruct (existsb _ _); [done|]. destruct (validate_filters _); [|done].
  destruct filters as [|cf0 filters]; [intros [= <-] He; by apply not_elem_of_nil in He|].
  intros E. assert (r = sort_by event_le (select_all (sort_by stored_le (events inner)) (cf0 :: filters) ∅ []))
    as -> by congruence.
  rewrite elem_of_sort_by. intros He. apply select_all_sound in He as [He|(cf & Hcf & He)]; [by apply not_elem_of_nil in He|].
  unfold select_for in He. apply list_elem_of_fmap in He as (s & -> & Hs).
  assert (s ∈ List.filter (fun s => filters_match [cf_filter cf] s && after_cursor cf (StoredEvent.event s))
                (sort_by stored_le (events inner))) as Hs'.
  { eapply sublist_subseteq; [|exact Hs]. apply sublist_take. }
  apply elem_of_filter_b in Hs' as [Hin [Hm Ha]%andb_true_iff]. apply elem_of_sort_by in Hin.
  by exists cf, s.
Qed.

Lemma canonical_apply eff now e :
  Forall canonical eff -> Forall canonical (apply_effective_event eff (stored_event now e)).1.
Proof.
  intros H. assert (canonical (stored_event now e)) as Hn by done.
  unfold apply_effective_event. destruct (negb _); [done|].
  destruct (_ ≫= _) as [i|]; simpl; [by apply Forall_insert|].
  apply Forall_app. split; [done|]. by constructor.
Qed.

Lemma canonical_run inner subs :
  Forall canonical (events inner) -> Forall canonical (events (run inner subs)).
Proof.
  revert inner. induction subs as [|[env e] subs IH]; intros inner H; simpl; [done|]. apply IH.
  destruct (accept env inner e) as [inner' r] eqn:E; simpl.
  destruct (accept_cases _ _ _ _ _ E) as [(err & ->)|[(_ & -> & _)|(_ & msg & live & -> & Hst)]].
  - apply accept_err in E as (-> & _). done.
  - done.
  - destruct Hst; try done. by apply canonical_apply.
Qed.

End query.

(** ** One filter: the page and the next page *)

Section paging.
Context `{NL : NostrLib, SJ : SerdeJson}.

Lemma push_new_fresh ids matches candidates :
  NoDup (ev_id <$> candidates) -> (forall e, e ∈ candidates -> ev_id e ∉ ids) ->
  (push_new ids matches candidates).2 = matches ++ candidates.
Proof.
  revert ids matches. induction candidates as [|e cs IH]; intros ids matches Hnd Hfresh; simpl.
  - by rewrite app_nil_r.
  - rewrite fmap_cons in Hnd. apply NoDup_cons in Hnd as [Hne Hnd].
    rewrite bool_decide_false by (apply Hfresh; left).
    rewrite IH; [by rewrite <-app_assoc|done|].
    intros e' He' [Hid%elem_of_singleton|Hin]%elem_of_union.
    + apply Hne. rewrite <-Hid. by apply list_elem_of_fmap_2.
    + apply (Hfresh e'); [by right|done].
Qed.

(** The effective events in answer order: newest first, then by id. *)
Definition ordered_events (inner : StoreInner) : list Event :=
  sort_by event_le (events_of (events inner)).

Lemma ordered_events_sorted inner :
  StronglySorted (fun a b => event_le a b = true) (ordered_events inner).
Proof. apply sort_by_sorted; [apply event_le_total|apply event_le_trans]. Qed.

Lemma page_sublist n (p : Event -> bool) l : sublist (take n (List.filter p l)) l.
Proof. etrans; [apply sublist_take|apply filter_sublist]. Qed.

Lemma query_one inner cf :
  Forall canonical (events inner) -> NoDup (ev_id <$> events_of (events inner)) ->
  f_search (cf_filter cf) = None ->
  (cf_before_id cf = None \/ is_Some (f_until (cf_filter cf))) ->
  query_with_cursors inner [cf] =
  Ok (take (limit_of cf) (List.filter (cursor_match cf) (ordered_events inner))).
Proof.
  intros Hc Hnd Hs Hb. unfold query_with_cursors, validate_filters. simpl.
  rewrite Hs, (bool_decide_false (is_Some None)) by (by intros []).
  assert (bool_decide (is_Some (cf_before_id cf)) && negb (bool_decide (is_Some (f_until (cf_filter cf)))) = false)
    as ->.
  { destruct Hb as [->|Hb]; [by rewrite bool_decide_false by (by intros [])|].
    rewrite (bool_decide_true _ Hb). by rewrite andb_false_r. }
  simpl. rewrite select_for_canonical by (by apply Forall_sort_by). rewrite events_of_sort.
  fold (ordered_events inner).
  destruct (push_new _ _ _) as [ids ms] eqn:E.
  assert (ms = take (limit_of cf) (List.filter (cursor_match cf) (ordered_events inner))) as ->.
  { change ms with ((ids, ms).2). rewrite <-E, push_new_fresh; [done| |set_solver].
    eapply NoDup_fmap_sublist; [apply page_sublist|].
    unfold ordered_events. by rewrite sort_by_perm. }
  f_equal. apply sort_by_id. eapply StronglySorted_sublist; [apply page_sublist|apply ordered_events_sorted].
Qed.

Lemma run_nodup_ids l subs :
  id_injective (snd <$> subs) -> NoDup (ev_id <$> events_of (events (run (empty_store l) subs))).
Proof.
  intros Hinj. pose proof (store_inv_run [] _ _ (store_inv_empty l) Hinj) as [Hr _]. simpl in Hr.
  pose proof (red_nodup _ _ Hr) as Hnd.
  assert (forall e, e ∈ events_of (events (run (empty_store l) subs)) -> e ∈ (snd <$> subs)) as Hsub.
  { intros e He. eapply accepted_of_submitted. by destruct (red_sound _ _ Hr e He). }
  revert Hnd Hsub. generalize (events_of (events (run (empty_store l) subs))). intros es.
  induction es as [|x es IH]; intros Hnd Hsub; [constructor|].
  apply NoDup_cons in Hnd as [Hx Hnd]. rewrite fmap_cons. apply NoDup_cons. split.
  - intros (y & Hy1 & Hy2)%list_elem_of_fmap. apply Hx.
    rewrite (Hinj x y); [done| | |done]; apply Hsub; [left|by right].
  - apply IH; [done|]. intros e He. apply Hsub. by right.
Qed.

(** The filter of the page after [x]: [until] and [before_id] from [x]. *)
Definition page_after (f : Filter) (x : Event) : CursorFilter :=
  mkCursorFilter
    (mkFilter (f_ids f) (f_authors f) (f_kinds f) (f_search f) (f_since f)
              (Some (ev_created_at x)) (f_limit f) (f_generic_tags f))
    (Some (ev_id x)).

Lemma page_after_match f x e :
  f_until f = None ->
  cursor_match (page_after f x) e =
  cursor_match (mkCursorFilter f None) e && negb (event_le e x).
Proof.
  intros Hu. unfold cursor_match, after_cursor, page_after, event_le, to_hex. simpl.
  unfold filter_match_one. simpl. rewrite Hu. simpl.
  rewrite str_leb_ltb, !orb_false_r.
  repeat (destruct (field_allows _ _); simpl; [|done]).
  destruct (ev_created_at x <? ev_created_at e)%N eqn:E1; simpl.
  - by rewrite andb_false_r.
  - destruct (field_allows _ _); simpl; [|done].
    destruct (forallb _ _); simpl; [|done].
    destruct (str_ltb _ _); lia.
Qed.

(** Along a sorted list with distinct ids, the elements not before [x] are the
    ones that follow it. *)
Lemma filter_after_split (A B : list Event) x :
  StronglySorted (fun a b => event_le a b = true) (A ++ x :: B) ->
  NoDup (ev_id <$> (A ++ x :: B)) ->
  List.filter (fun e => negb (event_le e x)) (A ++ x :: B) = B.
Proof.
  rewrite fmap_app, fmap_cons. intros Hs Hnd.
  apply NoDup_app in Hnd as (_ & _ & Hnd). apply NoDup_cons in Hnd as [Hx _].
  induction A as [|a A IH]; simpl in *.
  - inversion_clear Hs as [|? ? Hs' Hall].
    assert (event_le x x = true) as -> by (destruct (event_le_total x x); done). simpl.
    rewrite Forall_forall in Hall. clear Hs'.
    induction B as [|b B IHB]; simpl; [done|].
    rewrite fmap_cons in Hx. apply not_elem_of_cons in Hx as [Hxb Hx].
    destruct (event_le b x) eqn:E; simpl.
    + exfalso. apply Hxb. apply event_le_antisym; [|done]. apply Hall. left.
    + f_equal. apply IHB; [done|]. intros y Hy. apply Hall. by right.
  - inversion_clear Hs as [|? ? Hs' Hall]. rewrite Forall_forall in Hall.
    rewrite (Hall x) by (apply elem_of_app; right; left). simpl. by apply IH.
Qed.

(** Paging is exact.  When the answers to a filter are [A ++ x :: B] in
    newest-first order, the page whose cursor is [x] holds the first answers of
    [B], up to the limit: no answer is skipped or repeated, also among events
    of one second. *)
Theorem next_page_exact (l : option string) (subs : list (AcceptEnv * Event)) (f : Filter)
    (A B : list Event) (x : Event) :
  id_injective (snd <$> subs) -> f_search f = None -> f_until f = None ->
  List.filter (cursor_match (mkCursorFilter f None)) (ordered_events (run (empty_store l) subs)) = A ++ x :: B ->
  query_with_cursors (run (empty_store l) subs) [page_after f x] =
  Ok (take (limit_of (mkCursorFilter f None)) B).
Proof.
  intros Hinj Hs Hu E. set (inner := run (empty_store l) subs) in *.
  pose proof (run_nodup_ids l subs Hinj) as Hnd. fold inner in Hnd.
  rewrite query_one; [|apply canonical_run; constructor|done|done|right; simpl; eauto].
  do 2 f_equal.
  rewrite (filter_ext _ (fun e => cursor_match (mkCursorFilter f None) e && negb (event_le e x)))
    by (intros e; by apply page_after_match).
  rewrite <-(filter_filter_b (cursor_match (mkCursorFilter f None))), E. apply filter_after_split.
  - rewrite <-E. eapply StronglySorted_sublist; [apply filter_sublist|apply ordered_events_sorted].
  - rewrite <-E. eapply NoDup_fmap_sublist; [apply filter_sublist|].
    unfold ordered_events. by rewrite sort_by_perm.
Qed.
End paging.

(** ** Witnesses

    Two versions of a profile and a note, in two orders, with a duplicate, an
    ephemeral event, a forged one and a failed write. *)

Definition demo_env : AcceptEnv := mkAcceptEnv 100 (Ok tt) Written.
Definition demo_env_fail : AcceptEnv := mkAcceptEnv 101 (Ok tt) (WriteFailed EmptyString "disk full").

Definition demo_note := demo_event "n1" "alice" 5 1 [].
Definition demo_old := demo_event "p1" "alice" 10 0 [].
Definition demo_new := demo_event "p2" "alice" 11 0 [].
Definition demo_pulse := demo_event "b1" "alice" 12 20700 [].
Definition demo_forged := mkEvent "f1" "alice" 9 1 [] "f2" "sig".

Definition demo_run1 : list (AcceptEnv * Event) :=
  [(demo_env, demo_note); (demo_env, demo_old); (demo_env, demo_new); (demo_env, demo_note);
   (demo_env, demo_pulse); (demo_env, demo_forged)].
Definition demo_run2 : list (AcceptEnv * Event) :=
  [(demo_env_fail, demo_new); (demo_env, demo_new); (demo_env, demo_pulse); (demo_env, demo_old);
   (demo_env, demo_note)].

Lemma demo_ids_injective : id_injective ((snd <$> demo_run1) ++ (snd <$> demo_run2)).
Proof.
  intros e1 e2 H1 H2. simpl in H1, H2.
  case_members; by vm_compute.
Qed.


Lemma restart_recovers_witness :
  exists inner', open 200 (Durable (Ok (log (run (empty_store (Some EmptyString)) demo_run2))) (Ok tt)) = Ok inner' /\
    journal inner' = [demo_new; demo_note].
Proof.
  destruct (restart_recovers demo_run2 200) as (inner' & H1 & H2 & _).
  - repeat constructor.
  - exists inner'. split; [exact H1|]. rewrite H2. vm_compute. reflexivity.
Defined.


(** Two notes of one second: the page after the first holds the second. *)
Definition demo_n2 := demo_event "n2" "alice" 5 1 [].
Definition demo_run3 : list (AcceptEnv * Event) :=
  [(demo_env, demo_n2); (demo_env, demo_note); (demo_env, demo_new)].

Lemma next_page_exact_witness :
  query_with_cursors (run (empty_store None) demo_run3) [page_after Filter_new demo_note] = Ok [demo_n2].
Proof.
  refine (next_page_exact None demo_run3 Filter_new [demo_new] [demo_n2] demo_note _ eq_refl eq_refl _).
  - intros e1 e2 H1 H2. simpl in H1, H2.
    case_members; by vm_compute.
  - vm_compute. reflexivity.
Defined.
