(* ===== verification/Auth.v ===== *)
(** * Authentication events

    The [buzz-auth] crate: NIP-42 and NIP-98 verification ([nip42.rs],
    [nip98.rs]), its error type, scopes ([scope.rs]) and channel access checks
    ([access.rs]).  The [url] crate and Unicode lowercasing are the class
    [UrlLib]; the evaluation time is an argument, as in the [_at] functions of
    the source. *)

From S2P Require Import Prelude Text Nostr Kinds.

(** ** Errors *)

Inductive AuthError :=
| InvalidSignature
| ChallengeMismatch
| RelayUrlMismatch
| EventExpired
| Nip98Invalid (message : string)
| Nip98Replay
| PubkeyMismatch
| InsufficientScope (required : string) (have : list string)
| ChannelAccessDenied
| AuthInternal (message : string).

(** Functions of the [url] crate, and [str::to_lowercase]. *)
Class UrlLib := {
  Url : Type;
  Url_parse : string -> option Url;
  url_host_str : Url -> option string;
  (** [set_host(Some(host))], leaving the URL unchanged when it fails *)
  url_set_host : Url -> string -> Url;
  url_path : Url -> string;
  url_set_path : Url -> string -> Url;
  url_to_string : Url -> string;
  to_lowercase : string -> string;
}.

Definition TIMESTAMP_TOLERANCE_SECS : N := 60.

Section nips.
Context `{NL : NostrLib, SJ : SerdeJson, UL : UrlLib}.

(** [nip42.rs]: loopback names are one host. *)
Definition normalize_relay_url (raw : string) : string :=
  match Url_parse raw with
  | None => raw
  | Some parsed =>
      let parsed :=
        match url_host_str parsed with
        | Some host =>
            if String.eqb host "localhost" || String.eqb host "::1"
            then url_set_host parsed "127.0.0.1" else parsed
        | None => parsed
        end in
      let path := trim_end_matches "/" (url_path parsed) in
      url_to_string (url_set_path parsed path)
  end.

(** [nip98.rs]: no loopback aliasing. *)
Definition normalize_url (raw : string) : string :=
  match Url_parse raw with
  | None => to_lowercase raw
  | Some parsed => url_to_string (url_set_path parsed (trim_end_matches "/" (url_path parsed)))
  end.

(** [tags.find(kind).and_then(|t| t.content())] *)
Definition find_content (k : TagKind) (e : Event) : option string :=
  t ← tags_find k (ev_tags e); tag_content t.

Definition verify_nip42_event_at (e : Event) (expected_challenge relay_url : string)
    (evaluation_time : N) : result AuthError unit :=
  if negb (ev_kind e =? 22242)%N then Err InvalidSignature
  else
    let? _ := map_err (fun _ => InvalidSignature) (verify_event e) in
    let? challenge := ok_or (find_content TK_Challenge e) ChallengeMismatch in
    if negb (String.eqb challenge expected_challenge) then Err ChallengeMismatch
    else
      let? relay := ok_or (find_content TK_Relay e) RelayUrlMismatch in
      if negb (String.eqb (normalize_relay_url relay) (normalize_relay_url relay_url))
      then Err RelayUrlMismatch
      else
        let delta := u64_abs_diff evaluation_time (ev_created_at e) in
        if (TIMESTAMP_TOLERANCE_SECS <? delta)%N then Err EventExpired
        else Ok tt.

Definition verify_nip98_event_at (event_json expected_url expected_method : string)
    (body : option string) (evaluation_time : N) : result AuthError PublicKey :=
  let? e := map_err (fun m => Nip98Invalid ("event JSON parse error: " +:+ m)) (event_from_str event_json) in
  if negb (ev_kind e =? 27235)%N then
    Err (Nip98Invalid ("expected kind 27235, got " +:+ u64_to_string (ev_kind e)))
  else
    let? _ := map_err (fun _ => Nip98Invalid "invalid Schnorr signature") (verify_event e) in
    let delta := u64_abs_diff evaluation_time (ev_created_at e) in
    if (TIMESTAMP_TOLERANCE_SECS <? delta)%N then
      Err (Nip98Invalid ("event timestamp outside ±" +:+ u64_to_string TIMESTAMP_TOLERANCE_SECS +:+
                         "s window (delta: " +:+ u64_to_string delta +:+ "s)"))
    else
      let? u_tag := ok_or (find_content (SingleLetterLower "u") e) (Nip98Invalid "missing `u` tag") in
      if negb (String.eqb (normalize_url u_tag) (normalize_url expected_url)) then
        Err (Nip98Invalid ("URL mismatch: event has `" +:+ u_tag +:+ "`, expected `" +:+ expected_url +:+ "`"))
      else
        let? method_tag := ok_or (find_content TK_Method e) (Nip98Invalid "missing `method` tag") in
        if negb (eq_ignore_ascii_case method_tag expected_method) then
          Err (Nip98Invalid ("method mismatch: event has `" +:+ method_tag +:+ "`, expected `" +:+
                             expected_method +:+ "`"))
        else
          match find_content TK_Payload e, body with
          | Some payload_hex, Some body_bytes =>
              if negb (String.eqb (sha256_hex body_bytes) payload_hex) then
                Err (Nip98Invalid
                  "payload tag SHA-256 mismatch: request body does not match signed hash")
              else Ok (ev_pubkey e)
          | _, _ => Ok (ev_pubkey e)
          end.

(** What an accepted proof establishes: a genuine event of the right kind, made
    within the tolerance of the evaluation time. *)
Definition fresh_proof (kind : N) (e : Event) (now : N) : Prop :=
  ev_kind e = kind /\ verify_event e = Ok tt /\
  (u64_abs_diff now (ev_created_at e) <= TIMESTAMP_TOLERANCE_SECS)%N.

Lemma verify_nip42_ok e challenge relay_url now :
  verify_nip42_event_at e challenge relay_url now = Ok tt ->
  fresh_proof 22242 e now /\ find_content TK_Challenge e = Some challenge /\
  exists relay, find_content TK_Relay e = Some relay /\
    normalize_relay_url relay = normalize_relay_url relay_url.
Proof.
  unfold verify_nip42_event_at, fresh_proof. destruct (N.eqb_spec (ev_kind e) 22242) as [Hk|]; [|done]. simpl.
  destruct (verify_event e) as [[]|]; [|done]. simpl.
  destruct (find_content TK_Challenge e) as [c|]; [|done]. simpl.
  destruct (String.eqb_spec c challenge) as [->|]; [|done]. simpl.
  destruct (find_content TK_Relay e) as [r|]; [|done]. simpl.
  destruct (String.eqb_spec (normalize_relay_url r) (normalize_relay_url relay_url)) as [Hr|]; [|done]. simpl.
  destruct (TIMESTAMP_TOLERANCE_SECS <? _)%N eqn:Ht; [done|]. intros _.
  split_and!; try done; [lia|]. eauto.
Qed.

Lemma verify_nip98_ok json url method body now pk :
  verify_nip98_event_at json url method body now = Ok pk ->
  exists e, event_from_str json = Ok e /\ pk = ev_pubkey e /\ fresh_proof 27235 e now /\
    (exists u, find_content (SingleLetterLower "u") e = Some u /\ normalize_url u = normalize_url url) /\
    (exists m, find_content TK_Method e = Some m /\ eq_ignore_ascii_case m method = true) /\
    (forall h b, find_content TK_Payload e = Some h -> body = Some b -> sha256_hex b = h).
Proof.
  unfold verify_nip98_event_at, fresh_proof. destruct (event_from_str json) as [e|]; [|done]. simpl.
  destruct (N.eqb_spec (ev_kind e) 27235) as [Hk|]; [|done]. simpl.
  destruct (verify_event e) as [[]|] eqn:Hv; [|done]. simpl.
  destruct (TIMESTAMP_TOLERANCE_SECS <? _)%N eqn:Ht; [done|].
  destruct (find_content (SingleLetterLower "u") e) as [u|] eqn:Eu; [|done]. simpl.
  destruct (String.eqb_spec (normalize_url u) (normalize_url url)) as [Hu|]; [|done]. simpl.
  destruct (find_content TK_Method e) as [m|] eqn:Em; [|done]. simpl.
  destruct (eq_ignore_ascii_case m method) eqn:Hm; [|done]. simpl.
  intros H. exists e. assert (pk = ev_pubkey e /\ forall h b, find_content TK_Payload e = Some h -> body = Some b -> sha256_hex b = h) as [-> Hp].
  { revert H. destruct (find_content TK_Payload e) as [h|], body as [b|]; simpl;
      try (intros [= <-]; split; [done|intros; congruence]).
    destruct (String.eqb_spec (sha256_hex b) h) as [<-|]; [|done]. intros [= <-].
    split; [done|]. intros; congruence. }
  split_and!; try done; [lia|by exists u|by exists m].
Qed.
End nips.

(** ** [scope.rs] *)
Module Scope.
Inductive t :=
| MessagesRead | MessagesWrite | ChannelsRead | ChannelsWrite | AdminChannels
| UsersRead | UsersWrite | AdminUsers | JobsRead | JobsWrite
| SubscriptionsRead | SubscriptionsWrite | FilesRead | FilesWrite | ReposRead | ReposWrite
| Unknown (s : string).

#[global] Instance scope_eq_dec : EqDecision t.
Proof. solve_decision. Defined.

Definition all_known : list t :=
  [MessagesRead; MessagesWrite; ChannelsRead; ChannelsWrite; AdminChannels; UsersRead; UsersWrite;
   AdminUsers; JobsRead; JobsWrite; SubscriptionsRead; SubscriptionsWrite; FilesRead; FilesWrite;
   ReposRead; ReposWrite].

Definition all_non_admin : list t :=
  [MessagesRead; MessagesWrite; ChannelsRead; ChannelsWrite; UsersRead; UsersWrite;
   JobsRead; JobsWrite; SubscriptionsRead; SubscriptionsWrite; FilesRead; FilesWrite;
   ReposRead; ReposWrite].

Definition as_str (s : t) : string :=
  match s with
  | MessagesRead => "messages:read"
  | MessagesWrite => "messages:write"
  | ChannelsRead => "channels:read"
  | ChannelsWrite => "channels:write"
  | AdminChannels => "admin:channels"
  | UsersRead => "users:read"
  | UsersWrite => "users:write"
  | AdminUsers => "admin:users"
  | JobsRead => "jobs:read"
  | JobsWrite => "jobs:write"
  | SubscriptionsRead => "subscriptions:read"
  | SubscriptionsWrite => "subscriptions:write"
  | FilesRead => "files:read"
  | FilesWrite => "files:write"
  | ReposRead => "repos:read"
  | ReposWrite => "repos:write"
  | Unknown s => s
  end.

(** The arms of [FromStr], in order. *)
Definition arms : list (string * t) :=
  [("messages:read", MessagesRead); ("messages:write", MessagesWrite);
   ("channels:read", ChannelsRead); ("channels:write", ChannelsWrite);
   ("admin:channels", AdminChannels); ("users:read", UsersRead); ("users:write", UsersWrite);
   ("admin:users", AdminUsers); ("jobs:read", JobsRead); ("jobs:write", JobsWrite);
   ("subscriptions:read", SubscriptionsRead); ("subscriptions:write", SubscriptionsWrite);
   ("files:read", FilesRead); ("files:write", FilesWrite); ("repos:read", ReposRead);
   ("repos:write", ReposWrite)].

Definition from_str (s : string) : t :=
  match find (fun arm => String.eqb s arm.1) arms with
  | Some (_, scope) => scope
  | None => Unknown s
  end.

Definition parse_scopes (raw : list string) : list t := from_str <$> raw.

(** Parsing a scope never changes its wire text, and printing a known scope
    parses back to it, so an unknown scope never grants a known one. *)
Theorem scope_round_trip :
  (forall s : string, as_str (from_str s) = s) /\
  Forall (fun sc => from_str (as_str sc) = sc) all_known.
Proof.
  split.
  - intros s. unfold from_str. destruct (find _ arms) as [[n sc]|] eqn:E; [|done].
    apply find_elem in E as [Hin Heq]. simpl in Heq. apply String.eqb_eq in Heq as ->.
    unfold arms in Hin. repeat (apply elem_of_cons in Hin as [[= -> ->]|Hin]; [done|]). by apply not_elem_of_nil in Hin.
  - repeat (constructor; [vm_compute; reflexivity|]). constructor.
Qed.
End Scope.

(** ** [access.rs]

    The checker of channel membership is an interface, as in the source; its
    set of channels is per community and member. *)
Record ChannelAccessChecker (Ctx : Type) := mkChecker {
  accessible_channel_ids : Ctx -> PublicKey -> result AuthError (gset Uuid);
}.
Arguments accessible_channel_ids {Ctx} _ _ _.

Definition can_access {Ctx} (c : ChannelAccessChecker Ctx) (ctx : Ctx) (pk : PublicKey) (channel_id : Uuid)
    : result AuthError bool :=
  let? ids := accessible_channel_ids c ctx pk in
  Ok (bool_decide (channel_id ∈ ids)).

Definition require_scope (scopes : list Scope.t) (required : Scope.t) : result AuthError unit :=
  if bool_decide (required ∈ scopes) then Ok tt
  else Err (InsufficientScope (Scope.as_str required) (Scope.as_str <$> scopes)).

Definition check_access {Ctx} (required : Scope.t) (c : ChannelAccessChecker Ctx) (ctx : Ctx)
    (pk : PublicKey) (channel_id : Uuid) (scopes : list Scope.t) : result AuthError unit :=
  let? _ := require_scope scopes required in
  let? ok := can_access c ctx pk channel_id in
  if (ok : bool) then Ok tt else Err ChannelAccessDenied.

Definition check_read_access {Ctx} := @check_access Ctx Scope.MessagesRead.
Definition check_write_access {Ctx} := @check_access Ctx Scope.MessagesWrite.
