(* ===== verification/OwnerAttestation.v ===== *)
(** * Owner attestations

    [buzz-sdk/src/nip_oa.rs]: [auth] tags by which an owner key authorizes an
    agent key to publish under conditions, and the reading of those conditions
    in [buzz-handoff-state.rs].  Schnorr signatures are an interface; a digest
    is its hex text. *)

From S2P Require Import Prelude Text Nostr Demo.

Inductive SdkError :=
| ContentTooLarge (max got : N)
| InvalidTag (reason : string)
| EmojiTooLong
| TooManyMentions
| InvalidDiffMeta (reason : string)
| InvalidInput (reason : string).

(** Schnorr signatures of the [secp256k1] and [nostr] crates. *)
Class SchnorrLib := {
  OwnerKeys : Type;
  Signature : Type;
  XOnly : Type;
  owner_public_key : OwnerKeys -> PublicKey;
  sign_schnorr : OwnerKeys -> string -> Signature;
  verify_schnorr : Signature -> string -> XOnly -> result string unit;
  xonly : PublicKey -> result string XOnly;
  sig_to_string : Signature -> string;
  sig_from_str : string -> result string Signature;
  (** the error of [PublicKey::from_hex] and of [Tag::parse] *)
  key_error : string -> string;
  auth_tag_parse : list string -> result string Tag;
}.

(** A signature verifies under the key that made it, and texts read back. *)
Class SchnorrLaws (NL : NostrLib) (SC : SchnorrLib) := {
  sign_verifies : forall k m, exists x, xonly (owner_public_key k) = Ok x /\
    verify_schnorr (sign_schnorr k m) m x = Ok tt;
  sig_read_back : forall s, sig_from_str (sig_to_string s) = Ok s;
  owner_key_read_back : forall k, PublicKey_from_hex (to_hex (owner_public_key k)) = Some (owner_public_key k);
}.

Section nip_oa.
Context `{NL : NostrLib, SJ : SerdeJson, SC : SchnorrLib}.

Definition is_ascii_whitespace (c : ascii) : bool :=
  Lines.byte_is 32 c || Lines.byte_is 9 c || Lines.byte_is 10 c || Lines.byte_is 12 c || Lines.byte_is 13 c.

Definition validate_canonical_decimal (s : string) (min max : N) (label : string) : result SdkError unit :=
  if String.eqb s EmptyString then Err (InvalidInput (label +:+ " value must not be empty"))
  else if (1 <? String.length s)%nat && starts_with s "0" then
    Err (InvalidInput (label +:+ " value has leading zero: " +:+ debug_str s))
  else if negb (str_forallb is_digit s) then
    Err (InvalidInput (label +:+ " value is not a valid decimal: " +:+ debug_str s))
  else
    let? value := ok_or (parse_u64 s) (InvalidInput (label +:+
      " value out of range: number too large to fit in target type")) in
    if (value <? min)%N || (max <? value)%N then
      Err (InvalidInput (label +:+ " value " +:+ u64_to_string value +:+ " out of range [" +:+
        u64_to_string min +:+ ", " +:+ u64_to_string max +:+ "]"))
    else Ok tt.

Definition validate_clause (clause : string) : result SdkError unit :=
  match strip_prefix "kind=" clause with
  | Some value => validate_canonical_decimal value 0 65535 "kind"
  | None =>
      match strip_prefix "created_at<" clause with
      | Some value => validate_canonical_decimal value 0 4294967295 "created_at<"
      | None =>
          match strip_prefix "created_at>" clause with
          | Some value => validate_canonical_decimal value 0 4294967295 "created_at>"
          | None => Err (InvalidInput ("unsupported clause: " +:+ debug_str clause))
          end
      end
  end.

(** The loop over the clauses. *)
Fixpoint validate_clauses (clauses : list string) : result SdkError unit :=
  match clauses with
  | [] => Ok tt
  | clause :: rest =>
      if String.eqb clause EmptyString
      then Err (InvalidInput "empty clause in conditions (leading/trailing/double '&')")
      else let? _ := validate_clause clause in validate_clauses rest
  end.

Definition validate_conditions (conditions : string) : result SdkError unit :=
  if String.eqb conditions EmptyString then Ok tt
  else if negb (str_forallb (fun c => negb (is_ascii_whitespace c)) conditions)
  then Err (InvalidInput "conditions must not contain whitespace")
  else validate_clauses (split_on "&" conditions).

Definition build_preimage (agent_pubkey : PublicKey) (conditions : string) : string :=
  "nostr:agent-auth:" +:+ (to_hex agent_pubkey +:+ String ":" conditions).

Definition hash_preimage (preimage : string) : string := sha256_hex preimage.

Definition parse_json_array (s : string) : result SdkError (list Value) :=
  let? v := map_err (fun e => InvalidInput ("invalid JSON: " +:+ e)) (from_str s) in
  ok_or (as_array v) (InvalidInput "auth tag must be a JSON array").

Definition self_attestation : SdkError :=
  InvalidInput "owner and agent pubkeys must differ (self-attestation rejected)".

Definition compute_auth_tag (owner_keys : OwnerKeys) (agent_pubkey : PublicKey) (conditions : string)
    : result SdkError string :=
  let owner_pubkey := owner_public_key owner_keys in
  if String.eqb owner_pubkey agent_pubkey then Err self_attestation
  else
    let? _ := validate_conditions conditions in
    let message := hash_preimage (build_preimage agent_pubkey conditions) in
    let sig := sign_schnorr owner_keys message in
    map_err InvalidInput
      (strings_to_string ["auth"; to_hex owner_pubkey; conditions; sig_to_string sig]).

(** The first checks of [verify_auth_tag] and [parse_auth_tag]: the owner, the
    conditions and the signature, as text. *)
Definition auth_fields (arr : list Value) : result SdkError (string * option string * option string) :=
  if negb (length arr =? 4)%nat then
    Err (InvalidInput ("auth tag must have 4 elements, got " +:+ u64_to_string (N.of_nat (length arr))))
  else
    let? label := ok_or (arr !! 0 ≫= as_str) (InvalidInput "element 0 must be a string") in
    if negb (String.eqb label "auth") then
      Err (InvalidInput ("first element must be " +:+ debug_str "auth" +:+ ", got " +:+
        String quote (label +:+ String quote EmptyString)))
    else
      let? owner := ok_or (arr !! 1 ≫= as_str) (InvalidInput "element 1 (owner pubkey) must be a string") in
      Ok (owner, arr !! 2 ≫= as_str, arr !! 3 ≫= as_str).

Definition conditions_missing : SdkError := InvalidInput "element 2 (conditions) must be a string".
Definition signature_missing : SdkError := InvalidInput "element 3 (signature) must be a string".

Definition verify_auth_tag (auth_tag_json : string) (agent_pubkey : PublicKey) : result SdkError PublicKey :=
  let? arr := parse_json_array auth_tag_json in
  let? fields := auth_fields arr in
  let '(owner_pubkey_hex, conditions, sig_hex) := fields in
  let? conditions := ok_or conditions conditions_missing in
  let? sig_hex := ok_or sig_hex signature_missing in
  let? owner_pubkey := ok_or (PublicKey_from_hex owner_pubkey_hex)
    (InvalidInput ("invalid owner pubkey: " +:+ key_error owner_pubkey_hex)) in
  let? _ := validate_conditions conditions in
  if String.eqb owner_pubkey agent_pubkey then Err self_attestation
  else
    let? sig := map_err (fun e => InvalidInput ("invalid signature hex: " +:+ e)) (sig_from_str sig_hex) in
    let message := hash_preimage (build_preimage agent_pubkey conditions) in
    let? x := map_err (fun e => InvalidInput ("owner pubkey xonly conversion failed: " +:+ e)) (xonly owner_pubkey) in
    let? _ := map_err (fun e => InvalidInput ("signature verification failed: " +:+ e))
                (verify_schnorr sig message x) in
    Ok owner_pubkey.

Definition is_lowercase_hex (c : ascii) : bool := is_lower_hex_char c.

Definition parse_auth_tag (json_str : string) : result SdkError Tag :=
  let? arr := parse_json_array json_str in
  let? fields := auth_fields arr in
  let '(owner_pubkey_hex, conditions, sig_hex) := fields in
  if negb (String.length owner_pubkey_hex =? 64)%nat || negb (str_forallb is_lowercase_hex owner_pubkey_hex)
  then Err (InvalidInput ("owner pubkey must be 64 hex chars, got " +:+ debug_str owner_pubkey_hex))
  else
    let? conditions := ok_or conditions conditions_missing in
    let? _ := validate_conditions conditions in
    let? sig_hex := ok_or sig_hex signature_missing in
    if negb (String.length sig_hex =? 128)%nat || negb (str_forallb is_lowercase_hex sig_hex)
    then Err (InvalidInput ("signature must be 128 hex chars, got length " +:+
                u64_to_string (N.of_nat (String.length sig_hex))))
    else map_err (fun e => InvalidInput ("failed to construct Tag: " +:+ e))
           (auth_tag_parse ["auth"; owner_pubkey_hex; conditions; sig_hex]).

(** ** What a verified tag establishes *)

Lemma verify_auth_tag_ok json agent owner :
  verify_auth_tag json agent = Ok owner ->
  exists arr owner_hex conditions sig_hex sig x,
    parse_json_array json = Ok arr /\
    as_str <$> arr = Some <$> ["auth"; owner_hex; conditions; sig_hex] /\
    PublicKey_from_hex owner_hex = Some owner /\ owner <> agent /\
    validate_conditions conditions = Ok tt /\ sig_from_str sig_hex = Ok sig /\ xonly owner = Ok x /\
    verify_schnorr sig (hash_preimage (build_preimage agent conditions)) x = Ok tt.
Proof.
  unfold verify_auth_tag, auth_fields. destruct (parse_json_array json) as [arr|]; [|done]. simpl.
  destruct arr as [|v0 [|v1 [|v2 [|v3 [|v4 arr]]]]]; try done. simpl.
  destruct (as_str v0) as [label|] eqn:E0; [|done]. simpl.
  destruct (String.eqb_spec label "auth") as [->|]; [|done]. simpl.
  destruct (as_str v1) as [owner_hex|] eqn:E1; [|done]. simpl.
  destruct (as_str v2) as [conditions|] eqn:E2; [|done]. simpl.
  destruct (as_str v3) as [sig_hex|] eqn:E3; [|done]. simpl.
  destruct (PublicKey_from_hex owner_hex) as [o|] eqn:Eo; [|done]. simpl.
  destruct (validate_conditions conditions) as [[]|] eqn:Ec; [|done]. simpl.
  destruct (String.eqb_spec o agent) as [|Hne]; [done|].
  destruct (sig_from_str sig_hex) as [sig|] eqn:Es; [|done]. simpl.
  destruct (xonly o) as [x|] eqn:Ex; [|done]. simpl.
  destruct (verify_schnorr sig _ x) as [[]|] eqn:Ev; [|done]. intros [= <-].
  exists [v0; v1; v2; v3], owner_hex, conditions, sig_hex, sig, x. simpl. rewrite E0, E1, E2, E3. by split_and!.
Qed.

(** The signed text determines the agent and the conditions. *)
Lemma app_colon_inj a1 a2 c1 c2 :
  str_forallb is_lower_hex_char a1 = true -> str_forallb is_lower_hex_char a2 = true ->
  a1 +:+ String ":" c1 = a2 +:+ String ":" c2 -> a1 = a2 /\ c1 = c2.
Proof.
  revert a2. induction a1 as [|x a1 IH]; intros [|y a2] H1 H2; rewrite ?str_app_cons.
  - by intros [= ->].
  - intros [= <- _]. cbn in H2. done.
  - intros [= -> _]. cbn in H1. done.
  - cbn [str_forallb] in H1, H2. apply andb_true_iff in H1 as [_ H1], H2 as [_ H2]. intros [= -> E].
    by destruct (IH a2 H1 H2 E) as [-> ->].
Qed.

Lemma build_preimage_inj a1 a2 c1 c2 :
  str_forallb is_lower_hex_char a1 = true -> str_forallb is_lower_hex_char a2 = true ->
  build_preimage a1 c1 = build_preimage a2 c2 -> a1 = a2 /\ c1 = c2.
Proof.
  intros H1 H2 E. apply app_colon_inj; [done..|]. unfold build_preimage, to_hex in E.
  apply (f_equal (strip_prefix "nostr:agent-auth:")) in E. rewrite !strip_prefix_app in E. by injection E.
Qed.
End nip_oa.

(** ** The meaning of conditions *)

Definition parse_u16 (s : string) : option N :=
  n ← parse_u64 s; if (n <=? 65535)%N then Some n else None.

(** [conditions_cover] of the reducer. *)
Definition clause_covers (kind created_at : N) (clause : string) : bool :=
  if String.eqb clause EmptyString then true
  else match strip_prefix "kind=" clause with
       | Some value => match parse_u16 value with Some required => (required =? kind)%N | None => false end
       | None =>
           match strip_prefix "created_at<" clause with
           | Some value => match parse_u64 value with Some limit => (created_at <? limit)%N | None => false end
           | None =>
               match strip_prefix "created_at>" clause with
               | Some value => match parse_u64 value with Some limit => (limit <? created_at)%N | None => false end
               | None => false
               end
           end
       end.

Definition conditions_cover (conditions : string) (kind created_at : N) : bool :=
  forallb (clause_covers kind created_at) (split_on "&" conditions).

(** A clause as the specification has it. *)
Inductive Clause := KindIs (kind : N) | CreatedBefore (limit : N) | CreatedAfter (limit : N).

Definition clause_text (c : Clause) : string :=
  match c with
  | KindIs n => "kind=" +:+ u64_to_string n
  | CreatedBefore n => "created_at<" +:+ u64_to_string n
  | CreatedAfter n => "created_at>" +:+ u64_to_string n
  end.

Definition clause_range (c : Clause) : Prop :=
  match c with
  | KindIs n => (n <= 65535)%N
  | CreatedBefore n | CreatedAfter n => (n <= 4294967295)%N
  end.

Definition clause_holds (kind created_at : N) (c : Clause) : Prop :=
  match c with
  | KindIs n => kind = n
  | CreatedBefore n => (created_at < n)%N
  | CreatedAfter n => (n < created_at)%N
  end.

Definition conditions_text (cs : list Clause) : string := join_with "&" (clause_text <$> cs).

Lemma canonical_ok s max label :
  (max <= u64_max)%N ->
  validate_canonical_decimal s 0 max label = Ok tt <-> exists n, (n <= max)%N /\ s = u64_to_string n.
Proof.
  intros Hmax. unfold validate_canonical_decimal. split.
  - destruct (String.eqb_spec s EmptyString) as [|Hne]; [done|].
    destruct (_ && _) eqn:Hz; [done|]. destruct (str_forallb is_digit s) eqn:Hd; [|done]. simpl.
    destruct (parse_u64 s) as [n|] eqn:Hp; [|done]. simpl. destruct (_ || _) eqn:Hr; [done|]. intros _.
    exists n. split; [lia|]. symmetry. apply canonical_decimal; [done| |done].
    apply andb_false_iff in Hz as [Hz|Hz]; [|by right].
    destruct s as [|c [|c' s]]; [done| |simpl in Hz; lia].
    destruct (Ascii.eqb_spec c "0") as [->|Hc]; [by left|right].
    by destruct c as [[] [] [] [] [] [] [] []].
  - intros (n & Hn & ->). destruct (u64_to_string_canonical n) as [Hne Hz].
    rewrite (proj2 (String.eqb_neq _ _) Hne), Hz, u64_to_string_digits. simpl.
    rewrite parse_u64_to_string by lia. cbn [ok_or].
    destruct (_ || _) eqn:E; [lia|done].
Qed.

Lemma clause_ok clause :
  validate_clause clause = Ok tt <-> exists c, clause_range c /\ clause = clause_text c.
Proof.
  unfold validate_clause. split.
  - destruct (strip_prefix "kind=" clause) as [v|] eqn:E1.
    { apply strip_prefix_some in E1 as ->. intros (n & Hn & ->)%canonical_ok; [|done]. by exists (KindIs n). }
    destruct (strip_prefix "created_at<" clause) as [v|] eqn:E2.
    { apply strip_prefix_some in E2 as ->. intros (n & Hn & ->)%canonical_ok; [|done]. by exists (CreatedBefore n). }
    destruct (strip_prefix "created_at>" clause) as [v|] eqn:E3; [|done].
    apply strip_prefix_some in E3 as ->. intros (n & Hn & ->)%canonical_ok; [|done]. by exists (CreatedAfter n).
  - intros ([n|n|n] & Hr & ->); cbn [clause_text clause_range] in *;
      cbn -[validate_canonical_decimal u64_to_string]; apply canonical_ok; by eauto.
Qed.

Lemma clauses_ok l :
  validate_clauses l = Ok tt <-> exists cs, Forall clause_range cs /\ l = clause_text <$> cs.
Proof.
  induction l as [|x l IH]; cbn [validate_clauses].
  - split; [intros _; by exists []|done].
  - split.
    + destruct (String.eqb x EmptyString); [done|]. destruct (validate_clause x) as [[]|] eqn:E; [|done]. simpl.
      intros (cs & Hcs & ->)%IH. apply clause_ok in E as (c & Hc & ->). exists (c :: cs). by split; [constructor|].
    + intros ([|c cs] & Hcs & E); [done|]. injection E as -> ->. apply Forall_cons in Hcs as [Hc Hcs].
      assert (String.eqb (clause_text c) EmptyString = false) as -> by (by destruct c).
      rewrite (proj2 (clause_ok _)) by (by exists c). simpl. apply IH. by exists cs.
Qed.

(** The characters of a clause. *)
Definition clause_char (c : ascii) : bool := negb (is_ascii_whitespace c) && negb (Ascii.eqb c "&").

Lemma digit_clause_char c : is_digit c = true -> clause_char c = true.
Proof.
  unfold is_digit, clause_char, is_ascii_whitespace, Lines.byte_in, Lines.byte_is.
  destruct (Ascii.eqb_spec c "&") as [->|]; [done|]. lia.
Qed.

Lemma clause_text_chars c : str_forallb clause_char (clause_text c) = true.
Proof.
  pose proof (fun n => str_forallb_impl _ _ _ digit_clause_char (u64_to_string_digits n)) as H.
  destruct c as [n|n|n]; unfold clause_text; rewrite str_forallb_app, H; done.
Qed.

Lemma clause_text_no_amp c : str_forallb (fun a => negb (Ascii.eqb a "&")) (clause_text c) = true.
Proof. eapply str_forallb_impl; [|apply clause_text_chars]. unfold clause_char. intros a. by intros [_ ?]%andb_true_iff. Qed.

Lemma split_conditions cs : cs <> [] -> split_on "&" (conditions_text cs) = clause_text <$> cs.
Proof.
  intros Hne. apply split_on_join; [by destruct cs|]. apply Forall_fmap, Forall_true. intros c. apply clause_text_no_amp.
Qed.

Lemma conditions_text_blank cs :
  str_forallb (fun c => negb (is_ascii_whitespace c)) (conditions_text cs) = true.
Proof.
  unfold conditions_text. induction cs as [|c cs IH]; [done|].
  assert (str_forallb (fun c => negb (is_ascii_whitespace c)) (clause_text c) = true) as Hc.
  { eapply str_forallb_impl; [|apply clause_text_chars]. unfold clause_char. intros a. by intros [? _]%andb_true_iff. }
  destruct cs as [|c2 cs]; [exact Hc|]. cbn [fmap list_fmap join_with] in *.
  rewrite str_forallb_app, Hc. cbn [str_forallb]. by rewrite IH.
Qed.

Lemma conditions_text_empty cs : conditions_text cs = EmptyString -> cs = [].
Proof. destruct cs as [|c [|c2 cs]]; [done|by destruct c|]. unfold conditions_text. cbn. by destruct c. Qed.

Lemma conditions_ok s :
  validate_conditions s = Ok tt <-> exists cs, Forall clause_range cs /\ s = conditions_text cs.
Proof.
  unfold validate_conditions. split.
  - destruct (String.eqb_spec s EmptyString) as [->|Hne]; [intros _; by exists []|].
    destruct (negb _); [done|]. intros (cs & Hcs & E)%clauses_ok. exists cs. split; [done|].
    unfold conditions_text. by rewrite <-E, join_split_on.
  - intros (cs & Hcs & ->). destruct (String.eqb_spec (conditions_text cs) EmptyString) as [|Hne]; [done|].
    rewrite conditions_text_blank. simpl. rewrite split_conditions by (by intros ->). apply clauses_ok. by exists cs.
Qed.

Lemma clause_covers_text kind created_at c :
  clause_range c -> clause_covers kind created_at (clause_text c) = true <-> clause_holds kind created_at c.
Proof.
  intros Hr. unfold clause_covers.
  assert (String.eqb (clause_text c) EmptyString = false) as -> by (by destruct c).
  destruct c as [n|n|n]; cbn [clause_range clause_holds clause_text] in *.
  - rewrite strip_prefix_app. unfold parse_u16. rewrite parse_u64_to_string by (unfold u64_max; lia). simpl.
    assert ((n <=? 65535)%N = true) as -> by lia. simpl. lia.
  - change (strip_prefix "kind=" _) with (@None string). rewrite strip_prefix_app, parse_u64_to_string by (unfold u64_max; lia).
    lia.
  - change (strip_prefix "kind=" _) with (@None string). change (strip_prefix "created_at<" _) with (@None string).
    rewrite strip_prefix_app, parse_u64_to_string by (unfold u64_max; lia). lia.
Qed.

Lemma conditions_cover_text cs kind created_at :
  Forall clause_range cs ->
  conditions_cover (conditions_text cs) kind created_at = true <-> Forall (clause_holds kind created_at) cs.
Proof.
  intros Hr. destruct (decide (cs = [])) as [->|Hne]; [by cbn; split|].
  unfold conditions_cover. rewrite split_conditions by done. clear Hne.
  induction Hr as [|c cs Hc _ IH]; [by cbn; split|]. cbn [fmap list_fmap forallb].
  rewrite andb_true_iff, clause_covers_text, Forall_cons by done. by rewrite IH.
Qed.

(** The language of attestation conditions is exact.  A condition string is
    accepted precisely when it is the canonical text of a list of clauses with
    operands in range, and an event is covered by it precisely when every
    clause holds of its kind and time; accepting, printing and evaluating never
    disagree. *)
Theorem conditions_exact (s : string) :
  (validate_conditions s = Ok tt <-> exists cs, Forall clause_range cs /\ s = conditions_text cs) /\
  (forall cs kind created_at, Forall clause_range cs -> s = conditions_text cs ->
     conditions_cover s kind created_at = true <-> Forall (clause_holds kind created_at) cs).
Proof.
  split; [apply conditions_ok|]. intros cs kind at_ Hr ->. by apply conditions_cover_text.
Qed.


(** ** Witness *)

#[global] Instance demo_schnorr : SchnorrLib := {|
  OwnerKeys := string;
  Signature := string;
  XOnly := string;
  owner_public_key k := "key-" +:+ k;
  sign_schnorr k m := ("key-" +:+ k) +:+ m;
  verify_schnorr sig m x := if String.eqb sig (x +:+ m) then Ok tt else Err "incorrect signature";
  xonly pk := Ok pk;
  sig_to_string s := s;
  sig_from_str s := Ok s;
  key_error _ := "malformed public key";
  auth_tag_parse values := Ok values;
|}.

#[global] Instance demo_schnorr_laws : SchnorrLaws demo_nostr demo_schnorr.
Proof.
  split.
  - intros k m. exists ("key-" +:+ k). simpl. by rewrite String.eqb_refl.
  - done.
  - done.
Defined.

Definition demo_owner : OwnerKeys := "owner".

