(* ===== verification/Replication.v ===== *)
(** * Replication source port

    [buzz-core/src/replication.rs] (records, receipts, checkpoint safety) and
    the laptop's source adapter of [buzz-local-relay/src/lib.rs]
    ([LocalReplicationSource]): bounded pages over the durable journal, opaque
    cursors, and selective streams. *)

From S2P Require Import Prelude Text Nostr Demo Kinds Ingest FilterMatch Store.

Definition ReplicationSourceId := string.
Definition ReplicationCursor := string.

Record ReplicationRecord := mkRecord {
  rr_source : ReplicationSourceId;
  rr_cursor : ReplicationCursor;
  rr_event : Event;
}.

Record ReplicationBatch := mkBatch {
  rb_records : list ReplicationRecord;
  rb_next_cursor : ReplicationCursor;
  rb_caught_up : bool;
}.

Inductive ReplicationIngestOutcome :=
| OutcomeStored
| OutcomeDuplicate
| OutcomeSuperseded
| OutcomeRejected (reason : string).

Record ReplicationReceipt := mkReceipt {
  rc_source : ReplicationSourceId;
  rc_cursor : ReplicationCursor;
  rc_event_id : string;
  rc_outcome : ReplicationIngestOutcome;
}.

Definition checkpoint_safe (r : ReplicationReceipt) : bool :=
  match rc_outcome r with OutcomeRejected _ => false | _ => true end.

(** ** Cursors *)

Definition MAX_REPLICATION_BATCH_SIZE : nat := 1000.
Definition LOCAL_REPLICATION_CURSOR_PREFIX : string := "local-ndjson-v1:".

(** [usize] is 64 bits wide. *)
Definition usize_to_string (n : nat) : string := u64_to_string (N.of_nat n).
Definition parse_usize (s : string) : option nat := N.to_nat <$> parse_u64 s.

Inductive ReplicationSourceError :=
| ZeroBatchLimit
| InvalidCursor (cursor : string)
| CursorOutOfRange (position journal_len : nat).

Definition local_replication_cursor (position : nat) : ReplicationCursor :=
  LOCAL_REPLICATION_CURSOR_PREFIX +:+ usize_to_string position.

Definition parse_local_replication_cursor (cursor : ReplicationCursor)
    : result ReplicationSourceError nat :=
  ok_or (value ← strip_prefix LOCAL_REPLICATION_CURSOR_PREFIX cursor; parse_usize value)
        (InvalidCursor cursor).

Lemma parse_usize_to_string n : (N.of_nat n <= u64_max)%N -> parse_usize (usize_to_string n) = Some n.
Proof.
  intros Hn. unfold parse_usize, usize_to_string. rewrite parse_u64_to_string by done.
  simpl. by rewrite Nat2N.id.
Qed.

(** ** The source adapter *)

Record LocalReplicationSource := mkSource {
  src_source : ReplicationSourceId;
  src_filter : option (list Filter);
}.

Section source.
Context `{NL : NostrLib}.

Definition exports (now : N) (src : LocalReplicationSource) (e : Event) : bool :=
  match src_filter src with
  | None => true
  | Some filters => filters_match filters (stored_event now e)
  end.

(** The page's records: [journal[start..end].iter().enumerate()] filtered, with
    the checkpoint one past each record's position. *)
Definition page_records (now : N) (src : LocalReplicationSource) (start : nat) (page : list Event)
    : list ReplicationRecord :=
  (fun '(offset, e) => mkRecord (src_source src) (local_replication_cursor (start + offset + 1)) e) <$>
    List.filter (fun p => exports now src (snd p)) (zip (seq 0 (length page)) page).

Definition read_batch (now : N) (src : LocalReplicationSource) (inner : StoreInner)
    (cursor : option ReplicationCursor) (limit : nat)
    : result ReplicationSourceError ReplicationBatch :=
  if (limit =? 0)%nat then Err ZeroBatchLimit
  else
    let? start := match cursor with
                  | Some c => parse_local_replication_cursor c
                  | None => Ok 0
                  end in
    let len := length (journal inner) in
    if (len <? start)%nat then Err (CursorOutOfRange start len)
    else
      let page_size := Nat.min limit MAX_REPLICATION_BATCH_SIZE in
      let end_ := Nat.min (start + page_size) len in
      Ok (mkBatch (page_records now src start (take (end_ - start) (drop start (journal inner))))
                  (local_replication_cursor end_)
                  (end_ =? len)%nat).

(** ** Reading a stream page by page *)

(** Follow [next_cursor] until the source reports [caught_up]. *)
Fixpoint drain (fuel : nat) (now : N) (src : LocalReplicationSource) (inner : StoreInner)
    (cursor : option ReplicationCursor) (limit : nat) : option (list ReplicationRecord) :=
  match fuel with
  | 0 => None
  | S fuel =>
      match read_batch now src inner cursor limit with
      | Err _ => None
      | Ok b =>
          if rb_caught_up b then Some (rb_records b)
          else rest ← drain fuel now src inner (Some (rb_next_cursor b)) limit;
               Some (rb_records b ++ rest)
      end
  end.

(** The source's promise: the exported events of the journal from [start] on,
    each with the checkpoint after it. *)
Fixpoint exported_from (now : N) (src : LocalReplicationSource) (start : nat) (es : list Event)
    : list ReplicationRecord :=
  match es with
  | [] => []
  | e :: es' =>
      if exports now src e
      then mkRecord (src_source src) (local_replication_cursor (S start)) e
           :: exported_from now src (S start) es'
      else exported_from now src (S start) es'
  end.

Lemma zip_filter_exported now src start k es :
  (fun '(offset, e) => mkRecord (src_source src) (local_replication_cursor (start + offset + 1)) e) <$>
    List.filter (fun p => exports now src (snd p)) (zip (seq k (length es)) es)
  = exported_from now src (start + k) es.
Proof.
  revert k. induction es as [|e es IH]; intros k; [done|].
  specialize (IH (S k)). rewrite Nat.add_succ_r in IH. cbn.
  destruct (exports now src e); [|exact IH].
  change (?f <$> ?x :: ?l) with (f x :: (f <$> l)). rewrite IH. cbn.
  by rewrite Nat.add_1_r.
Qed.

Lemma page_records_exported now src start page :
  page_records now src start page = exported_from now src start page.
Proof. unfold page_records. by rewrite zip_filter_exported, Nat.add_0_r. Qed.

Lemma exported_from_app now src start es1 es2 :
  exported_from now src start (es1 ++ es2) =
  exported_from now src start es1 ++ exported_from now src (start + length es1) es2.
Proof.
  revert start. induction es1 as [|e es1 IH]; intros start; simpl; [by rewrite Nat.add_0_r|].
  rewrite IH, Nat.add_succ_r. by destruct (exports now src e).
Qed.

Lemma exported_from_events now src start es :
  rr_event <$> exported_from now src start es = List.filter (exports now src) es.
Proof.
  revert start. induction es as [|e es IH]; intros start; simpl; [done|].
  destruct (exports now src e); [rewrite fmap_cons|]; by rewrite IH.
Qed.

Lemma exported_from_source now src start es :
  Forall (fun r => rr_source r = src_source src) (exported_from now src start es).
Proof.
  revert start. induction es as [|e es IH]; intros start; simpl; [constructor|].
  destruct (exports now src e); [constructor; [done|]|]; apply IH.
Qed.

(** A cursor and the position it stands for. *)
Definition cursor_at (cursor : option ReplicationCursor) (p : nat) : Prop :=
  match cursor with
  | Some c => parse_local_replication_cursor c = Ok p
  | None => p = 0
  end.

Lemma cursor_at_local p :
  (N.of_nat p <= u64_max)%N -> cursor_at (Some (local_replication_cursor p)) p.
Proof.
  intros Hp. unfold cursor_at, parse_local_replication_cursor, local_replication_cursor.
  rewrite strip_prefix_app. simpl. by rewrite parse_usize_to_string.
Qed.

(** The end of the page that starts at [p]. *)
Definition page_end (p limit len : nat) : nat := Nat.min (p + Nat.min limit MAX_REPLICATION_BATCH_SIZE) len.

Lemma read_batch_ok now src inner cursor p limit :
  limit <> 0 -> cursor_at cursor p -> p <= length (journal inner) ->
  read_batch now src inner cursor limit =
  Ok (mkBatch
        (exported_from now src p
           (take (page_end p limit (length (journal inner)) - p) (drop p (journal inner))))
        (local_replication_cursor (page_end p limit (length (journal inner))))
        (page_end p limit (length (journal inner)) =? length (journal inner))%nat).
Proof.
  intros Hl Hc Hp. unfold read_batch. rewrite (proj2 (Nat.eqb_neq _ _) Hl).
  assert ((length (journal inner) <? p)%nat = false) as E by lia.
  destruct cursor as [c|]; simpl in Hc; [rewrite Hc|subst p]; rewrite E, page_records_exported; done.
Qed.

(** Progress: a page that is not the last moves forward. *)
Lemma page_end_progress p limit len :
  limit <> 0 -> p <= len -> page_end p limit len <> len -> p < page_end p limit len < len.
Proof. unfold page_end, MAX_REPLICATION_BATCH_SIZE. lia. Qed.

Lemma page_end_bounds p limit len : p <= len -> p <= page_end p limit len <= len.
Proof. unfold page_end, MAX_REPLICATION_BATCH_SIZE. lia. Qed.

Lemma drain_from fuel now src inner cursor p limit :
  limit <> 0 -> (N.of_nat (length (journal inner)) <= u64_max)%N ->
  cursor_at cursor p -> p <= length (journal inner) -> length (journal inner) - p < fuel ->
  drain fuel now src inner cursor limit = Some (exported_from now src p (drop p (journal inner))).
Proof.
  intros Hl Hlen. revert cursor p. induction fuel as [|fuel IH]; intros cursor p Hc Hp Hf; [lia|].
  cbn [drain]. rewrite (read_batch_ok now src inner cursor p limit Hl Hc Hp). cbn [rb_caught_up rb_records rb_next_cursor].
  set (q := page_end p limit (length (journal inner))).
  pose proof (page_end_bounds p limit (length (journal inner)) Hp) as Hb. fold q in Hb.
  destruct (Nat.eqb_spec q (length (journal inner))) as [Hq|Hq].
  - f_equal. f_equal. apply firstn_all2. rewrite length_drop. lia.
  - pose proof (page_end_progress p limit (length (journal inner)) Hl Hp Hq) as Hpr. fold q in Hpr.
    rewrite (IH _ q); [|apply cursor_at_local; lia|lia|lia]. simpl. f_equal.
    rewrite <-(take_drop (q - p) (drop p (journal inner))) at 2.
    rewrite exported_from_app, length_take, length_drop, drop_drop.
    repeat f_equal; lia.
Qed.

(** A replication consumer that follows the source's cursors from the
    start, with any positive page limit, reads every exported journal event
    exactly once, in journal order, and stops: as many pages as the journal has
    records, plus one, are enough. *)
Theorem drain_complete (now : N) (src : LocalReplicationSource) (inner : StoreInner) (limit : nat) :
  limit <> 0 -> (N.of_nat (length (journal inner)) <= u64_max)%N ->
  exists records,
    drain (S (length (journal inner))) now src inner None limit = Some records /\
    rr_event <$> records = List.filter (exports now src) (journal inner) /\
    Forall (fun r => rr_source r = src_source src) records.
Proof.
  intros Hl Hlen. exists (exported_from now src 0 (journal inner)). split_and!.
  - rewrite (drain_from _ now src inner None 0); [by rewrite drop_0|done|done|done|lia|lia].
  - apply exported_from_events.
  - apply exported_from_source.
Qed.
End source.

(** ** Witness: a selective stream over three records, in pages of one *)

Definition demo_journal : StoreInner :=
  mkStoreInner [] [demo_event "a" "alice" 1 1 []; demo_event "b" "bob" 2 1 []; demo_event "c" "alice" 3 1 []] ∅ None.

Definition demo_source : LocalReplicationSource :=
  mkSource "laptop" (Some [mkFilter None (Some ["alice"]) None None None None None []]).

Lemma drain_complete_witness :
  exists records, drain 4 100 demo_source demo_journal None 1 = Some records /\
    ev_id <$> (rr_event <$> records) = ["a"; "c"].
Proof.
  destruct (drain_complete 100 demo_source demo_journal 1 ltac:(lia) ltac:(vm_compute; congruence))
    as (records & H1 & H2 & _).
  exists records. split; [exact H1|]. rewrite H2. vm_compute. reflexivity.
Defined.
