(* ===== verification/Identity.v ===== *)
(** * Identity: principals, proofs and policy

    [buzz-core/src/identity.rs] (principals, denial codes, the authorizer
    ports) and [buzz-local-relay/src/identity.rs] (the laptop's adapter:
    single-use proofs, peer trust, append and disclosure policy).  The proof
    file is its bytes; the outcome of a write to it is an argument of the
    operation that performs it.  The text of a library's error inside [Internal]
    is not modelled. *)

From S2P Require Import Prelude Text Nostr Demo Kinds FilterMatch Auth Replication.

(** ** [buzz-core/src/identity.rs] *)

Inductive Principal :=
| P_Nostr (pubkey : PublicKey)
| P_RelayNode (id : string)
| P_System (id : string).

Definition nostr_pubkey (p : Principal) : option PublicKey :=
  match p with P_Nostr pubkey => Some pubkey | P_RelayNode _ | P_System _ => None end.

Definition relay_node_id (p : Principal) : option string :=
  match p with P_RelayNode id => Some id | P_Nostr _ | P_System _ => None end.

Inductive AuthenticationMethod :=
| AM_Nip42 | AM_Nip98 | AM_RelayNodeChallenge | AM_MutuallyAuthenticatedPeerChannel | AM_TrustedLocal.

Record AuthenticatedPrincipal := mkPrincipal {
  ap_principal : Principal;
  ap_method : AuthenticationMethod;
  ap_audience : string;
  ap_authenticated_at : N;
  ap_expires_at : option N;
  ap_proof_id : option string;
}.

Inductive AppendContext :=
| AC_Direct
| AC_Replication (source : ReplicationSourceId)
| AC_System.

Inductive ReadOperation := RO_Query | RO_Count | RO_HistoricalSubscription | RO_LiveDelivery.

Inductive IdentityDenialCode :=
| AuthenticationRequired | InvalidEvidence | EvidenceExpired | AudienceMismatch | ReplayDetected
| AuthorMismatch | DelegationInvalid | PeerUnbound | SourceMismatch | ScopeDenied
| EventDisclosureDenied.

#[global] Instance IdentityDenialCode_eq_dec : EqDecision IdentityDenialCode.
Proof. solve_decision. Defined.

Definition code_as_str (c : IdentityDenialCode) : string :=
  match c with
  | AuthenticationRequired => "authentication_required"
  | InvalidEvidence => "invalid_evidence"
  | EvidenceExpired => "evidence_expired"
  | AudienceMismatch => "audience_mismatch"
  | ReplayDetected => "replay_detected"
  | AuthorMismatch => "author_mismatch"
  | DelegationInvalid => "delegation_invalid"
  | PeerUnbound => "peer_unbound"
  | SourceMismatch => "source_mismatch"
  | ScopeDenied => "scope_denied"
  | EventDisclosureDenied => "event_disclosure_denied"
  end.

Inductive AuthorizationDecision :=
| Allowed
| DecisionDenied (code : IdentityDenialCode).

Definition is_allowed (d : AuthorizationDecision) : bool :=
  match d with Allowed => true | DecisionDenied _ => false end.

Definition decision_denial_code (d : AuthorizationDecision) : option IdentityDenialCode :=
  match d with Allowed => None | DecisionDenied code => Some code end.

Record ReplicationPeerBinding := mkBinding {
  pb_source : ReplicationSourceId;
  pb_relay_node_principal : string;
  pb_verification_method : string;
}.

(** The policy ports. *)
Class AppendAuthorizer (A : Type) := {
  authorize_append : A -> AuthenticatedPrincipal -> AppendContext -> Event -> string -> AuthorizationDecision;
}.

Class ReadAuthorizer (A : Type) := {
  authorize_query : A -> AuthenticatedPrincipal -> ReadOperation -> list Filter -> string -> AuthorizationDecision;
  authorize_event_delivery : A -> AuthenticatedPrincipal -> ReadOperation -> Event -> string -> AuthorizationDecision;
}.

(** ** [buzz-local-relay/src/identity.rs] *)

Definition LOCAL_DESTINATION_SCOPE : string := "local".
Definition PROOF_RETENTION_SECS : N := 600.

Inductive LocalAuthenticationEvidence :=
| LAE_Nip42 (event : Event) (challenge : string)
| LAE_Nip98 (event_json method body : string).

Record LocalPeerEvidence := mkPeerEvidence { pe_event : Event; pe_challenge : string }.

Record RelayPeerTrust := mkTrust {
  tr_source : ReplicationSourceId;
  tr_relay_node_principal : string;
  tr_verification_methods : gmap PublicKey string;
}.

Inductive LocalIdentityError :=
| Denied (code : IdentityDenialCode)
| Internal (error : string).

Definition denial_code (e : LocalIdentityError) : option IdentityDenialCode :=
  match e with Denied code => Some code | Internal _ => None end.

Definition identity_error_to_string (e : LocalIdentityError) : string :=
  match e with
  | Denied code => code_as_str code +:+ ": identity operation denied"
  | Internal error => "identity adapter failed: " +:+ error
  end.

(** [ProofLedger]; [store] is the contents of the file at [store_path], empty
    when the file does not exist. *)
Record ProofLedger := mkLedger {
  consumed : gmap EventId N;
  store : option string;
}.

Record LocalIdentityAdapter := mkAdapter {
  consumed_proofs : ProofLedger;
  peer_trust : gmap ReplicationSourceId RelayPeerTrust;
}.

Definition trust_map (trusts : list RelayPeerTrust) : gmap ReplicationSourceId RelayPeerTrust :=
  foldl (fun m t => <[tr_source t := t]> m) ∅ trusts.

Definition adapter_new : LocalIdentityAdapter := mkAdapter (mkLedger ∅ None) ∅.

Definition with_peer_trust (trusts : list RelayPeerTrust) : LocalIdentityAdapter :=
  mkAdapter (mkLedger ∅ None) (trust_map trusts).

Section adapter.
Context `{NL : NostrLib, SJ : SerdeJson, UL : UrlLib}.

(** The loop over the lines of the proof file. *)
Fixpoint load_lines (ls : list string) (m : gmap EventId N)
    : result LocalIdentityError (gmap EventId N) :=
  match ls with
  | [] => Ok m
  | line :: ls =>
      if String.eqb line EmptyString then load_lines ls m
      else
        match split_once " " line with
        | None => Err (Internal "malformed proof store line")
        | Some (id, timestamp) =>
            match EventId_from_hex id with
            | None => Err (Internal "malformed id")
            | Some id =>
                match parse_u64 timestamp with
                | None => Err (Internal "invalid digit found in string")
                | Some timestamp => load_lines ls (<[id := timestamp]> m)
                end
            end
        end
  end.

(** [ProofLedger::load]; [read] is the outcome of reading an existing file. *)
Definition ledger_load (store : option (result string string)) : result LocalIdentityError ProofLedger :=
  match store with
  | None => Ok (mkLedger ∅ None)
  | Some (Err error) => Err (Internal error)
  | Some (Ok contents) =>
      let? m := load_lines (Lines.lines contents) ∅ in
      Ok (mkLedger m (Some contents))
  end.

Definition with_peer_trust_and_proof_store (trusts : list RelayPeerTrust)
    (store : option (result string string)) : result LocalIdentityError LocalIdentityAdapter :=
  let? ledger := ledger_load store in
  Ok (mkAdapter ledger (trust_map trusts)).

Definition proof_line (id : EventId) (now : N) : string := to_hex id +:+ String " " (u64_to_string now).

(** [ProofLedger::consume]. *)
Definition consume (w : WriteOutcome) (l : ProofLedger) (id : EventId) (now : N)
    : ProofLedger * result LocalIdentityError unit :=
  let kept := filter (fun kv => is_true (now <=? u64_wrapping_add kv.2 PROOF_RETENTION_SECS)%N) (consumed l) in
  match kept !! id with
  | Some _ => (mkLedger kept (store l), Err (Denied ReplayDetected))
  | None =>
      match store l, w with
      | Some contents, WriteFailed partial error =>
          (mkLedger kept (Some (contents +:+ partial)), Err (Internal error))
      | Some contents, Written =>
          (mkLedger (<[id := now]> kept)
             (Some (contents +:+ (proof_line id now +:+ String Lines.newline EmptyString))), Ok tt)
      | None, _ => (mkLedger (<[id := now]> kept) None, Ok tt)
      end
  end.

Definition consume_proof (w : WriteOutcome) (a : LocalIdentityAdapter) (id : EventId) (now : N)
    : LocalIdentityAdapter * result LocalIdentityError unit :=
  let '(l, r) := consume w (consumed_proofs a) id now in (mkAdapter l (peer_trust a), r).

Definition map_nip42_error (e : AuthError) : LocalIdentityError :=
  Denied match e with
         | EventExpired => EvidenceExpired
         | ChallengeMismatch | RelayUrlMismatch => AudienceMismatch
         | _ => InvalidEvidence
         end.

Definition map_nip98_error (e : AuthError) : LocalIdentityError :=
  Denied match e with
         | Nip98Replay => ReplayDetected
         | Nip98Invalid message =>
             if str_contains "timestamp" message then EvidenceExpired
             else if str_contains "URL mismatch" message || str_contains "method mismatch" message
                  then AudienceMismatch
             else InvalidEvidence
         | _ => InvalidEvidence
         end.

Definition authenticated_nostr_principal (pk : PublicKey) (method : AuthenticationMethod)
    (audience : string) (now : N) (proof_id : EventId) : AuthenticatedPrincipal :=
  mkPrincipal (P_Nostr pk) method audience now None (Some (to_hex proof_id)).

Definition authenticate_at (w : WriteOutcome) (a : LocalIdentityAdapter)
    (evidence : LocalAuthenticationEvidence) (audience : string) (now : N)
    : LocalIdentityAdapter * result LocalIdentityError AuthenticatedPrincipal :=
  match evidence with
  | LAE_Nip42 e challenge =>
      match map_err map_nip42_error (verify_nip42_event_at e challenge audience now) with
      | Err err => (a, Err err)
      | Ok _ =>
          match consume_proof w a (ev_id e) now with
          | (a, Err err) => (a, Err err)
          | (a, Ok _) => (a, Ok (authenticated_nostr_principal (ev_pubkey e) AM_Nip42 audience now (ev_id e)))
          end
      end
  | LAE_Nip98 event_json method body =>
      match event_from_str event_json with
      | Err _ => (a, Err (Denied InvalidEvidence))
      | Ok e =>
          match tags_find TK_Payload (ev_tags e) with
          | None => (a, Err (Denied InvalidEvidence))
          | Some _ =>
              match map_err map_nip98_error
                      (verify_nip98_event_at event_json audience method (Some body) now) with
              | Err err => (a, Err err)
              | Ok pk =>
                  match consume_proof w a (ev_id e) now with
                  | (a, Err err) => (a, Err err)
                  | (a, Ok _) => (a, Ok (authenticated_nostr_principal pk AM_Nip98 audience now (ev_id e)))
                  end
              end
          end
      end
  end.

Definition authenticate_peer_at (w : WriteOutcome) (a : LocalIdentityAdapter)
    (evidence : LocalPeerEvidence) (audience : string) (source : ReplicationSourceId) (now : N)
    : LocalIdentityAdapter * result LocalIdentityError ReplicationPeerBinding :=
  match peer_trust a !! source with
  | None => (a, Err (Denied PeerUnbound))
  | Some trust =>
      match map_err map_nip42_error
              (verify_nip42_event_at (pe_event evidence) (pe_challenge evidence) audience now) with
      | Err err => (a, Err err)
      | Ok _ =>
          match tr_verification_methods trust !! ev_pubkey (pe_event evidence) with
          | None => (a, Err (Denied SourceMismatch))
          | Some verification_method =>
              match consume_proof w a (ev_id (pe_event evidence)) now with
              | (a, Err err) => (a, Err err)
              | (a, Ok _) => (a, Ok (mkBinding source (tr_relay_node_principal trust) verification_method))
              end
          end
      end
  end.

Definition is_admitted_verification_key (a : LocalIdentityAdapter) (pk : PublicKey) : bool :=
  existsb (fun t => bool_decide (is_Some (tr_verification_methods (snd t) !! pk)))
    (map_to_list (peer_trust a)).

Definition bind_peer_key (a : LocalIdentityAdapter) (source : ReplicationSourceId) (pk : PublicKey)
    : result LocalIdentityError ReplicationPeerBinding :=
  let? trust := ok_or (peer_trust a !! source) (Denied PeerUnbound) in
  let? verification_method := ok_or (tr_verification_methods trust !! pk) (Denied SourceMismatch) in
  Ok (mkBinding source (tr_relay_node_principal trust) verification_method).

Definition event_has_recipient (e : Event) (reader_hex : string) : bool :=
  existsb (fun t => bool_decide (tag_content t = Some reader_hex))
    (tags_filter (SingleLetterLower "p") (ev_tags e)).

Definition event_has_valid_recipient (e : Event) : bool :=
  existsb (fun t => match tag_content t with
                    | Some value => bool_decide (is_Some (PublicKey_from_hex value))
                    | None => false
                    end)
    (tags_filter (SingleLetterLower "p") (ev_tags e)).

Definition local_authorize_append (a : LocalIdentityAdapter) (p : AuthenticatedPrincipal)
    (context : AppendContext) (e : Event) (destination_scope : string) : AuthorizationDecision :=
  match context with
  | AC_Direct =>
      match nostr_pubkey (ap_principal p) with
      | None => DecisionDenied AuthorMismatch
      | Some pubkey =>
          let kind := event_kind_u32 e in
          if (kind =? KIND_AUTH)%N || (kind =? KIND_HTTP_AUTH)%N then DecisionDenied ScopeDenied
          else if String.eqb (ev_pubkey e) pubkey
                  || ((kind =? KIND_GIFT_WRAP)%N && event_has_valid_recipient e)
          then Allowed else DecisionDenied AuthorMismatch
      end
  | AC_Replication _ =>
      match relay_node_id (ap_principal p) with
      | Some _ => Allowed
      | None => DecisionDenied PeerUnbound
      end
  | AC_System => DecisionDenied ScopeDenied
  end.

Definition local_authorize_event_delivery (a : LocalIdentityAdapter) (p : AuthenticatedPrincipal)
    (operation : ReadOperation) (e : Event) (destination_scope : string) : AuthorizationDecision :=
  match nostr_pubkey (ap_principal p) with
  | None => DecisionDenied EventDisclosureDenied
  | Some reader =>
      let kind := event_kind_u32 e in
      if bool_decide (kind ∈ AUTHOR_ONLY_KINDS) && negb (String.eqb (ev_pubkey e) reader)
      then DecisionDenied EventDisclosureDenied
      else if bool_decide (kind ∈ P_GATED_KINDS) && negb (event_has_recipient e (to_hex reader))
      then DecisionDenied EventDisclosureDenied
      else if negb (reader_authorized_for_event e (to_hex reader))
      then DecisionDenied EventDisclosureDenied
      else Allowed
  end.

#[global] Instance local_append_authorizer : AppendAuthorizer LocalIdentityAdapter := {|
  authorize_append := local_authorize_append
|}.

#[global] Instance local_read_authorizer : ReadAuthorizer LocalIdentityAdapter := {|
  authorize_query _ _ _ _ _ := Allowed;
  authorize_event_delivery := local_authorize_event_delivery
|}.

Definition authorize_direct (a : LocalIdentityAdapter) (p : AuthenticatedPrincipal) (e : Event) :=
  authorize_append a p AC_Direct e LOCAL_DESTINATION_SCOPE.
Definition authorize_local_query (a : LocalIdentityAdapter) (p : AuthenticatedPrincipal)
    (op : ReadOperation) (fs : list Filter) := authorize_query a p op fs LOCAL_DESTINATION_SCOPE.
Definition authorize_local_event (a : LocalIdentityAdapter) (p : AuthenticatedPrincipal)
    (op : ReadOperation) (e : Event) := authorize_event_delivery a p op e LOCAL_DESTINATION_SCOPE.
End adapter.

(** ** Proofs are single-use *)

(** What can happen to an adapter: an authentication, a peer authentication, or
    a restart of the node, which reloads the proof file. *)
Inductive IdentityOp :=
| OpAuthenticate (w : WriteOutcome) (evidence : LocalAuthenticationEvidence) (audience : string) (now : N)
| OpAuthenticatePeer (w : WriteOutcome) (evidence : LocalPeerEvidence) (audience : string)
    (source : ReplicationSourceId) (now : N)
| OpRestart.

Section single_use.
Context `{NL : NostrLib, NLL : !NostrLaws NL, SJ : SerdeJson, UL : UrlLib}.

(** The event a successful authentication consumed. *)
Definition evidence_event (evidence : LocalAuthenticationEvidence) : option Event :=
  match evidence with
  | LAE_Nip42 e _ => Some e
  | LAE_Nip98 json _ _ => res_ok (event_from_str json)
  end.

(** One operation: the adapter after it, and the event whose proof it accepted.
    A restart that cannot read the proof file leaves no adapter. *)
Definition identity_step (a : LocalIdentityAdapter) (op : IdentityOp)
    : option LocalIdentityAdapter * option Event :=
  match op with
  | OpAuthenticate w evidence audience now =>
      match authenticate_at w a evidence audience now with
      | (a', Ok _) => (Some a', evidence_event evidence)
      | (a', Err _) => (Some a', None)
      end
  | OpAuthenticatePeer w evidence audience source now =>
      match authenticate_peer_at w a evidence audience source now with
      | (a', Ok _) => (Some a', Some (pe_event evidence))
      | (a', Err _) => (Some a', None)
      end
  | OpRestart =>
      match ledger_load (Ok <$> store (consumed_proofs a)) with
      | Ok l => (Some (mkAdapter l (peer_trust a)), None)
      | Err _ => (None, None)
      end
  end.

(** The proofs accepted over a run, latest last; [None] when a restart failed. *)
Fixpoint identity_run (a : LocalIdentityAdapter) (ops : list IdentityOp)
    : option (LocalIdentityAdapter * list Event) :=
  match ops with
  | [] => Some (a, [])
  | op :: ops =>
      let '(a', accepted) := identity_step a op in
      a' ← a';
      '(final, rest) ← identity_run a' ops;
      Some (final, match accepted with Some e => e :: rest | None => rest end)
  end.

Definition op_time (op : IdentityOp) : option N :=
  match op with
  | OpAuthenticate _ _ _ now | OpAuthenticatePeer _ _ _ _ now => Some now
  | OpRestart => None
  end.

(** The clock does not go back, and is below the range where adding the
    retention overflows. *)
Fixpoint clock_from (last : N) (ops : list IdentityOp) : Prop :=
  match ops with
  | [] => (last + PROOF_RETENTION_SECS <= u64_max)%N
  | op :: ops =>
      match op_time op with
      | Some now => (last <= now)%N /\ clock_from now ops
      | None => clock_from last ops
      end
  end.

Definition op_intact (op : IdentityOp) : Prop :=
  match op with
  | OpAuthenticate w _ _ _ | OpAuthenticatePeer w _ _ _ _ =>
      match w with Written => True | WriteFailed partial _ => partial = EmptyString end
  | OpRestart => True
  end.

(** An accepted proof: its id, when it was made and when it was consumed. *)
Record spent := mkSpent { sp_id : EventId; sp_created : N; sp_at : N }.

Definition spent_ok (last : N) (s : spent) : Prop :=
  (sp_at s <= last)%N /\ (u64_abs_diff (sp_at s) (sp_created s) <= TIMESTAMP_TOLERANCE_SECS)%N.

(** The ledger remembers every spent proof that is still within retention. *)
Definition remembers (m : gmap EventId N) (last : N) (s : spent) : Prop :=
  m !! sp_id s = Some (sp_at s) \/ (sp_at s + PROOF_RETENTION_SECS < last)%N.

(** The file's records are exactly the spent proofs, in order. *)
Definition file_holds (contents : string) (ss : list spent) : Prop :=
  contents = Lines.unlines ((fun s => proof_line (sp_id s) (sp_at s)) <$> ss).

Definition plain_id (id : EventId) : Prop :=
  EventId_from_hex (to_hex id) = Some id /\
  str_forallb (fun c => (33 <=? N_of_ascii c)%N) (to_hex id) = true.

Record ledger_inv (l : ProofLedger) (last : N) (ss : list spent) : Prop := {
  li_nodup : NoDup (sp_id <$> ss);
  li_ok : Forall (spent_ok last) ss;
  li_mem : Forall (remembers (consumed l) last) ss;
  li_ids : Forall (fun s => plain_id (sp_id s)) ss;
  li_file : forall contents, store l = Some contents -> file_holds contents ss;
}.

Lemma proof_line_plain id now :
  plain_id id -> str_forallb (fun c => (32 <=? N_of_ascii c)%N) (proof_line id now) = true.
Proof.
  intros [_ H]. unfold proof_line. rewrite str_forallb_app. apply andb_true_iff. split.
  - eapply str_forallb_impl; [|exact H]. intros c. simpl. lia.
  - simpl. eapply str_forallb_impl; [|apply (u64_to_string_digits now)]. intros c.
    unfold is_digit, Lines.byte_in. lia.
Qed.

Lemma proof_line_split id now :
  plain_id id -> split_once " " (proof_line id now) = Some (id, u64_to_string now) /\
                 String.eqb (proof_line id now) EmptyString = false.
Proof.
  intros [_ H]. unfold proof_line. split.
  - apply split_once_app. eapply str_forallb_impl; [|exact H]. intros c Hc.
    destruct (Ascii.eqb_spec c " ") as [->|]; done.
  - by destruct (to_hex id).
Qed.

Lemma load_lines_spent ss (m : gmap EventId N) :
  Forall (fun s => plain_id (sp_id s)) ss -> Forall (fun s => (sp_at s <= u64_max)%N) ss ->
  load_lines ((fun s => proof_line (sp_id s) (sp_at s)) <$> ss) m =
  Ok (foldl (fun m s => <[sp_id s := sp_at s]> m) m ss).
Proof.
  intros Hid Hat. revert m. induction ss as [|s ss IH]; intros m; [done|].
  inversion_clear Hid as [|? ? Hs Hid']. inversion_clear Hat as [|? ? Ha Hat'].
  cbn. destruct (proof_line_split (sp_id s) (sp_at s) Hs) as [-> ->].
  destruct Hs as [Hhex _]. unfold to_hex in Hhex. rewrite Hhex, parse_u64_to_string by done. by apply IH.
Qed.

Lemma foldl_spent_lookup ss (m : gmap EventId N) s :
  NoDup (sp_id <$> ss) -> s ∈ ss ->
  foldl (fun m s => <[sp_id s := sp_at s]> m) m ss !! sp_id s = Some (sp_at s).
Proof.
  revert m. induction ss as [|x ss IH] using rev_ind; intros m Hnd Hs; [by apply not_elem_of_nil in Hs|].
  rewrite foldl_snoc. rewrite fmap_app in Hnd. apply NoDup_app in Hnd as (Hnd & Hdis & _).
  apply elem_of_app in Hs as [Hs|Hs].
  - rewrite lookup_insert_ne; [by apply IH|]. intros E. apply (Hdis (sp_id s)).
    + by apply list_elem_of_fmap_2.
    + simpl. rewrite E. left.
  - apply list_elem_of_singleton in Hs as ->. by rewrite lookup_insert_eq.
Qed.

Lemma ledger_restart l last ss :
  ledger_inv l last ss -> (last <= u64_max)%N ->
  store l <> None ->
  exists l', ledger_load (Ok <$> store l) = Ok l' /\ ledger_inv l' last ss /\ store l' = store l.
Proof.
  intros [Hnd Hok Hmem Hids Hfile] Hlast Hst. destruct (store l) as [contents|] eqn:Est; [|done].
  specialize (Hfile contents eq_refl). simpl. unfold file_holds in Hfile.
  assert (Forall (fun s => (sp_at s <= u64_max)%N) ss) as Hat.
  { eapply Forall_impl; [exact Hok|]. unfold spent_ok. lia. }
  rewrite Hfile. rewrite Lines.lines_unlines, load_lines_spent by
    (done || (apply Forall_fmap; eapply Forall_impl; [exact Hids|]; intros s Hs; by apply proof_line_plain)).
  eexists. split; [done|]. split; [|done]. constructor; try done.
  - apply Forall_forall. intros s Hs. left. by apply foldl_spent_lookup.
  - by intros c [= <-].
Qed.

(** The proofs that one operation may consume keep the invariant: consuming a
    fresh proof either spends a new id or is refused. *)
Lemma ledger_consume w l last ss e now l' r :
  (match w with Written => True | WriteFailed partial _ => partial = EmptyString end) ->
  ledger_inv l last ss -> (last <= now)%N -> (now + PROOF_RETENTION_SECS <= u64_max)%N ->
  (forall s, s ∈ ss -> sp_id s = ev_id e -> sp_created s = ev_created_at e) ->
  verify_event e = Ok tt ->
  (u64_abs_diff now (ev_created_at e) <= TIMESTAMP_TOLERANCE_SECS)%N ->
  consume w l (ev_id e) now = (l', r) ->
  (store l' = None <-> store l = None) /\
  ledger_inv l' now
    (match r with Ok _ => ss ++ [mkSpent (ev_id e) (ev_created_at e) now] | Err _ => ss end).
Proof.
  intros Hw [Hnd Hok Hmem Hids Hfile] Hnow Hmax Hcre [Hv _]%verify_event_ok Hfresh.
  unfold consume. set (kept := filter _ _).
  assert (forall s, s ∈ ss -> remembers kept now s) as Hkept.
  { intros s Hs. rewrite Forall_forall in Hmem, Hok. destruct (Hok s Hs) as [Hat _].
    destruct (Hmem s Hs) as [Hm|Hm]; [|right; lia].
    destruct (N.ltb_spec (sp_at s + PROOF_RETENTION_SECS) now) as [Hlt|Hge]; [by right|left].
    apply map_lookup_filter_Some. split; [done|]. simpl. unfold u64_wrapping_add.
    rewrite N.mod_small by lia. unfold is_true. lia. }
  assert (Forall (spent_ok now) ss) as Hok'.
  { eapply Forall_impl; [exact Hok|]. unfold spent_ok. intros s. lia. }
  assert (Forall (remembers kept now) ss) as Hmem' by by apply Forall_forall.
  destruct (kept !! ev_id e) as [t|] eqn:Ek.
  { intros [= <- <-]. split; [done|]. by constructor. }
  assert (~ ev_id e ∈ (sp_id <$> ss)) as Hnew.
  { intros (s & Hid & Hs)%list_elem_of_fmap. rewrite Forall_forall in Hok. destruct (Hok s Hs) as [Ha Hd].
    destruct (Hkept s Hs) as [Hm|Hm]; [by rewrite <-Hid, Ek in Hm|].
    rewrite (Hcre s Hs (eq_sym Hid)) in Hd.
    unfold u64_abs_diff, TIMESTAMP_TOLERANCE_SECS, PROOF_RETENTION_SECS in *.
    repeat case_match; lia. }
  assert (forall c, (store l = Some c -> forall c', c' = c +:+ (proof_line (ev_id e) now +:+ String Lines.newline EmptyString) ->
            file_holds c' (ss ++ [mkSpent (ev_id e) (ev_created_at e) now]))) as Hfile'.
  { intros c Hc c' ->. unfold file_holds. rewrite fmap_app. simpl. rewrite Lines.unlines_snoc.
    by rewrite <-(Hfile c Hc). }
  assert (forall st', (forall c, st' = Some c -> file_holds c (ss ++ [mkSpent (ev_id e) (ev_created_at e) now])) ->
    ledger_inv (mkLedger (<[ev_id e := now]> kept) st') now (ss ++ [mkSpent (ev_id e) (ev_created_at e) now])) as Hins.
  { intros st' Hst. constructor; [| | | |done].
    - rewrite fmap_app. simpl. apply NoDup_snoc_iff. by split.
    - apply Forall_app. split; [done|]. constructor; [|done]. split; simpl; [lia|done].
    - apply Forall_app. split.
      + apply Forall_forall. intros s Hs. destruct (Hkept s Hs) as [Hm|Hm]; [left|by right].
        simpl. rewrite lookup_insert_ne; [done|]. intros E. apply Hnew. rewrite E. by apply list_elem_of_fmap_2.
      + constructor; [|done]. left. simpl. by rewrite lookup_insert_eq.
    - apply Forall_app. split; [done|]. constructor; [|done]. by apply verify_id_hex. }
  destruct (store l) as [contents|] eqn:Est; [destruct w as [|partial err]|]; intros [= <- <-]; simpl.
  - split; [done|]. apply Hins. intros c [= <-]. by eapply Hfile'.
  - subst partial. split; [done|]. constructor; try done. intros c [= <-].
    rewrite str_app_nil_r. by apply Hfile.
  - split; [done|]. by apply Hins.
Qed.

Definition op_event (op : IdentityOp) : option Event :=
  match op with
  | OpAuthenticate _ evidence _ _ => evidence_event evidence
  | OpAuthenticatePeer _ evidence _ _ _ => Some (pe_event evidence)
  | OpRestart => None
  end.

(** An authentication either leaves the ledger alone or consumes a fresh,
    genuine proof. *)
Lemma identity_step_consumes a op now a' accepted :
  op_time op = Some now -> identity_step a op = (a', accepted) ->
  (a' = Some a /\ accepted = None) \/
  exists w e l r, op_event op = Some e /\ verify_event e = Ok tt /\
    (op_intact op -> match w with Written => True | WriteFailed partial _ => partial = EmptyString end) /\
    (u64_abs_diff now (ev_created_at e) <= TIMESTAMP_TOLERANCE_SECS)%N /\
    consume w (consumed_proofs a) (ev_id e) now = (l, r) /\
    a' = Some (mkAdapter l (peer_trust a)) /\
    accepted = match r with Ok _ => Some e | Err _ => None end.
Proof.
  destruct op as [w ev aud t|w ev aud src t|]; simpl; intros [= <-].
  - destruct ev as [e ch|json method body]; simpl.
    + destruct (verify_nip42_event_at e ch aud t) as [[]|] eqn:Hv; simpl; [|intros [= <- <-]; by left].
      apply verify_nip42_ok in Hv as [(_ & Hver & Hf) _]. unfold consume_proof.
      destruct (consume w (consumed_proofs a) (ev_id e) t) as [l [[]|err]] eqn:Ec;
        intros [= <- <-]; right; eexists w, e, l, _; split_and!; eauto; done.
    + destruct (event_from_str json) as [e|] eqn:Ej; [|intros [= <- <-]; by left].
      destruct (tags_find TK_Payload (ev_tags e)); [|intros [= <- <-]; by left].
      destruct (verify_nip98_event_at _ _ _ _ _) as [pk|] eqn:Hv; simpl; [|intros [= <- <-]; by left].
      apply verify_nip98_ok in Hv as (e' & Ej' & _ & (_ & Hver & Hf) & _).
      assert (e' = e) as -> by congruence.
      unfold consume_proof.
      destruct (consume w (consumed_proofs a) (ev_id e) t) as [l [[]|err]] eqn:Ec;
        intros [= <- <-]; right; eexists w, e, l, _; split_and!; eauto; simpl; by rewrite ?Ej.
  - unfold authenticate_peer_at. destruct (peer_trust a !! src) as [tr|]; [|intros [= <- <-]; by left].
    destruct (verify_nip42_event_at _ _ _ _) as [[]|] eqn:Hv; simpl; [|intros [= <- <-]; by left].
    apply verify_nip42_ok in Hv as [(_ & Hver & Hf) _].
    destruct (tr_verification_methods tr !! _); [|intros [= <- <-]; by left]. unfold consume_proof.
    destruct (consume w (consumed_proofs a) _ t) as [l [[]|err]] eqn:Ec;
      intros [= <- <-]; right; eexists w, (pe_event ev), l, _; split_and!; eauto; done.
Qed.

Lemma clock_from_bound last ops : clock_from last ops -> (last + PROOF_RETENTION_SECS <= u64_max)%N.
Proof.
  revert last. induction ops as [|op ops IH]; intros last; simpl; [done|].
  destruct (op_time op) as [now|]; [intros [Hle H]; apply IH in H; lia|apply IH].
Qed.

Definition restarts_durably (a : LocalIdentityAdapter) (ops : list IdentityOp) : Prop :=
  store (consumed_proofs a) <> None \/ Forall (fun op => op_time op <> None) ops.

Lemma ledger_inv_later l last now ss : ledger_inv l last ss -> (last <= now)%N -> ledger_inv l now ss.
Proof.
  intros [Hnd Hok Hmem Hids Hfile] Hle. constructor; try done.
  - eapply Forall_impl; [exact Hok|]. unfold spent_ok. intros s. lia.
  - eapply Forall_impl; [exact Hmem|]. intros s [?|?]; [by left|right; lia].
Qed.

(** Ids determine creation times, among spent proofs and the proofs to come. *)
Definition times_agree (ss : list spent) (ops : list IdentityOp) : Prop :=
  (forall e1 e2, Some e1 ∈ op_event <$> ops -> Some e2 ∈ op_event <$> ops ->
     ev_id e1 = ev_id e2 -> ev_created_at e1 = ev_created_at e2) /\
  (forall s e, s ∈ ss -> Some e ∈ op_event <$> ops -> sp_id s = ev_id e -> sp_created s = ev_created_at e).

Lemma times_agree_tail ss op ops : times_agree ss (op :: ops) -> times_agree ss ops.
Proof.
  intros [H1 H2]. split.
  - intros e1 e2 ? ?. apply H1; by right.
  - intros s e ? ?. apply H2; [done|]. by right.
Qed.

Lemma times_agree_spend ss op ops e now :
  times_agree ss (op :: ops) -> op_event op = Some e ->
  times_agree (ss ++ [mkSpent (ev_id e) (ev_created_at e) now]) ops.
Proof.
  intros Ht He. split; [by eapply times_agree_tail|]. destruct Ht as [H1 H2].
  intros s e' [Hs| ->%list_elem_of_singleton]%elem_of_app He'.
  - apply H2; [done|]. by right.
  - simpl. apply H1; [rewrite fmap_cons, He; left|by right].
Qed.

(** The run from an adapter that has spent [ss]. *)
Lemma identity_run_spends a last ss ops :
  ledger_inv (consumed_proofs a) last ss -> clock_from last ops -> Forall op_intact ops ->
  restarts_durably a ops -> times_agree ss ops ->
  exists final accepted, identity_run a ops = Some (final, accepted) /\
    NoDup ((sp_id <$> ss) ++ (ev_id <$> accepted)).
Proof using NLL.
  revert a last ss. induction ops as [|op ops IH]; intros a last ss Hinv Hclk Hint Hdur Hag.
  { exists a, []. split; [done|]. rewrite app_nil_r. apply Hinv. }
  inversion_clear Hint as [|? ? Hi Hint']. cbn [identity_run]. simpl in Hclk.
  destruct (op_time op) as [now|] eqn:Et.
  - destruct Hclk as [Hle Hclk]. pose proof (clock_from_bound _ _ Hclk) as Hmax.
    destruct (identity_step a op) as [a' acc] eqn:Est.
    destruct (identity_step_consumes _ _ _ _ _ Et Est)
      as [[-> ->]|(w & e & l & r & He & Hv & Hw & Hf & Hc & -> & ->)]; simpl.
    + destruct (IH a now ss) as (final & acc & -> & Hnd); try done.
      * by eapply ledger_inv_later.
      * destruct Hdur as [|Hd]; [by left|right]. by inversion Hd.
      * by eapply times_agree_tail.
      * by exists final, acc.
    + destruct (ledger_consume w _ last ss e now l r (Hw Hi) Hinv Hle Hmax) as [Hst Hinv']; try done.
      { destruct Hag as [_ H2]. intros s Hs. apply H2; [done|]. rewrite fmap_cons, He. left. }
      assert (restarts_durably (mkAdapter l (peer_trust a)) ops) as Hdur'.
      { destruct Hdur as [Hd|Hd]; [left; simpl; by rewrite Hst|right]. by inversion Hd. }
      destruct r as [[]|err].
      * destruct (IH (mkAdapter l (peer_trust a)) now _ Hinv' Hclk Hint' Hdur') as (final & acc & -> & Hnd).
        { by eapply times_agree_spend. }
        exists final, (e :: acc). split; [done|].
        rewrite fmap_app in Hnd. rewrite fmap_cons. by rewrite <-app_assoc in Hnd.
      * destruct (IH (mkAdapter l (peer_trust a)) now _ Hinv' Hclk Hint' Hdur') as (final & acc & -> & Hnd).
        { by eapply times_agree_tail. }
        by exists final, acc.
  - destruct op; try done. destruct Hdur as [Hd|Hd]; [|by inversion Hd].
    pose proof (clock_from_bound _ _ Hclk) as Hmax.
    destruct (ledger_restart _ _ _ Hinv ltac:(lia) Hd) as (l' & El & Hinv' & Hst).
    cbn [identity_step]. rewrite El.
    destruct (IH (mkAdapter l' (peer_trust a)) last ss) as (final & acc & E & Hnd); try done.
    + left. simpl. by rewrite Hst.
    + by eapply times_agree_tail.
    + simpl. rewrite E. by exists final, acc.
Qed.

End single_use.

(** ** Witnesses *)

#[global] Instance demo_url : UrlLib := {|
  Url := string;
  Url_parse s := Some s;
  url_host_str _ := None;
  url_set_host u _ := u;
  url_path u := u;
  url_set_path _ p := p;
  url_to_string u := u;
  to_lowercase s := s;
|}.

Definition demo_proof : Event :=
  demo_event "proof" "alice" 1000 22242 [["challenge"; "c1"]; ["relay"; "wss://here"]].

(** A proof, a replay, a restart, a replay, and a replay after retention. *)
Definition demo_identity_ops : list IdentityOp :=
  let ev := LAE_Nip42 demo_proof "c1" in
  [OpAuthenticate Written ev "wss://here/" 1010; OpAuthenticate Written ev "wss://here" 1020; OpRestart;
   OpAuthenticate Written ev "wss://here" 1030; OpAuthenticate Written ev "wss://here" 1700].


(** The code of a NIP-98 refusal is read off its message, which quotes the
    signed URL: a proof for another URL is reported as expired when that URL
    happens to contain [timestamp]. *)
Definition demo_other_url : Event :=
  demo_event "http" "alice" 1000 27235
    [["u"; "https://other/timestamp"]; ["method"; "POST"]; ["payload"; "hash-body"]].

Example nip98_other_url_reported_expired :
  snd (authenticate_at Written adapter_new
         (LAE_Nip98 (String "{" (bits (encode demo_other_url))) "POST" "body") "https://here/x" 1000) =
  Err (Denied EvidenceExpired).
Proof. vm_compute. reflexivity. Qed.
