(* ===== verification/Declarations.v ===== *)
(** * Journal-derived configuration

    [buzz-local-relay/src/declarations.rs]: the owner's signed declarations
    (kind 30700) evaluated into the trusted replication sources and into the
    rule for fetching artifacts. *)

From S2P Require Import Prelude Text Nostr Demo Kinds Ingest FilterMatch Store StoreTheory Replication.
From S2P Require Import Identity.

Inductive MalformedReason :=
| BadJson (error : string)
| MissingPrincipal
| InvalidPTag (hex : string)
| NoVerificationKey.

Inductive DeclarationError :=
| DeclarationQuery (error : QueryError)
| Malformed (d_tag event_id : string) (reason : MalformedReason).

Definition reason_to_string (r : MalformedReason) : string :=
  match r with
  | BadJson error => error
  | MissingPrincipal => "active admit head requires a string principal"
  | InvalidPTag hex => "invalid p-tag pubkey " +:+ debug_str hex
  | NoVerificationKey => "active admit head requires at least one p-tag verification key"
  end.

Definition declaration_error_to_string (e : DeclarationError) : string :=
  match e with
  | DeclarationQuery error => "declaration query failed: " +:+ query_error_to_string error
  | Malformed d_tag event_id reason =>
      "malformed declaration " +:+ debug_str d_tag +:+ " (event " +:+ event_id +:+ "): " +:+ reason_to_string reason
  end.

Section declarations.
Context `{NL : NostrLib, SJ : SerdeJson}.

Definition named_tag (e : Event) (name : string) : option string :=
  find_map (fun t => if bool_decide (t !! 0 = Some name) then t !! 1 else None) (ev_tags e).

Definition d_tag (e : Event) : option string := named_tag e "d".
Definition n_tag (e : Event) : option string := named_tag e "n".

Definition p_tags (e : Event) : list string :=
  omap (fun t => if bool_decide (tag_kind t = SingleLetterLower "p") then t !! 1 else None) (ev_tags e).

Definition malformed (e : Event) (reason : MalformedReason) : DeclarationError :=
  Malformed (default "<missing>" (d_tag e)) (to_hex (ev_id e)) reason.

(** [content["status"].as_str()] *)
Definition status_of (content : Value) : option string := v ← get content "status"; as_str v.

Definition active (e : Event) : bool :=
  default true (content ← res_ok (from_str (ev_content e));
                status ← status_of content;
                Some (String.eqb status "active")).

(** [Filter::new().authors([owner]).kind(KIND_SYNC_DECLARATION)] *)
Definition heads_filter (owner : PublicKey) : Filter :=
  mkFilter None (Some [owner]) (Some [KIND_SYNC_DECLARATION]) None None None None [].

Definition parse_key (e : Event) (principal hex : string) : result DeclarationError (PublicKey * string) :=
  match PublicKey_from_hex hex with
  | None => Err (malformed e (InvalidPTag hex))
  | Some pubkey => Ok (pubkey, principal +:+ "#nostr-key")
  end.

(** [RelayPeerTrust::new] *)
Definition trust_new (source : ReplicationSourceId) (principal : string) (keys : list (PublicKey * string))
    : RelayPeerTrust :=
  mkTrust source principal (foldl (fun m kv => <[kv.1 := kv.2]> m) ∅ keys).

(** An active [admit] head: the trust it declares, or why it is malformed. *)
Definition admit_entry (e : Event) (source : string)
    : result DeclarationError (option (ReplicationSourceId * RelayPeerTrust)) :=
  let? content := map_err (fun error => malformed e (BadJson error)) (from_str (ev_content e)) in
  let status := default "active" (status_of content) in
  if negb (String.eqb status "active") then Ok None
  else
    let? principal := ok_or (v ← get content "principal"; as_str v) (malformed e MissingPrincipal) in
    let? keys := map_res (parse_key e principal) (p_tags e) in
    match keys with
    | [] => Err (malformed e NoVerificationKey)
    | _ => Ok (Some (source, trust_new source principal keys))
    end.

(** The source an [admit] head of this node names. *)
Definition admit_source (node_label : string) (e : Event) : option string :=
  d ← d_tag e;
  source ← strip_prefix "admit/" d;
  if bool_decide (n_tag e = Some node_label) then Some source else None.

Fixpoint admit_heads (node_label : string) (heads : list Event) (claimed : bool)
    (entries : list (ReplicationSourceId * RelayPeerTrust))
    : result DeclarationError (bool * list (ReplicationSourceId * RelayPeerTrust)) :=
  match heads with
  | [] => Ok (claimed, entries)
  | e :: heads =>
      match admit_source node_label e with
      | None => admit_heads node_label heads claimed entries
      | Some source =>
          let? entry := admit_entry e source in
          match entry with
          | None => admit_heads node_label heads true entries
          | Some x => admit_heads node_label heads true (entries ++ [x])
          end
      end
  end.

Definition admit_domain_from_journal (inner : StoreInner) (owner : PublicKey) (node_label : string)
    : result DeclarationError (option (list (ReplicationSourceId * RelayPeerTrust))) :=
  let? heads := map_err DeclarationQuery (query inner [heads_filter owner]) in
  let? (claimed, entries) := admit_heads node_label heads false [] in
  Ok (if (claimed : bool) then Some entries else None).

(** ** Artifacts *)

Definition granted_streams (node_label : string) (principal : PublicKey) (heads : list Event) : list string :=
  omap (fun e => d ← d_tag e; strip_prefix "read/" d)
    (List.filter (fun e => existsb (fun hex => String.eqb hex (to_hex principal)) (p_tags e))
      (List.filter (fun e => bool_decide (n_tag e = Some node_label) && active e) heads)).

Definition export_head (node_label stream : string) (heads : list Event) : option Event :=
  find (fun e => bool_decide (n_tag e = Some node_label) && active e
                 && bool_decide (d_tag e = Some ("export/" +:+ stream))) heads.

(** [content["selection"]["mirror"] == true] *)
Definition is_mirror (content : Value) : bool :=
  bool_decide ((selection ← get content "selection"; v ← get selection "mirror"; as_bool v) = Some true).

(** [selection.get("filter").filter(|value| value.is_array())] *)
Definition filter_json (content : Value) : option Value :=
  selection ← get content "selection";
  v ← get selection "filter";
  if is_array v then Some v else None.

Fixpoint streams_select (now : N) (node_label : string) (heads referencing : list Event)
    (streams : list string) : result DeclarationError bool :=
  match streams with
  | [] => Ok false
  | stream :: rest =>
      match export_head node_label stream heads with
      | None => streams_select now node_label heads referencing rest
      | Some export =>
          let? content := map_err (fun error => malformed export (BadJson error))
                                  (from_str (ev_content export)) in
          if is_mirror content then Ok true
          else
            match filter_json content with
            | Some filters_json =>
                let? filters := map_err (fun error => malformed export (BadJson error))
                                        (filters_from_value filters_json) in
                if existsb (fun e => filters_match filters (StoredEvent.new now e None)) referencing
                then Ok true
                else streams_select now node_label heads referencing rest
            | None => streams_select now node_label heads referencing rest
            end
      end
  end.

Definition artifact_fetch_allowed (now : N) (inner : StoreInner) (owner : PublicKey)
    (node_label : string) (principal : PublicKey) (sha256 : string) : result DeclarationError bool :=
  match journal_events_referencing inner sha256 with
  | [] => Ok false
  | referencing =>
      let? heads := map_err DeclarationQuery (query inner [heads_filter owner]) in
      match granted_streams node_label principal heads with
      | [] => Ok false
      | streams => streams_select now node_label heads referencing streams
      end
  end.
End declarations.

(** ** What the evaluation trusts *)

Section declaration_theory.
Context `{NL : NostrLib, NLL : !NostrLaws NL, SJ : SerdeJson}.

(** The ingest engine and the declarations read the same [d] tag, so heads of
    one [d] tag compete in one replacement stream. *)
Lemma d_tag_identifier tags :
  find_map tag_content (tags_filter (SingleLetterLower "d") tags) =
  find_map (fun t => if bool_decide (t !! 0 = Some "d") then t !! 1 else None) tags.
Proof using NLL.
  rewrite tags_filter_spec. induction tags as [|t tags IH]; [done|]. simpl.
  assert (bool_decide (tag_kind t = SingleLetterLower "d") = bool_decide (t !! 0 = Some "d")) as ->.
  { apply bool_decide_ext. apply tag_kind_letter. vm_compute. split; congruence. }
  case_bool_decide; simpl; rewrite IH; [by rewrite tag_content_spec|done].
Qed.

Lemma declaration_key e :
  ev_kind e = KIND_SYNC_DECLARATION ->
  replacement_key e = Some (Parameterized (ev_pubkey e) KIND_SYNC_DECLARATION (default "" (d_tag e))).
Proof using NLL.
  intros Hk. unfold replacement_key. rewrite Hk. simpl. by rewrite d_tag_identifier.
Qed.

(** Whether a head's content lets it confer trust. *)
Definition confers (e : Event) : Prop :=
  exists content, from_str (ev_content e) = Ok content /\ default "active" (status_of content) = "active".

(** The keys of an entry are its head's [p] tags. *)
Definition declares (e : Event) (source : ReplicationSourceId) (t : RelayPeerTrust) : Prop :=
  confers e /\ tr_source t = source /\
  (forall pk m, tr_verification_methods t !! pk = Some m ->
     exists hex, hex ∈ p_tags e /\ PublicKey_from_hex hex = Some pk) /\
  (forall hex pk, hex ∈ p_tags e -> PublicKey_from_hex hex = Some pk ->
     is_Some (tr_verification_methods t !! pk)) /\
  p_tags e <> [].

Lemma trust_keys_lookup (keys : list (PublicKey * string)) (m : gmap PublicKey string) pk :
  is_Some (foldl (fun m kv => <[kv.1 := kv.2]> m) m keys !! pk) <-> pk ∈ keys.*1 \/ is_Some (m !! pk).
Proof.
  revert m. induction keys as [|[k v] keys IH]; intros m; simpl; [set_solver|].
  rewrite IH, lookup_insert_is_Some'. set_solver.
Qed.

Lemma parse_keys_fst e principal hexes keys :
  map_res (parse_key e principal) hexes = Ok keys ->
  Forall2 (fun hex kv => PublicKey_from_hex hex = Some kv.1) hexes keys.
Proof.
  revert keys. induction hexes as [|hex hexes IH]; intros keys; simpl; [intros [= <-]; constructor|].
  unfold parse_key at 1. destruct (PublicKey_from_hex hex) as [pk|] eqn:E; [|done].
  destruct (map_res _ hexes) as [ks|]; [|done]. intros [= <-]. constructor; [done|by apply IH].
Qed.

Lemma admit_entry_declares e source x :
  admit_entry e source = Ok (Some x) -> x.1 = source /\ declares e source x.2.
Proof.
  unfold admit_entry. destruct (from_str (ev_content e)) as [content|] eqn:Ec; [|done]. simpl.
  destruct (String.eqb_spec (default "active" (status_of content)) "active") as [Hs|]; [|done]. simpl.
  destruct (get content "principal" ≫= as_str) as [principal|]; [|done]. simpl.
  destruct (map_res _ _) as [keys|] eqn:Ek; [|done]. destruct keys as [|k ks]; [done|].
  intros [= <-]. simpl. split; [done|]. apply parse_keys_fst in Ek as HF. unfold declares, trust_new. simpl.
  split_and!; [by exists content|done| | |].
  - intros pk m Hm. assert (is_Some (foldl (fun m kv => <[kv.1 := kv.2]> m) (∅ : gmap PublicKey string) (k :: ks) !! pk))
      as Hin by (simpl; by rewrite Hm).
    apply trust_keys_lookup in Hin as [Hin|Hin]; [|by rewrite lookup_empty in Hin; destruct Hin].
    apply list_elem_of_fmap in Hin as (kv & -> & Hkv).
    apply list_elem_of_lookup in Hkv as (i & Hi).
    destruct (Forall2_lookup_r _ _ _ _ _ HF Hi) as (hex & Hhex & Hpk).
    exists hex. split; [by eapply list_elem_of_lookup_2|done].
  - intros hex pk Hhex Hpk. apply (trust_keys_lookup (k :: ks) ∅). left.
    apply list_elem_of_lookup in Hhex as (i & Hi).
    destruct (Forall2_lookup_l _ _ _ _ _ HF Hi) as (kv & Hkv & Hpk'). simplify_eq.
    apply list_elem_of_fmap. exists kv. split; [congruence|by eapply list_elem_of_lookup_2].
  - intros E. rewrite E in HF. inversion HF.
Qed.

Lemma admit_entry_revoked e source : admit_entry e source = Ok None -> ~ confers e.
Proof.
  unfold admit_entry. destruct (from_str (ev_content e)) as [content|] eqn:Ec; [|done]. simpl.
  destruct (String.eqb_spec (default "active" (status_of content)) "active") as [Hs|Hs]; simpl.
  - destruct (get content "principal" ≫= as_str); [|done]. simpl.
    destruct (map_res _ _) as [[|]|]; done.
  - intros _ (c & Hc & Ha). congruence.
Qed.

Lemma admit_heads_spec node heads claimed entries claimed' entries' :
  admit_heads node heads claimed entries = Ok (claimed', entries') ->
  (claimed' = true <-> claimed = true \/ exists e source, e ∈ heads /\ admit_source node e = Some source) /\
  (forall x, x ∈ entries' -> x ∈ entries \/
     exists e source, e ∈ heads /\ admit_source node e = Some source /\ x.1 = source /\ declares e source x.2) /\
  (forall e source, e ∈ heads -> admit_source node e = Some source ->
     ~ confers e \/ exists t, (source, t) ∈ entries' /\ declares e source t) /\
  (forall x, x ∈ entries -> x ∈ entries').
Proof.
  revert claimed entries. induction heads as [|e heads IH]; intros claimed entries; simpl.
  { intros [= <- <-]. split_and!; try by auto.
    - split; [by left|]. intros [|(e & ? & He & _)]; [done|by apply not_elem_of_nil in He].
    - intros e s He. by apply not_elem_of_nil in He. }
  destruct (admit_source node e) as [source|] eqn:Es.
  - destruct (admit_entry e source) as [[x|]|] eqn:Ee; [| |done]; intros H;
      destruct (IH _ _ H) as (Hc & Hs & Hm & Hk).
    + apply admit_entry_declares in Ee as [Hx Hd]. split_and!.
      * rewrite Hc. split; [|by left]. intros _. right. exists e, source. split; [left|done].
      * intros y Hy. destruct (Hs y Hy) as [Hy'|(e' & s' & He' & ?)].
        -- apply elem_of_app in Hy' as [|Hy']; [by left|]. apply list_elem_of_singleton in Hy' as ->.
           right. exists e, source. split_and!; try done. left.
        -- right. exists e', s'. split; [by right|done].
      * intros e' s' [->|He']%elem_of_cons Hs'; [|by apply Hm].
        right. simplify_eq. exists x.2. rewrite <-surjective_pairing. split; [|done].
        apply Hk. apply elem_of_app. right. by left.
      * intros y Hy. apply Hk. apply elem_of_app. by left.
    + apply admit_entry_revoked in Ee. split_and!.
      * rewrite Hc. split; [|by left]. intros _. right. exists e, source. split; [left|done].
      * intros y Hy. destruct (Hs y Hy) as [Hy'|(e' & s' & He' & ?)]; [by left|].
        right. exists e', s'. split; [by right|done].
      * intros e' s' [->|He']%elem_of_cons Hs'; [by left|by apply Hm].
      * done.
  - intros H. destruct (IH _ _ H) as (Hc & Hs & Hm & Hk). split_and!.
    + rewrite Hc. split; (intros [|(e' & s' & He' & ?)]; [by left|]); right; exists e', s'.
      * split; [by right|done].
      * apply elem_of_cons in He' as [->|He']; [congruence|done].
    + intros y Hy. destruct (Hs y Hy) as [Hy'|(e' & s' & He' & ?)]; [by left|].
      right. exists e', s'. split; [by right|done].
    + intros e' s' [->|He']%elem_of_cons Hs'; [congruence|by apply Hm].
    + done.
Qed.

Definition is_head (owner : PublicKey) (e : Event) : bool :=
  (ev_kind e =? KIND_SYNC_DECLARATION)%N && String.eqb (ev_pubkey e) owner.

Lemma heads_filter_match owner s :
  filters_match [heads_filter owner] s = is_head owner (StoredEvent.event s).
Proof.
  unfold filters_match, filter_match_one, heads_filter, is_head, kind_in. simpl.
  rewrite !orb_false_r.
  destruct (ev_kind _ =? _)%N; simpl; [|done].
  destruct (String.eqb_spec (ev_pubkey (StoredEvent.event s)) owner) as [E|E].
  - rewrite bool_decide_true; [done|]. rewrite E. left.
  - rewrite bool_decide_false; [done|]. by intros ?%list_elem_of_singleton.
Qed.

Lemma heads_sound inner owner heads e :
  query inner [heads_filter owner] = Ok heads -> e ∈ heads ->
  e ∈ events_of (events inner) /\ is_head owner e = true.
Proof.
  intros Hq He. destruct (query_sound _ _ _ _ Hq He) as (cf & s & Hcf & Hs & <- & Hm & _).
  simpl in Hcf. apply list_elem_of_singleton in Hcf as ->. cbn [cf_filter] in Hm. rewrite heads_filter_match in Hm.
  split; [by apply list_elem_of_fmap_2|done].
Qed.

(** The owner's effective declarations. *)
Definition owner_heads (inner : StoreInner) (owner : PublicKey) : list Event :=
  List.filter (is_head owner) (ordered_events inner).

Lemma heads_exact l subs owner :
  id_injective (snd <$> subs) ->
  query (run (empty_store l) subs) [heads_filter owner] =
  Ok (take DEFAULT_QUERY_LIMIT (owner_heads (run (empty_store l) subs) owner)).
Proof.
  intros Hinj. unfold query. simpl.
  rewrite query_one; [|apply canonical_run; constructor|by apply run_nodup_ids|done|by left].
  do 2 f_equal. unfold owner_heads. apply filter_ext. intros e. unfold cursor_match. simpl.
  rewrite andb_true_r. apply heads_filter_match.
Qed.

Lemma admit_source_d node e source :
  admit_source node e = Some source <->
  d_tag e = Some ("admit/" +:+ source) /\ n_tag e = Some node.
Proof.
  unfold admit_source. split.
  - destruct (d_tag e) as [d|]; [|done]. cbn [mbind option_bind].
    destruct (strip_prefix "admit/" d) as [s|] eqn:Es; [|done]. cbn [mbind option_bind].
    case_bool_decide; [|done]. intros [= <-]. by rewrite (strip_prefix_some _ _ _ Es).
  - intros [-> ->]. cbn [mbind option_bind]. rewrite strip_prefix_app. simpl. by rewrite bool_decide_true.
Qed.

(** C11: trust comes from the owner's current declarations only.  Every source
    admitted for a node is declared by a head the owner signed, addressed to
    that node, not revoked, and current: no accepted declaration of the same
    [d] tag supersedes it.  The keys that may push the source are exactly that
    head's [p] tags, and there is at least one. *)
Theorem admitted_by_current_head (l : option string) (subs : list (AcceptEnv * Event))
    (owner : PublicKey) (node_label : string)
    (entries : list (ReplicationSourceId * RelayPeerTrust)) (source : ReplicationSourceId) (t : RelayPeerTrust) :
  id_injective (snd <$> subs) ->
  admit_domain_from_journal (run (empty_store l) subs) owner node_label = Ok (Some entries) ->
  (source, t) ∈ entries ->
  exists head,
    effective_spec (accepted_of (empty_store l) subs) head /\
    ev_pubkey head = owner /\ ev_kind head = KIND_SYNC_DECLARATION /\
    d_tag head = Some ("admit/" +:+ source) /\ n_tag head = Some node_label /\
    declares head source t.
Proof.
  intros Hinj. unfold admit_domain_from_journal.
  destruct (query _ _) as [heads|] eqn:Hq; [|done]. simpl.
  destruct (admit_heads _ _ _ _) as [[claimed es]|] eqn:Ha; [|done]. destruct claimed; [|done].
  intros [= ->] Hin. apply admit_heads_spec in Ha as (_ & Hs & _).
  destruct (Hs _ Hin) as [Hx|(e & s & He & Hsrc & Hs1 & Hd)]; [by apply not_elem_of_nil in Hx|].
  simpl in Hs1, Hd. subst s.
  destruct (heads_sound _ _ _ _ Hq He) as [Heff [Hk Ho]%andb_true_iff].
  apply admit_source_d in Hsrc as [Hdt Hn]. exists e.
  assert (effective_spec (accepted_of (empty_store l) subs) e) as Hspec.
  { pose proof (store_inv_run [] _ _ (store_inv_empty l) Hinj) as [Hr _]. by apply (red_sound _ _ Hr). }
  split_and!; try done; [by apply String.eqb_eq in Ho|by apply N.eqb_eq in Hk].
Qed.

(** A revocation takes effect and nothing current is dropped.  For an owner
    with at most [DEFAULT_QUERY_LIMIT] effective declarations: the domain is
    left to the configuration file exactly when no effective head of the owner
    claims a source for this node; and otherwise each effective head that does
    is either admitted as it declares, or does not confer trust. *)
Theorem admit_domain_complete (l : option string) (subs : list (AcceptEnv * Event))
    (owner : PublicKey) (node_label : string)
    (res : option (list (ReplicationSourceId * RelayPeerTrust))) :
  id_injective (snd <$> subs) ->
  length (owner_heads (run (empty_store l) subs) owner) <= DEFAULT_QUERY_LIMIT ->
  admit_domain_from_journal (run (empty_store l) subs) owner node_label = Ok res ->
  (res = None <-> forall head source,
     effective_spec (accepted_of (empty_store l) subs) head -> is_head owner head = true ->
     admit_source node_label head <> Some source) /\
  (forall entries head source, res = Some entries ->
     effective_spec (accepted_of (empty_store l) subs) head -> is_head owner head = true ->
     admit_source node_label head = Some source ->
     ~ confers head \/ exists t, (source, t) ∈ entries /\ declares head source t).
Proof.
  intros Hinj Hlen. set (inner := run (empty_store l) subs) in *. unfold admit_domain_from_journal.
  unfold inner. rewrite (heads_exact l subs owner Hinj). fold inner. cbn [map_err].
  rewrite firstn_all2 by done.
  assert (forall e, e ∈ owner_heads inner owner <->
            effective_spec (accepted_of (empty_store l) subs) e /\ is_head owner e = true) as Hh.
  { intros e. unfold owner_heads. rewrite elem_of_filter_b. unfold ordered_events. rewrite elem_of_sort_by.
    pose proof (store_inv_run [] _ _ (store_inv_empty l) Hinj) as [Hr _].
    fold inner in Hr. rewrite (reduces_spec _ _ Hr); [done|].
    eapply id_injective_sub; [exact Hinj|]. intros x Hx. by eapply accepted_of_submitted. }
  destruct (admit_heads _ _ _ _) as [[claimed es]|] eqn:Ha; [|done].
  apply admit_heads_spec in Ha as (Hc & _ & Hm & _). intros [= <-]. split.
  - destruct claimed; split; try done.
    + intros Hno. exfalso. destruct (proj1 Hc eq_refl) as [|(e & s & He & Hs)]; [done|].
      apply Hh in He as [He1 He2]. by apply (Hno e s He1 He2).
    + intros _ head source He Ho Hs. assert (false = true); [|done].
      apply Hc. right. exists head, source. split; [by apply Hh|done].
  - intros entries head source Hres He Ho Hs. destruct claimed; [|done]. simplify_eq.
    apply Hm; [by apply Hh|done].
Qed.

(** A stream of this node that [principal] may read and that selects one of the
    events [es]. *)
Definition stream_discloses (now : N) (node_label : string) (heads : list Event)
    (principal : PublicKey) (es : list Event) (stream : string) : Prop :=
  (exists grant, grant ∈ heads /\ n_tag grant = Some node_label /\ active grant = true /\
     to_hex principal ∈ p_tags grant /\ d_tag grant = Some ("read/" +:+ stream)) /\
  (exists export content, export ∈ heads /\ n_tag export = Some node_label /\ active export = true /\
     d_tag export = Some ("export/" +:+ stream) /\ from_str (ev_content export) = Ok content /\
     (is_mirror content = true \/
      exists v filters e, filter_json content = Some v /\ filters_from_value v = Ok filters /\
        e ∈ es /\ filters_match filters (StoredEvent.new now e None) = true)).

Lemma granted_streams_sound node principal heads stream :
  stream ∈ granted_streams node principal heads ->
  exists grant, grant ∈ heads /\ n_tag grant = Some node /\ active grant = true /\
    to_hex principal ∈ p_tags grant /\ d_tag grant = Some ("read/" +:+ stream).
Proof.
  unfold granted_streams. intros (g & Hg & Hd)%list_elem_of_omap.
  apply elem_of_filter_b in Hg as [Hg Hp]. apply elem_of_filter_b in Hg as [Hg [Hn Ha]%andb_true_iff].
  exists g. apply bool_decide_eq_true in Hn. apply existsb_elem in Hp as (hex & Hhex & E).
  apply String.eqb_eq in E as ->. split_and!; try done.
  destruct (d_tag g) as [d|]; [|done]. cbn [mbind option_bind] in Hd. by rewrite (strip_prefix_some _ _ _ Hd).
Qed.

Lemma export_head_sound node stream heads e :
  export_head node stream heads = Some e ->
  e ∈ heads /\ n_tag e = Some node /\ active e = true /\ d_tag e = Some ("export/" +:+ stream).
Proof.
  unfold export_head. intros [He [[Hn Ha]%andb_true_iff Hd]%andb_true_iff]%find_elem.
  apply bool_decide_eq_true in Hn. apply bool_decide_eq_true in Hd. done.
Qed.

Lemma streams_select_sound now node heads referencing streams :
  streams_select now node heads referencing streams = Ok true ->
  exists stream export content, stream ∈ streams /\ export_head node stream heads = Some export /\
    from_str (ev_content export) = Ok content /\
    (is_mirror content = true \/
     exists v filters e, filter_json content = Some v /\ filters_from_value v = Ok filters /\
       e ∈ referencing /\ filters_match filters (StoredEvent.new now e None) = true).
Proof.
  induction streams as [|stream streams IH]; cbn [streams_select]; [done|].
  assert (streams_select now node heads referencing streams = Ok true -> 
    exists stream' export content, stream' ∈ stream :: streams /\ export_head node stream' heads = Some export /\
    from_str (ev_content export) = Ok content /\
    (is_mirror content = true \/
     exists v filters e, filter_json content = Some v /\ filters_from_value v = Ok filters /\
       e ∈ referencing /\ filters_match filters (StoredEvent.new now e None) = true)) as Hrest.
  { intros H. destruct (IH H) as (s & ex & c & Hs & ?). exists s, ex, c. split; [by right|done]. }
  destruct (export_head node stream heads) as [export|] eqn:Ee; [|done].
  destruct (from_str (ev_content export)) as [content|] eqn:Ec; [|done]. cbn [map_err].
  destruct (is_mirror content) eqn:Em.
  { intros _. exists stream, export, content. split_and!; try done; [left|by left]. }
  destruct (filter_json content) as [v|] eqn:Ev; [|done].
  destruct (filters_from_value v) as [filters|] eqn:Ef; [|done]. cbn [map_err].
  destruct (existsb _ referencing) eqn:Ex; [|done]. intros _.
  apply existsb_elem in Ex as (e & He & Hf).
  exists stream, export, content. split_and!; try done; [left|]. right. by exists v, filters, e.
Qed.

(** An artifact is disclosed only through a stream.  When a principal may
    fetch a blob, the journal holds an event that references it, the owner's
    current declarations grant that principal an active read of a stream of
    this node, and the stream's active export is a mirror or selects such an
    event. *)
Theorem artifact_fetch_needs_grant (now : N) (inner : StoreInner) (owner : PublicKey)
    (node_label : string) (principal : PublicKey) (sha256 : string) :
  artifact_fetch_allowed now inner owner node_label principal sha256 = Ok true ->
  journal_events_referencing inner sha256 <> [] /\
  exists heads stream,
    (forall e, e ∈ heads -> e ∈ events_of (events inner) /\ is_head owner e = true) /\
    stream_discloses now node_label heads principal (journal_events_referencing inner sha256) stream.
Proof.
  unfold artifact_fetch_allowed.
  destruct (journal_events_referencing inner sha256) as [|r rs] eqn:Er; [done|]. rewrite <-Er.
  destruct (query inner [heads_filter owner]) as [heads|] eqn:Hq; [|done]. cbn [map_err].
  destruct (granted_streams node_label principal heads) as [|s ss] eqn:Eg; [done|]. rewrite <-Eg.
  intros Hsel. apply streams_select_sound in Hsel as (stream & export & content & Hin & Hex & Hc & Hw).
  split; [by rewrite Er|]. exists heads, stream. split; [by intros e; apply heads_sound|]. split.
  - by apply granted_streams_sound.
  - apply export_head_sound in Hex as (? & ? & ? & ?). by exists export, content.
Qed.
End declaration_theory.

(** ** Witnesses *)

Definition demo_head (content d node : string) (at_ : N) (extra : list Tag) : Event :=
  mkEvent content "owner" at_ KIND_SYNC_DECLARATION (["d"; d] :: ["n"; node] :: extra) content "sig".

Definition demo_admit := demo_head "active-admit#1" "admit/peer/all" "here" 10 [["p"; "peerkey"]].
Definition demo_other_node := demo_head "active-admit#2" "admit/peer/all2" "there" 11 [["p"; "peerkey"]].
Definition demo_gone_old := demo_head "active-admit#3" "admit/gone" "here" 10 [["p"; "peerkey"]].
Definition demo_gone := demo_head "revoked-admit#4" "admit/gone" "here" 12 [["p"; "peerkey"]].

Definition demo_declarations : list (AcceptEnv * Event) :=
  (fun e => (demo_env, e)) <$> [demo_gone; demo_admit; demo_other_node; demo_gone_old].

Definition demo_trust : RelayPeerTrust :=
  mkTrust "peer/all" "did:peer" {["peerkey" := "did:peer#nostr-key"]}.

Lemma demo_declarations_injective : id_injective (snd <$> demo_declarations).
Proof. intros e1 e2 H1 H2. simpl in H1, H2. case_members; by vm_compute. Qed.

Lemma demo_declarations_admit :
  admit_domain_from_journal (run (empty_store None) demo_declarations) "owner" "here" =
  Ok (Some [("peer/all", demo_trust)]).
Proof. vm_compute. reflexivity. Qed.

Lemma admitted_by_current_head_witness :
  exists head, effective_spec (accepted_of (empty_store None) demo_declarations) head /\
    d_tag head = Some "admit/peer/all" /\ declares head "peer/all" demo_trust.
Proof.
  destruct (admitted_by_current_head None demo_declarations "owner" "here" [("peer/all", demo_trust)]
              "peer/all" demo_trust demo_declarations_injective demo_declarations_admit)
    as (head & H1 & _ & _ & H2 & _ & H3); [left|].
  exists head. split_and!; [exact H1|exact H2|exact H3].
Defined.

Lemma admit_domain_complete_witness :
  ~ (forall head source, effective_spec (accepted_of (empty_store None) demo_declarations) head ->
       is_head "owner" head = true -> admit_source "here" head <> Some source).
Proof.
  assert (length (owner_heads (run (empty_store None) demo_declarations) "owner") <= DEFAULT_QUERY_LIMIT) as Hlen
    by (apply Nat.leb_le; vm_compute; reflexivity).
  destruct (admit_domain_complete None demo_declarations "owner" "here" (Some [("peer/all", demo_trust)])
              demo_declarations_injective Hlen demo_declarations_admit) as [Hiff _].
  intros Hno. apply Hiff in Hno. discriminate Hno.
Defined.

(** A granted reader of a mirrored stream. *)
Definition demo_artifact_store : StoreInner :=
  run (empty_store None) ((fun e => (demo_env, e)) <$>
    [demo_event "file" "alice" 5 1 [["x"; "hash"]];
     demo_head "{}#r" "read/s" "here" 10 [["p"; "reader"]];
     demo_head "mirror-export#e" "export/s" "here" 10 []]).

Lemma artifact_fetch_needs_grant_witness :
  artifact_fetch_allowed 100 demo_artifact_store "owner" "here" "reader" "hash" = Ok true /\
  journal_events_referencing demo_artifact_store "hash" <> [].
Proof.
  split; [vm_compute; reflexivity|].
  apply (artifact_fetch_needs_grant 100 demo_artifact_store "owner" "here" "reader" "hash").
  vm_compute. reflexivity.
Defined.

(** The heads are read with the store's default limit: an owner with more
    effective declarations than that loses the oldest ones, here the only
    [admit] head, and the domain reads as unclaimed. *)
Definition demo_many_heads : StoreInner :=
  let heads := (fun i => demo_head ("{}#" +:+ u64_to_string (N.of_nat i))
                           ("export/" +:+ u64_to_string (N.of_nat i)) "here" 20 []) <$> seq 0 500 in
  mkStoreInner (stored_event 100 <$> (demo_admit :: heads)) [] ∅ None.

Example many_declarations_hide_admit :
  admit_domain_from_journal demo_many_heads "owner" "here" = Ok None.
Proof. vm_compute. reflexivity. Qed.

(** A status that is not a string confers trust like an active one. *)
Example malformed_status_confers :
  active (demo_head "numeric-status" "read/s" "here" 10 []) = true /\
  active (demo_head "not json" "read/s" "here" 10 []) = true.
Proof. split; vm_compute; reflexivity. Qed.
