(* ===== verification/Relay.v ===== *)
(** * The local relay

    [LocalRelay] of [buzz-local-relay/src/lib.rs]: submission of events, the
    relay-signed projections of group commands, Beacon pulses and the responses
    to them, authorization of reads and writes, and the replication sink.
    Handlers pass the relay's state explicitly; one request reads the clock
    once, and [live] is what was sent on the broadcast channel, in order. *)

From S2P Require Import Prelude Text Nostr Demo Kinds Ingest FilterMatch Store StoreTheory Replication.
From S2P Require Import Auth Identity.



Definition EVENT_CHANNEL_CAPACITY : nat := 1024.
Definition PULSE_ADAPTER_ID : string := "portable-relay-laptop-v0.1".
Definition PULSE_ROLE_SOVEREIGN : string := "sovereign".
Definition DEFAULT_RECOGNITION_WINDOW_SECS : N := 300.
Definition BEACON_STANCES : list string :=
  ["recognize"; "advanced"; "conflict"; "diverged"; "unsatisfied"].

(** ** Replication policies *)

Definition ReplicationPolicy := ReplicationSourceId -> Event -> result string unit.

Definition ReplicationSourceAllowlist (sources : gset ReplicationSourceId) : ReplicationPolicy :=
  fun source _ =>
    if bool_decide (source ∈ sources) then Ok tt
    else Err ("replication source denied: " +:+ source).

Definition ReplicationDisabled : ReplicationPolicy := fun _ _ => Err "replication is disabled".

(** ** Live sessions *)

Module ActiveSessions.
Definition t := gmap PublicKey nat.

(** A lease is the public key it was taken for. *)
Definition enter (counts : t) (pubkey : PublicKey) : t :=
  <[pubkey := S (default 0 (counts !! pubkey))]> counts.

(** [Drop for SessionLease] *)
Definition drop (counts : t) (pubkey : PublicKey) : t :=
  match counts !! pubkey with
  | None => counts
  | Some count =>
      if (count - 1 =? 0)%nat then delete pubkey counts
      else <[pubkey := count - 1]> counts
  end.

Definition snapshot (counts : t) : nat * list string :=
  (foldr (fun kv n => kv.2 + n) 0 (map_to_list counts),
   sort_by str_leb ((fun kv => to_hex kv.1) <$> map_to_list counts)).
End ActiveSessions.

(** ** State *)

Record BeaconRound := mkRound {
  br_pulse_id : string;
  br_head : string;
  br_created_at : N;
  br_responses : gmap string string;
}.

(** [json!({..})] of a pulse. *)
Record PulseContent := mkPulse {
  pc_label : string;
  pc_adapter : string;
  pc_sequence : nat;
  pc_head : option string;
  pc_previous : option string;
  pc_agreements : gmap string string;
  pc_peers : string;
  pc_sessions : option (nat * list string);
  pc_recognition : option (string * string * gmap string string * N);
}.

(** Signing, tag construction and JSON printing of the [nostr], [uuid] and
    [serde_json] crates. *)
Class SigningLib := {
  Keys : Type;
  public_key : Keys -> PublicKey;
  (** [EventBuilder::new(kind, content).tags(tags).custom_created_at(at).sign_with_keys(keys)] *)
  sign_with_keys : Keys -> N -> N -> list Tag -> string -> result string Event;
  Tag_parse : list string -> result string Tag;
  Uuid_error : string -> string;
  pulse_to_string : PulseContent -> string;
}.

(** A signed event carries what the builder was given, by the key's author. *)
Class SigningLaws (NL : NostrLib) (SL : SigningLib) := {
  sign_ok : forall keys at_ kind tags content e,
    sign_with_keys keys at_ kind tags content = Ok e ->
    verify_event e = Ok tt /\ ev_pubkey e = public_key keys /\ ev_created_at e = at_ /\
    ev_kind e = kind /\ ev_tags e = tags /\ ev_content e = content;
}.

Record CurrentPulse := mkCurrentPulse { cp_event : Event; cp_head : option string }.

(** The artifact directory is the map from file name to contents. *)
Record LocalRelay `{SL : SigningLib} := mkRelay {
  relay_store : StoreInner;
  live : list Event;
  replication_policy : ReplicationPolicy;
  identity : option LocalIdentityAdapter;
  artifacts_dir : option (gmap string string);
  governance : option (PublicKey * string);
  relay_keys : option Keys;
  active_sessions : ActiveSessions.t;
  beacon_rounds : list BeaconRound;
}.

(** What a request observes: the clock, the outcome of its calls to [accept],
    and of its write to the proof file. *)
Record RelayEnv := mkRelayEnv {
  re_now : N;
  re_accept : nat -> AcceptEnv;
  re_proof : WriteOutcome;
}.

Inductive Nip29ProjectionError :=
| InvalidCommand (reason : string)
| Signing (reason : string).

Inductive ReplicationSinkError :=
| SinkIdentity (error : LocalIdentityError)
| SinkStore (error : StoreError)
| UnexpectedAcceptedOutcome (other : string).

Definition sink_error_to_string (e : ReplicationSinkError) : string :=
  match e with
  | SinkIdentity error => identity_error_to_string error
  | SinkStore error => store_error_to_string error
  | UnexpectedAcceptedOutcome other => "unexpected accepted relay outcome: " +:+ other
  end.

Inductive ApiError :=
| ApiIdentity (error : LocalIdentityError)
| BadRequest (reason : string)
| NotFound (reason : string)
| ApiStore (error : StoreError)
| ApiQuery (error : QueryError).

Definition api_error_to_string (e : ApiError) : string :=
  match e with
  | ApiIdentity error => identity_error_to_string error
  | BadRequest reason | NotFound reason => reason
  | ApiStore error => store_error_to_string error
  | ApiQuery error => query_error_to_string error
  end.

Definition event_tag_value (e : Event) (name : string) : option string :=
  find_map (fun t => if bool_decide (t !! 0 = Some name) then t !! 1 else None) (ev_tags e).

Definition required_tag (e : Event) (name : string) : result Nip29ProjectionError string :=
  ok_or (event_tag_value e name) (InvalidCommand ("missing required " +:+ name +:+ " tag")).

Definition is_lower_hex_event_id (value : string) : bool :=
  (String.length value =? 64)%nat && str_forallb is_lower_hex_char value.

Definition principal_pubkey (p : AuthenticatedPrincipal) : option PublicKey :=
  match ap_principal p with P_Nostr pubkey => Some pubkey | _ => None end.

Definition decision_result (d : AuthorizationDecision) : result LocalIdentityError unit :=
  match d with Allowed => Ok tt | DecisionDenied code => Err (Denied code) end.

Definition identity_error_token (e : LocalIdentityError) : string :=
  default "identity_internal_error" (code_as_str <$> denial_code e).

(** [IntoResponse for ApiError]: the HTTP status. *)
Definition api_status (e : ApiError) : N :=
  match e with
  | ApiIdentity (Denied code) =>
      match code with
      | AuthenticationRequired | InvalidEvidence | EvidenceExpired | AudienceMismatch | ReplayDetected => 401
      | AuthorMismatch | DelegationInvalid | PeerUnbound | SourceMismatch | ScopeDenied
      | EventDisclosureDenied => 403
      end
  | ApiIdentity (Internal _) => 500
  | BadRequest _ => 400
  | NotFound _ => 404
  | ApiStore _ => 500
  | ApiQuery _ => 400
  end.

Section relay.
Context `{NL : NostrLib, SJ : SerdeJson, UL : UrlLib, SL : SigningLib}.

Definition with_store (r : LocalRelay) (s : StoreInner) : LocalRelay :=
  mkRelay SL s (live r) (replication_policy r) (identity r) (artifacts_dir r) (governance r)
    (relay_keys r) (active_sessions r) (beacon_rounds r).
Definition send_live (r : LocalRelay) (e : Event) : LocalRelay :=
  mkRelay SL (relay_store r) (live r ++ [e]) (replication_policy r) (identity r) (artifacts_dir r)
    (governance r) (relay_keys r) (active_sessions r) (beacon_rounds r).
Definition with_rounds (r : LocalRelay) (rounds : list BeaconRound) : LocalRelay :=
  mkRelay SL (relay_store r) (live r) (replication_policy r) (identity r) (artifacts_dir r)
    (governance r) (relay_keys r) (active_sessions r) rounds.
Definition with_identity (r : LocalRelay) (a : LocalIdentityAdapter) : LocalRelay :=
  mkRelay SL (relay_store r) (live r) (replication_policy r) (Some a) (artifacts_dir r)
    (governance r) (relay_keys r) (active_sessions r) (beacon_rounds r).
Definition with_sessions (r : LocalRelay) (s : ActiveSessions.t) : LocalRelay :=
  mkRelay SL (relay_store r) (live r) (replication_policy r) (identity r) (artifacts_dir r)
    (governance r) (relay_keys r) s (beacon_rounds r).
Definition with_artifacts (r : LocalRelay) (d : gmap string string) : LocalRelay :=
  mkRelay SL (relay_store r) (live r) (replication_policy r) (identity r) (Some d)
    (governance r) (relay_keys r) (active_sessions r) (beacon_rounds r).

Definition open_governed_with_keys (s : StoreInner) (policy : ReplicationPolicy)
    (id : option LocalIdentityAdapter) (artifacts : option (gmap string string))
    (gov : option (PublicKey * string)) (keys : option Keys) : LocalRelay :=
  mkRelay SL s [] policy id artifacts gov keys ∅ [].

(** *** Group projections *)

Definition parse_tag (values : list string) : result Nip29ProjectionError Tag :=
  map_err InvalidCommand (Tag_parse values).

(** [if let Some(v) = event_tag_value(..).filter(|v| !v.is_empty()) { push(parse_tag([name, v])?) }] *)
Definition optional_tag (e : Event) (name : string) : result Nip29ProjectionError (list Tag) :=
  match event_tag_value e name with
  | Some value => if String.eqb value EmptyString then Ok [] else
      let? t := parse_tag [name; value] in Ok [t]
  | None => Ok []
  end.

Definition project_group_create (r : LocalRelay) (e : Event) : result Nip29ProjectionError (list Event) :=
  match relay_keys r with
  | None => Ok []
  | Some keys =>
      let? group_id := required_tag e "h" in
      match Uuid_parse group_id with
      | None => Err (InvalidCommand ("invalid h tag UUID: " +:+ Uuid_error group_id))
      | Some _ =>
          let? name := required_tag e "name" in
          if Lines.trim_is_empty name then Err (InvalidCommand "name tag cannot be empty")
          else
            let visibility := default "open" (event_tag_value e "visibility") in
            if negb (String.eqb visibility "open" || String.eqb visibility "private") then
              Err (InvalidCommand ("unsupported visibility " +:+ debug_str visibility))
            else
              let channel_type := default "stream" (event_tag_value e "channel_type") in
              if negb (String.eqb channel_type "stream" || String.eqb channel_type "forum"
                       || String.eqb channel_type "dm") then
                Err (InvalidCommand ("unsupported channel_type " +:+ debug_str channel_type))
              else
                let? t1 := parse_tag ["d"; group_id] in
                let? t2 := parse_tag ["name"; name] in
                let? about := optional_tag e "about" in
                let? t3 := parse_tag [if String.eqb visibility "private" then "private" else "public"] in
                let? t4 := parse_tag ["closed"] in
                let? t5 := parse_tag ["t"; channel_type] in
                let? ttl := optional_tag e "ttl" in
                let metadata := [t1; t2] ++ about ++ [t3; t4; t5] ++ ttl in
                let creator := to_hex (ev_pubkey e) in
                let? a1 := parse_tag ["d"; group_id] in
                let? a2 := parse_tag ["p"; creator; "owner"] in
                let? m1 := parse_tag ["d"; group_id] in
                let? m2 := parse_tag ["p"; creator; ""; "owner"] in
                map_res (fun kt => map_err Signing (sign_with_keys keys (ev_created_at e) kt.1 kt.2 ""))
                  [(KIND_NIP29_GROUP_METADATA, metadata);
                   (KIND_NIP29_GROUP_ADMINS, [a1; a2]);
                   (KIND_NIP29_GROUP_MEMBERS, [m1; m2])]
      end
  end.

(** [i] counts the calls to [accept] made so far. *)
Fixpoint publish_projected_events (env : RelayEnv) (i : nat) (r : LocalRelay) (projected : list Event)
    : LocalRelay * result StoreError unit :=
  match projected with
  | [] => (r, Ok tt)
  | e :: rest =>
      match accept (re_accept env i) (relay_store r) e with
      | (s, Err error) => (with_store r s, Err error)
      | (s, Ok res) =>
          let r := with_store r s in
          let r := if WriteResult.publish_live res then send_live r e else r in
          publish_projected_events env (S i) r rest
      end
  end.

Fixpoint materialize_all (env : RelayEnv) (i : nat) (r : LocalRelay) (creates : list Event)
    : LocalRelay * result StoreError unit :=
  match creates with
  | [] => (r, Ok tt)
  | create :: rest =>
      match project_group_create r create with
      | Err (InvalidCommand _) => materialize_all env i r rest
      | Err (Signing reason) => (r, Err (Materialization reason))
      | Ok projected =>
          match publish_projected_events env i r projected with
          | (r, Err error) => (r, Err error)
          | (r, Ok _) => materialize_all env (i + length projected) r rest
          end
      end
  end.

Definition create_filter : Filter :=
  mkFilter None None (Some [KIND_NIP29_CREATE_GROUP]) None None None None [].

Definition materialize_existing_nip29_state (env : RelayEnv) (r : LocalRelay)
    : LocalRelay * result StoreError unit :=
  match relay_keys r with
  | None => (r, Ok tt)
  | Some _ =>
      match query (relay_store r) [create_filter] with
      | Err error => (r, Err (Materialization (query_error_to_string error)))
      | Ok creates => materialize_all env 0 r creates
      end
  end.

(** *** Beacon *)

Definition non_empty_str (observed : Value) (field : string) : bool :=
  match (v ← get observed field; as_str v) with
  | Some value => negb (String.eqb value EmptyString)
  | None => false
  end.

Definition valid_beacon_observed (stance : string) (observed : Value) : bool :=
  if String.eqb stance "recognize" then true
  else if String.eqb stance "advanced" then
    bool_decide (is_Some (v ← get observed "since"; as_u64 v))
  else if String.eqb stance "conflict" then non_empty_str observed "claim" && non_empty_str observed "mine"
  else if String.eqb stance "diverged" then
    match (v ← get observed "measure"; as_str v) with
    | Some measure => (String.eqb measure "head-unknown" || String.eqb measure "agreements")
    | None => false
    end && non_empty_str observed "detail"
  else if String.eqb stance "unsatisfied" then
    non_empty_str observed "agreement" && non_empty_str observed "reason"
  else false.

(** The checks of a response's content against the head of its round; the
    stance when it passes. *)
Definition response_stance (head : string) (content : string) : option string :=
  match from_str content with
  | Err _ => None
  | Ok content =>
      if negb (is_object content) then None
      else
        stance ← (v ← get content "stance"; as_str v);
        if negb (bool_decide (stance ∈ BEACON_STANCES))
           || negb (bool_decide ((v ← get content "head"; as_str v) = Some head)) then None
        else
          mine ← get content "mine";
          if negb (is_object mine) then None
          else if negb (bool_decide (is_Some (v ← get mine "sequence"; as_u64 v)))
             || negb (match get mine "head" with
                      | Some h => is_null h
                                  || match as_str h with Some s => is_lower_hex_event_id s | None => false end
                      | None => false
                      end)
             || negb (match get content "observed" with
                      | Some observed => is_object observed && valid_beacon_observed stance observed
                      | None => false
                      end)
          then None
          else Some stance
  end.

(** The update of the first round whose pulse a response names. *)
Definition record_beacon_response (now : N) (r : LocalRelay) (e : Event) : LocalRelay * bool :=
  match relay_keys r with
  | None => (r, false)
  | Some keys =>
      match event_tag_value e "e" with
      | None => (r, false)
      | Some pulse_id =>
          match position (fun round => String.eqb (br_pulse_id round) pulse_id) (beacon_rounds r) with
          | None => (r, false)
          | Some i =>
              match beacon_rounds r !! i with
              | None => (r, false)
              | Some round =>
                  let witness_pubkey := to_hex (public_key keys) in
                  let created_at := ev_created_at e in
                  let window := u64_saturating_add (br_created_at round) DEFAULT_RECOGNITION_WINDOW_SECS in
                  if (created_at <? br_created_at round)%N || (window <? created_at)%N || (window <? now)%N
                     || negb (bool_decide (event_tag_value e "p" = Some witness_pubkey))
                  then (r, false)
                  else
                    match response_stance (br_head round) (ev_content e) with
                    | None => (r, false)
                    | Some stance =>
                        (with_rounds r
                           (<[i := mkRound (br_pulse_id round) (br_head round) (br_created_at round)
                                     (<[to_hex (ev_pubkey e) := stance]> (br_responses round))]>
                              (beacon_rounds r)), true)
                    end
              end
          end
      end
  end.

Definition pulse_recognition (now : N) (r : LocalRelay) (head : option string)
    : option (string * string * gmap string string * N) :=
  head ← head;
  round ← find (fun round =>
      String.eqb (br_head round) head
      && (now <=? u64_saturating_add (br_created_at round) DEFAULT_RECOGNITION_WINDOW_SECS)%N
      && negb (bool_decide (br_responses round = ∅))) (rev (beacon_rounds r));
  Some (br_head round, br_pulse_id round, br_responses round, DEFAULT_RECOGNITION_WINDOW_SECS).

Definition register_pulse (r : LocalRelay) (p : CurrentPulse) : LocalRelay :=
  let cutoff := u64_saturating_sub (ev_created_at (cp_event p)) DEFAULT_RECOGNITION_WINDOW_SECS in
  let rounds := List.filter (fun round => (cutoff <=? br_created_at round)%N) (beacon_rounds r) in
  with_rounds r
    (match cp_head p with
     | Some head => rounds ++ [mkRound (to_hex (ev_id (cp_event p))) head (ev_created_at (cp_event p)) ∅]
     | None => rounds
     end).

(** The loop over effective events: the agreement heads of this node, and
    whether one of them admits a source. *)
Definition agreements_step (owner : PublicKey) (node_label : string)
    (acc : gmap string string * bool) (s : StoredEvent.t) : gmap string string * bool :=
  let e := StoredEvent.event s in
  if negb (event_kind_u32 e =? KIND_SYNC_DECLARATION)%N || negb (String.eqb (ev_pubkey e) owner) then acc
  else
    match event_tag_value e "d" with
    | None => acc
    | Some d_tag =>
        if negb (bool_decide (event_tag_value e "n" = Some node_label)) then acc
        else (<[d_tag := to_hex (ev_id e)]> acc.1, acc.2 || starts_with d_tag "admit/")
    end.

Definition agreements_of (r : LocalRelay) : gmap string string * bool :=
  match governance r with
  | Some (owner, node_label) => foldl (agreements_step owner node_label) (∅, false) (events (relay_store r))
  | None => (∅, false)
  end.

Definition pulse_content (now : N) (r : LocalRelay) : PulseContent :=
  let j := journal (relay_store r) in
  let sequence := length j in
  let head := (fun e => to_hex (ev_id e)) <$> last j in
  let previous := (fun e => to_hex (ev_id e)) <$>
    (if (2 <=? sequence)%nat then j !! (sequence - 2) else None) in
  let '(agreements, admit_claimed) := agreements_of r in
  let label := match governance r with Some (_, label) => label | None => EmptyString end in
  mkPulse label PULSE_ADAPTER_ID sequence head previous agreements
    (if (admit_claimed : bool) then "journal" else "bootstrap")
    (match identity r with Some _ => Some (ActiveSessions.snapshot (active_sessions r)) | None => None end)
    (pulse_recognition now r head).

Definition current_pulse (now : N) (r : LocalRelay) : option CurrentPulse :=
  keys ← relay_keys r;
  let content := pulse_content now r in
  n_tags ← (if String.eqb (pc_label content) EmptyString then Some []
            else t ← res_ok (Tag_parse ["n"; pc_label content]); Some [t]);
  role ← res_ok (Tag_parse ["role"; PULSE_ROLE_SOVEREIGN]);
  e ← res_ok (sign_with_keys keys now KIND_BEACON_PULSE (n_tags ++ [role]) (pulse_to_string content));
  Some (mkCurrentPulse e (pc_head content)).

Definition pulse_visible_to (r : LocalRelay) (principal : option AuthenticatedPrincipal) : bool :=
  match identity r with
  | None => true
  | Some adapter =>
      match principal ≫= principal_pubkey with
      | None => false
      | Some pubkey =>
          match governance r with
          | Some (owner, _) => String.eqb owner pubkey
          | None => false
          end || is_admitted_verification_key adapter pubkey
      end
  end.

(** *** Submission *)

Definition publish_pulse (now : N) (r : LocalRelay) : LocalRelay :=
  match current_pulse now r with
  | Some pulse => send_live (register_pulse r pulse) (cp_event pulse)
  | None => r
  end.

Definition submit_from (env : RelayEnv) (r : LocalRelay) (e : Event)
    (principal : option AuthenticatedPrincipal) : LocalRelay * result StoreError WriteResult.t :=
  let is_beacon_response := (event_kind_u32 e =? KIND_BEACON_RESPONSE)%N in
  if is_beacon_response && bool_decide (is_Some (identity r)) && negb (pulse_visible_to r principal) then
    (r, Ok (WriteResult.reject e "invalid: responder lacks Beacon standing"))
  else
    match (if (event_kind_u32 e =? KIND_NIP29_CREATE_GROUP)%N then project_group_create r e else Ok []) with
    | Err (InvalidCommand reason) => (r, Ok (WriteResult.reject e reason))
    | Err (Signing reason) => (r, Err (Materialization reason))
    | Ok projected =>
        match accept (re_accept env 0) (relay_store r) e with
        | (s, Err error) => (with_store r s, Err error)
        | (s, Ok result) =>
            let r := with_store r s in
            let '(r, refused) :=
              if is_beacon_response && WriteResult.accepted result
                 && String.eqb (WriteResult.message result) "ephemeral"
              then let '(r, recorded) := record_beacon_response (re_now env) r e in (r, negb recorded)
              else (r, false) in
            if (refused : bool) then
              (r, Ok (WriteResult.reject e "invalid: response does not answer the active Beacon pulse"))
            else if WriteResult.publish_live result then
              match publish_projected_events env 1 (send_live r e) projected with
              | (r, Err error) => (r, Err error)
              | (r, Ok _) =>
                  (if String.eqb (WriteResult.message result) "stored" then publish_pulse (re_now env) r else r,
                   Ok result)
              end
            else (r, Ok result)
        end
    end.

Definition submit (env : RelayEnv) (r : LocalRelay) (e : Event) := submit_from env r e None.
End relay.
