(* ===== verification/RelayApi.v ===== *)
(** * Reads, replication and HTTP handlers of the local relay

    The rest of [LocalRelay] and the HTTP surface of
    [buzz-local-relay/src/lib.rs]: authorization, queries with disclosure
    policy, the replication sink and its batch endpoint, and the artifact
    store.  Decoders of request bodies are the class [HttpLib]. *)

From S2P Require Import Prelude Text Nostr Demo Kinds Ingest FilterMatch Store StoreTheory Replication.
From S2P Require Import Auth Identity Declarations Relay.

Class HttpLib `{SJ : SerdeJson} := {
  base64_decode : string -> option string;
  valid_utf8 : string -> bool;
  (** [serde_json::from_slice] into [Vec<ReplicationRecord>] and [Vec<Value>] *)
  records_from_slice : string -> result string (list ReplicationRecord);
  values_from_slice : string -> result string (list Value);
  (** [serde_json::from_value(Value::Array(values))] into [Vec<Filter>] *)
  filters_from_values : list Value -> result string (list Filter);
  (** the keys of [Value::as_object] *)
  object_keys : Value -> option (list string);
}.

(** The headers a handler reads, as valid text. *)
Record Headers := mkHeaders { h_host : option string; h_authorization : option string }.

Definition SUPPORTED_FILTER_FIELDS : list string :=
  ["ids"; "authors"; "kinds"; "since"; "until"; "limit"; "search"].
Definition SUPPORTED_QUERY_FILTER_FIELDS : list string :=
  ["ids"; "authors"; "kinds"; "since"; "until"; "limit"; "search"; "before_id"].
Definition MAX_ARTIFACT_BYTES : N := 16777216.

Section reads.
Context `{NL : NostrLib, SJ : SerdeJson, UL : UrlLib, SL : SigningLib}.

Definition relay_authorize_direct (r : LocalRelay) (principal : option AuthenticatedPrincipal) (e : Event)
    : result LocalIdentityError unit :=
  match identity r with
  | None => Ok tt
  | Some adapter =>
      let? p := ok_or principal (Denied AuthenticationRequired) in
      decision_result (authorize_direct adapter p e)
  end.

Definition relay_authorize_query (r : LocalRelay) (principal : option AuthenticatedPrincipal)
    (op : ReadOperation) (filters : list Filter) : result LocalIdentityError unit :=
  match identity r with
  | None => Ok tt
  | Some adapter =>
      let? p := ok_or principal (Denied AuthenticationRequired) in
      decision_result (authorize_local_query adapter p op filters)
  end.

Definition event_is_visible (r : LocalRelay) (principal : option AuthenticatedPrincipal)
    (op : ReadOperation) (e : Event) : bool :=
  match identity r, principal with
  | None, _ => true
  | Some adapter, Some p => is_allowed (authorize_local_event adapter p op e)
  | Some _, None => false
  end.

(** The filters that name the pulse kind. *)
Definition names_pulse (f : Filter) : bool :=
  match f_kinds f with Some kinds => kind_in KIND_BEACON_PULSE kinds | None => false end.

Definition query_for_cursors (now : N) (r : LocalRelay) (principal : option AuthenticatedPrincipal)
    (op : ReadOperation) (cursor_filters : list CursorFilter) : LocalRelay * result ApiError (list Event) :=
  let filters := cf_filter <$> cursor_filters in
  match relay_authorize_query r principal op filters with
  | Err error => (r, Err (ApiIdentity error))
  | Ok _ =>
      match query_with_cursors (relay_store r) cursor_filters with
      | Err error => (r, Err (ApiQuery error))
      | Ok events =>
          let events := List.filter (event_is_visible r principal op) events in
          let pulse_filters := List.filter names_pulse filters in
          if negb (bool_decide (pulse_filters = [])) && pulse_visible_to r principal then
            match current_pulse now r with
            | Some pulse =>
                if filters_match pulse_filters (stored_event now (cp_event pulse))
                then (register_pulse r pulse, Ok (cp_event pulse :: events))
                else (r, Ok events)
            | None => (r, Ok events)
            end
          else (r, Ok events)
      end
  end.

Definition query_for (now : N) (r : LocalRelay) (principal : option AuthenticatedPrincipal)
    (op : ReadOperation) (filters : list Filter) : LocalRelay * result ApiError (list Event) :=
  query_for_cursors now r principal op ((fun f => mkCursorFilter f None) <$> filters).

Definition count_for (r : LocalRelay) (principal : option AuthenticatedPrincipal) (filters : list Filter)
    : result ApiError nat :=
  let? _ := map_err ApiIdentity (relay_authorize_query r principal RO_Count filters) in
  let? _ := map_err ApiQuery (validate_filters filters) in
  match filters with
  | [] => Ok 0
  | _ =>
      Ok (length (List.filter (fun s => event_is_visible r principal RO_Count (StoredEvent.event s))
                   (List.filter (filters_match filters) (events (relay_store r)))))
  end.

(** ** The replication sink *)

Definition ingest_replication (env : RelayEnv) (r : LocalRelay) (record : ReplicationRecord)
    : LocalRelay * result ReplicationSinkError ReplicationReceipt :=
  let e := rr_event record in
  let receipt outcome := mkReceipt (rr_source record) (rr_cursor record) (to_hex (ev_id e)) outcome in
  match replication_policy r (rr_source record) e with
  | Err reason => (r, Ok (receipt (OutcomeRejected reason)))
  | Ok _ =>
      if is_ephemeral_kind (ev_kind e) then
        (r, Ok (receipt (OutcomeRejected "ephemeral events are not part of durable replication")))
      else if (ev_kind e =? KIND_AUTH)%N || (ev_kind e =? KIND_HTTP_AUTH)%N then
        (r, Ok (receipt (OutcomeRejected "authentication events are never journaled")))
      else
        match submit env r e with
        | (r, Err error) => (r, Err (SinkStore error))
        | (r, Ok result) =>
            if negb (WriteResult.accepted result)
            then (r, Ok (receipt (OutcomeRejected (WriteResult.message result))))
            else if String.eqb (WriteResult.message result) "stored" then (r, Ok (receipt OutcomeStored))
            else if String.eqb (WriteResult.message result) "duplicate" then (r, Ok (receipt OutcomeDuplicate))
            else if String.eqb (WriteResult.message result) "superseded" then (r, Ok (receipt OutcomeSuperseded))
            else (r, Err (UnexpectedAcceptedOutcome (WriteResult.message result)))
        end
  end.

Definition ingest_replication_from_peer (env : RelayEnv) (r : LocalRelay) (evidence : LocalPeerEvidence)
    (audience : string) (record : ReplicationRecord)
    : LocalRelay * result ReplicationSinkError ReplicationReceipt :=
  match identity r with
  | None => (r, Err (SinkIdentity (Denied AuthenticationRequired)))
  | Some adapter =>
      match authenticate_peer_at (re_proof env) adapter evidence audience (rr_source record) (re_now env) with
      | (adapter, Err error) => (with_identity r adapter, Err (SinkIdentity error))
      | (adapter, Ok binding) =>
          let r := with_identity r adapter in
          if negb (String.eqb (pb_source binding) (rr_source record))
          then (r, Err (SinkIdentity (Denied SourceMismatch)))
          else ingest_replication env r record
      end
  end.
End reads.

(** ** HTTP handlers *)

Section http.
Context `{NL : NostrLib, SJ : SerdeJson, UL : UrlLib, SL : SigningLib, HL : !HttpLib}.

Definition authenticate_http_method (env : RelayEnv) (r : LocalRelay) (headers : Headers)
    (method path body : string) : LocalRelay * result ApiError (option AuthenticatedPrincipal) :=
  match identity r with
  | None => (r, Ok None)
  | Some adapter =>
      match h_host headers with
      | None | Some EmptyString => (r, Err (ApiIdentity (Denied AudienceMismatch)))
      | Some host =>
          let audience := "http://" +:+ host +:+ path in
          match h_authorization headers ≫= strip_prefix "Nostr " with
          | None => (r, Err (ApiIdentity (Denied AuthenticationRequired)))
          | Some encoded =>
              match base64_decode encoded with
              | None => (r, Err (ApiIdentity (Denied InvalidEvidence)))
              | Some decoded =>
                  if negb (valid_utf8 decoded) then (r, Err (ApiIdentity (Denied InvalidEvidence)))
                  else
                    match authenticate_at (re_proof env) adapter (LAE_Nip98 decoded method body)
                            audience (re_now env) with
                    | (adapter, Err error) => (with_identity r adapter, Err (ApiIdentity error))
                    | (adapter, Ok principal) => (with_identity r adapter, Ok (Some principal))
                    end
              end
          end
      end
  end.

Definition authenticate_http (env : RelayEnv) (r : LocalRelay) (headers : Headers) (path body : string) :=
  authenticate_http_method env r headers "POST" path body.

Fixpoint validate_filter_fields (filters : list Value) (supported_fields : list string)
    : result QueryError unit :=
  match filters with
  | [] => Ok tt
  | filter :: rest =>
      match object_keys filter with
      | None => validate_filter_fields rest supported_fields
      | Some keys =>
          match find (fun field => negb (starts_with field "#")
                                   && negb (bool_decide (field ∈ supported_fields))) keys with
          | Some field => Err (UnsupportedFilterField field)
          | None => validate_filter_fields rest supported_fields
          end
      end
  end.

Definition invalid_filter_json (error : string) : ApiError := BadRequest ("invalid filter JSON: " +:+ error).

Definition parse_filter_body (body : string) : result ApiError (list Filter) :=
  let? values := map_err invalid_filter_json (values_from_slice body) in
  let? _ := map_err ApiQuery (validate_filter_fields values SUPPORTED_FILTER_FIELDS) in
  map_err invalid_filter_json (filters_from_values values).

Definition cursor_filter (fv : Filter * Value) : result ApiError CursorFilter :=
  let '(f, value) := fv in
  let bad := BadRequest "before_id must be a 64-hex event id" in
  let? before_id :=
    match get value "before_id" with
    | None => Ok None
    | Some v =>
        let? raw := ok_or (as_str v) bad in
        let? id := ok_or (EventId_from_hex raw) bad in
        Ok (Some id)
    end in
  if bool_decide (is_Some before_id) && negb (bool_decide (is_Some (f_until f)))
  then Err (BadRequest "before_id requires until to be set")
  else Ok (mkCursorFilter f before_id).

Definition parse_query_filter_body (body : string) : result ApiError (list CursorFilter) :=
  let? values := map_err invalid_filter_json (values_from_slice body) in
  let? _ := map_err ApiQuery (validate_filter_fields values SUPPORTED_QUERY_FILTER_FIELDS) in
  let? filters := map_err invalid_filter_json (filters_from_values values) in
  map_res cursor_filter (zip filters values).

Definition submit_event (env : RelayEnv) (r : LocalRelay) (headers : Headers) (body : string)
    : LocalRelay * result ApiError WriteResult.t :=
  match authenticate_http env r headers "/events" body with
  | (r, Err error) => (r, Err error)
  | (r, Ok principal) =>
      match event_from_str body with
      | Err error => (r, Err (BadRequest ("invalid event JSON: " +:+ error)))
      | Ok e =>
          match relay_authorize_direct r principal e with
          | Err error => (r, Err (ApiIdentity error))
          | Ok _ =>
              let '(r, res) := submit_from env r e principal in (r, map_err ApiStore res)
          end
      end
  end.

Definition query_events (env : RelayEnv) (r : LocalRelay) (headers : Headers) (body : string)
    : LocalRelay * result ApiError (list Event) :=
  match authenticate_http env r headers "/query" body with
  | (r, Err error) => (r, Err error)
  | (r, Ok principal) =>
      match parse_query_filter_body body with
      | Err error => (r, Err error)
      | Ok filters => query_for_cursors (re_now env) r principal RO_Query filters
      end
  end.

Definition count_events (env : RelayEnv) (r : LocalRelay) (headers : Headers) (body : string)
    : LocalRelay * result ApiError nat :=
  match authenticate_http env r headers "/count" body with
  | (r, Err error) => (r, Err error)
  | (r, Ok principal) =>
      match parse_filter_body body with
      | Err error => (r, Err error)
      | Ok filters => (r, count_for r principal filters)
      end
  end.

Definition sink_error (error : ReplicationSinkError) : ApiError :=
  match error with
  | SinkIdentity e => ApiIdentity e
  | SinkStore e => ApiStore e
  | other => BadRequest (sink_error_to_string other)
  end.

(** The loop over the records of a batch; [envs i] is what record [i] observes. *)
Fixpoint ingest_batch (envs : nat -> RelayEnv) (i : nat) (r : LocalRelay) (source : ReplicationSourceId)
    (records : list ReplicationRecord) (receipts : list ReplicationReceipt)
    : LocalRelay * result ApiError (list ReplicationReceipt) :=
  match records with
  | [] => (r, Ok receipts)
  | record :: rest =>
      if negb (String.eqb (rr_source record) source) then
        (r, Ok (receipts ++ [mkReceipt (rr_source record) (rr_cursor record) (to_hex (ev_id (rr_event record)))
                 (OutcomeRejected "record source does not match the authenticated batch")]))
      else
        match ingest_replication (envs i) r record with
        | (r, Err error) => (r, Err (sink_error error))
        | (r, Ok receipt) =>
            if negb (checkpoint_safe receipt) then (r, Ok (receipts ++ [receipt]))
            else ingest_batch envs (S i) r source rest (receipts ++ [receipt])
        end
  end.

Definition replication_ingest (env : RelayEnv) (envs : nat -> RelayEnv) (r : LocalRelay)
    (headers : Headers) (body : string) : LocalRelay * result ApiError (list ReplicationReceipt) :=
  match identity r with
  | None => (r, Err (ApiIdentity (Denied AuthenticationRequired)))
  | Some _ =>
      match authenticate_http env r headers "/replication" body with
      | (r, Err error) => (r, Err error)
      | (r, Ok None) => (r, Err (ApiIdentity (Denied AuthenticationRequired)))
      | (r, Ok (Some principal)) =>
          match records_from_slice body with
          | Err error => (r, Err (BadRequest ("invalid replication JSON: " +:+ error)))
          | Ok [] => (r, Ok [])
          | Ok ((first :: _) as records) =>
              match nostr_pubkey (ap_principal principal) with
              | None => (r, Err (ApiIdentity (Denied PeerUnbound)))
              | Some pubkey =>
                  match identity r with
                  | None => (r, Err (ApiIdentity (Denied AuthenticationRequired)))
                  | Some adapter =>
                      match bind_peer_key adapter (rr_source first) pubkey with
                      | Err error => (r, Err (ApiIdentity error))
                      | Ok _ => ingest_batch envs 0 r (rr_source first) records []
                      end
                  end
              end
          end
      end
  end.

(** ** Artifacts *)

Definition authorize_artifact_upload (r : LocalRelay) (principal : option AuthenticatedPrincipal)
    : result ApiError unit :=
  match governance r with
  | None => Ok tt
  | Some (owner, _) =>
      let allowed :=
        match principal ≫= principal_pubkey with
        | Some pubkey =>
            String.eqb pubkey owner
            || match identity r with
               | Some adapter => is_admitted_verification_key adapter pubkey
               | None => false
               end
        | None => false
        end in
      if allowed then Ok tt else Err (ApiIdentity (Denied ScopeDenied))
  end.

Definition authorize_artifact_fetch (now : N) (r : LocalRelay) (principal : option AuthenticatedPrincipal)
    (sha256 : string) : result ApiError unit :=
  match governance r with
  | None => Ok tt
  | Some (owner, node_label) =>
      let? allowed :=
        match principal ≫= principal_pubkey with
        | Some pubkey =>
            if String.eqb pubkey owner then Ok true
            else map_err (fun error => BadRequest (declaration_error_to_string error))
                   (artifact_fetch_allowed now (relay_store r) owner node_label pubkey sha256)
        | None => Ok false
        end in
      if (allowed : bool) then Ok tt else Err (ApiIdentity (Denied ScopeDenied))
  end.

(** Writing a blob: the temporary file is renamed over the final path, so the
    directory changes only when every step succeeds. *)
Definition artifact_upload (env : RelayEnv) (fs : result string unit) (r : LocalRelay)
    (headers : Headers) (body : string) : LocalRelay * result ApiError (string * N) :=
  match artifacts_dir r with
  | None => (r, Err (NotFound "artifact store is not enabled"))
  | Some dir =>
      match authenticate_http env r headers "/artifacts" body with
      | (r, Err error) => (r, Err error)
      | (r, Ok principal) =>
          match authorize_artifact_upload r principal with
          | Err error => (r, Err error)
          | Ok _ =>
              if String.eqb body EmptyString then (r, Err (BadRequest "artifact body is empty"))
              else
                let hash := sha256_hex body in
                match fs with
                | Err error => (r, Err (ApiStore (Io error)))
                | Ok _ =>
                    let r := match dir !! hash with
                             | Some _ => r
                             | None => with_artifacts r (<[hash := body]> dir)
                             end in
                    (r, Ok (hash, N.of_nat (String.length body)))
                end
          end
      end
  end.

Definition is_ascii_hexdigit (c : ascii) : bool :=
  Lines.byte_in 48 57 c || Lines.byte_in 97 102 c || Lines.byte_in 65 70 c.

(** The checks [artifact_head] and [artifact_fetch] share: the normalized id
    and the directory. *)
Definition artifact_access (env : RelayEnv) (r : LocalRelay) (sha256 : string) (headers : Headers)
    : LocalRelay * result ApiError (string * gmap string string) :=
  match artifacts_dir r with
  | None => (r, Err (NotFound "artifact store is not enabled"))
  | Some dir =>
      if negb (String.length sha256 =? 64)%nat || negb (str_forallb is_ascii_hexdigit sha256)
      then (r, Err (BadRequest "artifact ID must be 64 hex characters"))
      else
        let sha256 := to_ascii_lowercase sha256 in
        match authenticate_http_method env r headers "GET" ("/artifacts/" +:+ sha256) EmptyString with
        | (r, Err error) => (r, Err error)
        | (r, Ok principal) =>
            (r, let? _ := authorize_artifact_fetch (re_now env) r principal sha256 in Ok (sha256, dir))
        end
  end.

Definition artifact_head (env : RelayEnv) (fs : result string unit) (r : LocalRelay) (sha256 : string)
    (headers : Headers) : LocalRelay * result ApiError unit :=
  match artifact_access env r sha256 headers with
  | (r, Err error) => (r, Err error)
  | (r, Ok (sha256, dir)) =>
      (r, let? _ := map_err (fun error => ApiStore (Io error)) fs in
          match dir !! sha256 with
          | Some _ => Ok tt
          | None => Err (NotFound ("unknown artifact " +:+ sha256))
          end)
  end.

Definition artifact_fetch (env : RelayEnv) (fs : result string unit) (r : LocalRelay) (sha256 : string)
    (headers : Headers) : LocalRelay * result ApiError string :=
  match artifact_access env r sha256 headers with
  | (r, Err error) => (r, Err error)
  | (r, Ok (sha256, dir)) =>
      (r, let? _ := map_err (fun error => ApiStore (Io error)) fs in
          match dir !! sha256 with
          | None => Err (NotFound ("unknown artifact " +:+ sha256))
          | Some bytes =>
              if negb (String.eqb (sha256_hex bytes) sha256)
              then Err (BadRequest ("artifact " +:+ sha256 +:+ " failed content verification"))
              else Ok bytes
          end)
  end.
End http.
