(* ===== verification/Session.v ===== *)
(** * WebSocket sessions

    The WebSocket half of [buzz-local-relay/src/lib.rs]: client messages,
    subscriptions, the NIP-42 exchange and live delivery.  A connection keeps
    its subscriptions, its identity and its session lease; what it was sent is
    kept in order, and a send that fails ends the connection. *)

From S2P Require Import Prelude Text Nostr Demo Kinds Ingest FilterMatch Store StoreTheory Replication.
From S2P Require Import Auth Identity Declarations Relay RelayApi.

Definition MAX_SUBSCRIPTIONS_PER_CONNECTION : nat := 128.
Definition MAX_SUBSCRIPTION_ID_LENGTH : nat := 128.

(** Decoders of client messages. *)
Class WsLib `{SJ : SerdeJson} := {
  event_from_value : Value -> result string Event;
  filter_from_value : Value -> result string Filter;
}.

(** What the relay sends. *)
Inductive Frame :=
| F_Auth (challenge : string)
| F_Ok (event_id : string) (accepted : bool) (message : string)
| F_Notice (message : string)
| F_Closed (subscription_id message : string)
| F_Event (subscription_id : string) (e : Event)
| F_Eose (subscription_id : string)
| F_Pong (payload : string).

(** The sink: the frames sent so far, and whether the n-th send succeeds. *)
Record Sender := mkSender { sent : list Frame; send_ok : nat -> bool }.

Definition send_json (s : Sender) (f : Frame) : Sender * bool :=
  if send_ok s (length (sent s)) then (mkSender (sent s ++ [f]) (send_ok s), true) else (s, false).

Record WebSocketIdentity := mkWsIdentity {
  ws_principal : option AuthenticatedPrincipal;
  ws_session_lease : option PublicKey;
}.

Definition ws_identity_default : WebSocketIdentity := mkWsIdentity None None.

Record Connection := mkConnection {
  subscriptions : gmap string (list Filter);
  ws_identity : WebSocketIdentity;
  ws_challenge : option string;
  ws_audience : option string;
  ws_sender : Sender;
}.

Inductive Message :=
| MsgText (text : string)
| MsgPing (payload : string)
| MsgPong
| MsgClose
| MsgBinary.

(** What the select loop of a session receives; [Inbound None] is the end of
    the stream or a broken frame. *)
Inductive SessionInput :=
| Inbound (m : option Message)
| Live (e : Event)
| LiveLagged (skipped : N)
| LiveClosed.

Section session.
Context `{NL : NostrLib, SJ : SerdeJson, UL : UrlLib, SL : SigningLib, HL : !HttpLib, WL : !WsLib}.

Definition with_sender (c : Connection) (s : Sender) : Connection :=
  mkConnection (subscriptions c) (ws_identity c) (ws_challenge c) (ws_audience c) s.
Definition with_ws_identity (c : Connection) (i : WebSocketIdentity) : Connection :=
  mkConnection (subscriptions c) i (ws_challenge c) (ws_audience c) (ws_sender c).
Definition with_subscriptions (c : Connection) (m : gmap string (list Filter)) : Connection :=
  mkConnection m (ws_identity c) (ws_challenge c) (ws_audience c) (ws_sender c).

(** [send_json(sender, frame).await.is_ok()]; the boolean says whether the
    session goes on. *)
Definition reply (r : LocalRelay) (c : Connection) (f : Frame) : LocalRelay * Connection * bool :=
  let '(s, ok) := send_json (ws_sender c) f in (r, with_sender c s, ok).

Definition handle_ws_auth (env : RelayEnv) (r : LocalRelay) (c : Connection) (parts : list Value)
    : LocalRelay * Connection * bool :=
  match event_from_value <$> parts !! 1 with
  | Some (Ok e) =>
      let event_id := to_hex (ev_id e) in
      match identity r with
      | None => reply r c (F_Ok event_id false "authentication_not_enabled")
      | Some adapter =>
          match ws_challenge c, ws_audience c with
          | Some challenge, Some audience =>
              match ws_principal (ws_identity c) with
              | Some _ => reply r c (F_Ok event_id false "replay_detected")
              | None =>
                  match authenticate_at (re_proof env) adapter (LAE_Nip42 e challenge) audience (re_now env) with
                  | (adapter, Ok authenticated) =>
                      let r := with_identity r adapter in
                      let lease := principal_pubkey authenticated in
                      let r := match lease with
                               | Some pubkey => with_sessions r (ActiveSessions.enter (active_sessions r) pubkey)
                               | None => r
                               end in
                      reply r (with_ws_identity c (mkWsIdentity (Some authenticated) lease))
                        (F_Ok event_id true "authenticated")
                  | (adapter, Err error) =>
                      reply (with_identity r adapter) c (F_Ok event_id false (identity_error_token error))
                  end
              end
          | _, _ => reply r c (F_Ok event_id false "audience_mismatch")
          end
      end
  | _ => reply r c (F_Ok EmptyString false "invalid_evidence")
  end.

Definition handle_ws_event (env : RelayEnv) (r : LocalRelay) (c : Connection) (parts : list Value)
    : LocalRelay * Connection * bool :=
  match event_from_value <$> parts !! 1 with
  | Some (Ok e) =>
      let principal := ws_principal (ws_identity c) in
      match relay_authorize_direct r principal e with
      | Err error => reply r c (F_Ok (to_hex (ev_id e)) false (identity_error_token error))
      | Ok _ =>
          match submit_from env r e principal with
          | (r, Ok result) =>
              reply r c (F_Ok (WriteResult.event_id result) (WriteResult.accepted result) (WriteResult.message result))
          | (r, Err error) =>
              reply r c (F_Ok (to_hex (ev_id e)) false ("error: " +:+ store_error_to_string error))
          end
      end
  | _ => reply r c (F_Ok EmptyString false "invalid: malformed event")
  end.

(** [for event in historical { if send(..).is_err() { return false } }] *)
Fixpoint send_events (s : Sender) (subscription_id : string) (es : list Event) : Sender * bool :=
  match es with
  | [] => (s, true)
  | e :: rest =>
      match send_json s (F_Event subscription_id e) with
      | (s, true) => send_events s subscription_id rest
      | (s, false) => (s, false)
      end
  end.

Definition handle_ws_req (env : RelayEnv) (r : LocalRelay) (c : Connection) (parts : list Value)
    : LocalRelay * Connection * bool :=
  match parts !! 1 ≫= as_str with
  | None => reply r c (F_Notice "invalid REQ")
  | Some id =>
      let closed reason := reply r c (F_Closed id reason) in
      if (MAX_SUBSCRIPTION_ID_LENGTH <? String.length id)%nat then closed "subscription ID too long"
      else if negb (bool_decide (is_Some (subscriptions c !! id)))
              && (MAX_SUBSCRIPTIONS_PER_CONNECTION <=? size (subscriptions c))%nat
      then closed "too many subscriptions"
      else
        let filter_values := drop 2 parts in
        match validate_filter_fields filter_values SUPPORTED_FILTER_FIELDS with
        | Err error => closed (query_error_to_string error)
        | Ok _ =>
            match map_res filter_from_value filter_values with
            | Err _ | Ok [] => closed "invalid filters"
            | Ok filters =>
                match validate_filters filters with
                | Err error => closed (query_error_to_string error)
                | Ok _ =>
                    match query_for (re_now env) r (ws_principal (ws_identity c))
                            RO_HistoricalSubscription filters with
                    | (r, Err error) => reply r c (F_Closed id (api_error_to_string error))
                    | (r, Ok historical) =>
                        let c := with_subscriptions c (<[id := filters]> (subscriptions c)) in
                        match send_events (ws_sender c) id historical with
                        | (s, false) => (r, with_sender c s, false)
                        | (s, true) => reply r (with_sender c s) (F_Eose id)
                        end
                    end
                end
            end
        end
  end.

Definition handle_client_message (env : RelayEnv) (r : LocalRelay) (c : Connection) (m : Message)
    : LocalRelay * Connection * bool :=
  match m with
  | MsgText text =>
      match res_ok (from_str text) ≫= as_array with
      | None => reply r c (F_Notice "invalid message")
      | Some parsed =>
          match head parsed ≫= as_str with
          | None => reply r c (F_Notice "invalid message")
          | Some verb =>
              if String.eqb verb "AUTH" then handle_ws_auth env r c parsed
              else if String.eqb verb "EVENT" then handle_ws_event env r c parsed
              else if String.eqb verb "REQ" then handle_ws_req env r c parsed
              else if String.eqb verb "CLOSE" then
                match parsed !! 1 ≫= as_str with
                | Some id => (r, with_subscriptions c (delete id (subscriptions c)), true)
                | None => (r, c, true)
                end
              else reply r c (F_Notice "unsupported message")
          end
      end
  | MsgPing payload => reply r c (F_Pong payload)
  | MsgPong => (r, c, true)
  | MsgClose | MsgBinary => (r, c, false)
  end.

(** *** Live delivery *)

Definition live_visible (r : LocalRelay) (c : Connection) (e : Event) : bool :=
  let kind := event_kind_u32 e in
  let principal := ws_principal (ws_identity c) in
  if (kind =? KIND_BEACON_PULSE)%N || (kind =? KIND_BEACON_RESPONSE)%N
  then pulse_visible_to r principal
  else event_is_visible r principal RO_LiveDelivery e.

(** The loop over the subscriptions for one live event. *)
Fixpoint deliver_to (now : N) (r : LocalRelay) (c : Connection) (e : Event)
    (subs : list (string * list Filter)) : Connection * bool :=
  match subs with
  | [] => (c, true)
  | (id, filters) :: rest =>
      if filters_match filters (stored_event now e) && live_visible r c e then
        match send_json (ws_sender c) (F_Event id e) with
        | (s, true) => deliver_to now r (with_sender c s) e rest
        | (s, false) => (with_sender c s, false)
        end
      else deliver_to now r c e rest
  end.

Definition deliver_live (now : N) (r : LocalRelay) (c : Connection) (e : Event) : Connection * bool :=
  deliver_to now r c e (map_to_list (subscriptions c)).

(** *** Sessions *)

(** The audience of an upgrade request. *)
Definition upgrade_audience (r : LocalRelay) (host : option string) : result ApiError (option string) :=
  let host := match host with Some EmptyString => None | host => host end in
  match identity r, host with
  | Some _, None => Err (ApiIdentity (Denied AudienceMismatch))
  | _, _ => Ok ((fun host => "ws://" +:+ host +:+ "/") <$> host)
  end.

Definition supported_nips (r : LocalRelay) : list N :=
  match identity r, relay_keys r with
  | Some _, Some _ => [1; 11; 29; 42; 98]
  | Some _, None => [1; 11; 42; 98]
  | None, Some _ => [1; 11; 29]
  | None, None => [1; 11]
  end%N.

(** The start of a session: a challenge when identity is required. *)
Definition session_start (r : LocalRelay) (generated : string) (audience : option string)
    (send_ok : nat -> bool) : Connection * bool :=
  let challenge := match identity r with Some _ => Some generated | None => None end in
  let c := mkConnection ∅ ws_identity_default challenge audience (mkSender [] send_ok) in
  match challenge with
  | Some ch => let '(s, ok) := send_json (ws_sender c) (F_Auth ch) in (with_sender c s, ok)
  | None => (c, true)
  end.

(** One turn of the loop. *)
Definition session_step (env : RelayEnv) (r : LocalRelay) (c : Connection) (input : SessionInput)
    : LocalRelay * Connection * bool :=
  match input with
  | Inbound (Some m) => handle_client_message env r c m
  | Inbound None => (r, c, false)
  | Live e => let '(c, ok) := deliver_live (re_now env) r c e in (r, c, ok)
  | LiveLagged skipped =>
      reply r c (F_Notice ("local relay subscriber lagged by " +:+ u64_to_string skipped +:+ " events"))
  | LiveClosed => (r, c, false)
  end.

(** The end of a session drops its lease. *)
Definition session_end (r : LocalRelay) (c : Connection) : LocalRelay :=
  match ws_session_lease (ws_identity c) with
  | Some pubkey => with_sessions r (ActiveSessions.drop (active_sessions r) pubkey)
  | None => r
  end.
End session.
