(* ===== verification/Push.v ===== *)
(** * Pushing a journal to a destination

    [buzz-local-relay/src/bin/buzz-relay-push.rs]: cutting a page into requests
    bounded in records and bytes, and the loop that posts them and advances the
    durable checkpoint.  The destination is an interface, [Destination]: what
    its receipts promise is all the loop's safety rests on.  A write of the
    cursor file may fail at any byte. *)

From S2P Require Import Prelude Text Nostr Demo Kinds Ingest FilterMatch Store Replication.

(** ** Requests *)

Section split.
Context {R : Type}.

Definition str_len (s : string) : N := N.of_nat (String.length s).

(** The inner loop: the records of one request and the rest. *)
Fixpoint take_request (record_limit : nat) (byte_limit : N) (count : nat) (body_size : N)
    (rs : list (R * string)) : list (R * string) * list (R * string) :=
  match rs with
  | [] => ([], [])
  | (r, s) :: rs' =>
      if (count <? record_limit)%nat then
        let separator_size := if (0 <? count)%nat then 1%N else 0%N in
        let candidate_size :=
          u64_saturating_add (u64_saturating_add body_size separator_size) (str_len s) in
        if (0 <? count)%nat && (byte_limit <? candidate_size)%N then ([], rs)
        else
          let '(b, rest) := take_request record_limit byte_limit (S count) candidate_size rs' in
          ((r, s) :: b, rest)
      else ([], rs)
  end.

Definition request_body (b : list (R * string)) : string :=
  String "[" (join_with "," (snd <$> b) +:+ String "]" EmptyString).

(** The outer loop; [fuel] bounds the number of requests. *)
Fixpoint split_from (fuel : nat) (record_limit : nat) (byte_limit : N) (rs : list (R * string))
    : list (list R * string) :=
  match fuel with
  | 0 => []
  | S fuel =>
      match rs with
      | [] => []
      | _ =>
          let '(b, rest) := take_request record_limit byte_limit 0 2 rs in
          (fst <$> b, request_body b) :: split_from fuel record_limit byte_limit rest
      end
  end.

Definition split_serialized_batches (to_vec : R -> result string string) (records : list R)
    (record_limit : nat) (byte_limit : N) : result string (list (list R * string)) :=
  let? serialized := map_res to_vec records in
  Ok (split_from (length records) (Nat.max record_limit 1) byte_limit (zip records serialized)).

Lemma take_request_app rl bl n bs rs b rest :
  take_request rl bl n bs rs = (b, rest) -> rs = b ++ rest /\ n + length b <= Nat.max n rl.
Proof.
  revert n bs b. induction rs as [|[r s] rs IH]; intros n bs b; cbn [take_request].
  - intros [= <- <-]. simpl. split; [done|lia].
  - destruct (n <? rl)%nat eqn:E1; [|intros [= <- <-]; simpl; split; [done|lia]].
    destruct (_ && _); [intros [= <- <-]; simpl; split; [done|lia]|].
    destruct (take_request _ _ _ _ rs) as [b' rest'] eqn:E. intros [= <- <-].
    apply IH in E as [-> Hlen]. simpl. split; [done|lia].
Qed.

Lemma take_request_nonempty rl bl r rs b rest :
  0 < rl -> take_request rl bl 0 2 (r :: rs) = (b, rest) -> b <> [].
Proof.
  intros Hrl. destruct r as [r s]. cbn [take_request].
  assert ((0 <? rl)%nat = true) as -> by lia. simpl.
  destruct (take_request _ _ _ _ rs). by intros [= <- <-].
Qed.

(** Bytes of the records of a request, with the commas after the first [n]. *)
Fixpoint joined_size (n : nat) (b : list (R * string)) : N :=
  match b with
  | [] => 0
  | (_, s) :: b' => ((if (0 <? n)%nat then 1 else 0) + str_len s + joined_size (S n) b')%N
  end.

Lemma take_request_size rl bl n bs rs b rest :
  (bl < u64_max)%N -> (bs <= bl)%N -> take_request rl bl n bs rs = (b, rest) -> 0 < n ->
  (bs + joined_size n b <= bl)%N.
Proof.
  intros Hbl. revert n bs b. induction rs as [|[r s] rs IH]; intros n bs b Hbs; cbn [take_request].
  - intros [= <- <-] _. simpl. lia.
  - destruct (n <? rl)%nat; [|intros [= <- <-] _; simpl; lia].
    intros H Hn. revert H. assert ((0 <? n)%nat = true) as E by lia. rewrite E. cbn [andb].
    set (cand := u64_saturating_add _ _).
    destruct (bl <? cand)%N eqn:Hc; [intros [= <- <-]; simpl; lia|].
    destruct (take_request _ _ _ _ rs) as [b' rest'] eqn:E'. intros [= <- <-].
    assert (cand = bs + 1 + str_len s)%N as Hcand.
    { unfold cand, u64_saturating_add in *. lia. }
    apply (IH (S n) cand b') in E'; [|lia|lia]. cbn [joined_size]. rewrite E. lia.
Qed.

Lemma str_len_app a b : str_len (a +:+ b) = (str_len a + str_len b)%N.
Proof.
  unfold str_len. induction a as [|c a IH]; [done|]. rewrite str_app_cons. simpl String.length. lia.
Qed.

Lemma joined_size_from n b : 0 < n -> joined_size n b = joined_size 1 b.
Proof.
  revert n. induction b as [|[r s] b IH]; intros n Hn; [done|]. simpl.
  assert ((0 <? n)%nat = true) as -> by lia. by rewrite (IH (S n)), (IH 2) by lia.
Qed.

Lemma request_body_size b : b <> [] -> str_len (request_body b) = (2 + joined_size 0 b)%N.
Proof.
  intros Hb. unfold request_body.
  assert (str_len (join_with "," (snd <$> b)) = joined_size 0 b) as E.
  { destruct b as [|[r s] b]; [done|]. clear Hb. revert r s.
    induction b as [|[r' s'] b IH]; intros r s; [simpl; lia|].
    specialize (IH r' s'). cbn in IH |- *. rewrite str_len_app.
    rewrite (joined_size_from 2) by lia. unfold str_len in *. simpl String.length. lia. }
  unfold str_len in *. simpl String.length.
  assert (String.length (join_with "," (snd <$> b) +:+ String "]" EmptyString) =
          String.length (join_with "," (snd <$> b)) + 1) as ->.
  { pose proof (str_len_app (join_with "," (snd <$> b)) (String "]" EmptyString)).
    unfold str_len in *. simpl in *. lia. }
  lia.
Qed.

Lemma take_request_rest rl bl r rs b rest :
  0 < rl -> take_request rl bl 0 2 (r :: rs) = (b, rest) -> length rest <= length rs.
Proof.
  intros Hrl E. pose proof (take_request_nonempty _ _ _ _ _ _ Hrl E) as Hne.
  apply take_request_app in E as [Happ _]. apply (f_equal length) in Happ.
  rewrite length_app in Happ. simpl in Happ. destruct b; [done|]. simpl in Happ. lia.
Qed.

(** The requests are a partition of the records, in order, none empty and none
    over the record limit. *)
Lemma split_from_cover fuel rl bl rs :
  0 < rl -> length rs <= fuel ->
  concat (fst <$> split_from fuel rl bl rs) = fst <$> rs /\
  Forall (fun b => b.1 <> [] /\ length b.1 <= rl) (split_from fuel rl bl rs).
Proof.
  intros Hrl. revert rs. induction fuel as [|fuel IH]; intros [|r rs] Hf; try (by split); [simpl in Hf; lia|].
  cbn [split_from]. destruct (take_request rl bl 0 2 (r :: rs)) as [b rest] eqn:E.
  pose proof (take_request_nonempty _ _ _ _ _ _ Hrl E) as Hne.
  pose proof (take_request_rest _ _ _ _ _ _ Hrl E) as Hrest.
  apply take_request_app in E as [-> Hlen].
  destruct (IH rest) as [IH1 IH2]; [simpl in Hf; lia|]. split.
  - rewrite fmap_app, <-IH1. done.
  - constructor; [|done]. simpl. rewrite length_fmap. split; [by destruct b|lia].
Qed.

Lemma take_request_bounded rl bl r rs b rest :
  (bl < u64_max)%N -> take_request rl bl 0 2 (r :: rs) = (b, rest) -> 0 < rl ->
  (str_len (request_body b) <= bl)%N \/ length b = 1.
Proof.
  intros Hbl. destruct r as [r s]. cbn [take_request]. intros E Hrl. revert E.
  assert ((0 <? rl)%nat = true) as -> by lia. cbn [andb Nat.ltb Nat.leb].
  destruct (take_request rl bl 1 _ rs) as [b' rest'] eqn:E. intros [= <- <-].
  destruct b' as [|x b']; [right; done|left].
  rewrite request_body_size by done. cbn [joined_size].
  set (c := u64_saturating_add _ _) in E.
  destruct (c <=? bl)%N eqn:Hc.
  - apply take_request_size in E; [|done|lia|lia]. unfold c, u64_saturating_add in *. simpl in *. lia.
  - exfalso. destruct rs as [|[r2 s2] rs]; [done|]. revert E. cbn [take_request].
    destruct (1 <? rl)%nat; [|done]. cbn [Nat.ltb Nat.leb andb].
    assert ((bl <? u64_saturating_add (u64_saturating_add c 1) (str_len s2))%N = true) as ->;
      [unfold u64_saturating_add; lia|done].
Qed.

Lemma split_from_bounded fuel rl bl rs :
  0 < rl -> (bl < u64_max)%N ->
  Forall (fun b => (str_len b.2 <= bl)%N \/ length b.1 = 1) (split_from fuel rl bl rs).
Proof.
  intros Hrl Hbl. revert rs. induction fuel as [|fuel IH]; intros [|r rs]; try by constructor.
  cbn [split_from]. destruct (take_request rl bl 0 2 (r :: rs)) as [b rest] eqn:E.
  constructor; [|apply IH]. simpl. rewrite length_fmap. by eapply take_request_bounded.
Qed.

Lemma fst_zip_serialized (to_vec : R -> result string string) (records : list R) serialized :
  map_res to_vec records = Ok serialized -> fst <$> zip records serialized = records.
Proof.
  revert serialized. induction records as [|r records IH]; intros serialized; simpl; [done|].
  destruct (to_vec r) as [y|]; [|done]. destruct (map_res to_vec records) as [ys|]; [|done].
  intros [= <-]. cbn. f_equal. by apply IH.
Qed.

Lemma split_serialized_cover to_vec records rl bl batches :
  split_serialized_batches to_vec records rl bl = Ok batches ->
  concat (fst <$> batches) = records /\
  Forall (fun b => b.1 <> [] /\ length b.1 <= Nat.max rl 1) batches.
Proof.
  unfold split_serialized_batches. destruct (map_res _ _) as [ser|] eqn:E; [|done].
  intros [= <-]. pose proof (fst_zip_serialized _ _ _ E) as Hz.
  destruct (split_from_cover (length records) (Nat.max rl 1) bl (zip records ser)) as [H1 H2].
  - lia.
  - rewrite <-(length_fmap fst), Hz. done.
  - by rewrite H1.
Qed.

(** Cutting a page into requests loses, repeats and reorders no record;
    every request is non-empty, holds at most the record limit, and its body
    fits the byte limit unless it is a single record that does not fit by
    itself. *)
Theorem split_serialized_batches_spec (to_vec : R -> result string string) (records : list R)
    (record_limit : nat) (byte_limit : N) (batches : list (list R * string)) :
  (byte_limit < u64_max)%N ->
  split_serialized_batches to_vec records record_limit byte_limit = Ok batches ->
  concat (fst <$> batches) = records /\
  Forall (fun b => b.1 <> [] /\ length b.1 <= Nat.max record_limit 1 /\
                   ((str_len b.2 <= byte_limit)%N \/ length b.1 = 1)) batches.
Proof.
  intros Hbl Hs. destruct (split_serialized_cover _ _ _ _ _ Hs) as [Hc Hf]. split; [done|].
  assert (Forall (fun b => (str_len b.2 <= byte_limit)%N \/ length b.1 = 1) batches) as Hb.
  { revert Hs. unfold split_serialized_batches. destruct (map_res _ _) as [ser|]; [|done].
    intros [= <-]. apply split_from_bounded; [lia|done]. }
  rewrite Forall_forall in Hf, Hb |- *. intros b Hin.
  destruct (Hf b Hin). split_and!; auto.
Qed.
End split.

(** ** Destinations *)

(** [post] is one [POST /replication] with the records of a request and their
    body; [Err] is a failed request, a refused status or unreadable receipts. *)
Class Destination (D : Type) := {
  post : D -> list ReplicationRecord -> string -> D * result string (list ReplicationReceipt);
}.

(** Receipts that answer records in order, each bound to its checkpoint, up to
    the end or to the first refusal. *)
Inductive answered (acked : Event -> Prop) : list ReplicationRecord -> list ReplicationReceipt -> Prop :=
| answered_nil : answered acked [] []
| answered_safe r rs c cs :
    rc_cursor c = rr_cursor r -> checkpoint_safe c = true -> acked (rr_event r) ->
    answered acked rs cs -> answered acked (r :: rs) (c :: cs)
| answered_halt r rs c :
    checkpoint_safe c = false -> answered acked (r :: rs) [c].

(** What a destination promises a pusher, for requests whose body it reads as
    their records. *)
Class DestinationLaws (D : Type) `{Destination D} := {
  acked : D -> Event -> Prop;
  request_of : list ReplicationRecord -> string -> Prop;
  post_answers : forall d rs body d' cs, request_of rs body ->
    post d rs body = (d', Ok cs) -> answered (acked d') rs cs;
  post_keeps : forall d rs body d' res e, post d rs body = (d', res) -> acked d e -> acked d' e;
}.

(** ** The loop *)

Inductive PushError :=
| ReadFailed (error : ReplicationSourceError)
| SerializeFailed (error : string)
| RequestFailed (error : string)
| Halted (receipt : ReplicationReceipt)
| NoCursorAdvanced
| PersistFailed (error : string)
| OutOfFuel.

Record PushConfig := mkPushConfig { batch_size : nat; batch_bytes : N }.

(** The cursor held in memory, the text of the cursor file, and how often the
    file was written. *)
Record PushState (D : Type) := mkPushState {
  ps_dest : D;
  ps_cursor : option ReplicationCursor;
  ps_file : option string;
  ps_pushed : nat;
  ps_writes : nat;
}.
Arguments mkPushState {D} _ _ _ _ _.
Arguments ps_dest {D} _.
Arguments ps_cursor {D} _.
Arguments ps_file {D} _.
Arguments ps_pushed {D} _.
Arguments ps_writes {D} _.

(** The outcome of one write of the cursor file: [File::create] truncates it
    first, so a write that fails leaves a prefix of the cursor. *)
Inductive PersistOutcome :=
| Persisted
| CreateFailed (error : string)
| TornWrite (bytes : nat) (error : string).

Definition persist_cursor (o : PersistOutcome) (file : option string) (cursor : ReplicationCursor)
    : option string * result string unit :=
  match o with
  | Persisted => (Some cursor, Ok tt)
  | CreateFailed error => (file, Err error)
  | TornWrite bytes error => (Some (String.substring 0 bytes cursor), Err error)
  end.

(** The cursor a run starts from; [file] is [None] when it cannot be read. *)
Definition load_cursor (file : option string) : option ReplicationCursor :=
  match file with
  | Some saved => if Lines.trim_is_empty saved then None else Some (trim saved)
  | None => None
  end.

(** The loop over the receipts of one request: the advanced cursor, the count,
    and the receipt that halts it. *)
Fixpoint advance (advanced : option ReplicationCursor) (pushed : nat) (receipts : list ReplicationReceipt)
    : option ReplicationCursor * nat * option ReplicationReceipt :=
  match receipts with
  | [] => (advanced, pushed, None)
  | c :: cs =>
      if negb (checkpoint_safe c) then (advanced, pushed, Some c)
      else advance (Some (rc_cursor c)) (S pushed) cs
  end.

Section push.
Context `{NL : NostrLib} {D : Type} `{!Destination D}.
Variable record_to_vec : ReplicationRecord -> result string string.
Variable persist_outcome : nat -> PersistOutcome.

Definition set_dest (st : PushState D) (d : D) (pushed : nat) : PushState D :=
  mkPushState d (ps_cursor st) (ps_file st) pushed (ps_writes st).

Definition set_cursor (st : PushState D) (c : ReplicationCursor) : PushState D :=
  mkPushState (ps_dest st) (Some c) (ps_file st) (ps_pushed st) (ps_writes st).

Definition persist (st : PushState D) (c : ReplicationCursor) : PushState D * result PushError unit :=
  let '(file, r) := persist_cursor (persist_outcome (ps_writes st)) (ps_file st) c in
  (mkPushState (ps_dest st) (ps_cursor st) file (ps_pushed st) (S (ps_writes st)), map_err PersistFailed r).

Fixpoint push_requests (st : PushState D) (requests : list (list ReplicationRecord * string))
    : PushState D * result PushError unit :=
  match requests with
  | [] => (st, Ok tt)
  | (records, body) :: rest =>
      match post (ps_dest st) records body with
      | (d, Err error) => (set_dest st d (ps_pushed st), Err (RequestFailed error))
      | (d, Ok receipts) =>
          match advance (ps_cursor st) (ps_pushed st) receipts with
          | (Some safe, n, Some bad) =>
              match persist (set_dest st d n) safe with
              | (st, Err error) => (st, Err error)
              | (st, Ok _) => (st, Err (Halted bad))
              end
          | (None, n, Some bad) => (set_dest st d n, Err (Halted bad))
          | (None, n, None) => (set_dest st d n, Err NoCursorAdvanced)
          | (Some advanced, n, None) =>
              match rest with
              | [] => push_requests (set_dest st d n) rest
              | _ =>
                  match persist (set_dest st d n) advanced with
                  | (st, Err error) => (st, Err error)
                  | (st, Ok _) => push_requests (set_cursor st advanced) rest
                  end
              end
          end
      end
  end.

(** The end of a page: its scanned-through position is persisted. *)
Definition finish_page (next : PushState D -> PushState D * result PushError unit) (batch : ReplicationBatch)
    (st : PushState D) : PushState D * result PushError unit :=
  match persist st (rb_next_cursor batch) with
  | (st, Err error) => (st, Err error)
  | (st, Ok _) =>
      let st := set_cursor st (rb_next_cursor batch) in
      if rb_caught_up batch then (st, Ok tt) else next st
  end.

Fixpoint push_loop (fuel : nat) (now : N) (cfg : PushConfig) (src : LocalReplicationSource)
    (inner : StoreInner) (st : PushState D) : PushState D * result PushError unit :=
  match fuel with
  | 0 => (st, Err OutOfFuel)
  | S fuel =>
      match read_batch now src inner (ps_cursor st) (batch_size cfg) with
      | Err error => (st, Err (ReadFailed error))
      | Ok batch =>
          let finish := finish_page (push_loop fuel now cfg src inner) batch in
          match rb_records batch with
          | [] => finish st
          | _ =>
              match split_serialized_batches record_to_vec (rb_records batch)
                      (batch_size cfg) (batch_bytes cfg) with
              | Err error => (st, Err (SerializeFailed error))
              | Ok requests =>
                  match push_requests st requests with
                  | (st, Err error) => (st, Err error)
                  | (st, Ok _) => finish st
                  end
              end
          end
      end
  end.

(** A run of the program on a cursor file. *)
Definition push_main (fuel : nat) (now : N) (cfg : PushConfig) (src : LocalReplicationSource)
    (inner : StoreInner) (d : D) (file : option string) : PushState D * result PushError unit :=
  push_loop fuel now cfg src inner (mkPushState d (load_cursor file) file 0 0).
End push.

(** ** Torn cursor files *)

Lemma substring_prefix n s : exists r, s = String.substring 0 n s +:+ r.
Proof.
  revert n. induction s as [|c s IH]; intros [|n].
  - by exists EmptyString.
  - by exists EmptyString.
  - by exists (String c s).
  - destruct (IH n) as [r Hr]. exists r. cbn [String.substring]. rewrite str_app_cons. by f_equal.
Qed.

Lemma cursor_printable c q : parse_local_replication_cursor c = Ok q -> str_forallb printable c = true.
Proof.
  unfold parse_local_replication_cursor, parse_usize. destruct (strip_prefix _ c) as [v|] eqn:E; [|done].
  apply strip_prefix_some in E as ->. cbn [mbind option_bind].
  destruct (parse_u64 v) as [n|] eqn:En; [|done]. intros _.
  rewrite str_forallb_app, (parse_u64_printable _ _ En). done.
Qed.

(** What is read back from a file that holds the first bytes of a cursor stands
    for no later position. *)
Lemma cursor_prefix c t r q c' q' :
  parse_local_replication_cursor c = Ok q -> c = t +:+ r ->
  load_cursor (Some t) = Some c' -> parse_local_replication_cursor c' = Ok q' -> q' <= q.
Proof.
  intros Hc Et Hl Hc'. pose proof (cursor_printable c q Hc) as Hp. rewrite Et, str_forallb_app in Hp.
  apply andb_true_iff in Hp as [Hp _]. simpl in Hl. destruct (Lines.trim_is_empty t); [done|].
  rewrite trim_printable in Hl by done. injection Hl as <-. subst c. revert Hc Hc'.
  unfold parse_local_replication_cursor, parse_usize.
  destruct (strip_prefix _ t) as [v|] eqn:E; [|done]. apply strip_prefix_some in E as ->.
  rewrite str_app_assoc, !strip_prefix_app. cbn [mbind option_bind].
  destruct (parse_u64 (v +:+ r)) as [n|] eqn:En; [|done]. destruct (parse_u64 v) as [m|] eqn:Em; [|done].
  intros [= <-] [= <-]. pose proof (parse_u64_prefix _ _ _ _ En Em). lia.
Qed.

Section push_theory.
Context `{NL : NostrLib} {D : Type} `{HD : !Destination D, HL : !DestinationLaws D}.
Variable record_to_vec : ReplicationRecord -> result string string.
Variable persist_outcome : nat -> PersistOutcome.
Variables (now : N) (src : LocalReplicationSource) (inner : StoreInner).
Hypothesis journal_fits : (N.of_nat (length (journal inner)) <= u64_max)%N.
Hypothesis requests_decode : forall rs record_limit byte_limit batches,
  split_serialized_batches record_to_vec rs record_limit byte_limit = Ok batches ->
  Forall (fun b => request_of b.1 b.2) batches.

(** Every exported event before position [q] is held by the destination. *)
Definition safe_upto (d : D) (q : nat) : Prop :=
  forall e, e ∈ List.filter (exports now src) (take q (journal inner)) -> acked d e.

Definition safe_cursor (d : D) (c : option ReplicationCursor) : Prop :=
  exists q, q <= length (journal inner) /\ cursor_at c q /\ safe_upto d q.

Definition keeps (d d' : D) : Prop := forall e, acked d e -> acked d' e.

Lemma safe_cursor_keeps d d' c : keeps d d' -> safe_cursor d c -> safe_cursor d' c.
Proof. intros Hk (q & ? & ? & Hs). exists q. split_and!; [done..|]. intros e He. by apply Hk, Hs. Qed.

Lemma safe_upto_mono d q q' : q' <= q -> safe_upto d q -> safe_upto d q'.
Proof.
  intros Hq Hs e He. apply Hs. apply elem_of_filter_b in He as [He Hx]. apply elem_of_filter_b. split; [|done].
  rewrite <-(take_drop q' (take q (journal inner))), take_take, Nat.min_l by done. apply elem_of_app. by left.
Qed.

(** The cursor a run would start from, when it is one, is safe. *)
Definition safe_file (d : D) (file : option string) : Prop :=
  forall c q, load_cursor file = Some c -> parse_local_replication_cursor c = Ok q ->
    q <= length (journal inner) /\ safe_upto d q.

Lemma safe_file_keeps d d' file : keeps d d' -> safe_file d file -> safe_file d' file.
Proof.
  intros Hk Hs c q Hc Hq. destruct (Hs c q Hc Hq) as [? Hu]. split; [done|]. intros e He. by apply Hk, Hu.
Qed.

(** The checkpoint of a record covers the exported records before it. *)
Lemma exported_prefix p es R1 r R2 :
  exported_from now src p es = R1 ++ r :: R2 ->
  exists k, k < length es /\ rr_cursor r = local_replication_cursor (p + S k) /\
    List.filter (exports now src) (take (S k) es) = rr_event <$> (R1 ++ [r]).
Proof.
  revert p R1. induction es as [|e es IH]; intros p R1; simpl; [by destruct R1|].
  destruct (exports now src e) eqn:He.
  - destruct R1 as [|r1 R1]; simpl; intros [= <- Htl].
    + exists 0. simpl. split_and!; [lia|f_equal; lia|done].
    + destruct (IH (S p) R1 Htl) as (k & Hk & Hc & Hf). exists (S k). split_and!; [lia| |].
      * rewrite Hc. f_equal. lia.
      * cbn. f_equal. exact Hf.
  - intros Htl. destruct (IH (S p) R1 Htl) as (k & Hk & Hc & Hf). exists (S k). split_and!; [lia| |].
    + rewrite Hc. f_equal. lia.
    + exact Hf.
Qed.

(** A page from a safe position [p], of which the records [R1 ++ [r]] are held. *)
Lemma record_checkpoint_safe d p es R1 r R2 :
  es = take (length es) (drop p (journal inner)) -> p + length es <= length (journal inner) ->
  safe_upto d p -> exported_from now src p es = R1 ++ r :: R2 ->
  Forall (fun r => acked d (rr_event r)) (R1 ++ [r]) ->
  safe_cursor d (Some (rr_cursor r)).
Proof.
  intros Hes Hlen Hp Hex Hack.
  destruct (exported_prefix _ _ _ _ _ Hex) as (k & Hk & -> & Hf).
  exists (p + S k). split_and!; [lia|apply cursor_at_local; lia|].
  intros e He. rewrite <-(take_drop p (take (p + S k) (journal inner))) in He.
  rewrite List.filter_app in He. apply elem_of_app in He as [He|He].
  - apply Hp. rewrite take_take in He. by rewrite Nat.min_l in He by lia.
  - rewrite skipn_firstn_comm in He.
    replace (p + S k - p) with (S k) in He by lia.
    assert (take (S k) (drop p (journal inner)) = take (S k) es) as E.
    { rewrite Hes, take_take. f_equal. lia. }
    rewrite E, Hf in He. apply list_elem_of_fmap in He as (x & -> & Hx).
    rewrite Forall_forall in Hack. by apply Hack.
Qed.

(** What the receipts of one request make of the checkpoint: it moves to the
    last record of an acknowledged prefix, all of the request when nothing
    halts. *)
Lemma advance_answered d rs cs adv n adv' n' bad :
  rs <> [] -> answered (acked d) rs cs -> advance adv n cs = (adv', n', bad) ->
  (adv' = adv /\ bad <> None) \/
  exists A r B, rs = A ++ r :: B /\ Forall (fun r => acked d (rr_event r)) (A ++ [r]) /\
    adv' = Some (rr_cursor r) /\ (bad = None -> B = []).
Proof.
  intros Hne Hans. revert adv n Hne.
  induction Hans as [|r rs c cs Hc Hsafe Hack Hans IH|r rs c Hbad]; intros adv n Hne; [done| |].
  - simpl. rewrite Hsafe. simpl. intros Hadv. right. destruct rs as [|r2 rs].
    + inversion Hans; subst. simpl in Hadv. simplify_eq. exists [], r, [].
      split_and!; [done|by constructor|by rewrite Hc|done].
    + destruct (IH _ _ ltac:(done) Hadv) as [[-> Hb]|(A & x & B & HA & Hall & -> & HB)].
      * exists [], r, (r2 :: rs). split_and!; [done|by constructor|by rewrite Hc|done].
      * exists (r :: A), x, B. rewrite HA. split_and!; [done|by constructor|done..].
  - simpl. rewrite Hbad. simpl. intros [= <- <- <-]. by left.
Qed.

Lemma Forall_acked_keeps d d' rs : keeps d d' ->
  Forall (fun r => acked d (rr_event r)) rs -> Forall (fun r => acked d' (rr_event r)) rs.
Proof. intros Hk H. eapply Forall_impl; [exact H|]. intros r. apply Hk. Qed.

(** A write of the cursor file, whatever becomes of it. *)
Lemma persist_safe st c st' res :
  safe_cursor (ps_dest st) (Some c) -> safe_file (ps_dest st) (ps_file st) ->
  persist persist_outcome st c = (st', res) ->
  ps_dest st' = ps_dest st /\ ps_cursor st' = ps_cursor st /\ safe_file (ps_dest st') (ps_file st') /\
  res <> Err OutOfFuel.
Proof.
  intros (q & Hq & Hc & Hs) Hf.
  assert (forall t r, c = t +:+ r -> safe_file (ps_dest st) (Some t)) as Hpre.
  { intros t r Et c' q' Hl Hp. pose proof (cursor_prefix c t r q c' q' Hc Et Hl Hp).
    split; [lia|]. by eapply safe_upto_mono; [|exact Hs]. }
  unfold persist, persist_cursor. destruct (persist_outcome (ps_writes st)) as [|error|bytes error];
    intros [= <- <-]; simpl; split_and!; try done.
  - apply (Hpre c EmptyString). by rewrite str_app_nil_r.
  - destruct (substring_prefix bytes c) as [r Hr]. by eapply Hpre.
Qed.

(** The requests of one page, [R1] of its records already held. *)
Lemma push_requests_safe p es requests st st' res R1 :
  es = take (length es) (drop p (journal inner)) -> p + length es <= length (journal inner) ->
  exported_from now src p es = R1 ++ concat (fst <$> requests) ->
  Forall (fun b => b.1 <> [] /\ request_of b.1 b.2) requests ->
  safe_upto (ps_dest st) p -> Forall (fun r => acked (ps_dest st) (rr_event r)) R1 ->
  safe_cursor (ps_dest st) (ps_cursor st) -> safe_file (ps_dest st) (ps_file st) ->
  push_requests persist_outcome st requests = (st', res) ->
  keeps (ps_dest st) (ps_dest st') /\ safe_file (ps_dest st') (ps_file st') /\
  (res = Ok tt -> Forall (fun r => acked (ps_dest st') (rr_event r)) (exported_from now src p es)) /\
  res <> Err OutOfFuel.
Proof using HL journal_fits.
  intros Hes Hlen. revert st R1.
  induction requests as [|[rs body] requests IH]; intros st R1 Hex Hne Hp HR1 Hcur Hfile; cbn [push_requests].
  { intros [= <- <-]. simpl in Hex. rewrite Hex, app_nil_r. split_and!; try done. by intros e. }
  apply Forall_cons in Hne as [[Hrs Hreq] Hne']. simpl in Hrs, Hreq, Hex.
  destruct (post (ps_dest st) rs body) as [d r] eqn:Hpost.
  assert (keeps (ps_dest st) d) as Hk by (intros e He; by eapply post_keeps).
  apply (safe_file_keeps _ _ _ Hk) in Hfile. apply (safe_cursor_keeps _ _ _ Hk) in Hcur.
  destruct r as [cs|err]; [|by intros [= <- <-]].
  pose proof (post_answers _ _ _ _ _ Hreq Hpost) as Hans.
  destruct (advance _ _ cs) as [[adv n] bad] eqn:Hadv.
  apply (Forall_acked_keeps _ _ _ Hk) in HR1.
  assert (safe_upto d p) as Hp' by (intros e He; by apply Hk, Hp).
  assert (safe_cursor d adv /\ (bad = None -> Forall (fun r => acked d (rr_event r)) rs /\ adv <> None)) as [Hsa Hall].
  { destruct (advance_answered d rs cs _ _ _ _ _ Hrs Hans Hadv) as [[-> Hbad]|(A & x & B & HA & Hall & -> & HB)].
    - by split; [|intros ->].
    - split.
      + eapply (record_checkpoint_safe d p es (R1 ++ A) x (B ++ concat (fst <$> requests))); try done.
        * rewrite Hex, HA. by rewrite <-!app_assoc.
        * rewrite <-app_assoc. apply Forall_app. by split.
      + intros Hb. rewrite (HB Hb) in HA. by rewrite HA. }
  destruct bad as [bad|].
  - destruct adv as [safe|]; [|by intros [= <- <-]].
    destruct (persist _ (set_dest st d n) safe) as [st1 r1] eqn:Ep.
    destruct (persist_safe (set_dest st d n) safe st1 r1 Hsa Hfile Ep) as (Hd & _ & Hf1 & Ho).
    simpl in Hd. assert (keeps (ps_dest st) (ps_dest st1)) as Hk1 by (by rewrite Hd).
    destruct r1 as [[]|err]; intros [= <- <-]; by split_and!.
  - destruct (Hall eq_refl) as [Hacked Hsome]. destruct adv as [adv|]; [|done].
    assert (forall st1, ps_dest st1 = d -> safe_cursor d (ps_cursor st1) -> safe_file d (ps_file st1) ->
      push_requests persist_outcome st1 requests = (st', res) ->
      keeps (ps_dest st) (ps_dest st') /\ safe_file (ps_dest st') (ps_file st') /\
      (res = Ok tt -> Forall (fun r => acked (ps_dest st') (rr_event r)) (exported_from now src p es)) /\
      res <> Err OutOfFuel) as Hnext.
    { intros st1 <- Hc1 Hf1 Hrun.
      destruct (IH st1 (R1 ++ rs)) as (Hk2 & ? & ? & ?); try done.
      - by rewrite <-app_assoc.
      - apply Forall_app. by split.
      - split_and!; try done. intros e He. by apply Hk2, Hk. }
    destruct requests as [|b requests']; [intros Hrun; by apply (Hnext (set_dest st d n))|].
    destruct (persist _ (set_dest st d n) adv) as [st1 r1] eqn:Ep.
    destruct (persist_safe (set_dest st d n) adv st1 r1 Hsa Hfile Ep) as (Hd & Hc1 & Hf1 & Ho).
    simpl in Hd. rewrite Hd in Hf1. destruct r1 as [[]|err].
    + intros Hrun. by eapply (Hnext (set_cursor st1 adv)).
    + intros [= <- <-]. split_and!; try done; by rewrite Hd.
Qed.

Lemma page_safe d p q :
  p <= q <= length (journal inner) -> safe_upto d p ->
  Forall (fun r => acked d (rr_event r))
    (exported_from now src p (take (q - p) (drop p (journal inner)))) ->
  safe_upto d q.
Proof.
  intros Hq Hp Hall e He.
  rewrite <-(take_drop p (take q (journal inner))), List.filter_app in He.
  apply elem_of_app in He as [He|He].
  - apply Hp. rewrite take_take in He. by rewrite Nat.min_l in He by lia.
  - rewrite skipn_firstn_comm, <-(exported_from_events now src p) in He.
    apply list_elem_of_fmap in He as (x & -> & Hx). rewrite Forall_forall in Hall. by apply Hall.
Qed.

(** The pusher's state between pages: its cursor stands at [p], everything
    exported before [p] is held, and the file is safe. *)
Definition pushed_to (st : PushState D) (p : nat) : Prop :=
  p <= length (journal inner) /\ cursor_at (ps_cursor st) p /\ safe_upto (ps_dest st) p /\
  safe_file (ps_dest st) (ps_file st).

Lemma pushed_to_cursor st p : pushed_to st p -> safe_cursor (ps_dest st) (ps_cursor st).
Proof. intros (? & ? & ? & _). by exists p. Qed.

Lemma push_loop_page cfg st p requests st' res :
  let q := page_end p (batch_size cfg) (length (journal inner)) in
  pushed_to st p ->
  concat (fst <$> requests) = exported_from now src p (take (q - p) (drop p (journal inner))) ->
  Forall (fun b => b.1 <> [] /\ request_of b.1 b.2) requests ->
  push_requests persist_outcome st requests = (st', res) ->
  keeps (ps_dest st) (ps_dest st') /\ safe_file (ps_dest st') (ps_file st') /\
  res <> Err OutOfFuel /\ (res = Ok tt -> safe_upto (ps_dest st') q).
Proof using HL journal_fits.
  intros q Hst Hc Hne Hrun. pose proof (pushed_to_cursor _ _ Hst) as Hcur.
  destruct Hst as (Hp & Hcp & Hup & Hfile).
  pose proof (page_end_bounds p (batch_size cfg) (length (journal inner)) Hp) as Hb. fold q in Hb.
  destruct (push_requests_safe p (take (q - p) (drop p (journal inner))) requests st st' res [])
    as (Hk & Hf' & Hall & Hfuel); try done.
  - rewrite length_take, length_drop. f_equal. lia.
  - rewrite length_take, length_drop. lia.
  - split_and!; try done. intros Hok. apply (page_safe _ p); [lia| |by apply Hall].
    intros e He. by apply Hk, Hup.
Qed.

Lemma push_loop_safe fuel cfg st p st' res :
  batch_size cfg <> 0 -> pushed_to st p -> length (journal inner) - p < fuel ->
  push_loop record_to_vec persist_outcome fuel now cfg src inner st = (st', res) ->
  keeps (ps_dest st) (ps_dest st') /\ safe_file (ps_dest st') (ps_file st') /\
  res <> Err OutOfFuel /\ (res = Ok tt -> safe_upto (ps_dest st') (length (journal inner))).
Proof using HL journal_fits requests_decode.
  intros Hbs. revert st p. induction fuel as [|fuel IH]; intros st p Hst Hf; [lia|].
  cbn [push_loop]. destruct Hst as (Hp & Hcp & Hup & Hfile) eqn:EHst.
  rewrite (read_batch_ok now src inner _ p _ Hbs Hcp Hp). cbn [rb_records rb_next_cursor rb_caught_up].
  set (len := length (journal inner)) in *. set (q := page_end p (batch_size cfg) len).
  pose proof (page_end_bounds p (batch_size cfg) len Hp) as Hb. fold q in Hb.
  pose proof (page_end_progress p (batch_size cfg) len Hbs Hp) as Hprog. fold q in Hprog.
  set (recs := exported_from now src p _) in *.
  set (finish := finish_page _ _ _).
  (* what follows a page that left everything before [q] held *)
  assert (forall st1, keeps (ps_dest st) (ps_dest st1) -> safe_upto (ps_dest st1) q ->
    safe_file (ps_dest st1) (ps_file st1) -> finish st1 = (st', res) ->
    keeps (ps_dest st) (ps_dest st') /\ safe_file (ps_dest st') (ps_file st') /\
    res <> Err OutOfFuel /\ (res = Ok tt -> safe_upto (ps_dest st') len)) as Hnext.
  { intros st1 Hk Hs Hf1. unfold finish, finish_page. cbn [rb_next_cursor rb_caught_up]. destruct (persist _ st1 _) as [st2 r2] eqn:Ep.
    assert (cursor_at (Some (local_replication_cursor q)) q) as Hcq by (apply cursor_at_local; lia).
    destruct (persist_safe st1 _ st2 r2 ltac:(exists q; split_and!; [lia|done|done]) Hf1 Ep) as (Hd2 & _ & Hf2 & Ho2).
    destruct r2 as [[]|err]; [|intros [= <- <-]; rewrite Hd2 in *; by split_and!].
    destruct (Nat.eqb_spec q len) as [Hq|Hq].
    - intros [= <- <-]. simpl. rewrite <-Hq, Hd2 in *. by split_and!.
    - intros Hrun.
      assert (pushed_to (set_cursor st2 (local_replication_cursor q)) q) as Hck.
      { split_and!; [lia|done|simpl; by rewrite Hd2|done]. }
      destruct (IH _ q Hck ltac:(lia) Hrun) as (Hk2 & ? & ? & ?). simpl in Hk2. rewrite Hd2 in Hk2.
      split_and!; try done. intros e He. by apply Hk2, Hk. }
  destruct recs as [|r rs] eqn:Erecs.
  - apply Hnext; [by intros e| |done]. apply (page_safe _ p); [lia|done|]. fold recs. rewrite Erecs. constructor.
  - destruct (split_serialized_batches _ _ _ _) as [requests|err] eqn:Esplit.
    2: { intros [= <- <-]. split_and!; try done. by intros e. }
    pose proof (requests_decode _ _ _ _ Esplit) as Hdec.
    apply split_serialized_cover in Esplit as [Hcc Hne].
    destruct (push_requests _ st requests) as [st1 r1] eqn:Ereq.
    destruct (push_loop_page cfg st p requests st1 r1 Hst) as (Hk1 & Hf1 & Ho1 & Hs1); try done.
    { fold len q. by rewrite Hcc, <-Erecs. }
    { rewrite Forall_forall in Hne, Hdec |- *. intros b Hin.
      split; [by apply Hne|by apply Hdec]. }
    destruct r1 as [[]|err]; [apply Hnext; [done|by apply Hs1|done]|].
    intros [= <- <-]. by split_and!.
Qed.

(** A run from a safe file. *)
Lemma push_main_safe cfg d file st' res :
  batch_size cfg <> 0 -> safe_file d file ->
  push_main record_to_vec persist_outcome (S (length (journal inner))) now cfg src inner d file = (st', res) ->
  safe_file (ps_dest st') (ps_file st') /\ keeps d (ps_dest st') /\ res <> Err OutOfFuel /\
  (res = Ok tt -> forall e, e ∈ journal inner -> exports now src e = true -> acked (ps_dest st') e).
Proof using HL journal_fits requests_decode.
  intros Hbs Hf Hrun. unfold push_main in Hrun.
  assert (forall p, cursor_at (load_cursor file) p -> p <= length (journal inner) -> safe_upto d p ->
    safe_file (ps_dest st') (ps_file st') /\ keeps d (ps_dest st') /\ res <> Err OutOfFuel /\
    (res = Ok tt -> forall e, e ∈ journal inner -> exports now src e = true -> acked (ps_dest st') e)) as Hgo.
  { intros p Hc Hp Hs.
    destruct (push_loop_safe (S (length (journal inner))) cfg (mkPushState d (load_cursor file) file 0 0) p st' res Hbs
                (conj Hp (conj Hc (conj Hs Hf))) ltac:(lia) Hrun) as (Hk & Hf' & Ho & Hd).
    split_and!; try done. intros Hok e He Hx. apply (Hd Hok). rewrite firstn_all. by apply elem_of_filter_b. }
  destruct (load_cursor file) as [c|] eqn:El.
  2: { apply (Hgo 0); [done|lia|]. intros e He. simpl in He. by apply not_elem_of_nil in He. }
  destruct (parse_local_replication_cursor c) as [q|err] eqn:Ep.
  - destruct (Hf c q El Ep). by apply (Hgo q).
  - revert Hrun. cbn [push_loop ps_cursor]. unfold read_batch. destruct (batch_size cfg); [done|]. simpl. rewrite Ep. simpl.
    intros [= <- <-]. split_and!; try done. by intros e.
Qed.
End push_theory.

(** Pushing a journal to a destination that answers its requests, which it
    reads as the records they were made of.  From any cursor file that is safe,
    or none: every run ends (a page per journal record, plus one, is enough
    fuel); whatever happens - a failed request, a refused record, a
    serialization error, a write of the cursor file torn at any byte - the
    cursor the next run would read from the file covers only records the
    destination holds, and what it held is kept; and a run that reports success
    has delivered every exported record. *)
Theorem push_safe `{NL : NostrLib} {D : Type} `{!Destination D, !DestinationLaws D}
    (record_to_vec : ReplicationRecord -> result string string) (persist_outcome : nat -> PersistOutcome)
    (now : N) (src : LocalReplicationSource) (inner : StoreInner) (cfg : PushConfig)
    (d : D) (file : option string) (st' : PushState D) (res : result PushError unit) :
  (N.of_nat (length (journal inner)) <= u64_max)%N -> batch_size cfg <> 0 ->
  (forall rs record_limit byte_limit batches,
     split_serialized_batches record_to_vec rs record_limit byte_limit = Ok batches ->
     Forall (fun b => request_of b.1 b.2) batches) ->
  safe_file now src inner d file ->
  push_main record_to_vec persist_outcome (S (length (journal inner))) now cfg src inner d file = (st', res) ->
  safe_file now src inner (ps_dest st') (ps_file st') /\
  keeps d (ps_dest st') /\
  res <> Err OutOfFuel /\
  (res = Ok tt -> forall e, e ∈ journal inner -> exports now src e = true -> acked (ps_dest st') e).
Proof. intros Hlen Hbs Hdec Hf Hrun. by eapply push_main_safe. Qed.

(** ** Witnesses *)

(** A destination that takes every record, and one that loses a record and says
    so. *)
Record DemoSink := mkDemoSink { sink_events : list Event; sink_refuses : string }.

Fixpoint sink_take (d : DemoSink) (rs : list ReplicationRecord) : DemoSink * list ReplicationReceipt :=
  match rs with
  | [] => (d, [])
  | r :: rs =>
      let e := rr_event r in
      if String.eqb (ev_id e) (sink_refuses d)
      then (d, [mkReceipt (rr_source r) (rr_cursor r) (ev_id e) (OutcomeRejected "refused")])
      else
        let '(d', cs) := sink_take (mkDemoSink (e :: sink_events d) (sink_refuses d)) rs in
        (d', mkReceipt (rr_source r) (rr_cursor r) (ev_id e) OutcomeStored :: cs)
  end.

#[global] Instance demo_sink : Destination DemoSink := {|
  post d rs _ := let '(d', cs) := sink_take d rs in (d', Ok cs)
|}.

Lemma sink_take_keeps d rs d' cs e :
  sink_take d rs = (d', cs) -> e ∈ sink_events d -> e ∈ sink_events d'.
Proof.
  revert d cs. induction rs as [|r rs IH]; intros d cs; simpl; [by intros [= <- <-]|].
  case_match; [by intros [= <- <-]|]. destruct (sink_take _ rs) as [d2 cs2] eqn:E.
  intros [= <- <-] He. eapply IH; [exact E|]. by right.
Qed.

#[global] Instance demo_sink_laws : DestinationLaws DemoSink.
Proof.
  refine {| acked := fun d e => e ∈ sink_events d; request_of := fun _ _ => True |}.
  - intros d rs body d' cs _. simpl. destruct (sink_take d rs) as [d2 cs2] eqn:E. intros [= <- <-].
    revert d cs2 E. induction rs as [|r rs IH]; intros d cs2; simpl; [intros [= <- <-]; constructor|].
    case_match; [intros [= <- <-]; by constructor|].
    destruct (sink_take _ rs) as [d3 cs3] eqn:E3. intros [= <- <-].
    constructor; [done..| |by eapply IH].
    eapply sink_take_keeps; [exact E3|]. left.
  - intros d rs body d' res e. simpl. destruct (sink_take d rs) as [d2 cs2] eqn:E.
    intros [= <- <-]. by eapply sink_take_keeps.
Defined.

Definition demo_to_vec (r : ReplicationRecord) : result string string := Ok (ev_id (rr_event r)).

Lemma split_serialized_batches_spec_witness :
  split_serialized_batches (fun s : string => Ok s) ["aa"; "b"; "cccccccc"; "d"] 3 6 =
    Ok [(["aa"; "b"], "[aa,b]"); (["cccccccc"], "[cccccccc]"); (["d"], "[d]")] /\
  concat (fst <$> [(["aa"; "b"], "[aa,b]"); (["cccccccc"], "[cccccccc]"); (["d"], "[d]")]) =
    ["aa"; "b"; "cccccccc"; "d"].
Proof.
  split; [vm_compute; reflexivity|].
  apply (split_serialized_batches_spec (fun s : string => Ok s) ["aa"; "b"; "cccccccc"; "d"] 3 6);
    vm_compute; reflexivity.
Defined.

(** A run that is halted at the third record while its last write is torn: what
    is left of the cursor covers nothing, so the next run starts over. *)
Definition demo_persist (n : nat) : PersistOutcome := if (n =? 1)%nat then TornWrite 9 "disk full" else Persisted.

Definition demo_run_out : PushState DemoSink * result PushError unit :=
  push_main demo_to_vec demo_persist 4 100 (mkPushConfig 2 100) demo_source demo_journal (mkDemoSink [] "c") None.

Lemma push_safe_witness :
  ps_file demo_run_out.1 = Some "local-ndj" /\ demo_run_out.2 = Err (PersistFailed "disk full") /\
  safe_file 100 demo_source demo_journal (ps_dest demo_run_out.1) (ps_file demo_run_out.1).
Proof.
  split; [vm_compute; reflexivity|]. split; [vm_compute; reflexivity|].
  apply (push_safe demo_to_vec demo_persist 100 demo_source demo_journal (mkPushConfig 2 100) (mkDemoSink [] "c")
           None demo_run_out.1 demo_run_out.2).
  - vm_compute. congruence.
  - simpl. lia.
  - intros rs rl bl batches _. by apply Forall_true.
  - intros c q [=].
  - apply surjective_pairing.
Defined.
