(* ===== verification/Pull.v ===== *)
(** * Draining an exported stream into a local relay

    [buzz-local-relay/src/bin/buzz-relay-pull.rs]: the arguments, the durable
    checkpoint and the loop that reads a page of a remote stream, hands its
    records to the local relay and moves the checkpoint.  The remote node is an
    interface, [Origin]: it may take in events while it is read.  The local
    relay is the [Destination] of the pusher. *)

From S2P Require Import Prelude Text Nostr Demo Kinds Ingest FilterMatch Store Replication Push.

(** ** Arguments *)

Record PullConfig := mkPullConfig {
  pc_from : string;
  pc_to : string;
  pc_source : ReplicationSourceId;
  pc_key_file : string;
  pc_cursor_file : string;
  pc_batch_size : nat;
}.

Inductive ArgsError :=
| HelpPrinted
| BadArgument (message : string).

Definition DEFAULT_BATCH_SIZE : nat := 100.

(** The locals of [from_args] while it reads the arguments. *)
Record PullArgs := mkPullArgs {
  pa_from : option string;
  pa_to : option string;
  pa_source : option string;
  pa_key_file : option string;
  pa_cursor_file : option string;
  pa_batch_size : nat;
}.

Definition no_args : PullArgs := mkPullArgs None None None None None DEFAULT_BATCH_SIZE.

(** [next]: the value of a flag. *)
Definition next_arg (args : list string) (flag : string) : result ArgsError (string * list string) :=
  match args with
  | v :: rest => Ok (v, rest)
  | [] => Err (BadArgument (flag +:+ " requires a value"))
  end.

Definition is_help (arg : string) : bool := String.eqb arg "-h" || String.eqb arg "--help".

(** A flag whose value goes into the locals. *)
Definition take_value {A} (args : list string) (flag : string) (set : string -> result ArgsError A) : result ArgsError (A * list string) :=
  let? x := next_arg args flag in
  let? a := set x.1 in
  Ok (a, x.2).

(** One pass of the loop over the arguments, the flag at hand being [arg]. *)
Definition read_arg (arg : string) (args : list string) (a : PullArgs) : result ArgsError (PullArgs * list string) :=
  let '(mkPullArgs f t s k c b) := a in
  if String.eqb arg "--from" then take_value args arg (fun v => Ok (mkPullArgs (Some v) t s k c b))
  else if String.eqb arg "--to" then take_value args arg (fun v => Ok (mkPullArgs f (Some v) s k c b))
  else if String.eqb arg "--source" then take_value args arg (fun v => Ok (mkPullArgs f t (Some v) k c b))
  else if String.eqb arg "--key" then take_value args arg (fun v => Ok (mkPullArgs f t s (Some v) c b))
  else if String.eqb arg "--cursor-file" then take_value args arg (fun v => Ok (mkPullArgs f t s k (Some v) b))
  else if String.eqb arg "--batch" then
    take_value args arg (fun v =>
      let? n := ok_or (parse_usize v) (BadArgument "--batch requires a positive integer") in
      Ok (mkPullArgs f t s k c n))
  else if is_help arg then Err HelpPrinted
  else Err (BadArgument ("unknown argument: " +:+ arg)).

(** Every pass takes an argument: their number is enough fuel. *)
Fixpoint read_args (fuel : nat) (args : list string) (a : PullArgs) : result ArgsError PullArgs :=
  match fuel, args with
  | S fuel, arg :: rest => let? x := read_arg arg rest a in read_args fuel x.2 x.1
  | _, _ => Ok a
  end.

Definition required (o : option string) (what : string) : result ArgsError string :=
  ok_or o (BadArgument (what +:+ " is required")).

Definition from_args (args : list string) : result ArgsError PullConfig :=
  let? a := read_args (length args) args no_args in
  let? from := required (pa_from a) "--from <rendezvous base URL>" in
  let? to := required (pa_to a) "--to <local relay base URL>" in
  let? source := required (pa_source a) "--source <stream id>" in
  let? key_file := required (pa_key_file a) "--key <nsec hex file>" in
  let? cursor_file := required (pa_cursor_file a) "--cursor-file <path>" in
  Ok (mkPullConfig (trim_end_matches "/" from) (trim_end_matches "/" to) source key_file cursor_file (pa_batch_size a)).

(** ** Remote nodes *)

(** [read] is one [POST /replication/read], and whatever the node takes in
    meanwhile; [Err] is a failed request, a refused status or an unreadable
    batch. *)
Class Origin (O : Type) := {
  read : O -> ReplicationSourceId -> option ReplicationCursor -> nat -> O * result string ReplicationBatch;
}.

(** What a remote node promises.  The cursors it issues stand for positions,
    the events it exports lie at positions above zero, what it takes in lies
    above every position it has handed out, and a page holds every export
    between its two ends. *)
Class OriginLaws (O : Type) `{Origin O} := {
  position : ReplicationCursor -> option nat;
  published : O -> nat -> Event -> Prop;
  newest : O -> nat;
  published_within : forall o q e, published o q e -> 0 < q <= newest o;
  read_grows : forall o src c limit o' res, read o src c limit = (o', res) ->
    newest o <= newest o' /\
    (forall q e, published o q e -> published o' q e) /\
    (forall q e, published o' q e -> published o q e \/ newest o < q);
  read_page : forall o src c limit o' batch, read o src c limit = (o', Ok batch) ->
    exists p q,
      match c with Some c => position c | None => Some 0 end = Some p /\
      position (rb_next_cursor batch) = Some q /\ p <= q /\ (p <= newest o -> q <= newest o') /\
      (forall r e, published o' r e -> p < r <= q -> exists x, x ∈ rb_records batch /\ rr_event x = e) /\
      (rb_caught_up batch = true -> newest o' <= q) /\ (rb_caught_up batch = false -> p < q);
  position_torn : forall c q t r c' q', position c = Some q -> c = t +:+ r ->
    load_cursor (Some t) = Some c' -> position c' = Some q' -> q' <= q;
}.

(** ** The loop *)

Inductive PullError :=
| PullReadFailed (error : string)
| PullSerializeFailed (error : string)
| PullIngestFailed (error : string)
| PullHalted (receipt : ReplicationReceipt)
| PullPersistFailed (error : string)
| PullOutOfFuel.

Record PullState (O D : Type) := mkPullState {
  pl_origin : O;
  pl_dest : D;
  pl_cursor : option ReplicationCursor;
  pl_file : option string;
  pl_pulled : nat;
  pl_writes : nat;
}.
Arguments mkPullState {O D} _ _ _ _ _ _.
Arguments pl_origin {O D} _.
Arguments pl_dest {O D} _.
Arguments pl_cursor {O D} _.
Arguments pl_file {O D} _.
Arguments pl_pulled {O D} _.
Arguments pl_writes {O D} _.

Section pull.
Context {O D : Type} `{!Origin O, !Destination D}.
Variable records_to_vec : list ReplicationRecord -> result string string.
Variable persist_outcome : nat -> PersistOutcome.

Definition pull_origin (st : PullState O D) (o : O) : PullState O D :=
  mkPullState o (pl_dest st) (pl_cursor st) (pl_file st) (pl_pulled st) (pl_writes st).
Definition pull_dest (st : PullState O D) (d : D) (pulled : nat) : PullState O D :=
  mkPullState (pl_origin st) d (pl_cursor st) (pl_file st) pulled (pl_writes st).

(** The records of a page, to the local relay. *)
Definition pull_ingest (st : PullState O D) (records : list ReplicationRecord) : PullState O D * result PullError unit :=
  match records with
  | [] => (st, Ok tt)
  | _ =>
      match records_to_vec records with
      | Err error => (st, Err (PullSerializeFailed error))
      | Ok ingest_body =>
          match post (pl_dest st) records ingest_body with
          | (d, Err error) => (pull_dest st d (pl_pulled st), Err (PullIngestFailed error))
          | (d, Ok receipts) =>
              match List.find (fun c => negb (checkpoint_safe c)) receipts with
              | Some receipt => (pull_dest st d (pl_pulled st), Err (PullHalted receipt))
              | None => (pull_dest st d (pl_pulled st + length receipts), Ok tt)
              end
          end
      end
  end.

(** The checkpoint: in the file, then in memory. *)
Definition pull_checkpoint (st : PullState O D) (cursor : ReplicationCursor) : PullState O D * result PullError unit :=
  match persist_cursor (persist_outcome (pl_writes st)) (pl_file st) cursor with
  | (file, Err error) =>
      (mkPullState (pl_origin st) (pl_dest st) (pl_cursor st) file (pl_pulled st) (S (pl_writes st)), Err (PullPersistFailed error))
  | (file, Ok _) => (mkPullState (pl_origin st) (pl_dest st) (Some cursor) file (pl_pulled st) (S (pl_writes st)), Ok tt)
  end.

Fixpoint pull_loop (fuel : nat) (source : ReplicationSourceId) (batch_size : nat) (st : PullState O D)
    : PullState O D * result PullError unit :=
  match fuel with
  | 0 => (st, Err PullOutOfFuel)
  | S fuel =>
      match read (pl_origin st) source (pl_cursor st) batch_size with
      | (o, Err error) => (pull_origin st o, Err (PullReadFailed error))
      | (o, Ok batch) =>
          match pull_ingest (pull_origin st o) (rb_records batch) with
          | (st, Err error) => (st, Err error)
          | (st, Ok _) =>
              match pull_checkpoint st (rb_next_cursor batch) with
              | (st, Err error) => (st, Err error)
              | (st, Ok _) => if rb_caught_up batch then (st, Ok tt) else pull_loop fuel source batch_size st
              end
          end
      end
  end.

(** A run of the program on a cursor file. *)
Definition pull_main (fuel : nat) (cfg : PullConfig) (o : O) (d : D) (file : option string) : PullState O D * result PullError unit :=
  pull_loop fuel (pc_source cfg) (pc_batch_size cfg) (mkPullState o d (load_cursor file) file 0 0).
End pull.

(** ** Safety *)

Section pull_theory.
Context {O D : Type} `{OO : !Origin O, OL : !OriginLaws O, DD : !Destination D, DL : !DestinationLaws D}.
Variable records_to_vec : list ReplicationRecord -> result string string.
Variable persist_outcome : nat -> PersistOutcome.
Hypothesis records_decode : forall rs body, records_to_vec rs = Ok body -> request_of rs body.

(** Everything the remote exports up to position [q] is held. *)
Definition pulled_upto (o : O) (d : D) (q : nat) : Prop :=
  q <= newest o /\ forall r e, published o r e -> r <= q -> acked d e.

(** The cursor a run would start from, when it is one, covers only what is held. *)
Definition pull_file_safe (o : O) (d : D) (file : option string) : Prop :=
  forall c q, load_cursor file = Some c -> position c = Some q -> pulled_upto o d q.

Lemma pulled_upto_mono o d q q' : q' <= q -> pulled_upto o d q -> pulled_upto o d q'.
Proof. intros Hq [Hn Hs]. split; [lia|]. intros r e Hr Hle. apply (Hs r e Hr). lia. Qed.

Lemma pulled_upto_grows o o' d d' q src c limit res :
  read o src c limit = (o', res) -> keeps d d' -> pulled_upto o d q -> pulled_upto o' d' q.
Proof.
  intros (Hn & _ & Hnew)%read_grows Hk [Hq Hs]. split; [lia|]. intros r e Hr Hle.
  destruct (Hnew r e Hr) as [?|]; [|lia]. by eapply Hk, Hs.
Qed.

Lemma pull_file_grows o o' d d' file src c limit res :
  read o src c limit = (o', res) -> keeps d d' -> pull_file_safe o d file -> pull_file_safe o' d' file.
Proof. intros Hr Hk Hs c' q Hc Hq. eapply pulled_upto_grows; eauto. Qed.

Lemma answered_all acked0 rs cs :
  answered acked0 rs cs -> List.find (fun c => negb (checkpoint_safe c)) cs = None -> forall r, r ∈ rs -> acked0 (rr_event r).
Proof.
  induction 1 as [|r rs c cs Hc Hsafe Hack Hans IH|r rs c Hbad]; cbn [List.find]; [set_solver| |by rewrite Hbad].
  rewrite Hsafe. cbn. intros Hf x [->|Hx]%elem_of_cons; [done|auto].
Qed.

(** Handing over a page keeps what was held, and adds its records when it
    succeeds. *)
Lemma pull_ingest_safe (st : PullState O D) records st' res :
  pull_ingest records_to_vec st records = (st', res) ->
  pl_origin st' = pl_origin st /\ pl_cursor st' = pl_cursor st /\ pl_file st' = pl_file st /\ keeps (pl_dest st) (pl_dest st') /\
  res <> Err PullOutOfFuel /\ (res = Ok tt -> forall r, r ∈ records -> acked (pl_dest st') (rr_event r)).
Proof using records_decode DL.
  unfold pull_ingest. destruct records as [|r rs]; [intros [= <- <-]; split_and!; try done; [by intros e|by intros _ r ?%not_elem_of_nil]|].
  destruct (records_to_vec (r :: rs)) as [body|error] eqn:Eb; [|intros [= <- <-]; split_and!; try done; by intros e].
  destruct (post (pl_dest st) (r :: rs) body) as [d [cs|error]] eqn:Ep.
  - assert (keeps (pl_dest st) d) as Hk by (intros e; exact (post_keeps _ _ _ _ _ e Ep)).
    pose proof (post_answers _ _ _ _ _ (records_decode _ _ Eb) Ep) as Ha.
    destruct (List.find _ cs) as [bad|] eqn:Ef; intros [= <- <-]; split_and!; try done. intros _. by eapply answered_all.
  - intros [= <- <-]. split_and!; try done. intros e. exact (post_keeps _ _ _ _ _ e Ep).
Qed.

(** A write of the cursor file, whatever becomes of it. *)
Lemma pull_checkpoint_safe (st : PullState O D) c q st' res :
  position c = Some q -> pulled_upto (pl_origin st) (pl_dest st) q -> pull_file_safe (pl_origin st) (pl_dest st) (pl_file st) ->
  pull_checkpoint persist_outcome st c = (st', res) ->
  pl_origin st' = pl_origin st /\ pl_dest st' = pl_dest st /\ pull_file_safe (pl_origin st) (pl_dest st) (pl_file st') /\
  res <> Err PullOutOfFuel /\ (res = Ok tt -> pl_cursor st' = Some c).
Proof using Type.
  intros Hc Hs Hf. unfold pull_checkpoint, persist_cursor.
  assert (forall t r, c = t +:+ r -> pull_file_safe (pl_origin st) (pl_dest st) (Some t)) as Hpre.
  { intros t r Et c' q' Hl Hq'. eapply pulled_upto_mono; [|exact Hs]. by eapply position_torn. }
  destruct (persist_outcome (pl_writes st)) as [|error|bytes error]; intros [= <- <-]; cbn; split_and!; try done.
  - apply (Hpre c EmptyString). by rewrite str_app_nil_r.
  - destruct (substring_prefix bytes c) as [r Hr]. by eapply Hpre.
Qed.

(** Where a run stands before a page: the file is safe, and so is the cursor
    when the remote knows it. *)
Definition pull_ready (st : PullState O D) (p : nat) : Prop :=
  pull_file_safe (pl_origin st) (pl_dest st) (pl_file st) /\
  match pl_cursor st with
  | Some c => forall q, position c = Some q -> q = p /\ pulled_upto (pl_origin st) (pl_dest st) p
  | None => p = 0
  end.

Lemma pull_loop_safe fuel src limit (st : PullState O D) p st' res :
  pull_ready st p -> pull_loop records_to_vec persist_outcome fuel src limit st = (st', res) ->
  pull_file_safe (pl_origin st') (pl_dest st') (pl_file st') /\ keeps (pl_dest st) (pl_dest st') /\
  newest (pl_origin st) <= newest (pl_origin st') /\
  (newest (pl_origin st') - p < fuel -> res <> Err PullOutOfFuel) /\
  (res = Ok tt -> forall q e, published (pl_origin st') q e -> acked (pl_dest st') e).
Proof using records_decode.
  revert st p. induction fuel as [|fuel IH]; intros st p [Hf Hc]; cbn [pull_loop].
  { intros [= <- <-]. split_and!; try done; [by intros e|lia]. }
  destruct (read _ _ _ _) as [o [batch|error]] eqn:Er.
  2: { intros [= <- <-]. cbn. split_and!; try done; [|by intros e|by apply read_grows in Er as [? _]].
       eapply pull_file_grows; [exact Er|by intros e|done]. }
  destruct (read_page _ _ _ _ _ _ Er) as (p0 & q & Hp0 & Hq & Hle & Hqn & Hrecs & Hup & Hprog).
  pose proof (read_grows _ _ _ _ _ _ Er) as (Hn & _ & _).
  destruct (pull_ingest _ _ _) as [st1 r1] eqn:Ei.
  destruct (pull_ingest_safe _ _ _ _ Ei) as (Ho1 & Hc1 & Hf1 & Hk1 & Hout1 & Hall). cbn in Ho1, Hc1, Hf1, Hk1.
  assert (p0 = p /\ pulled_upto (pl_origin st) (pl_dest st) p) as [-> Hsafe].
  { destruct (pl_cursor st) as [c|]; [by apply Hc|]. injection Hp0 as <-. subst p. split; [done|].
    split; [lia|]. intros r e Hr%published_within ?. lia. }
  assert (pull_file_safe (pl_origin st1) (pl_dest st1) (pl_file st1)) as Hfile.
  { rewrite Ho1, Hf1. by eapply pull_file_grows. }
  destruct r1 as [[]|error].
  2: { intros [= <- <-]. rewrite Ho1 in *. by split_and!. }
  assert (pulled_upto (pl_origin st1) (pl_dest st1) q) as Hnext.
  { rewrite Ho1. split; [apply Hqn, Hsafe|]. intros r e Hr Hrq. destruct (le_lt_dec r p) as [Hrp|Hrp].
    - eapply (pulled_upto_grows _ _ _ _ p); [exact Er|exact Hk1|exact Hsafe|exact Hr|done].
    - destruct (Hrecs r e Hr (conj Hrp Hrq)) as (x & Hx & <-). by apply Hall. }
  destruct (pull_checkpoint _ _ _) as [st2 r2] eqn:Ec.
  destruct (pull_checkpoint_safe _ _ q _ _ Hq Hnext Hfile Ec) as (Ho2 & Hd2 & Hf2 & Hout2 & Hcur). rewrite <-Ho2, <-Hd2 in Hf2.
  destruct r2 as [[]|error].
  2: { intros [= <- <-]. rewrite Hd2, Ho2, Ho1 in *. by split_and!. }
  specialize (Hcur eq_refl). destruct (rb_caught_up batch).
  - intros [= <- <-]. rewrite Hd2, Ho2 in *. split_and!; try done; [by rewrite Ho1|].
    intros _ r e Hr. apply (proj2 Hnext r e Hr). apply published_within in Hr. rewrite Ho1 in Hr. specialize (Hup eq_refl). lia.
  - intros Hrun. destruct (IH st2 q) as (H1 & H2 & H3 & H4 & H5); [|done|].
    { split; [done|]. rewrite Hcur. intros q' Hq'. rewrite Hq in Hq'. injection Hq' as <-. split; [done|]. by rewrite Ho2, Hd2. }
    rewrite Hd2 in H2. rewrite Ho2, Ho1 in H3. split_and!; try done; [intros e He; by apply H2, Hk1|lia|].
    specialize (Hprog eq_refl). intros Hfuel. apply H4. destruct Hnext as [Hqn' _]. rewrite Ho1 in Hqn'. lia.
Qed.

(** A run of the program from a safe file. *)
Lemma pull_main_safe fuel cfg o d file (st' : PullState O D) res :
  pull_file_safe o d file -> pull_main records_to_vec persist_outcome fuel cfg o d file = (st', res) ->
  pull_file_safe (pl_origin st') (pl_dest st') (pl_file st') /\ keeps d (pl_dest st') /\
  (newest (pl_origin st') < fuel -> res <> Err PullOutOfFuel) /\
  (res = Ok tt -> forall q e, published (pl_origin st') q e -> acked (pl_dest st') e).
Proof using records_decode.
  intros Hf Hrun. set (p := default 0 (c ← load_cursor file; position c)).
  destruct (pull_loop_safe fuel (pc_source cfg) (pc_batch_size cfg) (mkPullState o d (load_cursor file) file 0 0) p st' res)
    as (H1 & H2 & _ & H4 & H5); [|exact Hrun|].
  - split; [done|]. cbn [pl_cursor pl_origin pl_dest]. unfold p. specialize (Hf). destruct (load_cursor file) as [c|] eqn:El; [|done].
    intros q Hq. cbn. rewrite Hq. split; [done|]. by apply (Hf c).
  - split_and!; try done. intros Hfuel. apply H4. lia.
Qed.
End pull_theory.

(** ** A node that exports its journal while it grows *)

Section growing.
Context `{NL : NostrLib}.
Variables (now : N) (src : LocalReplicationSource).

(** A journal, and what arrives before each of the reads to come. *)
Record GrowingNode := mkGrowing { gn_store : StoreInner; gn_arrivals : list (list Event) }.

Definition append_journal (inner : StoreInner) (es : list Event) : StoreInner :=
  mkStoreInner (events inner) (journal inner ++ es) (seen_ids inner) (log inner).

Definition gn_next (o : GrowingNode) : GrowingNode :=
  mkGrowing (append_journal (gn_store o) (default [] (head (gn_arrivals o)))) (tail (gn_arrivals o)).

Definition read_growing (o : GrowingNode) (stream : ReplicationSourceId) (c : option ReplicationCursor) (limit : nat)
    : GrowingNode * result string ReplicationBatch :=
  let o := gn_next o in
  (o, let? _ := ensure (String.eqb stream (src_source src) && (N.of_nat (length (journal (gn_store o))) <=? u64_max)%N) "denied" in
      map_err (fun _ => "invalid read") (read_batch now src (gn_store o) c limit)).

Instance growing_origin : Origin GrowingNode := {| read := read_growing |}.

Definition exported_at (o : GrowingNode) (q : nat) (e : Event) : Prop :=
  0 < q /\ journal (gn_store o) !! (q - 1) = Some e /\ exports now src e = true.

Lemma exported_record es p i e :
  es !! i = Some e -> exports now src e = true -> exists x, x ∈ exported_from now src p es /\ rr_event x = e.
Proof using Type.
  intros Hi He. assert (e ∈ rr_event <$> exported_from now src p es) as H.
  { rewrite exported_from_events. apply elem_of_filter_b. split; [by eapply list_elem_of_lookup_2|done]. }
  apply list_elem_of_fmap in H as (x & -> & Hx). eauto.
Qed.

Lemma read_batch_page inner c limit b :
  read_batch now src inner c limit = Ok b ->
  limit <> 0 /\ exists p, cursor_at c p /\ p <= length (journal inner).
Proof using Type.
  unfold read_batch. destruct (Nat.eqb_spec limit 0); [done|]. intros H. split; [done|].
  assert (exists p, cursor_at c p /\ (length (journal inner) <? p)%nat = false) as (p & Hc & Hp).
  { destruct c as [c|]; cbn [cursor_at].
    - destruct (parse_local_replication_cursor c) as [p|]; [|done]. exists p. split; [done|]. by destruct (_ <? p)%nat.
    - by exists 0. }
  apply Nat.ltb_ge in Hp. eauto.
Qed.

Instance growing_origin_laws : OriginLaws GrowingNode.
Proof using Type.
  refine {| position := fun c => res_ok (parse_local_replication_cursor c);
            published := exported_at; newest := fun o => length (journal (gn_store o)) |}.
  - intros o q e (Hq & Hj & _). apply lookup_lt_Some in Hj. lia.
  - intros o s c limit o' res [= <- _]. cbn. rewrite length_app. split_and!; [lia|..]; intros q e (Hq & Hj & He); cbn in Hj.
    + split_and!; [done| |done]. cbn. by apply lookup_app_l_Some.
    + apply lookup_app_Some in Hj as [Hj|[Hle _]]; [left; by split_and!|right; lia].
  - intros o s c limit o' batch. cbn [read growing_origin]. unfold read_growing. generalize (gn_next o). intros o1 [= <- H].
    destruct (ensure _ _) as [[]|] eqn:Ee; [|done]. apply ensure_ok in Ee as [_ Hfit]%andb_true_iff. apply N.leb_le in Hfit.
    apply map_err_ok in H. destruct (read_batch_page _ _ _ _ H) as (Hl & p & Hc & Hp).
    rewrite (read_batch_ok now src _ c p limit Hl Hc Hp) in H. injection H as <-. cbn [rb_records rb_next_cursor rb_caught_up].
    set (len := length (journal (gn_store o1))) in *. set (q := page_end p limit len).
    pose proof (page_end_bounds p limit len Hp) as Hb. pose proof (page_end_progress p limit len Hl Hp) as Hg. fold q in Hb, Hg.
    exists p, q. split_and!; try lia.
    + destruct c as [c|]; cbn in Hc |- *; [by rewrite Hc|by subst].
    + assert (cursor_at (Some (local_replication_cursor q)) q) as Hcq by (apply cursor_at_local; lia). cbv beta. unfold cursor_at in Hcq. by rewrite Hcq.
    + intros r e (Hr & Hj & He) Hpr. apply (exported_record _ p (r - 1 - p) e); [|done].
      rewrite lookup_take_lt by lia. rewrite lookup_drop. replace (p + (r - 1 - p)) with (r - 1) by lia. exact Hj.
  - intros c q t r c' q' Hc Et Hl Hc'. destruct (parse_local_replication_cursor c) as [q0|] eqn:Ec; [|done].
    destruct (parse_local_replication_cursor c') as [q1|] eqn:Ec'; [|done]. injection Hc as ->. injection Hc' as ->.
    by eapply (cursor_prefix c t r).
Defined.
End growing.
