(* ===== verification/RelayTheory.v ===== *)
(** * What the local relay guarantees

    Provenance of the journal, single acceptance and the replication sink as a
    destination for a pusher, for the handlers of [Relay.v] and
    [RelayApi.v]. *)

From S2P Require Import Prelude Text Nostr Demo Kinds Ingest FilterMatch Store StoreTheory Replication.
From S2P Require Import Auth Identity Declarations Relay RelayApi Push Pull.

Section provenance.
Context `{NL : NostrLib, SJ : SerdeJson, UL : UrlLib, SL : SigningLib, SLL : !SigningLaws NL SL}.

(** The store remembers what it holds; its journal is verified and durable. *)
Record store_ok (s : StoreInner) : Prop := {
  so_seen : forall e, e ∈ events_of (events s) -> ev_id e ∈ seen_ids s;
  so_journal : forall e, e ∈ journal s ->
    ev_id e ∈ seen_ids s /\ verify_event e = Ok tt /\ durable e;
  so_nodup : NoDup (ev_id <$> journal s);
}.

Lemma apply_effective_event_ids eff s e :
  e ∈ events_of (apply_effective_event eff s).1 -> e ∈ events_of eff \/ e = StoredEvent.event s.
Proof.
  unfold apply_effective_event. case_bool_decide; simpl; [|by left].
  destruct (_ ≫= _) as [i|]; simpl.
  - unfold events_of. intros (x & -> & Hx)%list_elem_of_fmap. apply list_elem_of_lookup in Hx as [j Hj].
    apply list_lookup_insert_Some in Hj as [(_ & -> & _)|[_ Hj]]; [by right|left].
    apply list_elem_of_fmap_2. by eapply list_elem_of_lookup_2.
  - unfold events_of. rewrite fmap_app. intros [?| ->%list_elem_of_singleton]%elem_of_app; by auto.
Qed.

(** One accept: the store stays sound, keeps what it has seen, and journals the
    event or nothing; an accepted event is seen from then on. *)
Lemma accept_ok env s e s' r :
  store_ok s -> accept env s e = (s', r) ->
  store_ok s' /\ seen_ids s ⊆ seen_ids s' /\
  (exists js, journal s' = journal s ++ js /\ (js = [] \/ js = [e])) /\
  (forall w, r = Ok w -> WriteResult.accepted w = true -> ev_id e ∈ seen_ids s').
Proof.
  intros [Hseen Hjour Hnd] E.
  destruct (accept_cases _ _ _ _ _ E) as [(err & ->)|[(_ & -> & reason & ->)|(Hv & msg & lv & -> & Hst)]].
  - apply accept_err in E as (E1 & E2 & E3). split_and!.
    + split; rewrite ?E1, ?E2, ?E3; done.
    + by rewrite E3.
    + exists []. rewrite app_nil_r. auto.
    + done.
  - split_and!; [by split|done|exists []; rewrite app_nil_r; auto|]. by intros w [= <-].
  - destruct Hst as [Hd|Hd|Hd|l Hd _]; simpl.
    + split_and!; [by split|done|exists []; rewrite app_nil_r; auto|]. intros _ _ _.
      destruct (decide (ev_id e ∈ seen_ids s)) as [|Hn]; [done|].
      rewrite bool_decide_false in Hd by done. apply decide_duplicate in Hd as (x & Hx & <-). by apply Hseen.
    + split_and!; [split; simpl; [set_solver|set_solver|done]|set_solver|exists []; rewrite app_nil_r; auto|set_solver].
    + split_and!; [split; simpl; [set_solver|set_solver|done]|set_solver|exists []; rewrite app_nil_r; auto|set_solver].
    + assert (~ ev_id e ∈ seen_ids s) as Hn.
      { intros Hin. by rewrite bool_decide_true in Hd. }
      split_and!; [|set_solver|exists [e]; auto|set_solver]. split; simpl.
      * intros x [Hx| ->]%apply_effective_event_ids; [apply Hseen in Hx; set_solver|set_solver].
      * intros x [Hx| ->%list_elem_of_singleton]%elem_of_app.
        -- destruct (Hjour x Hx) as (? & ? & ?). split_and!; try done. set_solver.
        -- split_and!; [set_solver|done|]. by eapply decide_stored_not_ephemeral.
      * rewrite fmap_app. apply NoDup_snoc_iff. split; [done|].
        intros (x & Hid & Hx)%list_elem_of_fmap. apply Hn. rewrite Hid. by apply Hjour.
Qed.

Definition relay_signed (r : LocalRelay) (e : Event) : Prop :=
  exists keys, relay_keys r = Some keys /\ ev_pubkey e = public_key keys.

(** The relay's configuration, which no request changes. *)
Definition same_config (r r' : LocalRelay) : Prop :=
  replication_policy r' = replication_policy r /\ governance r' = governance r /\
  relay_keys r' = relay_keys r /\ peer_trust <$> identity r' = peer_trust <$> identity r.

(** A transition that journals only events satisfying [P]. *)
Record extends (P : Event -> Prop) (r r' : LocalRelay) : Prop := {
  ex_ok : store_ok (relay_store r');
  ex_seen : seen_ids (relay_store r) ⊆ seen_ids (relay_store r');
  ex_journal : exists js, journal (relay_store r') = journal (relay_store r) ++ js /\ Forall P js;
  ex_config : same_config r r';
}.

Lemma extends_refl P r : store_ok (relay_store r) -> extends P r r.
Proof. intros H. split; [done|done|exists []; by rewrite app_nil_r|by repeat split]. Qed.

Lemma extends_trans P r1 r2 r3 : extends P r1 r2 -> extends P r2 r3 -> extends P r1 r3.
Proof.
  intros [H1 H2 (js & H3 & H3') (H4 & H5 & H6 & H6')] [H1' H2' (js' & H7 & H7') (H8 & H9 & H10 & H11)]. split; [done| | |].
  - by etrans.
  - exists (js ++ js'). rewrite H7, H3, app_assoc. split; [done|]. by apply Forall_app.
  - unfold same_config. by rewrite H8, H9, H10, H11.
Qed.

Lemma extends_impl (P Q : Event -> Prop) r r' : (forall e, P e -> Q e) -> extends P r r' -> extends Q r r'.
Proof.
  intros HPQ [H1 H2 (js & H3 & H3') H4]. split; try done. exists js. split; [done|].
  eapply Forall_impl; [exact H3'|done].
Qed.

(** Transitions that leave the store and the configuration alone. *)
Lemma extends_same P r r' :
  store_ok (relay_store r) -> relay_store r' = relay_store r -> same_config r r' -> extends P r r'.
Proof. intros H E Hc. split; rewrite ?E; try done. exists []. by rewrite app_nil_r. Qed.

Lemma extends_accept (P : Event -> Prop) env r e s res :
  store_ok (relay_store r) -> P e -> accept env (relay_store r) e = (s, res) ->
  extends P r (with_store r s) /\
  (forall w, res = Ok w -> WriteResult.accepted w = true -> ev_id e ∈ seen_ids s).
Proof.
  intros Hok HP E. destruct (accept_ok _ _ _ _ _ Hok E) as (H1 & H2 & (js & H3 & H4) & H5).
  split; [|done]. split; [done|done| |by repeat split]. exists js. split; [done|].
  destruct H4 as [->| ->]; [done|by constructor].
Qed.

Lemma extends_live P r e : store_ok (relay_store r) -> extends P r (send_live r e).
Proof. intros. by apply extends_same; [..|repeat split]. Qed.

(** Projections are the relay's own statements. *)
Lemma project_group_create_signed r e projected :
  project_group_create r e = Ok projected -> Forall (relay_signed r) projected.
Proof using SLL.
  unfold project_group_create. destruct (relay_keys r) as [keys|] eqn:Ek; [|by intros [= <-]].
  intros H. repeat (case_match; try done; []). revert H. apply map_res_forall.
  intros [kind tags] y. simpl. destruct (sign_with_keys _ _ _ _ _) as [ev|] eqn:Es; [|done].
  intros [= <-]. exists keys. split; [done|]. by apply sign_ok in Es as (_ & -> & _).
Qed.

Lemma publish_projected_events_extends (P : Event -> Prop) env i r projected r' res :
  store_ok (relay_store r) -> Forall P projected ->
  publish_projected_events env i r projected = (r', res) -> extends P r r'.
Proof.
  revert i r. induction projected as [|e rest IH]; intros i r Hok HP; simpl.
  { intros [= <- <-]. by apply extends_refl. }
  apply Forall_cons in HP as [He HP].
  destruct (accept _ (relay_store r) e) as [s [w|err]] eqn:E.
  - destruct (extends_accept P _ _ _ _ _ Hok He E) as [Hx _]. intros Hrun.
    eapply extends_trans; [exact Hx|]. destruct (WriteResult.publish_live w); [|by eapply IH; [apply Hx|..]].
    eapply extends_trans; [by apply extends_live, Hx|]. eapply IH; [apply Hx|done|exact Hrun].
  - intros [= <- <-]. by destruct (extends_accept P _ _ _ _ _ Hok He E).
Qed.

Lemma record_beacon_response_store now r e r' b :
  record_beacon_response now r e = (r', b) -> relay_store r' = relay_store r /\ same_config r r' /\
    identity r' = identity r /\ artifacts_dir r' = artifacts_dir r /\ live r' = live r.
Proof.
  unfold record_beacon_response. intros H. repeat case_match; simplify_eq; by repeat split.
Qed.

Lemma publish_pulse_extends P now r : store_ok (relay_store r) -> extends P r (publish_pulse now r).
Proof.
  intros H. unfold publish_pulse. destruct (current_pulse now r) as [p|]; [|by apply extends_refl].
  apply extends_same; [done|by destruct p as [? []]|by destruct p as [? []]].
Qed.

(** Submission journals the event and relay-signed projections, no more. *)
Lemma submit_from_extends env r e principal r' res :
  store_ok (relay_store r) -> submit_from env r e principal = (r', res) ->
  extends (fun x => x = e \/ relay_signed r x) r r' /\
  (forall w, res = Ok w -> WriteResult.accepted w = true -> ev_id e ∈ seen_ids (relay_store r')).
Proof using SLL.
  intros Hok. unfold submit_from.
  destruct (_ && negb (pulse_visible_to r principal)).
  { intros [= <- <-]. split; [by apply extends_refl|]. by intros w [= <-]. }
  set (proj := if (_ =? _)%N then project_group_create r e else Ok []).
  assert (forall projected, proj = Ok projected -> Forall (relay_signed r) projected) as Hproj.
  { intros projected. unfold proj. destruct (_ =? _)%N; [apply project_group_create_signed|by intros [= <-]]. }
  destruct proj as [projected|[reason|reason]] eqn:Ep.
  2: { intros [= <- <-]. split; [by apply extends_refl|]. by intros w [= <-]. }
  2: { intros [= <- <-]. split; [by apply extends_refl|]. by intros w [= <-]. }
  specialize (Hproj projected eq_refl).
  destruct (accept _ (relay_store r) e) as [s [w|err]] eqn:Ea.
  2: { intros [= <- <-]. split; [|done].
       by destruct (extends_accept (fun x => x = e \/ relay_signed r x) _ _ _ _ _ Hok (or_introl eq_refl) Ea). }
  destruct (extends_accept (fun x => x = e \/ relay_signed r x) _ _ _ _ _ Hok (or_introl eq_refl) Ea)
    as [Hx Hacc]. specialize (Hacc w eq_refl).
  set (rb := if _ && _ && _ then _ else _). destruct rb as [r1 refused] eqn:Erb.
  assert (relay_store r1 = s /\ same_config (with_store r s) r1) as [Hs1 Hc1].
  { revert Erb. unfold rb. destruct (_ && _ && _); [|intros [= <- _]; by repeat split].
    destruct (record_beacon_response _ _ _) as [r2 b] eqn:Er. intros [= <- _].
    by apply record_beacon_response_store in Er as (-> & ? & _). }
  assert (extends (fun x => x = e \/ relay_signed r x) r r1) as Hx1.
  { eapply extends_trans; [exact Hx|]. apply extends_same; [apply Hx|by rewrite Hs1|done]. }
  destruct refused.
  { intros [= <- <-]. split; [done|]. by intros w' [= <-]. }
  destruct (WriteResult.publish_live w).
  2: { intros [= <- <-]. split; [done|]. rewrite Hs1. by intros w' [= <-]. }
  destruct (publish_projected_events env 1 (send_live r1 e) projected) as [r2 res2] eqn:Ep2.
  assert (extends (fun x => x = e \/ relay_signed r x) r1 r2) as Hx2.
  { eapply extends_trans; [apply extends_live, Hx1|].
    eapply publish_projected_events_extends; [apply Hx1| |exact Ep2].
    eapply Forall_impl; [exact Hproj|]. by right. }
  assert (WriteResult.accepted w = true -> ev_id e ∈ seen_ids (relay_store r2)) as Hacc2.
  { intros Hw. apply (ex_seen _ _ _ Hx2). rewrite Hs1. by apply Hacc. }
  destruct res2 as [[]|err]; intros [= <- <-].
  2: { split; [by eapply extends_trans|done]. }
  destruct (String.eqb _ "stored").
  - pose proof (publish_pulse_extends (fun x => x = e \/ relay_signed r x) (re_now env) r2 (ex_ok _ _ _ Hx2)) as Hx3.
    split; [eapply extends_trans; [|exact Hx3]; by eapply extends_trans|].
    intros w' [= <-] Hw. apply (ex_seen _ _ _ Hx3). by apply Hacc2.
  - split; [by eapply extends_trans|]. intros w' [= <-] Hw. by apply Hacc2.
Qed.
End provenance.

(** ** Authenticated requests *)

Section http_provenance.
Context `{NL : NostrLib, SJ : SerdeJson, UL : UrlLib, SL : SigningLib, SLL : !SigningLaws NL SL, HTL : !HttpLib}.

(** The evidence of one HTTP request: a genuine, fresh NIP-98 event for this
    URL and method, whose payload tag - when it has a value - is the digest of
    this body. *)
Record http_proof (now : N) (headers : Headers) (method path body : string) (proof : Event) : Prop := {
  hp_fresh : fresh_proof 27235 proof now;
  hp_url : exists host u, h_host headers = Some host /\ host <> EmptyString /\
    find_content (SingleLetterLower "u") proof = Some u /\
    normalize_url u = normalize_url ("http://" +:+ host +:+ path);
  hp_method : exists m, find_content TK_Method proof = Some m /\ eq_ignore_ascii_case m method = true;
  hp_payload : tags_find TK_Payload (ev_tags proof) <> None /\
    forall h, find_content TK_Payload proof = Some h -> sha256_hex body = h;
}.

Lemma authenticate_http_proof env r headers method path body a r' res :
  identity r = Some a ->
  authenticate_http_method env r headers method path body = (r', res) ->
  (exists a', r' = with_identity r a' /\ peer_trust a' = peer_trust a) /\
  (forall p, res = Ok p -> exists principal proof, p = Some principal /\
     http_proof (re_now env) headers method path body proof /\
     ap_principal principal = P_Nostr (ev_pubkey proof)).
Proof.
  intros Ha. assert (r = with_identity r a) as Hr by (destruct r; simpl in *; by subst).
  assert (exists a', r = with_identity r a' /\ peer_trust a' = peer_trust a) as Hsame by by exists a.
  unfold authenticate_http_method. rewrite Ha.
  destruct (h_host headers) as [[|c host]|] eqn:Eh; try (intros [= <- <-]; split; [done|by intros ? [=]]).
  destruct (h_authorization headers ≫= _) as [enc|]; [|intros [= <- <-]; split; [done|by intros ? [=]]].
  destruct (base64_decode enc) as [dec|]; [|intros [= <- <-]; split; [done|by intros ? [=]]].
  destruct (negb (valid_utf8 dec)); [intros [= <- <-]; split; [done|by intros ? [=]]|].
  destruct (authenticate_at _ a _ _ _) as [a' res'] eqn:Eau.
  assert (peer_trust a' = peer_trust a) as Hpt.
  { revert Eau. simpl. unfold consume_proof. intros H. repeat case_match; simplify_eq; done. }
  destruct res' as [p'|err]; intros [= <- <-]; (split; [by exists a'|]); intros p [= <-].
  exists p'. revert Eau. cbn [authenticate_at].
  destruct (event_from_str dec) as [e|] eqn:Ej; [|done].
  destruct (tags_find TK_Payload (ev_tags e)) as [t|] eqn:Et; [|done].
  destruct (verify_nip98_event_at _ _ _ _ _) as [pk|] eqn:Hv; [|done]. cbn [map_err].
  destruct (consume_proof _ a _ _) as [a2 [[]|]]; [|done]. intros [= <- <-].
  apply verify_nip98_ok in Hv as (e' & Ej' & -> & Hf & (u & Hu & Hu') & Hm & Hp).
  assert (e' = e) as -> by congruence. exists e. split_and!; [done| |done]. split; try done.
  - exists (String c host), u. done.
  - split; [by rewrite Et|]. intros h Hh. by eapply Hp.
Qed.

(** An event that the holder of [pk] may submit. *)
Definition may_submit (pk : PublicKey) (e : Event) : Prop :=
  ev_pubkey e = pk \/ (ev_kind e = KIND_GIFT_WRAP /\ event_has_valid_recipient e = true).

Lemma authorize_direct_sound r a principal e pk :
  identity r = Some a -> ap_principal principal = P_Nostr pk ->
  relay_authorize_direct r (Some principal) e = Ok tt ->
  may_submit pk e /\ ev_kind e <> KIND_AUTH /\ ev_kind e <> KIND_HTTP_AUTH.
Proof.
  intros Ha Hp. unfold relay_authorize_direct. rewrite Ha. simpl.
  unfold authorize_direct, local_authorize_append. simpl. unfold local_authorize_append. rewrite Hp. simpl.
  unfold event_kind_u32. destruct (N.eqb_spec (ev_kind e) KIND_AUTH) as [|H1]; [done|].
  destruct (N.eqb_spec (ev_kind e) KIND_HTTP_AUTH) as [|H2]; [done|]. simpl.
  destruct (String.eqb_spec (ev_pubkey e) pk) as [H3|H3]; simpl; [intros _; by split_and!; [left|..]|].
  destruct (N.eqb_spec (ev_kind e) KIND_GIFT_WRAP) as [H4|H4]; simpl; [|done].
  destruct (event_has_valid_recipient e) eqn:H5; [|done]. intros _. split_and!; [by right|done..].
Qed.

Lemma store_ok_with_identity r a : store_ok (relay_store r) -> store_ok (relay_store (with_identity r a)).
Proof. done. Qed.


(** ** The replication endpoint *)

Lemma ingest_replication_extends env r record r' res :
  store_ok (relay_store r) -> ingest_replication env r record = (r', res) ->
  extends (fun x => (x = rr_event record /\ replication_policy r (rr_source record) x = Ok tt) \/ relay_signed r x) r r' /\
  (forall c, res = Ok c -> rc_cursor c = rr_cursor record /\ rc_source c = rr_source record /\
     (checkpoint_safe c = true -> ev_id (rr_event record) ∈ seen_ids (relay_store r'))).
Proof using SLL.
  intros Hok. unfold ingest_replication.
  destruct (replication_policy r (rr_source record) (rr_event record)) as [[]|] eqn:Epol.
  2: { intros [= <- <-]. split; [by apply extends_refl|]. by intros c [= <-]. }
  destruct (is_ephemeral_kind _).
  { intros [= <- <-]. split; [by apply extends_refl|]. by intros c [= <-]. }
  destruct (_ || _).
  { intros [= <- <-]. split; [by apply extends_refl|]. by intros c [= <-]. }
  unfold submit. destruct (submit_from env r (rr_event record) None) as [r1 [w|err]] eqn:Es.
  - destruct (submit_from_extends _ _ _ _ _ _ Hok Es) as [Hx Hacc]. specialize (Hacc w eq_refl).
    assert (extends (fun x => (x = rr_event record /\ replication_policy r (rr_source record) x = Ok tt) \/ relay_signed r x) r r1) as Hx'.
    { eapply extends_impl; [|exact Hx]. intros x [->|]; [by left|by right]. }
    destruct (WriteResult.accepted w); simpl.
    + intros H. repeat case_match; simplify_eq; (split; [done|]); intros c Hc; simplify_eq; by split_and!; auto.
    + intros [= <- <-]. split; [done|]. by intros c [= <-].
  - intros [= <- <-]. destruct (submit_from_extends _ _ _ _ _ _ Hok Es) as [Hx _]. split; [|done].
    eapply extends_impl; [|exact Hx]. intros x [->|]; [by left|by right].
Qed.

(** Accepted ids, the destination's acknowledgement. *)
Definition held (r : LocalRelay) (e : Event) : Prop := ev_id e ∈ seen_ids (relay_store r).

Lemma ingest_batch_spec envs i r source records receipts r' res :
  store_ok (relay_store r) ->
  ingest_batch envs i r source records receipts = (r', res) ->
  extends (fun x => (exists rec, rec ∈ records /\ x = rr_event rec /\ rr_source rec = source /\
                       replication_policy r source x = Ok tt) \/ relay_signed r x) r r' /\
  (forall cs, res = Ok cs -> exists cs', cs = receipts ++ cs' /\ answered (held r') records cs').
Proof using SLL.
  revert i r receipts. induction records as [|rec rest IH]; intros i r receipts Hok; cbn [ingest_batch].
  { intros [= <- <-]. split; [by apply extends_refl|]. intros cs [= <-]. exists []. rewrite app_nil_r.
    split; [done|constructor]. }
  destruct (String.eqb_spec (rr_source rec) source) as [Hsrc|Hsrc]; simpl.
  2: { intros [= <- <-]. split; [by apply extends_refl|]. intros cs [= <-]. eexists. split; [done|].
       by apply answered_halt. }
  destruct (ingest_replication (envs i) r rec) as [r1 res1] eqn:Ei.
  destruct (ingest_replication_extends _ _ _ _ _ Hok Ei) as [Hx Hc].
  assert (extends (fun x => (exists rec', rec' ∈ rec :: rest /\ x = rr_event rec' /\ rr_source rec' = source /\
                       replication_policy r source x = Ok tt) \/ relay_signed r x) r r1) as Hx1.
  { eapply extends_impl; [|exact Hx]. intros x [[-> Hp]|]; [left|by right].
    exists rec. split_and!; [left|done|done|by rewrite <-Hsrc]. }
  destruct res1 as [c|err]; [|intros [= <- <-]; by split].
  destruct (Hc c eq_refl) as (Hcur & _ & Hheld).
  destruct (checkpoint_safe c) eqn:Esafe; simpl.
  2: { intros [= <- <-]. split; [done|]. intros cs [= <-]. eexists. split; [done|]. by apply answered_halt. }
  intros Hrun. destruct (IH _ _ _ (ex_ok _ _ _ Hx) Hrun) as [Hx2 Hcs].
  destruct (ex_config _ _ _ Hx) as (Hpol & _ & Hkeys & _).
  assert (extends (fun x => (exists rec', rec' ∈ rec :: rest /\ x = rr_event rec' /\ rr_source rec' = source /\
                       replication_policy r source x = Ok tt) \/ relay_signed r x) r1 r') as Hx2'.
  { eapply extends_impl; [|exact Hx2]. intros x [(rec' & Hin & -> & Hs & Hp)|(k & Hk & Hpk)].
    - left. exists rec'. rewrite Hpol in Hp. split_and!; try done. by right.
    - right. exists k. by rewrite Hkeys in Hk. }
  split; [by eapply extends_trans|]. intros cs Hres. destruct (Hcs cs Hres) as (cs' & -> & Hans).
  exists (c :: cs'). rewrite <-app_assoc. split; [done|]. apply answered_safe; try done.
  apply (ex_seen _ _ _ Hx2). by apply Hheld.
Qed.

(** What one replication request does, whatever it answers. *)
Lemma replication_ingest_spec env envs r headers body a r' res :
  identity r = Some a -> store_ok (relay_store r) ->
  replication_ingest env envs r headers body = (r', res) ->
  extends (fun x => relay_signed r x \/
     exists records rec source proof trust,
       records_from_slice body = Ok records /\ rec ∈ records /\ x = rr_event rec /\ rr_source rec = source /\
       replication_policy r source x = Ok tt /\
       http_proof (re_now env) headers "POST" "/replication" body proof /\
       peer_trust a !! source = Some trust /\
       is_Some (tr_verification_methods trust !! ev_pubkey proof)) r r' /\
  (forall cs records, res = Ok cs -> records_from_slice body = Ok records -> answered (held r') records cs).
Proof using SLL.
  intros Ha Hok. unfold replication_ingest, authenticate_http. rewrite Ha.
  destruct (authenticate_http_method env r headers "POST" "/replication" body) as [r1 pr] eqn:Eau.
  destruct (authenticate_http_proof _ _ _ _ _ _ _ _ _ Ha Eau) as [(a' & -> & Hpt) Hp].
  assert (forall Q, extends Q r (with_identity r a')) as Hsame.
  { intros Q. apply extends_same; [done|done|]. repeat split; try done. rewrite Ha. simpl. by rewrite Hpt. }
  destruct pr as [[p|]|err]; [| |intros [= <- <-]; split; [done|done]].
  2: { intros [= <- <-]. split; [done|done]. }
  destruct (records_from_slice body) as [[|first rest]|err] eqn:Erec.
  { intros [= <- <-]. split; [done|]. intros cs records [= <-] [= <-]. constructor. }
  2: { intros [= <- <-]. split; [done|done]. }
  destruct (Hp _ eq_refl) as (principal & proof & [= ->] & Hproof & Hpk). rewrite Hpk. simpl.
  unfold bind_peer_key.
  destruct (peer_trust a' !! rr_source first) as [trust|] eqn:Etr; simpl.
  2: { intros [= <- <-]. split; [done|done]. }
  destruct (tr_verification_methods trust !! ev_pubkey proof) as [vm|] eqn:Evm; simpl.
  2: { intros [= <- <-]. split; [done|done]. }
  intros Hrun.
  destruct (ingest_batch_spec envs 0 (with_identity r a') (rr_source first) (first :: rest) [] r' res
              (store_ok_with_identity r a' Hok) Hrun) as [Hx Hans].
  split.
  - eapply extends_trans; [apply Hsame|]. eapply extends_impl; [|exact Hx].
    intros x [(rec & Hin & -> & Hs & Hpol)|Hsig]; [right|by left].
    exists (first :: rest), rec, (rr_source first), proof, trust. rewrite <-Hpt. by split_and!.
  - intros cs records Hcs [= <-]. destruct (Hans cs Hcs) as (cs' & -> & H). exact H.
Qed.


(** ** The relay as a destination *)

(** A relay with a sound store and required identity. *)
Record GoodRelay := mkGoodRelay {
  good_relay : LocalRelay;
  good_ok : store_ok (relay_store good_relay);
  good_identity : is_Some (identity good_relay);
}.

(** What the [n]-th request of a pusher meets: its environments, and the headers
    the pusher sends with a body. *)
Variables (post_env : nat -> RelayEnv) (post_envs : nat -> nat -> RelayEnv).
Variable post_headers : nat -> string -> Headers.

Definition ingest_nth (n : nat) (r : LocalRelay) (body : string) :=
  replication_ingest (post_env n) (post_envs n) r (post_headers n body) body.

Lemma ingest_nth_good n (g : GoodRelay) body r' res :
  ingest_nth n (good_relay g) body = (r', res) ->
  store_ok (relay_store r') /\ is_Some (identity r') /\
  (forall e, held (good_relay g) e -> held r' e) /\
  (forall cs records, res = Ok cs -> records_from_slice body = Ok records -> answered (held r') records cs).
Proof using SLL.
  intros Hrun. destruct g as [r Hok [a Ha]]. simpl in *.
  destruct (replication_ingest_spec _ _ _ _ _ _ _ _ Ha Hok Hrun) as [[H1 H2 _ (_ & _ & _ & Hc)] Hans].
  split_and!; [done| | |done].
  - rewrite Ha in Hc. destruct (identity r'); [done|]. discriminate Hc.
  - intros e He. by apply H2.
Qed.

Definition relay_post (n : nat) (g : GoodRelay) (body : string)
    : GoodRelay * result string (list ReplicationReceipt) :=
  match ingest_nth n (good_relay g) body as x return ingest_nth n (good_relay g) body = x -> _ with
  | (r', res) => fun E =>
      (mkGoodRelay r' (proj1 (ingest_nth_good n g body r' res E))
         (proj1 (proj2 (ingest_nth_good n g body r' res E))),
       map_err api_error_to_string res)
  end eq_refl.

Lemma relay_post_spec n g body g' res :
  relay_post n g body = (g', res) ->
  exists res0, ingest_nth n (good_relay g) body = (good_relay g', res0) /\
    res = map_err api_error_to_string res0.
Proof using Type.
  unfold relay_post. generalize (@eq_refl _ (ingest_nth n (good_relay g) body)).
  generalize (ingest_nth n (good_relay g) body) at 2 3.
  intros [r' res0] E [= <- <-]. simpl. eauto.
Qed.

(** The position a cursor file names covers only events the relay has accepted. *)
Definition cursor_file_safe (now : N) (src : LocalReplicationSource) (inner : StoreInner) (r : LocalRelay)
    (file : option string) : Prop :=
  forall c q, load_cursor file = Some c -> parse_local_replication_cursor c = Ok q ->
    q <= length (journal inner) /\
    forall e, e ∈ List.filter (exports now src) (take q (journal inner)) -> held r e.

(** The peer relay, with the number of requests it has served. *)
#[local] Instance relay_destination : Destination (GoodRelay * nat) := {|
  post gn _ body := let '(g', res) := relay_post gn.2 gn.1 body in ((g', S gn.2), res)
|}.

#[local] Instance relay_destination_laws : DestinationLaws (GoodRelay * nat).
Proof using SLL.
  refine {| acked := fun gn e => held (good_relay gn.1) e;
            request_of := fun rs body => records_from_slice body = Ok rs |}.
  - intros [g n] rs body gn' cs Hreq. simpl. destruct (relay_post n g body) as [g' res] eqn:Hpost.
    intros [= <- ->]. simpl. apply relay_post_spec in Hpost as (res0 & E & Hres).
    destruct (ingest_nth_good _ _ _ _ _ E) as (_ & _ & _ & Hans).
    destruct res0 as [cs0|]; [|done]. injection Hres as <-. by apply Hans.
  - intros [g n] rs body gn' res e. simpl. destruct (relay_post n g body) as [g' res'] eqn:Hpost.
    intros [= <- _] He. apply relay_post_spec in Hpost as (res0 & E & _).
    destruct (ingest_nth_good _ _ _ _ _ E) as (_ & _ & Hkeep & _). by apply Hkeep.
Defined.

(** C7: node-to-node sync.  A pusher that drains its journal into a local relay
    with required identity, from a safe cursor file or none, always stops;
    however the run ends - refusals, failed requests, a write of the cursor file
    torn at any byte - the position its file names afterwards covers only events
    the peer's store has accepted; nothing accepted is forgotten; and a run that
    reports success leaves every exported journal event accepted there. *)
Theorem push_to_relay (record_to_vec : ReplicationRecord -> result string string)
    (persist_outcome : nat -> PersistOutcome)
    (now : N) (src : LocalReplicationSource) (inner : StoreInner) (cfg : PushConfig)
    (peer : GoodRelay) (n : nat) (file : option string)
    (st' : PushState (GoodRelay * nat)) (res : result PushError unit) :
  (N.of_nat (length (journal inner)) <= u64_max)%N -> batch_size cfg <> 0 ->
  (forall rs record_limit byte_limit batches,
     split_serialized_batches record_to_vec rs record_limit byte_limit = Ok batches ->
     Forall (fun b => records_from_slice b.2 = Ok b.1) batches) ->
  cursor_file_safe now src inner (good_relay peer) file ->
  push_main record_to_vec persist_outcome (S (length (journal inner))) now cfg src inner (peer, n) file = (st', res) ->
  res <> Err OutOfFuel /\
  cursor_file_safe now src inner (good_relay (ps_dest st').1) (ps_file st') /\
  (forall e, held (good_relay peer) e -> held (good_relay (ps_dest st').1) e) /\
  (res = Ok tt -> forall e, e ∈ journal inner -> exports now src e = true ->
     held (good_relay (ps_dest st').1) e).
Proof using SLL.
  intros Hlen Hbs Hdec Hf Hrun.
  destruct (push_main_safe (HL := relay_destination_laws) record_to_vec persist_outcome now src inner Hlen Hdec
              cfg (peer, n) file st' res Hbs Hf Hrun) as (Hf' & Hk & Ho & Hs).
  by split_and!.
Qed.

(** C27: draining a remote stream into a local relay with required identity.  The
    remote may take in events while it is read.  From a cursor file whose
    position covers only accepted events, or none: however the run ends -
    refused records, failed requests, a write of the cursor file torn at any
    byte - the position the file names afterwards covers only events the local
    store has accepted, so the next run skips nothing; nothing accepted is
    forgotten; a run that reports success leaves accepted every event the remote
    exported up to its last answer; and a run reads at most one page more than
    the remote has positions, so it ends unless the remote outgrows it. *)
Theorem pull_to_relay {O : Type} `{!Origin O, !OriginLaws O} (records_to_vec : list ReplicationRecord -> result string string)
    (persist_outcome : nat -> PersistOutcome) (fuel : nat) (cfg : PullConfig) (remote : O)
    (local : GoodRelay) (n : nat) (file : option string) (st' : PullState O (GoodRelay * nat)) (res : result PullError unit) :
  (forall rs body, records_to_vec rs = Ok body -> records_from_slice body = Ok rs) ->
  pull_file_safe (DL := relay_destination_laws) remote (local, n) file ->
  pull_main records_to_vec persist_outcome fuel cfg remote (local, n) file = (st', res) ->
  (forall c q, load_cursor (pl_file st') = Some c -> position c = Some q ->
     q <= newest (pl_origin st') /\
     forall r e, published (pl_origin st') r e -> r <= q -> held (good_relay (pl_dest st').1) e) /\
  (forall e, held (good_relay local) e -> held (good_relay (pl_dest st').1) e) /\
  (res = Ok tt -> forall q e, published (pl_origin st') q e -> held (good_relay (pl_dest st').1) e) /\
  (newest (pl_origin st') < fuel -> res <> Err PullOutOfFuel).
Proof using SLL.
  intros Hdec Hf Hrun. destruct (pull_main_safe (DL := relay_destination_laws) records_to_vec persist_outcome Hdec
    fuel cfg remote (local, n) file st' res Hf Hrun) as (Hf' & Hk & Ho & Hs). by split_and!.
Qed.
End http_provenance.
