(* ===== verification/SessionTheory.v ===== *)
(** * What sessions and reads disclose

    Disclosure of stored events, counts and live events to the reader that
    proved its key; the limits of a connection; the balance of session leases. *)

From S2P Require Import Prelude Text Nostr Demo Kinds Ingest FilterMatch Store StoreTheory Replication.
From S2P Require Import Auth Identity Declarations Relay RelayApi Session Push RelayTheory.

Section disclosure.
Context `{NL : NostrLib, NLL : !NostrLaws NL, SJ : SerdeJson, UL : UrlLib, SL : SigningLib,
          SLL : !SigningLaws NL SL, HTL : !HttpLib, WL : !WsLib}.

Definition names_recipient (e : Event) (pk : PublicKey) : Prop :=
  exists t, t ∈ ev_tags e /\ t !! 0 = Some "p" /\ t !! 1 = Some pk.

(** Who may read a stored event: private kinds only their author, addressed
    kinds only their recipients. *)
Definition may_read (reader : PublicKey) (e : Event) : Prop :=
  (ev_kind e ∈ AUTHOR_ONLY_KINDS -> ev_pubkey e = reader) /\
  (ev_kind e ∈ P_GATED_KINDS -> names_recipient e reader) /\
  (ev_kind e = KIND_DM_VISIBILITY \/ ev_kind e = KIND_AGENT_TURN_METRIC -> names_recipient e reader).

(** A party of the node's agreements. *)
Definition has_standing (r : LocalRelay) (a : LocalIdentityAdapter) (pk : PublicKey) : Prop :=
  (exists node_label, governance r = Some (pk, node_label)) \/
  exists source trust, peer_trust a !! source = Some trust /\ is_Some (tr_verification_methods trust !! pk).

Lemma p_tag_names e pk :
  existsb (fun t => bool_decide (tag_content t = Some pk)) (tags_filter (SingleLetterLower "p") (ev_tags e)) = true ->
  names_recipient e pk.
Proof using NLL.
  rewrite tags_filter_spec. intros (t & Ht & Hc)%existsb_elem.
  apply elem_of_filter_b in Ht as [Ht Hk]. apply bool_decide_eq_true in Hk, Hc.
  exists t. split_and!; [done| |by rewrite <-tag_content_spec].
  apply tag_kind_letter; [vm_compute; split; congruence|done].
Qed.

Lemma delivery_sound a p op e scope :
  authorize_event_delivery a p op e scope = Allowed ->
  exists reader, nostr_pubkey (ap_principal p) = Some reader /\ may_read reader e.
Proof using NLL.
  simpl. unfold local_authorize_event_delivery. destruct (nostr_pubkey _) as [reader|]; [|done].
  unfold event_kind_u32, to_hex. case_match eqn:E1; [done|]. case_match eqn:E2; [done|].
  destruct (reader_authorized_for_event e reader) eqn:E3; [|done]. intros _. exists reader. split; [done|].
  split_and!.
  - intros Hk. rewrite bool_decide_true in E1 by done. simpl in E1.
    by destruct (String.eqb_spec (ev_pubkey e) reader).
  - intros Hk. rewrite bool_decide_true in E2 by done. simpl in E2. apply negb_false_iff in E2.
    by apply p_tag_names.
  - intros Hk. revert E3. unfold reader_authorized_for_event, event_kind_u32.
    destruct Hk as [-> | ->]; simpl; apply p_tag_names.
Qed.

Lemma visible_sound r a principal op e :
  identity r = Some a -> event_is_visible r principal op e = true ->
  exists p reader, principal = Some p /\ nostr_pubkey (ap_principal p) = Some reader /\ may_read reader e.
Proof using NLL.
  intros Ha. unfold event_is_visible. rewrite Ha. destruct principal as [p|]; [|done].
  unfold authorize_local_event, is_allowed.
  destruct (authorize_event_delivery a p op e LOCAL_DESTINATION_SCOPE) eqn:E; [|done]. intros _.
  apply delivery_sound in E as (reader & ? & ?). by exists p, reader.
Qed.

Lemma standing_sound r a principal :
  identity r = Some a -> pulse_visible_to r principal = true ->
  exists p pk, principal = Some p /\ nostr_pubkey (ap_principal p) = Some pk /\ has_standing r a pk.
Proof.
  intros Ha. unfold pulse_visible_to. rewrite Ha.
  destruct principal as [p|]; [|done]. simpl. unfold principal_pubkey.
  destruct (ap_principal p) as [pk| |] eqn:Ep; [|done|done].
  intros H. exists p, pk. split_and!; [done|by rewrite Ep|]. apply orb_true_iff in H as [H|H].
  - left. destruct (governance r) as [[owner label]|]; [|done]. apply String.eqb_eq in H as ->. eauto.
  - right. unfold is_admitted_verification_key in H. apply existsb_elem in H as ([source trust] & Hin & Hk).
    apply elem_of_map_to_list in Hin. apply bool_decide_eq_true in Hk. eauto.
Qed.

Lemma current_pulse_signed now r pulse :
  current_pulse now r = Some pulse ->
  relay_signed r (cp_event pulse) /\ ev_kind (cp_event pulse) = KIND_BEACON_PULSE /\
  ev_created_at (cp_event pulse) = now /\ ev_content (cp_event pulse) = pulse_to_string (pulse_content now r) /\
  cp_head pulse = pc_head (pulse_content now r) /\ verify_event (cp_event pulse) = Ok tt.
Proof using SLL.
  unfold current_pulse. destruct (relay_keys r) as [keys|] eqn:Ek; [|done]. cbn [mbind option_bind].
  set (n_tags := if String.eqb _ _ then _ else _). destruct n_tags as [tags|]; [|done]. cbn [mbind option_bind].
  destruct (res_ok (Tag_parse ["role"; _])) as [role|]; [|done]. cbn [mbind option_bind].
  destruct (sign_with_keys _ _ _ _ _) as [e|] eqn:Es; [|done]. simpl. intros [= <-]. simpl.
  apply sign_ok in Es as (? & Hpk & ? & ? & _ & ?). split_and!; try done. exists keys. done.
Qed.

(** Everything a query returns: a stored event the reader may read, or a fresh
    pulse to a party with standing. *)
Lemma query_for_cursors_sound now r a principal op filters r' es e :
  identity r = Some a -> query_for_cursors now r principal op filters = (r', Ok es) -> e ∈ es ->
  exists p pk, principal = Some p /\ nostr_pubkey (ap_principal p) = Some pk /\
    ((may_read pk e /\ e ∈ events_of (events (relay_store r))) \/
     (ev_kind e = KIND_BEACON_PULSE /\ relay_signed r e /\ has_standing r a pk)).
Proof using NLL SLL.
  intros Ha. unfold query_for_cursors.
  destruct (relay_authorize_query r principal op _); [|done].
  destruct (query_with_cursors (relay_store r) filters) as [stored|] eqn:Eq; [|done].
  assert (forall x, x ∈ List.filter (event_is_visible r principal op) stored ->
    exists p pk, principal = Some p /\ nostr_pubkey (ap_principal p) = Some pk /\
    ((may_read pk x /\ x ∈ events_of (events (relay_store r))) \/
     (ev_kind x = KIND_BEACON_PULSE /\ relay_signed r x /\ has_standing r a pk))) as Hst.
  { intros x [Hx Hv]%elem_of_filter_b. destruct (visible_sound _ _ _ _ _ Ha Hv) as (p & pk & ? & ? & ?).
    exists p, pk. split_and!; try done. left. split; [done|].
    destruct (query_sound _ _ _ _ Eq Hx) as (cf & s & _ & Hs & <- & _). by apply list_elem_of_fmap_2. }
  case_match eqn:Ec; [|intros [= <- <-]; apply Hst].
  apply andb_true_iff in Ec as [_ Hvis].
  destruct (current_pulse now r) as [pulse|] eqn:Ep; [|intros [= <- <-]; apply Hst].
  case_match; [|intros [= <- <-]; apply Hst].
  intros [= <- <-] [->|He]%elem_of_cons; [|by apply Hst].
  destruct (standing_sound _ _ _ Ha Hvis) as (p & pk & ? & ? & ?).
  apply current_pulse_signed in Ep as (? & ? & _).
  exists p, pk. split_and!; try done. by right.
Qed.

(** C9: reads over HTTP disclose nothing they should not.  On a node with
    identity, every event [POST /query] returns is an effective event that the
    key behind the request's fresh proof may read - author-only kinds only by
    their author, addressed kinds only by a named recipient - or the relay's
    own pulse, to a party with standing. *)
Theorem http_reads_disclose (env : RelayEnv) (r r' : LocalRelay) (a : LocalIdentityAdapter)
    (headers : Headers) (body : string) (es : list Event) :
  identity r = Some a -> query_events env r headers body = (r', Ok es) ->
  exists proof, http_proof (re_now env) headers "POST" "/query" body proof /\
    forall e, e ∈ es ->
      (may_read (ev_pubkey proof) e /\ e ∈ events_of (events (relay_store r))) \/
      (ev_kind e = KIND_BEACON_PULSE /\ relay_signed r e /\ has_standing r a (ev_pubkey proof)).
Proof using NLL SLL.
  intros Ha. unfold query_events, authenticate_http.
  destruct (authenticate_http_method env r headers "POST" "/query" body) as [r1 pr] eqn:Eau.
  destruct (authenticate_http_proof _ _ _ _ _ _ _ _ _ Ha Eau) as [(a' & -> & Hpt) Hp].
  destruct pr as [p|]; [|done]. destruct (Hp p eq_refl) as (principal & proof & -> & Hproof & Hpk).
  destruct (parse_query_filter_body body) as [filters|]; [|done]. intros Hq.
  exists proof. split; [done|]. intros e He.
  destruct (query_for_cursors_sound _ (with_identity r a') a' _ _ _ _ _ e eq_refl Hq He)
    as (p' & pk & [= <-] & Hpk' & Hor).
  rewrite Hpk in Hpk'. injection Hpk' as <-. destruct Hor as [?|(? & ? & Hst)]; [by left|right].
  split_and!; try done. unfold has_standing in *. rewrite <-Hpt. exact Hst.
Qed.

(** ** WebSocket sessions *)

(** The events among frames. *)
Definition shown (fs : list Frame) (e : Event) : Prop := exists id, F_Event id e ∈ fs.

(** What a session may show its principal. *)
Definition disclosable (r : LocalRelay) (a : LocalIdentityAdapter) (c : Connection) (e : Event) : Prop :=
  exists p pk, ws_principal (ws_identity c) = Some p /\ nostr_pubkey (ap_principal p) = Some pk /\
    (may_read pk e \/
     ((ev_kind e = KIND_BEACON_PULSE \/ ev_kind e = KIND_BEACON_RESPONSE) /\ has_standing r a pk)).

(** Frames [fs] were added to a connection, and the events among them satisfy
    [Q]. *)
Definition adds_frames (Q : Event -> Prop) (c c' : Connection) : Prop :=
  exists fs, sent (ws_sender c') = sent (ws_sender c) ++ fs /\ forall e, shown fs e -> Q e.

Lemma adds_frames_trans Q c1 c2 c3 : adds_frames Q c1 c2 -> adds_frames Q c2 c3 -> adds_frames Q c1 c3.
Proof.
  intros (f1 & E1 & H1) (f2 & E2 & H2). exists (f1 ++ f2). rewrite E2, E1, app_assoc. split; [done|].
  intros e (id & [Hin|Hin]%elem_of_app); [apply H1|apply H2]; by exists id.
Qed.

Lemma adds_frames_same Q c c' : sent (ws_sender c') = sent (ws_sender c) -> adds_frames Q c c'.
Proof.
  intros E. exists []. rewrite app_nil_r. split; [done|]. intros e (id & H). by apply not_elem_of_nil in H.
Qed.

Lemma reply_adds Q r c f r' c' b :
  (forall e id, f = F_Event id e -> Q e) -> reply r c f = (r', c', b) ->
  adds_frames Q c c' /\ r' = r /\ subscriptions c' = subscriptions c /\ ws_identity c' = ws_identity c /\
  ws_challenge c' = ws_challenge c /\ ws_audience c' = ws_audience c.
Proof.
  intros HQ. unfold reply, send_json. destruct (send_ok _ _); intros [= <- <- <-]; (split; [|done]).
  - exists [f]. split; [done|]. intros e (id & H%list_elem_of_singleton). by eapply HQ.
  - by apply adds_frames_same.
Qed.

Lemma send_events_adds Q c id es s b :
  (forall e, e ∈ es -> Q e) -> send_events (ws_sender c) id es = (s, b) -> adds_frames Q c (with_sender c s).
Proof.
  revert c. induction es as [|e es IH]; intros c HQ; simpl; [intros [= <- <-]; by apply adds_frames_same|].
  unfold send_json. destruct (send_ok _ _); [|intros [= <- <-]; by apply adds_frames_same].
  intros Hrun. set (c1 := with_sender c (mkSender (sent (ws_sender c) ++ [F_Event id e]) (send_ok (ws_sender c)))).
  eapply (adds_frames_trans _ _ c1).
  - exists [F_Event id e]. split; [done|]. intros x (id' & [= _ ->]%list_elem_of_singleton). apply HQ. left.
  - apply (IH c1); [|exact Hrun]. intros x Hx. apply HQ. by right.
Qed.

(** The part of a connection that a message other than [AUTH] leaves alone. *)
Lemma handle_ws_req_adds env r a c parts r' c' b :
  identity r = Some a -> handle_ws_req env r c parts = (r', c', b) -> adds_frames (disclosable r a c) c c'.
Proof using NLL SLL.
  intros Ha. unfold handle_ws_req.
  destruct (parts !! 1 ≫= as_str) as [id|]; [|by intros [? _]%(reply_adds (disclosable r a c))].
  case_match; [by intros [? _]%(reply_adds (disclosable r a c))|].
  case_match; [by intros [? _]%(reply_adds (disclosable r a c))|].
  destruct (validate_filter_fields _ _); [|by intros [? _]%(reply_adds (disclosable r a c))].
  destruct (map_res _ _) as [[|f fs]|]; try (by intros [? _]%(reply_adds (disclosable r a c))).
  destruct (validate_filters _); [|by intros [? _]%(reply_adds (disclosable r a c))].
  destruct (query_for _ r _ _ _) as [r1 [hist|err]] eqn:Eq; [|by intros [? _]%(reply_adds (disclosable r a c))].
  assert (forall e, e ∈ hist -> disclosable r a c e) as Hh.
  { intros e He. destruct (query_for_cursors_sound _ _ _ _ _ _ _ _ _ Ha Eq He) as (p & pk & Hp & Hpk & Hor).
    exists p, pk. split_and!; try done. destruct Hor as [[]|(? & _ & ?)]; [by left|right; auto]. }
  destruct (send_events _ id hist) as [s bb] eqn:Es.
  pose proof (send_events_adds _ (with_subscriptions c (<[id:=f :: fs]> (subscriptions c))) _ _ _ _ Hh Es) as Hadd.
  destruct bb.
  - intros [Hf _]%(reply_adds (disclosable r a c)); [|done]. eapply adds_frames_trans; [exact Hadd|exact Hf].
  - intros [= <- <- <-]. exact Hadd.
Qed.

Lemma handle_ws_auth_adds Q env r c parts r' c' b :
  handle_ws_auth env r c parts = (r', c', b) -> adds_frames Q c c'.
Proof.
  unfold handle_ws_auth. intros H.
  repeat (case_match; try (by apply (reply_adds Q) in H as [? _])).
Qed.

Lemma handle_ws_event_adds Q env r c parts r' c' b :
  handle_ws_event env r c parts = (r', c', b) -> adds_frames Q c c'.
Proof.
  unfold handle_ws_event. intros H. repeat (case_match; try (by apply (reply_adds Q) in H as [? _])).
Qed.

Lemma deliver_to_adds now r a c e subs c' b :
  identity r = Some a -> deliver_to now r c e subs = (c', b) ->
  adds_frames (disclosable r a c) c c'.
Proof using NLL.
  intros Ha. revert c. induction subs as [|[id fs] subs IH]; intros c; cbn [deliver_to].
  { intros [= <- <-]. by apply adds_frames_same. }
  case_match eqn:Ev; [|apply IH]. apply andb_true_iff in Ev as [_ Hv].
  assert (disclosable r a c e) as Hd.
  { unfold live_visible, event_kind_u32 in Hv. destruct (_ || _) eqn:Ek.
    - destruct (standing_sound _ _ _ Ha Hv) as (p & pk & ? & ? & ?). exists p, pk. split_and!; try done.
      right. split; [|done]. lia.
    - destruct (visible_sound _ _ _ _ _ Ha Hv) as (p & pk & ? & ? & ?). exists p, pk. split_and!; try done. by left. }
  unfold send_json. destruct (send_ok _ _); [|intros [= <- <-]; by apply adds_frames_same].
  set (c1 := with_sender c _). intros Hrun. eapply (adds_frames_trans _ _ c1).
  - exists [F_Event id e]. split; [done|]. by intros x (id' & [= _ ->]%list_elem_of_singleton).
  - exact (IH c1 Hrun).
Qed.

(** One turn: every event it sends is disclosable to the session's principal. *)
Lemma session_step_adds env r r' a c c' input b :
  identity r = Some a -> session_step env r c input = (r', c', b) -> adds_frames (disclosable r a c) c c'.
Proof using NLL SLL.
  intros Ha. destruct input as [[msg|]|e|n|]; cbn [session_step].
  - unfold handle_client_message. destruct msg as [text|payload| | |]; intros H.
    2: by apply (reply_adds (disclosable r a c)) in H as [? _].
    2-4: injection H as <- <- <-; by apply (adds_frames_same (disclosable r a c)).
    destruct (_ ≫= as_array) as [parsed|]; [|by apply (reply_adds (disclosable r a c)) in H as [? _]].
    destruct (_ ≫= as_str) as [verb|]; [|by apply (reply_adds (disclosable r a c)) in H as [? _]].
    case_match; [by eapply handle_ws_auth_adds|]. case_match; [by eapply handle_ws_event_adds|].
    case_match; [by eapply handle_ws_req_adds|].
    case_match; [|by apply (reply_adds (disclosable r a c)) in H as [? _]].
    case_match; injection H as <- <- <-; by apply (adds_frames_same (disclosable r a c)).
  - intros [= <- <- <-]. by apply (adds_frames_same (disclosable r a c)).
  - destruct (deliver_live (re_now env) r c e) as [c1 b1] eqn:Ed. intros [= <- <- <-].
    by eapply deliver_to_adds.
  - intros H. by apply (reply_adds (disclosable r a c)) in H as [? _].
  - intros [= <- <- <-]. by apply (adds_frames_same (disclosable r a c)).
Qed.

(** *** The identity of a session *)

Lemma handle_ws_event_keeps env r c parts r' c' b :
  handle_ws_event env r c parts = (r', c', b) ->
  ws_identity c' = ws_identity c /\ subscriptions c' = subscriptions c.
Proof.
  unfold handle_ws_event. intros H.
  repeat (case_match; try (apply (reply_adds (fun _ => True)) in H as (_ & _ & ? & ? & _); done)).
Qed.

(** A [REQ] opens at most one subscription, within the limits. *)
Lemma handle_ws_req_keeps env r c parts r' c' b :
  handle_ws_req env r c parts = (r', c', b) ->
  ws_identity c' = ws_identity c /\
  (subscriptions c' = subscriptions c \/
   exists id fs, subscriptions c' = <[id := fs]> (subscriptions c) /\
     String.length id <= MAX_SUBSCRIPTION_ID_LENGTH /\
     (is_Some (subscriptions c !! id) \/ size (subscriptions c) < MAX_SUBSCRIPTIONS_PER_CONNECTION)).
Proof.
  unfold handle_ws_req. intros H.
  assert (forall rr f, reply rr c f = (r', c', b) ->
    ws_identity c' = ws_identity c /\ (subscriptions c' = subscriptions c \/
      exists id fs, subscriptions c' = <[id := fs]> (subscriptions c) /\
     String.length id <= MAX_SUBSCRIPTION_ID_LENGTH /\
     (is_Some (subscriptions c !! id) \/ size (subscriptions c) < MAX_SUBSCRIPTIONS_PER_CONNECTION))) as Hr.
  { intros rr f (_ & _ & ? & ? & _)%(reply_adds (fun _ => True)); [|done]. auto. }
  destruct (parts !! 1 ≫= as_str) as [id|]; [|by eapply Hr].
  case_match eqn:Elen; [by eapply Hr|]. case_match eqn:Emany; [by eapply Hr|].
  destruct (validate_filter_fields _ _); [|by eapply Hr].
  destruct (map_res _ _) as [[|f fs]|]; try (by eapply Hr).
  destruct (validate_filters _); [|by eapply Hr].
  destruct (query_for _ r _ _ _) as [r1 [hist|err]]; [|by eapply Hr].
  assert (String.length id <= MAX_SUBSCRIPTION_ID_LENGTH /\
    (is_Some (subscriptions c !! id) \/ size (subscriptions c) < MAX_SUBSCRIPTIONS_PER_CONNECTION)) as Hb.
  { split; [lia|]. apply andb_false_iff in Emany as [E|E]; [left|right; lia].
    apply negb_false_iff in E. by apply bool_decide_eq_true in E. }
  destruct (send_events _ id hist) as [s bb]. destruct bb.
  - apply (reply_adds (fun _ => True)) in H as (_ & _ & -> & -> & _); [|done]. simpl.
    split; [done|]. right. by exists id, (f :: fs).
  - injection H as <- <- <-. simpl. split; [done|]. right. by exists id, (f :: fs).
Qed.

(** The proof a session was authenticated with. *)
Definition session_proof (now : N) (c : Connection) (p : AuthenticatedPrincipal) (proof : Event) : Prop :=
  fresh_proof 22242 proof now /\ ap_principal p = P_Nostr (ev_pubkey proof) /\
  exists challenge audience relay,
    ws_challenge c = Some challenge /\ ws_audience c = Some audience /\
    find_content TK_Challenge proof = Some challenge /\
    find_content TK_Relay proof = Some relay /\
    normalize_relay_url relay = normalize_relay_url audience.

Lemma handle_ws_auth_identity env r c parts r' c' b :
  handle_ws_auth env r c parts = (r', c', b) ->
  subscriptions c' = subscriptions c /\
  (ws_identity c' = ws_identity c \/
   (ws_principal (ws_identity c) = None /\
    exists p proof, ws_principal (ws_identity c') = Some p /\ session_proof (re_now env) c p proof /\
      ws_session_lease (ws_identity c') = Some (ev_pubkey proof) /\
      active_sessions r' = ActiveSessions.enter (active_sessions r) (ev_pubkey proof))).
Proof.
  unfold handle_ws_auth. intros H.
  assert (forall rr f, reply rr c f = (r', c', b) ->
    subscriptions c' = subscriptions c /\ (ws_identity c' = ws_identity c \/
   (ws_principal (ws_identity c) = None /\
    exists p proof, ws_principal (ws_identity c') = Some p /\ session_proof (re_now env) c p proof /\
      ws_session_lease (ws_identity c') = Some (ev_pubkey proof) /\
      active_sessions r' = ActiveSessions.enter (active_sessions r) (ev_pubkey proof)))) as Hr.
  { intros rr f (_ & _ & ? & ? & _)%(reply_adds (fun _ => True)); [|done]. auto. }
  destruct (event_from_value <$> _) as [[e|]|]; try (by eapply Hr).
  destruct (identity r) as [adapter|]; [|by eapply Hr].
  destruct (ws_challenge c) as [ch|] eqn:Ech; [|by eapply Hr].
  destruct (ws_audience c) as [aud|] eqn:Eaud; [|by eapply Hr].
  destruct (ws_principal (ws_identity c)) eqn:Ep; [by eapply Hr|].
  destruct (authenticate_at _ adapter _ _ _) as [ad [p|err]] eqn:Eau; [|by eapply Hr].
  revert Eau. cbn [authenticate_at].
  destruct (verify_nip42_event_at e ch aud (re_now env)) as [[]|] eqn:Hv; [|done]. cbn [map_err].
  destruct (consume_proof _ adapter _ _) as [ad2 [[]|]]; [|done]. intros [= <- <-].
  apply verify_nip42_ok in Hv as (Hf & Hc & relay & Hrel & Hnorm).
  apply (reply_adds (fun _ => True)) in H as (_ & -> & -> & -> & _); [|done].
  split; [done|]. right. split; [done|]. eexists _, e. split; [done|].
  split; [|done]. split_and!; [done|done|]. by exists ch, aud, relay.
Qed.

(** A session's principal is set only by a fresh NIP-42 proof over the challenge
    and the audience of this connection; once set no message changes it; and no
    other message than [AUTH] sets it. *)
Lemma message_identity env r r' c c' m b :
  handle_client_message env r c m = (r', c', b) ->
  (forall p, ws_principal (ws_identity c) = Some p -> ws_identity c' = ws_identity c) /\
  (forall p, ws_principal (ws_identity c') = Some p -> ws_principal (ws_identity c) = None ->
     exists proof, session_proof (re_now env) c p proof).
Proof.
  intros H. assert (ws_identity c' = ws_identity c \/
   (ws_principal (ws_identity c) = None /\
    exists p proof, ws_principal (ws_identity c') = Some p /\ session_proof (re_now env) c p proof)) as Hor.
  { revert H. unfold handle_client_message. intros H.
    assert (forall rr f, reply rr c f = (r', c', b) -> ws_identity c' = ws_identity c) as Hr.
    { by intros rr f (_ & _ & _ & ? & _)%(reply_adds (fun _ => True)). }
    destruct m as [text|payload| | |]; [|left; by eapply Hr|left; by injection H as <- <- <- ..].
    destruct (_ ≫= as_array) as [parsed|]; [|left; by eapply Hr].
    destruct (_ ≫= as_str) as [verb|]; [|left; by eapply Hr].
    case_match.
    { apply handle_ws_auth_identity in H as (_ & [?|(? & p & proof & ? & ? & _)]); [by left|right]. eauto 10. }
    left. case_match; [by apply handle_ws_event_keeps in H as [? _]|].
    case_match; [by apply handle_ws_req_keeps in H as [? _]|].
    case_match; [|by eapply Hr]. case_match; by injection H as <- <- <-. }
  destruct Hor as [E|(Hn & p & proof & Hp & Hs)].
  - split; [done|]. intros p Hp Hn. rewrite E in Hp. congruence.
  - split; [congruence|]. intros p' Hp' _. rewrite Hp in Hp'. injection Hp' as <-. by exists proof.
Qed.

(** The limits on a connection's subscriptions. *)
Definition within_limits (c : Connection) : Prop :=
  size (subscriptions c) <= MAX_SUBSCRIPTIONS_PER_CONNECTION /\
  forall id fs, subscriptions c !! id = Some fs -> String.length id <= MAX_SUBSCRIPTION_ID_LENGTH.

Lemma message_limits env r r' c c' m b :
  handle_client_message env r c m = (r', c', b) -> within_limits c -> within_limits c'.
Proof.
  unfold handle_client_message, within_limits. intros H Hl.
  assert (forall rr f, reply rr c f = (r', c', b) -> subscriptions c' = subscriptions c) as Hr.
  { by intros rr f (_ & _ & ? & _)%(reply_adds (fun _ => True)). }
  destruct m as [text|payload| | |]; [|by rewrite (Hr _ _ H)|by injection H as <- <- <- ..].
  destruct (_ ≫= as_array) as [parsed|]; [|by rewrite (Hr _ _ H)].
  destruct (_ ≫= as_str) as [verb|]; [|by rewrite (Hr _ _ H)].
  case_match; [by apply handle_ws_auth_identity in H as (-> & _)|].
  case_match; [by apply handle_ws_event_keeps in H as (_ & ->)|].
  case_match.
  { apply handle_ws_req_keeps in H as (_ & [->|(id & fs & -> & Hid & Hsz)]); [done|].
    destruct Hl as [Hs Hlen]. split.
    - destruct (subscriptions c !! id) as [old|] eqn:E.
      + rewrite map_size_insert_Some by eauto. done.
      + rewrite map_size_insert_None by done. destruct Hsz as [[? ?]|]; [congruence|lia].
    - intros id' fs'. destruct (decide (id = id')) as [->|Hne]; [done|].
      rewrite lookup_insert_ne by done. apply Hlen. }
  case_match; [|by rewrite (Hr _ _ H)]. case_match; injection H as <- <- <-; [|done].
  destruct Hl as [Hs Hlen]. simpl. split.
  - etrans; [|exact Hs]. apply map_subseteq_size, delete_subseteq.
  - intros id fs (_ & Hlk)%lookup_delete_Some. by eapply Hlen.
Qed.

(** The challenge and the audience of a connection never change. *)
Lemma reply_keeps r c f r' c' b :
  reply r c f = (r', c', b) -> ws_challenge c' = ws_challenge c /\ ws_audience c' = ws_audience c.
Proof. unfold reply. destruct (send_json _ f). by intros [= <- <- <-]. Qed.

Lemma message_challenge env r r' c c' m b :
  handle_client_message env r c m = (r', c', b) ->
  ws_challenge c' = ws_challenge c /\ ws_audience c' = ws_audience c.
Proof.
  unfold handle_client_message, handle_ws_auth, handle_ws_event, handle_ws_req. intros H.
  repeat (case_match; try (apply reply_keeps in H as [? ?]; simpl in *; split; congruence);
    try (by injection H as <- <- <-)).
Qed.

Lemma deliver_to_keeps now r c e subs c' b :
  deliver_to now r c e subs = (c', b) ->
  ws_challenge c' = ws_challenge c /\ ws_audience c' = ws_audience c /\
  ws_identity c' = ws_identity c /\ subscriptions c' = subscriptions c.
Proof.
  revert c. induction subs as [|[id fs] subs IH]; intros c; cbn [deliver_to]; [by intros [= <- <-]|].
  case_match; [|apply IH]. destruct (send_json _ _) as [s [|]]; [|by intros [= <- <-]].
  intros (-> & -> & -> & ->)%IH. done.
Qed.

(** One turn of a session, for its identity, its limits and its challenge. *)
Lemma session_step_keeps env r r' c c' input b :
  session_step env r c input = (r', c', b) ->
  ws_challenge c' = ws_challenge c /\ ws_audience c' = ws_audience c /\
  (within_limits c -> within_limits c') /\
  (forall p, ws_principal (ws_identity c) = Some p -> ws_identity c' = ws_identity c) /\
  (forall p, ws_principal (ws_identity c') = Some p -> ws_principal (ws_identity c) = None ->
     exists proof, session_proof (re_now env) c p proof).
Proof.
  assert (forall x : Connection, ws_challenge x = ws_challenge c -> ws_audience x = ws_audience c ->
    ws_identity x = ws_identity c -> subscriptions x = subscriptions c ->
    ws_challenge x = ws_challenge c /\ ws_audience x = ws_audience c /\
    (within_limits c -> within_limits x) /\
    (forall p, ws_principal (ws_identity c) = Some p -> ws_identity x = ws_identity c) /\
    (forall p, ws_principal (ws_identity x) = Some p -> ws_principal (ws_identity c) = None ->
     exists proof, session_proof (re_now env) c p proof)) as Hsame.
  { intros x H1 H2 H3 H4. unfold within_limits. rewrite H3, H4. split_and!; try done. congruence. }
  destruct input as [[m|]|e|n|]; cbn [session_step].
  - intros H. pose proof (message_challenge _ _ _ _ _ _ _ H) as [? ?].
    pose proof (message_identity _ _ _ _ _ _ _ H) as [? ?].
    split_and!; try done. by eapply message_limits.
  - intros [= <- <- <-]. by apply Hsame.
  - destruct (deliver_live _ r c e) as [c1 b1] eqn:E. intros [= <- <- <-].
    apply deliver_to_keeps in E as (? & ? & ? & ?). by apply Hsame.
  - intros H. pose proof (reply_keeps _ _ _ _ _ _ H) as [? ?].
    apply (reply_adds (fun _ => True)) in H as (_ & _ & ? & ? & _); [|done]. by apply Hsame.
  - intros [= <- <- <-]. by apply Hsame.
Qed.
End disclosure.

(** ** Session leases *)

Definition pk_dec : forall x y : PublicKey, {x = y} + {x <> y} := String.string_dec.

(** The leases held, as a list of keys; [counts] represents it. *)
Definition counts_leases (counts : gmap PublicKey nat) (leases : list PublicKey) : Prop :=
  forall pk : PublicKey, counts !! pk = match count_occ pk_dec leases pk with 0 => None | n => Some n end.

Inductive SessionOp := Enter (pk : PublicKey) | Leave (pk : PublicKey).

(** The counts after a sequence of connects and disconnects, and the leases
    held; a disconnect drops one lease of the session that ends. *)
Definition session_op (counts : ActiveSessions.t) (op : SessionOp) : ActiveSessions.t :=
  match op with
  | Enter pk => ActiveSessions.enter counts pk
  | Leave pk => ActiveSessions.drop counts pk
  end.

Fixpoint remove_one (pk : PublicKey) (l : list PublicKey) : list PublicKey :=
  match l with
  | [] => []
  | x :: l => if pk_dec x pk then l else x :: remove_one pk l
  end.

Definition leases_op (leases : list PublicKey) (op : SessionOp) : list PublicKey :=
  match op with Enter pk => pk :: leases | Leave pk => remove_one pk leases end.

Lemma count_remove_one pk x l :
  count_occ pk_dec (remove_one pk l) x =
  count_occ pk_dec l x - (if pk_dec pk x then 1 else 0).
Proof.
  induction l as [|y l IH]; simpl; [by destruct (pk_dec pk x)|].
  destruct (pk_dec y pk) as [->|Hne]; simpl.
  - destruct (pk_dec pk x); lia.
  - destruct (pk_dec y x) as [->|]; [|done]. rewrite IH.
    destruct (pk_dec pk x); [congruence|lia].
Qed.

Lemma enter_counts counts leases pk :
  counts_leases counts leases -> counts_leases (ActiveSessions.enter counts pk) (pk :: leases).
Proof.
  intros H x. unfold ActiveSessions.enter, ActiveSessions.t in *. simpl. destruct (pk_dec pk x) as [->|Hne].
  - rewrite lookup_insert_eq, (H x). by destruct (count_occ _ leases x).
  - rewrite lookup_insert_ne by done. apply H.
Qed.

Lemma drop_counts counts leases pk :
  counts_leases counts leases -> counts_leases (ActiveSessions.drop counts pk) (remove_one pk leases).
Proof.
  intros H x. rewrite count_remove_one. unfold ActiveSessions.drop, ActiveSessions.t in *. rewrite (H pk).
  destruct (count_occ pk_dec leases pk) as [|n] eqn:En.
  - rewrite (H x). destruct (pk_dec pk x) as [->|]; [by rewrite En|]. by rewrite Nat.sub_0_r.
  - simpl. rewrite Nat.sub_0_r. destruct (pk_dec pk x) as [->|Hne].
    + rewrite En. simpl. rewrite Nat.sub_0_r. destruct n; simpl; [by rewrite lookup_delete_eq|by rewrite lookup_insert_eq].
    + rewrite Nat.sub_0_r. destruct n; simpl; [rewrite lookup_delete_ne by done|rewrite lookup_insert_ne by done]; apply H.
Qed.

Definition total (counts : gmap PublicKey nat) : nat := (ActiveSessions.snapshot counts).1.

Lemma total_perm (l1 l2 : list (PublicKey * nat)) :
  l1 ≡ₚ l2 -> foldr (fun kv n => kv.2 + n) 0 l1 = foldr (fun kv n => kv.2 + n) 0 l2.
Proof. induction 1; simpl; lia. Qed.

Lemma total_insert_fresh (counts : gmap PublicKey nat) pk n :
  counts !! pk = None -> total (<[pk := n]> counts) = n + total counts.
Proof. intros H. unfold total. simpl. by rewrite (total_perm _ _ (map_to_list_insert _ _ _ H)). Qed.

Lemma total_enter counts pk : total (ActiveSessions.enter counts pk) = S (total counts).
Proof.
  unfold ActiveSessions.enter, ActiveSessions.t in *. destruct (counts !! pk) as [n|] eqn:E; simpl.
  - rewrite <-(insert_delete_id counts pk n E) at 2. rewrite <-insert_delete_eq.
    rewrite !total_insert_fresh by apply lookup_delete_eq. lia.
  - by rewrite total_insert_fresh.
Qed.

Lemma counts_leases_total counts leases : counts_leases counts leases -> total counts = length leases.
Proof.
  revert counts. induction leases as [|pk leases IH]; intros counts H.
  - assert (counts = ∅) as -> by (apply map_eq; intros x; by rewrite (H x), lookup_empty). done.
  - set (counts' := ActiveSessions.drop counts pk).
    assert (counts_leases counts' leases) as H'.
    { pose proof (drop_counts _ _ pk H) as Hd. simpl in Hd. destruct (pk_dec pk pk); [done|congruence]. }
    assert (counts = ActiveSessions.enter counts' pk) as E.
    { apply map_eq. intros x. rewrite (H x). symmetry. apply (enter_counts _ _ pk H' x). }
    rewrite E, total_enter. simpl. by rewrite IH.
Qed.

Lemma snapshot_principals (counts : gmap PublicKey nat) leases pk :
  counts_leases counts leases -> pk ∈ (ActiveSessions.snapshot counts).2 <-> pk ∈ leases.
Proof.
  intros H. simpl. rewrite elem_of_sort_by.
  rewrite list_elem_of_In with (l := leases). rewrite (count_occ_In pk_dec). split.
  - intros ([x n] & -> & Hin%elem_of_map_to_list)%list_elem_of_fmap. unfold to_hex. simpl.
    pose proof (eq_trans (eq_sym Hin) (H x)) as E.
    destruct (count_occ pk_dec leases x); [done|lia].
  - intros Hc. apply list_elem_of_fmap. exists (pk, count_occ pk_dec leases pk). split; [done|].
    apply elem_of_map_to_list. etrans; [apply H|]. destruct (count_occ pk_dec leases pk); [lia|done].
Qed.

(** The session registry is exact.  After any sequence of connects and
    disconnects, the count a pulse reports is the number of leases held, and
    the principals it lists are exactly the keys that hold one. *)
Theorem session_leases_balanced (ops : list SessionOp) :
  let counts := foldl session_op ∅ ops in
  let leases := foldl leases_op [] ops in
  (ActiveSessions.snapshot counts).1 = length leases /\
  (forall pk, pk ∈ (ActiveSessions.snapshot counts).2 <-> pk ∈ leases).
Proof.
  intros counts leases.
  assert (counts_leases counts leases) as H.
  { unfold counts, leases. induction ops as [|op ops IH] using rev_ind; [intros x; apply (lookup_empty (M := gmap PublicKey))|].
    rewrite !foldl_snoc. destruct op; [by apply enter_counts|by apply drop_counts]. }
  split; [by apply counts_leases_total|]. intros pk. by apply snapshot_principals.
Qed.
