(* ===== verification/Node.v ===== *)
(** * The node as a state machine

    Every request handler of the relay as a transition of one state machine,
    [request]; a small set of core transitions, [relay_step], that every
    handler is composed of; and the invariants of all reachable states. *)

From S2P Require Import Prelude Text Nostr Demo Kinds Ingest FilterMatch Store StoreTheory Replication.
From S2P Require Import Auth Identity Declarations Relay RelayApi Session Push RelayTheory SessionTheory.

Section node.
Context `{NL : NostrLib, NLL : !NostrLaws NL, SJ : SerdeJson, UL : UrlLib, SL : SigningLib,
          SLL : !SigningLaws NL SL, HTL : !HttpLib, WL : !WsLib}.

(** The requests a node serves. *)
Inductive request : LocalRelay -> LocalRelay -> Prop :=
| rq_submit env r headers body r' res :
    submit_event env r headers body = (r', res) -> request r r'
| rq_query env r headers body r' res :
    query_events env r headers body = (r', res) -> request r r'
| rq_count env r headers body r' res :
    count_events env r headers body = (r', res) -> request r r'
| rq_replicate env envs r headers body r' res :
    replication_ingest env envs r headers body = (r', res) -> request r r'
| rq_peer env r evidence audience record r' res :
    ingest_replication_from_peer env r evidence audience record = (r', res) -> request r r'
| rq_upload env fs r headers body r' res :
    artifact_upload env fs r headers body = (r', res) -> request r r'
| rq_fetch env fs r sha256 headers r' res :
    artifact_fetch env fs r sha256 headers = (r', res) -> request r r'
| rq_head env fs r sha256 headers r' res :
    artifact_head env fs r sha256 headers = (r', res) -> request r r'
| rq_session env r c input r' c' b :
    session_step env r c input = (r', c', b) -> request r r'
| rq_disconnect r c : request r (session_end r c)
| rq_materialize env r r' res :
    materialize_existing_nip29_state env r = (r', res) -> request r r'.

(** The core transitions. *)
Inductive relay_step : LocalRelay -> LocalRelay -> Prop :=
| st_submit env r e principal r' res :
    submit_from env r e principal = (r', res) -> relay_step r r'
| st_read now r principal op filters r' res :
    query_for_cursors now r principal op filters = (r', res) -> relay_step r r'
| st_project env i r create projected r' res :
    project_group_create r create = Ok projected ->
    publish_projected_events env i r projected = (r', res) -> relay_step r r'
| st_identity r a a' :
    identity r = Some a -> peer_trust a' = peer_trust a -> relay_step r (with_identity r a')
| st_sessions r s : relay_step r (with_sessions r s)
| st_artifact r dir body :
    artifacts_dir r = Some dir -> dir !! sha256_hex body = None ->
    relay_step r (with_artifacts r (<[sha256_hex body := body]> dir)).

Lemma step_once r r' : relay_step r r' -> rtc relay_step r r'.
Proof. apply rtc_once. Qed.

(** Authentication is a step, or nothing. *)
Lemma authenticate_http_method_steps env r headers method path body r' res :
  authenticate_http_method env r headers method path body = (r', res) -> rtc relay_step r r'.
Proof.
  destruct (identity r) as [a|] eqn:Ha; [|unfold authenticate_http_method; rewrite Ha; by intros [= <- <-]].
  intros H. destruct (authenticate_http_proof _ _ _ _ _ _ _ _ _ Ha H) as [(a' & -> & Hpt) _].
  apply step_once. by eapply st_identity.
Qed.

Lemma ingest_replication_steps env r record r' res :
  ingest_replication env r record = (r', res) -> rtc relay_step r r'.
Proof.
  unfold ingest_replication. destruct (replication_policy r _ _); [|by intros [= <- <-]].
  case_match; [by intros [= <- <-]|]. case_match; [by intros [= <- <-]|].
  unfold submit. destruct (submit_from env r (rr_event record) None) as [r1 res1] eqn:Es.
  intros H'. apply step_once. eapply st_submit. rewrite Es. f_equal.
  repeat case_match; by simplify_eq.
Qed.

Lemma ingest_batch_steps envs i r source records receipts r' res :
  ingest_batch envs i r source records receipts = (r', res) -> rtc relay_step r r'.
Proof.
  revert i r receipts. induction records as [|rec rest IH]; intros i r receipts; cbn [ingest_batch];
    [by intros [= <- <-]|].
  case_match; [by intros [= <- <-]|].
  destruct (ingest_replication (envs i) r rec) as [r1 res1] eqn:Ei. apply ingest_replication_steps in Ei.
  destruct res1 as [c|]; [|by intros [= <- <-]]. case_match; [by intros [= <- <-]|].
  intros Hrun. etrans; [exact Ei|]. by eapply IH.
Qed.

Lemma materialize_all_steps env i r creates r' res :
  materialize_all env i r creates = (r', res) -> rtc relay_step r r'.
Proof.
  revert i r. induction creates as [|c rest IH]; intros i r; cbn [materialize_all]; [by intros [= <- <-]|].
  destruct (project_group_create r c) as [projected|[reason|reason]] eqn:Ep; [|by apply IH|by intros [= <- <-]].
  destruct (publish_projected_events env i r projected) as [r1 res1] eqn:Epp.
  assert (rtc relay_step r r1) as Hs by (apply step_once; by eapply st_project).
  destruct res1; [|by intros [= <- <-]]. intros Hrun. etrans; [exact Hs|]. by eapply IH.
Qed.

Lemma authenticate_at_trust w a ev aud now a' res :
  authenticate_at w a ev aud now = (a', res) -> peer_trust a' = peer_trust a.
Proof. unfold authenticate_at, consume_proof. intros H. repeat case_match; by simplify_eq. Qed.

Lemma authenticate_peer_at_trust w a ev aud src now a' res :
  authenticate_peer_at w a ev aud src now = (a', res) -> peer_trust a' = peer_trust a.
Proof. unfold authenticate_peer_at, consume_proof. intros H. repeat case_match; by simplify_eq. Qed.

Lemma artifact_access_steps env r sha headers r' res :
  artifact_access env r sha headers = (r', res) -> rtc relay_step r r'.
Proof.
  unfold artifact_access. destruct (artifacts_dir r); [|by intros [= <- <-]].
  case_match; [by intros [= <- <-]|].
  destruct (authenticate_http_method env r headers "GET" _ EmptyString) as [r1 [p|]] eqn:E;
    apply authenticate_http_method_steps in E; by intros [= <- <-].
Qed.

Lemma reply_relay r c f r' c' b : reply r c f = (r', c', b) -> r' = r.
Proof. by intros (_ & -> & _)%(reply_adds (fun _ => True)). Qed.

Lemma handle_client_message_steps env r c m r' c' b :
  handle_client_message env r c m = (r', c', b) -> rtc relay_step r r'.
Proof.
  assert (forall rr f, reply rr c f = (r', c', b) -> rtc relay_step rr r') as Hr
    by (by intros rr f ->%reply_relay).
  unfold handle_client_message. intros H.
  destruct m as [text|payload| | |]; [|by eapply Hr|by injection H as <- <- <- ..].
  destruct (_ ≫= as_array) as [parsed|]; [|by eapply Hr].
  destruct (_ ≫= as_str) as [verb|]; [|by eapply Hr].
  case_match.
  { unfold handle_ws_auth in H. destruct (event_from_value <$> _) as [[e|]|]; try (by eapply Hr).
    destruct (identity r) as [a|] eqn:Ha; [|by eapply Hr].
    destruct (ws_challenge c), (ws_audience c); try (by eapply Hr).
    destruct (ws_principal (ws_identity c)); [by eapply Hr|].
    destruct (authenticate_at _ a _ _ _) as [a' [p|err]] eqn:Eau; apply authenticate_at_trust in Eau.
    - apply reply_relay in H as ->. apply (rtc_l _ _ (with_identity r a')); [by eapply st_identity|].
      destruct (principal_pubkey p); [|done]. apply step_once, st_sessions.
    - apply Hr in H. apply (rtc_l _ _ (with_identity r a')); [by eapply st_identity|done]. }
  case_match.
  { unfold handle_ws_event in H. destruct (event_from_value <$> _) as [[e|]|]; try (by eapply Hr).
    destruct (relay_authorize_direct _ _ _); [|by eapply Hr].
    destruct (submit_from env r e _) as [r1 [w|err]] eqn:Es; apply Hr in H;
      (eapply rtc_l; [by eapply st_submit|done]). }
  case_match.
  { unfold handle_ws_req in H. destruct (parsed !! 1 ≫= as_str) as [id|]; [|by eapply Hr].
    case_match; [by eapply Hr|]. case_match; [by eapply Hr|].
    destruct (validate_filter_fields _ _); [|by eapply Hr].
    destruct (map_res _ _) as [[|f fs]|]; try (by eapply Hr).
    destruct (validate_filters _); [|by eapply Hr].
    destruct (query_for _ r _ _ _) as [r1 [hist|err]] eqn:Eq.
    - destruct (send_events _ id hist) as [s bb].
      assert (r' = r1) as ->; [destruct bb; [by apply reply_relay in H|by injection H as <- _ _]|].
      apply step_once. by eapply st_read.
    - apply reply_relay in H as ->. apply step_once. by eapply st_read. }
  case_match; [|by eapply Hr]. case_match; by injection H as <- <- <-.
Qed.

(** Every request is a sequence of core transitions. *)
Lemma request_steps r r' : request r r' -> rtc relay_step r r'.
Proof.
  destruct 1 as [env r h b r' res H|env r h b r' res H|env r h b r' res H|env envs r h b r' res H
                |env r ev aud rec r' res H|env fs r h b r' res H|env fs r sha h r' res H|env fs r sha h r' res H
                |env r c input r' c' b H|r c|env r r' res H].
  - unfold submit_event, authenticate_http in H.
    destruct (authenticate_http_method _ _ _ _ _ _) as [r1 [p|]] eqn:E; apply authenticate_http_method_steps in E;
      [|by injection H as <- <-].
    destruct (event_from_str b); [|by injection H as <- <-].
    destruct (relay_authorize_direct _ _ _); [|by injection H as <- <-].
    destruct (submit_from env r1 _ p) as [r2 res2] eqn:Es. injection H as <- <-.
    etrans; [exact E|]. apply step_once. by eapply st_submit.
  - unfold query_events, authenticate_http in H.
    destruct (authenticate_http_method _ _ _ _ _ _) as [r1 [p|]] eqn:E; apply authenticate_http_method_steps in E;
      [|by injection H as <- <-].
    destruct (parse_query_filter_body b); [|by injection H as <- <-].
    etrans; [exact E|]. apply step_once. by eapply st_read.
  - unfold count_events, authenticate_http in H.
    destruct (authenticate_http_method _ _ _ _ _ _) as [r1 [p|]] eqn:E; apply authenticate_http_method_steps in E;
      [|by injection H as <- <-].
    destruct (parse_filter_body b); by injection H as <- <-.
  - unfold replication_ingest, authenticate_http in H. destruct (identity r); [|by injection H as <- <-].
    destruct (authenticate_http_method _ _ _ _ _ _) as [r1 [[p|]|]] eqn:E; apply authenticate_http_method_steps in E;
      [|by injection H as <- <-..].
    destruct (records_from_slice b) as [[|first rest]|]; [by injection H as <- <-| |by injection H as <- <-].
    destruct (nostr_pubkey _); [|by injection H as <- <-].
    destruct (identity r1); [|by injection H as <- <-].
    destruct (bind_peer_key _ _ _); [|by injection H as <- <-].
    etrans; [exact E|]. by eapply ingest_batch_steps.
  - unfold ingest_replication_from_peer in H. destruct (identity r) as [a|] eqn:Ha; [|by injection H as <- <-].
    destruct (authenticate_peer_at _ a _ _ _ _) as [a' [bd|err]] eqn:Eau; apply authenticate_peer_at_trust in Eau.
    + apply (rtc_l _ _ (with_identity r a')); [by eapply st_identity|].
      destruct (negb _); [by injection H as <- <-|]. by eapply ingest_replication_steps.
    + injection H as <- <-. apply step_once. by eapply st_identity.
  - unfold artifact_upload, authenticate_http in H. destruct (artifacts_dir r) as [dir|] eqn:Ed; [|by injection H as <- <-].
    destruct (authenticate_http_method _ _ _ _ _ _) as [r1 [p|]] eqn:E; [|apply authenticate_http_method_steps in E; by injection H as <- <-].
    assert (artifacts_dir r1 = Some dir) as Ed1.
    { destruct (identity r) as [a|] eqn:Ha; [|unfold authenticate_http_method in E; rewrite Ha in E; by injection E as <- _].
      by destruct (authenticate_http_proof _ _ _ _ _ _ _ _ _ Ha E) as [(a' & -> & _) _]. }
    apply authenticate_http_method_steps in E.
    destruct (authorize_artifact_upload _ _); [|by injection H as <- <-].
    destruct (String.eqb _ _); [by injection H as <- <-|]. destruct fs; [|by injection H as <- <-].
    destruct (dir !! sha256_hex b) eqn:El; injection H as <- <-; [done|].
    etrans; [exact E|]. apply step_once. by apply st_artifact.
  - unfold artifact_fetch in H. destruct (artifact_access _ _ _ _) as [r1 [[? ?]|]] eqn:E;
      apply artifact_access_steps in E; by injection H as <- <-.
  - unfold artifact_head in H. destruct (artifact_access _ _ _ _) as [r1 [[? ?]|]] eqn:E;
      apply artifact_access_steps in E; by injection H as <- <-.
  - destruct input as [[m|]|e|n|]; cbn [session_step] in H; [by eapply handle_client_message_steps|..];
      [by injection H as <- <- <-| |by apply reply_relay in H as ->|by injection H as <- <- <-].
    destruct (deliver_live _ r c e). by injection H as <- <- <-.
  - unfold session_end. destruct (ws_session_lease _); [|done]. apply step_once, st_sessions.
  - unfold materialize_existing_nip29_state in H. destruct (relay_keys r); [|by injection H as <- <-].
    destruct (query _ _); [|by injection H as <- <-]. by eapply materialize_all_steps.
Qed.

(** An invariant of the core transitions is one of all requests. *)
Lemma requests_invariant (I : LocalRelay -> Prop) r r' :
  (forall x y, relay_step x y -> I x -> I y) -> rtc request r r' -> I r -> I r'.
Proof.
  intros Hstep. induction 1 as [|r1 r2 r3 Hrq _ IH]; [done|]. intros HI. apply IH.
  apply request_steps in Hrq. clear IH. induction Hrq as [|x y z Hs _ IH]; [done|]. apply IH. by eapply Hstep.
Qed.

(** ** The journal *)

Lemma relay_step_extends r r' :
  relay_step r r' -> store_ok (relay_store r) -> extends (fun _ => True) r r'.
Proof using SLL.
  destruct 1 as [env r e p r' res H|now r p op fs r' res H|env i r c pr r' res Hp H|r a a' Ha Ht|r s|r dir body Hd Hn]; intros Hok.
  - eapply extends_impl; [|by eapply submit_from_extends]. done.
  - apply extends_same; [done| |]; revert H; unfold query_for_cursors; intros H; repeat case_match; by simplify_eq.
  - eapply publish_projected_events_extends; [done| |exact H]. by apply Forall_true.
  - apply extends_same; [done|done|]. repeat split. simpl. rewrite Ha. simpl. by rewrite Ht.
  - apply extends_same; [done|done|by repeat split].
  - apply extends_same; [done|done|by repeat split].
Qed.

(** C2: the journal of a node is append-only and sound.  Through any sequence
    of requests - submissions, queries, replication batches, session messages,
    uploads - nothing is removed from or reordered in the journal, every id
    occurs in it once, every event in it has a valid id and signature, and no
    ephemeral or authentication event ever enters it. *)
Theorem journal_append_only (r r' : LocalRelay) :
  store_ok (relay_store r) -> rtc request r r' ->
  (exists js, journal (relay_store r') = journal (relay_store r) ++ js) /\
  NoDup (ev_id <$> journal (relay_store r')) /\
  (forall e, e ∈ journal (relay_store r') ->
     verify_event e = Ok tt /\ is_ephemeral_kind (ev_kind e) = false /\
     ev_kind e <> KIND_AUTH /\ ev_kind e <> KIND_HTTP_AUTH).
Proof using SLL.
  intros Hok Hrun.
  assert (store_ok (relay_store r') /\ exists js, journal (relay_store r') = journal (relay_store r) ++ js)
    as [[_ Hj Hnd] Hpre].
  { eapply (requests_invariant (fun x => store_ok (relay_store x) /\
      exists js, journal (relay_store x) = journal (relay_store r) ++ js)); [|exact Hrun|].
    - intros x y Hs [Hx (js & E)]. destruct (relay_step_extends _ _ Hs Hx) as [Hy _ (js' & E' & _) _].
      split; [done|]. exists (js ++ js'). by rewrite E', E, app_assoc.
    - split; [done|]. exists []. by rewrite app_nil_r. }
  split_and!; try done. intros e He. destruct (Hj e He) as (_ & Hv & Hd). unfold durable in Hd.
  split_and!; try done; intros E; by rewrite E in Hd.
Qed.

(** ** Sessions *)

(** A session and the node it runs on: its start, its turns while it is open,
    and the other requests the node serves meanwhile. *)
Inductive session_run (r0 : LocalRelay) (generated : string) (audience : option string)
    : LocalRelay -> Connection -> bool -> Prop :=
| sr_start ok c b :
    session_start r0 generated audience ok = (c, b) -> session_run r0 generated audience r0 c b
| sr_turn env r c input r' c' b :
    session_run r0 generated audience r c true -> session_step env r c input = (r', c', b) ->
    session_run r0 generated audience r' c' b
| sr_other r c b r' :
    session_run r0 generated audience r c b -> request r r' -> session_run r0 generated audience r' c b.

Lemma request_extends r r' : request r r' -> store_ok (relay_store r) -> extends (fun _ => True) r r'.
Proof using SLL.
  intros Hrq%request_steps. induction Hrq as [|x y z Hs _ IH]; [apply extends_refl|]. intros Hok.
  pose proof (relay_step_extends _ _ Hs Hok) as H1. eapply extends_trans; [exact H1|]. apply IH. by destruct H1.
Qed.

(** What is known of a session at any time. *)
Record session_ok (r0 : LocalRelay) (a : LocalIdentityAdapter) (generated : string) (audience : option string)
    (r : LocalRelay) (c : Connection) : Prop := {
  sk_store : store_ok (relay_store r);
  sk_config : same_config r0 r;
  sk_challenge : ws_challenge c = Some generated /\ ws_audience c = audience;
  sk_limits : within_limits c;
  sk_proved : forall p, ws_principal (ws_identity c) = Some p ->
    exists now proof, session_proof now c p proof;
  sk_shown : forall e, shown (sent (ws_sender c)) e -> disclosable r0 a c e;
}.

Lemma disclosable_config r0 a r a' c c' e :
  same_config r0 r -> identity r0 = Some a -> identity r = Some a' ->
  (forall p, ws_principal (ws_identity c) = Some p -> ws_identity c' = ws_identity c) ->
  disclosable r a' c e -> disclosable r0 a c' e.
Proof.
  intros (_ & Hg & _ & Hp) Ha Ha' Hid (p & pk & H1 & H2 & H3). rewrite Ha, Ha' in Hp. injection Hp as Hp.
  exists p, pk. rewrite (Hid p H1). split_and!; try done. unfold has_standing in *. by rewrite <-Hg, <-Hp.
Qed.

Lemma session_run_ok r0 a generated audience r c b :
  identity r0 = Some a -> store_ok (relay_store r0) -> session_run r0 generated audience r c b ->
  session_ok r0 a generated audience r c.
Proof using NLL SLL.
  intros Ha Hok. induction 1 as [ok c b Hst|env r c input r' c' b _ IH Hs|r c b r' _ IH Hrq].
  - unfold session_start in Hst. rewrite Ha in Hst. simpl in Hst.
    assert (exists fs, sent (ws_sender c) = fs /\ (fs = [] \/ fs = [F_Auth generated]) /\
      subscriptions c = ∅ /\ ws_identity c = ws_identity_default /\
      ws_challenge c = Some generated /\ ws_audience c = audience) as (fs & Hf & Hor & Hsub & Hid & Hch & Hau).
    { unfold send_json in Hst. simpl in Hst. destruct (ok 0); injection Hst as <- <-; simpl; eauto 10. }
    split; try done.
    + unfold within_limits. rewrite Hsub. split; [vm_compute; lia|]. intros id f. by rewrite lookup_empty.
    + rewrite Hid. intros p [=].
    + intros e (id & He). rewrite Hf in He. destruct Hor as [-> | ->]; [by apply not_elem_of_nil in He|].
      by apply list_elem_of_singleton in He.
  - destruct IH as [Hst Hcfg [Hch Hau] Hlim Hpr Hsh].
    assert (exists a', identity r = Some a') as [a' Ha'].
    { destruct Hcfg as (_ & _ & _ & Hp). rewrite Ha in Hp. destruct (identity r); [eauto|discriminate]. }
    pose proof (session_step_keeps _ _ _ _ _ _ _ Hs) as (Hc1 & Hc2 & Hl' & Hid & Hnew).
    pose proof (request_extends _ _ (rq_session _ _ _ _ _ _ _ Hs) Hst) as [Hst' _ _ Hcfg'].
    pose proof (session_step_adds _ _ _ _ _ _ _ _ Ha' Hs) as (fs & Hf & Hfs).
    split; [done| |by rewrite Hc1, Hc2|by apply Hl'| |].
    + destruct Hcfg as (H1 & H2 & H3 & H4), Hcfg' as (H5 & H6 & H7 & H8). unfold same_config.
      by rewrite H5, H6, H7, H8.
    + intros p Hp. unfold session_proof. rewrite Hc1, Hc2.
      destruct (ws_principal (ws_identity c)) as [q|] eqn:Eq.
      * rewrite (Hid q eq_refl), Eq in Hp. injection Hp as <-. by apply Hpr.
      * destruct (Hnew p Hp eq_refl) as [proof Hproof]. eauto.
    + intros e (id & He). rewrite Hf in He. apply elem_of_app in He as [He|He].
      * destruct (Hsh e ltac:(by exists id)) as (p & pk & H1 & H2 & H3). exists p, pk. by rewrite (Hid p H1).
      * eapply disclosable_config; [exact Hcfg|exact Ha|exact Ha'|exact Hid|]. apply Hfs. by exists id.
  - destruct IH as [Hst Hcfg [Hch Hau] Hlim Hpr Hsh].
    pose proof (request_extends _ _ Hrq Hst) as [Hst' _ _ Hcfg']. split; try done.
    destruct Hcfg as (H1 & H2 & H3 & H4), Hcfg' as (H5 & H6 & H7 & H8). unfold same_config. by rewrite H5, H6, H7, H8.
Qed.

(** C6: sessions are safe end to end.  On a node with identity, whatever a
    client sends, whatever is broadcast and whatever else the node serves
    meanwhile: before a session is authenticated it has been sent no event at
    all; a session's principal is the signer of a fresh NIP-42 proof over the
    challenge and the audience of this very connection; every event ever sent to
    it is one that key may read, or a Beacon event to a party with standing;
    and it never holds more than 128 subscriptions or an id over 128 bytes. *)
Theorem session_safe (r0 r : LocalRelay) (a : LocalIdentityAdapter) (generated : string)
    (audience : option string) (c : Connection) (b : bool) :
  identity r0 = Some a -> store_ok (relay_store r0) -> session_run r0 generated audience r c b ->
  within_limits c /\
  (ws_principal (ws_identity c) = None -> forall e, ~ shown (sent (ws_sender c)) e) /\
  (forall p, ws_principal (ws_identity c) = Some p ->
     exists now proof relay aud,
       fresh_proof 22242 proof now /\ ap_principal p = P_Nostr (ev_pubkey proof) /\
       find_content TK_Challenge proof = Some generated /\ find_content TK_Relay proof = Some relay /\
       audience = Some aud /\ normalize_relay_url relay = normalize_relay_url aud /\
       forall e, shown (sent (ws_sender c)) e ->
         may_read (ev_pubkey proof) e \/
         ((ev_kind e = KIND_BEACON_PULSE \/ ev_kind e = KIND_BEACON_RESPONSE) /\
          has_standing r0 a (ev_pubkey proof))).
Proof using NLL SLL.
  intros Ha Hok Hrun. destruct (session_run_ok _ _ _ _ _ _ _ Ha Hok Hrun) as [_ _ [Hch Hau] Hlim Hpr Hsh].
  split_and!; [done| |].
  - intros Hn e (p & pk & Hp & _)%Hsh. congruence.
  - intros p Hp. destruct (Hpr p Hp) as (now & proof & Hf & Hpp & ch & aud & relay & H1 & H2 & H3 & H4 & H5).
    exists now, proof, relay, aud. rewrite Hch in H1. injection H1 as <-. rewrite Hau in H2.
    split_and!; try done. intros e (q & pk & Hq & Hpk & Hor)%Hsh. rewrite Hp in Hq. injection Hq as <-.
    rewrite Hpp in Hpk. by injection Hpk as <-.
Qed.

(** ** Recognition *)

(** A response that answers a round: a genuine Beacon response that names the
    round's pulse and this witness, restates its head, and was made within the
    recognition window. *)
Record answers (keys : Keys) (round : BeaconRound) (responder stance : string) (e : Event) : Prop := {
  an_genuine : verify_event e = Ok tt;
  an_kind : ev_kind e = KIND_BEACON_RESPONSE;
  an_author : to_hex (ev_pubkey e) = responder;
  an_pulse : event_tag_value e "e" = Some (br_pulse_id round);
  an_witness : event_tag_value e "p" = Some (to_hex (public_key keys));
  an_window : (br_created_at round <= ev_created_at e <=
               u64_saturating_add (br_created_at round) DEFAULT_RECOGNITION_WINDOW_SECS)%N;
  an_stance : response_stance (br_head round) (ev_content e) = Some stance;
}.

(** A round was opened by a pulse this node signed. *)
Definition issued (r : LocalRelay) (round : BeaconRound) : Prop :=
  exists pulse, verify_event pulse = Ok tt /\ relay_signed r pulse /\ ev_kind pulse = KIND_BEACON_PULSE /\
    to_hex (ev_id pulse) = br_pulse_id round /\ ev_created_at pulse = br_created_at round.

Definition round_ok (r : LocalRelay) (round : BeaconRound) : Prop :=
  issued r round /\
  forall responder stance, br_responses round !! responder = Some stance ->
    exists keys e, relay_keys r = Some keys /\ answers keys round responder stance e.

Definition rounds_ok (r : LocalRelay) : Prop := Forall (round_ok r) (beacon_rounds r).

Lemma round_ok_keys r r' round : relay_keys r' = relay_keys r -> round_ok r round -> round_ok r' round.
Proof. unfold round_ok, issued, relay_signed. by intros ->. Qed.

Lemma rounds_ok_same r r' :
  relay_keys r' = relay_keys r -> beacon_rounds r' = beacon_rounds r -> rounds_ok r -> rounds_ok r'.
Proof.
  intros Hk Hb H. unfold rounds_ok. rewrite Hb. eapply Forall_impl; [exact H|].
  intros round. by apply round_ok_keys.
Qed.

Lemma register_pulse_rounds now r pulse :
  current_pulse now r = Some pulse -> rounds_ok r -> rounds_ok (register_pulse r pulse).
Proof using SLL.
  intros Hp H. apply current_pulse_signed in Hp as (Hs & Hk & Ht & _ & _ & Hv). unfold rounds_ok, register_pulse. simpl.
  set (kept := List.filter _ _).
  assert (Forall (round_ok (register_pulse r pulse)) kept) as Hkept.
  { apply Forall_forall. intros x [Hx _]%elem_of_filter_b. unfold rounds_ok in H. rewrite Forall_forall in H.
    eapply round_ok_keys; [|by apply H]. done. }
  destruct (cp_head pulse) as [head|]; [|exact Hkept].
  apply Forall_app. split; [exact Hkept|]. constructor; [|constructor]. split.
  - exists (cp_event pulse). by split_and!.
  - intros responder stance. simpl. by rewrite lookup_empty.
Qed.

Lemma record_response_rounds now r e r' b :
  verify_event e = Ok tt -> ev_kind e = KIND_BEACON_RESPONSE ->
  record_beacon_response now r e = (r', b) -> rounds_ok r -> rounds_ok r'.
Proof.
  intros Hv Hk. unfold record_beacon_response.
  destruct (relay_keys r) as [keys|] eqn:Ek; [|by intros [= <- <-]].
  destruct (event_tag_value e "e") as [pulse_id|] eqn:Ee; [|by intros [= <- <-]].
  destruct (position _ _) as [i|] eqn:Ep; [|by intros [= <- <-]].
  destruct (beacon_rounds r !! i) as [round|] eqn:Er; [|by intros [= <- <-]].
  case_match eqn:Ec; [by intros [= <- <-]|].
  destruct (response_stance _ _) as [stance|] eqn:Es; [|by intros [= <- <-]].
  intros [= <- <-] H. unfold rounds_ok in *. simpl.
  apply position_some in Ep as (l1 & x & l2 & El & <- & Hx & _). rewrite El, list_lookup_middle in Er by done.
  injection Er as ->. apply String.eqb_eq in Hx.
  assert (round_ok r round) as [Hiss Hresp].
  { rewrite Forall_forall in H. apply H. rewrite El. apply elem_of_app. right. left. }
  apply Forall_insert; [eapply Forall_impl; [exact H|]; intros y; by apply round_ok_keys|].
  split; [exact Hiss|]. simpl. intros responder st. destruct (decide (responder = to_hex (ev_pubkey e))) as [->|Hne].
  - rewrite lookup_insert_eq. intros [= <-]. exists keys, e. split; [done|].
    apply orb_false_iff in Ec as [Ec Hp]. apply negb_false_iff, bool_decide_eq_true in Hp.
    constructor; simpl; try done; [by rewrite Hx|lia].
  - rewrite lookup_insert_ne by done. intros Hl. destruct (Hresp _ _ Hl) as (k & e' & Hk' & [? ? ? ? ? ? ?]).
    exists k, e'. split; [done|]. by constructor.
Qed.

Lemma publish_projected_events_rounds env i r projected r' res :
  publish_projected_events env i r projected = (r', res) ->
  relay_keys r' = relay_keys r /\ beacon_rounds r' = beacon_rounds r /\ artifacts_dir r' = artifacts_dir r.
Proof.
  revert i r. induction projected as [|e rest IH]; intros i r; simpl; [by intros [= <- <-]|].
  destruct (accept _ _ e) as [s [w|err]]; [|by intros [= <- <-]]. intros H. apply IH in H as (-> & -> & ->).
  by destruct (WriteResult.publish_live w).
Qed.

Lemma publish_pulse_rounds now r : rounds_ok r -> rounds_ok (publish_pulse now r).
Proof using SLL.
  intros H. unfold publish_pulse. destruct (current_pulse now r) as [p|] eqn:Ep; [|done].
  eapply rounds_ok_same; [| |by eapply register_pulse_rounds]; done.
Qed.

Lemma accept_verified env s e s' w :
  accept env s e = (s', Ok w) -> WriteResult.accepted w = true -> verify_event e = Ok tt.
Proof.
  intros H Hw. destruct (accept_cases _ _ _ _ _ H) as [E|[E|[Hv _]]]; [by destruct E| |done].
  destruct E as (_ & _ & reason & E). injection E as ->. done.
Qed.

Lemma submit_from_rounds env r e p r' res :
  submit_from env r e p = (r', res) -> rounds_ok r -> rounds_ok r'.
Proof using SLL.
  unfold submit_from. intros H Hr. case_match eqn:Eb; [by injection H as <- <-|].
  destruct (if (_ =? _)%N then _ else _) as [projected|[|]]; [|by injection H as <- <-..].
  destruct (accept _ (relay_store r) e) as [s [w|err]] eqn:Ea.
  2: { injection H as <- <-. by eapply rounds_ok_same; [..|exact Hr]. }
  set (rb := if _ && _ && _ then _ else _) in H. destruct rb as [r1 refused] eqn:Erb.
  assert (rounds_ok r1) as Hr1.
  { revert Erb. unfold rb. clear rb Eb. destruct (_ && _ && _) eqn:Ec.
    2: { intros [= <- _]. by eapply rounds_ok_same; [..|exact Hr]. }
    apply andb_true_iff in Ec as [[Ek Eacc]%andb_true_iff _]. apply N.eqb_eq in Ek.
    destruct (record_beacon_response _ _ _) as [r2 b] eqn:Er. intros [= <- _].
    eapply record_response_rounds; [by eapply accept_verified|exact Ek|exact Er|].
    by eapply rounds_ok_same; [..|exact Hr]. }
  destruct refused; [by injection H as <- <-|].
  destruct (WriteResult.publish_live w); [|by injection H as <- <-].
  destruct (publish_projected_events env 1 (send_live r1 e) projected) as [r2 res2] eqn:Ep.
  apply publish_projected_events_rounds in Ep as (Ek & Eb2 & _).
  assert (rounds_ok r2) as Hr2 by (by eapply rounds_ok_same; [..|exact Hr1]).
  destruct res2; injection H as <- <-; [|done]. case_match; [by apply publish_pulse_rounds|done].
Qed.

Lemma relay_step_rounds r r' : relay_step r r' -> rounds_ok r -> rounds_ok r'.
Proof using SLL.
  destruct 1 as [env r e p r' res H|now r p op fs r' res H|env i r c pr r' res Hp H|r a a' Ha Ht|r s|r dir body Hd Hn]; intros Hok.
  - by eapply submit_from_rounds.
  - revert H. unfold query_for_cursors. destruct (relay_authorize_query _ _ _ _); [|by intros [= <- <-]].
    destruct (query_with_cursors _ _); [|by intros [= <- <-]]. case_match; [|by intros [= <- <-]].
    destruct (current_pulse now r) as [pulse|] eqn:Ep; [|by intros [= <- <-]].
    case_match; intros [= <- <-]; [|done]. by eapply register_pulse_rounds.
  - apply publish_projected_events_rounds in H as (? & ? & _). by eapply rounds_ok_same.
  - by eapply rounds_ok_same; [..|exact Hok].
  - by eapply rounds_ok_same; [..|exact Hok].
  - by eapply rounds_ok_same; [..|exact Hok].
Qed.


(** ** Artifacts *)

Definition content_addressed (r : LocalRelay) : Prop :=
  forall dir k v, artifacts_dir r = Some dir -> dir !! k = Some v -> sha256_hex v = k.

Lemma relay_step_artifacts r r' dir :
  relay_step r r' -> artifacts_dir r = Some dir ->
  exists dir', artifacts_dir r' = Some dir' /\ dir ⊆ dir' /\ (content_addressed r -> content_addressed r').
Proof.
  intros Hs Hd.
  assert (artifacts_dir r' = artifacts_dir r ->
    exists dir', artifacts_dir r' = Some dir' /\ dir ⊆ dir' /\ (content_addressed r -> content_addressed r')) as Hsame.
  { intros E. exists dir. rewrite E. split_and!; [done|done|]. unfold content_addressed. by rewrite E. }
  destruct Hs as [env r e p r' res H|now r p op fs r' res H|env i r c pr r' res Hp H|r a a' Ha Ht|r s|r dir0 body Hd0 Hn];
    try (by apply Hsame).
  - apply Hsame. revert H. unfold submit_from. intros H.
    case_match eqn:Eb; [by injection H as <- <-|clear Eb].
    destruct (if (_ =? _)%N then _ else _) as [projected|[|]]; [|by injection H as <- <-..].
    destruct (accept _ (relay_store r) e) as [s [w|err]]; [|by injection H as <- <-].
    set (rb := if _ && _ && _ then _ else _) in H. destruct rb as [r1 refused] eqn:Erb.
    assert (artifacts_dir r1 = artifacts_dir r) as E1.
    { revert Erb. unfold rb. clear rb. destruct (_ && _ && _); [|by intros [= <- _]].
      destruct (record_beacon_response _ _ _) as [r2 b] eqn:Er. intros [= <- _].
      by apply record_beacon_response_store in Er as (_ & _ & _ & -> & _). }
    destruct refused; [by injection H as <- <-|].
    destruct (WriteResult.publish_live w); [|by injection H as <- <-].
    destruct (publish_projected_events env 1 (send_live r1 e) projected) as [r2 res2] eqn:Ep.
    apply publish_projected_events_rounds in Ep as (_ & _ & Ep). simpl in Ep. rewrite E1 in Ep.
    destruct res2; injection H as <- <-; [|done]. case_match; [|done].
    unfold publish_pulse. by destruct (current_pulse _ r2).
  - apply Hsame. revert H. unfold query_for_cursors. intros H. repeat case_match; by simplify_eq.
  - apply Hsame. by apply publish_projected_events_rounds in H as (_ & _ & ?).
  - rewrite Hd in Hd0. injection Hd0 as <-. exists (<[sha256_hex body:=body]> dir). simpl. split_and!; [done| |].
    + by apply insert_subseteq.
    + intros Hca d k v [= <-] Hk. apply lookup_insert_Some in Hk as [[<- <-]|[_ Hk]]; [done|]. by eapply Hca.
Qed.

(** The artifact directory of a later state. *)
Lemma requests_artifacts r r' dir :
  rtc request r r' -> artifacts_dir r = Some dir -> content_addressed r ->
  exists dir', artifacts_dir r' = Some dir' /\ dir ⊆ dir' /\ content_addressed r'.
Proof.
  intros Hrun Hd Hca.
  eapply (requests_invariant (fun x => exists dir', artifacts_dir x = Some dir' /\ dir ⊆ dir' /\ content_addressed x));
    [|exact Hrun|by exists dir].
  intros x y Hs (d1 & H1 & H2 & H3). destruct (relay_step_artifacts _ _ _ Hs H1) as (d2 & H4 & H5 & H6).
  exists d2. split_and!; [done|by etrans|by apply H6].
Qed.

(** An upload that is answered has stored its blob, or found it. *)
Lemma artifact_upload_stores env fs r headers body r1 hash size :
  artifact_upload env fs r headers body = (r1, Ok (hash, size)) ->
  exists dir dir1, artifacts_dir r = Some dir /\ artifacts_dir r1 = Some dir1 /\ hash = sha256_hex body /\
    (dir !! hash = None -> dir1 = <[hash := body]> dir) /\ (is_Some (dir !! hash) -> dir1 = dir).
Proof.
  unfold artifact_upload, authenticate_http. destruct (artifacts_dir r) as [dir|] eqn:Hd; [|done].
  destruct (authenticate_http_method env r headers "POST" "/artifacts" body) as [r0 [p|]] eqn:E; [|done].
  assert (artifacts_dir r0 = Some dir) as Hd0.
  { destruct (identity r) as [a|] eqn:Ha; [|unfold authenticate_http_method in E; rewrite Ha in E; by injection E as <- _].
    by destruct (authenticate_http_proof _ _ _ _ _ _ _ _ _ Ha E) as [(a' & -> & _) _]. }
  destruct (authorize_artifact_upload r0 p); [|done]. destruct (String.eqb _ _); [done|]. destruct fs; [|done].
  destruct (dir !! sha256_hex body) eqn:El; intros [= <- <- <-].
  - exists dir, dir. rewrite El. split_and!; done.
  - exists dir, (<[sha256_hex body:=body]> dir). rewrite El. split_and!; try done.
Qed.

(** Stored artifacts are immutable and exact.  An upload that is answered
    leaves under its SHA-256 a blob with that digest - the uploaded bytes, unless
    one was there already - and from then on, whatever requests the node
    serves, every fetch of that hash that passes authorization returns exactly
    that blob. *)
Theorem artifact_immutable (env : RelayEnv) (fs : result string unit) (r r1 : LocalRelay) (headers : Headers)
    (body hash : string) (size : N) :
  content_addressed r -> artifact_upload env fs r headers body = (r1, Ok (hash, size)) ->
  hash = sha256_hex body /\
  exists v, sha256_hex v = hash /\
    (forall dir, artifacts_dir r = Some dir -> dir !! hash = None -> v = body) /\
    forall r2 env' sha headers' r3 dir', rtc request r1 r2 ->
      artifact_access env' r2 sha headers' = (r3, Ok (hash, dir')) ->
      artifact_fetch env' (Ok tt) r2 sha headers' = (r3, Ok v).
Proof.
  intros Hca Hup. pose proof (artifact_upload_stores _ _ _ _ _ _ _ _ Hup) as (dir & dir1 & Hd & Hd1 & Hh & Hnew & Hold).
  split; [done|].
  assert (content_addressed r1) as Hca1.
  { intros d k v Hk Hv. rewrite Hd1 in Hk. injection Hk as <-. destruct (dir !! hash) as [x|] eqn:El.
    - rewrite (Hold ltac:(by eexists)) in Hv. by eapply Hca.
    - rewrite (Hnew eq_refl) in Hv. apply lookup_insert_Some in Hv as [[<- <-]|[_ Hv]]; [done|by eapply Hca]. }
  assert (exists v, dir1 !! hash = Some v /\ (dir !! hash = None -> v = body)) as (v & Hv & Hvb).
  { destruct (dir !! hash) as [x|] eqn:El.
    - exists x. rewrite (Hold ltac:(by eexists)). done.
    - exists body. rewrite (Hnew eq_refl), lookup_insert_eq. done. }
  exists v. split_and!.
  - by eapply Hca1.
  - intros d Hd' Hn. rewrite Hd in Hd'. injection Hd' as <-. by apply Hvb.
  - intros r2 env' sha headers' r3 dir' Hrun Hacc. unfold artifact_fetch. rewrite Hacc. simpl.
    destruct (requests_artifacts _ _ _ Hrun Hd1 Hca1) as (dir2 & Hd2 & Hsub & Hca2).
    assert (dir' = dir2) as ->.
    { revert Hacc. unfold artifact_access. rewrite Hd2. case_match; [done|].
      destruct (authenticate_http_method _ _ _ _ _ _) as [r4 [p|]]; [|done].
      destruct (authorize_artifact_fetch _ _ _ _) as [[]|]; [|done]. by intros [= _ _ <-]. }
    pose proof (lookup_weaken _ _ _ _ Hv Hsub) as Hv2. rewrite Hv2.
    by rewrite (Hca2 dir2 hash v Hd2 Hv2), String.eqb_refl.
Qed.

(** ** The witnessed chain *)

(** The content of a pulse that witnesses an append: its sequence is the new
    length of the journal, its head the new event, its previous the old head. *)
Definition witnesses_append (before : list Event) (e : Event) (p : PulseContent) : Prop :=
  pc_sequence p = S (length before) /\ pc_head p = Some (to_hex (ev_id e)) /\
  pc_previous p = (fun x => to_hex (ev_id x)) <$> last before.

Lemma pulse_content_append now r before e :
  journal (relay_store r) = before ++ [e] -> witnesses_append before e (pulse_content now r).
Proof.
  intros Hj. unfold witnesses_append, pulse_content. destruct (agreements_of r). simpl.
  rewrite Hj, length_app, last_snoc, Nat.add_1_r. split_and!; [done..|].
  rewrite last_lookup. destruct before as [|x l]; [done|]. simpl length. cbn iota beta.
  replace (S (S (length l)) - 2) with (length l) by lia.
  by rewrite lookup_app_l by (simpl; lia).
Qed.

(** Every stored event is witnessed.  Submitting an event that the node
    stores - any kind but a group command - sends the event and then, when the
    node has a key and can sign, a pulse for the new state: its sequence is the
    journal's new length, its head is the event, and its previous entry is the
    head before the submission, so consecutive pulses chain. *)
Theorem stored_event_witnessed (env : RelayEnv) (r r' : LocalRelay) (e : Event)
    (principal : option AuthenticatedPrincipal) (w : WriteResult.t) :
  event_kind_u32 e <> KIND_NIP29_CREATE_GROUP ->
  submit_from env r e principal = (r', Ok w) ->
  WriteResult.accepted w = true -> WriteResult.message w = "stored" ->
  exists r1, journal (relay_store r1) = journal (relay_store r) ++ [e] /\
    relay_store r' = relay_store r1 /\
    witnesses_append (journal (relay_store r)) e (pulse_content (re_now env) r1) /\
    live r' = live r ++ e ::
      match current_pulse (re_now env) r1 with Some pulse => [cp_event pulse] | None => [] end.
Proof.
  intros Hk. unfold submit_from. intros H Hacc Hmsg.
  case_match eqn:Eb; [by injection H as <- <-|clear Eb].
  rewrite (proj2 (N.eqb_neq _ _) Hk) in H.
  destruct (accept _ (relay_store r) e) as [s [w0|err]] eqn:Ea; [|done].
  set (rb := if _ && _ && _ then _ else _) in H. destruct rb as [r1 refused] eqn:Erb.
  destruct refused; [by injection H as <- <-|].
  assert (w0 = w) as ->.
  { destruct (WriteResult.publish_live w0); simpl in H; by injection H as <- <-. }
  assert (r1 = with_store r s) as ->.
  { revert Erb. unfold rb. clear rb. rewrite Hmsg. simpl. rewrite andb_false_r. by intros [= <-]. }
  destruct (accept_cases _ _ _ _ _ Ea) as [E|[E|(_ & msg & lv & E & Hst)]]; [by destruct E| |].
  { destruct E as (_ & _ & reason & E). injection E as ->. done. }
  injection E as ->. simpl in Hmsg. subst msg.
  assert (journal s = journal (relay_store r) ++ [e]) as Hj by (by inversion Hst).
  assert (lv = true) as ->.
  { revert Ea. unfold accept. destruct (env_join _); [|done]. destruct (verify_event e); [|done].
    destruct (decide_event _ _ e); try (intros [= _ <-]; done).
    destruct (append_record _ _ _) as [? [[]|]]; [by intros [= _ <-]|done]. }
  simpl in H. injection H as <-. exists (send_live (with_store r s) e). simpl. split_and!.
  - exact Hj.
  - unfold publish_pulse. by destruct (current_pulse _ _).
  - by apply pulse_content_append.
  - unfold publish_pulse. destruct (current_pulse _ _) as [p|]; simpl; by rewrite <-?app_assoc.
Qed.
End node.
