(* ===== verification/Scenarios.v ===== *)
(** * Concrete nodes

    Instances of the remaining third-party interfaces - signing, request
    decoding, client messages - and runs of small concrete nodes: the
    hypotheses of the theorems on the relay hold there, and a few behaviours of
    the code that its comments do not describe are shown by evaluation. *)

From S2P Require Import Prelude Text Nostr Demo Kinds Ingest FilterMatch Store StoreTheory Replication.
From S2P Require Import Auth Identity Declarations Relay RelayApi Session Push Pull RelayTheory SessionTheory.
From S2P Require Import Node.

(** ** Instances *)

(** A key is its public half; only contents the demo library can hash are
    signed. *)
#[global] Instance demo_signing : SigningLib := {|
  Keys := string;
  public_key k := k;
  sign_with_keys k at_ kind tags content :=
    if str_forallb (fun c => (33 <=? N_of_ascii c)%N) content
    then Ok (mkEvent content k at_ kind tags content "sig") else Err "unsupported content";
  Tag_parse values := match values with [] => Err "empty tag" | _ => Ok values end;
  Uuid_error _ := "invalid length";
  pulse_to_string p := "pulse-" +:+ u64_to_string (N.of_nat (pc_sequence p));
|}.

#[global] Instance demo_signing_laws : SigningLaws demo_nostr demo_signing.
Proof.
  split. intros k at_ kind tags content e. simpl. case_match eqn:E; [|done]. intros [= <-]. simpl.
  split_and!; try done. apply verify_event_ok. simpl. by rewrite String.eqb_refl, E.
Defined.

Fixpoint json_keys (v : Json) : option (list string) :=
  match v with
  | JEmpty => Some []
  | JField name _ rest => ks ← json_keys rest; Some (name :: ks)
  | _ => None
  end.

Definition json_filter (v : Json) : result string Filter :=
  match v with
  | JField _ _ _ | JEmpty =>
      Ok (mkFilter None None ((fun n => [n]) <$> (k ← json_get v "kinds"; as_u64 (SerdeJson := demo_json) k))
            None None None (N.to_nat <$> (k ← json_get v "limit"; as_u64 (SerdeJson := demo_json) k)) [])
  | _ => Err "expected a filter"
  end.

#[global] Instance ReplicationRecord_eq_dec : EqDecision ReplicationRecord.
Proof. solve_decision. Defined.

#[global] Instance ReplicationRecord_countable : Countable ReplicationRecord :=
  inj_countable' (fun r => (rr_source r, rr_cursor r, rr_event r)) (fun '(a, b, c) => mkRecord a b c)
    ltac:(by intros []).

Definition record_text (r : ReplicationRecord) : result string string := Ok (bits (encode r)).

Definition record_read (s : string) : result string ReplicationRecord :=
  match p ← unbits s; decode p with Some r => Ok r | None => Err "bad record" end.

Definition records_read (body : string) : result string (list ReplicationRecord) :=
  match strip_prefix "[" body ≫= split_once "]" with
  | Some (items, _) => map_res record_read (split_on "," items)
  | None => Err "expected an array"
  end.

#[global] Instance demo_http : HttpLib := {|
  base64_decode s := Some s;
  valid_utf8 _ := true;
  records_from_slice := records_read;
  values_from_slice body :=
    match json_parse body with Ok v => ok_or (json_items v) "expected an array" | Err e => Err e end;
  filters_from_values := map_res json_filter;
  object_keys := json_keys;
|}.

#[global] Instance demo_ws : WsLib := {|
  event_from_value v := match v with JStr s => event_from_str s | _ => Err "expected an event" end;
  filter_from_value := json_filter;
|}.

(** *** Requests read back as the records they were made of *)

Lemma record_read_text r : record_read (bits (encode r)) = Ok r.
Proof. unfold record_read. rewrite unbits_bits. simpl. by rewrite decode_encode. Qed.

Lemma bits_digits p : str_forallb (fun c => Ascii.eqb c "0" || Ascii.eqb c "1") (bits p) = true.
Proof. induction p as [p IH|p IH|]; simpl; by rewrite ?IH. Qed.

Lemma bits_no (c : ascii) p : c <> "0"%char -> c <> "1"%char ->
  str_forallb (fun a => negb (Ascii.eqb a c)) (bits p) = true.
Proof.
  intros H0 H1. eapply str_forallb_impl; [|apply bits_digits]. intros a [->%Ascii.eqb_eq| ->%Ascii.eqb_eq]%orb_true_iff.
  - destruct (Ascii.eqb_spec "0" c); [by subst|done].
  - destruct (Ascii.eqb_spec "1" c); [by subst|done].
Qed.

Lemma join_no_bracket ss :
  Forall (fun s => str_forallb (fun a => negb (Ascii.eqb a "]")) s = true) ss ->
  str_forallb (fun a => negb (Ascii.eqb a "]")) (join_with "," ss) = true.
Proof.
  induction ss as [|s ss IH]; [done|]. intros [Hs Hss]%Forall_cons. destruct ss as [|t ss]; [done|].
  cbn [join_with]. rewrite str_forallb_app, Hs. cbn [str_forallb andb]. by apply IH.
Qed.

Lemma records_read_body (b : list (ReplicationRecord * string)) :
  b <> [] -> Forall (fun rs => record_text rs.1 = Ok rs.2) b -> records_read (request_body b) = Ok (fst <$> b).
Proof.
  intros Hne Hb. assert (snd <$> b = (fun r => bits (encode r)) <$> (fst <$> b)) as E.
  { clear Hne. induction Hb as [|[r s] b Hr _ IH]; [done|]. injection Hr as <-. cbn in IH |- *. by rewrite IH. }
  unfold records_read, request_body. rewrite E.
  assert (fst <$> b <> []) as Hrs by (by destruct b). clear E Hne Hb. revert Hrs. generalize (fst <$> b). clear b.
  intros rs Hrs.
  assert (forall c, c <> "0"%char -> c <> "1"%char ->
    Forall (fun s => str_forallb (fun a => negb (Ascii.eqb a c)) s = true) ((fun r => bits (encode r)) <$> rs)) as Hno.
  { intros c H0 H1. apply Forall_fmap, Forall_true. intros r. by apply bits_no. }
  cbn [strip_prefix Ascii.eqb Bool.eqb mbind option_bind].
  rewrite split_once_app by (apply join_no_bracket, Hno; done).
  rewrite split_on_join; [|by destruct rs|by apply Hno].
  clear Hrs Hno. induction rs as [|r rs IH]; [done|]. cbn. rewrite record_read_text. by rewrite IH.
Qed.

Lemma split_from_requests fuel rl bl (rs : list (ReplicationRecord * string)) :
  0 < rl -> Forall (fun x => record_text x.1 = Ok x.2) rs ->
  Forall (fun b => records_read b.2 = Ok b.1) (split_from fuel rl bl rs).
Proof.
  intros Hrl. revert rs. induction fuel as [|fuel IH]; intros [|x rs] Hrs; try (by constructor).
  cbn [split_from]. destruct (take_request rl bl 0 2 (x :: rs)) as [b rest] eqn:E.
  pose proof (take_request_nonempty _ _ _ _ _ _ Hrl E) as Hne. apply take_request_app in E as [E _].
  rewrite E in Hrs. apply Forall_app in Hrs as [H1 H2]. constructor; [|by apply IH]. by apply records_read_body.
Qed.

Lemma requests_read_back rs rl bl batches :
  split_serialized_batches record_text rs rl bl = Ok batches ->
  Forall (fun b => records_from_slice b.2 = Ok b.1) batches.
Proof.
  unfold split_serialized_batches. destruct (map_res record_text rs) as [ser|] eqn:E; [|done]. intros [= <-].
  apply split_from_requests; [lia|]. revert ser E. induction rs as [|r rs IH]; intros ser; [by constructor|].
  cbn [map_res record_text]. destruct (map_res record_text rs) as [ys|]; [|done]. intros [= <-].
  constructor; [done|by apply IH].
Qed.

(** ** Nodes *)

Definition env_at (now : N) : RelayEnv := mkRelayEnv now (fun _ => demo_env) Written.

Definition event_text (e : Event) : string := String "{" (bits (encode e)).

Definition proof_for (id author method path body : string) : Event :=
  demo_event id author 1000 27235
    [["u"; "http://here" +:+ path]; ["method"; method]; ["payload"; sha256_hex body]].

Definition signed_headers (id author method path body : string) : Headers :=
  mkHeaders (Some "here") (Some ("Nostr " +:+ event_text (proof_for id author method path body))).

(** A node with a key that requires identity and trusts one peer, and one that
    requires none. *)
Definition demo_adapter : LocalIdentityAdapter :=
  with_peer_trust [mkTrust "laptop" "did:laptop" {["pusher" := "did:laptop#key"]}].

Definition node_with (s : StoreInner) (id : option LocalIdentityAdapter) : LocalRelay :=
  open_governed_with_keys s (ReplicationSourceAllowlist {["laptop"]}) id (Some ∅) (Some ("alice", "here"))
    (Some "node").

Definition guarded : LocalRelay := node_with (empty_store None) (Some demo_adapter).
Definition unguarded : LocalRelay := node_with (empty_store None) None.

Lemma empty_store_ok : store_ok (relay_store guarded).
Proof. split; simpl; [intros e He; inversion He..|constructor]. Defined.

(** *** Writes *)

Definition post_note : LocalRelay * result ApiError WriteResult.t :=
  let body := event_text demo_note in
  submit_event (env_at 1000) guarded (signed_headers "h1" "alice" "POST" "/events" body) body.


(** *** Replication *)

Definition peer_body : string := request_body [(mkRecord "laptop" "local-ndjson-v1:1" demo_note,
  bits (encode (mkRecord "laptop" "local-ndjson-v1:1" demo_note)))].

Definition peer_headers (n : nat) (body : string) : Headers :=
  signed_headers ("push" +:+ u64_to_string (N.of_nat n)) "pusher" "POST" "/replication" body.

Definition post_batch : LocalRelay * result ApiError (list ReplicationReceipt) :=
  replication_ingest (env_at 1000) (fun _ => env_at 1000) guarded (peer_headers 0 peer_body) peer_body.

Lemma peer_body_reads : res_ok (records_from_slice peer_body) = Some [mkRecord "laptop" "local-ndjson-v1:1" demo_note].
Proof. vm_compute. reflexivity. Qed.

Lemma res_ok_some {E A} (r : result E A) a : res_ok r = Some a -> r = Ok a.
Proof. destruct r; simpl; congruence. Qed.


(** The pusher of the journal of three events, two of them exported, into a
    node that holds none of them. *)
Definition demo_peer : GoodRelay := mkGoodRelay guarded empty_store_ok (mk_is_Some _ demo_adapter eq_refl).

Definition synced : PushState (GoodRelay * nat) * result PushError unit :=
  push_main (Destination0 := relay_destination (fun _ => env_at 1000) (fun _ _ => env_at 1000) peer_headers)
    record_text (fun _ => Persisted) 4 100 (mkPushConfig 2 1000000) demo_source demo_journal (demo_peer, 0) None.

#[local] Strategy expand [synced].

Lemma push_to_relay_witness :
  synced.2 = Ok tt /\ ps_file synced.1 = Some "local-ndjson-v1:3" /\
  forall e, e ∈ journal demo_journal -> exports 100 demo_source e = true -> held (good_relay (ps_dest synced.1).1) e.
Proof.
  assert (synced.2 = Ok tt) as Hok by (vm_compute; reflexivity).
  split; [exact Hok|]. split; [vm_compute; reflexivity|].
  refine (proj2 (proj2 (proj2 (push_to_relay (fun _ => env_at 1000) (fun _ _ => env_at 1000) peer_headers record_text
           (fun _ => Persisted) 100 demo_source demo_journal (mkPushConfig 2 1000000) demo_peer 0 None synced.1 synced.2
           _ _ requests_read_back _ (surjective_pairing _)))) Hok).
  - vm_compute. congruence.
  - simpl. lia.
  - intros c q [=].
Defined.

(** The remote holds two events of the journal; the third arrives before the
    second read of a puller whose last write of the cursor file is torn. *)
Definition records_text (rs : list ReplicationRecord) : result string string :=
  match rs with
  | [] => Err "nothing to send"
  | _ => Ok (request_body ((fun r => (r, bits (encode r))) <$> rs))
  end.

Lemma records_text_read_back rs body : records_text rs = Ok body -> records_from_slice body = Ok rs.
Proof.
  intros H. assert (rs <> [] /\ body = request_body ((fun r => (r, bits (encode r))) <$> rs)) as [Hne ->].
  { destruct rs; [discriminate H|]. injection H as <-. done. }
  pose proof (records_read_body ((fun r => (r, bits (encode r))) <$> rs)) as Hb.
  rewrite <-list_fmap_compose, list_fmap_id in Hb. apply Hb; [by destruct rs|by apply Forall_fmap, Forall_true].
Qed.

Definition demo_remote : GrowingNode :=
  mkGrowing (mkStoreInner [] (take 2 (journal demo_journal)) ∅ None) [[]; drop 2 (journal demo_journal)].

Definition pulled : PullState GrowingNode (GoodRelay * nat) * result PullError unit :=
  pull_main (Origin0 := growing_origin 100 demo_source)
    (Destination0 := relay_destination (fun _ => env_at 1000) (fun _ _ => env_at 1000) peer_headers)
    records_text (fun n => if (n =? 1)%nat then TornWrite 15 "disk full" else Persisted) 5
    (mkPullConfig "https://remote" "http://here" "laptop" "key" "cursor" 1) demo_remote (demo_peer, 0) None.

#[local] Strategy expand [pulled].

Lemma pull_to_relay_witness :
  pulled.2 = Err (PullPersistFailed "disk full") /\ pl_file pulled.1 = Some "local-ndjson-v1" /\
  (forall c q, load_cursor (pl_file pulled.1) = Some c -> res_ok (parse_local_replication_cursor c) = Some q ->
     forall r e, exported_at 100 demo_source (pl_origin pulled.1) r e -> r <= q -> held (good_relay (pl_dest pulled.1).1) e).
Proof.
  split; [vm_compute; reflexivity|]. split; [vm_compute; reflexivity|].
  refine (fun c q Hc Hq => proj2 (proj1 (pull_to_relay (OriginLaws0 := growing_origin_laws 100 demo_source) (fun _ => env_at 1000) (fun _ _ => env_at 1000) peer_headers
           records_text (fun n => if (n =? 1)%nat then TornWrite 15 "disk full" else Persisted) 5
           (mkPullConfig "https://remote" "http://here" "laptop" "key" "cursor" 1) demo_remote demo_peer 0 None pulled.1 pulled.2
           records_text_read_back _ (surjective_pairing _)) c q Hc Hq)).
  intros c' q' [=].
Defined.

(** *** Reads *)

Lemma pair_of_snd {A B} (x : A * B) b : x.2 = b -> x = (x.1, b).
Proof. intros <-. apply surjective_pairing. Qed.

(** A store with a note and a gift wrap for bob. *)
Definition demo_wrap : Event := demo_event "w1" "alice" 6 KIND_GIFT_WRAP [["p"; "bob"]].

Definition reading_node : LocalRelay :=
  node_with (run (empty_store None) [(demo_env, demo_note); (demo_env, demo_wrap)]) (Some demo_adapter).

Definition read_as (author body : string) : LocalRelay * result ApiError (list Event) :=
  query_events (env_at 1000) reading_node (signed_headers "q1" author "POST" "/query" body) body.

#[local] Strategy expand [read_as].

(** The note is shown to a stranger, the gift wrap only to its recipient, and a
    pulse to the owner. *)
Lemma http_reads_disclose_witness :
  res_ok (snd (read_as "carol" "[kinds=1059")) = Some [] /\
  res_ok (snd (read_as "bob" "[kinds=1059")) = Some [demo_wrap] /\
  exists es, snd (read_as "bob" "[kinds=1059") = Ok es /\
    exists proof, http_proof 1000 (signed_headers "q1" "bob" "POST" "/query" "[kinds=1059") "POST" "/query"
                    "[kinds=1059" proof /\
      forall e, e ∈ es ->
        (may_read (ev_pubkey proof) e /\ e ∈ events_of (events (relay_store reading_node))) \/
        (ev_kind e = KIND_BEACON_PULSE /\ relay_signed reading_node e /\
         has_standing reading_node demo_adapter (ev_pubkey proof)).
Proof.
  split; [vm_compute; reflexivity|]. split; [vm_compute; reflexivity|].
  assert (is_Some (res_ok (snd (read_as "bob" "[kinds=1059")))) as [es Hes] by (vm_compute; eexists; reflexivity).
  apply res_ok_some in Hes. exists es. split; [exact Hes|].
  exact (http_reads_disclose (env_at 1000) reading_node (read_as "bob" "[kinds=1059").1 demo_adapter
           (signed_headers "q1" "bob" "POST" "/query" "[kinds=1059") "[kinds=1059" es eq_refl
           (pair_of_snd (read_as "bob" "[kinds=1059") _ Hes)).
Defined.

(** *** Sessions *)

(** A connection of bob to that node: the challenge, an [AUTH], a [REQ]. *)
Definition session_proof_event : Event :=
  demo_event "auth" "bob" 1000 22242 [["challenge"; "c1"]; ["relay"; "ws://here"]].

Definition opened : Connection := (session_start reading_node "c1" (Some "ws://here") (fun _ => true)).1.

Definition auth_message : Message := MsgText ("[AUTH," +:+ event_text session_proof_event).
Definition req_message : Message := MsgText "[REQ,sub,kinds=1059".

Definition after_auth := session_step (env_at 1000) reading_node opened (Inbound (Some auth_message)).
Definition after_req := session_step (env_at 1000) after_auth.1.1 after_auth.1.2 (Inbound (Some req_message)).

Lemma run_pair {A B C} (x : A * B * C) y : x.2 = y -> x = (x.1.1, x.1.2, y).
Proof. intros <-. by destruct x as [[] ?]. Qed.

#[local] Strategy expand [after_auth after_req opened].

Lemma session_reached : session_run reading_node "c1" (Some "ws://here") after_req.1.1 after_req.1.2 true.
Proof.
  eapply (sr_turn _ _ _ (env_at 1000) after_auth.1.1 after_auth.1.2 (Inbound (Some req_message)));
    [|apply (run_pair after_req); vm_compute; reflexivity].
  eapply (sr_turn _ _ _ (env_at 1000) reading_node opened (Inbound (Some auth_message)));
    [|apply (run_pair after_auth); vm_compute; reflexivity].
  apply (sr_start _ _ _ (fun _ => true)). reflexivity.
Qed.

Lemma demo_run_ok subs : store_ok (run (empty_store None) subs).
Proof.
  assert (store_ok (empty_store None)) as H by (split; simpl; [intros e He; inversion He..|constructor]).
  revert H. generalize (empty_store None). unfold run. induction subs as [|[env e] subs IH]; intros s Hs; [done|].
  simpl. apply IH. destruct (accept env s e) as [s' res] eqn:E. by destruct (accept_ok _ _ _ _ _ Hs E) as [? _].
Qed.

Lemma session_safe_witness :
  sent (ws_sender after_req.1.2) =
    [F_Auth "c1"; F_Ok "auth" true "authenticated"; F_Event "sub" demo_wrap; F_Eose "sub"] /\
  within_limits after_req.1.2 /\
  exists proof, find_content TK_Challenge proof = Some "c1" /\ may_read (ev_pubkey proof) demo_wrap.
Proof.
  assert (sent (ws_sender after_req.1.2) =
    [F_Auth "c1"; F_Ok "auth" true "authenticated"; F_Event "sub" demo_wrap; F_Eose "sub"]) as Hs
    by (vm_compute; reflexivity).
  assert (is_Some (ws_principal (ws_identity after_req.1.2))) as [p Hp] by (vm_compute; eexists; reflexivity).
  destruct (session_safe reading_node after_req.1.1 demo_adapter "c1" (Some "ws://here") after_req.1.2 true
              eq_refl (demo_run_ok _) session_reached) as (Hl & _ & Hsome).
  split; [exact Hs|]. split; [exact Hl|].
  destruct (Hsome p Hp) as (now & proof & relay & aud & _ & _ & Hc & _ & _ & _ & Hall).
  exists proof. split; [exact Hc|].
  destruct (Hall demo_wrap) as [H|[[H|H] _]]; [|exact H|discriminate H|discriminate H].
  exists "sub". rewrite Hs. right. right. left.
Defined.

(** *** Runs of a node *)

Lemma request_submit env r headers body : request r (submit_event env r headers body).1.
Proof. eapply rq_submit, surjective_pairing. Defined.

Definition no_headers : Headers := mkHeaders None None.

Definition submit_plain (now : N) (r : LocalRelay) (e : Event) : LocalRelay * result ApiError WriteResult.t :=
  submit_event (env_at now) r no_headers (event_text e).

(** A note and a replaceable profile, then an answer to the pulse of the note. *)
Definition demo_response : Event :=
  mkEvent "recognize-n1#1" "bob" 1010 KIND_BEACON_RESPONSE [["e"; "pulse-1"]; ["p"; "node"]] "recognize-n1#1" "sig".

Definition run1 : LocalRelay := (submit_plain 1000 unguarded demo_note).1.
Definition run2 : LocalRelay := (submit_plain 1010 run1 demo_response).1.
Definition run3 : LocalRelay := (submit_plain 1020 run2 demo_new).1.

Lemma run3_reached : rtc request unguarded run3.
Proof.
  eapply rtc_l; [apply (request_submit (env_at 1000) unguarded no_headers (event_text demo_note))|].
  eapply rtc_l; [apply (request_submit (env_at 1010) run1 no_headers (event_text demo_response))|].
  apply rtc_once, (request_submit (env_at 1020) run2 no_headers (event_text demo_new)).
Defined.

Lemma run2_reached : rtc request unguarded run2.
Proof.
  eapply rtc_l; [apply (request_submit (env_at 1000) unguarded no_headers (event_text demo_note))|].
  apply rtc_once, (request_submit (env_at 1010) run1 no_headers (event_text demo_response)).
Defined.

Lemma journal_append_only_witness :
  journal (relay_store run3) = [demo_note; demo_new] /\
  NoDup (ev_id <$> journal (relay_store run3)) /\ verify_event demo_new = Ok tt.
Proof.
  assert (journal (relay_store run3) = [demo_note; demo_new]) as Hj by (vm_compute; reflexivity).
  destruct (journal_append_only unguarded run3) as (_ & Hnd & Hall).
  - split; simpl; [intros e He; inversion He..|constructor].
  - exact run3_reached.
  - split; [exact Hj|]. split; [exact Hnd|]. apply Hall. rewrite Hj. right. left.
Defined.


(** An upload, and a fetch after further requests. *)
Definition uploaded : LocalRelay * result ApiError (string * N) :=
  artifact_upload (env_at 1000) (Ok tt) guarded (signed_headers "u1" "alice" "POST" "/artifacts" "blob") "blob".

Definition fetch_headers : Headers := signed_headers "g1" "alice" "GET" ("/artifacts/" +:+ demo_digest) EmptyString.
Definition fetched := artifact_fetch (env_at 1000) (Ok tt) uploaded.1 demo_digest fetch_headers.

#[local] Strategy expand [uploaded fetched].

Lemma artifact_immutable_witness :
  res_ok uploaded.2 = Some (demo_digest, 4%N) /\ res_ok fetched.2 = Some "blob".
Proof.
  assert (res_ok uploaded.2 = Some (demo_digest, 4%N)) as Hu by (vm_compute; reflexivity).
  split; [exact Hu|]. apply res_ok_some in Hu.
  destruct (artifact_immutable (env_at 1000) (Ok tt) guarded uploaded.1
              (signed_headers "u1" "alice" "POST" "/artifacts" "blob") "blob" demo_digest 4)
    as (_ & v & Hv & Hnew & Hfetch).
  - intros dir k v [= <-]. by rewrite lookup_empty.
  - exact (pair_of_snd uploaded _ Hu).
  - assert (v = "blob") as -> by (apply (Hnew ∅); reflexivity).
    assert (res_ok (artifact_access (env_at 1000) uploaded.1 demo_digest fetch_headers).2 =
            Some (demo_digest, {[demo_digest := "blob"]})) as Ha%res_ok_some by (vm_compute; reflexivity).
    specialize (Hfetch uploaded.1 (env_at 1000) demo_digest fetch_headers
      (artifact_access (env_at 1000) uploaded.1 demo_digest fetch_headers).1 {[demo_digest := "blob"]}
      (rtc_refl _ _) (pair_of_snd _ _ Ha)).
    unfold fetched. rewrite Hfetch. reflexivity.
Defined.

Definition stored := submit_from (env_at 1000) run2 demo_new None.

#[local] Strategy expand [stored].

Lemma stored_event_witnessed_witness :
  stored.2 = Ok (WriteResult.accept demo_new "stored" true) /\
  ev_id <$> live stored.1 = ["n1"; "pulse-1"; "recognize-n1#1"; "p2"; "pulse-2"] /\
  exists r1, relay_store stored.1 = relay_store r1 /\
    witnesses_append (journal (relay_store run2)) demo_new (pulse_content 1000 r1).
Proof.
  assert (stored.2 = Ok (WriteResult.accept demo_new "stored" true)) as Hs by (vm_compute; reflexivity).
  split; [exact Hs|]. split; [vm_compute; reflexivity|].
  destruct (stored_event_witnessed (env_at 1000) run2 stored.1 demo_new None (WriteResult.accept demo_new "stored" true)
              ltac:(vm_compute; congruence) (pair_of_snd stored _ Hs) eq_refl eq_refl)
    as (r1 & _ & Hr & Hw & _).
  exists r1. exact (conj Hr Hw).
Defined.

(** ** Behaviours the comments do not describe *)

(** A Beacon response that is refused is remembered as seen, so resubmitting it
    is answered as an accepted duplicate, though it was never recorded. *)
Definition stray_response : Event :=
  mkEvent "stray" "bob" 1010 KIND_BEACON_RESPONSE [["e"; "unknown"]; ["p"; "node"]] "stray" "sig".

Example refused_response_then_duplicate :
  let '(r1, first) := submit_from (env_at 1010) run1 stray_response None in
  let '(r2, second) := submit_from (env_at 1010) r1 stray_response None in
  WriteResult.accepted <$> res_ok first = Some false /\
  (fun w => (WriteResult.accepted w, WriteResult.message w)) <$> res_ok second = Some (true, "duplicate") /\
  foldr (fun round n => size (br_responses round) + n) 0 (beacon_rounds r2) = 0.
Proof. vm_compute. split_and!; reflexivity. Qed.

(** A group command is journaled together with its projections but answered by
    one pulse: the [previous] of that pulse was never the head of a pulse. *)
Definition demo_create : Event :=
  demo_event "create" "alice" 7 KIND_NIP29_CREATE_GROUP [["h"; "room"]; ["name"; "lobby"]].

Example group_create_skips_pulses :
  let r := (submit_plain 1000 unguarded demo_create).1 in
  ev_id <$> journal (relay_store r) = ["create"; ""] /\
  br_head <$> beacon_rounds r = [""] /\
  pc_previous (pulse_content 1000 r) = Some "create".
Proof. vm_compute. split_and!; reflexivity. Qed.

(** A [payload] tag without a value passes the check that one is present, and
    the body is then not compared with anything. *)
Definition empty_payload : Event :=
  demo_event "e1" "alice" 1000 27235 [["u"; "http://here/x"]; ["method"; "POST"]; ["payload"]].

Example empty_payload_covers_any_body :
  bool_decide (is_Some (res_ok (snd (authenticate_at Written adapter_new
    (LAE_Nip98 (event_text empty_payload) "POST" "any body") "http://here/x" 1000)))) = true.
Proof. vm_compute. reflexivity. Qed.

(** The limit of a query is applied before disclosure: a newer event the reader
    may not see hides an older one it may. *)
Example limit_counts_hidden_events :
  res_ok (snd (read_as "carol" "[limit=1")) = Some [] /\
  ev_id <$> default [] (res_ok (snd (read_as "carol" "[limit=2"))) = ["n1"].
Proof. vm_compute. split; reflexivity. Qed.
