(* ===== verification/Handoff.v ===== *)
(** * The handoff reducer

    [buzz-local-relay/src/bin/buzz-handoff-state.rs]: signed handoff events of a
    journal are reduced to a lifecycle state per open.  Reasons for ignoring an
    event are kept as the code prints them.  [None] stands for the panic of an
    out-of-range [remove]; [HandoffTheory.v] shows that there is none. *)

From S2P Require Import Prelude Text Nostr Demo Ingest OwnerAttestation.

Definition KIND_TEXT_NOTE : N := 1.
Definition HANDOFF_OPEN : string := "handoff:open".
Definition HANDOFF_CLAIM : string := "handoff:claim".
Definition HANDOFF_RETURN : string := "handoff:return".
Definition HANDOFF_CLOSE : string := "handoff:close".
Definition HANDOFF_ACK_INVALID : string := "handoff:ack-invalid".
Definition MAX_INVALID_ACK_TARGETS : nat := 256.

Inductive LifecycleState :=
| HS_Open | HS_Claimed | HS_Conflict | HS_Returned | HS_Closed | HS_Invalid | HS_AcknowledgedInvalid.

#[global] Instance LifecycleState_eq_dec : EqDecision LifecycleState.
Proof. solve_decision. Defined.

Record IgnoredEvent := mkIgnored { ig_id : string; ig_reason : string }.

Record HandoffState := mkHandoff {
  hs_open_id : string;
  hs_title : string;
  hs_context : string;
  hs_opener_pubkey : string;
  hs_opener_owner_pubkey : string;
  hs_allowed_claimants : list string;
  hs_created_at : N;
  hs_updated_at : N;
  hs_state : LifecycleState;
  hs_claim_id : option string;
  hs_claimant_pubkey : option string;
  hs_claim_created_at : option N;
  hs_return_id : option string;
  hs_return_created_at : option N;
  hs_close_id : option string;
  hs_close_created_at : option N;
  hs_acknowledgment_id : option string;
  hs_acknowledgment_created_at : option N;
  hs_conflicting_claims : list string;
  hs_ignored : list IgnoredEvent;
}.

Record OpenAuthority := mkAuthority {
  oa_id : string;
  oa_title : string;
  oa_context : string;
  oa_opener_pubkey : PublicKey;
  oa_opener_owner_pubkey : PublicKey;
  oa_allowed_claimants : gset PublicKey;
  oa_created_at : N;
}.

Record InvalidOpenAuthority := mkInvalidOpen {
  io_id : string;
  io_context : string;
  io_opener_owner_pubkey : PublicKey;
  io_created_at : N;
}.

Record InvalidAcknowledgments := mkAcks {
  accepted_by_open : gmap string (list Event);
  ignored_by_open : gmap string (list IgnoredEvent);
}.

Record OwnerAttestationRequest := mkRequest {
  rq_signer_pubkey : string;
  rq_auth_tag : list string;
  rq_kind : N;
  rq_created_at : N;
}.

(** ** Tags *)

Definition tag_values (e : Event) (name : string) : list string :=
  omap (fun t => if bool_decide (t !! 0 = Some name) then t !! 1 else None) (ev_tags e).

Definition exactly_one_tag (e : Event) (name : string) : result string string :=
  let values := tag_values e name in
  let bad := "event must carry exactly one non-empty " +:+ name +:+ " tag" in
  match values with
  | [value] => if String.eqb value EmptyString then Err bad else Ok value
  | _ => Err bad
  end.

Definition lifecycle (e : Event) : option string :=
  find_map (fun t => value ← t !! 1;
    if bool_decide (t !! 0 = Some "t") && starts_with value "handoff:" then Some value else None) (ev_tags e).

Definition references (e : Event) (event_id : string) : bool :=
  existsb (fun t => bool_decide (t !! 0 = Some "e") && bool_decide (t !! 1 = Some event_id)) (ev_tags e).

Definition linked_event (e : Event) (marker : string) : option string :=
  find_map (fun t => if bool_decide (t !! 0 = Some "e") && bool_decide (t !! 3 = Some marker)
                     then t !! 1 else None) (ev_tags e).

(** The targets of [e] tags marked [invalid]. *)
Definition invalid_tags (e : Event) : list string :=
  omap (fun t => if bool_decide (t !! 0 = Some "e") && bool_decide (t !! 3 = Some "invalid")
                 then t !! 1 else None) (ev_tags e).

Definition is_lower_hex (value : string) (length : nat) : bool :=
  (String.length value =? length)%nat && str_forallb is_lower_hex_char value.

Definition invalid_ack_references (e : Event) : gset string :=
  list_to_set (List.filter (fun id => is_lower_hex id 64) (invalid_tags e)).

Definition ignored_event (e : Event) (reason : string) : IgnoredEvent := mkIgnored (to_hex (ev_id e)) reason.

(** The sorted elements of a [BTreeSet]. *)
Definition btree_elements (s : gset string) : list string := sort_by str_leb (elements s).

(** [event_order] as a total preorder. *)
Definition event_order (left right : Event) : bool :=
  (ev_created_at left <? ev_created_at right)%N ||
  ((ev_created_at left =? ev_created_at right)%N && str_leb (ev_id left) (ev_id right)).

Section handoff.
Context `{NL : NostrLib, SJ : SerdeJson, SC : SchnorrLib}.

Definition content_object (e : Event) : result string Value :=
  let? content := map_err (fun _ => "event content is not JSON") (from_str (ev_content e)) in
  if is_object content then Ok content else Err "event content must be a JSON object".

Definition nonempty_string (object : Value) (field : string) : result string string :=
  match (v ← get object field; as_str v) with
  | Some value => if String.eqb value EmptyString then Err (field +:+ " must be a non-empty string") else Ok value
  | None => Err (field +:+ " must be a non-empty string")
  end.

Definition open_title (e : Event) : string :=
  default "(invalid handoff)" (content ← res_ok (from_str (ev_content e)); v ← get content "title"; as_str v).

Definition validate_envelope (e : Event) (expected_lifecycle : string) : result string unit :=
  if negb (ev_kind e =? KIND_TEXT_NOTE)%N then Err "handoff event must be kind 1"
  else
    let? _ := map_err (fun _ => "event signature or id is invalid") (verify_event e) in
    let lifecycle_tags := List.filter (fun v => starts_with v "handoff:") (tag_values e "t") in
    if negb (bool_decide (lifecycle_tags = [expected_lifecycle])) then
      Err ("event must carry exactly one " +:+ expected_lifecycle +:+ " lifecycle tag")
    else let? _ := exactly_one_tag e "h" in Ok tt.

Definition event_owner (e : Event) : result string PublicKey :=
  match List.filter (fun t : Tag => bool_decide (t !! 0 = Some "auth")) (ev_tags e) with
  | [] => Ok (ev_pubkey e)
  | [tag] =>
      let? tag_json := map_err (fun _ => "auth tag is not JSON") (strings_to_string tag) in
      let? owner := map_err (fun _ => "owner-attestation signature is invalid")
                      (verify_auth_tag tag_json (ev_pubkey e)) in
      let? conditions := ok_or (tag !! 2) "owner-attestation conditions are missing" in
      if negb (conditions_cover conditions (ev_kind e) (ev_created_at e))
      then Err "owner-attestation conditions do not cover this event"
      else Ok owner
  | _ => Err "event must carry at most one owner-attestation tag"
  end.

Definition verify_owner_attestation_request (request : OwnerAttestationRequest) : result string PublicKey :=
  if negb (is_lower_hex (rq_signer_pubkey request) 64) then
    Err "signer_pubkey must be a lowercase 64-character public key"
  else
    let? signer := ok_or (PublicKey_from_hex (rq_signer_pubkey request))
                     "signer_pubkey is not a valid public key" in
    if negb (length (rq_auth_tag request) =? 4)%nat || negb (bool_decide (rq_auth_tag request !! 0 = Some "auth"))
    then Err "owner-attestation must be a four-element auth tag"
    else
      let? tag_json := map_err (fun _ => "owner-attestation tag is not JSON")
                         (strings_to_string (rq_auth_tag request)) in
      let? owner := map_err (fun _ => "owner-attestation signature is invalid") (verify_auth_tag tag_json signer) in
      if negb (conditions_cover (default EmptyString (rq_auth_tag request !! 2)) (rq_kind request)
                 (rq_created_at request))
      then Err "owner-attestation conditions do not cover this event"
      else Ok owner.

(** ** Validation *)

Definition parse_claimant (value : string) : result string PublicKey :=
  let bad := "p tags must contain lowercase 64-character pubkeys" in
  if negb (is_lower_hex value 64) then Err bad else ok_or (PublicKey_from_hex value) bad.

(** The check of [target.pubkey]. *)
Definition check_target (content : Value) (allowed : gset PublicKey) : result string unit :=
  match (t ← get content "target"; p ← get t "pubkey"; as_str p) with
  | None => Ok tt
  | Some target_pubkey =>
      if negb (is_lower_hex target_pubkey 64) then
        Err "target.pubkey is not a lowercase 64-character public key"
      else
        let? target := ok_or (PublicKey_from_hex target_pubkey) "target.pubkey is not a valid public key" in
        if bool_decide (target ∈ allowed) then Ok tt else Err "target.pubkey must also appear in a p tag"
  end.

Definition validate_open (e : Event) : result string OpenAuthority :=
  let? _ := validate_envelope e HANDOFF_OPEN in
  let? context := exactly_one_tag e "h" in
  let? content := content_object e in
  let? title := nonempty_string content "title" in
  let? base_commit := nonempty_string content "base_commit" in
  if negb (is_lower_hex base_commit 40) then
    Err "base_commit must be a canonical lowercase 40-character object id"
  else
    let? claimants := map_res parse_claimant (tag_values e "p") in
    let allowed_claimants : gset PublicKey := list_to_set claimants in
    if bool_decide (allowed_claimants = ∅) then Err "open event must p-tag at least one allowed claimant"
    else
      let? _ := check_target content allowed_claimants in
      let? owner := event_owner e in
      Ok (mkAuthority (to_hex (ev_id e)) title context (ev_pubkey e) owner allowed_claimants (ev_created_at e)).

Definition invalid_open_authority (e : Event) : result string InvalidOpenAuthority :=
  let? _ := validate_envelope e HANDOFF_OPEN in
  let? context := exactly_one_tag e "h" in
  let? owner := event_owner e in
  Ok (mkInvalidOpen (to_hex (ev_id e)) context owner (ev_created_at e)).

Definition same_context (e : Event) (open : OpenAuthority) : result string unit :=
  let? context := exactly_one_tag e "h" in
  if String.eqb context (oa_context open) then Ok tt
  else Err "lifecycle event does not share the open's h context".

Definition validate_claim (e : Event) (open : OpenAuthority) : result string unit :=
  let? _ := validate_envelope e HANDOFF_CLAIM in
  let? _ := same_context e open in
  if (ev_created_at e <=? oa_created_at open)%N then Err "claim must post after its open"
  else if negb (bool_decide (linked_event e "root" = Some (oa_id open))) then
    Err "claim must identify its open with an e/root tag"
  else if negb (bool_decide (ev_pubkey e ∈ oa_allowed_claimants open)) then
    Err "claim signer is not p-tagged by the open"
  else let? _ := event_owner e in Ok tt.

Definition validate_return (e : Event) (open : OpenAuthority) (claim : Event) : result string unit :=
  let? _ := validate_envelope e HANDOFF_RETURN in
  let? _ := same_context e open in
  if (ev_created_at e <=? ev_created_at claim)%N then Err "return must post after its accepted claim"
  else if negb (String.eqb (ev_pubkey e) (ev_pubkey claim)) then
    Err "return signer is not the cryptographic claimant"
  else if negb (bool_decide (linked_event e "root" = Some (oa_id open))) then
    Err "return must identify its open with an e/root tag"
  else if negb (bool_decide (linked_event e "claim" = Some (to_hex (ev_id claim)))) then
    Err "return must identify its accepted claim with an e/claim tag"
  else
    let? content := content_object e in
    if negb (bool_decide ((v ← get content "claim_id"; as_str v) = Some (to_hex (ev_id claim)))) then
      Err "return content must restate the accepted claim_id"
    else if negb (match (v ← get content "status"; as_str v) with
                  | Some status => String.eqb status "done" || String.eqb status "failed"
                  | None => false
                  end) then Err "return status must be done or failed"
    else let? _ := event_owner e in Ok tt.

Definition validate_close (e : Event) (open : OpenAuthority) (returned : Event) : result string unit :=
  let? _ := validate_envelope e HANDOFF_CLOSE in
  let? _ := same_context e open in
  if (ev_created_at e <=? ev_created_at returned)%N then Err "close must post after the return it verifies"
  else if negb (bool_decide (linked_event e "root" = Some (oa_id open))) then
    Err "close must identify its open with an e/root tag"
  else if negb (bool_decide (linked_event e "return" = Some (to_hex (ev_id returned)))) then
    Err "close must identify the current return with an e/return tag"
  else
    let? content := content_object e in
    if negb (bool_decide ((v ← get content "return_id"; as_str v) = Some (to_hex (ev_id returned)))) then
      Err "close content must restate the verified return_id"
    else
      let? owner := event_owner e in
      if String.eqb owner (oa_opener_owner_pubkey open) then Ok tt
      else Err "close is not authorized by the opener's owner identity".

(** *** Acknowledgments of invalid opens *)

Definition too_many_targets : string :=
  "invalid acknowledgment cannot target more than " +:+ u64_to_string (N.of_nat MAX_INVALID_ACK_TARGETS) +:+ " opens".

(** The checks on one target. *)
Definition check_ack_target (context : string) (owner : PublicKey) (at_ : N)
    (invalid_opens : gmap string InvalidOpenAuthority) (open_id : string) : result string unit :=
  let? open := ok_or (invalid_opens !! open_id)
    ("invalid acknowledgment target " +:+ open_id +:+ " is not an invalid open") in
  if negb (String.eqb context (io_context open)) then
    Err "invalid acknowledgment targets opens from different h contexts"
  else if (at_ <=? io_created_at open)%N then
    Err "invalid acknowledgment must post after every targeted open"
  else if negb (String.eqb owner (io_opener_owner_pubkey open)) then
    Err "invalid acknowledgment is not authorized by every opener's owner identity"
  else Ok tt.

Definition open_id_of (value : Value) : result string string :=
  match as_str value with
  | Some id => if is_lower_hex id 64 then Ok id
               else Err "invalid acknowledgment open_ids must be lowercase 64-character event ids"
  | None => Err "invalid acknowledgment open_ids must be lowercase 64-character event ids"
  end.

Definition validate_invalid_ack (e : Event) (invalid_opens : gmap string InvalidOpenAuthority)
    : result string (gset string) :=
  let? _ := validate_envelope e HANDOFF_ACK_INVALID in
  let? context := exactly_one_tag e "h" in
  let? owner := event_owner e in
  let tagged_ids := invalid_tags e in
  if bool_decide (tagged_ids = []) || existsb (fun id => negb (is_lower_hex id 64)) tagged_ids then
    Err "invalid acknowledgment must carry lowercase 64-character e/invalid tags"
  else if (MAX_INVALID_ACK_TARGETS <? length tagged_ids)%nat then Err too_many_targets
  else
    let tagged_set : gset string := list_to_set tagged_ids in
    if negb (size tagged_set =? length tagged_ids)%nat then
      Err "invalid acknowledgment contains duplicate e/invalid tags"
    else
      let? content := content_object e in
      if negb (bool_decide ((v ← get content "status"; as_str v) = Some "acknowledged-invalid")) then
        Err "invalid acknowledgment status must be acknowledged-invalid"
      else
        let? content_ids := ok_or (v ← get content "open_ids"; as_array v)
          "invalid acknowledgment content must contain open_ids" in
        if (MAX_INVALID_ACK_TARGETS <? length content_ids)%nat then Err too_many_targets
        else
          let? content_ids := map_res open_id_of content_ids in
          let content_set : gset string := list_to_set content_ids in
          if negb (size content_set =? length content_ids)%nat then
            Err "invalid acknowledgment contains duplicate open_ids"
          else if negb (bool_decide (content_set = tagged_set)) then
            Err "invalid acknowledgment open_ids do not match its e/invalid tags"
          else
            let? _ := map_res (check_ack_target context owner (ev_created_at e) invalid_opens)
                        (btree_elements content_set) in
            Ok content_set.

Definition has_lifecycle (name : string) (e : Event) : bool := bool_decide (lifecycle e = Some name).

(** [entry(k).or_default().push(x)] *)
Definition push_entry {A} (x : A) (m : gmap string (list A)) (k : string) : gmap string (list A) :=
  <[k := default [] (m !! k) ++ [x]]> m.

Definition invalid_opens_of (events : list Event) : gmap string InvalidOpenAuthority :=
  foldl (fun m (e : Event) =>
           match invalid_open_authority e with
           | Ok authority => <[io_id authority := authority]> m
           | Err _ => m
           end) ∅
    (List.filter (fun e => negb (is_ok (validate_open e))) (List.filter (has_lifecycle HANDOFF_OPEN) events)).

Definition ack_step (invalid_opens : gmap string InvalidOpenAuthority) (acks : InvalidAcknowledgments) (e : Event)
    : InvalidAcknowledgments :=
  match validate_invalid_ack e invalid_opens with
  | Ok open_ids => mkAcks (foldl (push_entry e) (accepted_by_open acks) (btree_elements open_ids)) (ignored_by_open acks)
  | Err reason =>
      mkAcks (accepted_by_open acks)
        (foldl (fun m open_id => if bool_decide (is_Some (invalid_opens !! open_id))
                                 then push_entry (ignored_event e reason) m open_id else m)
           (ignored_by_open acks) (btree_elements (invalid_ack_references e)))
  end.

Definition build_invalid_acknowledgments (events : list Event) : InvalidAcknowledgments :=
  let acks := foldl (ack_step (invalid_opens_of events)) (mkAcks ∅ ∅)
                (List.filter (has_lifecycle HANDOFF_ACK_INVALID) events) in
  mkAcks (sort_by event_order <$> accepted_by_open acks) (ignored_by_open acks).

(** ** Reduction *)

Definition state_from_authority (authority : OpenAuthority) (state : LifecycleState)
    (claim returned close : option Event) (conflicting_claims : list string) (ignored : list IgnoredEvent)
    : HandoffState :=
  let updated_at :=
    match close, returned, claim with
    | Some e, _, _ | None, Some e, _ | None, None, Some e => ev_created_at e
    | None, None, None => oa_created_at authority
    end in
  let hex o := (fun e => to_hex (ev_id e)) <$> o in
  mkHandoff (oa_id authority) (oa_title authority) (oa_context authority)
    (to_hex (oa_opener_pubkey authority)) (to_hex (oa_opener_owner_pubkey authority))
    (to_hex <$> btree_elements (oa_allowed_claimants authority)) (oa_created_at authority) updated_at state
    (hex claim) ((fun e => to_hex (ev_pubkey e)) <$> claim) (ev_created_at <$> claim)
    (hex returned) (ev_created_at <$> returned) (hex close) (ev_created_at <$> close) None None
    conflicting_claims ignored.

(** The state of an open that is not valid. *)
Definition reduce_invalid (open : Event) (reason : string) (acks : InvalidAcknowledgments) : HandoffState :=
  let open_id := to_hex (ev_id open) in
  let invalid_authority := res_ok (invalid_open_authority open) in
  let acknowledgments := default [] (accepted_by_open acks !! open_id) in
  let acknowledgment := head acknowledgments in
  let ignored := mkIgnored open_id reason :: default [] (ignored_by_open acks !! open_id)
    ++ ((fun e => ignored_event e "duplicate acknowledgment for invalid handoff") <$> drop 1 acknowledgments) in
  mkHandoff open_id (open_title open) (default EmptyString (head (tag_values open "h"))) (to_hex (ev_pubkey open))
    (match invalid_authority with Some a => to_hex (io_opener_owner_pubkey a) | None => EmptyString end)
    [] (ev_created_at open)
    (match acknowledgment with Some e => ev_created_at e | None => ev_created_at open end)
    (match acknowledgment with Some _ => HS_AcknowledgedInvalid | None => HS_Invalid end)
    None None None None None None None
    ((fun e => to_hex (ev_id e)) <$> acknowledgment) (ev_created_at <$> acknowledgment) [] ignored.

(** The events of a phase that name the open. *)
Definition phase_events (name : string) (open_id : string) (events : list Event) : list Event :=
  List.filter (fun e => has_lifecycle name e && references e open_id) events.

(** A loop that keeps what validates and notes why the rest is ignored. *)
Definition sift (validate : Event -> result string unit) (events : list Event) (ignored : list IgnoredEvent)
    : list Event * list IgnoredEvent :=
  foldl (fun acc e =>
           match validate e with
           | Ok _ => (acc.1 ++ [e], acc.2)
           | Err reason => (acc.1, acc.2 ++ [ignored_event e reason])
           end) ([], ignored) events.

(** The loop over claims. *)
Definition sift_claims (authority : OpenAuthority) (events : list Event)
    : gmap PublicKey (list Event) * list IgnoredEvent :=
  foldl (fun (acc : gmap PublicKey (list Event) * list IgnoredEvent) e =>
           match validate_claim e authority with
           | Ok _ => (push_entry e acc.1 (ev_pubkey e), acc.2)
           | Err reason => (acc.1, acc.2 ++ [ignored_event e reason])
           end) (∅, []) events.

Definition first_ids (claims : gmap PublicKey (list Event)) : list string :=
  omap (fun kv => (fun e => to_hex (ev_id e)) <$> head kv.2) (map_to_list claims).

Definition reduce_returned (authority : OpenAuthority) (events : list Event) (claim returned : Event)
    (ignored : list IgnoredEvent) : HandoffState :=
  let '(closes, ignored) :=
    sift (fun e => validate_close e authority returned) (phase_events HANDOFF_CLOSE (oa_id authority) events) ignored in
  let close := head (sort_by event_order closes) in
  state_from_authority authority (match close with Some _ => HS_Closed | None => HS_Returned end)
    (Some claim) (Some returned) close [] ignored.

Definition reduce_claimed (authority : OpenAuthority) (events : list Event) (claim : Event)
    (ignored : list IgnoredEvent) : HandoffState :=
  let '(returns, ignored) :=
    sift (fun e => validate_return e authority claim) (phase_events HANDOFF_RETURN (oa_id authority) events) ignored in
  match last (sort_by event_order returns) with
  | None => state_from_authority authority HS_Claimed (Some claim) None None [] ignored
  | Some returned => reduce_returned authority events claim returned ignored
  end.

Definition reduce_handoff_with_invalid_acknowledgments (open : Event) (events : list Event)
    (acks : InvalidAcknowledgments) : option HandoffState :=
  match validate_open open with
  | Err reason => Some (reduce_invalid open reason acks)
  | Ok authority =>
      let '(claims, ignored) := sift_claims authority (phase_events HANDOFF_CLAIM (oa_id authority) events) in
      let claims : gmap PublicKey (list Event) := sort_by event_order <$> claims in
      if (1 <? size claims)%nat then
        Some (state_from_authority authority HS_Conflict None None None (sort_by str_leb (first_ids claims)) ignored)
      else
        match map_to_list claims with
        | [] => Some (state_from_authority authority HS_Open None None None [] ignored)
        | (_, []) :: _ => None
        | (_, claim :: duplicates) :: _ =>
            Some (reduce_claimed authority events claim
                    (ignored ++ ((fun e => ignored_event e "duplicate claim by the accepted claimant") <$> duplicates)))
        end
  end.

Definition reduce_handoff (open : Event) (events : list Event) : option HandoffState :=
  reduce_handoff_with_invalid_acknowledgments open events (build_invalid_acknowledgments events).

(** The states [main] prints, newest open first; [selected] is [--open]. *)
Definition state_order (left right : HandoffState) : bool :=
  (hs_created_at right <? hs_created_at left)%N ||
  ((hs_created_at left =? hs_created_at right)%N && str_leb (hs_open_id left) (hs_open_id right)).

Fixpoint map_opt {A B} (f : A -> option B) (l : list A) : option (list B) :=
  match l with
  | [] => Some []
  | x :: l => y ← f x; ys ← map_opt f l; Some (y :: ys)
  end.

Definition handoff_states (selected : option string) (events : list Event) : option (list HandoffState) :=
  let opens := List.filter (fun e => match selected with
                                     | Some id => String.eqb id (to_hex (ev_id e))
                                     | None => true
                                     end) (List.filter (has_lifecycle HANDOFF_OPEN) events) in
  states ← map_opt (fun e => reduce_handoff e events) opens;
  Some (sort_by state_order states).
End handoff.
