(* ===== verification/HandoffTheory.v ===== *)
(** * The handoff lifecycle

    What the reducer of [Handoff.v] promises, stated on sets of events:
    [handoff_spec] gives the state of a valid open and [is_ack] the
    acknowledgments of an invalid one.  The reducer always returns, its result
    is the specified one, and the specification depends only on which
    authorized events are present, never on their order. *)

From S2P Require Import Prelude Text Nostr Demo Ingest OwnerAttestation Handoff.

(** ** Generic lemmas *)

Lemma event_order_total a b : event_order a b = true \/ event_order b a = true.
Proof. unfold event_order. destruct (str_leb_total (ev_id a) (ev_id b)) as [-> | ->]; lia. Qed.

Lemma event_order_trans a b c : event_order a b = true -> event_order b c = true -> event_order a c = true.
Proof.
  unfold event_order. intros [H1|[H1 L1]%andb_true_iff]%orb_true_iff [H2|[H2 L2]%andb_true_iff]%orb_true_iff; try lia.
  rewrite (str_leb_trans _ _ _ L1 L2). lia.
Qed.

Lemma event_order_ids a b : event_order a b = true -> event_order b a = true -> ev_id a = ev_id b.
Proof.
  unfold event_order. intros [H1|[H1 L1]%andb_true_iff]%orb_true_iff [H2|[H2 L2]%andb_true_iff]%orb_true_iff; try lia.
  by apply str_leb_antisym.
Qed.

Section first_and_last.
Context {A : Type} (le : A -> A -> bool).
Context (le_total : forall x y, le x y = true \/ le y x = true).
Context (le_trans : forall x y z, le x y = true -> le y z = true -> le x z = true).

Lemma head_sort_by l x : head (sort_by le l) = Some x -> x ∈ l /\ forall y, y ∈ l -> le x y = true.
Proof using le_total le_trans.
  intros H. pose proof (sort_by_sorted le le_total le_trans l) as Hs.
  destruct (sort_by le l) as [|z s] eqn:E; [done|]. injection H as ->.
  split; [rewrite <-(elem_of_sort_by le), E; by left|]. intros y Hy.
  rewrite <-(elem_of_sort_by le), E in Hy. apply elem_of_cons in Hy as [->|Hy].
  - by destruct (le_total x x).
  - inversion_clear Hs as [|? ? _ Hall]. by eapply (proj1 (Forall_forall _ _) Hall).
Qed.

Lemma last_sort_by l x : last (sort_by le l) = Some x -> x ∈ l /\ forall y, y ∈ l -> le y x = true.
Proof using le_total le_trans.
  intros H. pose proof (sort_by_sorted le le_total le_trans l) as Hs.
  apply last_Some in H as [s E]. rewrite E in Hs.
  split; [rewrite <-(elem_of_sort_by le), E; set_solver|]. intros y Hy.
  rewrite <-(elem_of_sort_by le), E in Hy.
  apply elem_of_app in Hy as [Hy| ->%list_elem_of_singleton]; [|by destruct (le_total x x)].
  clear E. induction s as [|z s IH]; [by apply not_elem_of_nil in Hy|].
  inversion_clear Hs as [|? ? Hs' Hall]. apply elem_of_cons in Hy as [->|Hy]; [|by apply IH].
  eapply (proj1 (Forall_forall _ _) Hall). set_solver.
Qed.

Lemma sort_by_empty l : sort_by le l = [] -> l = [].
Proof using Type. intros H. apply length_zero_iff_nil. by rewrite <-(length_sort_by le), H. Qed.
End first_and_last.

Lemma is_ok_iff {E} (r : result E unit) : is_ok r = true <-> r = Ok tt.
Proof. destruct r as [[]|]; naive_solver. Qed.

(** ** The specification *)

Section handoff.
Context `{NL : NostrLib, SJ : SerdeJson, SC : SchnorrLib}.

(** A genuine text note with one lifecycle tag, in one context. *)
Record envelope (e : Event) (name context : string) : Prop := {
  env_kind : ev_kind e = KIND_TEXT_NOTE;
  env_verified : verify_event e = Ok tt;
  env_lifecycle : List.filter (fun v => starts_with v "handoff:") (tag_values e "t") = [name];
  env_context : tag_values e "h" = [context] /\ context <> EmptyString;
}.

(** What a content object states. *)
Definition states_field (e : Event) (field value : string) : Prop :=
  exists content v, from_str (ev_content e) = Ok content /\ is_object content = true /\
    get content field = Some v /\ as_str v = Some value.

Record is_claim (open : OpenAuthority) (e : Event) : Prop := {
  claim_envelope : envelope e HANDOFF_CLAIM (oa_context open);
  claim_after : (oa_created_at open < ev_created_at e)%N;
  claim_root : linked_event e "root" = Some (oa_id open);
  claim_allowed : ev_pubkey e ∈ oa_allowed_claimants open;
  claim_owned : exists owner, event_owner e = Ok owner;
}.

Record is_return (open : OpenAuthority) (claim e : Event) : Prop := {
  return_envelope : envelope e HANDOFF_RETURN (oa_context open);
  return_after : (ev_created_at claim < ev_created_at e)%N;
  return_by_claimant : ev_pubkey e = ev_pubkey claim;
  return_root : linked_event e "root" = Some (oa_id open);
  return_claim : linked_event e "claim" = Some (to_hex (ev_id claim));
  return_restates : states_field e "claim_id" (to_hex (ev_id claim));
  return_status : states_field e "status" "done" \/ states_field e "status" "failed";
  return_owned : exists owner, event_owner e = Ok owner;
}.

Record is_close (open : OpenAuthority) (returned e : Event) : Prop := {
  close_envelope : envelope e HANDOFF_CLOSE (oa_context open);
  close_after : (ev_created_at returned < ev_created_at e)%N;
  close_root : linked_event e "root" = Some (oa_id open);
  close_return : linked_event e "return" = Some (to_hex (ev_id returned));
  close_restates : states_field e "return_id" (to_hex (ev_id returned));
  close_by_owner : event_owner e = Ok (oa_opener_owner_pubkey open);
}.

Definition first_of (P : Event -> Prop) (events : list Event) (e : Event) : Prop :=
  e ∈ events /\ P e /\ forall e', e' ∈ events -> P e' -> event_order e e' = true.

Definition last_of (P : Event -> Prop) (events : list Event) (e : Event) : Prop :=
  e ∈ events /\ P e /\ forall e', e' ∈ events -> P e' -> event_order e' e = true.

Definition absent (P : Event -> Prop) (events : list Event) : Prop := forall e, e ∈ events -> ~ P e.

(** The accepted claim: the first one, when nobody else claims. *)
Definition accepted_claim (open : OpenAuthority) (events : list Event) (c : Event) : Prop :=
  first_of (is_claim open) events c /\
  forall e, e ∈ events -> is_claim open e -> ev_pubkey e = ev_pubkey c.

(** The ids a conflict reports: in order and without repetition, the first
    claim of every claimant. *)
Definition conflict_ids (open : OpenAuthority) (events : list Event) (ids : list string) : Prop :=
  StronglySorted (fun a b => str_leb a b = true) ids /\ NoDup ids /\
  forall id, id ∈ ids <-> exists c, first_of (fun e => is_claim open e /\ ev_pubkey e = ev_pubkey c) events c /\
                                    id = to_hex (ev_id c).

Inductive handoff_spec (open : OpenAuthority) (events : list Event)
    : LifecycleState -> option Event -> option Event -> option Event -> list string -> Prop :=
| Spec_open : absent (is_claim open) events -> handoff_spec open events HS_Open None None None []
| Spec_conflict c1 c2 ids :
    c1 ∈ events -> c2 ∈ events -> is_claim open c1 -> is_claim open c2 -> ev_pubkey c1 <> ev_pubkey c2 ->
    conflict_ids open events ids -> handoff_spec open events HS_Conflict None None None ids
| Spec_claimed c :
    accepted_claim open events c -> absent (is_return open c) events ->
    handoff_spec open events HS_Claimed (Some c) None None []
| Spec_returned c r :
    accepted_claim open events c -> last_of (is_return open c) events r -> absent (is_close open r) events ->
    handoff_spec open events HS_Returned (Some c) (Some r) None []
| Spec_closed c r x :
    accepted_claim open events c -> last_of (is_return open c) events r -> first_of (is_close open r) events x ->
    handoff_spec open events HS_Closed (Some c) (Some r) (Some x) [].

(** ** What the validators accept *)

Lemma exactly_one_tag_ok e n v : exactly_one_tag e n = Ok v <-> tag_values e n = [v] /\ v <> EmptyString.
Proof.
  unfold exactly_one_tag. destruct (tag_values e n) as [|w [|? ?]]; [naive_solver| |naive_solver].
  destruct (String.eqb_spec w EmptyString) as [->|Hne]; naive_solver.
Qed.

Lemma validate_envelope_ok e name :
  validate_envelope e name = Ok tt <-> exists context, envelope e name context.
Proof.
  unfold validate_envelope. destruct (N.eqb_spec (ev_kind e) KIND_TEXT_NOTE) as [Hk|Hk]; simpl.
  2: { split; [done|]. by intros [c []]. }
  destruct (verify_event e) as [[]|err] eqn:Hv; simpl.
  2: { split; [done|]. intros [c []]. congruence. }
  case_bool_decide as Ht; simpl.
  2: { split; [done|]. by intros [c []]. }
  destruct (exactly_one_tag e "h") as [c|] eqn:Hh.
  - apply exactly_one_tag_ok in Hh. split; [|done]. intros _. by exists c.
  - split; [done|]. intros [c [_ _ _ Hc]]. apply exactly_one_tag_ok in Hc. congruence.
Qed.

(** The envelope and context checks that open every validator. *)
Lemma envelope_context_ok e name open :
  (validate_envelope e name = Ok tt /\ same_context e open = Ok tt) <-> envelope e name (oa_context open).
Proof.
  rewrite validate_envelope_ok. unfold same_context. split.
  - intros [[c [? ? ? Hc]] H]. destruct (exactly_one_tag e "h") as [c'|] eqn:Hh; [|done].
    destruct (String.eqb_spec c' (oa_context open)) as [->|]; [|done].
    apply exactly_one_tag_ok in Hh. by split.
  - intros [? ? ? Hc]. split; [by exists (oa_context open)|].
    apply exactly_one_tag_ok in Hc. rewrite Hc. by rewrite String.eqb_refl.
Qed.

Lemma check_envelope {B} e name open (k : result string B) b :
  (let? _ := validate_envelope e name in let? _ := same_context e open in k) = Ok b <->
  envelope e name (oa_context open) /\ k = Ok b.
Proof.
  rewrite <-envelope_context_ok. destruct (validate_envelope e name) as [[]|]; [|naive_solver].
  destruct (same_context e open) as [[]|]; naive_solver.
Qed.

Lemma check_owned e : (let? _ := event_owner e in Ok tt) = Ok (E:=string) tt <-> exists o, event_owner e = Ok o.
Proof. destruct (event_owner e); naive_solver. Qed.

Lemma check_fails {E B} (c : bool) (err : E) (k : result E B) b :
  (if c then Err err else k) = Ok b <-> c = false /\ k = Ok b.
Proof. destruct c; naive_solver. Qed.

Lemma content_object_ok e c :
  content_object e = Ok c <-> from_str (ev_content e) = Ok c /\ is_object c = true.
Proof.
  unfold content_object. destruct (from_str (ev_content e)) as [v|]; simpl; [|naive_solver].
  destruct (is_object v) eqn:E; (split; [intros [= <-]; by split|]); intros [[= <-] H]; congruence.
Qed.

Lemma states_field_iff e c field value :
  content_object e = Ok c -> states_field e field value <-> (v ← get c field; as_str v) = Some value.
Proof.
  intros [H1 H2]%content_object_ok. unfold states_field. rewrite bind_Some. split.
  - intros (c' & v & H & _ & Hg & Hs). rewrite H in H1. simplify_eq. by exists v.
  - intros (v & Hg & Hs). by exists c, v.
Qed.

Lemma states_field_object e field value : states_field e field value -> exists c, content_object e = Ok c.
Proof. intros (c & v & H1 & H2 & _). exists c. by apply content_object_ok. Qed.

Lemma validate_claim_ok e open : validate_claim e open = Ok tt <-> is_claim open e.
Proof.
  unfold validate_claim. rewrite check_envelope, !check_fails, check_owned, !negb_false_iff, !bool_decide_eq_true, N.leb_gt.
  split; [intros (?&?&?&?&?); by split|intros []; by split_and!].
Qed.

Lemma validate_return_ok e open c : validate_return e open c = Ok tt <-> is_return open c e.
Proof.
  unfold validate_return. rewrite check_envelope, !check_fails, !negb_false_iff, !bool_decide_eq_true, N.leb_gt, String.eqb_eq.
  destruct (content_object e) as [v|] eqn:Hc.
  - rewrite !check_fails, check_owned, !negb_false_iff, bool_decide_eq_true.
    rewrite <-(states_field_iff e v "claim_id") by done.
    transitivity (envelope e HANDOFF_RETURN (oa_context open) /\ (ev_created_at c < ev_created_at e)%N /\
      ev_pubkey e = ev_pubkey c /\ linked_event e "root" = Some (oa_id open) /\
      linked_event e "claim" = Some (to_hex (ev_id c)) /\ states_field e "claim_id" (to_hex (ev_id c)) /\
      (states_field e "status" "done" \/ states_field e "status" "failed") /\ exists o, event_owner e = Ok o).
    2: { split; [intros (?&?&?&?&?&?&?&?); by split|intros []; by split_and!]. }
    rewrite !(states_field_iff e v "status") by done.
    destruct (get v "status" ≫= as_str) as [s|]; [|naive_solver].
    rewrite orb_true_iff, !String.eqb_eq. naive_solver.
  - split; [naive_solver|]. intros [_ _ _ _ _ Hs _ _]. apply states_field_object in Hs as [? Hs]. congruence.
Qed.

Lemma validate_close_ok e open r : validate_close e open r = Ok tt <-> is_close open r e.
Proof.
  unfold validate_close. rewrite check_envelope, !check_fails, !negb_false_iff, !bool_decide_eq_true, N.leb_gt.
  destruct (content_object e) as [v|] eqn:Hc.
  - rewrite check_fails, negb_false_iff, bool_decide_eq_true, <-(states_field_iff e v "return_id") by done.
    destruct (event_owner e) as [o|] eqn:Ho.
    + destruct (String.eqb_spec o (oa_opener_owner_pubkey open)) as [->|Hne].
      * split; [intros (?&?&?&?&?&?); by split|intros []; by split_and!].
      * split; [by intros (?&?&?&?&?&?)|]. intros [_ _ _ _ _ H]. congruence.
    + split; [by intros (?&?&?&?&?&?)|]. intros [_ _ _ _ _ H]. congruence.
  - split; [naive_solver|]. intros [_ _ _ _ Hs _]. apply states_field_object in Hs as [? Hs]. congruence.
Qed.

(** The filters of the loops are implied by what the validators check. *)
Lemma lifecycle_head e :
  lifecycle e = head (List.filter (fun v => starts_with v "handoff:") (tag_values e "t")).
Proof.
  unfold lifecycle, tag_values. induction (ev_tags e) as [|t ts IH]; [done|]. simpl. rewrite IH.
  destruct (t !! 1) as [v|]; simpl.
  - case_bool_decide; simpl; [|done]. by destruct (starts_with v "handoff:").
  - by case_bool_decide.
Qed.

Lemma envelope_lifecycle e name context : envelope e name context -> has_lifecycle name e = true.
Proof. intros [_ _ H _]. unfold has_lifecycle. rewrite lifecycle_head, H. by apply bool_decide_eq_true. Qed.

Lemma linked_references e marker id : linked_event e marker = Some id -> references e id = true.
Proof.
  unfold linked_event, references. induction (ev_tags e) as [|t ts IH]; [done|]. simpl.
  destruct (bool_decide (t !! 0 = Some "e")); simpl; [|done]. case_bool_decide; simpl; [|intros H'; by rewrite IH, orb_true_r].
  destruct (t !! 1) as [v|]; [|intros H'; by rewrite IH, orb_true_r]. intros [= ->]. by rewrite bool_decide_true.
Qed.

(** The members of a phase that validate. *)
Lemma phase_members name context id (validate : Event -> result string unit) (P : Event -> Prop) events :
  (forall e, validate e = Ok tt <-> P e) ->
  (forall e, P e -> envelope e name context /\ linked_event e "root" = Some id) ->
  forall e, e ∈ List.filter (fun e => is_ok (validate e)) (phase_events name id events) <-> e ∈ events /\ P e.
Proof.
  intros HP Henv e. unfold phase_events. rewrite !elem_of_filter_b, andb_true_iff, is_ok_iff, HP.
  split; [naive_solver|]. intros [He HPe]. destruct (Henv e HPe) as [H1 H2].
  split_and!; [done|by eapply envelope_lifecycle|by eapply linked_references|done].
Qed.

(** ** The loops *)

Lemma sift_accepted validate events ignored :
  (sift validate events ignored).1 = List.filter (fun e => is_ok (validate e)) events.
Proof.
  unfold sift. induction events as [|e events IH] using rev_ind; [done|].
  rewrite foldl_snoc, List.filter_app, <-IH. simpl.
  destruct (validate e); simpl; by rewrite ?app_nil_r.
Qed.

(** The claims one author has validated, in journal order. *)
Definition author_claims (open : OpenAuthority) (events : list Event) (author : PublicKey) : list Event :=
  List.filter (fun e => is_ok (validate_claim e open) && String.eqb (ev_pubkey e) author) events.

Lemma sift_claims_lookup open events (author : PublicKey) :
  (sift_claims open events).1 !! author =
  match author_claims open events author with [] => None | l => Some l end.
Proof.
  unfold sift_claims, author_claims.
  induction events as [|e events IH] using rev_ind; [apply lookup_empty|].
  rewrite foldl_snoc, List.filter_app. simpl. destruct (validate_claim e open) as [u|r]; simpl.
  - destruct (String.eqb_spec (ev_pubkey e) author) as [<-|Hne]; simpl.
    + unfold push_entry, PublicKey in *. rewrite lookup_insert_eq, IH. by destruct (List.filter _ events).
    + unfold push_entry, PublicKey in *. by rewrite lookup_insert_ne, IH, app_nil_r by done.
  - by rewrite IH, app_nil_r.
Qed.

Lemma author_claims_elem open events author e :
  e ∈ author_claims open (phase_events HANDOFF_CLAIM (oa_id open) events) author <->
  e ∈ events /\ is_claim open e /\ ev_pubkey e = author.
Proof.
  unfold author_claims. rewrite <-filter_filter_b, elem_of_filter_b, String.eqb_eq.
  rewrite (phase_members HANDOFF_CLAIM (oa_context open) (oa_id open) _ (is_claim open)).
  - naive_solver.
  - intros x. apply validate_claim_ok.
  - intros x []. done.
Qed.

(** The claims by author, each list in order. *)
Definition claims_of (open : OpenAuthority) (events : list Event) : gmap PublicKey (list Event) :=
  sort_by event_order <$> (sift_claims open (phase_events HANDOFF_CLAIM (oa_id open) events)).1.

Lemma claims_of_lookup open events (author : PublicKey) (l : list Event) :
  claims_of open events !! author = Some l ->
  l <> [] /\
  (forall e, e ∈ l <-> e ∈ events /\ is_claim open e /\ ev_pubkey e = author) /\
  (forall c, head l = Some c -> first_of (fun e => is_claim open e /\ ev_pubkey e = author) events c).
Proof.
  unfold claims_of. rewrite lookup_fmap, sift_claims_lookup.
  pose proof (author_claims_elem open events author) as Hel.
  destruct (author_claims _ _ author) as [|x xs] eqn:E; [done|]. intros [= <-]. split_and!.
  - intros H. by apply (sort_by_empty event_order (x :: xs)) in H.
  - intros e. by rewrite (elem_of_sort_by event_order e (x :: xs)), Hel.
  - intros c Hc. change (head (sort_by event_order (x :: xs)) = Some c) in Hc.
    apply (head_sort_by event_order event_order_total event_order_trans) in Hc as [Hc Hmin].
    apply Hel in Hc as (? & ? & ?). split_and!; [done..|]. intros e' He' []. apply Hmin, Hel. done.
Qed.

Lemma claims_of_some open events c :
  c ∈ events -> is_claim open c -> is_Some (claims_of open events !! ev_pubkey c).
Proof.
  intros Hc Hcl. unfold claims_of. rewrite lookup_fmap, sift_claims_lookup.
  destruct (author_claims _ _ (ev_pubkey c)) as [|x xs] eqn:E; [|by eexists].
  assert (c ∈ []) as H; [|by apply not_elem_of_nil in H]. rewrite <-E. by apply author_claims_elem.
Qed.

(** Nobody else claims when the map has one author. *)
Lemma sole_claimant open events (author : PublicKey) (l : list Event) e :
  map_to_list (claims_of open events) = [(author, l)] -> e ∈ events -> is_claim open e -> ev_pubkey e = author.
Proof.
  intros E He Hc. destruct (claims_of_some open events e He Hc) as [l' Hl'].
  apply elem_of_map_to_list in Hl'. rewrite E in Hl'. set_solver.
Qed.

Lemma no_claims open events : map_to_list (claims_of open events) = [] -> absent (is_claim open) events.
Proof.
  intros E%map_to_list_empty_iff e He Hc. destruct (claims_of_some open events e He Hc) as [l Hl].
  by rewrite E, lookup_empty in Hl.
Qed.

Lemma two_claimants open events :
  1 < size (claims_of open events) ->
  exists c1 c2, c1 ∈ events /\ c2 ∈ events /\ is_claim open c1 /\ is_claim open c2 /\ ev_pubkey c1 <> ev_pubkey c2.
Proof.
  rewrite <-length_map_to_list. pose proof (NoDup_fst_map_to_list (claims_of open events)) as Hnd.
  assert (forall a l, (a, l) ∈ map_to_list (claims_of open events) ->
            exists c, c ∈ events /\ is_claim open c /\ ev_pubkey c = a) as Hw.
  { intros a l Ha%elem_of_map_to_list. apply claims_of_lookup in Ha as (Hne & Hm & _).
    destruct l as [|c l]; [done|]. exists c. apply Hm. left. }
  destruct (map_to_list (claims_of open events)) as [|[a1 l1] [|[a2 l2] rest]]; simpl; [lia..|]. intros _.
  destruct (Hw a1 l1) as (c1 & ? & ? & <-); [left|]. destruct (Hw a2 l2) as (c2 & ? & ? & <-); [by right; left|].
  exists c1, c2. split_and!; try done. simpl in Hnd. intros E. rewrite E in Hnd.
  apply NoDup_cons in Hnd as [Hnd _]. apply Hnd. left.
Qed.

(** The first claim of an author is unique up to its id. *)
Lemma first_of_id (P : Event -> Prop) events e1 e2 :
  first_of P events e1 -> first_of P events e2 -> ev_id e1 = ev_id e2.
Proof.
  intros (H1 & P1 & M1) (H2 & P2 & M2). apply event_order_ids; [by apply M1|by apply M2].
Qed.

Lemma first_of_unique (P : Event -> Prop) events e1 e2 :
  id_injective events -> first_of P events e1 -> first_of P events e2 -> e1 = e2.
Proof. intros Hinj H1 H2. apply Hinj; [apply H1|apply H2|by eapply first_of_id]. Qed.

Lemma last_of_unique (P : Event -> Prop) events e1 e2 :
  id_injective events -> last_of P events e1 -> last_of P events e2 -> e1 = e2.
Proof.
  intros Hinj (H1 & P1 & M1) (H2 & P2 & M2). apply Hinj; [done..|].
  apply event_order_ids; [by apply M2|by apply M1].
Qed.

Lemma first_ids_elem (claims : gmap PublicKey (list Event)) id :
  id ∈ first_ids claims <-> exists a c l, claims !! a = Some (c :: l) /\ id = to_hex (ev_id c).
Proof.
  unfold first_ids. rewrite list_elem_of_omap. split.
  - intros ([a l] & Ha%elem_of_map_to_list & H). destruct l as [|c l]; [done|]. injection H as <-. eauto.
  - intros (a & c & l & Ha & ->). exists (a, c :: l). by rewrite elem_of_map_to_list.
Qed.

Lemma NoDup_omap {A B} (f : A -> option B) (l : list A) :
  NoDup l -> (forall x y b, x ∈ l -> y ∈ l -> f x = Some b -> f y = Some b -> x = y) -> NoDup (omap f l).
Proof.
  induction 1 as [|x l Hx Hnd IH]; intros Hinj; simpl; [constructor|].
  assert (NoDup (omap f l)) as Hrec by (apply IH; intros ? ? b ? ?; apply (Hinj _ _ b); by right).
  destruct (f x) as [b|] eqn:Ex; [|done]. constructor; [|done].
  intros (y & Hy & Ey)%list_elem_of_omap. assert (x = y) as ->; [|done].
  eapply (Hinj x y b); [left|by right|done..].
Qed.

Lemma conflict_ids_sorted open events :
  id_injective events -> conflict_ids open events (sort_by str_leb (first_ids (claims_of open events))).
Proof.
  intros Hinj. split_and!.
  - apply sort_by_sorted; [apply str_leb_total|apply str_leb_trans].
  - rewrite sort_by_perm. apply NoDup_omap; [apply NoDup_map_to_list|].
    intros [a l] [a' l'] b Ha%elem_of_map_to_list Ha'%elem_of_map_to_list.
    destruct l as [|c l], l' as [|c' l']; try done. simpl. intros [= <-] [= E].
    pose proof (claims_of_lookup _ _ _ _ Ha) as (_ & Hm & _).
    pose proof (claims_of_lookup _ _ _ _ Ha') as (_ & Hm' & _).
    destruct (proj1 (Hm c)) as (Hc & _ & Hca); [left|]. destruct (proj1 (Hm' c')) as (Hc' & _ & Hca'); [left|].
    assert (c' = c) as -> by (by apply Hinj).
    rewrite <-Hca, <-Hca'. rewrite <-Hca in Ha. rewrite <-Hca', Ha in Ha'. by injection Ha' as ->.
  - intros id. rewrite elem_of_sort_by, first_ids_elem. split.
    + intros (a & c & l & Ha & ->). apply claims_of_lookup in Ha as (_ & _ & Hf).
      specialize (Hf c eq_refl). exists c. split; [|done].
      assert (ev_pubkey c = a) as -> by apply Hf. done.
    + intros (c & Hf & ->). destruct (claims_of_some open events c) as [l Hl]; [apply Hf..|].
      pose proof Hl as (Hne & _ & Hf')%claims_of_lookup. destruct l as [|c' l]; [done|].
      exists (ev_pubkey c), c', l. split; [done|]. unfold to_hex. by eapply first_of_id; [|apply Hf'].
Qed.

(** ** Refinement *)

Lemma reduce_returned_spec open events c r ignored :
  accepted_claim open events c -> last_of (is_return open c) events r ->
  exists phase close ignored', reduce_returned open events c r ignored =
    state_from_authority open phase (Some c) (Some r) close [] ignored' /\
    handoff_spec open events phase (Some c) (Some r) close [].
Proof.
  intros Hc Hr. unfold reduce_returned.
  pose proof (sift_accepted (fun e => validate_close e open r) (phase_events HANDOFF_CLOSE (oa_id open) events) ignored) as E.
  destruct (sift _ _ _) as [closes ig]. simpl in E.
  assert (forall e, e ∈ closes <-> e ∈ events /\ is_close open r e) as Hm.
  { rewrite E. apply (phase_members HANDOFF_CLOSE (oa_context open)); [intros e; apply validate_close_ok|by intros e []]. }
  destruct (head (sort_by event_order closes)) as [x|] eqn:Hx.
  - apply (head_sort_by event_order event_order_total event_order_trans) in Hx as [Hx Hmin].
    eexists _, _, _. split; [done|]. constructor; [done..|]. apply Hm in Hx as [? ?].
    split_and!; [done..|]. intros e' ? ?. by apply Hmin, Hm.
  - eexists _, _, _. split; [done|]. constructor; [done..|].
    intros e He Hcl. assert (e ∈ closes) as Hin by (by apply Hm).
    rewrite <-(elem_of_sort_by event_order) in Hin. destruct (sort_by _ _); [by apply not_elem_of_nil in Hin|done].
Qed.

Lemma reduce_claimed_spec open events c ignored :
  accepted_claim open events c ->
  exists phase returned close ignored', reduce_claimed open events c ignored =
    state_from_authority open phase (Some c) returned close [] ignored' /\
    handoff_spec open events phase (Some c) returned close [].
Proof.
  intros Hc. unfold reduce_claimed.
  pose proof (sift_accepted (fun e => validate_return e open c) (phase_events HANDOFF_RETURN (oa_id open) events) ignored) as E.
  destruct (sift _ _ _) as [returns ig]. simpl in E.
  assert (forall e, e ∈ returns <-> e ∈ events /\ is_return open c e) as Hm.
  { rewrite E. apply (phase_members HANDOFF_RETURN (oa_context open)); [intros e; apply validate_return_ok|by intros e []]. }
  destruct (last (sort_by event_order returns)) as [r|] eqn:Hr.
  - apply (last_sort_by event_order event_order_total event_order_trans) in Hr as [Hr Hmax].
    destruct (reduce_returned_spec open events c r ig Hc) as (phase & close & ig' & -> & Hs).
    + apply Hm in Hr as [? ?]. split_and!; [done..|]. intros e' ? ?. by apply Hmax, Hm.
    + by exists phase, (Some r), close, ig'.
  - eexists _, None, None, _. split; [done|]. constructor; [done|].
    apply last_None, sort_by_empty in Hr. intros e He Hret.
    assert (e ∈ returns) as Hin by (by apply Hm). rewrite Hr in Hin. by apply not_elem_of_nil in Hin.
Qed.

Lemma reduce_spec open events acks authority :
  id_injective events -> validate_open open = Ok authority ->
  exists phase claim returned close ids ignored,
    reduce_handoff_with_invalid_acknowledgments open events acks =
      Some (state_from_authority authority phase claim returned close ids ignored) /\
    handoff_spec authority events phase claim returned close ids.
Proof.
  intros Hinj Ho. unfold reduce_handoff_with_invalid_acknowledgments. rewrite Ho.
  pose proof (eq_refl (claims_of authority events)) as Ec. unfold claims_of in Ec at 2.
  destruct (sift_claims _ _) as [claims ig]. simpl in Ec. rewrite <-Ec. clear Ec claims.
  destruct (Nat.ltb_spec 1 (size (claims_of authority events))) as [Hs|Hs].
  - apply two_claimants in Hs as (c1 & c2 & ? & ? & ? & ? & ?).
    do 6 eexists. split; [reflexivity|]. by apply (Spec_conflict _ _ c1 c2); [..|apply conflict_ids_sorted].
  - pose proof (length_map_to_list (claims_of authority events)) as Hlen.
    destruct (map_to_list (claims_of authority events)) as [|[a l] [|? ?]] eqn:Em; simpl in Hlen; [| |lia].
    + do 6 eexists. split; [reflexivity|]. constructor. by apply no_claims.
    + assert (claims_of authority events !! a = Some l) as Hl by (apply elem_of_map_to_list; rewrite Em; left).
      apply claims_of_lookup in Hl as (Hne & _ & Hf). destruct l as [|c dups]; [done|].
      assert (accepted_claim authority events c) as Hc.
      { destruct (Hf c eq_refl) as (Hin & [Hcl <-] & Hmin).
        assert (forall e, e ∈ events -> is_claim authority e -> ev_pubkey e = ev_pubkey c) as Hsole
          by (intros e; by eapply sole_claimant).
        split; [|done]. split_and!; [done..|]. intros e He Hce. apply Hmin; [done|]. split; [done|by apply Hsole]. }
      destruct (reduce_claimed_spec authority events c
        (ig ++ ((fun e => ignored_event e "duplicate claim by the accepted claimant") <$> dups)) Hc)
        as (phase & returned & close & ig' & E & Hsp).
      do 6 eexists. split; [f_equal; exact E|exact Hsp].
Qed.

(** ** Which events matter *)

(** The events some authorized party of the handoff has posted. *)
Definition authorized (open : OpenAuthority) (e : Event) : Prop :=
  is_claim open e \/ (exists c, is_claim open c /\ is_return open c e) \/ (exists r, is_close open r e).

(** Two journals with the same authorized events. *)
Definition agree (open : OpenAuthority) (events events' : list Event) : Prop :=
  forall e, authorized open e -> e ∈ events <-> e ∈ events'.

Section agreement.
Context (open : OpenAuthority) (events events' : list Event) (Hag : agree open events events').

Lemma first_of_agree (P : Event -> Prop) e :
  (forall x, P x -> authorized open x) -> first_of P events e -> first_of P events' e.
Proof using Hag.
  intros HP (He & HPe & Hmin). split_and!; [by apply Hag; [apply HP|]|done|].
  intros x Hx HPx. apply Hmin; [|done]. by apply Hag; [apply HP|].
Qed.

Lemma last_of_agree (P : Event -> Prop) e :
  (forall x, P x -> authorized open x) -> last_of P events e -> last_of P events' e.
Proof using Hag.
  intros HP (He & HPe & Hmax). split_and!; [by apply Hag; [apply HP|]|done|].
  intros x Hx HPx. apply Hmax; [|done]. by apply Hag; [apply HP|].
Qed.

Lemma absent_agree (P : Event -> Prop) :
  (forall x, P x -> authorized open x) -> absent P events -> absent P events'.
Proof using Hag. intros HP H x Hx HPx. apply (H x); [|done]. by apply Hag; [apply HP|]. Qed.

Lemma accepted_claim_agree c : accepted_claim open events c -> accepted_claim open events' c.
Proof using Hag.
  intros [Hf Hs]. split; [apply first_of_agree; [by left|done]|].
  intros e He Hc. apply Hs; [|done]. by apply Hag; [left|].
Qed.
End agreement.

Lemma agree_sym open events events' : agree open events events' -> agree open events' events.
Proof. intros H e He. by rewrite (H e He). Qed.

Lemma conflict_ids_agree open events events' ids :
  agree open events events' -> conflict_ids open events ids -> conflict_ids open events' ids.
Proof.
  intros Hag (Hs & Hnd & Hm). split_and!; [done..|]. intros id. rewrite Hm.
  split; intros (c & Hf & ->); exists c; (split; [|done]).
  - eapply first_of_agree; [done|intros y [? _]; by left|done].
  - eapply first_of_agree; [by apply agree_sym|intros y [? _]; by left|done].
Qed.

Lemma accepted_is_claim open events c : accepted_claim open events c -> is_claim open c.
Proof. intros [(_ & H & _) _]. done. Qed.

Lemma handoff_spec_agree open events events' phase c r x ids :
  agree open events events' -> handoff_spec open events phase c r x ids -> handoff_spec open events' phase c r x ids.
Proof.
  intros Hag [Ho|c1 c2 ids' H1 H2 Hc1 Hc2 Hne Hi|c' Hc Hr|c' r' Hc Hr Hx|c' r' x' Hc Hr Hx].
  - constructor. eapply absent_agree; [done|by left|done].
  - apply (Spec_conflict _ _ c1 c2); try done; [by apply Hag; [left|]..|by eapply conflict_ids_agree].
  - pose proof (accepted_is_claim _ _ _ Hc). constructor; [by eapply accepted_claim_agree|].
    eapply absent_agree; [done| |done]. intros y Hy. right; left. by exists c'.
  - pose proof (accepted_is_claim _ _ _ Hc). constructor; [by eapply accepted_claim_agree| |].
    + eapply last_of_agree; [done| |done]. intros y Hy. right; left. by exists c'.
    + eapply absent_agree; [done| |done]. intros y Hy. right; right. by exists r'.
  - pose proof (accepted_is_claim _ _ _ Hc). constructor; [by eapply accepted_claim_agree| |].
    + eapply last_of_agree; [done| |done]. intros y Hy. right; left. by exists c'.
    + eapply first_of_agree; [done| |done]. intros y Hy. right; right. by exists r'.
Qed.

Lemma conflict_ids_unique open events ids ids' :
  conflict_ids open events ids -> conflict_ids open events ids' -> ids = ids'.
Proof.
  intros (Hs & Hnd & Hm) (Hs' & Hnd' & Hm'). eapply sorted_unique; [|done|done|].
  - intros ? ? _ _. apply str_leb_antisym.
  - apply NoDup_Permutation; [done..|]. intros id. by rewrite Hm, Hm'.
Qed.

Lemma accepted_claim_unique open events c c' :
  id_injective events -> accepted_claim open events c -> accepted_claim open events c' -> c = c'.
Proof. intros Hinj [H _] [H' _]. by eapply first_of_unique. Qed.

(** Each journal has one specified state. *)
Lemma handoff_spec_unique open events p c r x ids p' c' r' x' ids' :
  id_injective events ->
  handoff_spec open events p c r x ids -> handoff_spec open events p' c' r' x' ids' ->
  p = p' /\ c = c' /\ r = r' /\ x = x' /\ ids = ids'.
Proof.
  intros Hinj H H'.
  assert (forall d, absent (is_claim open) events -> accepted_claim open events d -> False) as Hno.
  { intros d Ha [(Hd & Hcd & _) _]. by eapply Ha. }
  assert (forall d d1 d2, accepted_claim open events d -> d1 ∈ events -> d2 ∈ events -> is_claim open d1 ->
    is_claim open d2 -> ev_pubkey d1 <> ev_pubkey d2 -> False) as Hsole.
  { intros d d1 d2 [_ Hd] ? ? ? ? Hne. apply Hne. by rewrite (Hd d1), (Hd d2). }
  destruct H as [Ho|c1 c2 ids0 ? ? ? ? ? Hi|d Hc Hr|d q Hc Hr Hx|d q y Hc Hr Hx];
  destruct H' as [Ho'|c1' c2' ids0' ? ? ? ? ? Hi'|d' Hc' Hr'|d' q' Hc' Hr' Hx'|d' q' y' Hc' Hr' Hx'];
    try (exfalso; by eauto); try (exfalso; by eapply Ho; eauto); try (exfalso; by eapply Ho'; eauto);
    try (assert (d' = d) as -> by (by eapply accepted_claim_unique)); try done.
  - split_and!; try done. by eapply conflict_ids_unique.
  - exfalso. eapply Hr; apply Hr'.
  - exfalso. eapply Hr; apply Hr'.
  - exfalso. eapply Hr'; apply Hr.
  - assert (q' = q) as -> by (by eapply last_of_unique). done.
  - assert (q' = q) as -> by (by eapply last_of_unique). exfalso. eapply Hx; apply Hx'.
  - exfalso. eapply Hr'; apply Hr.
  - assert (q' = q) as -> by (by eapply last_of_unique). exfalso. eapply Hx'; apply Hx.
  - assert (q' = q) as -> by (by eapply last_of_unique).
    assert (y' = y) as -> by (by eapply first_of_unique). done.
Qed.

(** The state without its notes on ignored events. *)
Definition without_ignored (s : HandoffState) : HandoffState :=
  mkHandoff (hs_open_id s) (hs_title s) (hs_context s) (hs_opener_pubkey s) (hs_opener_owner_pubkey s)
    (hs_allowed_claimants s) (hs_created_at s) (hs_updated_at s) (hs_state s) (hs_claim_id s) (hs_claimant_pubkey s)
    (hs_claim_created_at s) (hs_return_id s) (hs_return_created_at s) (hs_close_id s) (hs_close_created_at s)
    (hs_acknowledgment_id s) (hs_acknowledgment_created_at s) (hs_conflicting_claims s) [].

Lemma reduce_agree open events events' acks acks' authority :
  id_injective events -> id_injective events' -> validate_open open = Ok authority -> agree authority events events' ->
  without_ignored <$> reduce_handoff_with_invalid_acknowledgments open events acks =
  without_ignored <$> reduce_handoff_with_invalid_acknowledgments open events' acks'.
Proof.
  intros Hinj Hinj' Ho Hag.
  destruct (reduce_spec open events acks authority Hinj Ho) as (p & c & r & x & ids & ig & -> & Hs).
  destruct (reduce_spec open events' acks' authority Hinj' Ho) as (p' & c' & r' & x' & ids' & ig' & -> & Hs').
  eapply handoff_spec_agree in Hs; [|done].
  destruct (handoff_spec_unique _ _ _ _ _ _ _ _ _ _ _ _ Hinj' Hs Hs') as (-> & -> & -> & -> & ->). done.
Qed.

(** ** Acknowledgments *)

(** An invalid open that its owner may acknowledge. *)
Record is_invalid_open (e : Event) (context : string) (owner : PublicKey) : Prop := {
  invalid_validates : is_ok (validate_open e) = false;
  invalid_envelope : envelope e HANDOFF_OPEN context;
  invalid_owner : event_owner e = Ok owner;
}.

(** [e] acknowledges the open [id]: the owner of every invalid open it names
    posted it afterwards, naming at most 256 of them, each once, in its tags and
    its content. *)
Record acknowledges (events : list Event) (id : string) (e : Event) : Prop := {
  ack_context : exists context owner,
    envelope e HANDOFF_ACK_INVALID context /\ event_owner e = Ok owner /\
    forall target, target ∈ invalid_tags e -> exists o,
      o ∈ events /\ to_hex (ev_id o) = target /\ is_invalid_open o context owner /\
      (ev_created_at o < ev_created_at e)%N;
  ack_tags : NoDup (invalid_tags e) /\ length (invalid_tags e) <= MAX_INVALID_ACK_TARGETS /\
    forall target, target ∈ invalid_tags e -> is_lower_hex target 64 = true;
  ack_names : id ∈ invalid_tags e;
  ack_status : states_field e "status" "acknowledged-invalid";
  ack_restates : exists content v items ids,
    from_str (ev_content e) = Ok content /\ get content "open_ids" = Some v /\ as_array v = Some items /\
    Forall2 (fun item id => as_str item = Some id) items ids /\ ids ≡ₚ invalid_tags e;
}.

Lemma invalid_open_authority_ok e a :
  invalid_open_authority e = Ok a <->
  exists context owner, envelope e HANDOFF_OPEN context /\ event_owner e = Ok owner /\
    a = mkInvalidOpen (to_hex (ev_id e)) context owner (ev_created_at e).
Proof.
  unfold invalid_open_authority. split.
  - destruct (validate_envelope e HANDOFF_OPEN) as [[]|] eqn:Hv; [|done].
    destruct (exactly_one_tag e "h") as [c|] eqn:Hh; [|done]. destruct (event_owner e) as [o|]; [|done].
    intros [= <-]. exists c, o. split_and!; try done.
    apply validate_envelope_ok in Hv as [c' []]. apply exactly_one_tag_ok in Hh. by split.
  - intros (c & o & He & Ho & ->). rewrite (proj2 (validate_envelope_ok _ _)) by (by exists c).
    rewrite (proj2 (exactly_one_tag_ok e "h" c)) by apply He. by rewrite Ho.
Qed.

Definition invalid_open_step (m : gmap string InvalidOpenAuthority) (e : Event) : gmap string InvalidOpenAuthority :=
  match invalid_open_authority e with Ok a => <[io_id a := a]> m | Err _ => m end.

Lemma invalid_fold_sound opens id a :
  foldl invalid_open_step ∅ opens !! id = Some a ->
  exists o, o ∈ opens /\ invalid_open_authority o = Ok a /\ to_hex (ev_id o) = id.
Proof.
  induction opens as [|o opens IH] using rev_ind; [simpl; by rewrite lookup_empty|].
  rewrite foldl_snoc. unfold invalid_open_step at 1.
  destruct (invalid_open_authority o) as [b|] eqn:Eo.
  - destruct (decide (io_id b = id)) as [<-|Hne].
    + rewrite lookup_insert_eq. intros [= ->]. exists o. split_and!; [set_solver|done|].
      by apply invalid_open_authority_ok in Eo as (? & ? & _ & _ & ->).
    + rewrite lookup_insert_ne by done. intros (o' & ? & ? & ?)%IH. exists o'. set_solver.
  - intros (o' & ? & ? & ?)%IH. exists o'. set_solver.
Qed.

Lemma invalid_fold_complete opens o a :
  o ∈ opens -> invalid_open_authority o = Ok a -> is_Some (foldl invalid_open_step ∅ opens !! to_hex (ev_id o)).
Proof.
  induction opens as [|x opens IH] using rev_ind; [by intros ?%not_elem_of_nil|].
  rewrite foldl_snoc. unfold invalid_open_step at 1. intros Ho Ha.
  apply elem_of_app in Ho as [Ho| <-%list_elem_of_singleton].
  - specialize (IH Ho Ha). destruct (invalid_open_authority x) as [b|]; [|done].
    destruct (decide (io_id b = to_hex (ev_id o))) as [->|Hne]; [by rewrite lookup_insert_eq|].
    by rewrite lookup_insert_ne.
  - rewrite Ha. apply invalid_open_authority_ok in Ha as (? & ? & _ & _ & ->). by rewrite lookup_insert_eq.
Qed.

Lemma invalid_opens_lookup events id a :
  id_injective events ->
  invalid_opens_of events !! id = Some a <->
  exists o, o ∈ events /\ to_hex (ev_id o) = id /\ is_invalid_open o (io_context a) (io_opener_owner_pubkey a) /\
    a = mkInvalidOpen id (io_context a) (io_opener_owner_pubkey a) (ev_created_at o).
Proof.
  intros Hinj. set (opens := List.filter (fun e => negb (is_ok (validate_open e)))
                               (List.filter (has_lifecycle HANDOFF_OPEN) events)).
  change (invalid_opens_of events) with (foldl invalid_open_step ∅ opens).
  assert (forall o, o ∈ opens <-> o ∈ events /\ has_lifecycle HANDOFF_OPEN o = true /\ is_ok (validate_open o) = false) as Hm.
  { intros o. unfold opens. rewrite !elem_of_filter_b, negb_true_iff. naive_solver. }
  split.
  - intros (o & Ho & Ha & <-)%invalid_fold_sound. apply Hm in Ho as (Ho & _ & Hv).
    apply invalid_open_authority_ok in Ha as (c & w & ? & ? & ->). exists o. by split_and!.
  - intros (o & Ho & <- & [Hv He Hw] & Ea).
    assert (invalid_open_authority o = Ok a) as Ha.
    { apply invalid_open_authority_ok. by exists (io_context a), (io_opener_owner_pubkey a). }
    destruct (invalid_fold_complete opens o a) as [b Hb]; [|done|].
    { apply Hm. split_and!; [done|by eapply envelope_lifecycle|done]. }
    pose proof Hb as (o' & Ho' & Ha' & E)%invalid_fold_sound. apply Hm in Ho' as [Ho' _].
    assert (o' = o) as -> by (by apply Hinj). rewrite Ha in Ha'. by injection Ha' as <-.
Qed.

Lemma check_ack_target_ok events context owner at_ id :
  id_injective events ->
  check_ack_target context owner at_ (invalid_opens_of events) id = Ok tt <->
  exists o, o ∈ events /\ to_hex (ev_id o) = id /\ is_invalid_open o context owner /\ (ev_created_at o < at_)%N.
Proof.
  intros Hinj. unfold check_ack_target. destruct (invalid_opens_of events !! id) as [a|] eqn:Ea; simpl.
  - rewrite !check_fails, !negb_false_iff, String.eqb_eq, N.leb_gt.
    pose proof Ea as (o & Ho & Hid & Hio & Eo)%invalid_opens_lookup; [|done].
    assert (io_created_at a = ev_created_at o) as Hat by (by rewrite Eo).
    transitivity (context = io_context a /\ (io_created_at a < at_)%N /\ owner = io_opener_owner_pubkey a).
    { destruct (String.eqb_spec owner (io_opener_owner_pubkey a)); naive_solver. }
    rewrite Hat. split.
    + intros (-> & Hlt & ->). by exists o.
    + intros (o' & Ho' & Hid' & Hio' & Hlt).
      assert (o' = o) as -> by (apply Hinj; [done..|]; unfold to_hex in *; congruence).
      destruct Hio as [_ [_ _ _ Hc] Hw], Hio' as [_ [_ _ _ Hc'] Hw'].
      split_and!; [|done|congruence]. destruct Hc as [Hc _], Hc' as [Hc' _]. congruence.
  - split; [done|]. intros (o & Ho & Hid & Hio & Hlt).
    assert (invalid_opens_of events !! id = Some (mkInvalidOpen id context owner (ev_created_at o))) as E; [|congruence].
    apply invalid_opens_lookup; [done|]. by exists o.
Qed.

Lemma open_id_of_ok v id : open_id_of v = Ok id <-> as_str v = Some id /\ is_lower_hex id 64 = true.
Proof.
  unfold open_id_of. destruct (as_str v) as [s|]; [|split; [done|by intros [[=] _]]].
  destruct (is_lower_hex s 64) eqn:E; (split; [by intros [= <-]|]); intros [[= <-] H]; congruence.
Qed.

(** The targets of an acknowledgment, as the tags name them. *)
Definition good_targets (e : Event) : Prop :=
  invalid_tags e <> [] /\ NoDup (invalid_tags e) /\ length (invalid_tags e) <= MAX_INVALID_ACK_TARGETS /\
  forall target, target ∈ invalid_tags e -> is_lower_hex target 64 = true.

Lemma check_targets {B} e msg1 msg2 (k : result string B) b :
  (if bool_decide (invalid_tags e = []) || existsb (fun id => negb (is_lower_hex id 64)) (invalid_tags e) then Err msg1
   else if (MAX_INVALID_ACK_TARGETS <? length (invalid_tags e))%nat then Err too_many_targets
   else if negb (size (list_to_set (invalid_tags e) : gset string) =? length (invalid_tags e))%nat then Err msg2 else k)
  = Ok b <-> good_targets e /\ k = Ok b.
Proof.
  rewrite !check_fails, orb_false_iff, bool_decide_eq_false, existsb_elem_false, Nat.ltb_ge, negb_false_iff, Nat.eqb_eq,
    size_list_to_set_iff. unfold good_targets.
  assert ((forall x, x ∈ invalid_tags e -> negb (is_lower_hex x 64) = false) <->
          (forall x, x ∈ invalid_tags e -> is_lower_hex x 64 = true)) as ->; [|naive_solver].
  split; intros H x Hx; specialize (H x Hx); by apply negb_false_iff.
Qed.

(** What the content of an acknowledgment must list. *)
Definition restated_ids (e : Event) (content : Value) (ids : list string) : Prop :=
  exists v items, get content "open_ids" = Some v /\ as_array v = Some items /\
    length items <= MAX_INVALID_ACK_TARGETS /\
    Forall2 (fun item id => as_str item = Some id /\ is_lower_hex id 64 = true) items ids.

Lemma restated_unique e content ids ids' :
  restated_ids e content ids -> restated_ids e content ids' -> ids = ids'.
Proof.
  intros (v & items & Hv & Hi & _ & H) (v' & items' & Hv' & Hi' & _ & H').
  assert (items' = items) as -> by congruence. clear -H H'. revert ids' H'.
  induction H as [|x y xs ys [Hx _] _ IH]; intros ids' Hf; [by inversion Hf|].
  inversion_clear Hf as [|? ? ? ? [Hs _] Hr]. f_equal; [congruence|by apply IH].
Qed.

Lemma target_checks context owner at_ opens (ids : list string) :
  (exists us, map_res (check_ack_target context owner at_ opens) (btree_elements (list_to_set ids)) = Ok us) <->
  forall id, id ∈ ids -> check_ack_target context owner at_ opens id = Ok tt.
Proof.
  rewrite map_res_checks. unfold btree_elements. setoid_rewrite elem_of_sort_by.
  setoid_rewrite elem_of_elements. by setoid_rewrite elem_of_list_to_set.
Qed.

Lemma validate_invalid_ack_ok events e ids :
  id_injective events ->
  validate_invalid_ack e (invalid_opens_of events) = Ok ids <->
  exists context owner content cids,
    envelope e HANDOFF_ACK_INVALID context /\ event_owner e = Ok owner /\ good_targets e /\
    content_object e = Ok content /\ (v ← get content "status"; as_str v) = Some "acknowledged-invalid" /\
    restated_ids e content cids /\ NoDup cids /\ (list_to_set cids : gset string) = list_to_set (invalid_tags e) /\
    (forall id, id ∈ cids -> check_ack_target context owner (ev_created_at e) (invalid_opens_of events) id = Ok tt) /\
    ids = list_to_set cids.
Proof.
  intros Hinj. unfold validate_invalid_ack.
  destruct (validate_envelope e HANDOFF_ACK_INVALID) as [[]|] eqn:Hv.
  2: { split; [done|]. intros (c & ? & ? & ? & He & _). rewrite (proj2 (validate_envelope_ok _ _)) in Hv; [done|by exists c]. }
  apply validate_envelope_ok in Hv as [c Hc]. rewrite (proj2 (exactly_one_tag_ok e "h" c)) by apply Hc.
  assert (forall c', envelope e HANDOFF_ACK_INVALID c' -> c' = c) as Hcu.
  { intros c' [_ _ _ [H _]]. destruct Hc as [_ _ _ [H' _]]. congruence. }
  destruct (event_owner e) as [o|] eqn:Ho; [|split; [done|]; intros (? & ? & ? & ? & _ & H & _); congruence].
  rewrite check_targets.
  destruct (content_object e) as [v|] eqn:Hct; [|split; [naive_solver|]; naive_solver].
  rewrite check_fails, negb_false_iff, bool_decide_eq_true.
  destruct (get v "open_ids" ≫= as_array) as [items|] eqn:Hi; simpl.
  2: { split; [naive_solver|]. intros (c' & o' & v' & cids & _ & _ & _ & [= <-] & _ & (w & its & Hw & Hits & _) & _).
       rewrite Hw in Hi. simpl in Hi. congruence. }
  rewrite check_fails, Nat.ltb_ge.
  destruct (map_res open_id_of items) as [cids|] eqn:Hm.
  2: { split; [naive_solver|]. intros (c' & o' & v' & cids & _ & _ & _ & [= <-] & _ & (w & its & Hw & Hits & _ & Hf) & _).
       rewrite Hw in Hi. simpl in Hi. assert (map_res open_id_of items = Ok cids) as E; [|congruence].
       apply map_res_ok. assert (its = items) as -> by congruence.
       eapply Forall2_impl; [done|]. intros. by apply open_id_of_ok. }
  apply map_res_ok in Hm. rewrite !check_fails, !negb_false_iff, Nat.eqb_eq, bool_decide_eq_true, size_list_to_set_iff.
  pose proof (target_checks c o (ev_created_at e) (invalid_opens_of events) cids) as Hk.
  set (checks := map_res _ (btree_elements _)) in *.
  assert (restated_ids e v cids \/ ~ length items <= MAX_INVALID_ACK_TARGETS) as Hre0.
  { destruct (decide (length items <= MAX_INVALID_ACK_TARGETS)); [left|by right].
    apply bind_Some in Hi as (w & Hw & Hits). exists w, items. split_and!; try done.
    eapply Forall2_impl; [exact Hm|]. intros. by apply open_id_of_ok. }
  split.
  - intros (Hg & Hst & Hl & Hn & Hset & Hck). exists c, o, v, cids.
    destruct checks as [us|] eqn:Ec; [|done]. injection Hck as <-.
    split_and!; try done; [by destruct Hre0|by apply Hk; exists us].
  - intros (c' & o' & v' & cids' & He & Ho' & Hg & Hv' & Hst & Hre & Hn & Hset & Hck & ->).
    apply Hcu in He as ->. injection Ho' as <-. injection Hv' as <-.
    assert (length items <= MAX_INVALID_ACK_TARGETS) as Hlen.
    { destruct Hre as (w & its & Hw & Hits & Hlen & _). rewrite Hw in Hi. simpl in Hi. congruence. }
    destruct Hre0 as [Hre0|]; [|done]. pose proof (restated_unique _ _ _ _ Hre Hre0) as ->.
    destruct (proj2 Hk Hck) as [us Hus]. rewrite Hus. by split_and!.
Qed.

Lemma states_field_status e content value :
  content_object e = Ok content ->
  (v ← get content "status"; as_str v) = Some value <-> states_field e "status" value.
Proof. intros H. by rewrite (states_field_iff e content). Qed.

Lemma restated_hex e content ids : restated_ids e content ids -> forall id, id ∈ ids -> is_lower_hex id 64 = true.
Proof.
  intros (v & items & _ & _ & _ & H) id Hid. apply list_elem_of_lookup in Hid as [i Hi].
  apply (Forall2_lookup_r _ _ _ _ _ H) in Hi as (x & _ & _ & ?). done.
Qed.

Lemma acknowledges_iff events id e :
  id_injective events ->
  (exists ids, validate_invalid_ack e (invalid_opens_of events) = Ok ids /\ id ∈ ids) <-> acknowledges events id e.
Proof.
  intros Hinj. split.
  - intros (ids & Hv & Hid). apply validate_invalid_ack_ok in Hv as
      (c & o & v & cids & He & Ho & (Hne & Hnd & Hlen & Hhex) & Hct & Hst & Hre & Hnc & Hset & Hck & ->); [|done].
    assert (forall x, x ∈ cids <-> x ∈ invalid_tags e) as Hx.
    { intros x. rewrite <-!(elem_of_list_to_set (C:=gset string)). by rewrite Hset. }
    rewrite elem_of_list_to_set, Hx in Hid. split; try done.
    + exists c, o. split_and!; try done. intros t Ht. apply Hx, Hck, check_ack_target_ok in Ht; done.
    + by apply (states_field_status e v).
    + destruct Hre as (w & items & Hw & Hi & _ & Hf). apply content_object_ok in Hct as [Hct _].
      exists v, w, items, cids. split_and!; try done; [|by apply NoDup_Permutation].
      eapply Forall2_impl; [done|]. naive_solver.
  - intros [(c & o & He & Ho & Ht) (Hnd & Hlen & Hhex) Hid Hst (v & w & items & ids & Hv & Hw & Hi & Hf & Hp)].
    exists (list_to_set ids). split; [|by rewrite elem_of_list_to_set, Hp].
    assert (content_object e = Ok v) as Hct.
    { destruct Hst as (v' & ? & Hv' & Hob & _). apply content_object_ok. rewrite Hv in Hv'. by injection Hv' as <-. }
    apply validate_invalid_ack_ok; [done|]. exists c, o, v, ids.
    assert (forall x, x ∈ ids -> is_lower_hex x 64 = true) as Hh by (intros x; rewrite Hp; apply Hhex).
    split_and!; try done.
    + split_and!; try done. intros E. rewrite E in Hid. by apply not_elem_of_nil in Hid.
    + by apply (states_field_status e v).
    + exists w, items. split_and!; try done.
      * by rewrite (Forall2_length _ _ _ Hf), Hp.
      * clear -Hf Hh. induction Hf as [|x y xs ys Hxy _ IH]; constructor; [split; [done|apply Hh; left]|].
        apply IH. intros z Hz. apply Hh. by right.
    + by rewrite Hp.
    + apply set_eq. intros x. by rewrite !elem_of_list_to_set, Hp.
    + intros x. rewrite Hp. intros Hx. apply check_ack_target_ok; [done|by apply Ht].
Qed.

Lemma push_entries {A} (x : A) (m : gmap string (list A)) l id :
  NoDup l ->
  foldl (push_entry x) m l !! id = if decide (id ∈ l) then Some (default [] (m !! id) ++ [x]) else m !! id.
Proof.
  intros Hnd. revert m. induction Hnd as [|y l Hy Hnd IH]; intros m; cbn [foldl].
  - rewrite decide_False; [done|apply not_elem_of_nil].
  - rewrite IH. unfold push_entry. destruct (decide (id = y)) as [->|Hne].
    + rewrite decide_False by done. rewrite decide_True by left. by rewrite lookup_insert_eq.
    + rewrite lookup_insert_ne by done. destruct (decide (id ∈ l)); [rewrite decide_True by (by right)|
        rewrite decide_False by (by rewrite elem_of_cons; intros [|])]; done.
Qed.

Definition acks_id (opens : gmap string InvalidOpenAuthority) (id : string) (e : Event) : bool :=
  match validate_invalid_ack e opens with Ok ids => bool_decide (id ∈ ids) | Err _ => false end.

Lemma acks_fold opens events id :
  accepted_by_open (foldl (ack_step opens) (mkAcks ∅ ∅) events) !! id =
  match List.filter (acks_id opens id) events with [] => None | l => Some l end.
Proof.
  induction events as [|e events IH] using rev_ind; [apply lookup_empty|].
  rewrite foldl_snoc, List.filter_app. unfold ack_step at 1. cbn [List.filter]. unfold acks_id at 2.
  destruct (validate_invalid_ack e opens) as [ids|r]; cbn [accepted_by_open]; [|by rewrite app_nil_r].
  rewrite push_entries by (unfold btree_elements; rewrite sort_by_perm; apply NoDup_elements).
  rewrite IH. unfold btree_elements. case_bool_decide as Hid.
  - rewrite decide_True by (by rewrite elem_of_sort_by, elem_of_elements). by destruct (List.filter _ events).
  - rewrite decide_False by (by rewrite elem_of_sort_by, elem_of_elements). by rewrite app_nil_r.
Qed.

(** The accepted acknowledgments of an open, in order. *)
Lemma accepted_lookup events id :
  id_injective events ->
  exists l, default [] (accepted_by_open (build_invalid_acknowledgments events) !! id) = sort_by event_order l /\
    forall e, e ∈ l <-> e ∈ events /\ acknowledges events id e.
Proof.
  intros Hinj. exists (List.filter (acks_id (invalid_opens_of events) id)
                         (List.filter (has_lifecycle HANDOFF_ACK_INVALID) events)). split.
  - unfold build_invalid_acknowledgments. cbn [accepted_by_open]. rewrite lookup_fmap, acks_fold.
    by destruct (List.filter (acks_id _ _) _).
  - intros e. rewrite !elem_of_filter_b, <-acknowledges_iff by done. unfold acks_id. split.
    + intros [[He _] H]. split; [done|]. destruct (validate_invalid_ack _ _) as [ids|]; [|done].
      exists ids. by rewrite bool_decide_eq_true in H.
    + intros [He (ids & Hv & Hid)]. rewrite Hv. split_and!; [done| |by apply bool_decide_eq_true].
      apply validate_invalid_ack_ok in Hv as (c & ? & ? & ? & Henv & _); [|done]. by eapply envelope_lifecycle.
Qed.

Lemma first_acknowledgment events id :
  id_injective events ->
  match head (default [] (accepted_by_open (build_invalid_acknowledgments events) !! id)) with
  | Some a => first_of (acknowledges events id) events a
  | None => absent (acknowledges events id) events
  end.
Proof.
  intros Hinj. destruct (accepted_lookup events id Hinj) as (l & -> & Hl).
  destruct (head (sort_by event_order l)) as [a|] eqn:Ha.
  - apply (head_sort_by event_order event_order_total event_order_trans) in Ha as [Ha Hmin].
    apply Hl in Ha as [? ?]. split_and!; [done..|]. intros e' ? ?. by apply Hmin, Hl.
  - intros e He Hack. assert (e ∈ sort_by event_order l) as Hin by (apply elem_of_sort_by, Hl; done).
    destruct (sort_by event_order l); [by apply not_elem_of_nil in Hin|done].
Qed.

Lemma reduce_invalid_eq open events acks reason :
  validate_open open = Err reason ->
  reduce_handoff_with_invalid_acknowledgments open events acks = Some (reduce_invalid open reason acks).
Proof. intros H. unfold reduce_handoff_with_invalid_acknowledgments. by rewrite H. Qed.

(** What the state of an invalid open depends on. *)
Lemma reduce_invalid_congr open reason acks acks' :
  head (default [] (accepted_by_open acks !! to_hex (ev_id open))) =
  head (default [] (accepted_by_open acks' !! to_hex (ev_id open))) ->
  without_ignored (reduce_invalid open reason acks) = without_ignored (reduce_invalid open reason acks').
Proof. intros H. unfold reduce_invalid, without_ignored. simpl. by rewrite H. Qed.

(** ** The order of the journal *)

Lemma acknowledges_members events events' id e :
  (forall x, x ∈ events <-> x ∈ events') -> acknowledges events id e -> acknowledges events' id e.
Proof.
  intros Hm [(c & o & He & Ho & Ht) ? ? ? ?]. split; try done. exists c, o. split_and!; try done.
  intros t (x & Hx & ?)%Ht. exists x. by rewrite <-Hm.
Qed.

Lemma first_acknowledgment_members events events' id :
  id_injective events -> (forall x, x ∈ events <-> x ∈ events') ->
  head (default [] (accepted_by_open (build_invalid_acknowledgments events) !! id)) =
  head (default [] (accepted_by_open (build_invalid_acknowledgments events') !! id)).
Proof.
  intros Hinj Hm. assert (id_injective events') as Hinj' by (intros a b; rewrite <-!Hm; apply Hinj).
  assert (forall x, acknowledges events id x <-> acknowledges events' id x) as Hack.
  { intros x. split; apply acknowledges_members; [done|]. intros y. by rewrite Hm. }
  pose proof (first_acknowledgment events id Hinj) as H. pose proof (first_acknowledgment events' id Hinj') as H'.
  destruct (head _) as [a|], (head _) as [a'|].
  - f_equal. destruct H as (Ha & Pa & Ma), H' as (Ha' & Pa' & Ma').
    apply Hm in Ha'. apply Hinj; [done..|]. apply event_order_ids; [apply Ma; [done|by apply Hack]|].
    apply Ma'; [by apply Hm|by apply Hack].
  - destruct H as (Ha & Pa & _). exfalso. apply (H' a); [by apply Hm|by apply Hack].
  - destruct H' as (Ha & Pa & _). exfalso. apply (H a'); [by apply Hm|by apply Hack].
  - done.
Qed.

Lemma reduce_members open events events' :
  id_injective events -> (forall x, x ∈ events <-> x ∈ events') ->
  without_ignored <$> reduce_handoff open events = without_ignored <$> reduce_handoff open events'.
Proof.
  intros Hinj Hm. assert (id_injective events') as Hinj' by (intros a b; rewrite <-!Hm; apply Hinj).
  unfold reduce_handoff. destruct (validate_open open) as [authority|reason] eqn:Ho.
  - eapply reduce_agree; [done..|]. intros e _. apply Hm.
  - rewrite !(reduce_invalid_eq open _ _ reason) by done. cbn [fmap option_fmap option_map]. f_equal.
    apply reduce_invalid_congr. by apply first_acknowledgment_members.
Qed.

Lemma reduce_total open events : id_injective events -> is_Some (reduce_handoff open events).
Proof.
  intros Hinj. unfold reduce_handoff. destruct (validate_open open) as [authority|reason] eqn:Ho.
  - destruct (reduce_spec open events (build_invalid_acknowledgments events) authority Hinj Ho)
      as (? & ? & ? & ? & ? & ? & -> & _). by eexists.
  - rewrite (reduce_invalid_eq open _ _ reason) by done. by eexists.
Qed.

Lemma reduce_open_id open events s :
  id_injective events -> reduce_handoff open events = Some s -> hs_open_id s = to_hex (ev_id open).
Proof.
  intros Hinj. unfold reduce_handoff. destruct (validate_open open) as [authority|reason] eqn:Ho.
  - destruct (reduce_spec open events (build_invalid_acknowledgments events) authority Hinj Ho)
      as (? & ? & ? & ? & ? & ? & -> & _). intros [= <-]. simpl. revert Ho. unfold validate_open.
    repeat (case_match; try done). by intros [= <-].
  - rewrite (reduce_invalid_eq open _ _ reason) by done. by intros [= <-].
Qed.

Lemma map_opt_some {A B} (f : A -> option B) (l : list A) :
  (forall x, x ∈ l -> is_Some (f x)) -> exists ys, map_opt f l = Some ys /\ Forall2 (fun x y => f x = Some y) l ys.
Proof.
  induction l as [|x l IH]; intros H; simpl; [by eexists|].
  destruct (H x) as [y Hy]; [left|]. destruct IH as (ys & -> & Hys); [intros z Hz; apply H; by right|].
  rewrite Hy. eexists. split; [done|]. by constructor.
Qed.

Lemma state_order_total a b : state_order a b = true \/ state_order b a = true.
Proof. unfold state_order. destruct (str_leb_total (hs_open_id a) (hs_open_id b)) as [-> | ->]; lia. Qed.

Lemma state_order_trans a b c : state_order a b = true -> state_order b c = true -> state_order a c = true.
Proof.
  unfold state_order. intros [H1|[H1 L1]%andb_true_iff]%orb_true_iff [H2|[H2 L2]%andb_true_iff]%orb_true_iff; try lia.
  rewrite (str_leb_trans _ _ _ L1 L2). lia.
Qed.

Lemma sort_by_fmap {A B} (f : A -> B) (le : A -> A -> bool) (le' : B -> B -> bool) l :
  (forall x y, le' (f x) (f y) = le x y) -> f <$> sort_by le l = sort_by le' (f <$> l).
Proof.
  intros H. induction l as [|x l IH]; [done|]. rewrite fmap_cons. cbn [sort_by]. rewrite <-IH. clear IH.
  induction (sort_by le l) as [|y s IHs]; [done|]. rewrite fmap_cons. cbn [insert_by]. rewrite H.
  destruct (le x y); [done|]. by rewrite fmap_cons, IHs.
Qed.

(** The opens that [main] reduces. *)
Definition selected_opens (selected : option string) (events : list Event) : list Event :=
  List.filter (fun e => match selected with Some id => String.eqb id (to_hex (ev_id e)) | None => true end)
    (List.filter (has_lifecycle HANDOFF_OPEN) events).

(** [main] reports one state per selected open. *)
Lemma handoff_states_some selected events :
  id_injective events ->
  exists states, Forall2 (fun e s => reduce_handoff e events = Some s) (selected_opens selected events) states /\
    handoff_states selected events = Some (sort_by state_order states).
Proof.
  intros Hinj. destruct (map_opt_some (fun e => reduce_handoff e events) (selected_opens selected events))
    as (ys & Hys & Hf); [intros; by apply reduce_total|].
  exists ys. split; [done|]. unfold handoff_states. unfold selected_opens in Hys. by rewrite Hys.
Qed.

Lemma states_omap events opens states :
  Forall2 (fun e s => reduce_handoff e events = Some s) opens states ->
  without_ignored <$> states = omap (fun e => without_ignored <$> reduce_handoff e events) opens.
Proof. induction 1 as [|e s opens states He _ IH]; [done|]. rewrite fmap_cons, IH. cbn. by rewrite He. Qed.

End handoff.

(** ** The properties *)

(** C13: the reducer always returns and reports the specified state of a valid
    open: without claims it is open; with claims of two authors it is a conflict
    that lists the first claim of each; otherwise the first claim is accepted,
    the last return of the claimant counts, and the first close of that return
    by the opener's owner closes it. *)
Theorem handoff_lifecycle `{NL : NostrLib, SJ : SerdeJson, SC : SchnorrLib} (open : Event) (events : list Event) authority :
  id_injective events -> validate_open open = Ok authority ->
  exists phase claim returned close ids ignored,
    reduce_handoff open events = Some (state_from_authority authority phase claim returned close ids ignored) /\
    handoff_spec authority events phase claim returned close ids.
Proof. apply reduce_spec. Qed.

(** An invalid open can be settled only by its owner: the reducer reports it
    acknowledged exactly when the journal holds an acknowledgment that names it,
    posted later by the identity that owns it, and it names the first of them;
    otherwise it stays invalid.  No claim, return or close is reported. *)
Theorem invalid_open_lifecycle `{NL : NostrLib, SJ : SerdeJson, SC : SchnorrLib} (open : Event) (events : list Event) reason :
  id_injective events -> validate_open open = Err reason ->
  exists s ack, reduce_handoff open events = Some s /\
    match ack with
    | Some a => first_of (acknowledges events (to_hex (ev_id open))) events a /\ hs_state s = HS_AcknowledgedInvalid /\
        hs_updated_at s = ev_created_at a
    | None => absent (acknowledges events (to_hex (ev_id open))) events /\ hs_state s = HS_Invalid /\
        hs_updated_at s = ev_created_at open
    end /\
    hs_acknowledgment_id s = (fun a => to_hex (ev_id a)) <$> ack /\
    head (hs_ignored s) = Some (mkIgnored (to_hex (ev_id open)) reason) /\
    hs_claim_id s = None /\ hs_return_id s = None /\ hs_close_id s = None /\ hs_conflicting_claims s = [].
Proof.
  intros Hinj Ho. unfold reduce_handoff. rewrite (reduce_invalid_eq open _ _ reason) by done.
  eexists _, _. split; [done|]. pose proof (first_acknowledgment events (to_hex (ev_id open)) Hinj) as H.
  split; [|by split_and!]. simpl. by destruct (head _).
Qed.


(** A party without authority cannot influence a handoff: adding any event
    whose author is not an allowed claimant and whose owner is not the opener's
    owner leaves the reported state as it was, apart from the notes on ignored
    events. *)
Theorem handoff_noninterference `{NL : NostrLib, SJ : SerdeJson, SC : SchnorrLib} (open e : Event) (events : list Event) authority :
  id_injective (e :: events) -> validate_open open = Ok authority ->
  ~ ev_pubkey e ∈ oa_allowed_claimants authority -> event_owner e <> Ok (oa_opener_owner_pubkey authority) ->
  without_ignored <$> reduce_handoff open (e :: events) = without_ignored <$> reduce_handoff open events.
Proof.
  intros Hinj Ho Hna How. eapply reduce_agree; [done| |done|].
  - intros a b Ha Hb. apply Hinj; by right.
  - intros x Hx. rewrite elem_of_cons. split; [|by right]. intros [->|]; [|done]. exfalso.
    destruct Hx as [[]|[(c & [] & [])|(r & [])]]; congruence.
Qed.

(** ** Witnesses *)

Definition demo_claimant : PublicKey := "00000000000000001111111111111111aaaaaaaaaaaaaaaa9999999999999999".

Definition handoff_event (id author : string) (at_ : N) (phase : string) (tags : list Tag) : Event :=
  demo_event id author at_ 1 ([["t"; phase]; ["h"; "work"]] ++ tags).

Definition demo_open : Event := handoff_event "handoff-open" "boss" 10 HANDOFF_OPEN [["p"; demo_claimant]].
Definition demo_claim : Event :=
  handoff_event "handoff-claim" demo_claimant 11 HANDOFF_CLAIM [["e"; "handoff-open"; EmptyString; "root"]].
Definition demo_return : Event :=
  handoff_event "handoff-return" demo_claimant 12 HANDOFF_RETURN
    [["e"; "handoff-open"; EmptyString; "root"]; ["e"; "handoff-claim"; EmptyString; "claim"]].
Definition demo_close : Event :=
  handoff_event "handoff-close" "boss" 13 HANDOFF_CLOSE
    [["e"; "handoff-open"; EmptyString; "root"]; ["e"; "handoff-return"; EmptyString; "return"]].
(** A close by somebody else. *)
Definition demo_forged_close : Event :=
  handoff_event "handoff-close#2" "mallory" 13 HANDOFF_CLOSE
    [["e"; "handoff-open"; EmptyString; "root"]; ["e"; "handoff-return"; EmptyString; "return"]].
(** An open whose content is not JSON, and its acknowledgment. *)
Definition demo_broken_open : Event := handoff_event demo_digest "boss" 20 HANDOFF_OPEN [["p"; demo_claimant]].
Definition demo_ack : Event :=
  handoff_event "handoff-ack" "boss" 21 HANDOFF_ACK_INVALID [["e"; demo_digest; EmptyString; "invalid"]].

Definition demo_handoff : list Event :=
  [demo_close; demo_claim; demo_open; demo_return; demo_ack; demo_broken_open].

Definition phase_of (r : option HandoffState) : option LifecycleState := hs_state <$> r.

Example demo_phases :
  (phase_of (reduce_handoff demo_open demo_handoff), phase_of (reduce_handoff demo_open [demo_open; demo_return; demo_claim]),
   phase_of (reduce_handoff demo_open [demo_claim]), phase_of (reduce_handoff demo_open [demo_return; demo_close]),
   phase_of (reduce_handoff demo_broken_open demo_handoff), phase_of (reduce_handoff demo_broken_open [demo_broken_open]),
   phase_of (reduce_handoff demo_open [demo_claim; demo_return; demo_forged_close])) =
  (Some HS_Closed, Some HS_Returned, Some HS_Claimed, Some HS_Open, Some HS_AcknowledgedInvalid, Some HS_Invalid,
   Some HS_Returned).
Proof. vm_compute. reflexivity. Qed.

Lemma demo_handoff_injective : id_injective (demo_forged_close :: demo_handoff).
Proof.
  intros e1 e2 H1 H2. unfold demo_handoff in H1, H2. case_members; vm_compute; intros E; (reflexivity || discriminate E).
Qed.

Lemma demo_handoff_injective' : id_injective demo_handoff.
Proof. intros e1 e2 H1 H2. apply demo_handoff_injective; by right. Qed.

Definition demo_authority : OpenAuthority :=
  mkAuthority "handoff-open" "Port the parser" "work" "boss" "boss" {[demo_claimant]} 10.

Lemma demo_open_valid : validate_open demo_open = Ok demo_authority.
Proof. vm_compute. reflexivity. Qed.

Lemma handoff_lifecycle_witness :
  exists phase claim returned close ids ignored,
    reduce_handoff demo_open demo_handoff =
      Some (state_from_authority demo_authority phase claim returned close ids ignored) /\
    handoff_spec demo_authority demo_handoff phase claim returned close ids.
Proof. exact (handoff_lifecycle demo_open demo_handoff demo_authority demo_handoff_injective' demo_open_valid). Defined.

Lemma invalid_open_lifecycle_witness :
  validate_open demo_broken_open = Err "event content is not JSON" /\
  exists s, reduce_handoff demo_broken_open demo_handoff = Some s /\ hs_claim_id s = None.
Proof.
  assert (validate_open demo_broken_open = Err "event content is not JSON") as Hv by (vm_compute; reflexivity).
  split; [exact Hv|].
  destruct (invalid_open_lifecycle demo_broken_open demo_handoff _ demo_handoff_injective' Hv)
    as (s & ack & Hs & _ & _ & _ & Hc & _).
  exists s. split; [exact Hs|exact Hc].
Defined.


Lemma handoff_noninterference_witness :
  without_ignored <$> reduce_handoff demo_open (demo_forged_close :: demo_handoff) =
  without_ignored <$> reduce_handoff demo_open demo_handoff.
Proof.
  apply (handoff_noninterference demo_open demo_forged_close demo_handoff demo_authority demo_handoff_injective demo_open_valid).
  - cbn [oa_allowed_claimants demo_authority]. rewrite elem_of_singleton. vm_compute. discriminate.
  - vm_compute. discriminate.
Defined.
