(* ===== verification/ArtifactSync.v ===== *)
(** * Fetching referenced artifacts

    [buzz-local-relay/src/bin/buzz-artifact-sync.rs]: the arguments, the
    content references of a journal, and the walk that probes the local store
    for each, fetches what is missing from a peer, verifies and stores it.  The
    two artifact stores are an interface, [ArtifactNode]; the relay is one. *)

From S2P Require Import Prelude Text Nostr Demo Kinds Ingest FilterMatch Store StoreTheory Replication.
From S2P Require Import Auth Identity Declarations Relay RelayApi Session Push Pull RelayTheory SessionTheory Node Scenarios Handoff.

(** ** Arguments *)

Record SyncConfig := mkSyncConfig {
  sy_data : string;
  sy_from : string;
  sy_to : string;
  sy_source_key_file : string;
  sy_destination_key_file : string;
  sy_dry_run : bool;
}.

Record SyncArgs := mkSyncArgs {
  sa_data : option string;
  sa_from : option string;
  sa_to : option string;
  sa_collapsed_key_file : option string;
  sa_source_key_file : option string;
  sa_destination_key_file : option string;
  sa_dry_run : bool;
}.

Definition sync_read_arg (arg : string) (args : list string) (a : SyncArgs) : result ArgsError (SyncArgs * list string) :=
  let '(mkSyncArgs data f t k s d dry) := a in
  if String.eqb arg "--data" then take_value args arg (fun v => Ok (mkSyncArgs (Some v) f t k s d dry))
  else if String.eqb arg "--from" then take_value args arg (fun v => Ok (mkSyncArgs data (Some v) t k s d dry))
  else if String.eqb arg "--to" then take_value args arg (fun v => Ok (mkSyncArgs data f (Some v) k s d dry))
  else if String.eqb arg "--key" then take_value args arg (fun v => Ok (mkSyncArgs data f t (Some v) s d dry))
  else if String.eqb arg "--source-key" then take_value args arg (fun v => Ok (mkSyncArgs data f t k (Some v) d dry))
  else if String.eqb arg "--destination-key" then take_value args arg (fun v => Ok (mkSyncArgs data f t k s (Some v) dry))
  else if String.eqb arg "--dry-run" then Ok (mkSyncArgs data f t k s d true, args)
  else if is_help arg then Err HelpPrinted
  else Err (BadArgument ("unknown argument: " +:+ arg)).

Fixpoint sync_read_args (fuel : nat) (args : list string) (a : SyncArgs) : result ArgsError SyncArgs :=
  match fuel, args with
  | S fuel, arg :: rest => let? x := sync_read_arg arg rest a in sync_read_args fuel x.2 x.1
  | _, _ => Ok a
  end.

(** Which key signs the reads at the peer and which the local requests. *)
Definition sync_key_roles (collapsed source destination : option string) : result ArgsError (string * string) :=
  match collapsed, source, destination with
  | Some key, None, None => Ok (key, key)
  | None, Some source, Some destination => Ok (source, destination)
  | Some _, Some _, _ | Some _, _, Some _ => Err (BadArgument "--key cannot be combined with --source-key or --destination-key")
  | None, Some _, None | None, None, Some _ => Err (BadArgument "--source-key and --destination-key must be provided together")
  | None, None, None => Err (BadArgument "provide --source-key and --destination-key (or legacy --key)")
  end.

Definition from_iter (args : list string) : result ArgsError SyncConfig :=
  let? a := sync_read_args (length args) args (mkSyncArgs None None None None None None false) in
  let? keys := sync_key_roles (sa_collapsed_key_file a) (sa_source_key_file a) (sa_destination_key_file a) in
  let? data := required (sa_data a) "--data <journal path>" in
  let? from := required (sa_from a) "--from <peer base URL>" in
  let? to := required (sa_to a) "--to <local base URL>" in
  Ok (mkSyncConfig data (trim_end_matches "/" from) (trim_end_matches "/" to) keys.1 keys.2 (sa_dry_run a)).

(** ** References *)

Section references.
Context `{SJ : SerdeJson}.

(** The content address an [x] tag carries. *)
Definition tag_reference (t : Tag) : option string :=
  if bool_decide (t !! 0 = Some "x") then
    value ← t !! 1;
    let value := to_ascii_lowercase value in
    if (String.length value =? 64)%nat && str_forallb is_ascii_hexdigit value then Some value else None
  else None.

Definition line_references (line : string) : list string :=
  match event_from_str line with
  | Ok e => omap tag_reference (ev_tags e)
  | Err _ => []
  end.

Definition referenced_hashes (journal : string) : gset string :=
  list_to_set (List.filter (fun line => negb (Lines.trim_is_empty line)) (Lines.lines journal) ≫= line_references).

Lemma referenced_spec text h :
  h ∈ referenced_hashes text <->
  exists line e t v, line ∈ Lines.lines text /\ Lines.trim_is_empty line = false /\ event_from_str line = Ok e /\ t ∈ ev_tags e /\
    t !! 0 = Some "x" /\ t !! 1 = Some v /\ h = to_ascii_lowercase v /\ String.length h = 64 /\ str_forallb is_ascii_hexdigit h = true.
Proof.
  unfold referenced_hashes. rewrite elem_of_list_to_set, list_elem_of_bind. split.
  - intros (line & Hh & [Hl Hb%negb_true_iff]%elem_of_filter_b). unfold line_references in Hh.
    destruct (event_from_str line) as [e|] eqn:Ee; [|set_solver]. apply list_elem_of_omap in Hh as (t & Ht & Hr).
    unfold tag_reference in Hr. case_bool_decide as Hx; [|done]. destruct (t !! 1) as [v|] eqn:Ev; [|done]. cbn in Hr.
    destruct (String.length _ =? 64)%nat eqn:El; [|done]. apply Nat.eqb_eq in El.
    destruct (str_forallb _ _) eqn:Ef; [|done]. injection Hr as <-. exists line, e, t, v. by split_and!.
  - intros (line & e & t & v & Hl & Hb & He & Ht & Hx & Hv & -> & Hlen & Hf). exists line. split.
    + unfold line_references. rewrite He. apply list_elem_of_omap. exists t. split; [done|]. unfold tag_reference.
      rewrite bool_decide_true, Hv by done. cbn. by rewrite Hlen, Hf.
    + apply elem_of_filter_b. by rewrite Hb.
Qed.
End references.

(** ** Artifact stores *)

(** What comes of a request: no answer, or a status and a body that may break
    off. *)
Inductive HttpAnswer (A : Type) :=
| NoAnswer (error : string)
| Answer (status : N) (body : result string A).
Arguments NoAnswer {A} error.
Arguments Answer {A} status body.

Definition status_success (status : N) : bool := (200 <=? status)%N && (status <? 300)%N.

(** [HEAD /artifacts/{hash}], [GET /artifacts/{hash}] and [POST /artifacts],
    signed with the key of the side that is asked. *)
Class ArtifactNode (S : Type) := {
  head_artifact : S -> string -> S * HttpAnswer unit;
  fetch_artifact : S -> string -> S * HttpAnswer string;
  store_artifact : S -> string -> S * HttpAnswer unit;
}.

(** What the local store promises: what it says it holds it holds, bytes under
    their own digest, and it keeps them. *)
Class ArtifactLaws (S : Type) `{NostrLib, ArtifactNode S} := {
  artifact : S -> string -> string -> Prop;
  artifact_exact : forall s h b, artifact s h b -> sha256_hex b = h;
  head_held : forall s h s' st b, head_artifact s h = (s', Answer st b) -> status_success st = true ->
    exists v, artifact s' (to_ascii_lowercase h) v;
  store_held : forall s bytes s' st b, store_artifact s bytes = (s', Answer st b) -> status_success st = true ->
    exists v, artifact s' (sha256_hex bytes) v;
  head_keeps : forall s h s' a k v, head_artifact s h = (s', a) -> artifact s k v -> artifact s' k v;
  store_keeps : forall s bytes s' a k v, store_artifact s bytes = (s', a) -> artifact s k v -> artifact s' k v;
}.

(** ** The walk *)

Inductive SyncError :=
| ProbeFailed (error : string)
| PeerFetchFailed (error : string)
| BodyFailed (error : string)
| VerificationFailed (expected actual : string)
| StoreFailed (error : string)
| StoreRejected (hash : string) (status : N).

(** The lines a run prints. *)
Inductive SyncLine :=
| Missing (hash : string)
| Skipped (hash : string) (status : N)
| FetchedHash (hash : string).

Record SyncState (L R : Type) := mkSyncState {
  ss_local : L;
  ss_peer : R;
  ss_fetched : nat;
  ss_present : nat;
  ss_lines : list SyncLine;
}.
Arguments mkSyncState {L R} _ _ _ _ _.
Arguments ss_local {L R} _.
Arguments ss_peer {L R} _.
Arguments ss_fetched {L R} _.
Arguments ss_present {L R} _.
Arguments ss_lines {L R} _.

Section walk.
Context `{NL : NostrLib, SJ : SerdeJson} {L R : Type} `{!ArtifactNode L, !ArtifactNode R}.

Definition sync_local (st : SyncState L R) (l : L) : SyncState L R :=
  mkSyncState l (ss_peer st) (ss_fetched st) (ss_present st) (ss_lines st).
Definition sync_peer (st : SyncState L R) (p : R) : SyncState L R :=
  mkSyncState (ss_local st) p (ss_fetched st) (ss_present st) (ss_lines st).
Definition sync_print (st : SyncState L R) (line : SyncLine) : SyncState L R :=
  mkSyncState (ss_local st) (ss_peer st) (ss_fetched st) (ss_present st) (ss_lines st ++ [line]).
Definition count_present (st : SyncState L R) : SyncState L R :=
  mkSyncState (ss_local st) (ss_peer st) (ss_fetched st) (S (ss_present st)) (ss_lines st).
Definition count_fetched (st : SyncState L R) : SyncState L R :=
  mkSyncState (ss_local st) (ss_peer st) (S (ss_fetched st)) (ss_present st) (ss_lines st).

(** Verified bytes into the local store. *)
Definition sync_store (hash bytes : string) (st : SyncState L R) : SyncState L R * result SyncError unit :=
  let actual := sha256_hex bytes in
  if negb (String.eqb actual hash) then (st, Err (VerificationFailed hash actual))
  else
    match store_artifact (ss_local st) bytes with
    | (l, NoAnswer error) => (sync_local st l, Err (StoreFailed error))
    | (l, Answer status _) =>
        if negb (status_success status) then (sync_local st l, Err (StoreRejected hash status))
        else (count_fetched (sync_print (sync_local st l) (FetchedHash hash)), Ok tt)
    end.

(** A hash that is not held: asked of the peer. *)
Definition sync_fetch (hash : string) (st : SyncState L R) : SyncState L R * result SyncError unit :=
  match fetch_artifact (ss_peer st) hash with
  | (p, NoAnswer error) => (sync_peer st p, Err (PeerFetchFailed error))
  | (p, Answer status body) =>
      let st := sync_peer st p in
      if negb (status_success status) then (sync_print st (Skipped hash status), Ok tt)
      else match body with
           | Err error => (st, Err (BodyFailed error))
           | Ok bytes => sync_store hash bytes st
           end
  end.

(** One pass of the loop. *)
Definition sync_hash (dry_run : bool) (hash : string) (st : SyncState L R) : SyncState L R * result SyncError unit :=
  match head_artifact (ss_local st) hash with
  | (l, NoAnswer error) => (sync_local st l, Err (ProbeFailed error))
  | (l, Answer status _) =>
      let st := sync_local st l in
      if status_success status then (count_present st, Ok tt)
      else if dry_run then (sync_print st (Missing hash), Ok tt)
      else sync_fetch hash st
  end.

Fixpoint sync_hashes (dry_run : bool) (hashes : list string) (st : SyncState L R) : SyncState L R * result SyncError unit :=
  match hashes with
  | [] => (st, Ok tt)
  | hash :: rest =>
      match sync_hash dry_run hash st with
      | (st, Err error) => (st, Err error)
      | (st, Ok _) => sync_hashes dry_run rest st
      end
  end.

Definition sync_main (dry_run : bool) (journal : string) (l : L) (p : R) : SyncState L R * result SyncError unit :=
  sync_hashes dry_run (btree_elements (referenced_hashes journal)) (mkSyncState l p 0 0 []).
End walk.

(** ** What a run achieves *)

Section walk_theory.
Context `{NL : NostrLib, SJ : SerdeJson} {L R : Type} `{AL : !ArtifactNode L, LL : !ArtifactLaws L, AR : !ArtifactNode R}.

(** A hash is settled: its bytes are held, or the peer's refusal was printed. *)
Definition settled (st : SyncState L R) (h : string) : Prop :=
  (exists v, artifact (ss_local st) h v) \/ (exists status, Skipped h status ∈ ss_lines st).

(** What one pass, or many, may do to the state. *)
Definition sync_step (dry_run : bool) (st st' : SyncState L R) : Prop :=
  (forall k v, artifact (ss_local st) k v -> artifact (ss_local st') k v) /\
  (exists new, ss_lines st' = ss_lines st ++ new /\
     Forall (fun x => match x with Missing _ => dry_run = true | Skipped _ s => status_success s = false /\ dry_run = false | FetchedHash _ => dry_run = false end) new) /\
  (dry_run = true -> ss_peer st' = ss_peer st /\ ss_fetched st' = ss_fetched st).

Lemma sync_step_refl d st : sync_step d st st.
Proof using Type. split_and!; [done| |done]. exists []. by rewrite app_nil_r. Qed.

Lemma sync_step_trans d st1 st2 st3 : sync_step d st1 st2 -> sync_step d st2 st3 -> sync_step d st1 st3.
Proof using Type.
  intros (H1 & (n1 & E1 & F1) & P1) (H2 & (n2 & E2 & F2) & P2). split_and!; [by eauto| |].
  - exists (n1 ++ n2). rewrite E2, E1, app_assoc. split; [done|]. apply Forall_app. by split.
  - intros Hd. destruct (P1 Hd), (P2 Hd). split; congruence.
Qed.

Lemma settled_step d st st' h : sync_step d st st' -> settled st h -> settled st' h.
Proof using Type.
  intros (H1 & (new & E & _) & _) [[v Hv]|[s Hs]]; [left; eauto|right]. exists s. rewrite E. apply elem_of_app. by left.
Qed.

Lemma sync_hash_step d h st st' res :
  to_ascii_lowercase h = h -> sync_hash d h st = (st', res) -> sync_step d st st' /\ (res = Ok tt -> d = false -> settled st' h).
Proof using Type.
  intros Hlow. unfold sync_hash. destruct (head_artifact _ _) as [l [error|status body]] eqn:Eh.
  { intros [= <- <-]. split; [|done]. split_and!; [intros k v; exact (head_keeps _ _ _ _ k v Eh)| |done]. exists []. by rewrite app_nil_r. }
  assert (sync_step d st (sync_local st l)) as Hs1.
  { split_and!; [intros k v; exact (head_keeps _ _ _ _ k v Eh)| |done]. exists []. by rewrite app_nil_r. }
  destruct (status_success status) eqn:Est.
  { intros [= <- <-]. split; [exact Hs1|]. intros _ _. left. destruct (head_held _ _ _ _ _ Eh Est) as [v Hv]. exists v. by rewrite Hlow in Hv. }
  destruct d.
  { intros [= <- <-]. split; [|done]. destruct Hs1 as (H1 & _ & _). split_and!; [exact H1| |done]. exists [Missing h]. split; [done|by repeat constructor]. }
  assert (forall p, sync_step false st (sync_peer (sync_local st l) p)) as Hs2 by (intros p; destruct Hs1 as (H1 & H2 & _); by split_and!).
  unfold sync_fetch. destruct (fetch_artifact _ h) as [p [error|st2 body2]] eqn:Ef; [intros [= <- <-]; split; [exact (Hs2 p)|done]|].
  destruct (status_success st2) eqn:Es2; cbn [negb].
  2: { intros [= <- <-]. split.
       - destruct Hs1 as (H1 & _ & _). split_and!; [exact H1| |done]. exists [Skipped h st2]. split; [done|by repeat constructor].
       - intros _ _. right. exists st2. cbn. apply elem_of_app. right. by apply list_elem_of_singleton. }
  destruct body2 as [bytes|error]; [|intros [= <- <-]; split; [exact (Hs2 p)|done]].
  unfold sync_store. destruct (String.eqb_spec (sha256_hex bytes) h) as [Hh|]; cbn [negb]; [|intros [= <- <-]; split; [exact (Hs2 p)|done]].
  destruct (store_artifact _ bytes) as [l2 [error|st3 b3]] eqn:Ep.
  all: cbn in Ep; pose proof (fun k v => store_keeps _ _ _ _ k v Ep) as Hk; destruct Hs1 as (H1 & _ & _); cbn in H1.
  { intros [= <- <-]. split; [|done]. split_and!; [by eauto| |done]. exists []. by rewrite app_nil_r. }
  destruct (status_success st3) eqn:Es3; cbn [negb]; intros [= <- <-]; (split; [split_and!; [by eauto| |done]|]); try done.
  - exists [FetchedHash h]. split; [done|by repeat constructor].
  - intros _ _. left. destruct (store_held _ _ _ _ _ Ep Es3) as [v Hv]. exists v. by rewrite Hh in Hv.
  - exists []. by rewrite app_nil_r.
Qed.

Lemma sync_hashes_step d hs st st' res :
  Forall (fun h => to_ascii_lowercase h = h) hs -> sync_hashes d hs st = (st', res) ->
  sync_step d st st' /\ (res = Ok tt -> d = false -> forall h, h ∈ hs -> settled st' h).
Proof using Type.
  revert st. induction hs as [|h hs IH]; intros st Hlow; cbn [sync_hashes].
  { intros [= <- <-]. split; [apply sync_step_refl|]. by intros _ _ h ?%not_elem_of_nil. }
  apply Forall_cons in Hlow as [Hh Hlow]. destruct (sync_hash d h st) as [st1 [[]|error]] eqn:E; destruct (sync_hash_step _ _ _ _ _ Hh E) as [Hs1 Hset].
  2: { intros [= <- <-]. by split. }
  intros Hrun. destruct (IH _ Hlow Hrun) as [Hs2 Hall]. split; [by eapply sync_step_trans|].
  intros Hok Hd x [->|Hx]%elem_of_cons; [|by apply Hall]. eapply settled_step; [exact Hs2|by apply Hset].
Qed.
End walk_theory.

(** ** The relay as an artifact store *)

Section relay_node.
Context `{NL : NostrLib, NLL : !NostrLaws NL, SJ : SerdeJson, UL : UrlLib, SL : SigningLib,
          SLL : !SigningLaws NL SL, HTL : !HttpLib, WL : !WsLib}.

(** A relay whose artifact store is enabled and sound, and how many requests of
    the walk it has served. *)
Record ArtifactRelay := mkArtifactRelay {
  ar_relay : LocalRelay;
  ar_enabled : is_Some (artifacts_dir ar_relay);
  ar_sound : content_addressed ar_relay;
  ar_served : nat;
}.

(** What the [n]-th request meets: the clock and disk, the headers the walker
    sends, and what others ask of the relay before it. *)
Variables (node_env : nat -> RelayEnv) (node_fs : nat -> result string unit).
Variable node_headers : nat -> string -> string -> string -> Headers.
Variable others : nat -> LocalRelay -> LocalRelay.
Hypothesis others_requests : forall n r, rtc request r (others n r).

Lemma later_sound (g : ArtifactRelay) r' :
  rtc request (ar_relay g) r' -> is_Some (artifacts_dir r') /\ content_addressed r'.
Proof using SLL.
  destruct g as [r [dir Hd] Hs n]. cbn. intros Hr. destruct (requests_artifacts _ _ _ Hr Hd Hs) as (dir' & -> & _ & ?). by split.
Qed.

Definition later (g : ArtifactRelay) (r' : LocalRelay) (H : rtc request (ar_relay g) r') : ArtifactRelay :=
  mkArtifactRelay r' (proj1 (later_sound g r' H)) (proj2 (later_sound g r' H)) (S (ar_served g)).

Definition answer {A B} (f : A -> B) (r : result ApiError A) : HttpAnswer B :=
  match r with
  | Ok a => Answer 200 (Ok (f a))
  | Err e => Answer (api_status e) (Err (api_error_to_string e))
  end.

Definition relay_head (r : LocalRelay) (n : nat) (h : string) : LocalRelay * result ApiError unit :=
  artifact_head (node_env n) (node_fs n) (others n r) h (node_headers n "GET" ("/artifacts/" +:+ h) EmptyString).
Definition relay_fetch (r : LocalRelay) (n : nat) (h : string) : LocalRelay * result ApiError string :=
  artifact_fetch (node_env n) (node_fs n) (others n r) h (node_headers n "GET" ("/artifacts/" +:+ h) EmptyString).
Definition relay_upload (r : LocalRelay) (n : nat) (bytes : string) : LocalRelay * result ApiError (string * N) :=
  artifact_upload (node_env n) (node_fs n) (others n r) (node_headers n "POST" "/artifacts" bytes) bytes.

Lemma relay_head_request r n h : rtc request r (relay_head r n h).1.
Proof using others_requests. eapply rtc_r; [apply others_requests|]. eapply rq_head. apply surjective_pairing. Qed.
Lemma relay_fetch_request r n h : rtc request r (relay_fetch r n h).1.
Proof using others_requests. eapply rtc_r; [apply others_requests|]. eapply rq_fetch. apply surjective_pairing. Qed.
Lemma relay_upload_request r n b : rtc request r (relay_upload r n b).1.
Proof using others_requests. eapply rtc_r; [apply others_requests|]. eapply rq_upload. apply surjective_pairing. Qed.

Instance relay_artifacts : ArtifactNode ArtifactRelay := {|
  head_artifact g h :=
    (later g (relay_head (ar_relay g) (ar_served g) h).1 (relay_head_request (ar_relay g) (ar_served g) h),
     answer id (relay_head (ar_relay g) (ar_served g) h).2);
  fetch_artifact g h :=
    (later g (relay_fetch (ar_relay g) (ar_served g) h).1 (relay_fetch_request (ar_relay g) (ar_served g) h),
     answer id (relay_fetch (ar_relay g) (ar_served g) h).2);
  store_artifact g b :=
    (later g (relay_upload (ar_relay g) (ar_served g) b).1 (relay_upload_request (ar_relay g) (ar_served g) b),
     answer (fun _ => tt) (relay_upload (ar_relay g) (ar_served g) b).2);
|}.

(** The relay holds [v] under the address [k]. *)
Definition blob (r : LocalRelay) (k v : string) : Prop := exists dir, artifacts_dir r = Some dir /\ dir !! k = Some v.

Lemma blob_kept (g : ArtifactRelay) r' k v : rtc request (ar_relay g) r' -> blob (ar_relay g) k v -> blob r' k v.
Proof using SLL.
  destruct g as [r He Hs n]. cbn. intros Hr (dir & Hd & Hk). destruct (requests_artifacts _ _ _ Hr Hd Hs) as (dir' & Hd' & Hsub & _).
  exists dir'. split; [done|]. by eapply lookup_weaken.
Qed.

Lemma answer_success {A B} (f : A -> B) r st b : answer f r = Answer st b -> status_success st = true -> exists a, r = Ok a.
Proof using Type.
  destruct r as [a|e]; [eauto|]. intros [= <- _] H. exfalso. revert H. destruct e as [[c|]|r|r|er|q]; try done. by destruct c.
Qed.

Lemma artifact_access_dir env r h hd r' k dir :
  artifact_access env r h hd = (r', Ok (k, dir)) -> k = to_ascii_lowercase h /\ artifacts_dir r = Some dir.
Proof using Type.
  unfold artifact_access. destruct (artifacts_dir r) as [d|]; [|done]. destruct (_ || _); [done|].
  destruct (authenticate_http_method _ _ _ _ _ _) as [r0 [p|]]; [|done].
  destruct (authorize_artifact_fetch _ _ _ _) as [[]|]; [|done]. by intros [= _ <- <-].
Qed.

Instance relay_artifact_laws : ArtifactLaws ArtifactRelay.
Proof using SLL.
  refine {| artifact := fun g k v => blob (ar_relay g) k v |}.
  - intros [r He Hs n] h b (dir & Hd & Hb). cbn in Hd. by eapply Hs.
  - intros g h s' st b [= <- Ha] Hst. cbn [ar_relay later]. destruct (answer_success _ _ _ _ Ha Hst) as [u Hu].
    unfold relay_head in *. revert Hu. generalize (relay_head_request (ar_relay g) (ar_served g) h). unfold relay_head, artifact_head.
    destruct (artifact_access _ _ _ _) as [r1 [[k dir]|]] eqn:Ea; [|done]. intros Hreq. cbn [fst snd].
    destruct (node_fs _); [|done]. cbn [map_err]. destruct (dir !! k) as [v|] eqn:Ek; [|done]. intros _.
    destruct (artifact_access_dir _ _ _ _ _ _ _ Ea) as [-> Hd].
    pose proof (later_sound g _ (others_requests (ar_served g) (ar_relay g))) as [He Hs].
    exists v. apply (blob_kept (mkArtifactRelay _ He Hs 0)); [|by exists dir]. cbn. apply rtc_once.
    eapply (rq_head (node_env (ar_served g)) (Err EmptyString)). unfold artifact_head. rewrite Ea. reflexivity.
  - intros g bytes s' st b [= <- Ha] Hst. cbn [ar_relay later]. destruct (answer_success _ _ _ _ Ha Hst) as [[hash size] Hu].
    unfold relay_upload in *. destruct (artifact_upload _ _ _ _ _) as [r1 res] eqn:Eu. cbn in Hu |- *. subst res.
    destruct (artifact_upload_stores _ _ _ _ _ _ _ _ Eu) as (dir & dir1 & Hd & Hd1 & -> & Hnew & Hold).
    destruct (dir !! sha256_hex bytes) as [x|] eqn:Ex.
    + exists x, dir1. split; [done|]. by rewrite Hold by (by eexists).
    + exists bytes, dir1. split; [done|]. rewrite Hnew by done. by rewrite lookup_insert_eq.
  - intros g h s' a k v [= <- _]. apply blob_kept, relay_head_request.
  - intros g h s' a k v [= <- _]. apply blob_kept, relay_upload_request.
Defined.

(** C28: copying artifacts into a local relay, others using the relay meanwhile
    and the peer answering whatever it likes.  Nothing the relay held is lost;
    what it stores hashes to its address; a run that reports success has, for
    every content address an event of the journal references, bytes with that
    digest in the local store, or has printed that the peer refused it; and a
    dry run asks nothing of the peer, and prints only what is missing. *)
Theorem artifact_sync_complete {R : Type} `{!ArtifactNode R} (dry_run : bool) (journal : string) (local : ArtifactRelay) (peer : R)
    (st' : SyncState ArtifactRelay R) (res : result SyncError unit) :
  sync_main dry_run journal local peer = (st', res) ->
  (forall k v, blob (ar_relay local) k v -> blob (ar_relay (ss_local st')) k v) /\
  (res = Ok tt -> dry_run = false -> forall h, h ∈ referenced_hashes journal ->
     (exists v, blob (ar_relay (ss_local st')) h v /\ sha256_hex v = h) \/
     (exists status, Skipped h status ∈ ss_lines st' /\ status_success status = false)) /\
  (dry_run = true -> ss_peer st' = peer /\ ss_fetched st' = 0 /\ Forall (fun x => exists h, x = Missing h) (ss_lines st')).
Proof using SLL others_requests.
  unfold sync_main. intros Hrun.
  assert (Forall (fun h => to_ascii_lowercase h = h) (btree_elements (referenced_hashes journal))) as Hlow.
  { apply Forall_forall. intros h Hh. unfold btree_elements in Hh. rewrite elem_of_sort_by, elem_of_elements in Hh.
    apply referenced_spec in Hh as (_ & _ & _ & v & _ & _ & _ & _ & _ & _ & -> & _). apply lowercase_idem. }
  destruct (sync_hashes_step (LL := relay_artifact_laws) _ _ _ _ _ Hlow Hrun) as [(Hk & (new & El & Hl) & Hdry) Hset].
  cbn in El, Hk. subst new. split_and!.
  - exact Hk.
  - intros Hok Hd h Hh. destruct (Hset Hok Hd h) as [[v Hv]|[s Hs]].
    + unfold btree_elements. by rewrite elem_of_sort_by, elem_of_elements.
    + left. exists v. split; [exact Hv|]. by eapply (artifact_exact (ArtifactLaws := relay_artifact_laws)).
    + right. exists s. split; [done|]. rewrite Forall_forall in Hl. by apply (Hl (Skipped h s)).
  - intros Hd. destruct (Hdry Hd) as [-> ->]. split_and!; [done..|]. eapply Forall_impl; [exact Hl|].
    intros [h|h s|h]; [eauto|intros [_ ?]; congruence|intros ?; congruence].
Qed.
End relay_node.

(** ** Witness: an artifact copied from one relay to another *)

Definition sync_headers (n : nat) (method path body : string) : Headers :=
  signed_headers ("s" +:+ u64_to_string (N.of_nat n)) "alice" method path body.

Lemma no_others (n : nat) (r : LocalRelay) : rtc request r r.
Proof. apply rtc_refl. Qed.

Definition sync_local_node : ArtifactRelay :=
  mkArtifactRelay guarded (mk_is_Some _ ∅ eq_refl) (fun dir k v H Hk => ltac:(injection H as <-; by rewrite lookup_empty in Hk)) 0.

Lemma uploaded_later : rtc request guarded uploaded.1.
Proof.
  apply rtc_once, (rq_upload (env_at 1000) (Ok tt) guarded (signed_headers "u1" "alice" "POST" "/artifacts" "blob") "blob" uploaded.1 uploaded.2).
  unfold uploaded. apply surjective_pairing.
Qed.

Definition sync_peer_node : ArtifactRelay := later sync_local_node uploaded.1 uploaded_later.

Definition sync_journal : string := event_text (demo_event "m1" "alice" 5 1 [["x"; demo_digest]]).

Definition sync_run : SyncState ArtifactRelay ArtifactRelay * result SyncError unit :=
  sync_main (ArtifactNode0 := relay_artifacts (fun _ => env_at 1000) (fun _ => Ok tt) sync_headers (fun _ r => r) no_others)
    (ArtifactNode1 := relay_artifacts (fun _ => env_at 1000) (fun _ => Ok tt) sync_headers (fun _ r => r) no_others)
    false sync_journal sync_local_node sync_peer_node.

#[local] Strategy expand [sync_run].

Lemma artifact_sync_complete_witness :
  sync_run.2 = Ok tt /\ ss_lines sync_run.1 = [FetchedHash demo_digest] /\
  exists v, blob (ar_relay (ss_local sync_run.1)) demo_digest v /\ sha256_hex v = demo_digest.
Proof.
  assert (sync_run.2 = Ok tt) as Hok by (vm_compute; reflexivity).
  assert (ss_lines sync_run.1 = [FetchedHash demo_digest]) as Hl by (vm_compute; reflexivity).
  split; [exact Hok|]. split; [exact Hl|].
  destruct (artifact_sync_complete (fun _ => env_at 1000) (fun _ => Ok tt) sync_headers (fun _ r => r) no_others
              (ArtifactNode0 := relay_artifacts (fun _ => env_at 1000) (fun _ => Ok tt) sync_headers (fun _ r => r) no_others)
              false sync_journal sync_local_node sync_peer_node sync_run.1 sync_run.2 (surjective_pairing _)) as (_ & H & _).
  destruct (H Hok eq_refl demo_digest) as [Hv|(st & Hin & _)].
  - vm_compute. reflexivity.
  - exact Hv.
  - exfalso. rewrite Hl in Hin. apply list_elem_of_singleton in Hin. discriminate Hin.
Defined.
