(* ===== verification/EventQueue.v ===== *)
(** * The event queue of the agent bridge

    [buzz-acp/src/queue.rs]: per-channel queues of events waiting for an agent,
    with in-flight tracking, retries with backoff, cancelled batches and events
    withheld while a steer is under way.  The code that drives the queue is in
    [AgentBridge.v].

    An [Instant] is a number of nanoseconds, taken as unbounded (the code adds
    durations of hours to a monotonic clock).  A [HashMap] is a [gmap]; where
    the code iterates over one, the order is that of [hash_iter], about which
    only that it lists the map is known. *)

From S2P Require Import Prelude Text Nostr.

Definition Uuid := N.
Bind Scope N_scope with Uuid.

Definition MAX_PENDING_PER_CHANNEL : nat := 500.
Definition MAX_BATCH_EVENTS : nat := 50.
Definition MAX_RETRIES : N := 10.
Definition BASE_RETRY_DELAY_SECS : N := 5.
Definition MAX_RETRY_DELAY_SECS : N := 300.
Definition IN_FLIGHT_DEADLINE_BUFFER_SECS : N := 100.
Definition DEFAULT_IN_FLIGHT_DEADLINE_SECS : N := 7300.

Definition from_secs (s : N) : N := (s * 1000000000)%N.

Inductive DedupMode := Drop | Queue.
Inductive CancelReason := Interrupt | Steer.

Record BatchEvent := mkBatchEvent {
  be_event : Event;
  be_prompt_tag : string;
  be_received_at : N;
}.

Record QueuedEvent := mkQueued {
  qe_channel_id : Uuid;
  qe_event : Event;
  qe_received_at : N;
  qe_prompt_tag : string;
}.

Record FlushBatch := mkBatch {
  fb_channel_id : Uuid;
  fb_events : list BatchEvent;
  fb_cancelled_events : list BatchEvent;
  fb_cancel_reason : option CancelReason;
}.

Record EventQueue := mkQueue {
  queues : gmap Uuid (list QueuedEvent);
  in_flight_channels : gset Uuid;
  in_flight_deadlines : gmap Uuid N;
  in_flight_batch_sizes : gmap Uuid nat;
  retry_after : gmap Uuid N;
  retry_counts : gmap Uuid N;
  dedup_mode : DedupMode;
  cancelled_batches : gmap Uuid (list BatchEvent);
  cancel_reasons : gmap Uuid CancelReason;
  withheld_native_steer : gmap Uuid (list QueuedEvent);
  in_flight_deadline : N;
}.

(** What the queue takes from outside: the iteration order of hash maps (a seed
    stands for the state of the hasher) and the rounding of floating-point
    arithmetic in the backoff. *)
Class QueueEnv := {
  hash_iter {V : Type} : N -> gmap Uuid V -> list (Uuid * V);
  backoff_delay : N -> N -> N;
}.

(** [capped_secs * (0.8 + nanos / u32::MAX * 0.4)] in nanoseconds, exactly. *)
Definition exact_backoff (capped_secs nanos : N) : N :=
  (from_secs capped_secs * (8 * u32_max + 4 * nanos) / (10 * u32_max))%N.

Class QueueEnvLaws (QE : QueueEnv) := {
  hash_iter_perm {V} seed (m : gmap Uuid V) : hash_iter seed m ≡ₚ map_to_list m;
  (** Doubles carry 52 bits: the product is within a microsecond. *)
  backoff_close capped_secs nanos :
    (capped_secs <= 300)%N -> (u64_abs_diff (backoff_delay capped_secs nanos) (exact_backoff capped_secs nanos) <= 1000)%N;
}.

(** ** Field updates *)

Definition set_queues v q := mkQueue v (in_flight_channels q) (in_flight_deadlines q) (in_flight_batch_sizes q)
  (retry_after q) (retry_counts q) (dedup_mode q) (cancelled_batches q) (cancel_reasons q) (withheld_native_steer q)
  (in_flight_deadline q).
Definition set_in_flight c d s q := mkQueue (queues q) c d s
  (retry_after q) (retry_counts q) (dedup_mode q) (cancelled_batches q) (cancel_reasons q) (withheld_native_steer q)
  (in_flight_deadline q).
Definition set_retries a n q := mkQueue (queues q) (in_flight_channels q) (in_flight_deadlines q) (in_flight_batch_sizes q)
  a n (dedup_mode q) (cancelled_batches q) (cancel_reasons q) (withheld_native_steer q) (in_flight_deadline q).
Definition set_cancelled b r q := mkQueue (queues q) (in_flight_channels q) (in_flight_deadlines q) (in_flight_batch_sizes q)
  (retry_after q) (retry_counts q) (dedup_mode q) b r (withheld_native_steer q) (in_flight_deadline q).
Definition set_withheld w q := mkQueue (queues q) (in_flight_channels q) (in_flight_deadlines q) (in_flight_batch_sizes q)
  (retry_after q) (retry_counts q) (dedup_mode q) (cancelled_batches q) (cancel_reasons q) w (in_flight_deadline q).

(** [entry(c).or_default()] *)
Definition entry {A} (m : gmap Uuid (list A)) (c : Uuid) : list A := default [] (m !! c).

(** Storing a list back, or removing the entry when it is empty. *)
Definition put_or_remove {A} (c : Uuid) (l : list A) (m : gmap Uuid (list A)) : gmap Uuid (list A) :=
  match l with [] => delete c m | _ => <[c := l]> m end.

(** [Iterator::min_by_key]: the first of the least elements. *)
Fixpoint min_by_key {A} (key : A -> N) (l : list A) : option A :=
  match l with
  | [] => None
  | x :: l => match min_by_key key l with
              | Some y => Some (if (key y <? key x)%N then y else x)
              | None => Some x
              end
  end.

(** ** Operations *)

Section queue.
Context `{QE : QueueEnv}.

Definition new (mode : DedupMode) : EventQueue :=
  mkQueue ∅ ∅ ∅ ∅ ∅ ∅ mode ∅ ∅ ∅ (from_secs DEFAULT_IN_FLIGHT_DEADLINE_SECS).

Definition with_in_flight_deadline (max_turn_duration_secs : N) (q : EventQueue) : EventQueue :=
  mkQueue (queues q) (in_flight_channels q) (in_flight_deadlines q) (in_flight_batch_sizes q)
    (retry_after q) (retry_counts q) (dedup_mode q) (cancelled_batches q) (cancel_reasons q) (withheld_native_steer q)
    (from_secs (u64_wrapping_add max_turn_duration_secs IN_FLIGHT_DEADLINE_BUFFER_SECS)).

Definition extend_in_flight_deadline (now : N) (c : Uuid) (max_turn_secs : N) (q : EventQueue) : EventQueue :=
  match in_flight_deadlines q !! c with
  | Some current =>
      let extended := (now + from_secs (u64_wrapping_add max_turn_secs IN_FLIGHT_DEADLINE_BUFFER_SECS))%N in
      if (current <? extended)%N
      then set_in_flight (in_flight_channels q) (<[c := extended]> (in_flight_deadlines q)) (in_flight_batch_sizes q) q
      else q
  | None => q
  end.

Definition push (event : QueuedEvent) (q : EventQueue) : EventQueue * bool :=
  let c := qe_channel_id event in
  if match dedup_mode q with Drop => bool_decide (c ∈ in_flight_channels q) | Queue => false end
  then (q, false)
  else
    let queue := entry (queues q) c in
    let queue := if (MAX_PENDING_PER_CHANNEL <=? length queue)%nat then tail queue else queue in
    (set_queues (<[c := queue ++ [event]]> (queues q)) q, true).

(** [push_front] of every event in reverse, then [pop_back] down to the cap. *)
Definition push_front_capped (l queue : list QueuedEvent) : list QueuedEvent :=
  take MAX_PENDING_PER_CHANNEL (l ++ queue).

Definition recover_withheld_for_expired_channel (c : Uuid) (q : EventQueue) : EventQueue :=
  match withheld_native_steer q !! c with
  | None => q
  | Some entries =>
      set_withheld (delete c (withheld_native_steer q))
        (set_queues (<[c := push_front_capped entries (entry (queues q) c)]> (queues q)) q)
  end.

(** One pass of the expiry loop. *)
Definition expire_one (q : EventQueue) (c : Uuid) : EventQueue :=
  recover_withheld_for_expired_channel c
    (set_in_flight (in_flight_channels q ∖ {[c]}) (delete c (in_flight_deadlines q))
       (delete c (in_flight_batch_sizes q)) q).

(** The expiry both [flush_next] and [has_flushable_work] start with. *)
Definition expire (seed now : N) (q : EventQueue) : EventQueue :=
  foldl expire_one q (List.filter (fun kv => (kv.2 <=? now)%N) (hash_iter seed (in_flight_deadlines q))).*1.

Definition ready (now : N) (q : EventQueue) (kv : Uuid * list QueuedEvent) : bool :=
  match kv.2 with [] => false | _ => true end && negb (bool_decide (kv.1 ∈ in_flight_channels q)) &&
  match retry_after q !! kv.1 with None => true | Some t => (t <=? now)%N end.

(** [q.front().unwrap().received_at], on a queue known to be non-empty. *)
Definition head_received_at (kv : Uuid * list QueuedEvent) : N :=
  match kv.2 with qe :: _ => qe_received_at qe | [] => 0%N end.

Definition to_batch (qe : QueuedEvent) : BatchEvent := mkBatchEvent (qe_event qe) (qe_prompt_tag qe) (qe_received_at qe).

(** A cancelled batch that may be sent again. *)
Definition idle_cancelled (seed : N) (q : EventQueue) : option Uuid :=
  fst <$> find (fun kv => negb (bool_decide (kv.1 ∈ in_flight_channels q))) (hash_iter seed (cancelled_batches q)).

(** Marking a batch of [n] events of a channel as in flight. *)
Definition mark_in_flight (now : N) (c : Uuid) (n : nat) (q : EventQueue) : EventQueue :=
  set_in_flight ({[c]} ∪ in_flight_channels q) (<[c := (now + in_flight_deadline q)%N]> (in_flight_deadlines q))
    (<[c := n]> (in_flight_batch_sizes q)) q.

(** Sending a cancelled batch again, unchanged. *)
Definition flush_cancelled (now : N) (c : Uuid) (q : EventQueue) : FlushBatch * EventQueue :=
  let cancelled := entry (cancelled_batches q) c in
  (mkBatch c cancelled [] (cancel_reasons q !! c),
   mark_in_flight now c (length cancelled)
     (set_cancelled (delete c (cancelled_batches q)) (delete c (cancel_reasons q)) q)).

Definition created_at_le (a b : BatchEvent) : bool := (ev_created_at (be_event a) <=? ev_created_at (be_event b))%N.

(** Draining the queue of a channel into a batch. *)
Definition flush_queued (now : N) (c : Uuid) (q : EventQueue) : FlushBatch * EventQueue :=
  let queue := entry (queues q) c in
  let drain_count := Nat.min MAX_BATCH_EVENTS (length queue) in
  let events := sort_by created_at_le (to_batch <$> take drain_count queue) in
  let cancelled_events := entry (cancelled_batches q) c in
  let cancel_reason := match cancelled_events with [] => None | _ => cancel_reasons q !! c end in
  (mkBatch c events cancelled_events cancel_reason,
   set_cancelled (delete c (cancelled_batches q)) (delete c (cancel_reasons q))
     (mark_in_flight now c (length events)
        (set_queues (put_or_remove c (drop drain_count queue) (queues q)) q))).

Definition flush_next (seed now : N) (q : EventQueue) : option FlushBatch * EventQueue :=
  let q := expire seed now q in
  match fst <$> min_by_key head_received_at (List.filter (ready now q) (hash_iter seed (queues q))) with
  | Some c => let '(b, q) := flush_queued now c q in (Some b, q)
  | None =>
      match idle_cancelled seed q with
      | Some c => let '(b, q) := flush_cancelled now c q in (Some b, q)
      | None => (None, q)
      end
  end.

Definition mark_complete (now : N) (c : Uuid) (q : EventQueue) : EventQueue :=
  let q := set_in_flight (in_flight_channels q ∖ {[c]}) (delete c (in_flight_deadlines q))
             (delete c (in_flight_batch_sizes q)) q in
  match retry_after q !! c with
  | Some deadline =>
      if (now <? deadline)%N then q else set_retries (delete c (retry_after q)) (delete c (retry_counts q)) q
  | None => set_retries (retry_after q) (delete c (retry_counts q)) q
  end.

Definition from_batch (c : Uuid) (be : BatchEvent) : QueuedEvent :=
  mkQueued c (be_event be) (be_received_at be) (be_prompt_tag be).

(** [BASE * 2^(attempt-1)] with the exponent and the product capped. *)
Definition capped_secs (attempt : N) : N :=
  N.min (u64_saturating_mul BASE_RETRY_DELAY_SECS (N.shiftl 1 (N.min (attempt - 1) 6))) MAX_RETRY_DELAY_SECS.

Definition requeue (nanos now : N) (batch : FlushBatch) (q : EventQueue) : option FlushBatch * EventQueue :=
  let c := fb_channel_id batch in
  let attempt := (default 0 (retry_counts q !! c) + 1)%N in
  if (MAX_RETRIES <? attempt)%N then
    (Some batch, set_retries (delete c (retry_after q)) (delete c (retry_counts q)) q)
  else
    let delay := backoff_delay (capped_secs attempt) nanos in
    (None, set_retries (<[c := (now + delay)%N]> (retry_after q)) (<[c := attempt]> (retry_counts q))
             (set_queues (<[c := push_front_capped (from_batch c <$> fb_events batch) (entry (queues q) c)]> (queues q)) q)).

Definition requeue_preserve_timestamps (batch : FlushBatch) (q : EventQueue) : EventQueue :=
  let c := fb_channel_id batch in
  set_queues (<[c := push_front_capped (from_batch c <$> fb_events batch) (entry (queues q) c)]> (queues q)) q.

Definition requeue_as_cancelled (batch : FlushBatch) (reason : CancelReason) (q : EventQueue) : EventQueue :=
  let c := fb_channel_id batch in
  set_cancelled (<[c := entry (cancelled_batches q) c ++ fb_cancelled_events batch ++ fb_events batch]> (cancelled_batches q))
    (<[c := reason]> (cancel_reasons q)) q.

Definition has_flushable_work (seed now : N) (q : EventQueue) : bool * EventQueue :=
  let q := expire seed now q in
  (existsb (ready now q) (hash_iter seed (queues q)) ||
   existsb (fun kv => negb (bool_decide (kv.1 ∈ in_flight_channels q))) (hash_iter seed (cancelled_batches q)), q).

Definition pending_channels (q : EventQueue) : nat := size (queues q).

Definition drain_channel (c : Uuid) (q : EventQueue) : list string * EventQueue :=
  ((fun qe => to_hex (ev_id (qe_event qe))) <$> entry (queues q) c,
   set_withheld (delete c (withheld_native_steer q))
     (set_cancelled (delete c (cancelled_batches q)) (delete c (cancel_reasons q))
        (set_retries (delete c (retry_after q)) (delete c (retry_counts q))
           (set_queues (delete c (queues q)) q)))).

Definition is_channel_in_flight (c : Uuid) (q : EventQueue) : bool := bool_decide (c ∈ in_flight_channels q).

(** *** Events withheld for a steer *)

Definition is_event (event_id : string) (qe : QueuedEvent) : bool := String.eqb (to_hex (ev_id (qe_event qe))) event_id.

Definition mark_native_steer_pending (c : Uuid) (event_id : string) (q : EventQueue) : bool * EventQueue :=
  match queues q !! c with
  | None => (false, q)
  | Some l =>
      match position (is_event event_id) l with
      | None => (false, q)
      | Some pos =>
          match l !! pos with
          | None => (false, q)
          | Some qe =>
              (true, set_withheld (<[c := entry (withheld_native_steer q) c ++ [qe]]> (withheld_native_steer q))
                       (set_queues (put_or_remove c (delete pos l) (queues q)) q))
          end
      end
  end.

Definition release_native_steer (c : Uuid) (event_id : string) (q : EventQueue) : EventQueue :=
  match withheld_native_steer q !! c with
  | None => q
  | Some entries =>
      match position (is_event event_id) entries with
      | None => q
      | Some pos =>
          match entries !! pos with
          | None => q
          | Some qe =>
              set_queues (<[c := push_front_capped [qe] (entry (queues q) c)]> (queues q))
                (set_withheld (put_or_remove c (delete pos entries) (withheld_native_steer q)) q)
          end
      end
  end.

Definition retain_others (event_id : string) (c : Uuid) (m : gmap Uuid (list QueuedEvent)) : gmap Uuid (list QueuedEvent) :=
  match m !! c with
  | Some l => put_or_remove c (List.filter (fun qe => negb (is_event event_id qe)) l) m
  | None => m
  end.

Definition remove_event (c : Uuid) (event_id : string) (q : EventQueue) : EventQueue :=
  let q := set_withheld (retain_others event_id c (withheld_native_steer q)) q in
  set_queues (retain_others event_id c (queues q)) q.

Definition compact_expired_state (now : N) (q : EventQueue) : EventQueue :=
  let after : gmap Uuid N := filter (fun kv => (now < kv.2)%N) (retry_after q) in
  set_retries after
    (filter (fun kv => is_Some (after !! kv.1) \/ entry (queues q) kv.1 <> [] \/ kv.1 ∈ in_flight_channels q)
       (retry_counts q)) q.
End queue.
