(* ===== verification/EventQueueTheory.v ===== *)
(** * Properties of the event queue

    Every operation of [EventQueue.v] works channel by channel, so its lemmas
    are stated for one channel: [same_at] says an operation leaves a channel
    alone, [chan_wf] is the invariant, and [held] lists the events the queue
    still owes to an agent. *)

From S2P Require Import Prelude Text Nostr Demo EventQueue.

(** Reduces field accesses, and nothing else. *)
Ltac fields :=
  cbn [queues in_flight_channels in_flight_deadlines in_flight_batch_sizes retry_after retry_counts dedup_mode
       cancelled_batches cancel_reasons withheld_native_steer in_flight_deadline
       set_queues set_in_flight set_retries set_cancelled set_withheld fst snd].

(** ** One channel *)

(** Two queues that agree on everything they keep for a channel. *)
Record same_at (q q' : EventQueue) (c : Uuid) : Prop := {
  same_queue : queues q' !! c = queues q !! c;
  same_flight : c ∈ in_flight_channels q' <-> c ∈ in_flight_channels q;
  same_deadline : in_flight_deadlines q' !! c = in_flight_deadlines q !! c;
  same_size : in_flight_batch_sizes q' !! c = in_flight_batch_sizes q !! c;
  same_after : retry_after q' !! c = retry_after q !! c;
  same_count : retry_counts q' !! c = retry_counts q !! c;
  same_cancelled : cancelled_batches q' !! c = cancelled_batches q !! c;
  same_reason : cancel_reasons q' !! c = cancel_reasons q !! c;
  same_withheld : withheld_native_steer q' !! c = withheld_native_steer q !! c;
}.

Lemma same_at_refl q c : same_at q q c.
Proof. by split. Qed.

Lemma same_at_trans q1 q2 q3 c : same_at q1 q2 c -> same_at q2 q3 c -> same_at q1 q3 c.
Proof. intros [] []. split; try congruence. by etransitivity. Qed.

Lemma same_at_sym q1 q2 c : same_at q1 q2 c -> same_at q2 q1 c.
Proof. intros []. by split. Qed.

(** The invariant of a channel. *)
Record chan_wf (q : EventQueue) (c : Uuid) : Prop := {
  wf_cap : length (entry (queues q) c) <= MAX_PENDING_PER_CHANNEL;
  wf_tag : Forall (fun qe => qe_channel_id qe = c) (entry (queues q) c ++ entry (withheld_native_steer q) c);
  wf_deadline : c ∈ in_flight_channels q <-> is_Some (in_flight_deadlines q !! c);
  wf_size : c ∈ in_flight_channels q <-> is_Some (in_flight_batch_sizes q !! c);
  wf_count : (default 0 (retry_counts q !! c) <= MAX_RETRIES)%N;
  wf_after : is_Some (retry_after q !! c) -> is_Some (retry_counts q !! c);
  wf_reason : is_Some (cancelled_batches q !! c) <-> is_Some (cancel_reasons q !! c);
  wf_withheld : withheld_native_steer q !! c <> Some [];
}.

Lemma chan_wf_same q q' c : same_at q q' c -> chan_wf q c -> chan_wf q' c.
Proof.
  intros [Hq Hf Hd Hs Ha Hn Hc Hr Hw] [W1 W2 W3 W4 W5 W6 W7 W8].
  split; unfold entry in *; rewrite ?Hq, ?Hf, ?Hd, ?Hs, ?Ha, ?Hn, ?Hc, ?Hr, ?Hw; done.
Qed.

(** The events the queue holds for a channel. *)
Definition held (q : EventQueue) (c : Uuid) : list QueuedEvent :=
  entry (queues q) c ++ entry (withheld_native_steer q) c ++ (from_batch c <$> entry (cancelled_batches q) c).

Lemma held_same q q' c : same_at q q' c -> held q' c = held q c.
Proof. intros [Hq _ _ _ _ _ Hc _ Hw]. unfold held, entry. by rewrite Hq, Hc, Hw. Qed.

Ltac same_elsewhere :=
  split; fields; rewrite ?lookup_insert_ne, ?lookup_delete_ne by done; (done || set_solver).

Lemma put_or_remove_eq {A} c (l : list A) m :
  put_or_remove c l m !! c = match l with [] => None | _ => Some l end.
Proof. destruct l; simpl; [apply lookup_delete_eq|apply lookup_insert_eq]. Qed.

Lemma put_or_remove_ne {A} c c' (l : list A) m : c <> c' -> put_or_remove c l m !! c' = m !! c'.
Proof. intros. destruct l; simpl; [by apply lookup_delete_ne|by apply lookup_insert_ne]. Qed.

Lemma entry_put {A} c (l : list A) m : entry (put_or_remove c l m) c = l.
Proof. unfold entry. rewrite put_or_remove_eq. by destruct l. Qed.

Lemma entry_insert {A} c (l : list A) m : entry (<[c := l]> m) c = l.
Proof. unfold entry. by rewrite lookup_insert_eq. Qed.

Lemma entry_delete {A} c (m : gmap Uuid (list A)) : entry (delete c m) c = [].
Proof. unfold entry. by rewrite lookup_delete_eq. Qed.

Lemma from_to_batch c qe : qe_channel_id qe = c -> from_batch c (to_batch qe) = qe.
Proof. intros <-. by destruct qe. Qed.

Lemma from_to_batches c l : Forall (fun qe => qe_channel_id qe = c) l -> from_batch c <$> (to_batch <$> l) = l.
Proof. induction 1 as [|qe l Hc _ IH]; [done|]. rewrite !fmap_cons, IH. by rewrite from_to_batch. Qed.

(** ** Expiry *)

Lemma recover_same c c' q : c <> c' -> same_at q (recover_withheld_for_expired_channel c q) c'.
Proof. intros Hne. unfold recover_withheld_for_expired_channel. destruct (_ !! c); [same_elsewhere|apply same_at_refl]. Qed.

Lemma expire_one_same c c' q : c <> c' -> same_at q (expire_one q c) c'.
Proof. intros Hne. unfold expire_one. eapply same_at_trans; [|by apply recover_same]. same_elsewhere. Qed.

Lemma expire_one_congr q q' c : same_at q q' c -> same_at (expire_one q c) (expire_one q' c) c.
Proof.
  intros [Hq Hf Hd Hs Ha Hn Hc Hr Hw].
  unfold expire_one, recover_withheld_for_expired_channel, set_in_flight, set_withheld, set_queues, entry.
  fields. rewrite Hw.
  destruct (withheld_native_steer q !! c) as [l|] eqn:E; fields; split; fields;
    rewrite ?lookup_insert_eq, ?lookup_delete_eq, ?Hq; try done; try congruence; clear -Hf; set_solver.
Qed.

Section theory.
Context `{QE : QueueEnv, QL : !QueueEnvLaws QE}.

(** The channels whose deadline has passed. *)
Definition overdue (now : N) (q : EventQueue) (c : Uuid) : bool :=
  match in_flight_deadlines q !! c with Some d => (d <=? now)%N | None => false end.

Definition expired_ids (seed now : N) (q : EventQueue) : list Uuid :=
  (List.filter (fun kv => (kv.2 <=? now)%N) (hash_iter seed (in_flight_deadlines q))).*1.

Lemma expired_ids_elem seed now q c : c ∈ expired_ids seed now q <-> overdue now q c = true.
Proof using QL.
  unfold expired_ids, overdue. rewrite list_elem_of_fmap. split.
  - intros ([k d] & -> & H%elem_of_filter_b). rewrite hash_iter_perm, elem_of_map_to_list in H.
    destruct H as [H1 H2]. cbn [fst]. by rewrite H1.
  - destruct (in_flight_deadlines q !! c) as [d|] eqn:E; [|done]. intros H. exists (c, d). split; [done|].
    rewrite elem_of_filter_b, hash_iter_perm, elem_of_map_to_list. done.
Qed.

Lemma expired_ids_nodup seed now q : NoDup (expired_ids seed now q).
Proof using QL.
  unfold expired_ids. eapply NoDup_fmap_sublist; [apply filter_sublist|]. rewrite hash_iter_perm.
  apply NoDup_fst_map_to_list.
Qed.

Lemma expire_fold_other ids q c : ~ c ∈ ids -> same_at q (foldl expire_one q ids) c.
Proof.
  revert q. induction ids as [|d ids IH]; intros q Hc; simpl; [apply same_at_refl|].
  eapply same_at_trans; [apply (expire_one_same d); set_solver|]. apply IH. set_solver.
Qed.

Lemma expire_fold_self ids q c :
  NoDup ids -> c ∈ ids -> same_at (expire_one q c) (foldl expire_one q ids) c.
Proof.
  intros Hnd. revert q. induction Hnd as [|d ids Hd Hnd IH]; intros q Hc; simpl; [by apply not_elem_of_nil in Hc|].
  apply elem_of_cons in Hc as [->|Hc]; [by apply expire_fold_other|].
  eapply same_at_trans; [|by apply IH]. apply expire_one_congr, expire_one_same. intros ->. done.
Qed.

(** Expiry resets the overdue channels and nothing else. *)
Lemma expire_at seed now q c :
  same_at (if overdue now q c then expire_one q c else q) (expire seed now q) c.
Proof using QL.
  change (expire seed now q) with (foldl expire_one q (expired_ids seed now q)).
  destruct (overdue now q c) eqn:E.
  - apply expire_fold_self; [apply expired_ids_nodup|]. by apply expired_ids_elem.
  - apply expire_fold_other. rewrite expired_ids_elem. congruence.
Qed.

Lemma expire_one_wf q c : chan_wf q c -> chan_wf (expire_one q c) c.
Proof.
  intros [W1 W2 W3 W4 W5 W6 W7 W8]. unfold expire_one, recover_withheld_for_expired_channel.
  fields. apply Forall_app in W2 as [W2 W2'].
  destruct (withheld_native_steer q !! c) as [l|] eqn:E; split; fields;
    rewrite ?entry_insert, ?entry_delete, ?lookup_delete_eq; try done; try (split; [set_solver|by intros [? ?]]).
  - unfold push_front_capped. rewrite length_take. lia.
  - rewrite app_nil_r. apply Forall_take, Forall_app. unfold entry in W2'. rewrite E in W2'. done.
  - by apply Forall_app.
  - congruence.
Qed.

Lemma expire_wf seed now q c : chan_wf q c -> chan_wf (expire seed now q) c.
Proof using QL.
  intros H. eapply chan_wf_same; [apply expire_at|]. destruct (overdue now q c); [by apply expire_one_wf|done].
Qed.

(** What recovery drops at the cap. *)
Definition expiry_overflow (now : N) (q : EventQueue) (c : Uuid) : list QueuedEvent :=
  if overdue now q c
  then drop MAX_PENDING_PER_CHANNEL (entry (withheld_native_steer q) c ++ entry (queues q) c) else [].

Lemma expire_held seed now q c :
  chan_wf q c -> held q c ≡ₚ held (expire seed now q) c ++ expiry_overflow now q c.
Proof using QL.
  intros Hwf. rewrite (held_same _ _ _ (expire_at seed now q c)). unfold expiry_overflow.
  destruct (overdue now q c); [|by rewrite app_nil_r].
  unfold held, expire_one, recover_withheld_for_expired_channel. fields.
  destruct (withheld_native_steer q !! c) as [l|] eqn:E; fields.
  - rewrite entry_insert, entry_delete, app_nil_l. unfold push_front_capped.
    assert (entry (withheld_native_steer q) c = l) as -> by (unfold entry; by rewrite E).
    transitivity ((l ++ entry (queues q) c) ++ (from_batch c <$> entry (cancelled_batches q) c)).
    + by rewrite (Permutation_app_comm l (entry (queues q) c)), <-app_assoc.
    + rewrite <-(take_drop MAX_PENDING_PER_CHANNEL (l ++ _)) at 1. rewrite <-!app_assoc.
      apply Permutation_app_head, Permutation_app_comm.
  - assert (entry (withheld_native_steer q) c = []) as -> by (unfold entry; by rewrite E).
    rewrite app_nil_l, drop_ge, app_nil_r; [done|]. apply Hwf.
Qed.

(** ** Flushing *)

Lemma min_by_key_some {A} (key : A -> N) l x :
  min_by_key key l = Some x -> x ∈ l /\ forall y, y ∈ l -> (key x <= key y)%N.
Proof using Type.
  revert x. induction l as [|a l IH]; intros x; simpl; [done|].
  destruct (min_by_key key l) as [y|] eqn:E.
  - intros [= <-]. destruct (IH y eq_refl) as [Hy Hmin]. destruct (N.ltb_spec (key y) (key a)).
    + split; [by right|]. intros z [->|Hz]%elem_of_cons; [lia|by apply Hmin].
    + split; [left|]. intros z [->|Hz]%elem_of_cons; [lia|]. specialize (Hmin z Hz). lia.
  - intros [= <-]. destruct l as [|b l]; [|simpl in E; by destruct (min_by_key key l)].
    split; [left|]. intros z Hz. case_members. lia.
Qed.

Lemma min_by_key_none {A} (key : A -> N) l : min_by_key key l = None -> l = [].
Proof using Type. destruct l as [|a l]; simpl; [done|]. by destruct (min_by_key key l). Qed.

(** A channel with events that may be flushed now. *)
Definition ready_channel (now : N) (q : EventQueue) (c : Uuid) : Prop :=
  exists queue, queues q !! c = Some queue /\ ready now q (c, queue) = true.

(** A channel whose cancelled batch may be sent again. *)
Definition idle_cancel (q : EventQueue) (c : Uuid) : Prop :=
  is_Some (cancelled_batches q !! c) /\ ~ c ∈ in_flight_channels q.

Definition head_time (q : EventQueue) (c : Uuid) : N := head_received_at (c, entry (queues q) c).

Inductive flush_case (now : N) (q : EventQueue) : option FlushBatch * EventQueue -> Prop :=
| Flush_queued c :
    ready_channel now q c -> (forall c', ready_channel now q c' -> (head_time q c <= head_time q c')%N) ->
    flush_case now q (Some (flush_queued now c q).1, (flush_queued now c q).2)
| Flush_cancelled c :
    (forall c', ~ ready_channel now q c') -> idle_cancel q c ->
    flush_case now q (Some (flush_cancelled now c q).1, (flush_cancelled now c q).2)
| Flush_none :
    (forall c', ~ ready_channel now q c') -> (forall c', ~ idle_cancel q c') -> flush_case now q (None, q).

Lemma ready_iff seed now q c :
  ready_channel now q c <-> exists queue, (c, queue) ∈ List.filter (ready now q) (hash_iter seed (queues q)).
Proof using QL.
  unfold ready_channel. split; intros [queue H]; exists queue.
  - by rewrite elem_of_filter_b, hash_iter_perm, elem_of_map_to_list.
  - by rewrite elem_of_filter_b, hash_iter_perm, elem_of_map_to_list in H.
Qed.

Lemma idle_iff seed q c :
  idle_cancel q c <-> exists l, (c, l) ∈ hash_iter seed (cancelled_batches q) /\
    negb (bool_decide (c ∈ in_flight_channels q)) = true.
Proof using QL.
  unfold idle_cancel. split.
  - intros [[l Hl] Hn]. exists l. rewrite hash_iter_perm, elem_of_map_to_list. split; [done|].
    by rewrite bool_decide_false.
  - intros (l & Hl & Hn). rewrite hash_iter_perm, elem_of_map_to_list in Hl. split; [by eexists|].
    apply negb_true_iff, bool_decide_eq_false in Hn. done.
Qed.

Lemma flush_next_cases seed now q : flush_case now (expire seed now q) (flush_next seed now q).
Proof using QL.
  unfold flush_next. set (q1 := expire seed now q).
  destruct (min_by_key head_received_at (List.filter (ready now q1) (hash_iter seed (queues q1)))) as [[c queue]|] eqn:Em.
  - cbn [fmap option_fmap option_map fst]. apply min_by_key_some in Em as [Hin Hmin].
    rewrite (surjective_pairing (flush_queued now c q1)).
    assert (forall c' l, (c', l) ∈ List.filter (ready now q1) (hash_iter seed (queues q1)) -> entry (queues q1) c' = l) as He.
    { intros c' l. rewrite elem_of_filter_b, hash_iter_perm, elem_of_map_to_list. unfold entry. by intros [-> _]. }
    constructor; [apply (ready_iff seed); by exists queue|].
    intros c' [l Hl]%(ready_iff seed). unfold head_time. rewrite (He c queue Hin), (He c' l Hl). by apply (Hmin (c', l)).
  - apply min_by_key_none in Em. cbn [fmap option_fmap option_map fst].
    assert (forall c', ~ ready_channel now q1 c') as Hno.
    { intros c' [l Hl]%(ready_iff seed). rewrite Em in Hl. by apply not_elem_of_nil in Hl. }
    unfold idle_cancelled. destruct (find _ _) as [[c l]|] eqn:Ef; cbn [fmap option_fmap option_map fst].
    + rewrite (surjective_pairing (flush_cancelled now c q1)). apply find_elem in Ef as [Hc Hn].
      constructor; [done|]. apply (idle_iff seed). by exists l.
    + constructor; [done|]. intros c' (l & Hl & Hn)%(idle_iff seed).
      apply (find_none_elem _ _ _ Ef) in Hl. cbn [fst] in Hl. congruence.
Qed.

Lemma has_work_iff seed now q :
  (has_flushable_work seed now q).1 = true <->
  exists c, ready_channel now (expire seed now q) c \/ idle_cancel (expire seed now q) c.
Proof using QL.
  unfold has_flushable_work. fields. rewrite orb_true_iff, !existsb_elem. split.
  - intros [([c l] & Hin & Hr)|([c l] & Hin & Hn)]; exists c.
    + left. apply (ready_iff seed). exists l. by apply elem_of_filter_b.
    + right. apply (idle_iff seed). by exists l.
  - intros [c [[l Hl]%(ready_iff seed)|(l & Hl & Hn)%(idle_iff seed)]].
    + left. apply elem_of_filter_b in Hl as [? ?]. by exists (c, l).
    + right. by exists (c, l).
Qed.

Lemma flush_queued_same now c c' q : c <> c' -> same_at q (flush_queued now c q).2 c'.
Proof.
  intros Hne. unfold flush_queued, mark_in_flight. fields.
  split; fields; rewrite ?lookup_insert_ne, ?lookup_delete_ne, ?put_or_remove_ne by done; (done || set_solver).
Qed.

Lemma flush_cancelled_same now c c' q : c <> c' -> same_at q (flush_cancelled now c q).2 c'.
Proof. intros Hne. unfold flush_cancelled, mark_in_flight. fields. same_elsewhere. Qed.

Lemma flush_queued_wf now c q : chan_wf q c -> chan_wf (flush_queued now c q).2 c.
Proof.
  intros [W1 W2 W3 W4 W5 W6 W7 W8]. apply Forall_app in W2 as [W2 W2'].
  unfold flush_queued, mark_in_flight. split; fields; rewrite ?entry_put, ?lookup_insert_eq, ?lookup_delete_eq;
    try done; try (split; [intros _; by eexists|set_solver]).
  - rewrite length_drop. lia.
  - apply Forall_app. split; [by apply Forall_drop|done].
Qed.

Lemma flush_cancelled_wf now c q : chan_wf q c -> chan_wf (flush_cancelled now c q).2 c.
Proof.
  intros [W1 W2 W3 W4 W5 W6 W7 W8]. unfold flush_cancelled, mark_in_flight.
  split; fields; rewrite ?lookup_insert_eq, ?lookup_delete_eq; try done; try (split; [intros _; by eexists|set_solver]).
Qed.

(** What a batch carries, as queued events. *)
Definition batch_events (b : FlushBatch) : list QueuedEvent :=
  from_batch (fb_channel_id b) <$> (fb_events b ++ fb_cancelled_events b).

Lemma flush_queued_held now c q :
  chan_wf q c -> held q c ≡ₚ held (flush_queued now c q).2 c ++ batch_events (flush_queued now c q).1.
Proof.
  intros [W1 W2 _ _ _ _ _ _]. apply Forall_app in W2 as [W2 _].
  unfold held, flush_queued, batch_events, mark_in_flight. fields. cbn [fb_channel_id fb_events fb_cancelled_events].
  rewrite entry_put, entry_delete. set (n := Nat.min _ _). rewrite fmap_app, sort_by_perm, from_to_batches by (by apply Forall_take).
  rewrite fmap_nil, app_nil_r.
  rewrite <-(take_drop n (entry (queues q) c)) at 1. set (t := take n _). set (d := drop n _).
  rewrite <-!app_assoc. rewrite (Permutation_app_comm t). rewrite <-!app_assoc.
  do 2 apply Permutation_app_head. apply Permutation_app_comm.
Qed.

Lemma flush_cancelled_held now c q :
  held q c ≡ₚ held (flush_cancelled now c q).2 c ++ batch_events (flush_cancelled now c q).1.
Proof.
  unfold held, flush_cancelled, batch_events, mark_in_flight. fields. cbn [fb_channel_id fb_events fb_cancelled_events].
  rewrite entry_delete, fmap_nil, !app_nil_r. by rewrite <-app_assoc.
Qed.

(** ** Runs *)

Inductive QueueOp :=
| OpPush (e : QueuedEvent)
| OpFlush (seed now : N)
| OpHasWork (seed now : N)
| OpComplete (now : N) (c : Uuid)
| OpRequeue (nanos now : N) (b : FlushBatch)
| OpPreserve (b : FlushBatch)
| OpCancel (b : FlushBatch) (reason : CancelReason)
| OpDrain (c : Uuid)
| OpMark (c : Uuid) (event_id : string)
| OpRelease (c : Uuid) (event_id : string)
| OpRemove (c : Uuid) (event_id : string)
| OpCompact (now : N)
| OpExtend (now : N) (c : Uuid) (max_turn_secs : N).

Definition step (q : EventQueue) (op : QueueOp) : EventQueue :=
  match op with
  | OpPush e => (push e q).1
  | OpFlush seed now => (flush_next seed now q).2
  | OpHasWork seed now => (has_flushable_work seed now q).2
  | OpComplete now c => mark_complete now c q
  | OpRequeue nanos now b => (requeue nanos now b q).2
  | OpPreserve b => requeue_preserve_timestamps b q
  | OpCancel b reason => requeue_as_cancelled b reason q
  | OpDrain c => (drain_channel c q).2
  | OpMark c id => (mark_native_steer_pending c id q).2
  | OpRelease c id => release_native_steer c id q
  | OpRemove c id => remove_event c id q
  | OpCompact now => compact_expired_state now q
  | OpExtend now c secs => extend_in_flight_deadline now c secs q
  end.

Definition run (q : EventQueue) (ops : list QueueOp) : EventQueue := foldl step q ops.

Definition for_channel (d c : Uuid) (l : list QueuedEvent) : list QueuedEvent := if decide (d = c) then l else [].

(** The events of channel [c] an operation puts into the queue. *)
Definition taken (q : EventQueue) (op : QueueOp) (c : Uuid) : list QueuedEvent :=
  match op with
  | OpPush e => if (push e q).2 then for_channel (qe_channel_id e) c [e] else []
  | OpRequeue nanos now b =>
      match (requeue nanos now b q).1 with
      | None => for_channel (fb_channel_id b) c (from_batch c <$> fb_events b)
      | Some _ => []
      end
  | OpPreserve b => for_channel (fb_channel_id b) c (from_batch c <$> fb_events b)
  | OpCancel b _ => for_channel (fb_channel_id b) c (from_batch c <$> fb_cancelled_events b ++ fb_events b)
  | _ => []
  end.

(** The events of channel [c] it hands to an agent. *)
Definition given (q : EventQueue) (op : QueueOp) (c : Uuid) : list QueuedEvent :=
  match op with
  | OpFlush seed now =>
      match (flush_next seed now q).1 with
      | Some b => for_channel (fb_channel_id b) c (batch_events b)
      | None => []
      end
  | _ => []
  end.

(** What a full queue gives up: a push drops the oldest event, putting events
    back in front drops the newest. *)
Definition overflow (front queue : list QueuedEvent) : list QueuedEvent := drop MAX_PENDING_PER_CHANNEL (front ++ queue).

(** The events of channel [c] it discards: the overflow of a full queue, a
    drained channel, an event delivered by a steer. *)
Definition discarded (q : EventQueue) (op : QueueOp) (c : Uuid) : list QueuedEvent :=
  let queue := entry (queues q) c in
  let withheld := entry (withheld_native_steer q) c in
  match op with
  | OpPush e => if (push e q).2 then for_channel (qe_channel_id e) c
                  (if (MAX_PENDING_PER_CHANNEL <=? length queue)%nat then take 1 queue else []) else []
  | OpFlush _ now | OpHasWork _ now => expiry_overflow now q c
  | OpRequeue nanos now b =>
      match (requeue nanos now b q).1 with
      | None => for_channel (fb_channel_id b) c (overflow (from_batch c <$> fb_events b) queue)
      | Some _ => []
      end
  | OpPreserve b => for_channel (fb_channel_id b) c (overflow (from_batch c <$> fb_events b) queue)
  | OpDrain d => for_channel d c (held q c)
  | OpRelease d id => for_channel d c (match find (is_event id) withheld with
                                       | Some qe => overflow [qe] queue
                                       | None => []
                                       end)
  | OpRemove d id => for_channel d c (List.filter (is_event id) queue ++ List.filter (is_event id) withheld)
  | _ => []
  end.

(** An operation keeps the invariant of a channel and accounts for its events. *)
Definition accounts (q q' : EventQueue) (c : Uuid) (tk out : list QueuedEvent) : Prop :=
  chan_wf q c -> chan_wf q' c /\ held q c ++ tk ≡ₚ held q' c ++ out.

Lemma accounts_same q q' c : same_at q q' c -> accounts q q' c [] [].
Proof. intros H Hwf. split; [by eapply chan_wf_same|]. by rewrite (held_same _ _ _ H). Qed.

Lemma for_channel_eq c l : for_channel c c l = l.
Proof. unfold for_channel. by rewrite decide_True. Qed.

Lemma for_channel_ne d c l : d <> c -> for_channel d c l = [].
Proof. intros. unfold for_channel. by rewrite decide_False. Qed.

Lemma push_accounts q e c :
  accounts q (step q (OpPush e)) c (taken q (OpPush e) c) (given q (OpPush e) c ++ discarded q (OpPush e) c).
Proof.
  cbn [step taken given discarded app]. unfold push.
  destruct (match dedup_mode q with Drop => _ | Queue => _ end); fields; [apply accounts_same, same_at_refl|].
  destruct (decide (qe_channel_id e = c)) as [<-|Hne].
  2: { rewrite !for_channel_ne by done. apply accounts_same. same_elsewhere. }
  rewrite !for_channel_eq. intros [W1 W2 W3 W4 W5 W6 W7 W8]. apply Forall_app in W2 as [W2 W2'].
  set (c := qe_channel_id e) in *. set (l := entry (queues q) c) in *.
  set (l' := if (_ <=? _)%nat then tail l else l).
  set (o := if (MAX_PENDING_PER_CHANNEL <=? length l)%nat then take 1 l else []).
  assert (l ≡ₚ l' ++ o /\
          S (length l') <= MAX_PENDING_PER_CHANNEL /\ Forall (fun qe => qe_channel_id qe = c) l') as (Hp & Hlen & Hf).
  { unfold l', o. destruct (Nat.leb_spec MAX_PENDING_PER_CHANNEL (length l)) as [Hle|Hlt].
    - destruct l as [|x l]; [cbn [length] in Hle; unfold MAX_PENDING_PER_CHANNEL in Hle; lia|]. cbn [tail take length] in *.
      split_and!; [by rewrite Permutation_app_comm|lia|by apply Forall_cons in W2 as [_ ?]].
    - split_and!; [by rewrite app_nil_r|lia|done]. }
  split.
  - split; fields; rewrite ?entry_insert; try done; [rewrite length_app; simpl; lia|].
    rewrite !Forall_app. split_and!; [done|by repeat constructor|done].
  - unfold held. fields. rewrite entry_insert. fold l. rewrite Hp. clearbody o l'.
    set (w := entry (withheld_native_steer q) c). set (k := from_batch c <$> _).
    rewrite <-!app_assoc. apply Permutation_app_head.
    rewrite (Permutation_app_comm o), !app_assoc. apply Permutation_app_tail.
    rewrite (Permutation_app_comm _ [e]). by rewrite !app_assoc.
Qed.

Lemma expire_accounts seed now q c : accounts q (expire seed now q) c [] (expiry_overflow now q c).
Proof using QL. intros Hwf. split; [by apply expire_wf|]. rewrite app_nil_r. by apply expire_held. Qed.

Lemma accounts_then q q1 q2 c out1 out2 :
  accounts q q1 c [] out1 -> accounts q1 q2 c [] out2 -> accounts q q2 c [] (out2 ++ out1).
Proof.
  intros H1 H2 Hwf. destruct (H1 Hwf) as [W1 P1]. destruct (H2 W1) as [W2 P2]. split; [done|].
  rewrite app_nil_r in *. by rewrite P1, P2, app_assoc.
Qed.

Lemma flush_accounts seed now q c :
  accounts q (step q (OpFlush seed now)) c [] (given q (OpFlush seed now) c ++ discarded q (OpFlush seed now) c).
Proof using QL.
  cbn [step given discarded]. eapply accounts_then; [apply expire_accounts|].
  destruct (flush_next_cases seed now q) as [d _ _|d _ _|_ _]; fields.
  - destruct (decide (d = c)) as [->|Hne].
    + unfold flush_queued at 2. cbn [fst fb_channel_id]. rewrite for_channel_eq. intros Hwf.
      split; [by apply flush_queued_wf|]. rewrite app_nil_r. by apply flush_queued_held.
    + unfold flush_queued at 2. cbn [fst fb_channel_id]. rewrite for_channel_ne by done.
      by apply accounts_same, flush_queued_same.
  - destruct (decide (d = c)) as [->|Hne].
    + unfold flush_cancelled at 2. cbn [fst fb_channel_id]. rewrite for_channel_eq. intros Hwf.
      split; [by apply flush_cancelled_wf|]. rewrite app_nil_r. by apply flush_cancelled_held.
    + unfold flush_cancelled at 2. cbn [fst fb_channel_id]. rewrite for_channel_ne by done.
      by apply accounts_same, flush_cancelled_same.
  - apply accounts_same, same_at_refl.
Qed.

Lemma complete_accounts now d q c : accounts q (mark_complete now d q) c [] [].
Proof.
  destruct (decide (d = c)) as [->|Hne].
  - intros [W1 W2 W3 W4 W5 W6 W7 W8]. split; unfold mark_complete; fields;
      destruct (retry_after q !! c) as [t|] eqn:Ea; try destruct (now <? t)%N; try done;
      split; fields; rewrite ?lookup_delete_eq, ?Ea; try done; try (split; [set_solver|by intros [? ?]]).
  - apply accounts_same. unfold mark_complete. fields.
    destruct (retry_after q !! d) as [t|]; [destruct (now <? t)%N|]; same_elsewhere.
Qed.

(** Events put back in front of their channel. *)
Lemma front_held q q' c l :
  entry (queues q') c = push_front_capped l (entry (queues q) c) ->
  withheld_native_steer q' !! c = withheld_native_steer q !! c -> cancelled_batches q' !! c = cancelled_batches q !! c ->
  held q c ++ l ≡ₚ held q' c ++ overflow l (entry (queues q) c).
Proof.
  intros Hq Hw Hc. unfold held. rewrite Hq. unfold entry at 2 3 5 6. rewrite Hw, Hc. fold (entry (queues q) c).
  unfold push_front_capped, overflow. set (k := default [] (withheld_native_steer q !! c) ++ _).
  transitivity ((l ++ entry (queues q) c) ++ k).
  - rewrite (Permutation_app_comm l). rewrite <-!app_assoc. apply Permutation_app_head, Permutation_app_comm.
  - rewrite <-(take_drop MAX_PENDING_PER_CHANNEL (l ++ _)) at 1. rewrite <-!app_assoc.
    apply Permutation_app_head, Permutation_app_comm.
Qed.

Lemma capped_wf l queue (P : QueuedEvent -> Prop) w :
  Forall P l -> Forall P (queue ++ w) ->
  length (push_front_capped l queue) <= MAX_PENDING_PER_CHANNEL /\ Forall P (push_front_capped l queue ++ w).
Proof.
  intros Hl [Hq Hw]%Forall_app. unfold push_front_capped. rewrite length_take. split; [lia|].
  apply Forall_app. split; [|done]. apply Forall_take. by apply Forall_app.
Qed.

Lemma from_batch_tag c l : Forall (fun qe => qe_channel_id qe = c) (from_batch c <$> l).
Proof. induction l; by constructor. Qed.

Lemma requeue_accounts nanos now b q c :
  accounts q (step q (OpRequeue nanos now b)) c (taken q (OpRequeue nanos now b) c)
    (discarded q (OpRequeue nanos now b) c).
Proof.
  cbn [step taken discarded]. unfold requeue. set (d := fb_channel_id b).
  destruct (N.ltb_spec MAX_RETRIES (default 0%N (retry_counts q !! d) + 1)) as [Hlt|Hle]; fields.
  - destruct (decide (d = c)) as [->|Hne]; [|apply accounts_same; same_elsewhere].
    intros [W1 W2 W3 W4 W5 W6 W7 W8]. split; [|done].
    split; fields; rewrite ?lookup_delete_eq; done.
  - destruct (decide (d = c)) as [Hd|Hne]; [|rewrite !for_channel_ne by done; apply accounts_same; same_elsewhere].
    rewrite Hd, !for_channel_eq in *. clearbody d. clear Hd.
    intros [W1 W2 W3 W4 W5 W6 W7 W8].
    destruct (capped_wf (from_batch c <$> fb_events b) (entry (queues q) c) _ _ (from_batch_tag c _) W2) as [C1 C2]. split.
    + split; fields; rewrite ?entry_insert, ?lookup_insert_eq; try done; cbn [default]; lia.
    + apply front_held; fields; [by rewrite entry_insert|done..].
Qed.

Lemma preserve_accounts b q c :
  accounts q (step q (OpPreserve b)) c (taken q (OpPreserve b) c) (discarded q (OpPreserve b) c).
Proof.
  cbn [step taken discarded]. unfold requeue_preserve_timestamps. set (d := fb_channel_id b).
  destruct (decide (d = c)) as [Hd|Hne]; [|rewrite !for_channel_ne by done; apply accounts_same; same_elsewhere].
  rewrite Hd, !for_channel_eq. clearbody d. clear Hd.
  intros [W1 W2 W3 W4 W5 W6 W7 W8].
  destruct (capped_wf (from_batch c <$> fb_events b) (entry (queues q) c) _ _ (from_batch_tag c _) W2) as [C1 C2]. split.
  - split; fields; rewrite ?entry_insert; done.
  - apply front_held; fields; [by rewrite entry_insert|done..].
Qed.

Lemma cancel_accounts b reason q c :
  accounts q (step q (OpCancel b reason)) c (taken q (OpCancel b reason) c) [].
Proof.
  cbn [step taken]. unfold requeue_as_cancelled. set (d := fb_channel_id b).
  destruct (decide (d = c)) as [Hd|Hne]; [|rewrite !for_channel_ne by done; apply accounts_same; same_elsewhere].
  rewrite Hd, !for_channel_eq. clearbody d. clear Hd. intros [W1 W2 W3 W4 W5 W6 W7 W8]. split.
  - split; fields; rewrite ?lookup_insert_eq; done.
  - unfold held. fields. rewrite entry_insert, app_nil_r, !fmap_app, <-!app_assoc. done.
Qed.

Lemma drain_accounts d q c : accounts q (step q (OpDrain d)) c [] (discarded q (OpDrain d) c).
Proof.
  cbn [step discarded]. unfold drain_channel. fields.
  destruct (decide (d = c)) as [->|Hne]; [|rewrite !for_channel_ne by done; apply accounts_same; same_elsewhere].
  rewrite for_channel_eq. intros [W1 W2 W3 W4 W5 W6 W7 W8]. split.
  - split; fields; rewrite ?entry_delete, ?lookup_delete_eq; try done. simpl. lia.
  - unfold held at 2. fields. by rewrite !entry_delete, app_nil_r.
Qed.

(** Removing the first event with an id. *)
Lemma position_delete id (l : list QueuedEvent) pos :
  position (is_event id) l = Some pos ->
  exists qe, l !! pos = Some qe /\ find (is_event id) l = Some qe /\ l ≡ₚ qe :: delete pos l.
Proof using Type.
  intros Hp. pose proof (position_some _ _ _ Hp) as (l1 & qe & l2 & -> & <- & _ & _). exists qe.
  rewrite position_find, Hp. cbn [mbind option_bind].
  assert ((l1 ++ qe :: l2) !! length l1 = Some qe) as Hl by apply list_lookup_middle, eq_refl.
  split_and!; [done|done|by apply delete_Permutation].
Qed.

Lemma mark_accounts d id q c : accounts q (step q (OpMark d id)) c [] [].
Proof.
  cbn [step]. unfold mark_native_steer_pending.
  destruct (queues q !! d) as [l|] eqn:El; [|apply accounts_same, same_at_refl].
  destruct (position (is_event id) l) as [pos|] eqn:Ep; [|apply accounts_same, same_at_refl].
  apply position_delete in Ep as (qe & Hqe & _ & Hp). rewrite Hqe. fields.
  set (r := delete pos l) in *. clearbody r.
  destruct (decide (d = c)) as [->|Hne].
  2: { apply accounts_same. split; fields; rewrite ?lookup_insert_ne, ?put_or_remove_ne by done; done. }
  assert (entry (queues q) c = l) as He by (unfold entry; by rewrite El).
  intros [W1 W2 W3 W4 W5 W6 W7 W8]. rewrite He in W1, W2. split.
  - split; fields; rewrite ?entry_put, ?entry_insert, ?lookup_insert_eq; try done.
    + rewrite Hp in W1. cbn [length] in W1. lia.
    + rewrite app_assoc, Permutation_app_comm, app_assoc. by rewrite Hp in W2.
    + intros [=]. by destruct (entry (withheld_native_steer q) c).
  - unfold held. fields. rewrite entry_put, entry_insert, He, !app_nil_r, Hp.
    rewrite (Permutation_app_comm (entry (withheld_native_steer q) c) [qe]). cbn [app]. by rewrite <-Permutation_middle.
Qed.

Lemma release_accounts d id q c :
  accounts q (step q (OpRelease d id)) c [] (discarded q (OpRelease d id) c).
Proof.
  cbn [step discarded]. unfold release_native_steer.
  destruct (decide (d = c)) as [->|Hne].
  2: { rewrite for_channel_ne by done. apply accounts_same. destruct (_ !! d) as [l|]; [|apply same_at_refl].
       destruct (position _ l); [|apply same_at_refl]. destruct (l !! _); [|apply same_at_refl].
       split; fields; rewrite ?lookup_insert_ne, ?put_or_remove_ne by done; done. }
  rewrite for_channel_eq. assert (entry (withheld_native_steer q) c = default [] (withheld_native_steer q !! c)) as He by done.
  destruct (withheld_native_steer q !! c) as [l|] eqn:El; cbn [default from_option Datatypes.id] in He; rewrite He;
    [|apply accounts_same, same_at_refl].
  destruct (position (is_event id) l) as [pos|] eqn:Ep.
  2: { assert (find (is_event id) l = None) as -> by (by rewrite position_find, Ep). apply accounts_same, same_at_refl. }
  apply position_delete in Ep as (qe & Hqe & -> & Hp). rewrite Hqe. set (r := delete pos l) in *. clearbody r.
  intros [W1 W2 W3 W4 W5 W6 W7 W8]. rewrite He in W2.
  assert (Forall (fun qe => qe_channel_id qe = c) [qe] /\
          Forall (fun qe => qe_channel_id qe = c) (entry (queues q) c ++ r)) as [T1 T2].
  { rewrite Hp in W2. apply Forall_app in W2 as [? W2]. apply Forall_cons in W2 as [? ?]. split; [by repeat constructor|by apply Forall_app]. }
  destruct (capped_wf [qe] (entry (queues q) c) _ r T1 T2) as [C1 C2]. split.
  - split; fields; rewrite ?entry_insert, ?entry_put, ?put_or_remove_eq; try done. by destruct r.
  - unfold held. fields. rewrite entry_insert, entry_put, He, app_nil_r, Hp.
    unfold push_front_capped, overflow. set (k := from_batch c <$> _).
    transitivity (([qe] ++ entry (queues q) c) ++ r ++ k).
    + cbn [app]. by rewrite <-Permutation_middle.
    + rewrite <-(take_drop MAX_PENDING_PER_CHANNEL ([qe] ++ _)) at 1. rewrite <-!app_assoc.
      apply Permutation_app_head. rewrite Permutation_app_comm. by rewrite <-app_assoc.
Qed.

Lemma retain_lookup id c (m : gmap Uuid (list QueuedEvent)) :
  entry (retain_others id c m) c = List.filter (fun qe => negb (is_event id qe)) (entry m c).
Proof using Type.
  unfold retain_others. unfold entry at 2. destruct (m !! c) as [l|] eqn:E; [apply entry_put|]. unfold entry. by rewrite E.
Qed.

Lemma retain_ne id d c (m : gmap Uuid (list QueuedEvent)) : d <> c -> retain_others id d m !! c = m !! c.
Proof using Type. intros. unfold retain_others. destruct (m !! d); [by apply put_or_remove_ne|done]. Qed.

Lemma filter_split {A} (p : A -> bool) l : l ≡ₚ List.filter (fun x => negb (p x)) l ++ List.filter p l.
Proof using Type.
  induction l as [|x l IH]; [done|]. simpl. destruct (p x); simpl; [|by rewrite IH at 1].
  rewrite <-Permutation_middle. by rewrite IH at 1.
Qed.

Lemma Forall_retain {A} (P : A -> Prop) p l : Forall P l -> Forall P (List.filter p l).
Proof using Type. rewrite !Forall_forall. intros H x [Hx _]%elem_of_filter_b. by apply H. Qed.

Lemma remove_accounts d id q c : accounts q (step q (OpRemove d id)) c [] (discarded q (OpRemove d id) c).
Proof.
  cbn [step discarded]. unfold remove_event. fields.
  destruct (decide (d = c)) as [->|Hne].
  2: { rewrite for_channel_ne by done. apply accounts_same. split; fields; rewrite ?retain_ne by done; done. }
  rewrite for_channel_eq. intros [W1 W2 W3 W4 W5 W6 W7 W8]. apply Forall_app in W2 as [W2 W2']. split.
  - split; fields; rewrite ?retain_lookup; try done.
    + etransitivity; [|exact W1]. apply sublist_length, filter_sublist.
    + apply Forall_app. split; by apply Forall_retain.
    + unfold retain_others. destruct (withheld_native_steer q !! c) as [l|] eqn:E; [|by rewrite E].
      rewrite put_or_remove_eq. by destruct (List.filter _ l).
  - unfold held. fields. rewrite !retain_lookup, app_nil_r.
    rewrite (filter_split (is_event id) (entry (queues q) c)) at 1.
    rewrite (filter_split (is_event id) (entry (withheld_native_steer q) c)) at 1.
    set (a := List.filter (fun x => negb _) (entry (queues q) c)). set (b := List.filter _ (entry (queues q) c)).
    set (a' := List.filter (fun x => negb _) (entry (withheld_native_steer q) c)).
    set (b' := List.filter _ (entry (withheld_native_steer q) c)). set (k := from_batch c <$> _).
    rewrite <-!app_assoc. apply Permutation_app_head.
    transitivity (a' ++ b ++ b' ++ k); [by rewrite !app_assoc, (Permutation_app_comm b a')|].
    apply Permutation_app_head. rewrite (app_assoc b b' k). apply Permutation_app_comm.
Qed.

Lemma compact_accounts now q c : accounts q (compact_expired_state now q) c [] [].
Proof.
  intros [W1 W2 W3 W4 W5 W6 W7 W8]. split; [|done]. unfold compact_expired_state. split; fields; try done.
  - rewrite map_lookup_filter. destruct (retry_counts q !! c) as [n|]; cbn [mbind option_bind default] in *; [|lia].
    destruct (guard _); cbn [mbind option_bind default]; lia.
  - intros [t Ht]. pose proof Ht as [Ha _]%map_lookup_filter_Some. destruct (W6 (mk_is_Some _ _ Ha)) as [n Hn].
    exists n. apply map_lookup_filter_Some. split; [done|]. left. cbn [fst]. by rewrite Ht.
Qed.

Lemma extend_accounts now d secs q c : accounts q (extend_in_flight_deadline now d secs q) c [] [].
Proof.
  unfold extend_in_flight_deadline. destruct (in_flight_deadlines q !! d) as [t|] eqn:E; [|apply accounts_same, same_at_refl].
  destruct (t <? _)%N; [|apply accounts_same, same_at_refl].
  destruct (decide (d = c)) as [->|Hne]; [|apply accounts_same; same_elsewhere].
  intros [W1 W2 W3 W4 W5 W6 W7 W8]. split; [|done]. split; fields; rewrite ?lookup_insert_eq; try done.
  rewrite W3, E. split; by eexists.
Qed.

Lemma step_accounts q op c :
  accounts q (step q op) c (taken q op c) (given q op c ++ discarded q op c).
Proof using QL.
  destruct op; cbn [given]; rewrite ?app_nil_l.
  - apply push_accounts.
  - apply flush_accounts.
  - apply expire_accounts.
  - apply complete_accounts.
  - apply requeue_accounts.
  - apply preserve_accounts.
  - apply cancel_accounts.
  - apply drain_accounts.
  - apply mark_accounts.
  - apply release_accounts.
  - apply remove_accounts.
  - apply compact_accounts.
  - apply extend_accounts.
Qed.

Lemma new_wf mode c : chan_wf (new mode) c.
Proof.
  split; cbn -[lookup]; unfold entry; rewrite ?lookup_empty; cbn [default from_option Datatypes.id app length]; try done; try lia;
    split; (set_solver || by intros [? ?]).
Qed.

Lemma run_wf q ops c : chan_wf q c -> chan_wf (run q ops) c.
Proof using QL.
  revert q. induction ops as [|op ops IH]; intros q H; [done|]. apply IH. by destruct (step_accounts q op c H).
Qed.

(** The sum of what the operations of a run take, give or discard. *)
Fixpoint total (f : EventQueue -> QueueOp -> Uuid -> list QueuedEvent) (q : EventQueue) (ops : list QueueOp) (c : Uuid)
    : list QueuedEvent :=
  match ops with
  | [] => []
  | op :: ops => f q op c ++ total f (step q op) ops c
  end.

Lemma run_accounts q ops c :
  chan_wf q c -> held q c ++ total taken q ops c ≡ₚ held (run q ops) c ++ total given q ops c ++ total discarded q ops c.
Proof using QL.
  revert q. induction ops as [|op ops IH]; intros q Hwf; [done|]. cbn [total].
  destruct (step_accounts q op c Hwf) as [Hwf' Hp]. specialize (IH _ Hwf').
  change (run q (op :: ops)) with (run (step q op) ops).
  rewrite app_assoc, Hp.
  set (g := given q op c) in *. set (d := discarded q op c) in *. set (h := held (step q op) c) in *.
  transitivity ((h ++ total taken (step q op) ops c) ++ g ++ d).
  - rewrite <-!app_assoc. apply Permutation_app_head. rewrite (app_assoc g d). apply Permutation_app_comm.
  - rewrite IH. set (g' := total given _ _ _). set (d' := total discarded _ _ _).
    rewrite <-!app_assoc. apply Permutation_app_head. rewrite (Permutation_app_swap_app g g').
    apply Permutation_app_head. rewrite (app_assoc g d d'). apply Permutation_app_comm.
Qed.

(** ** Exclusion *)

(** A turn of [c] is running and its deadline is not before [d]. *)
Definition running (q : EventQueue) (c : Uuid) (d : N) : Prop :=
  c ∈ in_flight_channels q /\ exists d', (d <= d')%N /\ in_flight_deadlines q !! c = Some d'.

Lemma running_same q q' c d : same_at q q' c -> running q c d -> running q' c d.
Proof. intros H [Hf (d' & Hd & E)]. split; [by apply H|]. exists d'. by rewrite (same_deadline _ _ _ H). Qed.

(** The operation neither completes [c] nor reads a clock past [d]. *)
Definition leaves_running (c : Uuid) (d : N) (op : QueueOp) : Prop :=
  match op with
  | OpFlush _ now | OpHasWork _ now => (now < d)%N
  | OpComplete _ c' => c' <> c
  | _ => True
  end.

Lemma expire_running seed now q c d : (now < d)%N -> running q c d -> running (expire seed now q) c d.
Proof using QL.
  intros Hnow Hr. eapply running_same; [apply expire_at|]. destruct Hr as [Hf (d' & Hd & E)].
  unfold overdue. rewrite E. assert ((d' <=? now)%N = false) as -> by lia. split; [done|]. by exists d'.
Qed.

Lemma expire_keeps_deadline seed now q : in_flight_deadline (expire seed now q) = in_flight_deadline q.
Proof.
  change (expire seed now q) with (foldl expire_one q (expired_ids seed now q)).
  generalize (expired_ids seed now q). intros l. revert q. induction l as [|e l IH]; intros q; [done|].
  cbn [foldl]. rewrite IH. unfold expire_one, recover_withheld_for_expired_channel. by case_match.
Qed.

Lemma ready_not_in_flight now q c : ready_channel now q c -> ~ c ∈ in_flight_channels q.
Proof.
  intros (l & _ & H). unfold ready in H. rewrite !andb_true_iff, negb_true_iff, bool_decide_eq_false in H. by destruct H as [[_ ?] _].
Qed.

Lemma flush_running seed now q c d :
  (now < d)%N -> running q c d ->
  running (flush_next seed now q).2 c d /\ forall b, (flush_next seed now q).1 = Some b -> fb_channel_id b <> c.
Proof using QL.
  intros Hnow Hr. apply (expire_running seed now) in Hr; [|done]. destruct (flush_next_cases seed now q) as [e He _|e _ He|_ _]; fields.
  - assert (e <> c) as Hne by (intros ->; apply (ready_not_in_flight _ _ _ He), Hr).
    split; [by eapply running_same; [apply flush_queued_same|]|]. by intros b [= <-].
  - assert (e <> c) as Hne by (intros ->; by apply (proj2 He), Hr).
    split; [by eapply running_same; [apply flush_cancelled_same|]|]. by intros b [= <-].
  - done.
Qed.

(** The other operations do not touch the in-flight state of [c]. *)
Lemma flight_fields q q' c d :
  in_flight_channels q' = in_flight_channels q -> in_flight_deadlines q' = in_flight_deadlines q ->
  running q c d -> running q' c d.
Proof. unfold running. by intros -> ->. Qed.

Lemma extend_running now e secs q c d : running q c d -> running (extend_in_flight_deadline now e secs q) c d.
Proof.
  intros Hr. unfold extend_in_flight_deadline. destruct (in_flight_deadlines q !! e) as [t|] eqn:E; [|done].
  destruct (N.ltb_spec t (now + from_secs (u64_wrapping_add secs IN_FLIGHT_DEADLINE_BUFFER_SECS))); [|done].
  destruct Hr as [Hf (d' & Hd & Ed)]. split; fields; [done|]. destruct (decide (e = c)) as [->|Hne].
  - rewrite lookup_insert_eq. eexists. split; [|done]. rewrite E in Ed. injection Ed as ->. lia.
  - rewrite lookup_insert_ne by done. by exists d'.
Qed.

Lemma step_running q op c d :
  leaves_running c d op -> running q c d -> running (step q op) c d /\ given q op c = [].
Proof using QL.
  intros Hop Hr. destruct op as [e|seed now|seed now|now e|nanos now b|b|b reason|e|e id|e id|e id|now|now e secs];
    cbn [step given leaves_running] in *.
  - split; [|done]. revert Hr. apply flight_fields; unfold push; case_match; done.
  - destruct (flush_running seed now q c d Hop Hr) as [H1 H2]. split; [done|].
    destruct (flush_next seed now q).1 as [b|] eqn:E; [|done]. rewrite for_channel_ne; [done|]. by apply H2.
  - split; [|done]. by apply expire_running.
  - split; [|done]. destruct Hr as [Hf (d' & Hd & E)]. unfold mark_complete. fields.
    split; [|exists d'; split; [done|]]; destruct (retry_after q !! e) as [t|]; try destruct (now <? t)%N; fields;
      rewrite ?lookup_delete_ne by done; (done || set_solver).
  - split; [|done]. revert Hr. apply flight_fields; unfold requeue; case_match; done.
  - split; [|done]. revert Hr. by apply flight_fields.
  - split; [|done]. revert Hr. by apply flight_fields.
  - split; [|done]. revert Hr. by apply flight_fields.
  - split; [|done]. revert Hr. apply flight_fields; unfold mark_native_steer_pending; repeat case_match; done.
  - split; [|done]. revert Hr. apply flight_fields; unfold release_native_steer; repeat case_match; done.
  - split; [|done]. revert Hr. by apply flight_fields.
  - split; [|done]. revert Hr. by apply flight_fields.
  - split; [|done]. by apply extend_running.
Qed.

Lemma run_running q ops c d :
  Forall (leaves_running c d) ops -> running q c d -> running (run q ops) c d /\ total given q ops c = [].
Proof using QL.
  intros Hops. revert q. induction Hops as [|op ops Hop _ IH]; intros q Hr; [done|].
  destruct (step_running q op c d Hop Hr) as [Hr' Hg]. cbn [total]. rewrite Hg. by apply IH.
Qed.
End theory.

(** ** The properties *)

(** The state of every channel stays well formed through any operations: at
    most 500 events wait, each of its own channel; the in-flight set, deadlines
    and batch sizes cover the same channels; the retry counter stays within the
    retry limit and accompanies every throttle; a cancel reason accompanies
    every cancelled batch. *)
Theorem queue_invariant `{QE : QueueEnv, QL : !QueueEnvLaws QE} (mode : DedupMode) (ops : list QueueOp) (c : Uuid) :
  chan_wf (run (new mode) ops) c.
Proof. apply run_wf, new_wf. Qed.

(** One turn at a time per channel.  Once a batch of a channel is flushed,
    no further batch of it is flushed, whatever else happens, until the turn is
    completed or a clock reading reaches its deadline. *)
Theorem flush_exclusive `{QE : QueueEnv, QL : !QueueEnvLaws QE} (q q' : EventQueue) (seed now : N) (b : FlushBatch)
    (ops : list QueueOp) :
  flush_next seed now q = (Some b, q') ->
  Forall (leaves_running (fb_channel_id b) (now + in_flight_deadline q)) ops ->
  total given q' ops (fb_channel_id b) = [] /\ is_channel_in_flight (fb_channel_id b) (run q' ops) = true.
Proof.
  intros Hf Hops. assert (running q' (fb_channel_id b) (now + in_flight_deadline q)) as Hr.
  { pose proof (expire_keeps_deadline seed now q) as Hd. pose proof (flush_next_cases seed now q) as Hc. rewrite Hf in Hc.
    inversion Hc as [c _ _|c _ _|]; subst;
      (split; [cbn; set_solver|]; exists (now + in_flight_deadline (expire seed now q))%N;
       split; [rewrite Hd; lia|apply lookup_insert_eq]). }
  destruct (run_running q' ops _ _ Hops Hr) as [[Hin _] Hg]. split; [done|].
  unfold is_channel_in_flight. by apply bool_decide_eq_true.
Qed.

(** Flushing is fair and complete.  The batch comes from a ready channel
    whose head has waited longest; it holds the first events of that channel, at
    most 50, in order of creation, with the channel's cancelled events merged
    in, and the rest stay queued.  Without a ready channel a cancelled batch of
    an idle channel is sent again; and nothing is flushed exactly when
    [has_flushable_work] says so, in whatever order the maps are read. *)
Theorem flush_fair `{QE : QueueEnv, QL : !QueueEnvLaws QE} (q : EventQueue) (seed seed' now : N) :
  let q1 := expire seed now q in
  match flush_next seed now q with
  | (Some b, q') =>
      let c := fb_channel_id b in
      (ready_channel now q1 c /\ (forall c', ready_channel now q1 c' -> (head_time q1 c <= head_time q1 c')%N) /\
       fb_events b ≡ₚ to_batch <$> take MAX_BATCH_EVENTS (entry (queues q1) c) /\
       StronglySorted (fun x y => created_at_le x y = true) (fb_events b) /\
       entry (queues q') c = drop MAX_BATCH_EVENTS (entry (queues q1) c) /\
       fb_cancelled_events b = entry (cancelled_batches q1) c)
      \/
      ((forall c', ~ ready_channel now q1 c') /\ idle_cancel q1 c /\
       fb_events b = entry (cancelled_batches q1) c /\ fb_cancelled_events b = [])
  | (None, q') => q' = q1 /\ (has_flushable_work seed' now q).1 = false
  end /\ (is_Some (flush_next seed now q).1 <-> (has_flushable_work seed' now q).1 = true).
Proof.
  intros q1. assert (expire seed now q = q1) as E1 by done.
  assert ((exists c, ready_channel now q1 c \/ idle_cancel q1 c) <-> (has_flushable_work seed' now q).1 = true) as Hw.
  { rewrite has_work_iff. apply exist_proper. intros c. unfold q1.
    pose proof (same_at_trans _ _ _ c (same_at_sym _ _ _ (expire_at seed now q c)) (expire_at seed' now q c)) as [Hq Hf _ _ Ha _ Hc _ _].
    unfold ready_channel, idle_cancel, ready. cbn [fst snd]. rewrite Hq, Ha, Hc.
    rewrite (bool_decide_ext _ _ Hf). by setoid_rewrite Hf. }
  destruct (flush_next_cases seed now q) as [c Hr Hmin|c Hn Hi|Hn Hi]; rewrite ?E1 in *; clearbody q1; fields.
  - split; [|split; [intros _; apply Hw; exists c; by left|by eexists]].
    left. unfold flush_queued, mark_in_flight. cbn [fst snd fb_channel_id fb_events fb_cancelled_events]. fields.
    assert (forall A (l : list A), take (Nat.min MAX_BATCH_EVENTS (length l)) l = take MAX_BATCH_EVENTS l /\
              drop (Nat.min MAX_BATCH_EVENTS (length l)) l = drop MAX_BATCH_EVENTS l) as Hm.
    { intros A l. destruct (Nat.min_spec MAX_BATCH_EVENTS (length l)) as [[? ->]|[? ->]]; [done|].
      rewrite firstn_all, drop_all, take_ge, drop_ge by lia. done. }
    destruct (Hm _ (entry (queues q1) c)) as [Ht Hd]. rewrite ?Ht, ?Hd.
    split_and!; [done|done|apply sort_by_perm| |by rewrite entry_put|done].
    apply sort_by_sorted; unfold created_at_le; intros; lia.
  - split; [|split; [intros _; apply Hw; exists c; by right|by eexists]]. right. done.
  - assert ((has_flushable_work seed' now q).1 = false) as Hf.
    { apply not_true_iff_false. rewrite <-Hw. intros [c [?|?]]; [by eapply Hn|by eapply Hi]. }
    split; [done|]. rewrite Hf. split; [by intros [? ?]|done].
Qed.

(** C16: the queue never loses or duplicates an event by accident.  Over any
    sequence of operations the events a channel has taken in are, one for one,
    those it still holds, those it has handed to an agent and those it has
    discarded, where an event is discarded only by a full queue (the oldest on a
    push, the newest when events are put back in front), by draining the
    channel, or because a steer delivered it. *)
Theorem queue_conserves `{QE : QueueEnv, QL : !QueueEnvLaws QE} (mode : DedupMode) (ops : list QueueOp) (c : Uuid) :
  total taken (new mode) ops c ≡ₚ
  held (run (new mode) ops) c ++ total given (new mode) ops c ++ total discarded (new mode) ops c.
Proof. apply (run_accounts (new mode) ops c), new_wf. Qed.

(** ** Retries *)

Lemma capped_secs_range attempt : (5 <= capped_secs attempt <= 300)%N.
Proof.
  unfold capped_secs, u64_saturating_mul, BASE_RETRY_DELAY_SECS, MAX_RETRY_DELAY_SECS.
  assert (1 <= N.shiftl 1 (N.min (attempt - 1) 6) <= 64)%N as [H1 H2]; [|unfold u64_max; lia].
  rewrite N.shiftl_1_l. split; [apply N.lt_pred_le, N.neq_0_lt_0, N.pow_nonzero; done|].
  transitivity (2 ^ 6)%N; [|done]. apply N.pow_le_mono_r; lia.
Qed.

(** With less than a second of nanoseconds the factor stays below 0.8932. *)
Lemma exact_backoff_range secs nanos :
  (nanos < 1000000000)%N ->
  (8 * from_secs secs <= 10 * (exact_backoff secs nanos + 1) /\ 10000 * exact_backoff secs nanos <= 8932 * from_secs secs)%N.
Proof.
  intros Hn. unfold exact_backoff. set (s := from_secs secs). set (u := u32_max).
  assert (u = 4294967295)%N as Hu by done.
  pose proof (N.div_mod (s * (8 * u + 4 * nanos)) (10 * u) ltac:(lia)) as E.
  pose proof (N.mod_lt (s * (8 * u + 4 * nanos)) (10 * u) ltac:(lia)) as Hm.
  set (d := (_ / _)%N) in *. set (m := (_ mod _)%N) in *. clearbody d m s u. subst u. nia.
Qed.

Section retries.
Context `{QE : QueueEnv, QL : !QueueEnvLaws QE}.

Lemma backoff_range secs nanos :
  (5 <= secs <= 300)%N -> (nanos < 1000000000)%N ->
  (8 * from_secs secs <= 10 * backoff_delay secs nanos + 10010 /\
   10000 * backoff_delay secs nanos <= 8932 * from_secs secs + 10000000)%N.
Proof using QL.
  intros Hs Hn. pose proof (backoff_close secs nanos ltac:(lia)) as Hc.
  pose proof (exact_backoff_range secs nanos Hn) as [H1 H2]. unfold u64_abs_diff in Hc.
  destruct (N.leb_spec (backoff_delay secs nanos) (exact_backoff secs nanos)); lia.
Qed.

Lemma delay_seconds secs delay :
  (5 <= secs <= 300)%N -> (8 * from_secs secs <= 10 * delay + 10010)%N ->
  (10000 * delay <= 8932 * from_secs secs + 10000000)%N -> (from_secs 39 < 10 * delay /\ delay < from_secs 268)%N.
Proof. unfold from_secs. lia. Qed.

Lemma throttled_not_ready now q c t : retry_after q !! c = Some t -> (now < t)%N -> ~ ready_channel now q c.
Proof.
  intros Ha Hlt (l & _ & H). unfold ready in H. cbn [fst snd] in H. rewrite Ha in H.
  apply andb_true_iff in H as [_ H]. lia.
Qed.
End retries.

(** Retries are bounded and spaced.  A failed batch is put back in front of
    its channel and the retry counter grows by one, up to ten; the channel is
    then not flushed for 0.8 to 0.8932 times the capped exponential delay (so
    for at least 3.9 and at most 268 seconds), and completing the turn before that keeps the counter.
    The batch that fails with the counter at ten is returned instead, and the
    counter and the throttle of the channel are cleared. *)
Theorem retry_bounded `{QE : QueueEnv, QL : !QueueEnvLaws QE} (q : EventQueue) (nanos now : N) (b : FlushBatch) :
  (nanos < 1000000000)%N ->
  let c := fb_channel_id b in
  let n := default 0%N (retry_counts q !! c) in
  match requeue nanos now b q with
  | (Some dead, q') =>
      (MAX_RETRIES <= n)%N /\ dead = b /\ queues q' = queues q /\ retry_counts q' !! c = None /\ retry_after q' !! c = None
  | (None, q') =>
      (n < MAX_RETRIES)%N /\ retry_counts q' !! c = Some (n + 1)%N /\
      entry (queues q') c = push_front_capped (from_batch c <$> fb_events b) (entry (queues q) c) /\
      exists delay, retry_after q' !! c = Some (now + delay)%N /\
        (8 * from_secs (capped_secs (n + 1)) <= 10 * delay + 10010 /\
         10000 * delay <= 8932 * from_secs (capped_secs (n + 1)) + 10000000 /\
         from_secs 39 < 10 * delay /\ delay < from_secs 268)%N /\
        forall t, (t < now + delay)%N ->
          ~ ready_channel t q' c /\ retry_counts (mark_complete t c q') !! c = Some (n + 1)%N
  end.
Proof.
  intros Hn c n. unfold requeue. fold c. fold n.
  destruct (N.ltb_spec MAX_RETRIES (n + 1)) as [Hlt|Hle].
  - fields. rewrite !lookup_delete_eq. split_and!; [lia|done..].
  - pose proof (capped_secs_range (n + 1)) as Hr. pose proof (backoff_range _ nanos Hr Hn) as [B1 B2].
    pose proof (delay_seconds _ _ Hr B1 B2) as [B3 B4]. 
    fields. rewrite !lookup_insert_eq, entry_insert. split; [lia|]. split; [reflexivity|]. split; [reflexivity|].
    exists (backoff_delay (capped_secs (n + 1)) nanos). split; [reflexivity|].
    split; [exact (conj B1 (conj B2 (conj B3 B4)))|].
    intros t Ht. split; [eapply throttled_not_ready; [fields; apply lookup_insert_eq|exact Ht]|].
    unfold mark_complete. fields. rewrite lookup_insert_eq, (proj2 (N.ltb_lt _ _) Ht). fields. apply lookup_insert_eq.
Qed.

(** ** Witnesses *)

#[global] Instance demo_queue_env : QueueEnv := {|
  hash_iter V _ m := map_to_list m;
  backoff_delay := exact_backoff;
|}.

#[global] Instance demo_queue_laws : QueueEnvLaws demo_queue_env.
Proof.
  split; [done|]. intros secs nanos _. unfold u64_abs_diff. simpl. rewrite N.leb_refl. lia.
Qed.

Definition demo_queued (id : string) (c : Uuid) (created at_ : N) : QueuedEvent :=
  mkQueued c (demo_event id "alice" created 9 []) at_ "mention".

(** A newer event is replayed first; another channel waits longer. *)
Definition demo_ops : list QueueOp :=
  [OpPush (demo_queued "b" 1 20 5); OpPush (demo_queued "a" 1 10 6); OpPush (demo_queued "c" 2 15 4);
   OpFlush 0 100; OpFlush 0 100; OpMark 1 "z"; OpPush (demo_queued "d" 1 30 7); OpMark 1 "d"].

Definition demo_queue : EventQueue := run (new Queue) (take 3 demo_ops).

Definition demo_batch : FlushBatch := (flush_queued 100 2 demo_queue).1.
Definition demo_flushed : EventQueue := (flush_next 0 100 demo_queue).2.

Lemma demo_flush : flush_next 0 100 demo_queue = (Some demo_batch, demo_flushed).
Proof. unfold demo_flushed, demo_batch. vm_compute. reflexivity. Qed.

Example demo_flush_order :
  ((fun be => ev_id (be_event be)) <$> fb_events demo_batch,
   (fun b => (fun be => ev_id (be_event be)) <$> fb_events b) <$> (flush_next 0 100 demo_flushed).1,
   (has_flushable_work 0 100 (run (new Queue) demo_ops)).1) = (["c"], Some ["a"; "b"], false).
Proof. vm_compute. reflexivity. Qed.

Lemma queue_conserves_witness :
  total taken (new Queue) demo_ops 1 ≡ₚ
  held (run (new Queue) demo_ops) 1 ++ total given (new Queue) demo_ops 1 ++ total discarded (new Queue) demo_ops 1.
Proof. exact (queue_conserves Queue demo_ops 1%N). Defined.

Lemma queue_invariant_witness : chan_wf (run (new Drop) demo_ops) 1.
Proof. exact (queue_invariant Drop demo_ops 1%N). Defined.

Lemma flush_exclusive_witness :
  total given demo_flushed [OpPush (demo_queued "e" 2 1 1); OpFlush 0 200; OpFlush 0 300] 2 = [] /\
  is_channel_in_flight 2 (run demo_flushed [OpPush (demo_queued "e" 2 1 1); OpFlush 0 200; OpFlush 0 300]) = true.
Proof.
  apply (flush_exclusive demo_queue demo_flushed 0 100 demo_batch _ demo_flush).
  repeat constructor; vm_compute; reflexivity.
Defined.

Lemma flush_fair_witness :
  is_Some (flush_next 0 100 demo_queue).1 <-> (has_flushable_work 7 100 demo_queue).1 = true.
Proof. exact (proj2 (flush_fair demo_queue 0 7 100)). Defined.

Lemma retry_bounded_witness :
  match requeue 5 1000 demo_batch demo_flushed with
  | (Some _, _) => False
  | (None, q') => retry_counts q' !! 2%N = Some 1%N
  end.
Proof.
  pose proof (retry_bounded demo_flushed 5 1000 demo_batch ltac:(lia)) as H.
  destruct (requeue 5 1000 demo_batch demo_flushed) as [[dead|] q'] eqn:E; cbn zeta beta in H.
  - destruct H as [H _]. exfalso. revert H. vm_compute. intros H. apply H. reflexivity.
  - destruct H as (_ & H & _). exact H.
Defined.
