(* ===== verification/AgentBridge.v ===== *)
(** * The agent bridge around its queue

    Three parts of [buzz-acp]: the lifecycle of a lazily started pool
    ([pool_lifecycle.rs]), claiming and returning agents ([AgentPool] of
    [pool.rs]), and the two functions of [lib.rs] that connect the pool with the
    event queue: [dispatch_pending], and the part of [handle_prompt_result] that
    decides what becomes of the batch of a finished turn.  Spawning tasks,
    sessions and observers are not modelled: a dispatched turn is recorded as
    the agent and the batch its task owns. *)

From S2P Require Import Prelude Text Nostr Demo EventQueue EventQueueTheory.

(** ** Pool lifecycle *)

Module PoolLifecycle.
Definition INITIAL_RETRY_DELAY : N := 5.
Definition MAX_RETRY_DELAY : N := 300.

Section lifecycle.
Context {P : Type}.

Inductive t :=
| Listening
| Waking (attempt : N)
| Ready (pool : P)
| Failed (attempt : N) (retry_at : N) (error : string).

Definition listening : t := Listening.

Definition start_wake_if_due (s : t) (has_pending_work : bool) (now : N) : t * option N :=
  if negb has_pending_work then (s, None)
  else
    let next_attempt :=
      match s with
      | Listening => Some 1%N
      | Failed attempt retry_at _ => if (retry_at <=? now)%N then Some (N.min (attempt + 1) u32_max) else None
      | Waking _ | Ready _ => None
      end in
    (match next_attempt with Some attempt => Waking attempt | None => s end, next_attempt).

Definition take_ready (s : t) : t * option P :=
  match s with Ready pool => (Listening, Some pool) | other => (other, None) end.

Definition waking_attempt (s : t) : option N := match s with Waking attempt => Some attempt | _ => None end.
Definition retry_at (s : t) : option N := match s with Failed _ at_ _ => Some at_ | _ => None end.
Definition failed_error (s : t) : option string := match s with Failed _ _ error => Some error | _ => None end.

(** [1_u64.checked_shl(exponent)] of an exponent below 64. *)
Definition retry_delay (attempt : N) : N :=
  let exponent := N.min (attempt - 1) 63 in
  let multiplier := N.shiftl 1 exponent in
  from_secs (N.min (u64_saturating_mul INITIAL_RETRY_DELAY multiplier) MAX_RETRY_DELAY).

Definition complete_wake (s : t) (completed_attempt : N) (res : result string P) (now : N) : t * result string unit :=
  match s with
  | Waking attempt =>
      if (attempt =? completed_attempt)%N then
        (match res with
         | Ok pool => Ready pool
         | Err error => Failed attempt (now + retry_delay attempt)%N error
         end, Ok tt)
      else (s, Err "wake result attempt did not match Waking attempt")
  | _ => (s, Err "wake completed while lifecycle was not Waking")
  end.

Definition cancel_wake (s : t) (attempt : N) (error : string) (now : N) : t * bool :=
  let '(s, r) := complete_wake s attempt (Err error) now in (s, is_ok r).
End lifecycle.
Arguments t : clear implicits.
End PoolLifecycle.

(** ** Agents *)

Record OwnedAgent := mkAgent {
  agent_index : nat;
  agent_sessions : gmap Uuid string;
}.

(** The slots of [AgentPool]; [None] is an agent that is checked out. *)
Definition Slots := list (option OwnedAgent).

Definition has_session (c : Uuid) (slot : option OwnedAgent) : bool :=
  match slot with Some a => bool_decide (is_Some (agent_sessions a !! c)) | None => false end.

Definition is_idle (slot : option OwnedAgent) : bool := match slot with Some _ => true | None => false end.

(** [self.agents[i].take()] *)
Definition take_slot (slots : Slots) (i : nat) : option OwnedAgent * Slots :=
  (mjoin (slots !! i), <[i := None]> slots).

Definition try_claim (slots : Slots) (channel_id : option Uuid) : option OwnedAgent * Slots :=
  match (c ← channel_id; position (has_session c) slots) with
  | Some i => take_slot slots i
  | None =>
      match position is_idle slots with
      | Some i => take_slot slots i
      | None => (None, slots)
      end
  end.

(** [None] is the panic of an index out of range. *)
Definition return_agent (slots : Slots) (agent : OwnedAgent) : option Slots :=
  if (agent_index agent <? length slots)%nat then Some (<[agent_index agent := Some agent]> slots) else None.

Definition any_idle (slots : Slots) : bool := existsb is_idle slots.
Definition has_session_for (slots : Slots) (c : Uuid) : bool := existsb (has_session c) slots.

(** A turn that was handed to an agent. *)
Record Turn := mkTurn { turn_agent : OwnedAgent; turn_batch : FlushBatch }.

(** ** Outcomes *)

Inductive AcpError :=
| Acp_Io (e : string)
| Acp_Json (e : string)
| Acp_AgentExited
| Acp_IdleTimeout (d : N)
| Acp_HardTimeout (silence : N)
| Acp_CancelDrainTimeout (d : N)
| Acp_Timeout (d : N)
| Acp_WriteTimeout (d : N)
| Acp_Protocol (e : string)
| Acp_AgentError (code : Z) (message : string).

Inductive TimeoutKind := Idle | Hard (recently_active : bool).

(** The stop reason of a successful turn plays no part here. *)
Inductive PromptOutcome :=
| PO_Ok
| PO_Error (e : AcpError)
| PO_AgentExited
| PO_Timeout (k : TimeoutKind)
| PO_Cancelled
| PO_CancelDrainTimeout (grace : N).

Inductive PromptSource := Channel (c : Uuid) | Heartbeat.

Inductive ControlSignal := CS_Cancel | CS_Interrupt | CS_Steer | CS_Rotate | CS_SwitchModel (model : string).

Definition is_auth_error (error : AcpError) : bool :=
  match error with
  | Acp_AgentError _ message => str_contains "Re-authenticate" message || str_contains "API Error: 401" message
  | _ => false
  end.

Definition requeue_batch_if_queue (mode : DedupMode) (batch : option FlushBatch) : option FlushBatch :=
  match mode with Queue => batch | Drop => None end.

Definition requeue_cancelled_batch (mode : DedupMode) (signal : ControlSignal) (batch : option FlushBatch)
    : option FlushBatch :=
  let with_reason reason :=
    (fun b => mkBatch (fb_channel_id b) (fb_events b) (fb_cancelled_events b) (Some reason)) <$>
      requeue_batch_if_queue mode batch in
  match signal with
  | CS_Steer => with_reason Steer
  | CS_Interrupt | CS_SwitchModel _ => with_reason Interrupt
  | CS_Cancel | CS_Rotate => None
  end.

Section bridge.
Context `{QE : QueueEnv}.

(** ** Dispatch *)

(** The loop of [dispatch_pending].  Each round reads a clock; [None] means the
    readings ran out. *)
Fixpoint dispatch_pending (readings : list (N * N)) (slots : Slots) (q : EventQueue)
    : option (list Turn * Slots * EventQueue) :=
  match readings with
  | [] => None
  | (seed, now) :: readings =>
      match flush_next seed now q with
      | (None, q) => Some ([], slots, q)
      | (Some batch, q) =>
          match try_claim slots (Some (fb_channel_id batch)) with
          | (None, slots) =>
              Some ([], slots, mark_complete now (fb_channel_id batch) (requeue_preserve_timestamps batch q))
          | (Some agent, slots) =>
              '(turns, slots, q) ← dispatch_pending readings slots q;
              Some (mkTurn agent batch :: turns, slots, q)
          end
      end
  end.

(** ** Settling a turn *)

(** Printing an error is left to its [Display]. *)
Context (display : AcpError -> string) (max_turn_duration_secs : N).

Definition hard_cap : string := "the turn exceeded the maximum duration (" +:+ u64_to_string max_turn_duration_secs +:+ "s)".

Definition failure_reason (outcome : PromptOutcome) : string :=
  match outcome with
  | PO_Timeout Idle => "the turn timed out"
  | PO_Timeout (Hard _) => "the turn exceeded the maximum duration"
  | PO_AgentExited => "the agent process exited"
  | PO_Error e => display e
  | _ => "repeated failures"
  end.

Definition after_retries (reason : string) : string :=
  "⚠️ I couldn't process the last request after multiple retries (" +:+ reason +:+ "). Please re-send if it's still needed.".

(** What happens to the batch of a finished turn: the queue and the notice that
    is posted. *)
Definition settle_batch (removed_channels : gset Uuid) (nanos now : N) (outcome : PromptOutcome) (batch : FlushBatch)
    (q : EventQueue) : EventQueue * option string :=
  if bool_decide (fb_channel_id batch ∈ removed_channels) then (q, None)
  else
    let retry reason :=
      match requeue nanos now batch q with
      | (Some _, q) => (q, Some (after_retries reason))
      | (None, q) => (q, None)
      end in
    match outcome with
    | PO_Cancelled | PO_CancelDrainTimeout _ =>
        (requeue_as_cancelled batch (default Steer (fb_cancel_reason batch)) q, None)
    | PO_Timeout (Hard false) =>
        (q, Some ("⚠️ I couldn't process the last request (" +:+ hard_cap +:+ "). Please re-send if it's still needed."))
    | PO_Timeout (Hard true) => retry hard_cap
    | PO_Error e =>
        if is_auth_error e then
          (q, Some ("⚠️ I couldn't process the last request: authentication failed. Please re-authenticate the CLI " +:+
                    "(e.g. run `claude /login` or `codex login`) and then re-send."))
        else retry (failure_reason outcome)
    | _ => retry (failure_reason outcome)
    end.

(** The queue's part of [handle_prompt_result]; the two clock readings are those
    of [requeue] and [mark_complete]. *)
Definition settle (removed_channels : gset Uuid) (nanos now later : N) (source : PromptSource) (outcome : PromptOutcome)
    (batch : option FlushBatch) (q : EventQueue) : EventQueue * option string :=
  let '(q, notice) := match batch with
                      | Some b => settle_batch removed_channels nanos now outcome b q
                      | None => (q, None)
                      end in
  (match source with Channel c => mark_complete later c q | Heartbeat => q end, notice).

(** The queue's part of [recover_panicked_agent]. *)
Definition recover_panicked (removed_channels : gset Uuid) (nanos now later : N) (channel_id : option Uuid)
    (recoverable_batch : option FlushBatch) (q : EventQueue) : EventQueue :=
  let q := match recoverable_batch, channel_id with
           | Some b, Some c => if bool_decide (c ∈ removed_channels) then q else (requeue nanos now b q).2
           | _, _ => q
           end in
  match channel_id with Some c => mark_complete later c q | None => q end.
End bridge.

(** ** Claims *)

(** The agents sitting in their slots. *)
Definition idle_agents (slots : Slots) : list OwnedAgent := omap id slots.

Lemma take_slot_idle (slots : Slots) i a :
  slots !! i = Some (Some a) -> take_slot slots i = (Some a, <[i := None]> slots) /\
    idle_agents slots ≡ₚ a :: idle_agents (<[i := None]> slots).
Proof.
  intros H. unfold take_slot. rewrite H. split; [done|]. revert i H. induction slots as [|s slots IH]; intros [|i] H; simpl in *; simplify_eq.
  - done.
  - destruct s as [b|]; simpl; [|by apply IH]. rewrite (IH i H). apply Permutation_swap.
Qed.

(** A claim takes one idle agent, and fails only when there is none. *)
Lemma try_claim_spec slots c :
  match try_claim slots c with
  | (Some a, slots') => idle_agents slots ≡ₚ a :: idle_agents slots'
  | (None, slots') => slots' = slots /\ any_idle slots = false
  end.
Proof.
  unfold try_claim. destruct (c ≫= _) as [i|] eqn:E.
  - destruct c as [c|]; [|done]. simpl in E. apply position_lookup in E as ([a|] & Ha & Hs); [|done].
    destruct (take_slot_idle slots i a Ha) as [-> Hp]. done.
  - destruct (position is_idle slots) as [i|] eqn:Ei.
    + apply position_lookup in Ei as ([a|] & Ha & Hs); [|done]. destruct (take_slot_idle slots i a Ha) as [-> Hp]. done.
    + split; [done|]. apply position_none in Ei. unfold any_idle. apply existsb_elem_false. by apply Forall_forall.
Qed.

(** ** The dispatch loop *)

Section dispatch.
Context `{QE : QueueEnv, QL : !QueueEnvLaws QE}.

(** The channels with work that are not in flight. *)
Definition waiting (q : EventQueue) : gset Uuid :=
  (dom (queues q) ∪ dom (cancelled_batches q)) ∖ in_flight_channels q.

(** No deadline before [limit]. *)
Definition calm (limit : N) (q : EventQueue) : Prop :=
  forall c d, in_flight_deadlines q !! c = Some d -> (limit <= d)%N.

Lemma calm_expire limit seed now q : calm limit q -> (now < limit)%N -> expire seed now q = q.
Proof using QL.
  intros Hc Hn. change (expire seed now q) with (foldl expire_one q (expired_ids seed now q)).
  destruct (expired_ids seed now q) as [|c l] eqn:E; [done|].
  assert (overdue now q c = true) as H by (apply (expired_ids_elem seed); rewrite E; left).
  unfold overdue in H. destruct (in_flight_deadlines q !! c) as [d|] eqn:Ed; [|done]. specialize (Hc c d Ed). lia.
Qed.

Lemma mark_in_flight_calm limit now c n q :
  calm limit q -> (limit <= now + in_flight_deadline q)%N -> calm limit (mark_in_flight now c n q).
Proof.
  intros Hc Hl c' d. unfold mark_in_flight. fields. destruct (decide (c = c')) as [->|Hne].
  - rewrite lookup_insert_eq. intros [= <-]. done.
  - rewrite lookup_insert_ne by done. apply Hc.
Qed.

Lemma ready_waiting now q c : ready_channel now q c -> c ∈ waiting q.
Proof.
  intros H. pose proof (ready_not_in_flight _ _ _ H). destruct H as (l & Hl & _). unfold waiting.
  rewrite elem_of_difference, elem_of_union, !elem_of_dom. split; [|done]. left. by eexists.
Qed.

Lemma idle_waiting q c : idle_cancel q c -> c ∈ waiting q.
Proof. intros [H Hn]. unfold waiting. rewrite elem_of_difference, elem_of_union, !elem_of_dom. by split; [right|]. Qed.

(** What one round of the loop relies on. *)
Record flushed (limit : N) (q : EventQueue) (b : FlushBatch) (q' : EventQueue) : Prop := {
  fl_waiting : fb_channel_id b ∈ waiting q;
  fl_fewer : waiting q' ⊆ waiting q ∖ {[fb_channel_id b]};
  fl_calm : calm limit q';
  fl_span : in_flight_deadline q' = in_flight_deadline q;
  fl_flight : in_flight_channels q' = {[fb_channel_id b]} ∪ in_flight_channels q;
  fl_none : (forall c, cancelled_batches q !! c = None) -> forall c, cancelled_batches q' !! c = None;
}.

Lemma dom_put_or_remove {A} c (l : list A) (m : gmap Uuid (list A)) : dom (put_or_remove c l m) ⊆ {[c]} ∪ dom m.
Proof. clear QL QE. destruct l; simpl; [rewrite dom_delete_L|rewrite dom_insert_L]; set_solver. Qed.

Lemma flush_round limit seed now q b q' :
  calm limit q -> (now < limit)%N -> (limit <= now + in_flight_deadline q)%N ->
  flush_next seed now q = (Some b, q') -> flushed limit q b q'.
Proof using QL.
  intros Hc Hn Hl Hf. pose proof (flush_next_cases seed now q) as H. rewrite (calm_expire limit) in H by done. rewrite Hf in H.
  remember (Some b, q') as r eqn:Er. destruct H as [c Hr _|c _ Hi|_ _]; [| |done]; injection Er as <- <-.
  - split; try done; cbn [flush_queued fst snd fb_channel_id]; fields.
    + by eapply ready_waiting.
    + unfold waiting, mark_in_flight. fields. pose proof (dom_put_or_remove c (drop (Nat.min MAX_BATCH_EVENTS
        (length (entry (queues q) c))) (entry (queues q) c)) (queues q)). rewrite dom_delete_L. set_solver.
    + intros c' d. apply (mark_in_flight_calm limit now c 0 q Hc Hl).
    + intros Hno c'. change (delete c (cancelled_batches q) !! c' = None). apply lookup_delete_None. right. apply Hno.
  - split; try done; cbn [flush_cancelled fst snd fb_channel_id]; fields.
    + by apply idle_waiting.
    + unfold waiting, mark_in_flight. fields. rewrite dom_delete_L. set_solver.
    + intros c' d. apply (mark_in_flight_calm limit now c 0 q Hc Hl).
    + intros Hno c'. change (delete c (cancelled_batches q) !! c' = None). apply lookup_delete_None. right. apply Hno.
Qed.

(** The events of channel [c] that the turns carry. *)
Definition turn_events (turns : list Turn) (c : Uuid) : list QueuedEvent :=
  concat ((fun t => for_channel (fb_channel_id (turn_batch t)) c (batch_events (turn_batch t))) <$> turns).

Lemma flush_held limit seed now q b q' c :
  calm limit q -> (now < limit)%N -> chan_wf q c -> flush_next seed now q = (Some b, q') ->
  chan_wf q' c /\ held q c ≡ₚ held q' c ++ for_channel (fb_channel_id b) c (batch_events b).
Proof using QL.
  intros Hc Hn Hwf Hf. destruct (flush_accounts seed now q c Hwf) as [Hwf' Hp].
  cbn [step given discarded] in *. rewrite Hf in Hwf', Hp. cbn [fst snd] in *. split; [done|].
  assert (expiry_overflow now q c = []) as Ho.
  { unfold expiry_overflow, overdue. destruct (in_flight_deadlines q !! c) as [d|] eqn:E; [|done].
    specialize (Hc c d E). by assert ((d <=? now)%N = false) as -> by lia. }
  by rewrite Ho, !app_nil_r in Hp.
Qed.

(** A refused batch of queued events goes back whole. *)
Lemma refused_held limit seed now q b q' c :
  calm limit q -> (now < limit)%N -> chan_wf q c -> (forall d, cancelled_batches q !! d = None) ->
  flush_next seed now q = (Some b, q') ->
  held (mark_complete now (fb_channel_id b) (requeue_preserve_timestamps b q')) c ≡ₚ held q c.
Proof using QL.
  intros Hc Hn Hwf Hno Hf. pose proof (flush_next_cases seed now q) as H. rewrite (calm_expire limit) in H by done. rewrite Hf in H.
  remember (Some b, q') as r eqn:Er. destruct H as [d Hr _|d _ [[l Hi] _]|_ _]; [|by rewrite Hno in Hi|done]. injection Er as <- <-.
  set (q1 := requeue_preserve_timestamps _ _).
  assert (chan_wf (flush_queued now d q).2 c) as Hwf1.
  { destruct (decide (d = c)) as [->|Hne]; [by apply flush_queued_wf|]. eapply chan_wf_same; [by apply flush_queued_same|done]. }
  destruct (preserve_accounts (flush_queued now d q).1 (flush_queued now d q).2 c Hwf1) as [Hwf2 Hp]. cbn [step] in *. fold q1 in Hwf2, Hp.
  destruct (complete_accounts now d q1 c Hwf2) as [_ Hm]. rewrite !app_nil_r in Hm.
  change (fb_channel_id (flush_queued now d q).1) with d. rewrite <-Hm. cbn [taken discarded] in Hp.
  change (fb_channel_id (flush_queued now d q).1) with d in Hp.
  destruct (decide (d = c)) as [->|Hne].
  2: { rewrite !for_channel_ne, !app_nil_r in Hp by done. etransitivity; [symmetry; exact Hp|].
       by rewrite (held_same _ _ _ (flush_queued_same now d c q Hne)). }
  rewrite !for_channel_eq in Hp. rewrite (flush_queued_held now c q Hwf).
  assert (batch_events (flush_queued now c q).1 = from_batch c <$> fb_events (flush_queued now c q).1) as ->.
  { unfold batch_events, flush_queued. cbn [fst fb_channel_id fb_events fb_cancelled_events]. unfold entry at 3. rewrite Hno.
    cbn [default]. by rewrite app_nil_r. }
  symmetry. etransitivity; [exact Hp|]. assert (overflow (from_batch c <$> fb_events (flush_queued now c q).1) (entry (queues (flush_queued now c q).2) c) = []) as ->;
    [|by rewrite app_nil_r].
  unfold overflow. apply drop_ge. rewrite length_app, length_fmap. unfold flush_queued, mark_in_flight. cbn [fst fb_events]. fields.
  rewrite entry_put, length_sort_by, length_fmap, length_take, length_drop. pose proof (wf_cap _ _ Hwf). lia.
Qed.

(** The postcondition of the loop. *)
Record dispatched (q : EventQueue) (slots : Slots) (readings : list (N * N)) (turns : list Turn) (slots' : Slots) (q' : EventQueue)
    : Prop := {
  di_distinct : NoDup ((fun t => fb_channel_id (turn_batch t)) <$> turns);
  di_flight : forall t, t ∈ turns ->
    ~ fb_channel_id (turn_batch t) ∈ in_flight_channels q /\ fb_channel_id (turn_batch t) ∈ in_flight_channels q';
  di_agents : idle_agents slots ≡ₚ (turn_agent <$> turns) ++ idle_agents slots';
  di_served : any_idle slots' = false \/ exists r, r ∈ readings /\ forall seed, (has_flushable_work seed r.2 q').1 = false;
  di_events : (forall c, cancelled_batches q !! c = None) -> forall c, chan_wf q c ->
    held q c ≡ₚ held q' c ++ turn_events turns c;
}.

Lemma flush_none_done seed now q q' seed' limit :
  calm limit q -> (now < limit)%N -> flush_next seed now q = (None, q') -> q' = q /\ (has_flushable_work seed' now q').1 = false.
Proof using QL.
  intros Hc Hn Hf. pose proof (flush_next_cases seed now q) as H. rewrite (calm_expire limit) in H by done. rewrite Hf in H.
  remember (None, q') as r eqn:Er. destruct H as [d Hr _|d _ Hi|Hr Hi]; [done..|]. injection Er as <-. split; [done|].
  apply not_true_iff_false. rewrite has_work_iff, (calm_expire limit) by done. intros [c [?|?]]; [by eapply Hr|by eapply Hi].
Qed.

Lemma dispatch_spec limit start readings slots q :
  calm limit q -> (limit <= start + in_flight_deadline q)%N -> Forall (fun r => start <= r.2 < limit)%N readings ->
  size (waiting q) < length readings ->
  exists turns slots' q', dispatch_pending readings slots q = Some (turns, slots', q') /\
    dispatched q slots readings turns slots' q' /\ (forall c, c ∈ in_flight_channels q -> c ∈ in_flight_channels q').
Proof using QL.
  intros Hc Hl Hr. revert slots q Hc Hl. induction Hr as [|[seed now] readings [Hs Hn] Hr IH]; intros slots q Hc Hl Hsz; simpl in *; [lia|].
  destruct (flush_next seed now q) as [[b|] q1] eqn:Hf.
  - pose proof (flush_round limit seed now q b q1 Hc Hn ltac:(lia) Hf) as [F1 F2 F3 F4 F5 F6].
    assert (~ fb_channel_id b ∈ in_flight_channels q) as Hnf by (unfold waiting in F1; set_solver).
    pose proof (try_claim_spec slots (Some (fb_channel_id b))) as Hcl.
    destruct (try_claim slots _) as [[a|] slots1].
    + assert (size (waiting q1) < size (waiting q)) as Hlt.
      { apply subset_size. set_solver. }
      destruct (IH slots1 q1 F3 ltac:(lia) ltac:(lia)) as (turns & slots' & q' & -> & [D1 D2 D3 D4 D5] & Hmono).
      do 3 eexists. split; [reflexivity|]. split; [split|].
      * rewrite fmap_cons. constructor; [|done]. intros (t & Et & Ht)%list_elem_of_fmap. apply D2 in Ht as [Ht _].
        apply Ht. rewrite <-Et, F5. set_solver.
      * intros t [->|Ht]%elem_of_cons; cbn [turn_batch]; [split; [done|]; apply Hmono; rewrite F5; set_solver|].
        destruct (D2 t Ht) as [H1 H2]. split; [|done]. rewrite F5 in H1. set_solver.
      * rewrite Hcl, D3. done.
      * destruct D4 as [?|(r & Hr' & ?)]; [by left|right]. exists r. split; [by right|done].
      * intros Hno c Hwf. destruct (flush_held limit seed now q b q1 c Hc Hn Hwf Hf) as [Hwf1 Hp].
        rewrite Hp, (D5 (F6 Hno) c Hwf1). unfold turn_events. rewrite fmap_cons. cbn [concat turn_batch].
        rewrite <-app_assoc. apply Permutation_app_head, Permutation_app_comm.
      * intros c Hcf. apply Hmono. rewrite F5. set_solver.
    + destruct Hcl as [-> Hidle]. do 3 eexists. split; [reflexivity|]. split; [split|].
      * constructor.
      * by intros t Ht%not_elem_of_nil.
      * done.
      * by left.
      * intros Hno c Hwf. unfold turn_events. simpl. rewrite app_nil_r. symmetry. by eapply refused_held.
      * intros c Hcf. unfold mark_complete. fields.
        assert (c ∈ in_flight_channels (requeue_preserve_timestamps b q1) ∖ {[fb_channel_id b]}) as H.
        { unfold requeue_preserve_timestamps. fields. rewrite F5. set_solver. }
        destruct (retry_after _ !! _) as [t|]; [destruct (now <? t)%N|]; exact H.
  - destruct (flush_none_done seed now q q1 0 limit Hc Hn Hf) as [-> _]. do 3 eexists. split; [reflexivity|]. split; [split|done].
    + constructor.
    + by intros t Ht%not_elem_of_nil.
    + done.
    + right. exists (seed, now). split; [left|]. intros seed'.
      by destruct (flush_none_done seed now q q seed' limit Hc Hn Hf).
    + intros _ c _. unfold turn_events. simpl. by rewrite app_nil_r.
Qed.
End dispatch.

(** C17: dispatching always finishes and serves everything it can.  With no
    deadline due while it runs, the loop ends after at most one round more than
    there are channels with work; it starts at most one turn per channel, each
    with an agent of its own; and when it ends no agent is idle or nothing is
    left to flush.  As long as no cancelled batch is stored, every event is still queued
    or carried by one of the turns, also when the last batch found no agent. *)
Theorem dispatch_complete `{QE : QueueEnv, QL : !QueueEnvLaws QE} (q : EventQueue) (slots : Slots)
    (readings : list (N * N)) (start limit : N) :
  calm limit q -> (limit <= start + in_flight_deadline q)%N -> Forall (fun r => start <= r.2 < limit)%N readings ->
  size (waiting q) < length readings ->
  exists turns slots' q', dispatch_pending readings slots q = Some (turns, slots', q') /\
    dispatched q slots readings turns slots' q'.
Proof.
  intros Hc Hl Hr Hs. destruct (dispatch_spec limit start readings slots q Hc Hl Hr Hs) as (t & s & q' & E & D & _). by exists t, s, q'.
Qed.

(** ** Settled turns *)

Section settle.
Context `{QE : QueueEnv}.
Context (display : AcpError -> string) (max_turn_duration_secs : N).

(** Why events of a settled batch may be gone: nobody is left to read them, a
    notice tells the channel, or the retry put back only the new events of the
    batch and these no longer fit. *)
Definition excused (removed : gset Uuid) (outcome : PromptOutcome) (b : FlushBatch) (q : EventQueue) (notice : option string)
    (gone : list QueuedEvent) : Prop :=
  gone = [] \/ fb_channel_id b ∈ removed \/ is_Some notice \/
  match outcome with PO_Cancelled | PO_CancelDrainTimeout _ => False | _ => True end /\
  gone ≡ₚ (from_batch (fb_channel_id b) <$> fb_cancelled_events b) ++
          overflow (from_batch (fb_channel_id b) <$> fb_events b) (entry (queues q) (fb_channel_id b)).

(** A batch is settled in place: its channel keeps its invariant, the others are
    left alone, and its events are accounted for. *)
Definition settled (removed : gset Uuid) (outcome : PromptOutcome) (b : FlushBatch) (q : EventQueue)
    (res : EventQueue * option string) : Prop :=
  let c := fb_channel_id b in
  (forall c', c' <> c -> same_at q res.1 c') /\
  (chan_wf q c -> chan_wf res.1 c /\ exists gone, held q c ++ batch_events b ≡ₚ held res.1 c ++ gone /\
     excused removed outcome b q res.2 gone).

Lemma settled_dropped removed outcome b q notice :
  fb_channel_id b ∈ removed \/ is_Some notice -> settled removed outcome b q (q, notice).
Proof.
  intros H. split; [intros; apply same_at_refl|]. intros Hwf. split; [done|]. eexists. split; [done|].
  unfold excused. cbn [snd]. tauto.
Qed.

Lemma settled_retry removed outcome b q nanos now notice :
  match outcome with PO_Cancelled | PO_CancelDrainTimeout _ => False | _ => True end -> is_Some notice ->
  settled removed outcome b q
    (match requeue nanos now b q with (Some _, q) => (q, notice) | (None, q) => (q, None) end).
Proof.
  intros Ho Hn. pose proof (requeue_accounts nanos now b q) as Ha. cbn [step taken discarded] in Ha.
  destruct (requeue nanos now b q) as [[dead|] q'] eqn:E; cbn [fst snd] in *.
  - split; cbn [fst snd].
    + intros c' Hne. revert E. unfold requeue. destruct (_ <? _)%N; [|done]. intros [= _ <-]. same_elsewhere.
    + intros Hwf. destruct (Ha _ Hwf) as [Hwf' Hp]. rewrite !app_nil_r in Hp. split; [done|]. exists (batch_events b).
      split; [by rewrite Hp|]. right; right; by left.
  - split; cbn [fst snd].
    + intros c' Hne. revert E. unfold requeue. destruct (_ <? _)%N; [done|]. intros [= <-]. same_elsewhere.
    + intros Hwf. destruct (Ha _ Hwf) as [Hwf' Hp]. rewrite !for_channel_eq in Hp. split; [done|].
      eexists. split; [|right; right; right; split; [done|reflexivity]].
      unfold batch_events. rewrite fmap_app, app_assoc, Hp. rewrite <-!app_assoc. apply Permutation_app_head, Permutation_app_comm.
Qed.

Lemma settled_cancelled removed outcome b q reason :
  settled removed outcome b q (requeue_as_cancelled b reason q, None).
Proof.
  split; cbn [fst snd].
  - intros c' Hne. unfold requeue_as_cancelled. same_elsewhere.
  - intros Hwf. destruct (cancel_accounts b reason q _ Hwf) as [Hwf' Hp]. cbn [step taken] in *. rewrite for_channel_eq, app_nil_r in Hp.
    split; [done|]. exists []. split; [|by left]. rewrite app_nil_r, <-Hp. unfold batch_events.
    apply Permutation_app_head, fmap_Permutation, Permutation_app_comm.
Qed.

Lemma settle_batch_settled removed nanos now outcome b q :
  settled removed outcome b q (settle_batch display max_turn_duration_secs removed nanos now outcome b q).
Proof.
  unfold settle_batch. case_bool_decide as Hrem; [apply settled_dropped; by left|].
  destruct outcome as [|e| |[|[|]]| |g].
  - by apply settled_retry.
  - destruct (is_auth_error e); [apply settled_dropped; right; by eexists|by apply settled_retry].
  - by apply settled_retry.
  - by apply settled_retry.
  - by apply settled_retry.
  - apply settled_dropped. right. by eexists.
  - apply settled_cancelled.
  - apply settled_cancelled.
Qed.

Lemma mark_complete_free now c q : ~ c ∈ in_flight_channels (mark_complete now c q).
Proof.
  unfold mark_complete. fields. destruct (retry_after q !! c) as [t|]; [destruct (now <? t)%N|]; fields; set_solver.
Qed.
End settle.


(** ** Witnesses and scenarios *)

Definition demo_slots : Slots := [Some (mkAgent 0 ∅); Some (mkAgent 1 {[2%N := "s"]})].

Lemma dispatch_complete_witness :
  exists turns slots' q', dispatch_pending [(0, 100); (0, 101); (0, 102)]%N demo_slots demo_queue = Some (turns, slots', q') /\
    dispatched demo_queue demo_slots [(0, 100); (0, 101); (0, 102)]%N turns slots' q'.
Proof.
  apply (dispatch_complete demo_queue demo_slots [(0, 100); (0, 101); (0, 102)]%N 100 1000).
  - intros c d. replace (in_flight_deadlines demo_queue) with (∅ : gmap Uuid N) by (vm_compute; reflexivity).
    rewrite lookup_empty. discriminate.
  - vm_compute. discriminate.
  - repeat constructor; vm_compute; (reflexivity || discriminate).
  - replace (size (waiting demo_queue)) with 2 by (vm_compute; reflexivity). simpl. lia.
Defined.

(** Agents and channels of the turns of a dispatch; what it leaves queued. *)
Definition turn_summary (r : list Turn * Slots * EventQueue) : list (nat * Uuid) :=
  (fun t => (agent_index (turn_agent t), fb_channel_id (turn_batch t))) <$> r.1.1.
Definition held_ids (c : Uuid) (q : EventQueue) : list string := (fun qe => ev_id (qe_event qe)) <$> held q c.
Definition queue_after (r : list Turn * Slots * EventQueue) : EventQueue := r.2.

Example demo_dispatch :
  turn_summary <$> dispatch_pending [(0, 100); (0, 101); (0, 102)]%N demo_slots demo_queue = Some [(1, 2%N); (0, 1%N)].
Proof. vm_compute. reflexivity. Qed.

(** A message steers a running turn; the merged batch finds no idle agent and is
    put back: the interrupted request is not put back with it. *)
Definition demo_steered : EventQueue :=
  (settle (fun _ => EmptyString) 7200 ∅ 0 200 201 (Channel 2) PO_Cancelled (Some demo_batch)
     (push (demo_queued "e" 2 40 8) demo_flushed).1).1.

Example refused_merge_loses_request :
  (held_ids 2 demo_steered,
   (fun r => held_ids 2 (queue_after r)) <$>
      dispatch_pending [(0, 300); (0, 301); (0, 302)]%N [Some (mkAgent 0 ∅)] demo_steered) =
  (["e"; "c"], Some ["e"]).
Proof. vm_compute. reflexivity. Qed.

(** The same retry of a merged batch. *)
Example retried_merge_loses_request :
  let b := mkBatch 2 [to_batch (demo_queued "e" 2 40 8)] [to_batch (demo_queued "c" 2 15 4)] (Some Steer) in
  held_ids 2 (settle (fun _ => EmptyString) 7200 ∅ 0 200 201 (Channel 2) PO_AgentExited (Some b) (new Queue)).1 =
  ["e"].
Proof. vm_compute. reflexivity. Qed.

(** A batch under retry that finds no idle agent: the retry counter is reset. *)
Example refused_retry_resets_count :
  let q := (settle (fun _ => EmptyString) 7200 ∅ 0 200 201 (Channel 2) PO_AgentExited (Some demo_batch) demo_flushed).1 in
  (retry_counts q !! 2%N,
   (fun r => retry_counts (queue_after r) !! 2%N) <$> dispatch_pending [(0, from_secs 10); (0, from_secs 11); (0, from_secs 12)]%N [None] q) =
  (Some 1%N, Some None).
Proof. vm_compute. reflexivity. Qed.
