(* ===== verification/GitPerms.v ===== *)
(** * Branch protection

    Channel roles ([buzz-core/src/channel.rs]) and the protection rules of a
    repository ([buzz-core/src/git_perms.rs]): ref patterns, the parsing of
    [buzz-protect] tags and the evaluation of a push.  [None] stands for the
    [unreachable!] of [matches], which [pattern_language] shows is never
    reached. *)

From S2P Require Import Prelude Text Nostr.

(** ** Roles and channels *)

Module ChannelVisibility.
Inductive t := Open | Private.
Definition as_str (v : t) : string := match v with Open => "open" | Private => "private" end.
Definition from_str (s : string) : result string t :=
  if String.eqb s "open" then Ok Open else if String.eqb s "private" then Ok Private
  else Err ("unknown channel visibility: " +:+ debug_str s).
End ChannelVisibility.

Module ChannelType.
Inductive t := Stream | Forum | Dm | Workflow.
Definition as_str (v : t) : string :=
  match v with Stream => "stream" | Forum => "forum" | Dm => "dm" | Workflow => "workflow" end.
Definition from_str (s : string) : result string t :=
  if String.eqb s "stream" then Ok Stream else if String.eqb s "forum" then Ok Forum
  else if String.eqb s "dm" then Ok Dm else if String.eqb s "workflow" then Ok Workflow
  else Err ("unknown channel type: " +:+ debug_str s).
End ChannelType.

Module MemberRole.
Inductive t := Owner | Admin | Member | Guest | Bot.

Definition as_str (r : t) : string :=
  match r with Owner => "owner" | Admin => "admin" | Member => "member" | Guest => "guest" | Bot => "bot" end.

Definition is_elevated (r : t) : bool := match r with Owner | Admin => true | _ => false end.

Definition permission_level (r : t) : N :=
  match r with Owner => 4 | Admin => 3 | Member => 2 | Guest => 1 | Bot => 0 end.

Definition has_at_least (r required : t) : bool := (permission_level required <=? permission_level r)%N.

Definition from_str (s : string) : result string t :=
  if String.eqb s "owner" then Ok Owner else if String.eqb s "admin" then Ok Admin
  else if String.eqb s "member" then Ok Member else if String.eqb s "guest" then Ok Guest
  else if String.eqb s "bot" then Ok Bot else Err ("unknown member role: " +:+ debug_str s).
End MemberRole.

(** ** Ref patterns *)

Definition MAX_PROTECTION_RULES : nat := 50.
Definition MAX_PATTERN_LENGTH : nat := 256.
Definition MAX_WILDCARDS_PER_PATTERN : nat := 3.

Inductive PatternSegment := Literal (s : string) | Wildcard | RecursiveWildcard.

Record RefPattern := mkPattern { raw : string; segments : list PatternSegment }.

Inductive PatternError :=
| Empty
| TooLong
| MissingRefsPrefix
| InvalidSegment (s : string)
| TooManyWildcards.

Definition pattern_error_to_string (e : PatternError) : string :=
  match e with
  | Empty => "pattern is empty"
  | TooLong => "pattern exceeds " +:+ u64_to_string (N.of_nat MAX_PATTERN_LENGTH) +:+ " chars"
  | MissingRefsPrefix => "pattern must start with 'refs/'"
  | InvalidSegment s => "invalid segment: " +:+ debug_str s
  | TooManyWildcards => "pattern exceeds " +:+ u64_to_string (N.of_nat MAX_WILDCARDS_PER_PATTERN) +:+ " wildcards"
  end.

Definition is_ascii_alphanumeric (c : ascii) : bool :=
  let n := N_of_ascii c in
  ((48 <=? n) && (n <=? 57) || (65 <=? n) && (n <=? 90) || (97 <=? n) && (n <=? 122))%N.

(** The characters of a literal segment. *)
Definition segment_char (c : ascii) : bool :=
  is_ascii_alphanumeric c || Ascii.eqb c "." || Ascii.eqb c "_" || Ascii.eqb c "-".

(** A part that looks like a glob. *)
Definition globbing (part : string) : bool :=
  str_contains "*" part || str_contains "?" part || str_contains "[" part || str_contains "]" part.

(** The loop over the parts; [part :: rest] with [rest = []] is the last. *)
Fixpoint parse_segments (wildcard_count : nat) (parts : list string) : result PatternError (list PatternSegment) :=
  match parts with
  | [] => Ok []
  | part :: rest =>
      if String.eqb part "**" then
        match rest with
        | _ :: _ => Err (InvalidSegment "** must be the last segment")
        | [] => if (MAX_WILDCARDS_PER_PATTERN <? wildcard_count + 1)%nat then Err TooManyWildcards
                else Ok [RecursiveWildcard]
        end
      else if String.eqb part "*" then
        if (MAX_WILDCARDS_PER_PATTERN <? wildcard_count + 1)%nat then Err TooManyWildcards
        else let? segs := parse_segments (wildcard_count + 1) rest in Ok (Wildcard :: segs)
      else if String.eqb part EmptyString then Err (InvalidSegment EmptyString)
      else if globbing part then Err (InvalidSegment part)
      else if negb (str_forallb segment_char part) then Err (InvalidSegment part)
      else let? segs := parse_segments wildcard_count rest in Ok (Literal part :: segs)
  end.

Definition parse (pattern : string) : result PatternError RefPattern :=
  if String.eqb pattern EmptyString then Err Empty
  else if (MAX_PATTERN_LENGTH <? String.length pattern)%nat then Err TooLong
  else if negb (starts_with pattern "refs/") then Err MissingRefsPrefix
  else let? segs := parse_segments 0 (split_on "/" pattern) in Ok (mkPattern pattern segs).

(** [zip(..).all(..)]; reaching a recursive wildcard panics. *)
Fixpoint all_match (pats : list PatternSegment) (segs : list string) : option bool :=
  match pats, segs with
  | pat :: pats, seg :: segs =>
      match pat with
      | Wildcard => all_match pats segs
      | Literal lit => if String.eqb lit seg then all_match pats segs else Some false
      | RecursiveWildcard => None
      end
  | _, _ => Some true
  end.

Definition matches (p : RefPattern) (ref_name : string) : option bool :=
  let ref_segments := split_on "/" ref_name in
  match last (segments p) with
  | Some RecursiveWildcard =>
      let prefix_len := length (segments p) - 1 in
      if (length ref_segments <=? prefix_len)%nat then Some false
      else all_match (take prefix_len (segments p)) (take prefix_len ref_segments)
  | _ =>
      if negb (length ref_segments =? length (segments p))%nat then Some false
      else all_match (segments p) ref_segments
  end.

(** ** Updates and rules *)

Inductive UpdateKind := Create | FastForward | NonFastForward | Delete.

#[global] Instance UpdateKind_eq_dec : EqDecision UpdateKind.
Proof. solve_decision. Defined.

Definition ZERO_OID : string := "0000000000000000000000000000000000000000".

Definition classify (old_oid new_oid : string) (is_ancestor : bool) : UpdateKind :=
  if String.eqb old_oid ZERO_OID then Create
  else if String.eqb new_oid ZERO_OID then Delete
  else if is_ancestor then FastForward else NonFastForward.

Record RefUpdate := mkUpdate { ref_name : string; kind : UpdateKind; old_oid : string; new_oid : string }.

Record ProtectionRule := mkRule {
  pattern : RefPattern;
  push_role : option MemberRole.t;
  no_force_push : bool;
  no_delete : bool;
  require_patch : bool;
}.

Inductive RuleParseError :=
| TooFewValues
| TooManyRules
| InvalidPattern (e : PatternError)
| UnknownRule (r : string)
| InvalidRole (r : string).

Definition rule_error_to_string (e : RuleParseError) : string :=
  match e with
  | TooFewValues => "buzz-protect tag needs pattern + at least one rule"
  | TooManyRules => "exceeds max " +:+ u64_to_string (N.of_nat MAX_PROTECTION_RULES) +:+ " rules per repo"
  | InvalidPattern e => "invalid pattern: " +:+ pattern_error_to_string e
  | UnknownRule r => "unknown rule: " +:+ debug_str r
  | InvalidRole r => "invalid role in push rule: " +:+ debug_str r
  end.

(** The stricter of two roles, the existing one when they are equal. *)
Definition stricter (existing : option MemberRole.t) (role : MemberRole.t) : option MemberRole.t :=
  Some (match existing with
        | None => role
        | Some existing =>
            if (MemberRole.permission_level existing <? MemberRole.permission_level role)%N then role else existing
        end).

(** The variables of the rule loop. *)
Record RuleAcc := mkAcc {
  acc_push_role : option MemberRole.t;
  acc_no_force_push : bool;
  acc_no_delete : bool;
  acc_require_patch : bool;
  acc_unknown_rules : list string;
}.

Definition push_rule (role_str : string) : result RuleParseError MemberRole.t :=
  let? role := map_err (fun _ => InvalidRole role_str) (MemberRole.from_str role_str) in
  match role with
  | MemberRole.Bot | MemberRole.Guest => Err (InvalidRole role_str)
  | _ => Ok role
  end.

Fixpoint parse_rules (rules : list string) (a : RuleAcc) : result RuleParseError RuleAcc :=
  match rules with
  | [] => Ok a
  | rule_str :: rest =>
      match strip_prefix "push:" rule_str with
      | Some role_str =>
          let? role := push_rule role_str in
          parse_rules rest (mkAcc (stricter (acc_push_role a) role) (acc_no_force_push a) (acc_no_delete a)
                              (acc_require_patch a) (acc_unknown_rules a))
      | None =>
          parse_rules rest
            (if String.eqb rule_str "no-force-push"
             then mkAcc (acc_push_role a) true (acc_no_delete a) (acc_require_patch a) (acc_unknown_rules a)
             else if String.eqb rule_str "no-delete"
             then mkAcc (acc_push_role a) (acc_no_force_push a) true (acc_require_patch a) (acc_unknown_rules a)
             else if String.eqb rule_str "require-patch"
             then mkAcc (acc_push_role a) (acc_no_force_push a) (acc_no_delete a) true (acc_unknown_rules a)
             else mkAcc (acc_push_role a) (acc_no_force_push a) (acc_no_delete a) (acc_require_patch a)
                    (acc_unknown_rules a ++ [rule_str]))
      end
  end.

Definition parse_protection_tag_with_warnings (values : list string) : result RuleParseError (ProtectionRule * list string) :=
  match values with
  | value :: _ :: _ =>
      let? p := map_err InvalidPattern (parse value) in
      let? a := parse_rules (tail values) (mkAcc None false false false []) in
      Ok (mkRule p (acc_push_role a) (acc_no_force_push a) (acc_no_delete a) (acc_require_patch a), acc_unknown_rules a)
  | _ => Err TooFewValues
  end.

Definition parse_protection_tag (values : list string) : result RuleParseError ProtectionRule :=
  let? r := parse_protection_tag_with_warnings values in Ok r.1.

Record ParsedProtection := mkParsed { rules : list ProtectionRule; unknown_rules : list string }.

Fixpoint parse_tags (tags : list (list string)) (acc : ParsedProtection) : result RuleParseError ParsedProtection :=
  match tags with
  | [] => Ok acc
  | tag :: rest =>
      if negb (bool_decide (head tag = Some "buzz-protect")) then parse_tags rest acc
      else if (MAX_PROTECTION_RULES <=? length (rules acc))%nat then Err TooManyRules
      else
        let? r := parse_protection_tag_with_warnings (drop 1 tag) in
        parse_tags rest (mkParsed (rules acc ++ [r.1]) (unknown_rules acc ++ r.2))
  end.

Definition parse_protection_tags (tags : list (list string)) : result RuleParseError ParsedProtection :=
  parse_tags tags (mkParsed [] []).

(** ** Evaluation *)

Definition default_min_role (name : string) (k : UpdateKind) : MemberRole.t :=
  let is_branch := starts_with name "refs/heads/" in
  let is_tag := starts_with name "refs/tags/" in
  match k with
  | Create => if is_branch || is_tag then MemberRole.Member else MemberRole.Admin
  | FastForward => if is_branch then MemberRole.Member else MemberRole.Admin
  | NonFastForward | Delete => MemberRole.Admin
  end.

Record EffectiveRules := mkEffective {
  eff_push_role : option MemberRole.t;
  eff_no_force_push : bool;
  eff_no_delete : bool;
  eff_require_patch : bool;
  has_explicit_match : bool;
}.

(** One matching rule joins the effective ones. *)
Definition union_rule (e : EffectiveRules) (r : ProtectionRule) : EffectiveRules :=
  mkEffective (match push_role r with Some role => stricter (eff_push_role e) role | None => eff_push_role e end)
    (eff_no_force_push e || no_force_push r) (eff_no_delete e || no_delete r) (eff_require_patch e || require_patch r) true.

Fixpoint for_ref_loop (name : string) (rs : list ProtectionRule) (e : EffectiveRules) : option EffectiveRules :=
  match rs with
  | [] => Some e
  | r :: rs => m ← matches (pattern r) name; for_ref_loop name rs (if (m : bool) then union_rule e r else e)
  end.

Definition for_ref (name : string) (rs : list ProtectionRule) : option EffectiveRules :=
  for_ref_loop name rs (mkEffective None false false false false).

Record Denial := mkDenial { denied_ref : string; reason : string }.

Definition denial_to_string (d : Denial) : string := denied_ref d +:+ ": " +:+ reason d.

Definition evaluate_ref_update (update : RefUpdate) (role : MemberRole.t) (rs : list ProtectionRule)
    : option (result Denial unit) :=
  effective ← for_ref (ref_name update) rs;
  let deny why := Some (Err (mkDenial (ref_name update) why)) in
  let default_role := default_min_role (ref_name update) (kind update) in
  if negb (has_explicit_match effective) then
    if negb (MemberRole.has_at_least role default_role)
    then deny ("requires " +:+ MemberRole.as_str default_role +:+ " role (you have " +:+ MemberRole.as_str role +:+
               "), using built-in defaults")
    else Some (Ok tt)
  else if eff_require_patch effective
  then deny "direct push denied: require-patch is set, submit a NIP-34 patch"
  else
    let min_role := match eff_push_role effective with
                    | Some explicit =>
                        if (MemberRole.permission_level default_role <=? MemberRole.permission_level explicit)%N
                        then explicit else default_role
                    | None => default_role
                    end in
    if negb (MemberRole.has_at_least role min_role)
    then deny ("requires " +:+ MemberRole.as_str min_role +:+ " role (you have " +:+ MemberRole.as_str role +:+ ")")
    else if eff_no_force_push effective && bool_decide (kind update = NonFastForward)
    then deny "non-fast-forward update denied: no-force-push is set"
    else if eff_no_delete effective && bool_decide (kind update = Delete)
    then deny "ref deletion denied: no-delete is set"
    else Some (Ok tt).

(** The denials of a push, in order. *)
Fixpoint denials_of (updates : list RefUpdate) (role : MemberRole.t) (rs : list ProtectionRule) : option (list Denial) :=
  match updates with
  | [] => Some []
  | u :: us =>
      r ← evaluate_ref_update u role rs;
      ds ← denials_of us role rs;
      Some (match r with Ok _ => ds | Err d => d :: ds end)
  end.

Definition evaluate_push (updates : list RefUpdate) (role : MemberRole.t) (rs : list ProtectionRule)
    : option (result (list Denial) unit) :=
  denials ← denials_of updates role rs;
  Some (match denials with [] => Ok tt | _ => Err denials end).

(** ** The language of patterns *)

Definition seg_text (p : PatternSegment) : string :=
  match p with Literal s => s | Wildcard => "*" | RecursiveWildcard => "**" end.

Definition is_wild (p : PatternSegment) : bool := match p with Literal _ => false | _ => true end.

(** Literals are non-empty words and a recursive wildcard comes last. *)
Inductive valid_segments : list PatternSegment -> Prop :=
| valid_nil : valid_segments []
| valid_rec : valid_segments [RecursiveWildcard]
| valid_wild ps : valid_segments ps -> valid_segments (Wildcard :: ps)
| valid_lit s ps : s <> EmptyString -> str_forallb segment_char s = true -> valid_segments ps -> valid_segments (Literal s :: ps).

(** What a pattern means: a wildcard stands for one path segment, a recursive
    one for the rest of the path. *)
Inductive glob : list PatternSegment -> list string -> Prop :=
| glob_nil : glob [] []
| glob_rec ss : ss <> [] -> glob [RecursiveWildcard] ss
| glob_wild ps s ss : glob ps ss -> glob (Wildcard :: ps) (s :: ss)
| glob_lit s ps ss : glob ps ss -> glob (Literal s :: ps) (s :: ss).

Lemma contains_char c s f : str_forallb f s = true -> f c = false -> str_contains (String c EmptyString) s = false.
Proof.
  intros Hs Hc. induction s as [|a s IH]; [done|]. cbn [str_forallb] in Hs. apply andb_true_iff in Hs as [Ha Hs].
  cbn [str_contains]. rewrite (IH Hs), orb_false_r. cbn [String.prefix]. destruct (ascii_dec c a) as [->|]; [congruence|done].
Qed.

Lemma literal_not_glob s : str_forallb segment_char s = true -> globbing s = false.
Proof. intros H. unfold globbing. by rewrite !(contains_char _ s segment_char H). Qed.

Lemma literal_not_star s : s <> EmptyString -> str_forallb segment_char s = true -> String.eqb s "**" = false /\ String.eqb s "*" = false.
Proof. intros Hne H. split; apply String.eqb_neq; intros ->; by vm_compute in H. Qed.

Definition wildcards (ps : list PatternSegment) : nat := length (List.filter is_wild ps).

Lemma parse_segments_complete segs :
  valid_segments segs -> forall n, n + wildcards segs <= MAX_WILDCARDS_PER_PATTERN ->
  parse_segments n (seg_text <$> segs) = Ok segs.
Proof.
  unfold wildcards. induction 1 as [| |ps Hv IH|s ps Hne Hs Hv IH]; intros n Hn; cbn [List.filter is_wild length] in Hn.
  - done.
  - cbn [fmap list_fmap parse_segments seg_text]. change (String.eqb "**" "**") with true. cbv iota.
    by assert ((MAX_WILDCARDS_PER_PATTERN <? n + 1)%nat = false) as -> by (apply Nat.ltb_ge; lia).
  - rewrite fmap_cons. cbn [parse_segments seg_text]. change (String.eqb "*" "**") with false. change (String.eqb "*" "*") with true.
    cbv iota. assert ((MAX_WILDCARDS_PER_PATTERN <? n + 1)%nat = false) as -> by (apply Nat.ltb_ge; lia). rewrite IH by lia. done.
  - rewrite fmap_cons. cbn [parse_segments seg_text]. destruct (literal_not_star s Hne Hs) as [-> ->].
    rewrite (proj2 (String.eqb_neq _ _) Hne), (literal_not_glob s Hs), Hs. cbn [negb]. by rewrite IH by lia.
Qed.

Lemma parse_segments_sound n parts segs :
  n <= MAX_WILDCARDS_PER_PATTERN -> parse_segments n parts = Ok segs ->
  parts = seg_text <$> segs /\ valid_segments segs /\ n + wildcards segs <= MAX_WILDCARDS_PER_PATTERN.
Proof.
  unfold wildcards. revert n segs. induction parts as [|part rest IH]; intros n segs Hn; cbn [parse_segments].
  { intros [= <-]. simpl. split_and!; [done|constructor|lia]. }
  destruct (String.eqb_spec part "**") as [->|_].
  { destruct rest; [|done]. destruct (Nat.ltb_spec MAX_WILDCARDS_PER_PATTERN (n + 1)); [done|].
    intros [= <-]. simpl. split_and!; [done|constructor|lia]. }
  destruct (String.eqb_spec part "*") as [->|_].
  { destruct (Nat.ltb_spec MAX_WILDCARDS_PER_PATTERN (n + 1)); [done|].
    destruct (parse_segments (n + 1) rest) as [ss|] eqn:Er; [|done]. intros [= <-].
    apply IH in Er as (-> & Hv & Hw); [|lia]. simpl. split_and!; [done|by constructor|lia]. }
  destruct (String.eqb_spec part EmptyString) as [|Hne]; [done|]. destruct (globbing part); [done|].
  destruct (str_forallb segment_char part) eqn:Hs; [|done]. cbn [negb].
  destruct (parse_segments n rest) as [ss|] eqn:Er; [|done]. intros [= <-].
  apply IH in Er as (-> & Hv & Hw); [|lia]. simpl. split_and!; [done|by constructor|lia].
Qed.

Lemma seg_text_no_slash ps :
  valid_segments ps -> Forall (fun s => str_forallb (fun a => negb (Ascii.eqb a "/")) s = true) (seg_text <$> ps).
Proof.
  assert (forall s, str_forallb segment_char s = true -> str_forallb (fun a => negb (Ascii.eqb a "/")) s = true) as Hc.
  { induction s as [|a s IH]; [done|]. cbn [str_forallb]. intros [Ha Hs]%andb_true_iff. rewrite IH, andb_true_r by done.
    destruct (Ascii.eqb_spec a "/") as [->|]; [by vm_compute in Ha|done]. }
  induction 1 as [| |ps Hv IH|s ps Hne Hs Hv IH]; rewrite ?fmap_cons; repeat (constructor; try done). by apply Hc.
Qed.

(** A pattern is accepted precisely when it prints valid segments. *)
Lemma parse_ok s p :
  parse s = Ok p <->
  exists segs, p = mkPattern s segs /\ s = join_with "/" (seg_text <$> segs) /\ valid_segments segs /\
    wildcards segs <= MAX_WILDCARDS_PER_PATTERN /\ String.length s <= MAX_PATTERN_LENGTH /\ starts_with s "refs/" = true.
Proof.
  unfold parse. destruct (String.eqb_spec s EmptyString) as [->|Hne].
  { split; [done|]. by intros (segs & _ & _ & _ & _ & _ & H). }
  destruct (Nat.ltb_spec MAX_PATTERN_LENGTH (String.length s)) as [Hlt|Hle].
  { split; [done|]. intros (segs & _ & _ & _ & _ & H & _). lia. }
  destruct (starts_with s "refs/") eqn:Hr; cbn [negb].
  2: { split; [done|]. by intros (segs & _ & _ & _ & _ & _ & H). }
  split.
  - destruct (parse_segments 0 (split_on "/" s)) as [segs|] eqn:E; [|done]. intros [= <-]. exists segs.
    apply parse_segments_sound in E as (E & Hv & Hw); [|lia]. split_and!; try done. by rewrite <-E, join_split_on.
  - intros (segs & -> & Hs & Hv & Hw & _ & _). assert (seg_text <$> segs <> []) as Hnn.
    { intros E. rewrite E in Hs. done. }
    rewrite Hs at 1. rewrite split_on_join; [|done|by apply seg_text_no_slash]. by rewrite parse_segments_complete.
Qed.

(** ** Matching *)

Lemma last_rec ps : valid_segments ps ->
  match last ps with
  | Some RecursiveWildcard => exists pre, ps = pre ++ [RecursiveWildcard] /\ valid_segments pre /\ Forall (fun p => p <> RecursiveWildcard) pre
  | _ => Forall (fun p => p <> RecursiveWildcard) ps
  end.
Proof.
  induction 1 as [| |ps Hv IH|s ps Hne Hs Hv IH].
  - constructor.
  - exists []. split_and!; [done|constructor|constructor].
  - destruct ps as [|p ps]; [by repeat constructor|]. change (last (Wildcard :: p :: ps)) with (last (p :: ps)).
    destruct (last (p :: ps)) as [[| |]|]; try (by constructor).
    destruct IH as (pre & -> & Hv' & Hf). exists (Wildcard :: pre). split_and!; [done|by constructor|by constructor].
  - destruct ps as [|p ps]; [by repeat constructor|]. change (last (Literal s :: p :: ps)) with (last (p :: ps)).
    destruct (last (p :: ps)) as [[| |]|]; try (by constructor).
    destruct IH as (pre & -> & Hv' & Hf). exists (Literal s :: pre). split_and!; [done|by constructor|by constructor].
Qed.

(** Without a recursive wildcard the check decides [glob], on a path that may
    go on when one follows. *)
Lemma all_match_spec ps ss rest :
  Forall (fun p => p <> RecursiveWildcard) ps -> length ps = length ss ->
  exists b, all_match ps ss = Some b /\
    (b = true <-> glob ps ss) /\ (rest <> [] -> b = true <-> glob (ps ++ [RecursiveWildcard]) (ss ++ rest)).
Proof.
  intros Hf. revert ss. induction Hf as [|p ps Hp Hf IH]; intros [|s ss] Hlen; try done; simpl in Hlen.
  - exists true. split_and!; [done|split; [constructor|done]|]. intros Hr. split; [by constructor|done].
  - injection Hlen as Hlen. destruct (IH ss Hlen) as (b & Eb & H1 & H2). destruct p as [l| |]; [| |done]; cbn [all_match].
    + destruct (String.eqb_spec l s) as [->|Hne].
      * exists b. split; [done|]. split.
        -- rewrite H1. split; [by constructor|by inversion 1].
        -- intros Hr. rewrite (H2 Hr). split; [by constructor|by inversion 1].
      * exists false. split; [done|]. split; [|intros _]; split; try done; by inversion 1.
    + exists b. split; [done|]. split.
      * rewrite H1. split; [by constructor|by inversion 1].
      * intros Hr. rewrite (H2 Hr). split; [by constructor|by inversion 1].
Qed.

Lemma glob_length ps ss : glob ps ss -> length ps <= length ss.
Proof. induction 1 as [|ss Hne|ps s ss _ IH|s ps ss _ IH]; simpl; try lia. destruct ss; [done|simpl; lia]. Qed.

Lemma glob_exact ps ss : Forall (fun p => p <> RecursiveWildcard) ps -> glob ps ss -> length ps = length ss.
Proof. intros Hf. induction 1; simpl; inversion_clear Hf; try done; f_equal; auto. Qed.

Lemma matches_glob p name :
  valid_segments (segments p) ->
  exists b, matches p name = Some b /\ (b = true <-> glob (segments p) (split_on "/" name)).
Proof.
  intros Hv. unfold matches. set (ss := split_on "/" name). pose proof (last_rec _ Hv) as Hl.
  assert (Forall (fun p => p <> RecursiveWildcard) (segments p) ->
          exists b, (if negb (length ss =? length (segments p))%nat then Some false else all_match (segments p) ss) = Some b /\
            (b = true <-> glob (segments p) ss)) as Hplain.
  { intros Hf. destruct (Nat.eqb_spec (length ss) (length (segments p))) as [Hlen|Hlen]; cbn [negb].
    - destruct (all_match_spec (segments p) ss [] Hf) as (b & -> & Hb & _); [done|]. by exists b.
    - exists false. split; [done|]. split; [done|]. intros Hg. exfalso. apply Hlen. symmetry. by apply glob_exact. }
  destruct (last (segments p)) as [[l| |]|]; try (by apply Hplain).
  destruct Hl as (pre & E & _ & Hf). rewrite E, length_app. cbn [length].
  replace (length pre + 1 - 1) with (length pre) by lia. rewrite take_app_length.
  destruct (Nat.leb_spec (length ss) (length pre)) as [Hle|Hlt].
  - exists false. split; [done|]. split; [done|]. intros Hg%glob_length. rewrite length_app in Hg. simpl in Hg. lia.
  - destruct (all_match_spec pre (take (length pre) ss) (drop (length pre) ss) Hf) as (b & -> & _ & Hb).
    { rewrite length_take. lia. }
    exists b. split; [done|]. rewrite take_drop in Hb. apply Hb. intros Hn. apply (f_equal length) in Hn.
    rewrite length_drop in Hn. simpl in Hn. lia.
Qed.

(** The language of ref patterns.  A pattern is accepted precisely when it
    is the text of valid segments within the limits, it keeps its text, and
    matching never panics and decides the meaning of its segments: a literal
    stands for itself, a wildcard for one path segment, a final recursive
    wildcard for one or more. *)
Theorem pattern_language (s : string) :
  (forall p, parse s = Ok p <->
    exists segs, p = mkPattern s segs /\ s = join_with "/" (seg_text <$> segs) /\ valid_segments segs /\
      wildcards segs <= MAX_WILDCARDS_PER_PATTERN /\ String.length s <= MAX_PATTERN_LENGTH /\ starts_with s "refs/" = true) /\
  (forall p name, parse s = Ok p ->
    exists b, matches p name = Some b /\ (b = true <-> glob (segments p) (split_on "/" name))).
Proof.
  split; [apply parse_ok|]. intros p name Hp. apply matches_glob.
  apply parse_ok in Hp as (segs & -> & _ & Hv & _). done.
Qed.

(** ** The policy *)

(** A rule applies to a ref when its pattern does. *)
Definition applies (r : ProtectionRule) (name : string) : Prop := glob (segments (pattern r)) (split_on "/" name).

(** Who may make an update: whoever has the built-in role for it and satisfies
    every rule that applies. *)
Definition permitted (u : RefUpdate) (role : MemberRole.t) (rs : list ProtectionRule) : Prop :=
  MemberRole.has_at_least role (default_min_role (ref_name u) (kind u)) = true /\
  forall r, r ∈ rs -> applies r (ref_name u) ->
    require_patch r = false /\
    (forall required, push_role r = Some required -> MemberRole.has_at_least role required = true) /\
    (no_force_push r = true -> kind u <> NonFastForward) /\ (no_delete r = true -> kind u <> Delete).

(** The rules of a parsed list have parsed patterns. *)
Definition parsed_rule (r : ProtectionRule) : Prop := valid_segments (segments (pattern r)).

Lemma parse_tag_rule values r : parse_protection_tag_with_warnings values = Ok r -> parsed_rule r.1.
Proof.
  unfold parse_protection_tag_with_warnings. destruct values as [|v [|w vs]]; [done..|].
  destruct (parse v) as [p|] eqn:Ep; [|done]. cbn [map_err]. destruct (parse_rules _ _); [|done]. intros [= <-].
  apply parse_ok in Ep as (segs & -> & _ & Hv & _). done.
Qed.

Lemma parse_tags_rules tags acc pp :
  Forall parsed_rule (rules acc) -> length (rules acc) <= MAX_PROTECTION_RULES -> parse_tags tags acc = Ok pp ->
  Forall parsed_rule (rules pp) /\ length (rules pp) <= MAX_PROTECTION_RULES.
Proof.
  revert acc. induction tags as [|tag tags IH]; intros acc Hacc Hlen; cbn [parse_tags]; [by intros [= <-]|].
  case_bool_decide; cbn [negb]; [|by apply IH].
  destruct (Nat.leb_spec MAX_PROTECTION_RULES (length (rules acc))); [done|].
  destruct (parse_protection_tag_with_warnings _) as [r|] eqn:Er; [|done]. apply IH; cbn [rules].
  - apply Forall_app. split; [done|]. constructor; [by eapply parse_tag_rule|constructor].
  - rewrite length_app. simpl. lia.
Qed.

(** The rules that apply, in order. *)
Definition applying (name : string) (rs : list ProtectionRule) : list ProtectionRule :=
  List.filter (fun r => default false (matches (pattern r) name)) rs.

Lemma applying_elem name rs r : Forall parsed_rule rs -> r ∈ applying name rs <-> r ∈ rs /\ applies r name.
Proof.
  intros Hf. unfold applying. rewrite elem_of_filter_b. split; intros [Hr Hm]; (split; [done|]);
    rewrite Forall_forall in Hf; destruct (matches_glob (pattern r) name (Hf r Hr)) as (b & Eb & Hb); rewrite Eb in *; by apply Hb.
Qed.

Lemma for_ref_loop_fold name rs e :
  Forall parsed_rule rs -> for_ref_loop name rs e = Some (foldl union_rule e (applying name rs)).
Proof.
  intros Hf. revert e. induction Hf as [|r rs Hr Hf IH]; intros e; [done|]. unfold applying. cbn [for_ref_loop List.filter].
  destruct (matches_glob (pattern r) name Hr) as (b & -> & _). cbn [mbind option_bind default from_option id].
  rewrite IH. by destruct b.
Qed.

(** A role meets the union of push roles when it meets each of them. *)
Definition meets (role : MemberRole.t) (o : option MemberRole.t) : Prop :=
  forall required, o = Some required -> MemberRole.has_at_least role required = true.

Lemma meets_stricter role o r :
  meets role (stricter o r) <-> meets role o /\ MemberRole.has_at_least role r = true.
Proof.
  unfold meets, stricter, MemberRole.has_at_least. destruct o as [x|].
  - destruct (N.ltb_spec (MemberRole.permission_level x) (MemberRole.permission_level r)) as [Hlt|Hle]; split.
    + intros H. specialize (H r eq_refl). split; [intros ? [= <-]; lia|done].
    + intros [_ H] ? [= <-]. done.
    + intros H. specialize (H x eq_refl). split; [by intros ? [= <-]|lia].
    + intros [H _] ? [= <-]. by apply H.
  - split; [intros H; split; [done|by apply H]|]. by intros [_ H] ? [= <-].
Qed.

(** The union of rules is read off its members. *)
Lemma union_fold rs e :
  let f := foldl union_rule e rs in
  (eff_require_patch f = true <-> eff_require_patch e = true \/ exists r, r ∈ rs /\ require_patch r = true) /\
  (eff_no_force_push f = true <-> eff_no_force_push e = true \/ exists r, r ∈ rs /\ no_force_push r = true) /\
  (eff_no_delete f = true <-> eff_no_delete e = true \/ exists r, r ∈ rs /\ no_delete r = true) /\
  (has_explicit_match f = true <-> has_explicit_match e = true \/ rs <> []) /\
  (forall role, meets role (eff_push_role f) <-> meets role (eff_push_role e) /\ forall r, r ∈ rs -> meets role (push_role r)).
Proof.
  revert e. induction rs as [|x rs IH]; intros e; cbn [foldl].
  - split_and!; [..|intros role]; split; try tauto; try (intros [?|(r & H & _)]; [done|by apply not_elem_of_nil in H]).
    intros H. split; [done|]. by intros r Hr%not_elem_of_nil.
  - destruct (IH (union_rule e x)) as (I1 & I2 & I3 & I4 & I5). cbn [union_rule eff_require_patch eff_no_force_push eff_no_delete
      has_explicit_match eff_push_role] in *.
    assert (forall (P : ProtectionRule -> Prop), (exists r, r ∈ x :: rs /\ P r) <-> P x \/ exists r, r ∈ rs /\ P r) as Hex.
    { intros P. split; [intros (r & [->|H]%elem_of_cons & HP); eauto|intros [H|(r & ? & ?)]; [exists x|exists r]; split; try done; by constructor]. }
    rewrite I1, I2, I3, I4, !Hex, !orb_true_iff. split_and!; try tauto.
    + split; [by right|by left].
    + intros role. rewrite I5. split.
      * intros [H1 H2]. assert (meets role (eff_push_role e) /\ meets role (push_role x)) as [H3 H4].
        { destruct (push_role x) as [rx|]; [|by split]. apply meets_stricter in H1 as [H3 H4]. split; [done|]. by intros ? [= <-]. }
        split; [done|]. intros r [->|Hr]%elem_of_cons; [done|by apply H2].
      * intros [H1 H2]. split; [|intros r Hr; apply H2; by right].
        destruct (push_role x) as [rx|] eqn:E; [|done]. apply meets_stricter. split; [done|]. apply (H2 x); [left|done].
Qed.

(** What the union says of the rules that apply. *)
Lemma for_ref_union name rs :
  Forall parsed_rule rs ->
  exists e, for_ref name rs = Some e /\
    (eff_require_patch e = true <-> exists r, r ∈ applying name rs /\ require_patch r = true) /\
    (eff_no_force_push e = true <-> exists r, r ∈ applying name rs /\ no_force_push r = true) /\
    (eff_no_delete e = true <-> exists r, r ∈ applying name rs /\ no_delete r = true) /\
    (has_explicit_match e = true <-> applying name rs <> []) /\
    (forall role, meets role (eff_push_role e) <-> forall r, r ∈ applying name rs -> meets role (push_role r)).
Proof.
  intros Hf. unfold for_ref. rewrite for_ref_loop_fold by done. eexists; split; [done|].
  destruct (union_fold (applying name rs) (mkEffective None false false false false)) as (I1 & I2 & I3 & I4 & I5).
  cbn [eff_require_patch eff_no_force_push eff_no_delete has_explicit_match eff_push_role] in *.
  split_and!; [rewrite I1|rewrite I2|rewrite I3|rewrite I4|intros role; rewrite I5]; try (split; [by intros [?|?]|by right]).
  split; [by intros [_ ?]|done].
Qed.

(** The role the evaluation asks for is met when the built-in one is and every
    push role is. *)
Lemma meets_min role explicit default_role :
  MemberRole.has_at_least role
    (match explicit with
     | Some e => if (MemberRole.permission_level default_role <=? MemberRole.permission_level e)%N then e else default_role
     | None => default_role
     end) = true <->
  MemberRole.has_at_least role default_role = true /\ meets role explicit.
Proof.
  unfold meets, MemberRole.has_at_least. destruct explicit as [e|].
  - destruct (N.leb_spec (MemberRole.permission_level default_role) (MemberRole.permission_level e)); rewrite !N.leb_le; split.
    + intros H1. split; [lia|]. intros ? [= <-]. by apply N.leb_le.
    + intros [_ H1]. by apply N.leb_le, H1.
    + intros H1. split; [done|]. intros ? [= <-]. apply N.leb_le. lia.
    + by intros [H1 _].
  - split; [by intros H|by intros [H _]].
Qed.

Lemma permitted_applying u role rs :
  Forall parsed_rule rs ->
  permitted u role rs <->
    MemberRole.has_at_least role (default_min_role (ref_name u) (kind u)) = true /\
    forall r, r ∈ applying (ref_name u) rs ->
      require_patch r = false /\ meets role (push_role r) /\
      (no_force_push r = true -> kind u <> NonFastForward) /\ (no_delete r = true -> kind u <> Delete).
Proof.
  intros Hf. unfold permitted, meets. split; intros [Hd H]; (split; [done|]); intros r.
  - intros [Hr Ha]%applying_elem; [|done]. by apply H.
  - intros Hr Ha. apply H. by apply applying_elem.
Qed.

Lemma evaluate_decides u role rs :
  Forall parsed_rule rs ->
  (evaluate_ref_update u role rs = Some (Ok tt) /\ permitted u role rs) \/
  (exists why, evaluate_ref_update u role rs = Some (Err (mkDenial (ref_name u) why)) /\ ~ permitted u role rs).
Proof.
  intros Hf. setoid_rewrite (permitted_applying u role rs Hf). unfold evaluate_ref_update.
  destruct (for_ref_union (ref_name u) rs Hf) as (e & -> & Ipatch & Iforce & Idel & Iex & Irole). cbn [mbind option_bind]. cbv zeta.
  destruct (has_explicit_match e) eqn:Hex; cbn [negb].
  2: { assert (applying (ref_name u) rs = []) as ->. { destruct (applying (ref_name u) rs) eqn:E; [done|]. assert (false = true) as [=]. by apply Iex. }
       destruct (MemberRole.has_at_least role (default_min_role (ref_name u) (kind u))); cbn [negb]; [left|right]; [|eexists; split; [done|by intros [? _]]].
       split; [done|]. split; [done|]. by intros r Hr%not_elem_of_nil. }
  destruct (eff_require_patch e) eqn:Hp.
  { right. eexists; split; [done|]. intros [_ H]. destruct (proj1 Ipatch eq_refl) as (r & Hr & Hrp). apply H in Hr as [? _]. congruence. }
  match goal with |- context [MemberRole.has_at_least role ?m] => destruct (MemberRole.has_at_least role m) eqn:Hrole end; cbn [negb].
  2: { right. eexists; split; [done|]. intros [Hd H]. rewrite <-not_true_iff_false in Hrole. apply Hrole. rewrite meets_min.
       split; [done|]. apply Irole. intros r Hr. by apply H. }
  apply meets_min in Hrole as [Hd Hrole]. rewrite Irole in Hrole.
  destruct (eff_no_force_push e && bool_decide (kind u = NonFastForward)) eqn:Hforce.
  { apply andb_true_iff in Hforce as [Hf1 Hf2%bool_decide_eq_true]. right. eexists; split; [done|]. intros [_ H].
    apply Iforce in Hf1 as (r & Hr & Hrf). destruct (H r Hr) as (_ & _ & Hx & _). by apply Hx. }
  destruct (eff_no_delete e && bool_decide (kind u = Delete)) eqn:Hdel.
  { apply andb_true_iff in Hdel as [Hf1 Hf2%bool_decide_eq_true]. right. eexists; split; [done|]. intros [_ H].
    apply Idel in Hf1 as (r & Hr & Hrf). destruct (H r Hr) as (_ & _ & _ & Hx). by apply Hx. }
  left. split; [done|]. split; [done|]. intros r Hr. split_and!.
  - apply not_true_iff_false. intros E. assert (false = true) as [=]. apply Ipatch. eauto.
  - by apply Hrole.
  - intros E Hk. assert (eff_no_force_push e = true) as E' by (apply Iforce; eauto). rewrite E', bool_decide_true in Hforce; done.
  - intros E Hk. assert (eff_no_delete e = true) as E' by (apply Idel; eauto). rewrite E', bool_decide_true in Hdel; done.
Qed.

(** The denials name the refused updates, in order. *)
Inductive refusals (role : MemberRole.t) (rs : list ProtectionRule) : list RefUpdate -> list Denial -> Prop :=
| refusals_nil : refusals role rs [] []
| refusals_ok u us ds : permitted u role rs -> refusals role rs us ds -> refusals role rs (u :: us) ds
| refusals_no u us ds why : ~ permitted u role rs -> refusals role rs us ds ->
    refusals role rs (u :: us) (mkDenial (ref_name u) why :: ds).

Lemma denials_refusals updates role rs :
  Forall parsed_rule rs -> exists ds, denials_of updates role rs = Some ds /\ refusals role rs updates ds.
Proof.
  intros Hf. induction updates as [|u us (ds & IH & Hds)]; [exists []; split; [done|constructor]|]. cbn [denials_of].
  destruct (evaluate_decides u role rs Hf) as [[-> Hp]|(why & -> & Hp)]; cbn [mbind option_bind]; rewrite IH; cbn [mbind option_bind];
    eexists; (split; [done|]); by constructor.
Qed.

Lemma refusals_none role rs us ds : refusals role rs us ds -> ds = [] <-> Forall (fun u => permitted u role rs) us.
Proof.
  induction 1 as [|u us ds Hp _ IH|u us ds why Hp _ IH]; [done| |].
  - rewrite IH, Forall_cons. tauto.
  - rewrite Forall_cons. split; [done|tauto].
Qed.

(** Fewer rules or a higher role never refuse more. *)
Lemma permitted_mono u role role' rs rs' :
  MemberRole.has_at_least role' role = true -> rs' ⊆ rs -> permitted u role rs -> permitted u role' rs'.
Proof.
  intros Hrole Hsub [Hd H].
  assert (forall m, MemberRole.has_at_least role m = true -> MemberRole.has_at_least role' m = true) as Hup.
  { unfold MemberRole.has_at_least in *. intros m. rewrite !N.leb_le in *. lia. }
  split; [by apply Hup|]. intros r Hr Ha. destruct (H r (Hsub r Hr) Ha) as (H1 & H2 & H3). split_and!; try tauto. eauto.
Qed.

(** C19: the push policy.  Under the rules parsed from a repository's tags, at
    most fifty of them, a push is evaluated without a panic and is accepted
    precisely when every update is permitted: the pusher has the built-in role
    for it and satisfies every rule whose pattern covers the ref.  Otherwise
    the whole push is refused, with one denial for each refused update, in
    order.  A push that is accepted stays accepted for a higher role and under
    fewer rules, so rules only ever restrict. *)
Theorem push_policy (tags : list (list string)) (pp : ParsedProtection) (updates : list RefUpdate) (role : MemberRole.t) :
  parse_protection_tags tags = Ok pp ->
  length (rules pp) <= MAX_PROTECTION_RULES /\
  (evaluate_push updates role (rules pp) = Some (Ok tt) <-> Forall (fun u => permitted u role (rules pp)) updates) /\
  (~ Forall (fun u => permitted u role (rules pp)) updates ->
    exists ds, evaluate_push updates role (rules pp) = Some (Err ds) /\ refusals role (rules pp) updates ds) /\
  (forall role' rs', MemberRole.has_at_least role' role = true -> rs' ⊆ rules pp ->
    evaluate_push updates role (rules pp) = Some (Ok tt) -> evaluate_push updates role' rs' = Some (Ok tt)).
Proof.
  intros Hp. apply parse_tags_rules in Hp as [Hf Hlen]; [|constructor|simpl; lia].
  assert (forall role rs, Forall parsed_rule rs -> exists ds, refusals role rs updates ds /\
            evaluate_push updates role rs = Some (match ds with [] => Ok tt | _ => Err ds end)) as Heval.
  { intros r rs Hrs. destruct (denials_refusals updates r rs Hrs) as (ds & E & Hds). exists ds. split; [done|].
    unfold evaluate_push. by rewrite E. }
  assert (forall role rs, Forall parsed_rule rs ->
            evaluate_push updates role rs = Some (Ok tt) <-> Forall (fun u => permitted u role rs) updates) as Hok.
  { intros r rs Hrs. destruct (Heval r rs Hrs) as (ds & Hds & ->). rewrite <-(refusals_none _ _ _ _ Hds). by destruct ds. }
  split_and!; [done|by apply Hok| |].
  - intros Hn. destruct (Heval role _ Hf) as (ds & Hds & E). exists ds. split; [|done].
    rewrite E. destruct ds; [|done]. by rewrite <-(refusals_none _ _ _ _ Hds) in Hn.
  - intros role' rs' Hr Hsub. rewrite !Hok; [|rewrite Forall_forall in *; auto|done].
    intros H. eapply Forall_impl; [exact H|]. intros u. by apply permitted_mono.
Qed.

Definition demo_protect : list (list string) :=
  [["d"; "repo"]; ["buzz-protect"; "refs/heads/main"; "push:admin"; "no-force-push"; "signed"];
   ["buzz-protect"; "refs/heads/release/**"; "require-patch"]].

Definition demo_push : list RefUpdate :=
  [mkUpdate "refs/heads/main" FastForward "a" "b"; mkUpdate "refs/heads/topic" Create ZERO_OID "c";
   mkUpdate "refs/heads/release/1/2" FastForward "d" "e"].

Definition demo_parsed : ParsedProtection :=
  match parse_protection_tags demo_protect with Ok pp => pp | Err _ => mkParsed [] [] end.

Lemma push_policy_witness :
  parse_protection_tags demo_protect = Ok demo_parsed /\ unknown_rules demo_parsed = ["signed"] /\
  (exists ds, evaluate_push demo_push MemberRole.Member (rules demo_parsed) = Some (Err ds) /\
     refusals MemberRole.Member (rules demo_parsed) demo_push ds /\
     denied_ref <$> ds = ["refs/heads/main"; "refs/heads/release/1/2"]) /\
  Forall (fun u => permitted u MemberRole.Member (rules demo_parsed)) (take 1 (drop 1 demo_push)).
Proof.
  assert (parse_protection_tags demo_protect = Ok demo_parsed) as Hp by (vm_compute; reflexivity).
  split; [exact Hp|]. split; [vm_compute; reflexivity|]. split.
  - destruct (push_policy demo_protect demo_parsed demo_push MemberRole.Member Hp) as (_ & Hok & Hno & _).
    destruct Hno as (ds & E & Hr).
    { intros H. apply Hok in H. vm_compute in H. discriminate H. }
    exists ds. split; [exact E|]. split; [exact Hr|]. vm_compute in E. injection E as <-. vm_compute. reflexivity.
  - destruct (push_policy demo_protect demo_parsed (take 1 (drop 1 demo_push)) MemberRole.Member Hp) as (_ & Hok & _ & _).
    apply Hok. vm_compute. reflexivity.
Defined.
