(* ===== verification/Sdk.v ===== *)
(** * Event builders

    [buzz-sdk/src/builders.rs] and the types of its [lib.rs]: functions that
    check their arguments and fill the kind, the tags and the content of an
    unsigned event.  [push] and its variants are the statements
    [tags.push(tag(..)?)] of the code; [Tag::parse] and the JSON printer are the
    class [SdkLib]. *)

From S2P Require Import Prelude Text Nostr Demo Kinds OwnerAttestation GitPerms.

Record ThreadRef := mkThread { root_event_id : EventId; parent_event_id : EventId }.

Record DiffMeta := mkDiff {
  repo_url : string;
  commit_sha : string;
  file_path : option string;
  diff_parent_commit : option string;
  branch : option (string * string);
  pr_number : option N;
  language : option string;
  diff_description : option string;
  truncated : bool;
  alt_text : option string;
}.

Inductive VoteDirection := Up | Down.

Record CustomEmoji := mkEmoji { shortcode : string; emoji_url : string }.

(** [nostr::EventBuilder], as far as the builders fill it. *)
Record EventBuilder := mkBuilder {
  b_kind : N;
  b_content : string;
  b_tags : list Tag;
  b_allow_self_tagging : bool;
}.

(** Functions of the crates. *)
Class SdkLib := {
  (** [Tag::parse] *)
  tag_parse : list string -> result string Tag;
  (** [Value::Object(map).to_string()] of a map filled in this order *)
  json_object : list (string * string) -> string;
  (** the error of [Uuid::parse_str] *)
  uuid_error : string -> string;
}.

(** A tag of at least one item is its items. *)
Class SdkLaws (NL : NostrLib) (SK : SdkLib) := {
  tag_parse_spec : forall p ps, tag_parse (p :: ps) = Ok (p :: ps);
  uuid_read_back : forall u, Uuid_parse (Uuid_to_string u) = Some u;
}.

(** A registry number as the kind of an event. *)
Definition as_u16 (k : N) : N := (k mod 65536)%N.

(** [k] KiB. *)
Definition kib (k : N) : N := (k * 1024)%N.

Definition is_ascii_hexdigit (c : ascii) : bool :=
  Lines.byte_in 48 57 c || Lines.byte_in 65 70 c || Lines.byte_in 97 102 c.

Definition num (n : N) : string := u64_to_string n.

(** [Display] of an [i32]. *)
Definition i32_to_string (z : Z) : string :=
  match z with Z0 => "0" | Zpos p => num (Npos p) | Zneg p => "-" +:+ num (Npos p) end.

(** [chars().count()]: continuation bytes do not count. *)
Fixpoint chars_count (s : string) : nat :=
  match s with EmptyString => 0 | String c s => if Lines.byte_in 128 191 c then chars_count s else S (chars_count s) end.

(** [chars().any(char::is_control)]: C0, DEL and C1. *)
Fixpoint has_control (s : string) : bool :=
  match s with
  | EmptyString => false
  | String a r =>
      Lines.byte_in 0 31 a || Lines.byte_is 127 a ||
      (Lines.byte_is 194 a && match r with String b _ => Lines.byte_in 128 159 b | EmptyString => false end) ||
      has_control r
  end.

(** [rfind] and the texts on both sides. *)
Fixpoint rsplit_once (c : ascii) (s : string) : option (string * string) :=
  match s with
  | EmptyString => None
  | String a r =>
      match rsplit_once c r with
      | Some (l, t) => Some (String a l, t)
      | None => if Ascii.eqb a c then Some (EmptyString, r) else None
      end
  end.

(** Leading hashes and white space; [fuel] counts the hashes. *)
Fixpoint trim_hashes (fuel : nat) (s : string) : string :=
  match fuel with
  | O => trim_start s
  | S fuel => match trim_start s with String "#" r => trim_hashes fuel r | t => t end
  end.

Definition canonical_channel_name (name : string) : string := trim_end (trim_hashes (String.length name) name).

Fixpoint trim_start_colons (s : string) : string := match s with String ":" r => trim_start_colons r | t => t end.

Definition OBSERVER_AGENT_TAG : string := "agent".
Definition OBSERVER_FRAME_TAG : string := "frame".
Definition OBSERVER_FRAME_TELEMETRY : string := "telemetry".
Definition OBSERVER_FRAME_CONTROL : string := "control".
Definition NIP44_MIN_CONTENT_LEN : N := 132.
Definition NIP44_MAX_CONTENT_LEN : N := 87472.

Definition content_looks_like_nip44 (content : string) : bool :=
  ((NIP44_MIN_CONTENT_LEN <=? len content) && (len content <=? NIP44_MAX_CONTENT_LEN))%N.

Definition MENTION_CAP : nat := 50.
Definition CUSTOM_EMOJI_SET_D_TAG : string := "buzz:custom-emoji".
Definition MAX_CONTACTS : N := 10000.
Definition MAX_REASON_BYTES : N := 64.

(** ** Checks *)

Definition check_content (content : string) (max : N) : result SdkError unit :=
  if (max <? len content)%N then Err (ContentTooLarge max (len content)) else Ok tt.

Definition all_hex (s : string) : bool := str_forallb is_ascii_hexdigit s.

Definition check_hex_len (s : string) (min_len : N) (field : string) : result SdkError unit :=
  if (len s <? min_len)%N || negb (all_hex s)
  then Err (InvalidDiffMeta (field +:+ " must be at least " +:+ num min_len +:+ " hex characters (got " +:+ debug_str s +:+ ")"))
  else Ok tt.

Definition check_commit_hex (s field : string) : result SdkError unit :=
  if negb (len s =? 40)%N && negb (len s =? 64)%N || negb (all_hex s)
  then Err (InvalidInput (field +:+ " must be a full 40-character (SHA-1) or 64-character (SHA-256) hex commit id (got " +:+
                          debug_str s +:+ ")"))
  else Ok tt.

Definition check_pubkey_hex (s field : string) : result SdkError string :=
  if negb (len s =? 64)%N || negb (all_hex s)
  then Err (InvalidInput (field +:+ " must be a 64-character hex pubkey"))
  else Ok (to_ascii_lowercase s).

Definition check_hex_exact (s : string) (n : N) (field : string) : result SdkError string :=
  if negb (len s =? n)%N || negb (all_hex s)
  then Err (InvalidInput (field +:+ " must be a " +:+ num n +:+ "-character hex string"))
  else Ok (to_ascii_lowercase s).

Definition check_repo_id (repo_id : string) : result SdkError unit :=
  if String.eqb repo_id EmptyString then Err (InvalidInput "repo_id must not be empty")
  else if (64 <? len repo_id)%N then Err (InvalidInput ("repo_id exceeds 64 characters (got " +:+ num (len repo_id) +:+ ")"))
  else if negb (str_forallb (fun c => is_ascii_alphanumeric c || Ascii.eqb c "." || Ascii.eqb c "_" || Ascii.eqb c "-") repo_id)
  then Err (InvalidInput "repo_id may only contain [a-zA-Z0-9._-]")
  else if starts_with repo_id "." then Err (InvalidInput "repo_id must not start with a dot")
  else if str_contains ".." repo_id then Err (InvalidInput "repo_id must not contain '..'")
  else Ok tt.

Definition normalize_custom_emoji_shortcode (shortcode : string) : result SdkError string :=
  let trimmed := trim_end_matches ":" (trim_start_colons (trim shortcode)) in
  if String.eqb trimmed EmptyString then Err (InvalidInput "emoji shortcode must not be empty")
  else if (64 <? len trimmed)%N then Err (InvalidInput ("emoji shortcode exceeds 64 bytes (got " +:+ num (len trimmed) +:+ ")"))
  else if negb (str_forallb (fun c => is_ascii_alphanumeric c || Ascii.eqb c "-" || Ascii.eqb c "_") trimmed)
  then Err (InvalidInput "emoji shortcode may only contain ASCII letters, digits, hyphens, and underscores")
  else Ok (to_ascii_lowercase trimmed).

Definition http_url (url : string) : bool := starts_with url "http://" || starts_with url "https://".

Definition check_custom_emoji_url (url : string) : result SdkError unit :=
  if String.eqb url EmptyString then Err (InvalidInput "emoji image URL must not be empty")
  else if (2048 <? len url)%N then Err (InvalidInput ("emoji image URL exceeds 2048 bytes (got " +:+ num (len url) +:+ ")"))
  else if negb (http_url url) then Err (InvalidInput "emoji image URL must start with http:// or https://")
  else Ok tt.

Definition check_reason (reason : string) : result SdkError unit :=
  if (MAX_REASON_BYTES <? len reason)%N
  then Err (InvalidInput ("reason code exceeds maximum length of " +:+ num MAX_REASON_BYTES +:+ " UTF-8 bytes (got " +:+
                          num (len reason) +:+ ")"))
  else if has_control reason then Err (InvalidInput "reason code must not contain control characters")
  else Ok tt.

(** The four items of an [auth] tag. *)
Record AuthTag := mkAuth { auth_label : string; auth_owner : string; auth_conditions : string; auth_sig : string }.

Definition check_auth_tag_shape (auth : AuthTag) : result SdkError unit :=
  if negb (String.eqb (auth_label auth) "auth")
  then Err (InvalidInput ("auth tag label must be " +:+ debug_str "auth" +:+ " (got " +:+
                          String quote (auth_label auth +:+ String quote ")")))
  else
    let? _ := check_pubkey_hex (auth_owner auth) "auth tag owner pubkey" in
    if negb (len (auth_sig auth) =? 128)%N || negb (all_hex (auth_sig auth))
    then Err (InvalidInput "auth tag signature must be 128-character hex")
    else Ok tt.

(** ** Tags *)

Section builders.
Context `{NL : NostrLib, SK : SdkLib}.

Definition tag (parts : list string) : result SdkError Tag := map_err InvalidTag (tag_parse parts).

(** [tags.push(tag(parts)?)]. *)
Definition push (tags : list Tag) (parts : list string) : result SdkError (list Tag) :=
  let? t := tag parts in Ok (tags ++ [t]).

Fixpoint push_all (tags : list Tag) (partss : list (list string)) : result SdkError (list Tag) :=
  match partss with
  | [] => Ok tags
  | parts :: rest => let? tags := push tags parts in push_all tags rest
  end.

(** [if let Some(x) = o { tags.push(tag(f(x))?) }]. *)
Definition push_opt {A} (tags : list Tag) (o : option A) (f : A -> list string) : result SdkError (list Tag) :=
  match o with Some x => push tags (f x) | None => Ok tags end.

Definition push_if (tags : list Tag) (c : bool) (parts : list string) : result SdkError (list Tag) :=
  if c then push tags parts else Ok tags.

(** [if let Some(x) = o { check(x)?; .. }]. *)
Definition check_opt {A B} (o : option A) (check : A -> result SdkError B) : result SdkError (option B) :=
  match o with Some x => let? y := check x in Ok (Some y) | None => Ok None end.

Definition thread_tags (thread_ref : ThreadRef) (tags : list Tag) : result SdkError (list Tag) :=
  let root := to_hex (root_event_id thread_ref) in
  let parent := to_hex (parent_event_id thread_ref) in
  if String.eqb root parent then push tags ["e"; root; EmptyString; "reply"]
  else
    let? tags := push tags ["e"; root; EmptyString; "root"] in
    push tags ["e"; parent; EmptyString; "reply"].

Definition thread_tags_opt (thread_ref : option ThreadRef) (tags : list Tag) : result SdkError (list Tag) :=
  match thread_ref with Some tr => thread_tags tr tags | None => Ok tags end.

Fixpoint mention_loop (mentions : list string) (seen : gset string) (tags : list Tag) : result SdkError (list Tag) :=
  match mentions with
  | [] => Ok tags
  | hex :: rest =>
      let lower := to_ascii_lowercase hex in
      if bool_decide (lower ∈ seen) then mention_loop rest seen tags
      else let? tags := push tags ["p"; lower] in mention_loop rest ({[lower]} ∪ seen) tags
  end.

Definition mention_tags (mentions : list string) (tags : list Tag) : result SdkError (list Tag) :=
  if (MENTION_CAP <? length mentions)%nat then Err TooManyMentions else mention_loop mentions ∅ tags.

Fixpoint imeta_tags (media_tags : list (list string)) (tags : list Tag) : result SdkError (list Tag) :=
  match media_tags with
  | [] => Ok tags
  | mt :: rest => let? tags := push tags mt in imeta_tags rest tags
  end.

Definition event (kind : N) (content : string) (tags : list Tag) : result SdkError EventBuilder :=
  Ok (mkBuilder kind content tags false).

Definition h_tag (channel_id : Uuid) : list string := ["h"; Uuid_to_string channel_id].

(** ** Messages *)

Definition build_message (channel_id : Uuid) (content : string) (thread_ref : option ThreadRef) (mentions : list string)
    (broadcast : bool) (media_tags : list (list string)) : result SdkError EventBuilder :=
  let? _ := check_content content (kib 64) in
  let? tags := push [] (h_tag channel_id) in
  let? tags := thread_tags_opt thread_ref tags in
  let? tags := mention_tags mentions tags in
  let? tags := push_if tags broadcast ["broadcast"; "1"] in
  let? tags := imeta_tags media_tags tags in
  event 9 content tags.

Definition build_agent_observer_frame (recipient_pubkey agent_pubkey frame encrypted_content : string)
    : result SdkError EventBuilder :=
  if negb (String.eqb frame OBSERVER_FRAME_TELEMETRY) && negb (String.eqb frame OBSERVER_FRAME_CONTROL)
  then Err (InvalidInput ("observer frame must be " +:+ debug_str OBSERVER_FRAME_TELEMETRY +:+ " or " +:+
                          debug_str OBSERVER_FRAME_CONTROL))
  else if negb (content_looks_like_nip44 encrypted_content)
  then Err (InvalidInput "observer frame content must be NIP-44 v2 ciphertext")
  else
    let? recipient_pubkey := check_pubkey_hex recipient_pubkey "recipient_pubkey" in
    let? agent_pubkey := check_pubkey_hex agent_pubkey "agent_pubkey" in
    let? tags := push_all [] [["p"; recipient_pubkey]; [OBSERVER_AGENT_TAG; agent_pubkey]; [OBSERVER_FRAME_TAG; frame]] in
    event (as_u16 KIND_AGENT_OBSERVER_FRAME) encrypted_content tags.

Definition build_forum_post (channel_id : Uuid) (content : string) (mentions : list string) (media_tags : list (list string))
    : result SdkError EventBuilder :=
  let? _ := check_content content (kib 64) in
  let? tags := push [] (h_tag channel_id) in
  let? tags := mention_tags mentions tags in
  let? tags := imeta_tags media_tags tags in
  event 45001 content tags.

Definition build_forum_comment (channel_id : Uuid) (content : string) (thread_ref : ThreadRef) (mentions : list string)
    (media_tags : list (list string)) : result SdkError EventBuilder :=
  let? _ := check_content content (kib 64) in
  let? tags := push [] (h_tag channel_id) in
  let? tags := thread_tags thread_ref tags in
  let? tags := mention_tags mentions tags in
  let? tags := imeta_tags media_tags tags in
  event 45003 content tags.

Definition build_diff_message (channel_id : Uuid) (content : string) (m : DiffMeta) (thread_ref : option ThreadRef)
    : result SdkError EventBuilder :=
  let? _ := check_content content (kib 60) in
  let? _ := ensure (http_url (repo_url m)) (InvalidDiffMeta "repo_url must start with http:// or https://") in
  let? _ := check_hex_len (commit_sha m) 7 "commit_sha" in
  let? _ := check_opt (diff_parent_commit m) (fun pc => check_hex_len pc 7 "parent_commit") in
  let? _ := match branch m with
            | Some (src, tgt) =>
                if String.eqb src EmptyString || String.eqb tgt EmptyString
                then Err (InvalidDiffMeta "branch requires both source and target to be non-empty") else Ok tt
            | None => Ok tt
            end in
  let? _ := match pr_number m with
            | Some pr => if (pr =? 0)%N then Err (InvalidDiffMeta "pr_number must be positive") else Ok tt
            | None => Ok tt
            end in
  let? tags := push_all [] [h_tag channel_id; ["repo"; repo_url m]; ["commit"; commit_sha m]] in
  let? tags := push_opt tags (file_path m) (fun fp => ["file"; fp]) in
  let? tags := push_opt tags (diff_parent_commit m) (fun pc => ["parent-commit"; pc]) in
  let? tags := push_opt tags (branch m) (fun st => ["branch"; st.1; st.2]) in
  let? tags := push_opt tags (pr_number m) (fun pr => ["pr"; num pr]) in
  let? tags := push_opt tags (language m) (fun lang => ["l"; lang]) in
  let? tags := push_opt tags (diff_description m) (fun desc => ["description"; desc]) in
  let? tags := push_if tags (truncated m) ["truncated"; "true"] in
  let? tags := push_opt tags (alt_text m) (fun alt => ["alt"; alt]) in
  let? tags := thread_tags_opt thread_ref tags in
  event 40008 content tags.

Definition build_edit (channel_id : Uuid) (target_event_id : EventId) (new_content : string) : result SdkError EventBuilder :=
  let? _ := check_content new_content (kib 64) in
  let? tags := push_all [] [h_tag channel_id; ["e"; to_hex target_event_id]] in
  event 40003 new_content tags.

Record DeleteMessageOptions := mkDelete {
  action_id : option Uuid;
  reason_code : option string;
  public_reason : option string;
}.

Definition build_delete_message_with_options (channel_id : Uuid) (target_event_id : EventId) (options : DeleteMessageOptions)
    : result SdkError EventBuilder :=
  let? tags := push_all [] [h_tag channel_id; ["e"; to_hex target_event_id]] in
  let? tags := push_opt tags (action_id options) (fun a => ["action_id"; Uuid_to_string a]) in
  let? tags := push_opt tags (reason_code options) (fun r => ["reason_code"; r]) in
  let? tags := push_opt tags (public_reason options) (fun r => ["public_reason"; r]) in
  event 9005 EmptyString tags.

Definition build_delete_message (channel_id : Uuid) (target_event_id : EventId) : result SdkError EventBuilder :=
  build_delete_message_with_options channel_id target_event_id (mkDelete None None None).

Definition build_delete_compat (channel_id : Uuid) (target_event_id : EventId) : result SdkError EventBuilder :=
  let? tags := push_all [] [h_tag channel_id; ["e"; to_hex target_event_id]] in
  event 5 EmptyString tags.

Definition build_vote (channel_id : Uuid) (target_event_id : EventId) (direction : VoteDirection) : result SdkError EventBuilder :=
  let content := match direction with Up => "+" | Down => "-" end in
  let? tags := push_all [] [h_tag channel_id; ["e"; to_hex target_event_id]] in
  event 45002 content tags.

Definition build_reaction (target_event_id : EventId) (emoji : string) : result SdkError EventBuilder :=
  let? _ := ensure (chars_count emoji <=? 64)%nat EmojiTooLong in
  let? tags := push [] ["e"; to_hex target_event_id] in
  event 7 emoji tags.

Definition build_custom_emoji_reaction (target_event_id : EventId) (shortcode url : string) : result SdkError EventBuilder :=
  let? shortcode := normalize_custom_emoji_shortcode shortcode in
  let? _ := check_custom_emoji_url url in
  let content := ":" +:+ shortcode +:+ ":" in
  let? tags := push_all [] [["e"; to_hex target_event_id]; ["emoji"; shortcode; url]] in
  event 7 content tags.

Definition build_remove_reaction (reaction_event_id : EventId) : result SdkError EventBuilder :=
  let? tags := push [] ["e"; to_hex reaction_event_id] in
  event 5 EmptyString tags.

Fixpoint emoji_loop (emojis : list CustomEmoji) (seen : gset string) (tags : list Tag) : result SdkError (list Tag) :=
  match emojis with
  | [] => Ok tags
  | e :: rest =>
      let? code := normalize_custom_emoji_shortcode (shortcode e) in
      let? _ := check_custom_emoji_url (emoji_url e) in
      if bool_decide (code ∈ seen) then Err (InvalidInput ("duplicate emoji shortcode: " +:+ code))
      else let? tags := push tags ["emoji"; code; emoji_url e] in emoji_loop rest ({[code]} ∪ seen) tags
  end.

Definition build_custom_emoji_set (emojis : list CustomEmoji) : result SdkError EventBuilder :=
  let? tags := push [] ["d"; CUSTOM_EMOJI_SET_D_TAG] in
  let? tags := emoji_loop emojis ∅ tags in
  event (as_u16 KIND_EMOJI_SET) EmptyString tags.

Definition build_set_canvas (channel_id : Uuid) (content : string) : result SdkError EventBuilder :=
  let? tags := push [] (h_tag channel_id) in
  event 40100 content tags.

Definition build_profile (display_name name picture about nip05 : option string) : result SdkError EventBuilder :=
  let field key (o : option string) := match o with Some v => [(key, v)] | None => [] end in
  event 0 (json_object (field "display_name" display_name ++ field "name" name ++ field "picture" picture ++
                        field "about" about ++ field "nip05" nip05)) [].

(** ** Channels *)

Definition build_add_member (channel_id : Uuid) (target_pubkey : string) (role : option MemberRole.t)
    : result SdkError EventBuilder :=
  let? _ := check_hex_len target_pubkey 64 "target_pubkey" in
  let? tags := push_all [] [h_tag channel_id; ["p"; to_ascii_lowercase target_pubkey]] in
  let? tags := push_opt tags role (fun r => ["role"; MemberRole.as_str r]) in
  event 9000 EmptyString tags.

Definition build_remove_member (channel_id : Uuid) (target_pubkey : string) : result SdkError EventBuilder :=
  let? _ := check_hex_len target_pubkey 64 "target_pubkey" in
  let? tags := push_all [] [h_tag channel_id; ["p"; to_ascii_lowercase target_pubkey]] in
  event 9001 EmptyString tags.

Definition build_leave (channel_id : Uuid) : result SdkError EventBuilder :=
  let? tags := push [] (h_tag channel_id) in event 9022 EmptyString tags.

Definition is_none {A} (o : option A) : bool := match o with None => true | Some _ => false end.

Definition build_update_channel (channel_id : Uuid) (name about visibility : option string) (ttl : option (option Z))
    : result SdkError EventBuilder :=
  let? _ := ensure (negb (is_none name && is_none about && is_none visibility && is_none ttl))
              (InvalidTag "at least one of name, about, visibility, or ttl must be provided") in
  let? _ := match visibility with
            | Some v => ensure (String.eqb v "open" || String.eqb v "private")
                          (InvalidTag ("visibility must be " +:+ debug_str "open" +:+ " or " +:+ debug_str "private"))
            | None => Ok tt
            end in
  let? _ := match name with
            | Some n => ensure (negb (String.eqb (trim (canonical_channel_name n)) EmptyString)) (InvalidTag "channel name is required")
            | None => Ok tt
            end in
  let? tags := push [] (h_tag channel_id) in
  let? tags := push_opt tags name (fun n => ["name"; canonical_channel_name n]) in
  let? tags := push_opt tags about (fun a => ["about"; a]) in
  let? tags := push_opt tags visibility (fun v => ["visibility"; v]) in
  let? tags := push_opt tags ttl (fun t => match t with Some secs => ["ttl"; i32_to_string secs] | None => ["ttl"; EmptyString] end) in
  event 9002 EmptyString tags.

Definition build_set_topic (channel_id : Uuid) (topic : string) : result SdkError EventBuilder :=
  let? tags := push_all [] [h_tag channel_id; ["topic"; topic]] in event 9002 EmptyString tags.

Definition build_set_purpose (channel_id : Uuid) (purpose : string) : result SdkError EventBuilder :=
  let? tags := push_all [] [h_tag channel_id; ["purpose"; purpose]] in event 9002 EmptyString tags.

Definition build_create_channel (channel_id : Uuid) (name : string) (visibility : option ChannelVisibility.t)
    (channel_type : option ChannelType.t) (about : option string) (ttl : option Z) : result SdkError EventBuilder :=
  let name := canonical_channel_name name in
  let? _ := ensure (negb (String.eqb (trim name) EmptyString)) (InvalidTag "channel name is required") in
  let? tags := push_all [] [h_tag channel_id; ["name"; name]] in
  let? tags := push_opt tags visibility (fun v => ["visibility"; ChannelVisibility.as_str v]) in
  let? tags := push_opt tags channel_type (fun ct => ["channel_type"; ChannelType.as_str ct]) in
  let? tags := push_opt tags about (fun a => ["about"; a]) in
  let? tags := push_opt tags ttl (fun secs => ["ttl"; i32_to_string secs]) in
  event 9007 EmptyString tags.

Definition build_join (channel_id : Uuid) : result SdkError EventBuilder :=
  let? tags := push [] (h_tag channel_id) in event 9021 EmptyString tags.

Definition build_archive (channel_id : Uuid) : result SdkError EventBuilder :=
  let? tags := push_all [] [h_tag channel_id; ["archived"; "true"]] in event 9002 EmptyString tags.

Definition build_unarchive (channel_id : Uuid) : result SdkError EventBuilder :=
  let? tags := push_all [] [h_tag channel_id; ["archived"; "false"]] in event 9002 EmptyString tags.

Definition build_delete_channel (channel_id : Uuid) : result SdkError EventBuilder :=
  let? tags := push [] (h_tag channel_id) in event 9008 EmptyString tags.

(** ** Notes and contacts *)

Definition build_note (content : string) (reply_to_event_id : option EventId) : result SdkError EventBuilder :=
  let? _ := check_content content (kib 64) in
  let? tags := push_opt [] reply_to_event_id (fun id => ["e"; to_hex id; EmptyString; "reply"]) in
  event 1 content tags.

Definition check_contact (contact : string * option string * option string) : result SdkError unit :=
  let '(pubkey_hex, relay_url, petname) := contact in
  let? _ := ensure (len pubkey_hex =? 64)%N (InvalidInput ("contact pubkey must be exactly 64 hex chars, got len=" +:+ num (len pubkey_hex))) in
  let? _ := ensure (all_hex pubkey_hex) (InvalidInput ("contact pubkey must be exactly 64 hex chars, got len=" +:+ num (len pubkey_hex))) in
  let? _ := match relay_url with
            | Some url => ensure (len url <=? 2048)%N (InvalidInput ("relay_url exceeds 2048 bytes (got " +:+ num (len url) +:+ ")"))
            | None => Ok tt
            end in
  match petname with
  | Some name => ensure (len name <=? 256)%N (InvalidInput ("petname exceeds 256 bytes (got " +:+ num (len name) +:+ ")"))
  | None => Ok tt
  end.

Fixpoint contact_loop (contacts : list (string * option string * option string)) (seen : gset string) (tags : list Tag)
    : result SdkError (list Tag) :=
  match contacts with
  | [] => Ok tags
  | ((pubkey_hex, relay_url), petname) as contact :: rest =>
      let? _ := check_contact contact in
      let lower := to_ascii_lowercase pubkey_hex in
      if bool_decide (lower ∈ seen) then contact_loop rest seen tags
      else
        let? tags := push tags ["p"; lower; default EmptyString relay_url; default EmptyString petname] in
        contact_loop rest ({[lower]} ∪ seen) tags
  end.

Definition build_contact_list (contacts : list (string * option string * option string)) : result SdkError EventBuilder :=
  let? _ := ensure (N.of_nat (length contacts) <=? MAX_CONTACTS)%N
    (InvalidInput ("contact list exceeds maximum of " +:+ num MAX_CONTACTS +:+ " contacts (got " +:+
                   num (N.of_nat (length contacts)) +:+ ")")) in
  let? tags := contact_loop contacts ∅ [] in
  event 3 EmptyString tags.

Definition extract_channel_id (e : Event) : option Uuid :=
  find_map (fun t : Tag => if bool_decide (head t = Some "h") then v ← t !! 1; Uuid_parse v else None) (ev_tags e).

(** ** Repositories *)

Definition check_bounded (what : string) (max : N) (s : string) : result SdkError unit :=
  ensure (len s <=? max)%N (InvalidInput (what +:+ " exceeds " +:+ num max +:+ " characters (got " +:+ num (len s) +:+ ")")).

Definition check_clone_url (url : string) : result SdkError unit :=
  if String.eqb url EmptyString then Err (InvalidInput "clone_url must not be empty") else check_bounded "clone_url" 512 url.

Definition check_web_url (url : string) : result SdkError unit :=
  if negb (http_url url) then Err (InvalidInput ("web_url must start with http:// or https:// (got " +:+ debug_str url +:+ ")"))
  else check_bounded "web_url" 512 url.

Definition check_relay_url (relay : string) : result SdkError unit :=
  if negb (starts_with relay "ws://") && negb (starts_with relay "wss://")
  then Err (InvalidInput ("relay must start with ws:// or wss:// (got " +:+ debug_str relay +:+ ")"))
  else check_bounded "relay" 256 relay.

Definition build_repo_announcement (repo_id : string) (name description : option string) (clone_urls : list string)
    (web_url : option string) (relays : list string) : result SdkError EventBuilder :=
  let? _ := check_repo_id repo_id in
  let? _ := check_opt name (check_bounded "name" 128) in
  let? _ := check_opt description (check_bounded "description" 1024) in
  let? _ := ensure (length clone_urls <=? 5)%nat
    (InvalidInput ("too many clone_urls (max 5, got " +:+ num (N.of_nat (length clone_urls)) +:+ ")")) in
  let? _ := map_res check_clone_url clone_urls in
  let? _ := check_opt web_url check_web_url in
  let? _ := ensure (length relays <=? 10)%nat
    (InvalidInput ("too many relays (max 10, got " +:+ num (N.of_nat (length relays)) +:+ ")")) in
  let? _ := map_res check_relay_url relays in
  let? tags := push [] ["d"; repo_id] in
  let? tags := push_opt tags name (fun n => ["name"; n]) in
  let? tags := push_opt tags description (fun d => ["description"; d]) in
  let? tags := push_if tags (negb (bool_decide (clone_urls = []))) ("clone" :: clone_urls) in
  let? tags := push_opt tags web_url (fun url => ["web"; url]) in
  let? tags := push_if tags (negb (bool_decide (relays = []))) ("relays" :: relays) in
  event (as_u16 KIND_GIT_REPO_ANNOUNCEMENT) EmptyString tags.

Definition build_repo_announcement_with_tags (repo_id content : string) (tags : list Tag) : result SdkError EventBuilder :=
  let? _ := check_repo_id repo_id in
  let tags := List.filter (fun t : Tag => negb (bool_decide (head t = Some "d"))) tags in
  let? d := tag ["d"; repo_id] in
  event (as_u16 KIND_GIT_REPO_ANNOUNCEMENT) content (d :: tags).

Record GitRepoCoord := mkCoord { owner : string; coord_id : string }.

Definition to_a_tag_value (c : GitRepoCoord) : result SdkError string :=
  let? o := check_pubkey_hex (owner c) "repo owner" in
  let? _ := check_repo_id (coord_id c) in
  Ok ("30617:" +:+ o +:+ ":" +:+ coord_id c).

Record GitPatchMeta := mkPatch {
  patch_euc : option string;
  patch_recipients : list string;
  reply_to : option string;
  root : bool;
  root_revision : bool;
  patch_commit : option string;
  patch_parent_commit : option string;
  commit_pgp_sig : option string;
  committer : option (string * string * string * string);
}.

(** [for recipient in &meta.recipients { .. tags.push(["p", pk]) }]. *)
Fixpoint push_recipients (recipients : list string) (tags : list Tag) : result SdkError (list Tag) :=
  match recipients with
  | [] => Ok tags
  | r :: rest =>
      let? pk := check_pubkey_hex r "recipient" in
      let? tags := push tags ["p"; pk] in
      push_recipients rest tags
  end.

(** [if let Some(x) = o { check_commit_hex(x)?; tags.push(..)? .. }]. *)
Definition push_commit (tags : list Tag) (o : option string) (field : string) (partss : string -> list (list string))
    : result SdkError (list Tag) :=
  match o with
  | Some c => let? _ := check_commit_hex c field in push_all tags (partss c)
  | None => Ok tags
  end.

(** [if let Some(x) = o { let id = check_hex_exact(x, 64)?; tags.push(..)? }]. *)
Definition push_event_id (tags : list Tag) (o : option string) (field : string) (parts : string -> list string)
    : result SdkError (list Tag) :=
  match o with
  | Some x => let? id := check_hex_exact x 64 field in push tags (parts id)
  | None => Ok tags
  end.

Definition build_git_patch (repo : GitRepoCoord) (content : string) (m : GitPatchMeta) : result SdkError EventBuilder :=
  let? _ := ensure (negb (String.eqb (trim content) EmptyString))
    (InvalidInput "patch content must not be empty — refusing to publish an unappliable patch") in
  let? _ := check_content content (kib 60) in
  let? a_value := to_a_tag_value repo in
  let? o := check_pubkey_hex (owner repo) "repo owner" in
  let? tags := push [] ["a"; a_value] in
  let? tags := push_commit tags (patch_euc m) "euc" (fun euc => [["r"; euc; "euc"]]) in
  let? tags := push tags ["p"; o] in
  let? tags := push_recipients (patch_recipients m) tags in
  let? tags := push_event_id tags (reply_to m) "reply_to" (fun id => ["e"; id; EmptyString; "reply"]) in
  let? _ := ensure (negb (root m && root_revision m)) (InvalidInput "patch cannot be both --root and --root-revision") in
  let? tags := push_if tags (root m) ["t"; "root"] in
  let? tags := push_if tags (root_revision m) ["t"; "root-revision"] in
  let? tags := push_commit tags (patch_commit m) "commit" (fun c => [["commit"; c]; ["r"; c]]) in
  let? tags := push_commit tags (patch_parent_commit m) "parent_commit" (fun c => [["parent-commit"; c]]) in
  let? tags := push_opt tags (commit_pgp_sig m) (fun sig => ["commit-pgp-sig"; sig]) in
  let? tags := push_opt tags (committer m) (fun c => let '(name, email, ts, tz) := c in ["committer"; name; email; ts; tz]) in
  event (as_u16 KIND_GIT_PATCH) content tags.

Record GitIssueMeta := mkIssue { issue_labels : list string; issue_recipients : list string }.

Definition check_subject (subject : string) : result SdkError unit :=
  if String.eqb subject EmptyString then Err (InvalidInput "subject must not be empty") else check_bounded "subject" 256 subject.

Definition build_git_issue (repo : GitRepoCoord) (subject content : string) (m : GitIssueMeta) : result SdkError EventBuilder :=
  let? _ := check_content content (kib 64) in
  let? _ := check_subject subject in
  let? a_value := to_a_tag_value repo in
  let? o := check_pubkey_hex (owner repo) "repo owner" in
  let? tags := push_all [] [["a"; a_value]; ["p"; o]] in
  let? tags := push_recipients (issue_recipients m) tags in
  let? tags := push tags ["subject"; subject] in
  let? tags := push_all tags ((fun label => ["t"; label]) <$> issue_labels m) in
  event (as_u16 KIND_GIT_ISSUE) content tags.

Inductive GitStatus := StatusOpen | AppliedOrResolved | Closed | Draft.

#[global] Instance GitStatus_eq_dec : EqDecision GitStatus.
Proof. solve_decision. Defined.

Record GitAppliedPatchRef := mkApplied { applied_id : string; applied_relay : option string; applied_pubkey : option string }.

Definition parse_applied (spec : string) : result SdkError GitAppliedPatchRef :=
  match split_once ":" spec with
  | None => Ok (mkApplied spec None None)
  | Some (id, rest_str) =>
      match rsplit_once ":" rest_str with
      | Some (relay, candidate_pubkey) =>
          if (len candidate_pubkey =? 64)%N && all_hex candidate_pubkey
          then Ok (mkApplied id (Some relay) (Some (to_ascii_lowercase candidate_pubkey)))
          else Ok (mkApplied id (Some rest_str) None)
      | None => Ok (mkApplied id (Some rest_str) None)
      end
  end.

Definition status_kind (s : GitStatus) : N :=
  match s with
  | StatusOpen => as_u16 KIND_GIT_STATUS_OPEN
  | AppliedOrResolved => as_u16 KIND_GIT_STATUS_MERGED
  | Closed => as_u16 KIND_GIT_STATUS_CLOSED
  | Draft => as_u16 KIND_GIT_STATUS_DRAFT
  end.

Record GitStatusMeta := mkStatus {
  root_event : string;
  accepted_revision_root : option string;
  status_repo : option GitRepoCoord;
  status_euc : option string;
  status_recipients : list string;
  applied_patches : list GitAppliedPatchRef;
  merge_commit : option string;
  applied_as_commits : list string;
}.

Fixpoint push_applied (refs : list GitAppliedPatchRef) (tags : list Tag) : result SdkError (list Tag) :=
  match refs with
  | [] => Ok tags
  | r :: rest =>
      let? patch_id := check_hex_exact (applied_id r) 64 "applied_patch" in
      let? tags :=
        match applied_relay r, applied_pubkey r with
        | None, None => push tags ["q"; patch_id]
        | Some relay, None => push tags ["q"; patch_id; relay]
        | Some relay, Some pubkey =>
            let? pubkey := check_pubkey_hex pubkey "applied_patch pubkey" in push tags ["q"; patch_id; relay; pubkey]
        | None, Some _ => Err (InvalidInput "applied_patch pubkey hint requires a relay-url hint")
        end in
      push_applied rest tags
  end.

Definition push_coord (tags : list Tag) (o : option GitRepoCoord) : result SdkError (list Tag) :=
  match o with Some repo => let? a_value := to_a_tag_value repo in push tags ["a"; a_value] | None => Ok tags end.

Definition push_applied_commits (tags : list Tag) (commits : list string) : result SdkError (list Tag) :=
  if bool_decide (commits = []) then Ok tags
  else
    let? _ := map_res (fun c => check_commit_hex c "applied_as_commit") commits in
    let? tags := push tags ("applied-as-commits" :: commits) in
    push_all tags ((fun c => ["r"; c]) <$> commits).

Definition build_git_status (status : GitStatus) (content : string) (m : GitStatusMeta) : result SdkError EventBuilder :=
  let? _ := check_content content (kib 64) in
  let? root := check_hex_exact (root_event m) 64 "root_event" in
  let? tags := push [] ["e"; root; EmptyString; "root"] in
  let? tags := push_event_id tags (accepted_revision_root m) "accepted_revision_root" (fun id => ["e"; id; EmptyString; "reply"]) in
  let? tags := push_recipients (status_recipients m) tags in
  let? tags := push_coord tags (status_repo m) in
  let? tags := push_commit tags (status_euc m) "euc" (fun euc => [["r"; euc]]) in
  let? _ := ensure (bool_decide (status = AppliedOrResolved) ||
                    (bool_decide (applied_patches m = []) && is_none (merge_commit m) && bool_decide (applied_as_commits m = [])))
    (InvalidInput "applied_patches/merge_commit/applied_as_commits only apply to the merged/resolved status") in
  let? tags := push_applied (applied_patches m) tags in
  let? tags := push_commit tags (merge_commit m) "merge_commit" (fun c => [["merge-commit"; c]; ["r"; c]]) in
  let? tags := push_applied_commits tags (applied_as_commits m) in
  event (status_kind status) content tags.

Record GitPullRequestMeta := mkPr {
  pr_euc : option string;
  pr_recipients : list string;
  pr_channel_id : option string;
  pr_subject : string;
  pr_labels : list string;
  pr_commit : string;
  pr_clone_urls : list string;
  branch_name : option string;
  pr_merge_base : option string;
  revision_of : option string;
}.

Definition push_channel (tags : list Tag) (o : option string) : result SdkError (list Tag) :=
  match o with
  | Some s =>
      let? channel_id := ok_or (Uuid_parse s) (InvalidInput ("channel_id must be a valid UUID: " +:+ uuid_error s)) in
      push tags (h_tag channel_id)
  | None => Ok tags
  end.

Definition build_git_pull_request (repo : GitRepoCoord) (content : string) (m : GitPullRequestMeta) : result SdkError EventBuilder :=
  let? _ := check_content content (kib 64) in
  let? _ := check_subject (pr_subject m) in
  let? _ := check_commit_hex (pr_commit m) "commit" in
  let? _ := ensure (negb (bool_decide (pr_clone_urls m = [])))
    (InvalidInput "a pull request needs at least one --clone url where the tip commit can be fetched") in
  let? a_value := to_a_tag_value repo in
  let? o := check_pubkey_hex (owner repo) "repo owner" in
  let? tags := push [] ["a"; a_value] in
  let? tags := push_commit tags (pr_euc m) "euc" (fun euc => [["r"; euc]]) in
  let? tags := push tags ["p"; o] in
  let? tags := push_recipients (pr_recipients m) tags in
  let? tags := push tags ["subject"; pr_subject m] in
  let? tags := push_all tags ((fun label => ["t"; label]) <$> pr_labels m) in
  let? tags := push tags ["c"; pr_commit m] in
  let? tags := push_channel tags (pr_channel_id m) in
  let? tags := push tags ("clone" :: pr_clone_urls m) in
  let? tags := push_opt tags (branch_name m) (fun b => ["branch-name"; b]) in
  let? tags := push_commit tags (pr_merge_base m) "merge_base" (fun c => [["merge-base"; c]]) in
  let? tags := push_event_id tags (revision_of m) "revision_of" (fun id => ["e"; id]) in
  event (as_u16 KIND_GIT_PULL_REQUEST) content tags.

Record GitPrUpdateMeta := mkPrUpdate {
  up_euc : option string;
  up_recipients : list string;
  pr_event : string;
  pr_author : string;
  up_commit : string;
  up_clone_urls : list string;
  up_merge_base : option string;
}.

Definition build_git_pr_update (repo : GitRepoCoord) (content : string) (m : GitPrUpdateMeta) : result SdkError EventBuilder :=
  let? _ := check_content content (kib 64) in
  let? ev := check_hex_exact (pr_event m) 64 "pr_event" in
  let? author := check_pubkey_hex (pr_author m) "pr_author" in
  let? _ := check_commit_hex (up_commit m) "commit" in
  let? _ := ensure (negb (bool_decide (up_clone_urls m = [])))
    (InvalidInput "a pull request update needs at least one --clone url where the tip commit can be fetched") in
  let? a_value := to_a_tag_value repo in
  let? o := check_pubkey_hex (owner repo) "repo owner" in
  let? tags := push [] ["a"; a_value] in
  let? tags := push_commit tags (up_euc m) "euc" (fun euc => [["r"; euc]]) in
  let? tags := push tags ["p"; o] in
  let? tags := push_recipients (up_recipients m) tags in
  let? tags := push_all tags [["E"; ev]; ["P"; author]; ["c"; up_commit m]; "clone" :: up_clone_urls m] in
  let? tags := push_commit tags (up_merge_base m) "merge_base" (fun c => [["merge-base"; c]]) in
  event (as_u16 KIND_GIT_PR_UPDATE) content tags.

(** ** Workflows, direct messages, presence *)

Definition build_workflow_def (channel_id workflow_id : Uuid) (yaml : string) : result SdkError EventBuilder :=
  let? _ := check_content yaml (kib 64) in
  let? tags := push_all [] [["d"; Uuid_to_string workflow_id]; h_tag channel_id] in
  event (as_u16 KIND_WORKFLOW_DEF) yaml tags.

Definition build_workflow_update (channel_id workflow_id : Uuid) (yaml : string) : result SdkError EventBuilder :=
  let? _ := check_content yaml (kib 64) in
  let? tags := push_all [] [["d"; Uuid_to_string workflow_id]; h_tag channel_id] in
  event (as_u16 KIND_WORKFLOW_DEF) yaml tags.

Definition build_workflow_delete (author_pubkey : string) (workflow_id : Uuid) : result SdkError EventBuilder :=
  let? pk := check_pubkey_hex author_pubkey "author_pubkey" in
  let? tags := push [] ["a"; num KIND_WORKFLOW_DEF +:+ ":" +:+ pk +:+ ":" +:+ Uuid_to_string workflow_id] in
  event (as_u16 KIND_DELETION) EmptyString tags.

Definition build_workflow_trigger (workflow_id : Uuid) : result SdkError EventBuilder :=
  let? tags := push [] ["d"; Uuid_to_string workflow_id] in
  event (as_u16 KIND_WORKFLOW_TRIGGER) EmptyString tags.

Definition build_workflow_approval (token_hash : string) (approved : bool) (note : string) : result SdkError EventBuilder :=
  let? _ := ensure ((len token_hash =? 64)%N && all_hex token_hash)
    (InvalidInput "token_hash must be a 64-character hex SHA-256 digest") in
  let kind := if approved then KIND_APPROVAL_GRANT else KIND_APPROVAL_DENY in
  let? tags := push [] ["d"; token_hash] in
  event (as_u16 kind) note tags.

Fixpoint push_pubkeys (pubkeys : list string) (tags : list Tag) : result SdkError (list Tag) :=
  match pubkeys with
  | [] => Ok tags
  | pk :: rest =>
      let? validated := check_pubkey_hex pk "pubkey" in
      let? tags := push tags ["p"; validated] in
      push_pubkeys rest tags
  end.

Definition build_dm_open (pubkeys : list string) : result SdkError EventBuilder :=
  let? _ := ensure (negb (bool_decide (pubkeys = [])) && (length pubkeys <=? 8)%nat) (InvalidInput "dm open requires 1-8 pubkeys") in
  let? tags := push_pubkeys pubkeys [] in
  event (as_u16 KIND_DM_OPEN) EmptyString tags.

Definition build_dm_add_member (channel_id : Uuid) (pubkey : string) : result SdkError EventBuilder :=
  let? pk := check_pubkey_hex pubkey "pubkey" in
  let? tags := push_all [] [h_tag channel_id; ["p"; pk]] in
  event (as_u16 KIND_DM_ADD_MEMBER) EmptyString tags.

Definition one_of (s : string) (options : list string) : bool := existsb (String.eqb s) options.

Definition build_presence_update (status : string) : result SdkError EventBuilder :=
  let? _ := ensure (one_of status ["online"; "away"; "offline"])
    (InvalidInput ("status must be online, away, or offline (got: " +:+ status +:+ ")")) in
  let? tags := push [] ["status"; status] in
  event (as_u16 KIND_PRESENCE_UPDATE) status tags.

(** ** Moderation and archival *)

Definition build_moderation_ban (target_pubkey : string) (expires_at : option N) (reason : option string)
    : result SdkError EventBuilder :=
  let? pk := check_pubkey_hex target_pubkey "target_pubkey" in
  let? tags := push [] ["p"; pk] in
  let? tags := push_opt tags expires_at (fun exp => ["expiration"; num exp]) in
  let? tags := push_opt tags reason (fun r => ["reason"; r]) in
  event (as_u16 KIND_MODERATION_BAN) EmptyString tags.

Definition build_moderation_unban (target_pubkey : string) : result SdkError EventBuilder :=
  let? pk := check_pubkey_hex target_pubkey "target_pubkey" in
  let? tags := push [] ["p"; pk] in
  event (as_u16 KIND_MODERATION_UNBAN) EmptyString tags.

Definition build_moderation_timeout (target_pubkey : string) (expires_at : N) (reason : option string)
    : result SdkError EventBuilder :=
  let? pk := check_pubkey_hex target_pubkey "target_pubkey" in
  let? tags := push_all [] [["p"; pk]; ["expiration"; num expires_at]] in
  let? tags := push_opt tags reason (fun r => ["reason"; r]) in
  event (as_u16 KIND_MODERATION_TIMEOUT) EmptyString tags.

Definition build_moderation_untimeout (target_pubkey : string) : result SdkError EventBuilder :=
  let? pk := check_pubkey_hex target_pubkey "target_pubkey" in
  let? tags := push [] ["p"; pk] in
  event (as_u16 KIND_MODERATION_UNTIMEOUT) EmptyString tags.

Definition build_moderation_resolve_report (report_event_id status action : string) (reason : option string)
    : result SdkError EventBuilder :=
  let? id := check_hex_exact report_event_id 64 "report_event_id" in
  let? _ := ensure (one_of status ["resolved"; "dismissed"])
    (InvalidInput ("status must be resolved or dismissed (got: " +:+ status +:+ ")")) in
  let? _ := ensure (one_of action ["delete"; "kick"; "ban"; "timeout"; "dismiss"; "escalate"])
    (InvalidInput ("action must be delete, kick, ban, timeout, dismiss, or escalate (got: " +:+ action +:+ ")")) in
  let? tags := push_all [] [["report"; id]; ["status"; status]; ["action"; action]] in
  let? tags := push_opt tags reason (fun r => ["reason"; r]) in
  event (as_u16 KIND_MODERATION_RESOLVE_REPORT) EmptyString tags.

Definition push_reason (tags : list Tag) (reason : option string) : result SdkError (list Tag) :=
  match reason with Some r => let? _ := check_reason r in push tags ["reason"; r] | None => Ok tags end.

Definition push_replaced_by (tags : list Tag) (target_lower : string) (replaced_by : option string) : result SdkError (list Tag) :=
  match replaced_by with
  | Some rb =>
      let? rb_lower := check_pubkey_hex rb "replaced_by" in
      if String.eqb rb_lower target_lower then Err (InvalidInput "replaced-by must differ from the target")
      else push tags ["replaced-by"; rb_lower]
  | None => Ok tags
  end.

Definition push_auth (tags : list Tag) (auth : option AuthTag) : result SdkError (list Tag) :=
  match auth with
  | Some a => let? _ := check_auth_tag_shape a in push tags ["auth"; auth_owner a; auth_conditions a; auth_sig a]
  | None => Ok tags
  end.

Definition identity_archive_tags (target_pubkey : string) (reason replaced_by : option string) (auth : option AuthTag)
    : result SdkError (list Tag) :=
  let? target_lower := check_pubkey_hex target_pubkey "target_pubkey" in
  let? tags := push_all [] [["-"]; ["p"; target_lower]] in
  let? tags := push_reason tags reason in
  let? tags := push_replaced_by tags target_lower replaced_by in
  push_auth tags auth.

Definition build_archive_identity_request (target_pubkey content : string) (reason replaced_by : option string)
    (auth : option AuthTag) : result SdkError EventBuilder :=
  let? _ := check_content content (kib 64) in
  let? tags := identity_archive_tags target_pubkey reason replaced_by auth in
  Ok (mkBuilder (as_u16 KIND_IA_ARCHIVE_REQUEST) content tags true).

Definition build_unarchive_identity_request (target_pubkey content : string) (reason : option string) (auth : option AuthTag)
    : result SdkError EventBuilder :=
  let? _ := check_content content (kib 64) in
  let? tags := identity_archive_tags target_pubkey reason None auth in
  Ok (mkBuilder (as_u16 KIND_IA_UNARCHIVE_REQUEST) content tags true).
End builders.
