(* ===== verification/SdkTheory.v ===== *)
(** * What the event builders guarantee

    Each statement of a builder only appends tags, so the lemmas are about
    [push] and its variants: a predicate that holds of every tag pushed holds
    of all tags ([walk]), and the first tags stay where they are ([grows]).
    [built] lists the builders with the channel an event is scoped to and the
    bound on its content; [addressed] lists those that check the keys they put
    into tags. *)

From S2P Require Import Prelude Text Nostr Demo Kinds OwnerAttestation GitPerms Sdk.

(** A 64-digit lowercase hex key. *)
Definition lower_key (s : string) : bool := (len s =? 64)%N && str_forallb is_lower_hex_char s.

(** The tags whose second item is a key. *)
Definition key_tags : list string := ["p"; "P"; "agent"; "replaced-by"].

Definition key_ok (t : Tag) : Prop := forall name v rest, t = name :: v :: rest -> name ∈ key_tags -> lower_key v = true.

Definition no_h (t : Tag) : Prop := head t <> Some "h".

Section pushes.
Context `{NL : NostrLib, SK : SdkLib, SKL : !SdkLaws NL SK}.

Lemma push_ok tags p ps t : push tags (p :: ps) = Ok t -> t = tags ++ [p :: ps].
Proof. unfold push, tag. rewrite tag_parse_spec. cbn [map_err]. by intros [= <-]. Qed.

(** A predicate of every pushed tag. *)
Section predicate.
Variable P : Tag -> Prop.

Lemma push_all_tags tags p ps t : push tags (p :: ps) = Ok t -> Forall P tags -> P (p :: ps) -> Forall P t.
Proof. intros ->%push_ok H1 H2. apply Forall_app. split; [done|by constructor]. Qed.

Lemma push_if_tags tags c p ps t : push_if tags c (p :: ps) = Ok t -> Forall P tags -> P (p :: ps) -> Forall P t.
Proof. unfold push_if. destruct c; [apply push_all_tags|]. by intros [= <-]. Qed.

Lemma push_opt_tags {A} tags (o : option A) f t :
  push_opt tags o f = Ok t -> Forall P tags -> (forall x, exists p ps, f x = p :: ps /\ P (p :: ps)) -> Forall P t.
Proof.
  unfold push_opt. destruct o as [x|]; [|by intros [= <-]]. intros H H1 H2. destruct (H2 x) as (p & ps & E & HP).
  rewrite E in H. by eapply push_all_tags.
Qed.

Lemma push_each_tags tags partss t :
  push_all tags partss = Ok t -> Forall P tags -> Forall (fun parts => parts <> [] /\ P parts) partss -> Forall P t.
Proof.
  intros H H1 H2. revert tags H H1. induction H2 as [|parts rest [Hne HP] H2 IH]; intros tags; cbn [push_all]; [by intros [= <-]|].
  intros H H1. ok_facts. destruct parts as [|p ps]; [done|]. eapply IH; [done|]. by eapply push_all_tags.
Qed.

Lemma push_commit_tags tags o field partss t :
  push_commit tags o field partss = Ok t -> Forall P tags ->
  (forall c, Forall (fun parts => parts <> [] /\ P parts) (partss c)) -> Forall P t.
Proof.
  unfold push_commit. destruct o as [c|]; [|by intros [= <-]]. intros H H1 H2. ok_facts. by eapply push_each_tags.
Qed.

Lemma push_event_id_tags tags o field parts t :
  push_event_id tags o field parts = Ok t -> Forall P tags -> (forall id, exists p ps, parts id = p :: ps /\ P (p :: ps)) -> Forall P t.
Proof.
  unfold push_event_id. destruct o as [x|]; [|by intros [= <-]]. intros H H1 H2. ok_facts.
  destruct (H2 a) as (p & ps & E' & HP). rewrite E' in H. by eapply push_all_tags.
Qed.

Lemma push_recipients_tags rs tags t :
  push_recipients rs tags = Ok t -> Forall P tags ->
  (forall r pk, check_pubkey_hex r "recipient" = Ok pk -> P ["p"; pk]) -> Forall P t.
Proof.
  revert tags. induction rs as [|r rs IH]; intros tags; cbn [push_recipients]; [by intros [= <-]|]. intros H H1 H2. ok_facts.
  eapply IH; [done| |done]. eapply push_all_tags; [done..|by eapply H2].
Qed.

Lemma push_pubkeys_tags rs tags t :
  push_pubkeys rs tags = Ok t -> Forall P tags -> (forall r pk, check_pubkey_hex r "pubkey" = Ok pk -> P ["p"; pk]) -> Forall P t.
Proof.
  revert tags. induction rs as [|r rs IH]; intros tags; cbn [push_pubkeys]; [by intros [= <-]|]. intros H H1 H2. ok_facts.
  eapply IH; [done| |done]. eapply push_all_tags; [done..|by eapply H2].
Qed.

Lemma push_applied_tags rs tags t :
  push_applied rs tags = Ok t -> Forall P tags -> (forall ps, P ("q" :: ps)) -> Forall P t.
Proof.
  revert tags. induction rs as [|r rs IH]; intros tags; cbn [push_applied]; [by intros [= <-]|]. intros H H1 H2. ok_facts.
  eapply IH; [done| |done]. destruct (applied_relay r), (applied_pubkey r); ok_facts; try done; by eapply push_all_tags.
Qed.

Lemma push_coord_tags tags o t : push_coord tags o = Ok t -> Forall P tags -> (forall v, P ["a"; v]) -> Forall P t.
Proof.
  unfold push_coord. destruct o as [c|]; [|by intros [= <-]]. intros H H1 H2. ok_facts. by eapply push_all_tags.
Qed.

Lemma contact_loop_tags cs seen tags t :
  contact_loop cs seen tags = Ok t -> Forall P tags ->
  (forall c, check_contact c = Ok tt -> P ["p"; to_ascii_lowercase c.1.1; default EmptyString c.1.2; default EmptyString c.2]) -> Forall P t.
Proof.
  revert seen tags. induction cs as [|[[pk url] name] cs IH]; intros seen tags; cbn [contact_loop]; [by intros [= <-]|].
  intros H H1 H2. destruct (check_contact (pk, url, name)) as [[]|] eqn:Ec; [|done]. case_bool_decide; [by eapply IH|]. ok_facts.
  eapply IH; [done| |done]. eapply push_all_tags; [done..|]. apply (H2 (pk, url, name) Ec).
Qed.

Lemma emoji_loop_tags es seen tags t :
  emoji_loop es seen tags = Ok t -> Forall P tags -> (forall ps, P ("emoji" :: ps)) -> Forall P t.
Proof.
  revert seen tags. induction es as [|e es IH]; intros seen tags; cbn [emoji_loop]; [by intros [= <-]|]. intros H H1 H2. ok_facts.
  case_bool_decide; [done|]. ok_facts. eapply IH; [done| |done]. by eapply push_all_tags.
Qed.

Lemma push_applied_commits_tags tags cs t :
  push_applied_commits tags cs = Ok t -> Forall P tags -> (forall ps, P ("applied-as-commits" :: ps)) -> (forall c, P ["r"; c]) -> Forall P t.
Proof.
  unfold push_applied_commits. case_bool_decide; [by intros [= <-]|]. intros Ht H1 H2 H3. ok_facts.
  eapply push_each_tags; [done|by eapply push_all_tags|]. apply Forall_fmap, Forall_forall. intros c _. split; [done|apply H3].
Qed.

Lemma push_reason_tags tags o t : push_reason tags o = Ok t -> Forall P tags -> (forall r, P ["reason"; r]) -> Forall P t.
Proof. unfold push_reason. destruct o; [|by intros [= <-]]. intros H H1 H2. ok_facts. by eapply push_all_tags. Qed.

Lemma push_replaced_by_tags tags x o t :
  push_replaced_by tags x o = Ok t -> Forall P tags ->
  (forall r pk, check_pubkey_hex r "replaced_by" = Ok pk -> P ["replaced-by"; pk]) -> Forall P t.
Proof.
  unfold push_replaced_by. destruct o as [rb|]; [|by intros [= <-]]. intros H H1 H2. ok_facts. destruct (String.eqb _ _); [done|].
  eapply push_all_tags; [done..|]. by eapply H2.
Qed.

Lemma thread_tags_tags tr tags t : thread_tags tr tags = Ok t -> Forall P tags -> (forall ps, P ("e" :: ps)) -> Forall P t.
Proof.
  unfold thread_tags. intros H H1 H2. destruct (String.eqb _ _); [by eapply push_all_tags|]. ok_facts.
  eapply push_all_tags; [done| |done]. by eapply push_all_tags.
Qed.

Lemma thread_tags_opt_tags tr tags t : thread_tags_opt tr tags = Ok t -> Forall P tags -> (forall ps, P ("e" :: ps)) -> Forall P t.
Proof. unfold thread_tags_opt. destruct tr; [apply thread_tags_tags|by intros [= <-]]. Qed.

Lemma push_channel_tags tags o t : push_channel tags o = Ok t -> Forall P tags -> (forall ps, P ("h" :: ps)) -> Forall P t.
Proof. unfold push_channel. destruct o; [|by intros [= <-]]. intros H H1 H2. ok_facts. by eapply push_all_tags. Qed.

Lemma push_auth_tags tags o t : push_auth tags o = Ok t -> Forall P tags -> (forall ps, P ("auth" :: ps)) -> Forall P t.
Proof. unfold push_auth. destruct o; [|by intros [= <-]]. intros H H1 H2. ok_facts. by eapply push_all_tags. Qed.
End predicate.

(** Tags are only appended. *)
Lemma push_grows tags parts t : push tags parts = Ok t -> tags `prefix_of` t.
Proof. unfold push. intros H. ok_facts. injection H as <-. by eexists. Qed.

Lemma push_if_grows tags c parts t : push_if tags c parts = Ok t -> tags `prefix_of` t.
Proof. unfold push_if. destruct c; [apply push_grows|]. by intros [= <-]. Qed.

Lemma push_opt_grows {A} tags (o : option A) f t : push_opt tags o f = Ok t -> tags `prefix_of` t.
Proof. unfold push_opt. destruct o; [apply push_grows|]. by intros [= <-]. Qed.

Lemma push_each_grows tags partss t : push_all tags partss = Ok t -> tags `prefix_of` t.
Proof.
  revert tags. induction partss as [|p ps IH]; intros tags; cbn [push_all]; [by intros [= <-]|]. intros H. ok_facts.
  etransitivity; [by eapply push_grows|by apply IH].
Qed.

Lemma thread_tags_grows tr tags t : thread_tags tr tags = Ok t -> tags `prefix_of` t.
Proof.
  unfold thread_tags. destruct (String.eqb _ _); [apply push_grows|]. intros H. ok_facts.
  etransitivity; by eapply push_grows.
Qed.

Lemma thread_tags_opt_grows tr tags t : thread_tags_opt tr tags = Ok t -> tags `prefix_of` t.
Proof. unfold thread_tags_opt. destruct tr; [apply thread_tags_grows|]. by intros [= <-]. Qed.

Lemma mention_tags_grows ms tags t : mention_tags ms tags = Ok t -> tags `prefix_of` t.
Proof.
  unfold mention_tags. destruct (_ <? _)%nat; [done|]. generalize (∅ : gset string).
  revert tags. induction ms as [|m ms IH]; intros tags seen; cbn [mention_loop]; [by intros [= <-]|].
  case_bool_decide; [apply IH|]. intros H'. ok_facts. etransitivity; [by eapply push_grows|by eapply IH].
Qed.

Lemma imeta_tags_grows ms tags t : imeta_tags ms tags = Ok t -> tags `prefix_of` t.
Proof.
  revert tags. induction ms as [|m ms IH]; intros tags; cbn [imeta_tags]; [by intros [= <-]|]. intros H. ok_facts.
  etransitivity; [by eapply push_grows|by eapply IH].
Qed.

Lemma push_commit_grows tags o field partss t : push_commit tags o field partss = Ok t -> tags `prefix_of` t.
Proof. unfold push_commit. destruct o; [|by intros [= <-]]. intros H. ok_facts. by eapply push_each_grows. Qed.

Lemma push_event_id_grows tags o field parts t : push_event_id tags o field parts = Ok t -> tags `prefix_of` t.
Proof. unfold push_event_id. destruct o; [|by intros [= <-]]. intros H. ok_facts. by eapply push_grows. Qed.
End pushes.

(** [walk] shows a predicate of all tags of a builder, leaving what it has to
    hold of; [grow] shows that the first tags are a prefix of all of them. *)
Ltac walk :=
  repeat first
  [ eassumption
  | match goal with |- Forall _ [] => constructor end
  | eapply push_all_tags; [eassumption|..]
  | eapply push_if_tags; [eassumption|..]
  | eapply push_opt_tags; [eassumption|..]
  | eapply push_each_tags; [eassumption|..]
  | eapply push_commit_tags; [eassumption|..]
  | eapply push_event_id_tags; [eassumption|..]
  | eapply push_recipients_tags; [eassumption|..]
  | eapply push_pubkeys_tags; [eassumption|..]
  | eapply push_applied_tags; [eassumption|..]
  | eapply push_coord_tags; [eassumption|..]
  | eapply contact_loop_tags; [eassumption|..]
  | eapply emoji_loop_tags; [eassumption|..]
  | eapply push_applied_commits_tags; [eassumption|..]
  | eapply push_reason_tags; [eassumption|..]
  | eapply push_replaced_by_tags; [eassumption|..]
  | eapply push_auth_tags; [eassumption|..]
  | eapply thread_tags_opt_tags; [eassumption|..]
  | eapply push_channel_tags; [eassumption|..] ].



Section guarantees.
Context `{NL : NostrLib, SK : SdkLib, SKL : !SdkLaws NL SK}.

(** The channel of a pull request is the one its author names. *)
Definition pr_scope (m : GitPullRequestMeta) : option Uuid := s ← pr_channel_id m; Uuid_parse s.

(** The builders, with the channel of their events and the bound on the
    content. *)
Inductive built : option Uuid -> option N -> EventBuilder -> Prop :=
| built_message c x tr ms br media b : build_message c x tr ms br media = Ok b -> built (Some c) (Some (kib 64)) b
| built_observer_frame r a f x b : build_agent_observer_frame r a f x = Ok b -> built (None) (Some NIP44_MAX_CONTENT_LEN) b
| built_forum_post c x ms media b : build_forum_post c x ms media = Ok b -> built (Some c) (Some (kib 64)) b
| built_forum_comment c x tr ms media b : build_forum_comment c x tr ms media = Ok b -> built (Some c) (Some (kib 64)) b
| built_diff_message c x m tr b : build_diff_message c x m tr = Ok b -> built (Some c) (Some (kib 60)) b
| built_edit c e x b : build_edit c e x = Ok b -> built (Some c) (Some (kib 64)) b
| built_delete_message c e o b : build_delete_message_with_options c e o = Ok b -> built (Some c) (Some 0%N) b
| built_delete_compat c e b : build_delete_compat c e = Ok b -> built (Some c) (Some 0%N) b
| built_vote c e d b : build_vote c e d = Ok b -> built (Some c) (Some 1%N) b
| built_reaction e x b : build_reaction e x = Ok b -> built (None) (None) b
| built_emoji_reaction e x url b : build_custom_emoji_reaction e x url = Ok b -> built (None) (Some 66%N) b
| built_remove_reaction e b : build_remove_reaction e = Ok b -> built (None) (Some 0%N) b
| built_emoji_set es b : build_custom_emoji_set es = Ok b -> built (None) (Some 0%N) b
| built_set_canvas c x b : build_set_canvas c x = Ok b -> built (Some c) (None) b
| built_profile d n p a i b : build_profile d n p a i = Ok b -> built (None) (None) b
| built_add_member c pk r b : build_add_member c pk r = Ok b -> built (Some c) (Some 0%N) b
| built_remove_member c pk b : build_remove_member c pk = Ok b -> built (Some c) (Some 0%N) b
| built_leave c b : build_leave c = Ok b -> built (Some c) (Some 0%N) b
| built_update_channel c n a v t b : build_update_channel c n a v t = Ok b -> built (Some c) (Some 0%N) b
| built_set_topic c x b : build_set_topic c x = Ok b -> built (Some c) (Some 0%N) b
| built_set_purpose c x b : build_set_purpose c x = Ok b -> built (Some c) (Some 0%N) b
| built_create_channel c n v ct a t b : build_create_channel c n v ct a t = Ok b -> built (Some c) (Some 0%N) b
| built_join c b : build_join c = Ok b -> built (Some c) (Some 0%N) b
| built_archive c b : build_archive c = Ok b -> built (Some c) (Some 0%N) b
| built_unarchive c b : build_unarchive c = Ok b -> built (Some c) (Some 0%N) b
| built_delete_channel c b : build_delete_channel c = Ok b -> built (Some c) (Some 0%N) b
| built_note x r b : build_note x r = Ok b -> built (None) (Some (kib 64)) b
| built_contact_list cs b : build_contact_list cs = Ok b -> built (None) (Some 0%N) b
| built_repo_announcement i n d cl w rl b : build_repo_announcement i n d cl w rl = Ok b -> built (None) (Some 0%N) b
| built_git_patch r x m b : build_git_patch r x m = Ok b -> built (None) (Some (kib 60)) b
| built_git_issue r s x m b : build_git_issue r s x m = Ok b -> built (None) (Some (kib 64)) b
| built_git_status s x m b : build_git_status s x m = Ok b -> built (None) (Some (kib 64)) b
| built_git_pull_request r x m b : build_git_pull_request r x m = Ok b -> built (pr_scope m) (Some (kib 64)) b
| built_git_pr_update r x m b : build_git_pr_update r x m = Ok b -> built (None) (Some (kib 64)) b
| built_workflow_def c w x b : build_workflow_def c w x = Ok b -> built (Some c) (Some (kib 64)) b
| built_workflow_update c w x b : build_workflow_update c w x = Ok b -> built (Some c) (Some (kib 64)) b
| built_workflow_delete pk w b : build_workflow_delete pk w = Ok b -> built (None) (Some 0%N) b
| built_workflow_trigger w b : build_workflow_trigger w = Ok b -> built (None) (Some 0%N) b
| built_workflow_approval t a x b : build_workflow_approval t a x = Ok b -> built (None) (None) b
| built_dm_open pks b : build_dm_open pks = Ok b -> built (None) (Some 0%N) b
| built_dm_add_member c pk b : build_dm_add_member c pk = Ok b -> built (Some c) (Some 0%N) b
| built_presence x b : build_presence_update x = Ok b -> built (None) (Some 7%N) b
| built_ban pk t r b : build_moderation_ban pk t r = Ok b -> built (None) (Some 0%N) b
| built_unban pk b : build_moderation_unban pk = Ok b -> built (None) (Some 0%N) b
| built_timeout pk t r b : build_moderation_timeout pk t r = Ok b -> built (None) (Some 0%N) b
| built_untimeout pk b : build_moderation_untimeout pk = Ok b -> built (None) (Some 0%N) b
| built_resolve_report i s a r b : build_moderation_resolve_report i s a r = Ok b -> built (None) (Some 0%N) b
| built_archive_identity pk x r rb a b : build_archive_identity_request pk x r rb a = Ok b -> built (None) (Some (kib 64)) b
| built_unarchive_identity pk x r a b : build_unarchive_identity_request pk x r a = Ok b -> built (None) (Some (kib 64)) b.

(** The builders that check every key they are given. *)
Inductive addressed : EventBuilder -> Prop :=
| addressed_observer_frame r a f x b : build_agent_observer_frame r a f x = Ok b -> addressed b
| addressed_diff_message c x m tr b : build_diff_message c x m tr = Ok b -> addressed b
| addressed_edit c e x b : build_edit c e x = Ok b -> addressed b
| addressed_delete_message c e o b : build_delete_message_with_options c e o = Ok b -> addressed b
| addressed_delete_compat c e b : build_delete_compat c e = Ok b -> addressed b
| addressed_vote c e d b : build_vote c e d = Ok b -> addressed b
| addressed_reaction e x b : build_reaction e x = Ok b -> addressed b
| addressed_emoji_reaction e x url b : build_custom_emoji_reaction e x url = Ok b -> addressed b
| addressed_remove_reaction e b : build_remove_reaction e = Ok b -> addressed b
| addressed_emoji_set es b : build_custom_emoji_set es = Ok b -> addressed b
| addressed_set_canvas c x b : build_set_canvas c x = Ok b -> addressed b
| addressed_profile d n p a i b : build_profile d n p a i = Ok b -> addressed b
| addressed_leave c b : build_leave c = Ok b -> addressed b
| addressed_update_channel c n a v t b : build_update_channel c n a v t = Ok b -> addressed b
| addressed_set_topic c x b : build_set_topic c x = Ok b -> addressed b
| addressed_set_purpose c x b : build_set_purpose c x = Ok b -> addressed b
| addressed_create_channel c n v ct a t b : build_create_channel c n v ct a t = Ok b -> addressed b
| addressed_join c b : build_join c = Ok b -> addressed b
| addressed_archive c b : build_archive c = Ok b -> addressed b
| addressed_unarchive c b : build_unarchive c = Ok b -> addressed b
| addressed_delete_channel c b : build_delete_channel c = Ok b -> addressed b
| addressed_note x r b : build_note x r = Ok b -> addressed b
| addressed_contact_list cs b : build_contact_list cs = Ok b -> addressed b
| addressed_repo_announcement i n d cl w rl b : build_repo_announcement i n d cl w rl = Ok b -> addressed b
| addressed_git_patch r x m b : build_git_patch r x m = Ok b -> addressed b
| addressed_git_issue r s x m b : build_git_issue r s x m = Ok b -> addressed b
| addressed_git_status s x m b : build_git_status s x m = Ok b -> addressed b
| addressed_git_pull_request r x m b : build_git_pull_request r x m = Ok b -> addressed b
| addressed_git_pr_update r x m b : build_git_pr_update r x m = Ok b -> addressed b
| addressed_workflow_def c w x b : build_workflow_def c w x = Ok b -> addressed b
| addressed_workflow_update c w x b : build_workflow_update c w x = Ok b -> addressed b
| addressed_workflow_delete pk w b : build_workflow_delete pk w = Ok b -> addressed b
| addressed_workflow_trigger w b : build_workflow_trigger w = Ok b -> addressed b
| addressed_workflow_approval t a x b : build_workflow_approval t a x = Ok b -> addressed b
| addressed_dm_open pks b : build_dm_open pks = Ok b -> addressed b
| addressed_dm_add_member c pk b : build_dm_add_member c pk = Ok b -> addressed b
| addressed_presence x b : build_presence_update x = Ok b -> addressed b
| addressed_ban pk t r b : build_moderation_ban pk t r = Ok b -> addressed b
| addressed_unban pk b : build_moderation_unban pk = Ok b -> addressed b
| addressed_timeout pk t r b : build_moderation_timeout pk t r = Ok b -> addressed b
| addressed_untimeout pk b : build_moderation_untimeout pk = Ok b -> addressed b
| addressed_resolve_report i s a r b : build_moderation_resolve_report i s a r = Ok b -> addressed b
| addressed_archive_identity pk x r rb a b : build_archive_identity_request pk x r rb a = Ok b -> addressed b
| addressed_unarchive_identity pk x r a b : build_unarchive_identity_request pk x r a = Ok b -> addressed b.

Lemma push_h tags c t : push tags (h_tag c) = Ok t -> t = tags ++ [h_tag c].
Proof. apply push_ok. Qed.

Lemma extract_none tags : Forall no_h tags -> find_map (fun t : Tag => if bool_decide (head t = Some "h") then v ← t !! 1; Uuid_parse v else None) tags = None.
Proof. induction 1 as [|t tags Ht _ IH]; [done|]. cbn [find_map]. rewrite bool_decide_false; done. Qed.

Lemma extract_first c pre tags :
  Forall no_h pre -> (pre ++ [h_tag c]) `prefix_of` tags ->
  find_map (fun t : Tag => if bool_decide (head t = Some "h") then v ← t !! 1; Uuid_parse v else None) tags = Some c.
Proof.
  intros Hpre [k ->]. rewrite <-app_assoc. induction Hpre as [|t pre Ht _ IH]; cbn [app find_map].
  - cbn. by rewrite uuid_read_back.
  - rewrite bool_decide_false by done. exact IH.
Qed.

(** An early return that did not happen. *)
Ltac no_errors :=
  repeat match goal with
  | H : (if ?c then Err _ else _) = Ok _ |- _ => let E := fresh "E" in destruct c eqn:E; [discriminate H|]
  end.

(** Unfolds a builder into the pushes that succeeded. *)
Ltac open_builder H :=
  unfold build_add_member, build_agent_observer_frame, build_archive, build_archive_identity_request, build_contact_list, build_create_channel, build_custom_emoji_reaction, build_custom_emoji_set, build_delete_channel, build_delete_compat, build_delete_message_with_options, build_diff_message, build_dm_add_member, build_dm_open, build_edit, build_forum_comment, build_forum_post, build_git_issue, build_git_patch, build_git_pr_update, build_git_pull_request, build_git_status, build_join, build_leave, build_message, build_moderation_ban, build_moderation_resolve_report, build_moderation_timeout, build_moderation_unban, build_moderation_untimeout, build_note, build_presence_update, build_profile, build_reaction, build_remove_member, build_remove_reaction, build_repo_announcement, build_set_canvas, build_set_purpose, build_set_topic, build_unarchive, build_unarchive_identity_request, build_update_channel, build_vote, build_workflow_approval, build_workflow_def, build_workflow_delete, build_workflow_trigger, build_workflow_update, identity_archive_tags, event in H;
  repeat (ok_facts; no_errors; cbn [push_all] in *; 
    repeat match goal with H' : Ok ?x = Ok ?y |- _ => is_var x; is_var y; injection H' as -> end); injection H as <-; cbn [b_tags b_content].

(** The tags so far are a prefix of the tags in the end. *)
Ltac grow :=
  repeat match goal with
  | |- ?t `prefix_of` ?t => reflexivity
  | |- _ `prefix_of` ?t =>
      match goal with
      | H : push [] ?p = Ok t |- _ => apply push_ok in H; subst t; reflexivity
      | H : push ?a _ = Ok t |- _ => transitivity a; [|by eapply push_grows]
      | H : push_if ?a _ _ = Ok t |- _ => transitivity a; [|by eapply push_if_grows]
      | H : push_opt ?a _ _ = Ok t |- _ => transitivity a; [|by eapply push_opt_grows]
      | H : push_all ?a _ = Ok t |- _ => transitivity a; [|by eapply push_each_grows]
      | H : thread_tags _ ?a = Ok t |- _ => transitivity a; [|by eapply thread_tags_grows]
      | H : thread_tags_opt _ ?a = Ok t |- _ => transitivity a; [|by eapply thread_tags_opt_grows]
      | H : mention_tags _ ?a = Ok t |- _ => transitivity a; [|by eapply mention_tags_grows]
      | H : imeta_tags _ ?a = Ok t |- _ => transitivity a; [|by eapply imeta_tags_grows]
      | H : push_commit ?a _ _ _ = Ok t |- _ => transitivity a; [|by eapply push_commit_grows]
      | H : push_event_id ?a _ _ _ = Ok t |- _ => transitivity a; [|by eapply push_event_id_grows]
      end
  end.

Lemma content_bound x max u : check_content x max = Ok u -> (len x <= max)%N.
Proof. unfold check_content. destruct (N.ltb_spec max (len x)); [done|]. intros _. lia. Qed.

(** What [walk] leaves: [prove] shows the predicate of one tag. *)
Ltac each_tag prove :=
  match goal with
  | |- Forall _ (_ <$> _) => apply Forall_fmap, Forall_forall; intros ? _; split; [discriminate|prove]
  | |- Forall _ _ => repeat (constructor; [split; [discriminate|prove]|]); constructor
  | |- forall _, Forall _ _ => intros ?; repeat (constructor; [split; [discriminate|prove]|]); constructor
  | |- forall x : string * string * string * string, _ => intros [[[? ?] ?] ?]; eexists _, _; (split; [reflexivity|prove])
  | |- forall _ : option _, exists _ _, _ => intros [?|]; eexists _, _; (split; [reflexivity|prove])
  | |- forall _, exists _ _, _ => intros ?; eexists _, _; (split; [reflexivity|prove])
  | |- _ => intros; prove
  end.

Lemma built_channel scope limit b0 e0 : built scope limit b0 -> ev_tags e0 = b_tags b0 -> extract_channel_id e0 = scope.
Proof.
  intros Hb He. unfold extract_channel_id. rewrite He. clear He.
  destruct Hb as
  [c x tr ms br media b H|r a f x b H|c x ms media b H|c x tr ms media b H|c x m tr b H|c e x b H|c e o b H|c e b H|c e d b H|e x b H|e x url b H|e b H|es b H|c x b H|d n p a i b H|c pk r b H|c pk b H|c b H|c n a v t b H|c x b H|c x b H|c n v ct a t b H|c b H|c b H|c b H|c b H|x r b H|cs b H|i n d cl w rl b H|r x m b H|r s x m b H|s x m b H|r x m b H|r x m b H|c w x b H|c w x b H|pk w b H|w b H|t a x b H|pks b H|c pk b H|x b H|pk t r b H|pk b H|pk t r b H|pk b H|i s a r b H|pk x r rb a b H|pk x r a b H].
  all: open_builder H.
  all: try (solve [apply (extract_first _ []); [constructor|]; grow]).
  all: try (solve [apply extract_none; walk; each_tag discriminate]).
  - unfold push_channel, pr_scope in *. destruct (pr_channel_id m) as [cid|]; ok_facts.
    + cbn [mbind option_bind]. rewrite E17. eapply (extract_first _ a11); [walk; each_tag discriminate|].
      rewrite <-(push_h _ _ _ E12). grow.
    + injection E12 as ->. apply extract_none. walk; each_tag discriminate.
  - match goal with H' : push ?t (h_tag _) = Ok _ |- _ =>
      eapply (extract_first _ t); [walk; each_tag discriminate|rewrite <-(push_h _ _ _ H'); grow] end.
  - match goal with H' : push ?t (h_tag _) = Ok _ |- _ =>
      eapply (extract_first _ t); [walk; each_tag discriminate|rewrite <-(push_h _ _ _ H'); grow] end.
Qed.

Lemma shortcode_bound x code : normalize_custom_emoji_shortcode x = Ok code -> (len code <= 64)%N.
Proof.
  unfold normalize_custom_emoji_shortcode. intros H. no_errors. injection H as <-. unfold len in *. rewrite lowercase_length.
  by apply N.ltb_ge in E0.
Qed.

Lemma built_bound scope max b0 : built scope (Some max) b0 -> (len (b_content b0) <= max)%N.
Proof.
  remember (Some max) as limit eqn:Hlimit. intros Hb. revert Hlimit.
  destruct Hb as
  [c x tr ms br media b H|r a f x b H|c x ms media b H|c x tr ms media b H|c x m tr b H|c e x b H|c e o b H|c e b H|c e d b H|e x b H|e x url b H|e b H|es b H|c x b H|d n p a i b H|c pk r b H|c pk b H|c b H|c n a v t b H|c x b H|c x b H|c n v ct a t b H|c b H|c b H|c b H|c b H|x r b H|cs b H|i n d cl w rl b H|r x m b H|r s x m b H|s x m b H|r x m b H|r x m b H|c w x b H|c w x b H|pk w b H|w b H|t a x b H|pks b H|c pk b H|x b H|pk t r b H|pk b H|pk t r b H|pk b H|i s a r b H|pk x r rb a b H|pk x r a b H].
  all: intros Hlimit; try discriminate Hlimit; injection Hlimit as <-; open_builder H.
  all: try (solve [by eapply content_bound]).
  all: try (solve [vm_compute; discriminate]).
  - unfold content_looks_like_nip44 in *. apply negb_false_iff, andb_true_iff in E0 as [_ E0]. by apply N.leb_le.
  - by destruct d.
  - apply shortcode_bound in E. rewrite !len_app. change (len ":") with 1%N. lia.
  - unfold one_of in E. apply existsb_exists in E as (y & Hy & ->%String.eqb_eq). repeat destruct Hy as [<-|Hy]; try done.
Qed.

(** *** Keys *)

Lemma lower_hex_key s : len s = 64%N -> all_hex s = true -> lower_key (to_ascii_lowercase s) = true.
Proof.
  intros Hlen Hs. unfold lower_key, len in *. rewrite lowercase_length, Hlen. cbn [andb]. unfold all_hex in Hs. clear Hlen.
  rewrite N.eqb_refl. cbn [andb].
  induction s as [|c s IH]; [done|]. cbn [str_forallb to_ascii_lowercase] in *. apply andb_true_iff in Hs as [Hc Hs]. rewrite (IH Hs), andb_true_r.
  destruct c as [[] [] [] [] [] [] [] []]; vm_compute in Hc |- *; congruence.
Qed.

Lemma check_contact_lower c u : check_contact c = Ok u -> lower_key (to_ascii_lowercase c.1.1) = true.
Proof.
  destruct c as [[pk url] name]. unfold check_contact. intros H. ok_facts. apply N.eqb_eq in E. by apply lower_hex_key.
Qed.

Lemma check_pubkey_lower s field pk : check_pubkey_hex s field = Ok pk -> lower_key pk = true.
Proof.
  unfold check_pubkey_hex. intros H. no_errors. injection H as <-. apply orb_false_iff in E as [E1%negb_false_iff E2%negb_false_iff].
  apply N.eqb_eq in E1. by apply lower_hex_key.
Qed.

Lemma key_ok_other name ps : name ∉ key_tags -> key_ok (name :: ps).
Proof. intros H ? ? ? [= <- _] Hin. done. Qed.

Lemma key_ok_key name pk ps : lower_key pk = true -> key_ok (name :: pk :: ps).
Proof. intros H ? ? ? [= _ <- _] _. done. Qed.

Ltac key_tag :=
  first [ apply key_ok_other; apply (bool_decide_unpack _); vm_compute; exact I
        | apply key_ok_key; first [eapply check_pubkey_lower; eassumption | eapply check_contact_lower; eassumption] ].

Lemma addressed_keys b0 : addressed b0 -> Forall key_ok (b_tags b0).
Proof.
  intros Hb. destruct Hb as
  [r a f x b H|c x m tr b H|c e x b H|c e o b H|c e b H|c e d b H|e x b H|e x url b H|e b H|es b H|c x b H|d n p a i b H|c b H|c n a v t b H|c x b H|c x b H|c n v ct a t b H|c b H|c b H|c b H|c b H|x r b H|cs b H|i n d cl w rl b H|r x m b H|r s x m b H|s x m b H|r x m b H|r x m b H|c w x b H|c w x b H|pk w b H|w b H|t a x b H|pks b H|c pk b H|x b H|pk t r b H|pk b H|pk t r b H|pk b H|i s a r b H|pk x r rb a b H|pk x r a b H].
  all: open_builder H.
  all: try (solve [walk; each_tag key_tag]).
Qed.

(** *** Distinct keys *)

(** What a loop with a [seen] set pushed: one tag for each key not seen
    before, in order of first appearance. *)
Definition fresh_tags (keys : list string) (seen : gset string) (new : list Tag) : Prop :=
  Forall (fun t : Tag => is_Some (t !! 1)) new /\ NoDup (omap (fun t : Tag => t !! 1) new) /\
  forall k, k ∈ omap (fun t : Tag => t !! 1) new <-> k ∈ keys /\ (k ∉ seen).

Lemma fresh_skip k keys seen new : k ∈ seen -> fresh_tags keys seen new -> fresh_tags (k :: keys) seen new.
Proof.
  intros Hk (H1 & H2 & H3). split_and!; try done. intros x. rewrite H3, elem_of_cons. split; [tauto|].
  intros [[->|Hx] Hs]; [done|tauto].
Qed.

Lemma fresh_push name k ps keys seen new :
  k ∉ seen -> fresh_tags keys ({[k]} ∪ seen) new -> fresh_tags (k :: keys) seen ((name :: k :: ps) :: new).
Proof.
  intros Hk (H1 & H2 & H3). split_and!.
  - constructor; [by eexists|done].
  - cbn. constructor; [|done]. rewrite H3. set_solver.
  - intros x. cbn. rewrite !elem_of_cons, H3. destruct (decide (x = k)) as [->|]; set_solver.
Qed.

Lemma fresh_nil seen : fresh_tags [] seen [].
Proof. split_and!; [constructor|constructor|]. intros k. cbn. split; [by intros ?%not_elem_of_nil|by intros [?%not_elem_of_nil _]]. Qed.

Lemma mention_loop_fresh ms seen tags t :
  mention_loop ms seen tags = Ok t ->
  exists new, t = tags ++ new /\ fresh_tags (to_ascii_lowercase <$> ms) seen new /\ Forall (fun t : Tag => exists k, t = ["p"; k]) new.
Proof.
  revert seen tags. induction ms as [|m ms IH]; intros seen tags; cbn [mention_loop].
  { intros [= <-]. exists []. split_and!; [by rewrite app_nil_r|apply fresh_nil|constructor]. }
  rewrite fmap_cons. case_bool_decide as Hs.
  - intros (new & -> & Hf & Hp)%IH. exists new. split_and!; [done|by apply fresh_skip|done].
  - intros H. ok_facts. apply push_ok in E as ->. apply IH in H as (new & -> & Hf & Hp).
    exists (["p"; to_ascii_lowercase m] :: new). split_and!; [by rewrite <-app_assoc|by apply fresh_push|constructor; eauto].
Qed.

Lemma contact_loop_fresh cs seen tags t :
  contact_loop cs seen tags = Ok t ->
  exists new, t = tags ++ new /\ fresh_tags ((fun c => to_ascii_lowercase c.1.1) <$> cs) seen new.
Proof.
  revert seen tags. induction cs as [|[[pk url] name] cs IH]; intros seen tags; cbn [contact_loop].
  { intros [= <-]. exists []. split; [by rewrite app_nil_r|apply fresh_nil]. }
  rewrite fmap_cons. intros H. ok_facts. revert H. case_bool_decide as Hs; intros H.
  - apply IH in H as (new & -> & Hf). exists new. split; [done|by apply fresh_skip].
  - ok_facts. apply push_ok in E0 as ->. apply IH in H as (new & -> & Hf).
    eexists (_ :: new). split; [by rewrite <-app_assoc|by apply fresh_push].
Qed.

(** What the event builders promise a relay.  An event made by a builder
    for a channel is scoped to that channel by its first [h] tag, whatever tags
    its caller adds; an event of a builder without a channel (moderation
    commands, requests to archive, notes, contacts, repositories) has no [h]
    tag at all; a pull request is scoped to the channel its author names; and
    the content is within the size the builder allows. *)
Theorem sdk_events_scoped (scope : option Uuid) (limit : option N) (b : EventBuilder) (e : Event) :
  built scope limit b -> ev_tags e = b_tags b -> ev_content e = b_content b ->
  extract_channel_id e = scope /\ forall max, limit = Some max -> (len (ev_content e) <= max)%N.
Proof.
  intros Hb Ht Hc. split; [by eapply built_channel|]. intros max ->. rewrite Hc. by eapply built_bound.
Qed.

(** Keys in built events.  Every key a builder puts into a tag, apart from
    mentions and channel members, is 64 lowercase hex digits; a contact list
    names each of its contacts once and a message each of its mentions, of
    which there are at most fifty; and a rebuilt repository announcement has
    exactly one identifier, followed by the other tags it was given. *)
Theorem sdk_keys_checked :
  (forall b, addressed b -> Forall key_ok (b_tags b)) /\
  (forall cs b, build_contact_list cs = Ok b -> fresh_tags ((fun c => to_ascii_lowercase c.1.1) <$> cs) ∅ (b_tags b)) /\
  (forall ms tags t, mention_tags ms tags = Ok t ->
     length ms <= MENTION_CAP /\ exists new, t = tags ++ new /\ fresh_tags (to_ascii_lowercase <$> ms) ∅ new) /\
  (forall id content tags b, build_repo_announcement_with_tags id content tags = Ok b ->
     check_repo_id id = Ok tt /\ b_tags b = ["d"; id] :: List.filter (fun t => negb (bool_decide (head t = Some "d"))) tags).
Proof.
  split_and!.
  - apply addressed_keys.
  - intros cs b. unfold build_contact_list, event. intros H. ok_facts. injection H as <-.
    apply contact_loop_fresh in E0 as (new & -> & Hf). exact Hf.
  - intros ms tags t. unfold mention_tags. destruct (Nat.ltb_spec MENTION_CAP (length ms)); [done|].
    intros (new & -> & Hf & _)%mention_loop_fresh. split; [done|]. by exists new.
  - intros id content tags b. unfold build_repo_announcement_with_tags, event, tag. rewrite tag_parse_spec. cbn [map_err].
    destruct (check_repo_id id) as [[]|]; [|done]. by intros [= <-].
Qed.
End guarantees.

(** ** An instance *)

Definition sdk_uuid_text (u : Uuid) : string := match u with N0 => "z" | Npos p => bits p end.
Definition sdk_uuid_parse (s : string) : option Uuid := if String.eqb s "z" then Some 0%N else Npos <$> unbits s.

#[export] Instance sdk_nostr : NostrLib := {|
  verify_id := @verify_id demo_nostr;
  verify_signature := @verify_signature demo_nostr;
  EventId_new := @EventId_new demo_nostr;
  EventId_from_hex := @EventId_from_hex demo_nostr;
  PublicKey_from_hex := @PublicKey_from_hex demo_nostr;
  tag_kind := @tag_kind demo_nostr;
  tag_content := @tag_content demo_nostr;
  tag_kind_to_string := @tag_kind_to_string demo_nostr;
  tags_filter := @tags_filter demo_nostr;
  tags_find := @tags_find demo_nostr;
  Uuid_parse := sdk_uuid_parse;
  Uuid_to_string := sdk_uuid_text;
  sha256_hex := @sha256_hex demo_nostr;
|}.

#[export] Instance demo_sdk : SdkLib := {|
  tag_parse parts := match parts with [] => Err "empty tag" | _ => Ok parts end;
  json_object _ := "{}";
  uuid_error _ := "invalid length";
|}.

#[export] Instance demo_sdk_laws : SdkLaws sdk_nostr demo_sdk.
Proof.
  split; [done|]. intros [|p]; [done|]. cbn. unfold sdk_uuid_parse.
  destruct (String.eqb_spec (bits p) "z") as [E|_]; [by destruct p|]. by rewrite unbits_bits.
Qed.

Definition demo_hex64 : string := "AB1f0a6b1f0a6b1f0a6b1f0a6b1f0a6b1f0a6b1f0a6b1f0a6b1f0a6b1f0a6b1f".

Definition demo_key_lower : string := to_ascii_lowercase demo_hex64.

Definition demo_media : list (list string) := [["imeta"; "url https://x"]; ["h"; "z"]].

Definition demo_message : EventBuilder :=
  match build_message 5%N "hello" (Some (mkThread "r" "p")) [demo_hex64; demo_key_lower] true demo_media with
  | Ok b => b
  | Err _ => mkBuilder 0 EmptyString [] false
  end.

Lemma sdk_events_scoped_witness :
  let e := mkEvent "i" "k" 0 9 (b_tags demo_message) (b_content demo_message) "sig" in
  build_message 5%N "hello" (Some (mkThread "r" "p")) [demo_hex64; demo_key_lower] true demo_media = Ok demo_message /\
  extract_channel_id e = Some 5%N /\ (len (ev_content e) <= kib 64)%N /\ length (ev_tags e) = 7.
Proof.
  assert (build_message 5%N "hello" (Some (mkThread "r" "p")) [demo_hex64; demo_key_lower] true demo_media = Ok demo_message) as H
    by (vm_compute; reflexivity).
  destruct (sdk_events_scoped (Some 5%N) (Some (kib 64)) demo_message
              (mkEvent "i" "k" 0 9 (b_tags demo_message) (b_content demo_message) "sig")) as [H1 H2].
  - exact (built_message _ _ _ _ _ _ _ H).
  - reflexivity.
  - reflexivity.
  - split; [exact H|]. split; [exact H1|]. split; [apply H2; reflexivity|vm_compute; reflexivity].
Defined.

Lemma sdk_keys_checked_witness :
  exists b, build_moderation_ban demo_hex64 None None = Ok b /\ Forall key_ok (b_tags b) /\ b_tags b = [["p"; demo_key_lower]].
Proof.
  eexists. split; [vm_compute; reflexivity|]. split; [|vm_compute; reflexivity].
  destruct sdk_keys_checked as [H _]. apply H. apply (addressed_ban demo_hex64 None None). vm_compute. reflexivity.
Defined.

(** A member key may be longer than a key. *)
Example member_key_unchecked :
  is_ok (build_add_member 5%N (demo_hex64 +:+ "ffff") None) = true /\ is_ok (build_dm_add_member 5%N (demo_hex64 +:+ "ffff")) = false.
Proof. vm_compute. split; reflexivity. Qed.
