(* ===== verification/Prompt.v ===== *)
(** * Prompts

    The part of [buzz-acp/src/queue.rs] that turns a batch into the text an
    agent reads: thread tags, slash commands, reply anchors and the sections of
    a prompt.  Bech32, calendar and JSON texts are the class [PromptLib]. *)

From S2P Require Import Prelude Text Nostr Demo Kinds EventQueue OwnerAttestation GitPerms Sdk.

(** A message in the conversation so far. *)
Record ContextMessage := mkContext { msg_pubkey : string; msg_timestamp : string; msg_content : string }.

Inductive ConversationContext :=
| Thread (messages : list ContextMessage) (total : N) (truncated : bool)
| Dm (messages : list ContextMessage) (total : N) (truncated : bool).

Record PromptChannelInfo := mkInfo { info_name : string; channel_type : string }.

Record PromptProfile := mkProfile { display_name : option string; nip05_handle : option string; is_agent : bool }.

Definition PromptProfileLookup := gmap string PromptProfile.

(** Functions of the crates. *)
Class PromptLib := {
  (** [PublicKey::to_bech32] *)
  to_bech32 : PublicKey -> option string;
  (** [DateTime::from_timestamp(secs as i64, 0).map(|dt| dt.to_rfc3339())] *)
  rfc3339 : N -> option string;
  (** [serde_json::to_string] of the tags *)
  tags_to_json : list Tag -> option string;
}.

(** ** Threads *)

Record ThreadTags := mkThreadTags {
  tt_root : option string;
  tt_parent : option string;
  mentioned_pubkeys : list string;
}.

(** The variables of the loop over the tags: root, reply, mentions. *)
Definition thread_step (acc : option string * option string * list string) (parts : Tag) : option string * option string * list string :=
  let '(root, reply, mentions) := acc in
  match parts with
  | name :: rest =>
      if String.eqb name "e" then
        match rest with
        | id :: _ :: marker :: _ =>
            if String.eqb marker "root" then (Some id, reply, mentions)
            else if String.eqb marker "reply" then (root, Some id, mentions)
            else acc
        | _ => acc
        end
      else if String.eqb name "p" then
        match rest with pk :: _ => (root, reply, mentions ++ [pk]) | [] => acc end
      else acc
  | [] => acc
  end.

Definition parse_thread_tags (e : Event) : ThreadTags :=
  let '(root, reply, mentions) := foldl thread_step (None, None, []) (ev_tags e) in
  match root, reply with
  | Some r, Some p => mkThreadTags (Some r) (Some p) mentions
  | Some r, None => mkThreadTags (Some r) (Some r) mentions
  | None, Some p => mkThreadTags (Some p) (Some p) mentions
  | None, None => mkThreadTags None None mentions
  end.

(** ** Slash commands *)

(** The next character is white space. *)
Definition starts_blank (s : string) : bool := negb (String.eqb (trim_start s) s).

(** [&s[s.find(char::is_whitespace).unwrap_or(s.len())..]]. *)
Fixpoint skip_token (s : string) : string :=
  if starts_blank s then s else match s with EmptyString => EmptyString | String _ r => skip_token r end.

Definition mention_char (c : ascii) : bool :=
  is_ascii_alphanumeric c || Ascii.eqb c "." || Ascii.eqb c "-" || Ascii.eqb c "_".

(** What follows the longest prefix of characters of a plain mention. *)
Fixpoint skip_word (s : string) : string :=
  match s with String c r => if mention_char c then skip_word r else s | EmptyString => EmptyString end.

(** A known name at the start, up to white space or the end: what follows it. *)
Definition skip_name (after_at name : string) : option string :=
  let n := String.length name in
  let candidate := String.substring 0 n after_at in
  let rest := String.substring n (String.length after_at - n) after_at in
  if (String.length after_at <? n)%nat then None
  else if negb (eq_ignore_ascii_case candidate name) then None
  else if String.eqb rest EmptyString || starts_blank rest then Some rest
  else None.

Definition longer_first (a b : string) : bool := (String.length b <=? String.length a)%nat.

Definition known_names (names : list string) : list string :=
  sort_by longer_first (List.filter (fun n => negb (String.eqb (trim n) EmptyString)) names).

(** What is left of a text that begins with a mention, [Some None] when an [@]
    is none, [None] when the text begins otherwise. *)
Definition skip_mention (names : list string) (rest : string) : option (option string) :=
  if starts_with rest "nostr:npub1" || starts_with rest "nostr:nprofile1" then Some (Some (trim_start (skip_token rest)))
  else match strip_prefix "@" rest with
  | Some after_at =>
      Some (match find_map (skip_name after_at) names with
            | Some r => Some (trim_start r)
            | None => if String.eqb (skip_word after_at) after_at then None else Some (trim_start (skip_word after_at))
            end)
  | None => None
  end.

(** The loop; [None] when the fuel runs out. *)
Fixpoint skip_mentions (fuel : nat) (names : list string) (rest : string) : option (option string) :=
  match fuel with
  | O => None
  | S fuel =>
      match skip_mention names rest with
      | Some (Some r) => skip_mentions fuel names r
      | Some None => Some None
      | None => Some (Some rest)
      end
  end.

Definition is_command (rest : string) : bool :=
  match rest with String "/" (String c _) => is_ascii_alphanumeric c | _ => false end.

Definition extract_slash_command (content : string) (names : list string) : option string :=
  match skip_mentions (S (String.length content)) (known_names names) (trim_start content) with
  | Some (Some rest) => if is_command rest then Some rest else None
  | _ => None
  end.

Definition slash_command_for_batch (batch : FlushBatch) (names : list string) : option string :=
  match fb_events batch, fb_cancelled_events batch with
  | [be], [] => extract_slash_command (ev_content (be_event be)) names
  | _, _ => None
  end.

(** ** Labels *)

Definition nl : string := String Lines.newline EmptyString.

Definition normalize_lookup_key (pubkey : string) : string := to_ascii_lowercase (trim pubkey).

Definition MAX_PROMPT_LABEL_LEN : nat := 64.

(** The characters of a text, each the string of its bytes. *)
Fixpoint chars_of (s : string) : list string :=
  match s with
  | EmptyString => []
  | String c r =>
      match r with
      | String d _ =>
          if Lines.byte_in 128 191 d
          then match chars_of r with x :: xs => String c x :: xs | [] => [String c EmptyString] end
          else String c EmptyString :: chars_of r
      | EmptyString => [String c EmptyString]
      end
  end.

Definition concat_chars (l : list string) : string := foldr (fun x acc => x +:+ acc) EmptyString l.

Definition sanitize_prompt_label (raw : string) : option string :=
  let clean := concat_chars (take MAX_PROMPT_LABEL_LEN (List.filter (fun c => negb (has_control c)) (chars_of (trim raw)))) in
  if String.eqb clean EmptyString then None else Some clean.

Definition resolve_prompt_label (pubkey : string) (profile_lookup : option PromptProfileLookup) : option string :=
  lookup ← profile_lookup;
  profile ← lookup !! normalize_lookup_key pubkey;
  match display_name profile ≫= sanitize_prompt_label with
  | Some label => Some label
  | None => nip05_handle profile ≫= sanitize_prompt_label
  end.

Definition format_prompt_actor (pubkey : string) (profile_lookup : option PromptProfileLookup) : string :=
  match resolve_prompt_label pubkey profile_lookup with
  | Some label => label +:+ " (" +:+ pubkey +:+ ")"
  | None => pubkey
  end.

Section prompt.
Context `{NL : NostrLib, PLB : PromptLib}.

Definition channel_display (channel_id : Uuid) (info : option PromptChannelInfo) : string :=
  match info with
  | Some ci => info_name ci +:+ " (#" +:+ Uuid_to_string channel_id +:+ ")"
  | None => Uuid_to_string channel_id
  end.

(** [\nParsed: ..], when there is something to say. *)
Definition parsed_fields (thread : ThreadTags) (profile_lookup : option PromptProfileLookup) : list string :=
  match tt_parent thread with Some p => ["parent=" +:+ p] | None => [] end ++
  match tt_root thread with Some r => ["root=" +:+ r] | None => [] end ++
  match mentioned_pubkeys thread with
  | [] => []
  | pks => ["mentions=[" +:+ join_str ", " ((fun pk => format_prompt_actor pk profile_lookup) <$> pks) +:+ "]"]
  end.

Definition format_event_block (channel_id : Uuid) (info : option PromptChannelInfo) (be : BatchEvent)
    (profile_lookup : option PromptProfileLookup) : string :=
  let e := be_event be in
  let hex := to_hex (ev_pubkey e) in
  let npub := default hex (to_bech32 (ev_pubkey e)) in
  let time := default (num (ev_created_at e)) (rfc3339 (ev_created_at e)) in
  let from := match resolve_prompt_label hex profile_lookup with
              | Some label => label +:+ " (npub: " +:+ npub +:+ ", hex: " +:+ hex +:+ ")"
              | None => npub +:+ " (hex: " +:+ hex +:+ ")"
              end in
  let block := "Event ID: " +:+ to_hex (ev_id e) +:+ nl +:+ "Channel: " +:+ channel_display channel_id info +:+ nl +:+
               "Kind: " +:+ num (ev_kind e) +:+ nl +:+ "From: " +:+ from +:+ nl +:+ "Time: " +:+ time +:+ nl +:+
               "Content: " +:+ ev_content e in
  let block := match tags_to_json (ev_tags e) with Some tags => block +:+ nl +:+ "Tags: " +:+ tags | None => block end in
  match parsed_fields (parse_thread_tags e) profile_lookup with
  | [] => block
  | parts => block +:+ nl +:+ "Parsed: " +:+ join_str ", " parts
  end.

(** ** Reply anchors *)

Definition reply_instruction (event_id : string) : string :=
  nl +:+ "IMPORTANT: For ordinary replies in this turn, use `--reply-to " +:+ event_id +:+
  "` on `buzz messages send` so the conversation stays threaded. If the human explicitly asks for a channel-root, top-level, or broadcast post, send that message without `--reply-to`. If the requested destination is ambiguous, ask before sending.".

Definition append_reply_instruction (s event_id : string) : string := s +:+ reply_instruction event_id.

Definition append_new_thread_reply_instruction (s event_id : string) : string :=
  s +:+ nl +:+ "IMPORTANT: This is a new top-level message. For ordinary replies in this turn, use `--reply-to " +:+ event_id +:+
  "` on `buzz messages send` — the triggering message is the thread root. Do NOT reply into any other (older) thread. If the human explicitly asks for a channel-root, top-level, or broadcast post, send that message without `--reply-to`.".

Definition known_agent (profile_lookup : option PromptProfileLookup) (pubkey : string) : bool :=
  match profile_lookup ≫= (fun m => m !! normalize_lookup_key pubkey) with Some p => is_agent p | None => false end.

Definition turn_is_human_facing (sender_pubkey : string) (thread_tags : ThreadTags) (profile_lookup : option PromptProfileLookup) : bool :=
  if negb (known_agent profile_lookup sender_pubkey) then true
  else existsb (fun pk => negb (known_agent profile_lookup pk)) (mentioned_pubkeys thread_tags).

Definition resolve_reply_anchor (sender_pubkey : string) (thread_tags : ThreadTags) (triggering_event_id : string)
    (profile_lookup : option PromptProfileLookup) : option string :=
  if negb (turn_is_human_facing sender_pubkey thread_tags profile_lookup) then None
  else Some (default triggering_event_id (tt_root thread_tags)).

(** The parent line, when the parent is not the root. *)
Definition parent_line (thread_tags : ThreadTags) (root : string) : string :=
  match tt_parent thread_tags with
  | Some parent => if String.eqb parent root then EmptyString else nl +:+ "Parent: " +:+ parent
  | None => EmptyString
  end.

Definition with_anchor (append : string -> string -> string) (s : string) (reply_anchor : option string) : string :=
  match reply_anchor with Some event_id => append s event_id | None => s end.

Definition thread_hint : string :=
  "Thread context included below. Use `buzz messages thread --channel <UUID> --event <ID>` for full history if truncated.".

Definition format_context_hints (channel_id : Uuid) (info : option PromptChannelInfo) (thread_tags : ThreadTags)
    (is_dm has_conversation_context : bool) (reply_anchor : option string) : string :=
  let display := channel_display channel_id info in
  if is_dm then
    let is_reply := negb (is_none (tt_root thread_tags)) in
    let ctx_hint :=
      if has_conversation_context && is_reply then thread_hint
      else if has_conversation_context then
        "Conversation context included below. Use `buzz messages get --channel <UUID>` for full history if truncated."
      else if is_reply then "Use `buzz messages thread --channel <UUID> --event <ID>` to fetch the reply chain."
      else "Use `buzz messages get --channel <UUID>` for conversation context." in
    let s := "[Context]" +:+ nl +:+ "Scope: dm" +:+ nl +:+ "Channel: " +:+ display +:+ nl +:+ ctx_hint in
    match tt_root thread_tags with
    | Some root => with_anchor append_reply_instruction (s +:+ nl +:+ "Thread root: " +:+ root +:+ parent_line thread_tags root) reply_anchor
    | None => s
    end
  else
    match tt_root thread_tags with
    | Some root =>
        let ctx_hint := if has_conversation_context then thread_hint
                        else "Use `buzz messages thread --channel <UUID> --event <ID>` to fetch thread context." in
        let s := "[Context]" +:+ nl +:+ "Scope: thread" +:+ nl +:+ "Channel: " +:+ display +:+ nl +:+ "Thread root: " +:+ root +:+
                 parent_line thread_tags root +:+ nl +:+ ctx_hint in
        with_anchor append_reply_instruction s reply_anchor
    | None =>
        let s := "[Context]" +:+ nl +:+ "Scope: channel" +:+ nl +:+ "Channel: " +:+ display +:+ nl +:+
                 "Hint: Use `buzz messages get --channel <UUID>` for recent messages if needed." in
        with_anchor append_new_thread_reply_instruction s reply_anchor
    end.

(** ** Sections *)

Fixpoint number_from {A} (i : N) (l : list A) : list (N * A) :=
  match l with [] => [] | x :: l => (i, x) :: number_from (i + 1) l end.

Definition format_conversation_context (ctx : ConversationContext) (profile_lookup : option PromptProfileLookup) : string :=
  let '(label, messages, total, truncated) :=
    match ctx with
    | Thread messages total truncated => ("Thread Context", messages, total, truncated)
    | Dm messages total truncated => ("Conversation Context", messages, total, truncated)
    end in
  let trunc_label := if (truncated : bool) then ", truncated" else EmptyString in
  let s := "[" +:+ label +:+ " (" +:+ num (N.of_nat (length messages)) +:+ " of " +:+ num total +:+ " messages" +:+ trunc_label +:+ ")]" in
  foldl (fun s (x : N * ContextMessage) =>
           s +:+ nl +:+ "[" +:+ num x.1 +:+ "] " +:+ format_prompt_actor (msg_pubkey x.2) profile_lookup +:+ " (" +:+
           msg_timestamp x.2 +:+ "): " +:+ msg_content x.2) s (number_from 1 messages).

Record FormatPromptArgs := mkArgs {
  agent_core : option string;
  channel_info : option PromptChannelInfo;
  conversation_context : option ConversationContext;
  profile_lookup : option PromptProfileLookup;
  has_system_prompt_support : bool;
  base_prompt : option string;
  system_prompt : option string;
  team_instructions : option string;
  agent_canvas : option string;
}.

Definition base_section (base_prompt : string) : string := "[Base]" +:+ nl +:+ trim_end base_prompt.

Record MergeFraming := mkFraming {
  prior_header : string;
  new_header_single : string;
  new_header_multi_prefix : string;
  closing_note : string;
}.

Definition for_reason (reason : option CancelReason) : MergeFraming :=
  match reason with
  | None | Some Steer =>
      mkFraming "[What you were working on]" "[New message — arrived while you were working]"
        "[New messages — arrived while you were working"
        "Note: A new message arrived while you were working. Continue your in-progress work and incorporate the new message if it's relevant; if it's unrelated, you may briefly acknowledge it and carry on."
  | Some Interrupt =>
      mkFraming "[Previous request — interrupted before completion]" "[New request — supersedes previous]"
        "[New request — supersedes previous"
        ("Note: The previous request was interrupted. Please address the new request." +:+ nl +:+
         "If the new request is unrelated to the previous one, you may briefly acknowledge the interruption.")
  end.

Definition native_steer_framing : string * string :=
  let framing := for_reason (Some Steer) in (new_header_single framing, closing_note framing).

(** A header followed by numbered event blocks. *)
Definition event_list (header : string) (batch : FlushBatch) (args : FormatPromptArgs) (events : list BatchEvent) : string :=
  foldl (fun s (x : N * BatchEvent) =>
           s +:+ nl +:+ nl +:+ "--- Event " +:+ num x.1 +:+ " (" +:+ be_prompt_tag x.2 +:+ ") ---" +:+ nl +:+
           format_event_block (fb_channel_id batch) (channel_info args) x.2 (profile_lookup args))
        header (number_from 1 events).

(** The sections a legacy agent gets in its message. *)
Definition legacy_sections (args : FormatPromptArgs) : list string :=
  if has_system_prompt_support args then []
  else
    match base_prompt args with Some bp => [base_section bp] | None => [] end ++
    match system_prompt args with Some sp => ["[System]" +:+ nl +:+ sp] | None => [] end ++
    match team_instructions args with
    | Some team => if String.eqb (trim team) EmptyString then [] else ["[Team Instructions]" +:+ nl +:+ trim team]
    | None => []
    end ++
    match agent_core args with Some core => [core] | None => [] end ++
    match agent_canvas args with Some canvas => [canvas] | None => [] end.

Definition event_section (batch : FlushBatch) (args : FormatPromptArgs) (has_cancelled : bool) (framing : MergeFraming) : string :=
  match fb_events batch with
  | [be] =>
      if has_cancelled
      then event_list (new_header_single framing) batch args [be]
      else "[Buzz event: " +:+ be_prompt_tag be +:+ "]" +:+ nl +:+
           format_event_block (fb_channel_id batch) (channel_info args) be (profile_lookup args)
  | events =>
      let count := num (N.of_nat (length events)) in
      let header := if has_cancelled then new_header_multi_prefix framing +:+ " — " +:+ count +:+ " events]"
                    else "[Buzz events — " +:+ count +:+ " events]" in
      event_list header batch args events
  end.

Definition reply_anchor_for (batch : FlushBatch) (args : FormatPromptArgs) (last_event : BatchEvent) (is_dm : bool) : option string :=
  let thread_tags := parse_thread_tags (be_event last_event) in
  if is_dm then (if is_none (tt_root thread_tags) then None else Some (to_hex (ev_id (be_event last_event))))
  else resolve_reply_anchor (to_hex (ev_pubkey (be_event last_event))) thread_tags (to_hex (ev_id (be_event last_event))) (profile_lookup args).

Definition format_prompt (batch : FlushBatch) (args : FormatPromptArgs) : list string :=
  match last (fb_events batch) with
  | None => []
  | Some last_event =>
      let thread_tags := parse_thread_tags (be_event last_event) in
      let is_dm := match channel_info args with Some ci => String.eqb (channel_type ci) "dm" | None => false end in
      let context := format_context_hints (fb_channel_id batch) (channel_info args) thread_tags is_dm
                       (negb (is_none (conversation_context args))) (reply_anchor_for batch args last_event is_dm) in
      let has_cancelled := negb (bool_decide (fb_cancelled_events batch = [])) in
      let framing := for_reason (fb_cancel_reason batch) in
      legacy_sections args ++ [context] ++
      match conversation_context args with Some ctx => [format_conversation_context ctx (profile_lookup args)] | None => [] end ++
      (if has_cancelled then [event_list (prior_header framing) batch args (fb_cancelled_events batch)] else []) ++
      [event_section batch args has_cancelled framing] ++
      (if has_cancelled then [closing_note framing] else [])
  end.
End prompt.
