(* ===== verification/PromptTheory.v ===== *)
(** * What prompts hold

    Mentions in front of a slash command are skipped, and the loop that skips
    them ends; the thread and mentions a builder writes into tags are those the
    prompt reader finds; a prompt shows every event of its batch, in order. *)

From S2P Require Import Prelude Text Nostr Demo Kinds EventQueue OwnerAttestation GitPerms Sdk SdkTheory Prompt.

(** ** Suffixes *)

Definition tail_of (r s : string) : Prop := exists p, s = p +:+ r.

#[export] Instance tail_of_preorder : PreOrder tail_of.
Proof.
  split; [intros s; by exists EmptyString|]. intros x y z [p ->] [q ->]. exists (q +:+ p). by rewrite str_app_assoc.
Qed.

Lemma tail_of_cons c r s : tail_of r s -> tail_of r (String c s).
Proof. intros [p ->]. by exists (String c p). Qed.

Lemma length_str_app a b : String.length (a +:+ b) = String.length a + String.length b.
Proof. induction a as [|c a IH]; [done|]. rewrite str_app_cons. cbn [String.length]. by rewrite IH. Qed.

Lemma tail_of_length r s : tail_of r s -> String.length r <= String.length s.
Proof. intros [p ->]. rewrite length_str_app. lia. Qed.

Create HintDb tails.
#[export] Hint Resolve tail_of_cons : tails.
#[export] Hint Extern 0 (tail_of ?s ?s) => reflexivity : tails.

Lemma trim_start_tail s : tail_of (trim_start s) s.
Proof.
  remember (String.length s) as n eqn:Hn. revert s Hn. induction (lt_wf n) as [n _ IH]. intros s ->.
  destruct s as [|a s1]; [reflexivity|]. cbn [trim_start].
  destruct (_ || _); [apply tail_of_cons; eapply IH; [|reflexivity]; cbn; lia|].
  destruct s1 as [|b s2]; [reflexivity|].
  destruct (_ && _); [do 2 apply tail_of_cons; eapply IH; [|reflexivity]; cbn; lia|].
  destruct s2 as [|c s3]; [reflexivity|].
  destruct (_ || _); [do 3 apply tail_of_cons; eapply IH; [|reflexivity]; cbn; lia|reflexivity].
Qed.

Lemma skip_token_tail s : tail_of (skip_token s) s.
Proof.
  induction s as [|c s IH]; [by exists EmptyString|]. cbn [skip_token]. destruct (starts_blank _); [reflexivity|]. by apply tail_of_cons.
Qed.

Lemma skip_word_tail s : tail_of (skip_word s) s.
Proof. induction s as [|c s IH]; [reflexivity|]. cbn. destruct (mention_char c); [by apply tail_of_cons|reflexivity]. Qed.

Lemma substring_app_l p s : String.substring 0 (String.length p) (p +:+ s) = p.
Proof. induction p as [|c p IH]; [by destruct s|]. rewrite str_app_cons. cbn. by rewrite IH. Qed.

Lemma substring_all s : String.substring 0 (String.length s) s = s.
Proof. induction s as [|c s IH]; [done|]. cbn. by rewrite IH. Qed.

Lemma substring_app_r p s : String.substring (String.length p) (String.length s) (p +:+ s) = s.
Proof. induction p as [|c p IH]; [apply substring_all|]. rewrite str_app_cons. exact IH. Qed.

Lemma substring_tail n s : (n <= String.length s)%nat -> tail_of (String.substring n (String.length s - n) s) s.
Proof.
  revert s. induction n as [|n IH]; intros s Hn.
  - rewrite Nat.sub_0_r, substring_all. reflexivity.
  - destruct s as [|c s]; [cbn in Hn; lia|]. apply tail_of_cons, IH. cbn in Hn. lia.
Qed.

(** Not white space as a first byte. *)
Definition visible (c : ascii) : bool := (Lines.byte_in 33 126 c).

Lemma trim_start_visible c s : visible c = true -> trim_start (String c s) = String c s.
Proof.
  intros Hc. assert (Lines.byte_in 9 13 c || Lines.byte_is 32 c = false /\ forall n, (126 < n)%N -> Lines.byte_is n c = false) as [H1 H2].
  { unfold visible, Lines.byte_in, Lines.byte_is in *. apply andb_true_iff in Hc as [?%N.leb_le ?%N.leb_le]. split.
    - apply orb_false_iff. rewrite andb_false_iff, N.leb_gt, N.leb_gt, N.eqb_neq. lia.
    - intros n Hn. apply N.eqb_neq. lia. }
  cbn [trim_start]. rewrite H1. destruct s as [|b s]; [done|]. rewrite (H2 194%N) by lia. cbn [andb].
  destruct s as [|d s]; [done|]. by rewrite !H2 by lia.
Qed.

(** ** Slash commands *)

Lemma skip_name_tail after n r : skip_name after n = Some r -> tail_of r after.
Proof.
  unfold skip_name. destruct (Nat.ltb_spec (String.length after) (String.length n)); [done|].
  destruct (negb _); [done|]. destruct (_ || _); [|done]. intros [= <-]. by apply substring_tail.
Qed.

Lemma find_map_some {A B} (f : A -> option B) l y : find_map f l = Some y -> exists x, x ∈ l /\ f x = Some y.
Proof.
  induction l as [|x l IH]; [done|]. cbn. destruct (f x) eqn:E.
  - intros [= <-]. exists x. split; [left|done].
  - intros (z & Hz & E')%IH. exists z. split; [by right|done].
Qed.

(** A mention is never empty. *)
Lemma skip_mention_tail names s r :
  skip_mention names s = Some (Some r) -> tail_of r s /\ String.length r < String.length s.
Proof.
  unfold skip_mention. destruct (starts_with s "nostr:npub1" || starts_with s "nostr:nprofile1") eqn:Hs.
  - intros [= <-]. destruct s as [|c s]; [done|]. assert (c = "n"%char) as ->.
    { unfold starts_with in Hs. cbn [String.prefix] in Hs. destruct (ascii_dec "n" c) as [<-|]; [done|discriminate Hs]. }
    cbn [skip_token]. unfold starts_blank. rewrite trim_start_visible, String.eqb_refl by done. cbn [negb].
    assert (tail_of (trim_start (skip_token s)) s) as Ht by (etransitivity; [apply trim_start_tail|apply skip_token_tail]).
    split; [by apply tail_of_cons|]. apply tail_of_length in Ht. cbn. lia.
  - destruct (strip_prefix "@" s) as [after|] eqn:Ha; [|done]. apply strip_prefix_some in Ha as ->. intros [= H].
    assert (tail_of r after) as Ht.
    { destruct (find_map (skip_name after) names) as [x|] eqn:E.
      - injection H as <-. apply find_map_some in E as (n & _ & E%skip_name_tail). etransitivity; [apply trim_start_tail|done].
      - destruct (String.eqb _ _); [done|]. injection H as <-. etransitivity; [apply trim_start_tail|apply skip_word_tail]. }
    split; [by apply tail_of_cons|]. apply tail_of_length in Ht. rewrite length_str_app. cbn [String.length]. lia.
Qed.

(** Fuel above the length is enough, and more changes nothing. *)
Lemma skip_mentions_fuel names fuel s :
  String.length s < fuel ->
  skip_mentions fuel names s = skip_mentions (S (String.length s)) names s /\ is_Some (skip_mentions fuel names s) /\
  forall r, skip_mentions fuel names s = Some (Some r) -> tail_of r s.
Proof.
  revert s. induction fuel as [fuel IH] using lt_wf_ind. intros s Hs. destruct fuel as [|fuel]; [lia|].
  cbn [skip_mentions]. destruct (skip_mention names s) as [[r|]|] eqn:E.
  - apply skip_mention_tail in E as [Ht Hl]. destruct (IH fuel ltac:(lia) r ltac:(lia)) as (E1 & E2 & E3).
    destruct (decide (fuel = String.length s)) as [->|Hne].
    + split_and!; [done..|]. intros q Hq. etransitivity; [by apply E3|done].
    + destruct (IH (String.length s) ltac:(lia) r ltac:(lia)) as (E4 & _ & _). split_and!; [congruence|done|].
      intros q Hq. etransitivity; [by apply E3|done].
  - split_and!; [done|by eexists|done].
  - split_and!; [done|by eexists|]. intros r [= <-]. reflexivity.
Qed.

(** The texts after the mentions, with fuel for any text. *)
Definition after_mentions (names : list string) (s : string) : option string :=
  default None (skip_mentions (S (String.length s)) names s).

Lemma extract_after content names :
  extract_slash_command content names =
  match after_mentions (known_names names) (trim_start content) with
  | Some rest => if is_command rest then Some rest else None
  | None => None
  end.
Proof.
  unfold extract_slash_command, after_mentions. pose proof (tail_of_length _ _ (trim_start_tail content)) as Hl.
  destruct (skip_mentions_fuel (known_names names) (S (String.length content)) (trim_start content)) as (-> & [o E] & _); [lia|].
  destruct (skip_mentions_fuel (known_names names) (S (String.length (trim_start content))) (trim_start content)) as (_ & [o' E'] & _); [lia|].
  rewrite E'. by destruct o'.
Qed.

Lemma after_mentions_step names s r : skip_mention names s = Some (Some r) -> after_mentions names s = after_mentions names r.
Proof.
  intros H. unfold after_mentions. cbn [skip_mentions]. rewrite H. apply skip_mention_tail in H as [_ Hl].
  by destruct (skip_mentions_fuel names (String.length s) r ltac:(lia)) as (-> & _).
Qed.

Lemma command_not_mention names s : is_command s = true -> trim_start s = s /\ skip_mention names s = None.
Proof.
  destruct s as [|c s]; [done|]. intros H. assert (c = "/"%char) as -> by (destruct c as [[] [] [] [] [] [] [] []]; first [reflexivity|discriminate H]).
  split; [by apply trim_start_visible|done].
Qed.

Lemma extract_sound content names r :
  extract_slash_command content names = Some r -> tail_of r content /\ is_command r = true /\ extract_slash_command r names = Some r.
Proof.
  rewrite extract_after. unfold after_mentions.
  destruct (skip_mentions_fuel (known_names names) (S (String.length (trim_start content))) (trim_start content)) as (_ & [o E] & Ht); [lia|].
  rewrite E. cbn [from_option id]. destruct o as [rest|]; [|done]. destruct (is_command rest) eqn:Hc; [|done]. intros [= <-].
  split_and!; [etransitivity; [by apply Ht|apply trim_start_tail]|done|].
  destruct (command_not_mention (known_names names) rest Hc) as [Ht' Hm]. rewrite extract_after, Ht'. unfold after_mentions.
  cbn [skip_mentions]. rewrite Hm. cbn [from_option id]. by rewrite Hc.
Qed.

(** *** Mentions in front of a text *)

Lemma eq_ignore_ascii_case_refl s : eq_ignore_ascii_case s s = true.
Proof. unfold eq_ignore_ascii_case. apply String.eqb_refl. Qed.

Lemma skip_name_self n text : skip_name (n +:+ String " " text) n = Some (String " " text).
Proof.
  unfold skip_name. rewrite length_str_app. destruct (Nat.ltb_spec (String.length n + String.length (String " " text)) (String.length n)); [lia|].
  rewrite substring_app_l, eq_ignore_ascii_case_refl. cbn [negb].
  replace (String.length n + String.length (String " " text) - String.length n) with (String.length (String " " text)) by lia.
  rewrite substring_app_r. cbn [String.eqb orb]. assert (starts_blank (String " " text) = true) as ->; [|done].
  unfold starts_blank. cbn [trim_start]. change (Lines.byte_in 9 13 " " || Lines.byte_is 32 " ") with true. cbn [negb].
  destruct (String.eqb_spec (trim_start text) (String " " text)) as [E|]; [|done].
  pose proof (tail_of_length _ _ (trim_start_tail text)) as Hl. rewrite E in Hl. cbn in Hl. lia.
Qed.

(** What a name leaves depends on its length alone. *)
Lemma skip_name_same after n m r q :
  String.length n = String.length m -> skip_name after n = Some r -> skip_name after m = Some q -> r = q.
Proof.
  unfold skip_name. intros ->. destruct (_ <? _)%nat; [done|]. destruct (negb _); [done|]. destruct (_ || _); [|done].
  intros [= <-]. destruct (negb _); [done|]. by intros [= <-].
Qed.

Lemma known_names_sorted names : StronglySorted (fun a b => longer_first a b = true) (known_names names).
Proof.
  apply sort_by_sorted; unfold longer_first.
  - intros x y. destruct (Nat.leb_spec (String.length y) (String.length x)); [tauto|]. right. apply Nat.leb_le. lia.
  - intros x y z ?%Nat.leb_le ?%Nat.leb_le. apply Nat.leb_le. lia.
Qed.

Lemma longest_name_wins names after n r :
  n ∈ names -> String.eqb (trim n) EmptyString = false -> skip_name after n = Some r ->
  (forall m, m ∈ names -> String.length n < String.length m -> skip_name after m = None) ->
  find_map (skip_name after) (known_names names) = Some r.
Proof.
  intros Hn Htrim Hr Hlong. set (l := known_names names).
  assert (n ∈ l) as Hin by (apply elem_of_sort_by; rewrite elem_of_filter_b; by rewrite Htrim).
  assert (forall m, m ∈ l -> m ∈ names) as Hsub.
  { intros m. unfold l, known_names. rewrite elem_of_sort_by, elem_of_filter_b. tauto. }
  pose proof (known_names_sorted names) as Hsort. fold l in Hsort.
  clearbody l. induction Hsort as [|m l Hs IH Hm]; [by apply not_elem_of_nil in Hin|]. cbn [find_map].
  destruct (skip_name after m) as [q|] eqn:Eq.
  - f_equal. apply elem_of_cons in Hin as [->|Hin]; [congruence|].
    rewrite List.Forall_forall in Hm. specialize (Hm n). rewrite <-list_elem_of_In in Hm. apply Hm, Nat.leb_le in Hin.
    destruct (decide (String.length n = String.length m)) as [E|E].
    + symmetry. by eapply skip_name_same.
    + rewrite (Hlong m) in Eq; [done|apply Hsub; left|lia].
  - apply IH; [|intros k Hk; apply Hsub; by right]. apply elem_of_cons in Hin as [->|Hin]; [congruence|done].
Qed.

Lemma skip_word_self w text : str_forallb mention_char w = true -> skip_word (w +:+ String " " text) = String " " text.
Proof.
  induction w as [|c w IH]; [done|]. rewrite str_app_cons. cbn [str_forallb skip_word].
  intros [-> Hw]%andb_true_iff. by apply IH.
Qed.

(** What stands for a mention of this agent in a text. *)
Inductive mention_of (names : list string) (text : string) : string -> Prop :=
| mention_name n :
    n ∈ names -> String.eqb (trim n) EmptyString = false ->
    (forall m, m ∈ names -> String.length n < String.length m -> skip_name (n +:+ String " " text) m = None) ->
    mention_of names text (String "@" n)
| mention_word w :
    w <> EmptyString -> str_forallb mention_char w = true ->
    (forall m, m ∈ names -> skip_name (w +:+ String " " text) m = None) ->
    mention_of names text (String "@" w).

Lemma find_map_none {A B} (f : A -> option B) l : (forall x, x ∈ l -> f x = None) -> find_map f l = None.
Proof.
  induction l as [|x l IH]; [done|]. intros H. cbn. rewrite (H x) by left. apply IH. intros y Hy. apply H. by right.
Qed.

Lemma mention_skipped names text m :
  mention_of names text m ->
  skip_mention (known_names names) (m +:+ String " " text) = Some (Some (trim_start text)).
Proof.
  intros Hm. assert (exists w, m = String "@" w) as [w ->] by (destruct Hm; by eexists). unfold skip_mention.
  change (strip_prefix "@" (String "@" w +:+ String " " text)) with (Some (w +:+ String " " text)).
  change (starts_with (String "@" w +:+ String " " text) "nostr:npub1" || starts_with (String "@" w +:+ String " " text) "nostr:nprofile1") with false.
  cbv iota. inversion Hm as [n Hn Ht Hlong|w' Hne Hw Hnone]; subst.
  - erewrite longest_name_wins; [|done..|apply skip_name_self|done]. done.
  - rewrite find_map_none.
    + rewrite skip_word_self by done. destruct (String.eqb_spec (String " " text) (w +:+ String " " text)) as [E|]; [|done].
      destruct w as [|c w]; [done|]. apply (f_equal String.length) in E. rewrite length_str_app in E. cbn in E. lia.
    + intros x. unfold known_names. rewrite elem_of_sort_by, elem_of_filter_b. intros [Hx _]. by apply Hnone.
Qed.

Lemma mention_transparent names text m :
  mention_of names text m -> extract_slash_command (m +:+ String " " text) names = extract_slash_command text names.
Proof.
  intros Hm. rewrite !extract_after. assert (trim_start (m +:+ String " " text) = m +:+ String " " text) as ->.
  { destruct Hm; rewrite str_app_cons; by apply trim_start_visible. }
  by rewrite (after_mentions_step _ _ _ (mention_skipped _ _ _ Hm)).
Qed.

(** ** Threads *)

(** Tags the reader of threads passes over. *)
Definition neutral (t : Tag) : Prop := head t <> Some "e" /\ head t <> Some "p".

Lemma thread_step_neutral acc t : neutral t -> thread_step acc t = acc.
Proof.
  destruct acc as [[root reply] ms], t as [|name rest]; [done|]. intros [He Hp]. cbn [thread_step].
  destruct (String.eqb_spec name "e") as [->|]; [done|]. by destruct (String.eqb_spec name "p") as [->|].
Qed.

Lemma thread_steps_neutral acc tags : Forall neutral tags -> foldl thread_step acc tags = acc.
Proof. intros H. revert acc. induction H as [|t tags Ht _ IH]; intros acc; [done|]. cbn [foldl]. by rewrite thread_step_neutral. Qed.

Lemma thread_steps_mentions root reply ms new :
  Forall (fun t : Tag => exists k, t = ["p"; k]) new ->
  foldl thread_step (root, reply, ms) new = (root, reply, ms ++ omap (fun t : Tag => t !! 1) new).
Proof.
  intros H. revert ms. induction H as [|t new (k & ->) _ IH]; intros ms; [by rewrite app_nil_r|].
  cbn [foldl]. change (thread_step (root, reply, ms) ["p"; k]) with (root, reply, ms ++ [k]). rewrite IH. cbn. by rewrite <-app_assoc.
Qed.

Section threads.
Context `{NL : NostrLib, SK : SdkLib, SKL : !SdkLaws NL SK}.

Lemma imeta_tags_all media tags t : imeta_tags media tags = Ok t -> Forall (.≠ []) media -> t = tags ++ media.
Proof.
  revert tags. induction media as [|m media IH]; intros tags; cbn [imeta_tags]; [intros [= <-] _; by rewrite app_nil_r|].
  intros H [Hm Hr]%Forall_cons. ok_facts. destruct m as [|p ps]; [done|]. apply push_ok in E as ->.
  apply IH in H as ->; [|done]. by rewrite <-app_assoc.
Qed.

(** What the tags after the channel read as. *)
Definition reads (tags : list Tag) (tr : option ThreadRef) (mentions : list string) : Prop :=
  forall e, ev_tags e = tags ->
  parse_thread_tags e = mkThreadTags (to_hex ∘ root_event_id <$> tr) (to_hex ∘ parent_event_id <$> tr) (mentioned_pubkeys (parse_thread_tags e)) /\
  NoDup (mentioned_pubkeys (parse_thread_tags e)) /\
  forall k, k ∈ mentioned_pubkeys (parse_thread_tags e) <-> k ∈ to_ascii_lowercase <$> mentions.

(** The variables of the reader after the tags of a thread. *)
Lemma thread_tags_read c tr t :
  thread_tags_opt tr [h_tag c] = Ok t ->
  exists root reply, foldl thread_step (None, None, []) t = (root, reply, []) /\
  match root, reply with
  | Some r, _ => to_hex ∘ root_event_id <$> tr = Some r /\ to_hex ∘ parent_event_id <$> tr = reply /\ is_Some reply
  | None, reply => to_hex ∘ root_event_id <$> tr = reply /\ to_hex ∘ parent_event_id <$> tr = reply
  end.
Proof.
  destruct tr as [[root parent]|]; cbn [thread_tags_opt].
  - unfold thread_tags. cbn [root_event_id parent_event_id]. destruct (String.eqb_spec (to_hex root) (to_hex parent)) as [E|E].
    + intros ->%push_ok. eexists None, _. split; [reflexivity|]. split; [reflexivity|]. by apply (f_equal Some).
    + intros H. ok_facts. apply push_ok in E0 as ->. apply push_ok in H as ->. eexists (Some _), _. split; [reflexivity|].
      split_and!; [done..|by eexists].
  - intros [= <-]. by exists None, None.
Qed.

Lemma built_thread_reads c tr ms br media t1 t2 t3 t4 :
  thread_tags_opt tr [h_tag c] = Ok t1 -> mention_tags ms t1 = Ok t2 -> push_if t2 br ["broadcast"; "1"] = Ok t3 ->
  imeta_tags media t3 = Ok t4 -> Forall (.≠ []) media -> Forall neutral media -> reads t4 tr ms.
Proof.
  intros H1 H2 H3 H4 Hne Hneutral e He. apply imeta_tags_all in H4; [|done]. unfold mention_tags in H2.
  destruct (_ <? _)%nat; [done|]. apply mention_loop_fresh in H2 as (new & -> & (_ & Hnd & Hk) & Hp).
  destruct (thread_tags_read _ _ _ H1) as (root & reply & Hfold & Hroot).
  assert (exists rest, t4 = t1 ++ new ++ rest /\ Forall neutral rest) as (rest & Ht4 & Hrest).
  { unfold push_if in H3. destruct br.
    - apply push_ok in H3 as ->. exists (["broadcast"; "1"] :: media). subst t4. split; [by rewrite <-!app_assoc|].
      by constructor.
    - injection H3 as <-. exists media. subst t4. by rewrite <-!app_assoc. }
  assert (foldl thread_step (None, None, []) t4 = (root, reply, omap (fun t : Tag => t !! 1) new)) as Hall.
  { rewrite Ht4. by rewrite !foldl_app, Hfold, thread_steps_mentions, thread_steps_neutral. }
  unfold parse_thread_tags. rewrite He, Hall. destruct root as [r|].
  - destruct Hroot as (-> & Hparent & [p ->]). rewrite Hparent. split_and!; [done..|]. intros k. rewrite Hk. set_solver.
  - destruct Hroot as [-> ->]. destruct reply; (split_and!; [done..|]; intros k; rewrite Hk; set_solver).
Qed.

(** The anchor of a reply to a read event. *)
Lemma anchor_root e tr sender trigger lookup root :
  tt_root (parse_thread_tags e) = to_hex ∘ root_event_id <$> tr ->
  turn_is_human_facing sender (parse_thread_tags e) lookup = true -> tr = Some root ->
  resolve_reply_anchor sender (parse_thread_tags e) trigger lookup = Some (to_hex (root_event_id root)).
Proof. intros H Hh ->. unfold resolve_reply_anchor. by rewrite Hh, H. Qed.
(** What a message or a forum comment reads as. *)
Lemma built_message_reads c x tr ms media b :
  (exists br, build_message c x tr ms br media = Ok b) \/ (exists ref, tr = Some ref /\ build_forum_comment c x ref ms media = Ok b) ->
  Forall (fun t => t <> [] /\ neutral t) media -> reads (b_tags b) tr ms.
Proof.
  intros Hb Hmedia. assert (Forall (.≠ []) media /\ Forall neutral media) as [Hne Hneutral] by (by rewrite <-Forall_and).
  destruct Hb as [(br & H)|(ref & -> & H)]; [unfold build_message, event in H|unfold build_forum_comment, event in H];
    ok_facts; injection H as <-; cbn [b_tags]; apply push_h in E0 as ->.
  - by eapply built_thread_reads.
  - by eapply (built_thread_reads c (Some ref) ms false media).
Qed.
End threads.

(** ** Prompts *)

(** The texts occur in this order, apart from each other. *)
Fixpoint shows (s : string) (texts : list string) : Prop :=
  match texts with
  | [] => True
  | t :: texts => exists before after, s = before +:+ t +:+ after /\ shows after texts
  end.

Lemma shows_skip p s texts : shows s texts -> shows (p +:+ s) texts.
Proof.
  destruct texts as [|t texts]; [done|]. intros (b & a & -> & H). exists (p +:+ b), a. split; [by rewrite str_app_assoc|done].
Qed.

Lemma shows_here t s texts : shows s texts -> shows (t +:+ s) (t :: texts).
Proof. intros H. by exists EmptyString, s. Qed.

Lemma shows_one t s : shows (t +:+ s) [t].
Proof. by apply shows_here. Qed.

Lemma shows_last t : shows t [t].
Proof. rewrite <-(str_app_nil_r t) at 1. apply shows_one. Qed.

Create HintDb shows.
#[export] Hint Resolve shows_last shows_one shows_here shows_skip : shows.

(** [reading] drops pieces of a text until what is shown comes. *)
Ltac reading := rewrite ?str_app_assoc; repeat first [apply shows_last | apply shows_one | apply shows_skip].

Lemma shows_each {A} (g block : A -> string) h l :
  (forall x, exists p, g x = p +:+ block x) -> shows (foldl (fun s x => s +:+ g x) h l) (block <$> l).
Proof.
  intros Hg. assert (foldl (fun s x => s +:+ g x) h l = h +:+ concat_chars (g <$> l)) as ->.
  { revert h. induction l as [|x l IH]; intros h; cbn; [by rewrite str_app_nil_r|]. by rewrite IH, str_app_assoc. }
  apply shows_skip. induction l as [|x l IH]; [done|]. rewrite fmap_cons. cbn [concat_chars foldr]. destruct (Hg x) as [p ->].
  rewrite str_app_assoc. apply shows_skip, shows_here, IH.
Qed.

Lemma fmap_number_from {A B} (f : A -> B) i l : f <$> l = (f ∘ snd) <$> number_from i l.
Proof. revert i. induction l as [|x l IH]; intros i; [done|]. cbn. f_equal. apply IH. Qed.

Section prompts.
Context `{NL : NostrLib, PLB : PromptLib}.

(** The block of an event in a prompt. *)
Definition block_of (batch : FlushBatch) (args : FormatPromptArgs) (be : BatchEvent) : string :=
  format_event_block (fb_channel_id batch) (channel_info args) be (profile_lookup args).

Lemma event_list_shows header batch args events : shows (event_list header batch args events) (block_of batch args <$> events).
Proof.
  unfold event_list. rewrite (fmap_number_from _ 1).
  apply (shows_each (fun x : N * BatchEvent => nl +:+ nl +:+ "--- Event " +:+ num x.1 +:+ " (" +:+ be_prompt_tag x.2 +:+ ") ---" +:+ nl +:+
           format_event_block (fb_channel_id batch) (channel_info args) x.2 (profile_lookup args)) (block_of batch args ∘ snd)).
  intros x. exists (nl +:+ nl +:+ "--- Event " +:+ num x.1 +:+ " (" +:+ be_prompt_tag x.2 +:+ ") ---" +:+ nl). by rewrite !str_app_assoc.
Qed.

Lemma event_section_shows batch args has_cancelled framing :
  shows (event_section batch args has_cancelled framing) (block_of batch args <$> fb_events batch).
Proof.
  unfold event_section. destruct (fb_events batch) as [|be [|be' events]]; [done| |apply event_list_shows].
  destruct has_cancelled; [apply event_list_shows|]. cbn [fmap list_fmap]. unfold block_of. reading.
Qed.

Lemma conversation_shows ctx lookup :
  shows (format_conversation_context ctx lookup)
    (msg_content <$> match ctx with Thread ms _ _ => ms | Dm ms _ _ => ms end).
Proof.
  unfold format_conversation_context. destruct ctx as [ms total tr|ms total tr].
  all: rewrite (fmap_number_from _ 1).
  all: apply (shows_each (fun x : N * ContextMessage => nl +:+ "[" +:+ num x.1 +:+ "] " +:+ format_prompt_actor (msg_pubkey x.2) lookup +:+ " (" +:+
           msg_timestamp x.2 +:+ "): " +:+ msg_content x.2) (msg_content ∘ snd)).
  all: intros x; exists (nl +:+ "[" +:+ num x.1 +:+ "] " +:+ format_prompt_actor (msg_pubkey x.2) lookup +:+ " (" +:+ msg_timestamp x.2 +:+ "): ").
  all: by rewrite !str_app_assoc.
Qed.

(** The command line option for a reply to an event. *)
Definition reply_to (id : string) : string := "`--reply-to " +:+ id +:+ "`".

Lemma reply_instruction_shows s id : shows (append_reply_instruction s id) [reply_to id].
Proof.
  unfold append_reply_instruction, reply_instruction, reply_to. apply shows_skip, shows_skip.
  exists "IMPORTANT: For ordinary replies in this turn, use ". eexists. split; [|done]. rewrite !str_app_assoc. reflexivity.
Qed.

Lemma new_thread_instruction_shows s id : shows (append_new_thread_reply_instruction s id) [reply_to id].
Proof.
  unfold append_new_thread_reply_instruction, reply_to. apply shows_skip, shows_skip.
  exists "IMPORTANT: This is a new top-level message. For ordinary replies in this turn, use ". eexists.
  split; [|done]. rewrite !str_app_assoc. reflexivity.
Qed.

Lemma context_shows_anchor channel info tags is_dm has_context id :
  (is_dm = true -> tt_root tags <> None) ->
  shows (format_context_hints channel info tags is_dm has_context (Some id)) [reply_to id].
Proof.
  intros Hdm. unfold format_context_hints. destruct is_dm.
  - destruct (tt_root tags); [apply reply_instruction_shows|by destruct (Hdm eq_refl)].
  - destruct (tt_root tags); [apply reply_instruction_shows|apply new_thread_instruction_shows].
Qed.

Lemma context_shows_channel channel info tags is_dm has_context anchor :
  shows (format_context_hints channel info tags is_dm has_context anchor) [channel_display channel info].
Proof.
  unfold format_context_hints, with_anchor, append_reply_instruction, append_new_thread_reply_instruction.
  destruct is_dm, (tt_root tags), anchor; reading.
Qed.

Definition is_dm_channel (args : FormatPromptArgs) : bool :=
  match channel_info args with Some ci => String.eqb (channel_type ci) "dm" | None => false end.

Lemma prompt_sections batch args last_event :
  last (fb_events batch) = Some last_event ->
  exists context current,
    let framing := for_reason (fb_cancel_reason batch) in
    format_prompt batch args =
      legacy_sections args ++ [context] ++
      match conversation_context args with Some ctx => [format_conversation_context ctx (profile_lookup args)] | None => [] end ++
      match fb_cancelled_events batch with [] => [] | cs => [event_list (prior_header framing) batch args cs] end ++
      [current] ++
      match fb_cancelled_events batch with [] => [] | _ => [closing_note framing] end /\
    shows current (block_of batch args <$> fb_events batch) /\
    shows context [channel_display (fb_channel_id batch) (channel_info args)] /\
    forall id, reply_anchor_for batch args last_event (is_dm_channel args) = Some id -> shows context [reply_to id].
Proof.
  intros Hlast. unfold format_prompt. rewrite Hlast. eexists _, (event_section batch args (negb (bool_decide (fb_cancelled_events batch = []))) _). cbv zeta. split.
  { destruct (fb_cancelled_events batch); reflexivity. }
  split; [apply event_section_shows|]. split; [apply context_shows_channel|].
  intros id Hid. fold (is_dm_channel args). rewrite Hid. apply context_shows_anchor. intros Hdm. rewrite Hdm in Hid.
  unfold reply_anchor_for in Hid. by destruct (tt_root _).
Qed.
End prompts.

(** ** Claims *)

Section claims.
Context `{NL : NostrLib, SK : SdkLib, PLB : PromptLib, SKL : !SdkLaws NL SK}.


(** A prompt is complete.  A batch gives a prompt exactly when it has an
    event; the prompt then names the channel, shows every message of the
    conversation it was given, every cancelled event in a section of its own
    before the new events, and every new event in one section, each in the
    order of the batch; sections for agents without a system prompt come first
    and a note on the interruption last; and the reply anchor, when there is
    one, is spelled out. *)
Theorem prompt_complete (batch : FlushBatch) (args : FormatPromptArgs) :
  (format_prompt batch args = [] <-> fb_events batch = []) /\
  forall last_event, last (fb_events batch) = Some last_event ->
  exists context history prior current note,
    format_prompt batch args = legacy_sections args ++ [context] ++ history ++ prior ++ [current] ++ note /\
    shows context [channel_display (fb_channel_id batch) (channel_info args)] /\
    (forall id, reply_anchor_for batch args last_event (is_dm_channel args) = Some id -> shows context [reply_to id]) /\
    (forall ms total tr, conversation_context args = Some (Thread ms total tr) \/ conversation_context args = Some (Dm ms total tr) ->
       exists h, history = [h] /\ shows h (msg_content <$> ms)) /\
    shows current (block_of batch args <$> fb_events batch) /\
    match fb_cancelled_events batch with
    | [] => prior = [] /\ note = []
    | cancelled => exists p n, prior = [p] /\ shows p (block_of batch args <$> cancelled) /\ note = [n]
    end.
Proof.
  split.
  - unfold format_prompt. destruct (last (fb_events batch)) as [be|] eqn:E.
    + split; intros H; [|by rewrite H in E]. by apply app_eq_nil in H as [_ [=]].
    + split; [|done]. intros _. by apply last_None in E.
  - intros last_event H. destruct (prompt_sections batch args last_event H) as (context & current & Hp & H1 & H2 & H3).
    eexists context, _, _, current, _. split; [exact Hp|]. split_and!; [done|done| |done|].
    + intros ms total tr [-> | ->]; (eexists; split; [reflexivity|]).
      * apply (conversation_shows (Thread ms total tr)).
      * apply (conversation_shows (Dm ms total tr)).
    + destruct (fb_cancelled_events batch) eqn:Ec; [done|]. eexists _, _. split; [done|]. split; [apply event_list_shows|done].
Qed.
End claims.

(** Slash commands.  The text handed to an agent as a command is a suffix
    of the message that begins with a slash and a letter or digit, and taking
    the command of a command changes nothing; a mention in front, by the
    longest known name that fits or by a plain word, does not change the
    command; the scan never runs out of fuel; and only a batch of one event
    with nothing cancelled passes a command through. *)
Theorem slash_commands (names : list string) (content r : string) (batch : FlushBatch) :
  (extract_slash_command content names = Some r ->
     tail_of r content /\ is_command r = true /\ extract_slash_command r names = Some r) /\
  (forall m, mention_of names content m -> extract_slash_command (m +:+ String " " content) names = extract_slash_command content names) /\
  is_Some (skip_mentions (S (String.length content)) (known_names names) (trim_start content)) /\
  (slash_command_for_batch batch names = Some r <->
   exists be, fb_events batch = [be] /\ fb_cancelled_events batch = [] /\ extract_slash_command (ev_content (be_event be)) names = Some r).
Proof.
  split_and!.
  - apply extract_sound.
  - apply mention_transparent.
  - pose proof (tail_of_length _ _ (trim_start_tail content)) as Hl.
    by destruct (skip_mentions_fuel (known_names names) (S (String.length content)) (trim_start content)) as (_ & ? & _); [lia|].
  - unfold slash_command_for_batch. destruct (fb_events batch) as [|be [|be' es]], (fb_cancelled_events batch) as [|c cs].
    all: split; [try done|intros (be0 & [=] & [=] & Hx); by subst].
    intros Hx. by exists be.
Qed.

(** ** An instance *)

#[export] Instance demo_prompt : PromptLib := {|
  to_bech32 pk := Some ("npub1" +:+ pk);
  rfc3339 _ := None;
  tags_to_json tags := Some (join_str "," (join_str " " <$> tags));
|}.

Definition demo_thread_media : list Tag := [["imeta"; "url https://x"]].

Definition demo_reply : EventBuilder :=
  match build_message 5%N "@Eva /goal ship it" (Some (mkThread "r" "p")) [demo_hex64; demo_key_lower] false demo_thread_media with
  | Ok b => b
  | Err _ => mkBuilder 0 EmptyString [] false
  end.

Definition demo_reply_event : Event := mkEvent "i" "k" 0 9 (b_tags demo_reply) (b_content demo_reply) "sig".

Definition demo_batch_event : BatchEvent := {| be_event := demo_reply_event; be_prompt_tag := "mention"; be_received_at := 0 |}.

Definition demo_flush : FlushBatch := mkBatch 5%N [demo_batch_event] [demo_batch_event] (Some Steer).

Definition demo_args : FormatPromptArgs :=
  mkArgs None (Some (mkInfo "general" "stream")) (Some (Thread [mkContext "k" "t" "hi"] 1 false)) None true None None None None.


Lemma prompt_complete_witness :
  exists context history prior current note,
    format_prompt demo_flush demo_args = [context; history; prior; current; note] /\
    shows current [block_of demo_flush demo_args demo_batch_event] /\ shows prior [block_of demo_flush demo_args demo_batch_event] /\
    shows history ["hi"] /\ shows context [reply_to "r"].
Proof.
  destruct (prompt_complete demo_flush demo_args) as [_ H].
  destruct (H demo_batch_event) as (context & history & prior & current & note & Hp & _ & Ha & Hh & Hc & Hx); [reflexivity|].
  destruct Hx as (p & n & -> & Hs & ->). destruct (Hh [mkContext "k" "t" "hi"] 1%N false) as (h & -> & Hhi); [left; reflexivity|].
  exists context, h, p, current, n. split; [exact Hp|]. split; [exact Hc|]. split; [exact Hs|]. split; [exact Hhi|].
  apply Ha. vm_compute. reflexivity.
Defined.

Lemma slash_commands_witness :
  extract_slash_command "@Dawn Smith /goal ship it" ["Dawn"; "Dawn Smith"] = Some "/goal ship it" /\
  tail_of "/goal ship it" "@Eva /goal ship it".
Proof.
  split.
  - destruct (slash_commands ["Dawn"; "Dawn Smith"] "/goal ship it" "/goal ship it" demo_flush) as (_ & H & _).
    etransitivity; [apply (H "@Dawn Smith")|vm_compute; reflexivity]. apply (mention_name _ _ "Dawn Smith"); [set_solver|reflexivity|].
    intros m Hm. repeat (apply elem_of_cons in Hm as [->|Hm]; [cbn; lia|]). by apply not_elem_of_nil in Hm.
  - destruct (slash_commands [] "@Eva /goal ship it" "/goal ship it" demo_flush) as (H & _). apply H. vm_compute. reflexivity.
Defined.

(** A direct message outside a thread has no anchor, although it comes from a
    human. *)
Example top_level_dm_unanchored :
  let be := mkBatchEvent (mkEvent "i" "k" 0 9 [["h"; "z"]] "hello" "sig") "dm" 0 in
  let batch := mkBatch 5%N [be] [] None in
  let args := mkArgs None (Some (mkInfo "general" "dm")) None None true None None None None in
  reply_anchor_for batch args be (is_dm_channel args) = None /\
  reply_anchor_for batch args be false = Some "i".
Proof. vm_compute. split; reflexivity. Qed.
