(* ===== verification/Json.v ===== *)
(** * JSON values

    [serde_json::Value] as the programs read it: numbers, fields and the
    accessors they use.  Parsing and printing are the class [JsonLib]. *)

From S2P Require Import Prelude Text.
From stdpp Require Import countable gmap.

Local Set Warnings "-register-all".

(** [serde_json::Number]. *)
Inductive Num := PosInt (n : N) | NegInt (z : Z) | Float (text : string).

Inductive Value :=
| VNull
| VBool (b : bool)
| VNumber (n : Num)
| VString (s : string)
| VArray (l : list Value)
| VObject (fields : list (string * Value)).

Definition i64_max : Z := 9223372036854775807.

Definition as_str (v : Value) : option string := match v with VString s => Some s | _ => None end.
Definition as_array (v : Value) : option (list Value) := match v with VArray l => Some l | _ => None end.
Definition as_object (v : Value) : option (list (string * Value)) := match v with VObject l => Some l | _ => None end.
Definition as_u64 (v : Value) : option N := match v with VNumber (PosInt n) => Some n | _ => None end.
Definition as_i64 (v : Value) : option Z :=
  match v with
  | VNumber (PosInt n) => if (Z.of_N n <=? i64_max)%Z then Some (Z.of_N n) else None
  | VNumber (NegInt z) => Some z
  | _ => None
  end.
Definition is_string (v : Value) : bool := match v with VString _ => true | _ => false end.
Definition is_object (v : Value) : bool := match v with VObject _ => true | _ => false end.

Definition get (k : string) (fields : list (string * Value)) : option Value :=
  find_map (fun x : string * Value => if String.eqb x.1 k then Some x.2 else None) fields.

(** [obj.get(k).and_then(|v| v.as_str())]. *)
Definition get_str (k : string) (fields : list (string * Value)) : option string := get k fields ≫= as_str.

(** [o.and_then(f)], in chains. *)
Notation "o '?>' f" := (match o with Some x => f x | None => None end) (at level 54, left associativity, only parsing) : result_scope.

(** [v.get(k)] on any value. *)
Definition field (k : string) (v : Value) : option Value := as_object v ≫= get k.

(** Functions of the crate. *)
Class JsonLib := {
  (** [serde_json::from_str::<Value>] *)
  from_str : string -> option Value;
  (** [Value::to_string] and [serde_json::to_string] *)
  json_text : Value -> string;
}.

(** ** Fields *)

(** [filter[k] = v] on the fields of an object. *)
Fixpoint set_field (k : string) (v : Value) (fields : list (string * Value)) : list (string * Value) :=
  match fields with
  | [] => [(k, v)]
  | (k', v') :: rest => if String.eqb k' k then (k, v) :: rest else (k', v') :: set_field k v rest
  end.

Lemma get_set_field k v k' fields : get k' (set_field k v fields) = if String.eqb k k' then Some v else get k' fields.
Proof.
  induction fields as [|[k1 v1] fields IH]; cbn [set_field].
  - unfold get. cbn. by destruct (String.eqb k k').
  - destruct (String.eqb_spec k1 k) as [->|Hne]; unfold get in *; cbn; [by destruct (String.eqb k k')|].
    rewrite IH. destruct (String.eqb_spec k1 k') as [<-|]; [|done]. destruct (String.eqb_spec k k1); [congruence|done].
Qed.

(** ** A concrete printer

    Values are countable, so that a value can be printed as the digits of its
    code and read back. *)

Section value_ind.
Variable P : Value -> Prop.
Hypothesis HNull : P VNull.
Hypothesis HBool : forall b, P (VBool b).
Hypothesis HNumber : forall n, P (VNumber n).
Hypothesis HString : forall s, P (VString s).
Hypothesis HArray : forall l, Forall P l -> P (VArray l).
Hypothesis HObject : forall l, Forall (fun x => P x.2) l -> P (VObject l).

Fixpoint value_ind' (v : Value) : P v :=
  match v with
  | VNull => HNull
  | VBool b => HBool b
  | VNumber n => HNumber n
  | VString s => HString s
  | VArray l => HArray l ((fix go l : Forall P l := match l with [] => List.Forall_nil _ | v :: l => @List.Forall_cons _ _ _ _ (value_ind' v) (go l) end) l)
  | VObject l =>
      HObject l ((fix go (l : list (string * Value)) : Forall (fun x => P x.2) l :=
        match l with [] => List.Forall_nil _ | (k, v) :: l => @List.Forall_cons _ _ (k, v) _ (value_ind' v) (go l) end) l)
  end.
End value_ind.

Definition num_code (n : Num) : N + Z + string := match n with PosInt n => inl (inl n) | NegInt z => inl (inr z) | Float t => inr t end.
Definition code_num (c : N + Z + string) : Num := match c with inl (inl n) => PosInt n | inl (inr z) => NegInt z | inr t => Float t end.

Fixpoint value_tree (v : Value) : gen_tree (bool + (N + Z + string) + string) :=
  match v with
  | VNull => GenNode 0 []
  | VBool b => GenLeaf (inl (inl b))
  | VNumber n => GenLeaf (inl (inr (num_code n)))
  | VString s => GenLeaf (inr s)
  | VArray l => GenNode 1 (value_tree <$> l)
  | VObject l => GenNode 2 ((fun x : string * Value => GenNode 3 [GenLeaf (inr x.1); value_tree x.2]) <$> l)
  end.

Fixpoint tree_value (t : gen_tree (bool + (N + Z + string) + string)) : Value :=
  match t with
  | GenLeaf (inl (inl b)) => VBool b
  | GenLeaf (inl (inr c)) => VNumber (code_num c)
  | GenLeaf (inr s) => VString s
  | GenNode 1 l => VArray (tree_value <$> l)
  | GenNode 2 l => VObject ((fun t => match t with GenNode _ [GenLeaf (inr k); v] => (k, tree_value v) | _ => (EmptyString, VNull) end) <$> l)
  | GenNode _ _ => VNull
  end.

Lemma tree_value_tree v : tree_value (value_tree v) = v.
Proof.
  induction v as [|b|n|s|l IH|l IH] using value_ind'; cbn; try done; [by destruct n| |]; f_equal; rewrite <-list_fmap_compose.
  - induction IH as [|v l Hv _ IHl]; [done|]. rewrite fmap_cons, IHl. cbn. by rewrite Hv.
  - induction IH as [|[k v] l Hv _ IHl]; [done|]. rewrite fmap_cons, IHl. cbn in *. by rewrite Hv.
Qed.

#[global] Instance Num_eq_dec : EqDecision Num.
Proof. solve_decision. Defined.

#[global] Instance Value_eq_dec : EqDecision Value.
Proof.
  intros v w. destruct (decide (value_tree v = value_tree w)) as [E|E]; [left|right; by intros ->].
  by rewrite <-(tree_value_tree v), <-(tree_value_tree w), E.
Defined.

#[global] Instance Value_countable : Countable Value := inj_countable' value_tree tree_value tree_value_tree.
