(* ===== verification/PushArgs.v ===== *)
(** * The arguments of the pusher

    [Config::from_args] of [buzz-local-relay/src/bin/buzz-relay-push.rs]: flags,
    defaults, and the choice of what a stream exports. *)

From S2P Require Import Prelude Text Nostr Demo Kinds Ingest FilterMatch Store Replication Push Pull Prompt Json.

Record PusherConfig := mkPusherConfig {
  gc_data : string;
  gc_destination : string;
  gc_source : ReplicationSourceId;
  gc_key_file : string;
  gc_cursor_file : string;
  gc_batch_size : nat;
  gc_batch_bytes : N;
  gc_filter : option (list Filter);
}.

Definition DEFAULT_BATCH_BYTES : N := 192 * 1024.

(** The locals of [from_args] while it reads the arguments. *)
Record PushArgs := mkPushArgs {
  ga_data : option string;
  ga_destination : option string;
  ga_source : option string;
  ga_key_file : option string;
  ga_cursor_file : option string;
  ga_batch_size : nat;
  ga_batch_bytes : N;
  ga_filter_json : option string;
  ga_streams_file : option string;
}.

Definition push_read_arg (arg : string) (args : list string) (a : PushArgs) : result ArgsError (PushArgs * list string) :=
  let '(mkPushArgs data d s k c n b f t) := a in
  if String.eqb arg "--data" then take_value args arg (fun v => Ok (mkPushArgs (Some v) d s k c n b f t))
  else if String.eqb arg "--to" then take_value args arg (fun v => Ok (mkPushArgs data (Some v) s k c n b f t))
  else if String.eqb arg "--source" then take_value args arg (fun v => Ok (mkPushArgs data d (Some v) k c n b f t))
  else if String.eqb arg "--key" then take_value args arg (fun v => Ok (mkPushArgs data d s (Some v) c n b f t))
  else if String.eqb arg "--cursor-file" then take_value args arg (fun v => Ok (mkPushArgs data d s k (Some v) n b f t))
  else if String.eqb arg "--batch" then
    take_value args arg (fun v =>
      let? n := ok_or (parse_usize v) (BadArgument "--batch requires a positive integer") in
      Ok (mkPushArgs data d s k c n b f t))
  else if String.eqb arg "--batch-bytes" then
    take_value args arg (fun v =>
      let? b := ok_or (parse_u64 v) (BadArgument "--batch-bytes requires a positive integer") in
      Ok (mkPushArgs data d s k c n b f t))
  else if String.eqb arg "--filter" then take_value args arg (fun v => Ok (mkPushArgs data d s k c n b (Some v) t))
  else if String.eqb arg "--streams" then take_value args arg (fun v => Ok (mkPushArgs data d s k c n b f (Some v)))
  else if is_help arg then Err HelpPrinted
  else Err (BadArgument ("unknown argument: " +:+ arg)).

Fixpoint push_read_args (fuel : nat) (args : list string) (a : PushArgs) : result ArgsError PushArgs :=
  match fuel, args with
  | S fuel, arg :: rest => let? x := push_read_arg arg rest a in push_read_args fuel x.2 x.1
  | _, _ => Ok a
  end.

(** [v["k"]]: null when there is no such field. *)
Definition index (k : string) (v : Value) : Value := default VNull (field k v).

Section from_args.
Context `{JL : JsonLib}.
Variable read_file : string -> option string.
Variable filters_from_str : string -> option (list Filter).
Variable filters_from_value : Value -> option (list Filter).

(** What a declared stream exports. *)
Definition stream_selection (source_id : string) (entry : Value) : result ArgsError (option (list Filter)) :=
  match index "mirror" entry with
  | VBool true => Ok None
  | _ =>
      match index "filter" entry with
      | VArray l =>
          let? filters := ok_or (filters_from_value (VArray l)) (BadArgument "stream filter must be a JSON array of NIP-01 filters") in
          Ok (Some filters)
      | _ => Err (BadArgument ("stream " +:+ debug_str source_id +:+ " must declare {" +:+ debug_str "filter" +:+ ": [...]} or {" +:+ debug_str "mirror" +:+ ": true}"))
      end
  end.

Definition declared_names (streams : Value) : string :=
  from_option (fun o => join_str ", " (fst <$> o)) EmptyString (as_object streams).

Definition push_selection (source_id : string) (filter_json streams_file : option string) : result ArgsError (option (list Filter)) :=
  match filter_json, streams_file with
  | Some _, Some _ => Err (BadArgument "--filter and --streams are mutually exclusive")
  | Some json, None =>
      let? filters := ok_or (filters_from_str json) (BadArgument "--filter must be a JSON array of NIP-01 filters") in
      Ok (Some filters)
  | None, Some path =>
      let? raw := ok_or (read_file path) (BadArgument ("failed to read streams file " +:+ path)) in
      let? streams := ok_or (from_str raw) (BadArgument "streams file is not valid JSON") in
      let? entry := ok_or (field source_id streams)
        (BadArgument ("stream " +:+ debug_str source_id +:+ " not declared in " +:+ path +:+ " (declared: " +:+ declared_names streams +:+ ")")) in
      stream_selection source_id entry
  | None, None => Ok None
  end.

Definition push_from_args (args : list string) : result ArgsError PusherConfig :=
  let? a := push_read_args (length args) args
    (mkPushArgs None None None None None DEFAULT_BATCH_SIZE DEFAULT_BATCH_BYTES None None) in
  let? _ := ensure (negb (ga_batch_size a =? 0)%nat) (BadArgument "--batch requires a positive integer") in
  let? _ := ensure (negb (ga_batch_bytes a =? 0)%N) (BadArgument "--batch-bytes requires a positive integer") in
  let? data := required (ga_data a) "--data <journal path>" in
  let? source_id := required (ga_source a) "--source <stream id>" in
  let? filter := push_selection source_id (ga_filter_json a) (ga_streams_file a) in
  let cursor_file := default (data +:+ ".push-cursor") (ga_cursor_file a) in
  let? destination := required (ga_destination a) "--to <destination base URL>" in
  let? key_file := required (ga_key_file a) "--key <nsec hex file>" in
  Ok (mkPusherConfig data (trim_end_matches "/" destination) source_id key_file cursor_file (ga_batch_size a) (ga_batch_bytes a) filter).

(** A configuration the pusher runs with has positive limits; with a streams
    file the whole journal is exported only for a stream declared a mirror; and
    a selection is never given twice. *)
Lemma push_selection_explicit args cfg :
  push_from_args args = Ok cfg ->
  gc_batch_size cfg <> 0 /\ (gc_batch_bytes cfg <> 0)%N /\
  exists a, push_read_args (length args) args (mkPushArgs None None None None None DEFAULT_BATCH_SIZE DEFAULT_BATCH_BYTES None None) = Ok a /\
    (is_Some (ga_filter_json a) -> ga_streams_file a = None) /\
    (gc_filter cfg = None -> ga_filter_json a = None /\
       forall path, ga_streams_file a = Some path ->
         exists raw streams entry, read_file path = Some raw /\ from_str raw = Some streams /\
           field (gc_source cfg) streams = Some entry /\ field "mirror" entry = Some (VBool true)).
Proof using Type.
  unfold push_from_args, required. intros H. ok_facts. injection H as <-. cbn [gc_batch_size gc_batch_bytes gc_filter gc_source].
  match goal with H : negb (_ =? 0)%nat = true |- _ => apply negb_true_iff, Nat.eqb_neq in H end.
  match goal with H : negb (_ =? 0)%N = true |- _ => apply negb_true_iff, N.eqb_neq in H end.
  split_and!; [done..|]. exists a. split; [done|].
  destruct (ga_filter_json a) as [j|], (ga_streams_file a) as [path|]; cbn [push_selection] in E4; ok_facts; try done.
  - injection E4 as <-. by split.
  - split; [by intros [? [=]]|]. intros ->. split; [done|]. intros p [= <-].
    do 3 eexists. split_and!; try eassumption. unfold stream_selection, index in *.
    destruct (field "mirror" _) as [[|[]| | | |]|]; cbn in *; try done; repeat case_match; ok_facts; done.
Qed.
End from_args.
