(* ===== verification/AcpFilter.v ===== *)
(** * Subscription rules of the agent bridge

    [buzz-acp/src/filter.rs]: the variables and functions a filter expression
    sees, its evaluation under a time limit, and the ordered matching of an
    event against rules; and of [config.rs] the loading of rules and the
    subscription filters made from them.  The expression language is the crate
    [evalexpr], an interface; when an evaluation finishes is an argument. *)

From S2P Require Import Prelude Text Nostr Demo Kinds Sdk.

Local Set Warnings "-register-all".

(** ** Expressions *)

(** [evalexpr::Value]. *)
Inductive EvalValue :=
| EString (s : string)
| EInt (z : Z)
| EBoolean (b : bool)
| ETuple (l : list EvalValue)
| EFloat (text : string)
| EEmpty.

Record EvalContext := mkEvalContext {
  functions : list (string * (EvalValue -> result string EvalValue));
  variables : list (string * EvalValue);
}.

Class EvalLib := {
  EvalNode : Type;
  build_operator_tree : string -> result string EvalNode;
  (** [Node::eval_boolean_with_context] *)
  eval_node : EvalNode -> EvalContext -> result string bool;
  (** [evalexpr::eval_boolean_with_context] *)
  eval_text : string -> EvalContext -> result string bool;
  (** the errors of a value of the wrong shape *)
  expected_tuple : nat -> EvalValue -> string;
  expected_string : EvalValue -> string;
}.

(** Evaluating a text is building its tree and evaluating that. *)
Class EvalLaws (EL : EvalLib) := {
  eval_text_tree : forall s n c, build_operator_tree s = Ok n -> eval_text s c = eval_node n c;
}.

Inductive FilterError :=
| ExpressionTooLong (len max : N)
| Timeout
| EvalError (error : string).

Record FilterContext := mkFilterContext {
  fc_content : string;
  fc_author : string;
  fc_kind : N;
  fc_channel_id : string;
  fc_timestamp : N;
}.

Inductive ChannelScope :=
| ScopeAll (s : string)
| ScopeList (ids : list string).

Definition MAX_EXPR_LEN : N := 4096.
Definition MAX_CONSECUTIVE_TIMEOUTS : N := 5.

(** [u64 as i64]. *)
Definition as_i64_wrap (n : N) : Z := if (n <? 9223372036854775808)%N then Z.of_N n else (Z.of_N n - 18446744073709551616)%Z.

Section rules.
Context `{NL : NostrLib, EL : EvalLib}.

Record SubscriptionRule := mkRule {
  rule_name : string;
  channels : ChannelScope;
  kinds : list N;
  require_mention : bool;
  rule_filter : option string;
  prompt_tag : option string;
  compiled_filter : option EvalNode;
  consecutive_timeouts : N;
}.

Definition set_timeouts (n : N) (r : SubscriptionRule) : SubscriptionRule :=
  mkRule (rule_name r) (channels r) (kinds r) (require_mention r) (rule_filter r) (prompt_tag r) (compiled_filter r) n.
Definition set_compiled (n : option EvalNode) (r : SubscriptionRule) : SubscriptionRule :=
  mkRule (rule_name r) (channels r) (kinds r) (require_mention r) (rule_filter r) (prompt_tag r) n (consecutive_timeouts r).

Record MatchedRule := mkMatched { rule_index : nat; matched_tag : string }.

Definition from_event (e : Event) (channel_id : Uuid) : FilterContext :=
  mkFilterContext (ev_content e) (to_hex (ev_pubkey e)) (ev_kind e) (Uuid_to_string channel_id) (ev_created_at e).

Definition scope_matches (s : ChannelScope) (channel_id : Uuid) : bool :=
  match s with
  | ScopeAll s => String.eqb s "all"
  | ScopeList ids => existsb (fun id => String.eqb id (Uuid_to_string channel_id)) ids
  end.

(** ** Evaluation *)

Definition tuple2 (v : EvalValue) : result string (EvalValue * EvalValue) :=
  match v with
  | ETuple [a; b] => Ok (a, b)
  | v => Err (expected_tuple 2 v)
  end.

Definition eval_string (v : EvalValue) : result string string :=
  match v with EString s => Ok s | v => Err (expected_string v) end.

(** A function of two strings. *)
Definition string_test (f : string -> string -> bool) (args : EvalValue) : result string EvalValue :=
  let? xs := tuple2 args in
  let? s := eval_string xs.1 in
  let? t := eval_string xs.2 in
  Ok (EBoolean (f s t)).

Definition str_ends_with (s suffix : string) : bool := 
  (String.length suffix <=? String.length s)%nat &&
  String.eqb (String.substring (String.length s - String.length suffix) (String.length suffix) s) suffix.

Definition build_eval_context (ctx : FilterContext) : EvalContext :=
  mkEvalContext
    [("str_contains", string_test (fun haystack needle => str_contains needle haystack));
     ("str_starts_with", string_test starts_with);
     ("str_ends_with", string_test str_ends_with);
     ("str_len", fun arg => let? s := eval_string arg in Ok (EInt (Z.of_nat (String.length s))))]
    [("content", EString (fc_content ctx)); ("author", EString (fc_author ctx)); ("kind", EInt (Z.of_N (fc_kind ctx)));
     ("channel_id", EString (fc_channel_id ctx)); ("timestamp", EInt (as_i64_wrap (fc_timestamp ctx)))].

(** What becomes of one evaluation besides its result: it waits for a permit
    too long, the semaphore is closed, it runs too long, its task panics. *)
Inductive Timing :=
| OnTime
| NoPermit
| SemaphoreClosed (error : string)
| TooSlow
| Panicked (error : string).

Definition evaluate_filter (timing : Timing) (expr : string) (ctx : FilterContext) (node : option EvalNode) : result FilterError bool :=
  if (MAX_EXPR_LEN <? len expr)%N then Err (ExpressionTooLong (len expr) MAX_EXPR_LEN)
  else
    let eval_ctx := build_eval_context ctx in
    match timing with
    | NoPermit | TooSlow => Err Timeout
    | SemaphoreClosed e => Err (EvalError ("semaphore closed: " +:+ e))
    | Panicked e => Err (EvalError ("eval task panicked: " +:+ e))
    | OnTime =>
        map_err EvalError
          (match node with Some node => eval_node node eval_ctx | None => eval_text expr eval_ctx end)
    end.

(** ** Matching *)

Definition event_mentions (agent_pubkey_hex : string) (e : Event) : bool :=
  existsb (fun t : Tag => bool_decide (t !! 0 = Some "p") && bool_decide (t !! 1 = Some agent_pubkey_hex)) (ev_tags e).

(** Checks 1 to 3 of the loop. *)
Definition passes_checks (e : Event) (channel_id : Uuid) (agent : string) (r : SubscriptionRule) : bool :=
  scope_matches (channels r) channel_id &&
  (bool_decide (kinds r = []) || bool_decide (ev_kind e ∈ kinds r)) &&
  (negb (require_mention r) || event_mentions agent e).

Definition winner (index : nat) (r : SubscriptionRule) : MatchedRule := mkMatched index (default (rule_name r) (prompt_tag r)).

(** The loop from rule [index] on; [timing k] is what becomes of the evaluation
    for rule [k].  The rules come back with their counters. *)
Fixpoint match_rules (timing : nat -> Timing) (e : Event) (channel_id : Uuid) (agent : string) (index : nat)
    (rules : list SubscriptionRule) : option MatchedRule * list SubscriptionRule :=
  match rules with
  | [] => (None, [])
  | r :: rest =>
      let next r := let '(m, rest) := match_rules timing e channel_id agent (S index) rest in (m, r :: rest) in
      if negb (passes_checks e channel_id agent r) then next r
      else
        match rule_filter r with
        | None => (Some (winner index r), r :: rest)
        | Some expr =>
            if (MAX_CONSECUTIVE_TIMEOUTS <=? consecutive_timeouts r)%N then (None, r :: rest)
            else
              match evaluate_filter (timing index) expr (from_event e channel_id) (compiled_filter r) with
              | Ok true => (Some (winner index r), set_timeouts 0 r :: rest)
              | Ok false => next (set_timeouts 0 r)
              | Err Timeout => (None, set_timeouts ((consecutive_timeouts r + 1) mod 4294967296) r :: rest)
              | Err _ => (None, r :: rest)
              end
        end
  end.

Definition match_event (timing : nat -> Timing) (e : Event) (channel_id : Uuid) (rules : list SubscriptionRule) (agent : string)
    : option MatchedRule * list SubscriptionRule :=
  match_rules timing e channel_id agent 0 rules.

(** ** Loading *)

Inductive ConfigError :=
| ConfigFile (reason : string)
| ConfigIo (error : string).

Definition MAX_RULES : nat := 100.

(** The checks of one rule, the names so far being [seen]. *)
Definition load_rule (seen : gset string) (r : SubscriptionRule) : result ConfigError SubscriptionRule :=
  let? _ := ensure (negb (Lines.trim_is_empty (rule_name r))) (ConfigFile "rule name must not be empty") in
  let? _ := ensure (negb (bool_decide (rule_name r ∈ seen))) (ConfigFile ("duplicate rule name: " +:+ rule_name r)) in
  let? r := match rule_filter r with
            | None => Ok r
            | Some expr =>
                let? _ := ensure (len expr <=? 4096)%N
                  (ConfigFile ("rule '" +:+ rule_name r +:+ "': filter too long (" +:+ u64_to_string (len expr) +:+ " bytes, max 4096)")) in
                let? node := map_err (fun e => ConfigFile ("rule '" +:+ rule_name r +:+ "': invalid filter expression: " +:+ e))
                  (build_operator_tree expr) in
                Ok (set_compiled (Some node) r)
            end in
  let? _ := match channels r with
            | ScopeAll s => ensure (String.eqb s "all")
                (ConfigFile ("rule '" +:+ rule_name r +:+ "': channels must be " +:+ debug_str "all" +:+ " or a list, got " +:+ debug_str s))
            | ScopeList _ => Ok tt
            end in
  Ok (set_timeouts 0 r).

Fixpoint load_each (seen : gset string) (rules : list SubscriptionRule) : result ConfigError (list SubscriptionRule) :=
  match rules with
  | [] => Ok []
  | r :: rest =>
      let? r' := load_rule seen r in
      let? rest := load_each ({[rule_name r]} ∪ seen) rest in
      Ok (r' :: rest)
  end.

(** [read_to_string] and [toml::from_str] are arguments. *)
Definition load_rules (content : result string string) (toml : string -> result string (list SubscriptionRule))
    : result ConfigError (list SubscriptionRule) :=
  let? content := map_err ConfigIo content in
  let? rules := map_err ConfigFile (toml content) in
  let? _ := ensure (length rules <=? MAX_RULES)%nat
    (ConfigFile ("too many rules (" +:+ u64_to_string (N.of_nat (length rules)) +:+ ", max 100)")) in
  load_each ∅ rules.

(** ** Subscriptions *)

Inductive SubscribeMode := Mentions | All | Config.

#[global] Instance SubscribeMode_eq_dec : EqDecision SubscribeMode.
Proof. solve_decision. Defined.

Record ChannelFilter := mkChannelFilter { cf_kinds : option (list N); cf_require_mention : bool }.

(** The fields of [Config] that decide subscriptions. *)
Record SubscribeConfig := mkSubscribeConfig {
  subscribe_mode : SubscribeMode;
  kinds_override : option (list N);
  channels_override : option (list string);
  no_mention_filter : bool;
}.

Definition mention_kinds : list N := [KIND_STREAM_MESSAGE; KIND_WORKFLOW_APPROVAL_REQUESTED; KIND_STREAM_REMINDER].

Definition rule_applies_to_channel (r : SubscriptionRule) (channel_id : Uuid) : bool :=
  match channels r with
  | ScopeAll s => String.eqb s "all"
  | ScopeList ids => existsb (fun id => bool_decide (Uuid_parse id = Some channel_id)) ids
  end.

Definition add_kind (ks : list N) (k : N) : list N := if bool_decide (k ∈ ks) then ks else ks ++ [k].

(** The locals of the merge: kinds, mention, whether a rule applied. *)
Definition merge_rule (ch : Uuid) (acc : option (list N) * bool * bool) (r : SubscriptionRule) : option (list N) * bool * bool :=
  let '(merged_kinds, mention, has_rule) := acc in
  if negb (rule_applies_to_channel r ch) then acc
  else
    (match kinds r with
     | [] => None
     | ks => (fun merged => foldl add_kind merged ks) <$> merged_kinds
     end,
     mention && require_mention r, true).

Definition merged_filter (ch : Uuid) (rules : list SubscriptionRule) : option ChannelFilter :=
  let '(merged_kinds, mention, has_rule) := foldl (merge_rule ch) (Some [], true, false) rules in
  if (has_rule : bool) then Some (mkChannelFilter merged_kinds mention) else None.

Definition mentions_filter (config : SubscribeConfig) : ChannelFilter :=
  mkChannelFilter (Some (default mention_kinds (kinds_override config))) (negb (no_mention_filter config)).

Definition target_channels (config : SubscribeConfig) (discovered : list Uuid) : list Uuid :=
  match channels_override config with
  | Some overrides => List.filter (fun id => bool_decide (id ∈ discovered)) (omap Uuid_parse overrides)
  | None => discovered
  end.

(** Inserting the filter of every channel that has one. *)
Definition insert_filters (f : Uuid -> option ChannelFilter) (chs : list Uuid) : gmap Uuid ChannelFilter :=
  foldl (fun m ch => match f ch with Some x => <[ch := x]> m | None => m end) ∅ chs.

Definition resolve_channel_filters (config : SubscribeConfig) (discovered : list Uuid) (rules : list SubscriptionRule)
    : gmap Uuid ChannelFilter :=
  match subscribe_mode config with
  | Mentions => insert_filters (fun _ => Some (mentions_filter config)) (target_channels config discovered)
  | All => insert_filters (fun _ => Some (mkChannelFilter (kinds_override config) false)) (target_channels config discovered)
  | Config => insert_filters (fun ch => merged_filter ch rules) discovered
  end.

Definition resolve_dynamic_channel_filter (config : SubscribeConfig) (channel_id : Uuid) (rules : list SubscriptionRule)
    : option ChannelFilter :=
  let outside :=
    negb (bool_decide (subscribe_mode config = Config)) &&
    match channels_override config with
    | Some overrides => negb (existsb (fun s => bool_decide (Uuid_parse s = Some channel_id)) overrides)
    | None => false
    end in
  if outside then None
  else
    match subscribe_mode config with
    | Mentions => Some (mentions_filter config)
    | All => Some (mkChannelFilter (kinds_override config) false)
    | Config => merged_filter channel_id rules
    end.

(** The rules the bridge runs with. *)
Definition bridge_rules (config : SubscribeConfig) (loaded : result ConfigError (list SubscriptionRule))
    : result ConfigError (list SubscriptionRule) :=
  match subscribe_mode config with
  | Mentions =>
      Ok [mkRule "mentions" (ScopeAll "all") (default mention_kinds (kinds_override config)) (negb (no_mention_filter config))
            None (Some "@mention") None 0]
  | All => Ok [mkRule "all" (ScopeAll "all") (default [] (kinds_override config)) false None (Some "all") None 0]
  | Config => loaded
  end.
End rules.
