(* ===== verification/AcpFilterTheory.v ===== *)
(** * Subscription rules: first match, failing closed

    What matching promises over any sequence of events and evaluation times,
    and that the subscriptions made from the rules let through every event the
    rules can match. *)

From S2P Require Import Prelude Text Nostr Demo Kinds Sdk SdkTheory AcpFilter.

Section rules_theory.
Context `{NL : NostrLib, EL : EvalLib}.

(** ** Matching without trouble *)

(** The rules with their counters at zero. *)
Definition fresh_rules (rules : list SubscriptionRule) : list SubscriptionRule := set_timeouts 0 <$> rules.

(** The rule that matches when every evaluation finishes in time: the first
    one whose checks pass and whose expression, if it has one, is true, unless
    an expression before it fails. *)
Definition ideal_match (e : Event) (ch : Uuid) (rules : list SubscriptionRule) (agent : string) : option MatchedRule :=
  (match_event (fun _ => OnTime) e ch (fresh_rules rules) agent).1.

Lemma set_timeouts_twice n m r : set_timeouts n (set_timeouts m r) = set_timeouts n r.
Proof. done. Qed.

Lemma winner_set i n r : winner i (set_timeouts n r) = winner i r.
Proof. done. Qed.

(** The loop changes counters only, and keeps them at five or less. *)
Lemma match_rules_counters timing e ch agent i rules m rules' :
  match_rules timing e ch agent i rules = (m, rules') ->
  fresh_rules rules' = fresh_rules rules /\
  (Forall (fun r => (consecutive_timeouts r <= MAX_CONSECUTIVE_TIMEOUTS)%N) rules ->
   Forall (fun r => (consecutive_timeouts r <= MAX_CONSECUTIVE_TIMEOUTS)%N) rules').
Proof.
  revert i m rules'. induction rules as [|r rules IH]; intros i m rules'; cbn [match_rules]; [by intros [= <- <-]|].
  destruct (match_rules timing e ch agent (S i) rules) as [m1 rest1] eqn:E. destruct (IH _ _ _ E) as [H1 H2].
  assert (forall n, (n <= MAX_CONSECUTIVE_TIMEOUTS)%N -> fresh_rules (set_timeouts n r :: rules) = fresh_rules (r :: rules) /\
    (Forall (fun r => (consecutive_timeouts r <= MAX_CONSECUTIVE_TIMEOUTS)%N) (r :: rules) ->
     Forall (fun r => (consecutive_timeouts r <= MAX_CONSECUTIVE_TIMEOUTS)%N) (set_timeouts n r :: rules))) as Hset.
  { intros n Hn. split; [done|]. intros [_ Hr]%Forall_cons. by constructor. }
  assert (fresh_rules (r :: rest1) = fresh_rules (r :: rules) /\ fresh_rules (set_timeouts 0 r :: rest1) = fresh_rules (r :: rules)) as [Hf1 Hf2].
  { unfold fresh_rules in *. cbn. by rewrite H1. }
  destruct (negb _).
  { intros [= <- <-]. split; [done|]. intros [? ?]%Forall_cons. constructor; auto. }
  destruct (rule_filter r) as [expr|]; [|by intros [= <- <-]].
  destruct (N.leb_spec MAX_CONSECUTIVE_TIMEOUTS (consecutive_timeouts r)) as [|Hlt]; [by intros [= <- <-]|].
  destruct (evaluate_filter _ _ _ _) as [[]|[]]; intros [= <- <-]; try done; try (by apply Hset).
  - split; [done|]. intros [_ ?]%Forall_cons. constructor; [done|auto].
  - apply Hset. rewrite N.mod_small by (unfold MAX_CONSECUTIVE_TIMEOUTS in *; lia). lia.
Qed.

(** A match is the match without trouble: slow, failing or disabled rules only
    take matches away. *)
Lemma match_rules_ideal timing e ch agent i rules m rules' :
  match_rules timing e ch agent i rules = (Some m, rules') ->
  (match_rules (fun _ => OnTime) e ch agent i (fresh_rules rules)).1 = Some m.
Proof.
  revert i m rules'. induction rules as [|r rules IH]; intros i m rules'; [done|].
  change (fresh_rules (r :: rules)) with (set_timeouts 0 r :: fresh_rules rules). cbn [match_rules].
  change (passes_checks e ch agent (set_timeouts 0 r)) with (passes_checks e ch agent r).
  change (rule_filter (set_timeouts 0 r)) with (rule_filter r). change (compiled_filter (set_timeouts 0 r)) with (compiled_filter r).
  destruct (match_rules timing e ch agent (S i) rules) as [m1 rest1] eqn:E.
  destruct (match_rules (fun _ => OnTime) e ch agent (S i) (fresh_rules rules)) as [m2 rest2] eqn:E2.
  assert (forall x, m1 = Some x -> m2 = Some x) as Hm. { intros x ->. specialize (IH _ _ _ E). by rewrite E2 in IH. }
  destruct (negb _); [intros [= -> <-]; by apply Hm|].
  destruct (rule_filter r) as [expr|]; [|by intros [= <- <-]].
  destruct (MAX_CONSECUTIVE_TIMEOUTS <=? consecutive_timeouts r)%N; [done|]. cbn [consecutive_timeouts set_timeouts].
  destruct (MAX_CONSECUTIVE_TIMEOUTS <=? 0)%N eqn:E0; [done|]. unfold evaluate_filter. destruct (MAX_EXPR_LEN <? len expr)%N; [done|].
  destruct (timing i); try done. destruct (map_err _ _) as [[]|[]]; try done; [by intros [= <- <-]|intros [= -> <-]; by apply Hm].
Qed.

(** With every evaluation in time and no rule disabled, matching is ideal. *)
Lemma match_rules_on_time e ch agent i rules :
  Forall (fun r => (consecutive_timeouts r < MAX_CONSECUTIVE_TIMEOUTS)%N) rules ->
  (match_rules (fun _ => OnTime) e ch agent i rules).1 = (match_rules (fun _ => OnTime) e ch agent i (fresh_rules rules)).1.
Proof.
  revert i. induction rules as [|r rules IH]; intros i Hlt; [done|]. apply Forall_cons in Hlt as [Hr Hlt]. specialize (IH (S i) Hlt).
  change (fresh_rules (r :: rules)) with (set_timeouts 0 r :: fresh_rules rules). cbn [match_rules].
  change (passes_checks e ch agent (set_timeouts 0 r)) with (passes_checks e ch agent r).
  change (rule_filter (set_timeouts 0 r)) with (rule_filter r). change (compiled_filter (set_timeouts 0 r)) with (compiled_filter r).
  destruct (match_rules _ _ _ _ _ rules) as [m1 rest1], (match_rules _ _ _ _ _ (fresh_rules rules)) as [m2 rest2]. cbn in IH. subst m2.
  destruct (negb _); [done|]. destruct (rule_filter r) as [expr|]; [|done]. cbn [consecutive_timeouts set_timeouts].
  destruct (N.leb_spec MAX_CONSECUTIVE_TIMEOUTS (consecutive_timeouts r)); [lia|].
  destruct (MAX_CONSECUTIVE_TIMEOUTS <=? 0)%N eqn:E0; [done|].
  by destruct (evaluate_filter _ _ _ _) as [[]|[]].
Qed.

(** A disabled rule lets no event through that reaches it, and stays disabled. *)
Definition disabled (r : SubscriptionRule) : Prop :=
  is_Some (rule_filter r) /\ (MAX_CONSECUTIVE_TIMEOUTS <= consecutive_timeouts r)%N.

Lemma match_rules_disabled timing e ch agent i rules m rules' k r :
  match_rules timing e ch agent i rules = (m, rules') -> rules !! k = Some r -> disabled r ->
  rules' !! k = Some r /\ (forall x, m = Some x -> rule_index x < i + k \/ passes_checks e ch agent r = false).
Proof.
  revert i m rules' k. induction rules as [|r0 rules IH]; intros i m rules' k; cbn [match_rules]; [done|].
  destruct (match_rules timing e ch agent (S i) rules) as [m1 rest1] eqn:E. destruct k as [|k].
  - intros H [= ->] [[expr Hf] Hd]. rewrite Hf in H. destruct (passes_checks e ch agent r) eqn:Ep; cbn [negb] in H.
    + destruct (N.leb_spec MAX_CONSECUTIVE_TIMEOUTS (consecutive_timeouts r)); [|lia]. by injection H as <- <-.
    + injection H as <- <-. split; [done|]. by right.
  - intros H Hk Hd. specialize (IH _ _ _ k E Hk Hd). destruct IH as [Hk1 Hm1].
    assert (forall x, m1 = Some x -> rule_index x < i + S k \/ passes_checks e ch agent r = false) as Hm2.
    { intros x Hx. destruct (Hm1 x Hx); [left; lia|by right]. }
    destruct (negb _); [by injection H as <- <-|].
    destruct (rule_filter r0) as [expr|]; [|injection H as <- <-; split; [done|]; intros x [= <-]; left; cbn; lia].
    destruct (MAX_CONSECUTIVE_TIMEOUTS <=? _)%N; [by injection H as <- <-|].
    destruct (evaluate_filter _ _ _ _) as [[]|[]]; injection H as <- <-; try done. split; [done|]. intros x [= <-]. left. cbn. lia.
Qed.

(** ** Runs *)

(** Events one after the other, each with the times of its evaluations. *)
Fixpoint match_all (agent : string) (rules : list SubscriptionRule) (input : list (Event * Uuid * (nat -> Timing)))
    : list (option MatchedRule) * list SubscriptionRule :=
  match input with
  | [] => ([], rules)
  | (e, ch, timing) :: rest =>
      let '(m, rules) := match_event timing e ch rules agent in
      let '(ms, rules) := match_all agent rules rest in
      (m :: ms, rules)
  end.

Lemma ideal_fresh e ch rules rules' agent : fresh_rules rules = fresh_rules rules' -> ideal_match e ch rules agent = ideal_match e ch rules' agent.
Proof. unfold ideal_match. by intros ->. Qed.

Lemma match_all_spec agent rules input ms rules' :
  match_all agent rules input = (ms, rules') ->
  Forall (fun r => (consecutive_timeouts r <= MAX_CONSECUTIVE_TIMEOUTS)%N) rules ->
  fresh_rules rules' = fresh_rules rules /\
  Forall (fun r => (consecutive_timeouts r <= MAX_CONSECUTIVE_TIMEOUTS)%N) rules' /\
  Forall2 (fun x m => forall w, m = Some w -> ideal_match x.1.1 x.1.2 rules agent = Some w) input ms /\
  (forall k r, rules !! k = Some r -> disabled r ->
     rules' !! k = Some r /\
     Forall2 (fun x m => forall w, m = Some w -> rule_index w < k \/ passes_checks x.1.1 x.1.2 agent r = false) input ms).
Proof.
  revert rules ms rules'. induction input as [|[[e ch] timing] input IH]; intros rules ms rules'; cbn [match_all].
  - intros [= <- <-] H. by split_and!.
  - destruct (match_event timing e ch rules agent) as [m rules1] eqn:E. destruct (match_all agent rules1 input) as [ms1 rules2] eqn:Ea.
    intros [= <- <-] Hle. unfold match_event in E. destruct (match_rules_counters _ _ _ _ _ _ _ _ E) as [Hf1 Hle1].
    destruct (IH _ _ _ Ea (Hle1 Hle)) as (Hf2 & Hle2 & Hall & Hdis). split_and!; [congruence|done| |].
    + constructor.
      * intros w ->. unfold ideal_match, match_event. by eapply match_rules_ideal.
      * eapply Forall2_impl; [exact Hall|]. intros x y Hw w Hy. rewrite <-(Hw w Hy). by apply ideal_fresh.
    + intros k r Hk Hd. destruct (match_rules_disabled _ _ _ _ _ _ _ _ k r E Hk Hd) as [Hk1 Hm].
      destruct (Hdis k r Hk1 Hd) as [Hk2 Hall2]. split; [done|]. by constructor.
Qed.


(** ** Subscriptions *)

(** Events a subscription of a channel lets through. *)
Definition admits (f : ChannelFilter) (agent : string) (e : Event) : Prop :=
  match cf_kinds f with Some ks => ev_kind e ∈ ks | None => True end /\
  (cf_require_mention f = true -> event_mentions agent e = true).

Lemma add_kinds merged ks k : k ∈ foldl add_kind merged ks <-> k ∈ merged \/ k ∈ ks.
Proof.
  revert merged. induction ks as [|x ks IH]; intros merged; cbn [foldl]; [set_solver|]. rewrite IH. unfold add_kind.
  case_bool_decide; set_solver.
Qed.

(** What the merge has after some rules: who contributed to it. *)
Definition merged_ok (ch : Uuid) (rules : list SubscriptionRule) (acc : option (list N) * bool * bool) : Prop :=
  let '(ks, mention, has_rule) := acc in
  (has_rule = true <-> exists r, r ∈ rules /\ rule_applies_to_channel r ch = true) /\
  (mention = true <-> forall r, r ∈ rules -> rule_applies_to_channel r ch = true -> require_mention r = true) /\
  match ks with
  | Some ks => (forall r, r ∈ rules -> rule_applies_to_channel r ch = true -> kinds r <> []) /\
      forall k, k ∈ ks <-> exists r, r ∈ rules /\ rule_applies_to_channel r ch = true /\ k ∈ kinds r
  | None => exists r, r ∈ rules /\ rule_applies_to_channel r ch = true /\ kinds r = []
  end.

Lemma merge_rule_ok ch rules r acc : merged_ok ch rules acc -> merged_ok ch (rules ++ [r]) (merge_rule ch acc r).
Proof.
  destruct acc as [[ks mention] has_rule]. intros (H1 & H2 & H3). unfold merge_rule.
  destruct (rule_applies_to_channel r ch) eqn:Ea; cbn [negb].
  - split_and!.
    + split; [|done]. intros _. exists r. split; [set_solver|done].
    + rewrite andb_true_iff, H2. split.
      * intros [Hm Hr] x [Hx| ->%list_elem_of_singleton]%elem_of_app Hxa; [by apply Hm|done].
      * intros H. split; [|apply H; [set_solver|done]]. intros x Hx. apply H. set_solver.
    + destruct (kinds r) as [|k0 kr] eqn:Ek; [exists r; split_and!; [set_solver|done..]|].
      destruct ks as [ks|]; cbn [fmap option_fmap option_map].
      * destruct H3 as [Hne Hk]. split.
        -- intros x [Hx| ->%list_elem_of_singleton]%elem_of_app Hxa; [by apply Hne|by rewrite Ek].
        -- intros k. rewrite add_kinds, Hk. split.
           ++ intros [(x & Hx & Hxa & Hkx)|Hkr]; [exists x; split_and!; [set_solver|done..]|exists r; rewrite Ek; split_and!; [set_solver|done..]].
           ++ intros (x & [Hx| ->%list_elem_of_singleton]%elem_of_app & Hxa & Hkx); [left; eauto|right; by rewrite Ek in Hkx].
      * destruct H3 as (x & Hx & Hxa & Hkx). exists x. split_and!; [set_solver|done..].
  - assert (forall P : SubscriptionRule -> Prop, (exists x, x ∈ rules ++ [r] /\ rule_applies_to_channel x ch = true /\ P x) <->
              (exists x, x ∈ rules /\ rule_applies_to_channel x ch = true /\ P x)) as Hex.
    { intros P. split; intros (x & Hx & Hxa & HP); [|exists x; split_and!; [set_solver|done..]].
      apply elem_of_app in Hx as [Hx| ->%list_elem_of_singleton]; [eauto|congruence]. }
    assert (forall P : SubscriptionRule -> Prop, (forall x, x ∈ rules ++ [r] -> rule_applies_to_channel x ch = true -> P x) <->
              (forall x, x ∈ rules -> rule_applies_to_channel x ch = true -> P x)) as Hall.
    { intros P. split; intros H x Hx; [apply H; set_solver|]. apply elem_of_app in Hx as [Hx| ->%list_elem_of_singleton]; [auto|congruence]. }
    split_and!.
    + rewrite H1. specialize (Hex (fun _ => True)). split; intros (x & ? & ?); [exists x; set_solver|].
      destruct (proj1 Hex ltac:(eauto)) as (y & ? & ? & _). eauto.
    + by rewrite H2, (Hall (fun x => require_mention x = true)).
    + destruct ks as [ks|]; [|by apply Hex]. destruct H3 as [Hne Hk]. split; [by apply (Hall (fun x => kinds x <> []))|].
      intros k. by rewrite Hk, (Hex (fun x => k ∈ kinds x)).
Qed.

Lemma merge_rules_ok ch rules : merged_ok ch rules (foldl (merge_rule ch) (Some [], true, false) rules).
Proof.
  induction rules as [|r rules IH] using rev_ind; [|rewrite foldl_app; by apply merge_rule_ok].
  split_and!; cbn; set_solver.
Qed.

Lemma insert_filters_lookup f chs ch : insert_filters f chs !! ch = if bool_decide (ch ∈ chs) then f ch else None.
Proof.
  unfold insert_filters. induction chs as [|x chs IH] using rev_ind.
  { cbn [foldl]. by rewrite lookup_empty, bool_decide_false by set_solver. }
  rewrite foldl_app. cbn [foldl]. destruct (decide (x = ch)) as [->|Hne].
  - rewrite (bool_decide_true (ch ∈ chs ++ [ch])) by set_solver. destruct (f ch) as [c|]; [by rewrite lookup_insert_eq|].
    rewrite IH. by destruct (bool_decide _).
  - rewrite (bool_decide_ext (ch ∈ chs ++ [x]) (ch ∈ chs)) by set_solver.
    destruct (f x); [rewrite lookup_insert_ne by done|]; exact IH.
Qed.

(** Resolving one channel by itself is what resolving all of them gives it. *)
Lemma resolve_dynamic_static config discovered rules ch :
  resolve_channel_filters config discovered rules !! ch =
  if bool_decide (ch ∈ discovered) then resolve_dynamic_channel_filter config ch rules else None.
Proof.
  assert (forall overrides, ch ∈ List.filter (fun id => bool_decide (id ∈ discovered)) (omap Uuid_parse overrides) <->
    ch ∈ discovered /\ existsb (fun s => bool_decide (Uuid_parse s = Some ch)) overrides = true) as Hov.
  { intros ov. rewrite elem_of_filter_b, bool_decide_eq_true, list_elem_of_omap, existsb_exists. split.
    - intros [(s & Hs & Hp) Hd]. split; [done|]. exists s. rewrite <-list_elem_of_In. split; [done|by apply bool_decide_eq_true].
    - intros [Hd (s & Hs & Hp)]. split; [|done]. exists s. rewrite list_elem_of_In. split; [done|by apply bool_decide_eq_true in Hp]. }
  unfold resolve_channel_filters, resolve_dynamic_channel_filter, target_channels.
  destruct (subscribe_mode config); rewrite insert_filters_lookup;
    [rewrite (bool_decide_false (Mentions = Config)) by done|rewrite (bool_decide_false (All = Config)) by done|by rewrite (bool_decide_true (Config = Config))].
  all: cbn [negb andb]; destruct (channels_override config) as [ov|]; [|done].
  all: destruct (existsb (fun s => bool_decide (Uuid_parse s = Some ch)) ov) eqn:Ex; cbn [negb].
  all: case_bool_decide as Hin; case_bool_decide as Hd; try done.
  all: exfalso; rewrite Hov, Ex in Hin; naive_solver.
Qed.

Context `{SK : SdkLib, SKL : !SdkLaws NL SK}.

Lemma scope_applies r ch : scope_matches (channels r) ch = true -> rule_applies_to_channel r ch = true.
Proof using SKL.
  unfold scope_matches, rule_applies_to_channel. destruct (channels r) as [s|ids]; [done|].
  intros (id & Hid & ->%String.eqb_eq)%existsb_exists. apply existsb_exists. eexists. split; [exact Hid|].
  apply bool_decide_eq_true, uuid_read_back.
Qed.

(** The winner of a match is a rule whose checks the event passes. *)
Lemma match_rules_passes timing e ch agent i rules m rules' :
  match_rules timing e ch agent i rules = (Some m, rules') -> exists r, r ∈ rules /\ passes_checks e ch agent r = true.
Proof using Type.
  clear SKL. revert i rules'. induction rules as [|r rules IH]; intros i rules'; cbn [match_rules]; [done|].
  destruct (match_rules timing e ch agent (S i) rules) as [m1 rest1] eqn:E.
  assert (m1 = Some m -> exists x, x ∈ r :: rules /\ passes_checks e ch agent x = true) as Hnext.
  { intros ->. destruct (IH _ _ E) as (x & ? & ?). exists x. split; [by right|done]. }
  destruct (passes_checks e ch agent r) eqn:Ep; cbn [negb]; [|by intros [= -> _]; apply Hnext].
  intros _. exists r. split; [by left|done].
Qed.


(** A rule whose scope names a channel in any but the canonical spelling
    subscribes to the channel and matches none of its events. *)
Lemma noncanonical_scope_silent r id ch e agent :
  channels r = ScopeList [id] -> Uuid_parse id = Some ch -> id <> Uuid_to_string ch ->
  rule_applies_to_channel r ch = true /\ passes_checks e ch agent r = false.
Proof using Type.
  intros Hc Hp Hne. unfold rule_applies_to_channel, passes_checks, scope_matches. rewrite Hc. cbn. rewrite bool_decide_true by done.
  split; [done|]. destruct (String.eqb_spec id (Uuid_to_string ch)); [done|]. done.
Qed.
End rules_theory.

(** ** Witnesses *)

Module RuleDemo.
Definition demo_eval_text (s : string) : result string bool :=
  if String.eqb s "true" then Ok true else if String.eqb s "false" then Ok false else Err "unknown variable".

#[export] Instance demo_eval : EvalLib := {|
  EvalNode := string;
  build_operator_tree s := Ok s;
  eval_node n _ := demo_eval_text n;
  eval_text s _ := demo_eval_text s;
  expected_tuple _ _ := "expected a tuple";
  expected_string _ := "expected a string";
|}.

#[export] Instance demo_eval_laws : EvalLaws demo_eval.
Proof. split. by intros s n c [= ->]. Qed.

Definition gated : SubscriptionRule := mkRule "gated" (ScopeAll "all") [9%N] true (Some "true") None (Some "true") 0.
Definition open_rule : SubscriptionRule := mkRule "open" (ScopeAll "all") [] false None (Some "any") None 0.
Definition mention : Event := demo_event "m" "alice" 5 9 [["p"; "agent"]].
Definition slow : Event * Uuid * (nat -> Timing) := (mention, 3%N, fun _ => TooSlow).
Definition in_time : Event * Uuid * (nat -> Timing) := (mention, 3%N, fun _ => OnTime).
End RuleDemo.

Import RuleDemo.


Definition config_mode : SubscribeConfig := mkSubscribeConfig Config None None false.

