(* ===== verification/Inbound.v ===== *)
(** * Events on their way to an agent

    The event arm of the main loop of [buzz-acp/src/lib.rs]: membership
    notifications, owner commands, the author gate with its sibling lookups
    and the resolution of channel types, rule matching, queueing, and the signal
    or steer sent to a running turn; and the arm that settles a steer.  The
    relay's HTTP bridge is an interface; clocks and evaluation times are
    arguments. *)

From S2P Require Import Prelude Text Nostr Demo Kinds OwnerAttestation GitPerms Sdk EventQueue EventQueueTheory AgentBridge Prompt Json AcpFilter.

(** ** Configuration and state *)

Inductive RespondTo := OwnerOnly | Allowlist | Anyone | Nobody.

#[global] Instance RespondTo_eq_dec : EqDecision RespondTo.
Proof. solve_decision. Defined.

Inductive MultipleEventHandling := HandleQueue | HandleSteer | HandleInterrupt | HandleOwnerInterrupt.

Inductive SteerError :=
| AgentError (code : Z) (message : string)
| TransportError (error : string)
| ExpectedRunIdMissing
| PromptCompleted.

Inductive SteerAck :=
| SteerSuccess
| SteerFailed (error : SteerError)
| PromptCompletedNeutral.

(** The steer channel of a task, of capacity one. *)
Inductive SteerTx := SteerFree | SteerFull (body : string) | SteerClosed.

Record TaskMeta := mkTask {
  task_channel : option Uuid;
  task_control : bool;
  task_steer : option SteerTx;
}.

(** [POST /query]; [None] is an error or a timeout. *)
Class RestLib := {
  Rest : Type;
  rest_query : Rest -> Filter -> Rest * option Value;
}.

Section inbound.
Context `{NL : NostrLib, EL : EvalLib, SJ : SerdeJson, SC : SchnorrLib, JL : JsonLib, RL : RestLib, QE : QueueEnv, PLB : PromptLib}.

Record InboundConfig := mkInboundConfig {
  ic_pubkey_hex : string;
  ic_owner : option string;
  ic_ignore_self : bool;
  ic_respond_to : RespondTo;
  ic_allowlist : gset string;
  ic_handling : MultipleEventHandling;
  ic_subscribe : SubscribeConfig;
  ic_max_turn_secs : N;
}.

Record Bridge := mkBridge {
  b_rules : list SubscriptionRule;
  b_siblings : gmap string bool;
  b_infos : gmap Uuid PromptChannelInfo;
  b_rest : Rest;
  b_seen_current : gset string;
  b_seen_previous : gset string;
  b_newest : gmap Uuid N;
  b_subscribed : gset Uuid;
  b_removed : gset Uuid;
  b_queue : EventQueue;
  b_slots : Slots;
  b_tasks : list TaskMeta;
  b_pool_ready : bool;
}.

Definition set_rules x b := mkBridge x (b_siblings b) (b_infos b) (b_rest b) (b_seen_current b) (b_seen_previous b) (b_newest b)
  (b_subscribed b) (b_removed b) (b_queue b) (b_slots b) (b_tasks b) (b_pool_ready b).
Definition set_gate s i r b := mkBridge (b_rules b) s i r (b_seen_current b) (b_seen_previous b) (b_newest b)
  (b_subscribed b) (b_removed b) (b_queue b) (b_slots b) (b_tasks b) (b_pool_ready b).
Definition set_seen c p b := mkBridge (b_rules b) (b_siblings b) (b_infos b) (b_rest b) c p (b_newest b)
  (b_subscribed b) (b_removed b) (b_queue b) (b_slots b) (b_tasks b) (b_pool_ready b).
Definition set_member n s r b := mkBridge (b_rules b) (b_siblings b) (b_infos b) (b_rest b) (b_seen_current b) (b_seen_previous b) n
  s r (b_queue b) (b_slots b) (b_tasks b) (b_pool_ready b).
Definition set_work q sl t b := mkBridge (b_rules b) (b_siblings b) (b_infos b) (b_rest b) (b_seen_current b) (b_seen_previous b) (b_newest b)
  (b_subscribed b) (b_removed b) q sl t (b_pool_ready b).
Definition set_bqueue q b := set_work q (b_slots b) (b_tasks b) b.

(** What the loop does besides changing its state. *)
Inductive Action :=
| ShutdownSent
| SignalSent (c : Uuid) (s : ControlSignal)
| SessionsInvalidated (c : Uuid)
| SubscribeSent (c : Uuid) (f : ChannelFilter) (since : N)
| UnsubscribeSent (c : Uuid)
| Queued (c : Uuid) (e : Event) (tag : string)
| SteerSent (c : Uuid) (event_id : string)
| ReactionsRemoved (ids : list string)
| Dispatched (turns : list Turn).

(** ** Siblings *)

(** [OwnerCache::cache_sibling] *)
Definition cache_sibling (author : string) (is_sibling : bool) (m : gmap string bool) : gmap string bool :=
  <[author := is_sibling]> (if (256 <=? size m)%nat then ∅ else m).

(** One tag of the profile: whether it attests the owner. *)
Definition tag_attests (author_pk : PublicKey) (expected_owner : string) (tag : Value) : bool :=
  match as_array tag with
  | Some parts =>
      (4 <=? length parts)%nat && bool_decide (parts !! 0 ≫= as_str = Some "auth") &&
      match parts !! 1 ≫= as_str with
      | Some tag_owner =>
          eq_ignore_ascii_case tag_owner expected_owner && is_ok (verify_auth_tag (json_text tag) author_pk)
      | None => false
      end
  | None => false
  end.

Definition check_sibling_via_profile (author expected_owner : string) (rest : Rest) : bool * Rest :=
  match PublicKey_from_hex author with
  | None => (false, rest)
  | Some pk =>
      let '(rest, resp) := rest_query rest (mkFilter None (Some [pk]) (Some [0%N]) None None None (Some 1) []) in
      (match resp ?> as_array ?> head ?> field "tags" ?> as_array with
       | Some tags => existsb (tag_attests pk expected_owner) tags
       | None => false
       end, rest)
  end.

Definition is_owner_or_sibling (cfg : InboundConfig) (author : string) (b : Bridge) : bool * Bridge :=
  match ic_owner cfg with
  | None => (false, b)
  | Some my_owner =>
      if String.eqb author my_owner then (true, b)
      else
        match b_siblings b !! author with
        | Some cached => (cached, b)
        | None =>
            let '(is_sibling, rest) := check_sibling_via_profile author my_owner (b_rest b) in
            (is_sibling, set_gate (cache_sibling author is_sibling (b_siblings b)) (b_infos b) rest b)
        end
  end.

Definition author_allowed (cfg : InboundConfig) (author : string) (is_dm : bool) (b : Bridge) : bool * Bridge :=
  if is_dm then
    match ic_respond_to cfg with
    | Nobody => (false, b)
    | _ => is_owner_or_sibling cfg author b
    end
  else
    match ic_respond_to cfg with
    | Anyone => (true, b)
    | Nobody => (false, b)
    | OwnerOnly => is_owner_or_sibling cfg author b
    | Allowlist => if bool_decide (author ∈ ic_allowlist cfg) then (true, b) else is_owner_or_sibling cfg author b
    end.

(** ** Channel types *)

(** The locals of [channel_type_from_tags]: hidden, private, declared type. *)
Definition type_tag (acc : bool * bool * option string) (tag : Value) : bool * bool * option string :=
  let '(is_hidden, is_private, declared) := acc in
  match as_array tag with
  | None => acc
  | Some arr =>
      match head arr ?> as_str with
      | Some name =>
          if String.eqb name "hidden" then (true, is_private, declared)
          else if String.eqb name "private" then (is_hidden, true, declared)
          else if String.eqb name "t" then (is_hidden, is_private, arr !! 1 ?> as_str)
          else acc
      | None => acc
      end
  end.

Definition channel_type_from_tags (tags : list Value) : string :=
  let '(is_hidden, is_private, declared) := foldl type_tag (false, false, None) tags in
  if bool_decide (declared = Some "dm") || is_hidden then "dm"
  else if bool_decide (declared = Some "private") || is_private then "private"
  else "stream".

(** The last [name] tag. *)
Definition name_tag (acc : option string) (tag : Value) : option string :=
  match as_array tag with
  | Some arr => if bool_decide (head arr ≫= as_str = Some "name") then arr !! 1 ?> as_str else acc
  | None => acc
  end.

(** One attempt of [fetch_channel_info]. *)
Definition fetch_info_once (channel_id : Uuid) (rest : Rest) : option PromptChannelInfo * Rest :=
  let '(rest, resp) := rest_query rest
    (mkFilter None None (Some [KIND_NIP29_GROUP_METADATA]) None None None None [("d", [Uuid_to_string channel_id])]) in
  (match resp ?> as_array ?> head ?> field "tags" ?> as_array with
   | Some tags => Some (mkInfo (default "unknown" (foldl name_tag None tags)) (channel_type_from_tags tags))
   | None => None
   end, rest).

(** [fetch_with_retry]: a second attempt when the first gives nothing. *)
Definition fetch_channel_info (channel_id : Uuid) (rest : Rest) : option PromptChannelInfo * Rest :=
  match fetch_info_once channel_id rest with
  | (Some info, rest) => (Some info, rest)
  | (None, rest) => fetch_info_once channel_id rest
  end.

(** [ChannelInfoResolver::resolve] *)
Definition resolve_channel (channel_id : Uuid) (b : Bridge) : option PromptChannelInfo * Bridge :=
  match b_infos b !! channel_id with
  | Some info => (Some info, b)
  | None =>
      match fetch_channel_info channel_id (b_rest b) with
      | (Some info, rest) => (Some info, set_gate (b_siblings b) (<[channel_id := info]> (b_infos b)) rest b)
      | (None, rest) => (None, set_gate (b_siblings b) (b_infos b) rest b)
      end
  end.

Definition is_dm_channel (channel_id : Uuid) (b : Bridge) : bool * Bridge :=
  match resolve_channel channel_id b with
  | (Some info, b) => (String.eqb (channel_type info) "dm", b)
  | (None, b) => (true, b)
  end.

(** The cache at startup: channels of unknown type are left out. *)
Definition startup_infos (startup : gmap Uuid PromptChannelInfo) : gmap Uuid PromptChannelInfo :=
  filter (fun kv => channel_type kv.2 <> "unknown") startup.

(** ** Discovery *)

(** The locals of [merge_discovered_channels] for one metadata event. *)
Definition meta_tag (acc : option string * option string * bool) (tag : Value) : option string * option string * bool :=
  let '(d_val, name, archived) := acc in
  match as_array tag with
  | None => acc
  | Some arr =>
      match head arr ?> as_str with
      | Some k =>
          if String.eqb k "d" then (arr !! 1 ?> as_str, name, archived)
          else if String.eqb k "name" then (d_val, arr !! 1 ?> as_str, archived)
          else if String.eqb k "archived" then (d_val, name, bool_decide (arr !! 1 ≫= as_str = Some "true"))
          else acc
      | None => acc
      end
  end.

Definition meta_event (acc : gmap Uuid PromptChannelInfo * gset Uuid) (ev : Value) : gmap Uuid PromptChannelInfo * gset Uuid :=
  let '(meta_map, archived) := acc in
  match field "tags" ev ?> as_array with
  | None => acc
  | Some tags =>
      let '(d_val, name, is_archived) := foldl meta_tag (None, None, false) tags in
      match d_val ?> Uuid_parse with
      | None => acc
      | Some uuid =>
          if (is_archived : bool) then (meta_map, {[uuid]} ∪ archived)
          else (<[uuid := mkInfo (default "unknown" name) (channel_type_from_tags tags)]> meta_map, archived)
      end
  end.

Definition unknown_channel : PromptChannelInfo := mkInfo "unknown" "unknown".

(** One member channel: its metadata leaves the map it is taken from. *)
Definition discover_channel (archived : gset Uuid) (acc : gmap Uuid PromptChannelInfo * gmap Uuid PromptChannelInfo) (uuid : Uuid)
    : gmap Uuid PromptChannelInfo * gmap Uuid PromptChannelInfo :=
  let '(meta_map, out) := acc in
  if bool_decide (uuid ∈ archived) then acc
  else (delete uuid meta_map, <[uuid := default unknown_channel (meta_map !! uuid)]> out).

Definition merge_discovered_channels (channel_uuids : list Uuid) (meta_events : Value) : gmap Uuid PromptChannelInfo :=
  let '(meta_map, archived) := foldl meta_event (∅, ∅) (default [] (as_array meta_events)) in
  (foldl (discover_channel archived) (meta_map, ∅) channel_uuids).2.

(** ** Signals *)

(** [event_mentions_agent] is the mention check of the rules. *)
Definition is_owner_control_command (e : Event) (kind : N) (command agent : string) : bool :=
  (kind =? KIND_STREAM_MESSAGE)%N && String.eqb (trim (ev_content e)) command && event_mentions agent e.

Definition mode_gate_signal (handling : MultipleEventHandling) (author_hex : string) (owner : option string) : option ControlSignal :=
  match handling with
  | HandleQueue => None
  | HandleSteer => Some CS_Steer
  | HandleInterrupt => Some CS_Interrupt
  | HandleOwnerInterrupt => if bool_decide (owner = Some author_hex) then Some CS_Interrupt else None
  end.

(** The first task of a channel, changed by [f]. *)
Fixpoint update_task (c : Uuid) (f : TaskMeta -> TaskMeta) (tasks : list TaskMeta) : list TaskMeta :=
  match tasks with
  | [] => []
  | t :: rest => if bool_decide (task_channel t = Some c) then f t :: rest else t :: update_task c f rest
  end.

Definition find_task (c : Uuid) (tasks : list TaskMeta) : option TaskMeta :=
  List.find (fun t => bool_decide (task_channel t = Some c)) tasks.

Definition signal_in_flight_task (c : Uuid) (b : Bridge) : bool * Bridge :=
  match find_task c (b_tasks b) with
  | Some t =>
      if task_control t
      then (true, set_work (b_queue b) (b_slots b) (update_task c (fun t => mkTask (task_channel t) false (task_steer t)) (b_tasks b)) b)
      else (false, b)
  | None => (false, b)
  end.

Definition send_steer (c : Uuid) (body : string) (b : Bridge) : result SteerError Bridge :=
  match find_task c (b_tasks b) with
  | None => Err PromptCompleted
  | Some t =>
      match task_steer t with
      | None => Err (TransportError "steer_tx not installed")
      | Some SteerFree =>
          Ok (set_work (b_queue b) (b_slots b)
                (update_task c (fun t => mkTask (task_channel t) (task_control t) (Some (SteerFull body))) (b_tasks b)) b)
      | Some (SteerFull _) => Err (TransportError "no available capacity")
      | Some SteerClosed => Err (TransportError "channel closed")
      end
  end.

Definition try_native_steer (now : N) (c : Uuid) (e : Event) (tag : string) (b : Bridge) : bool * Bridge :=
  let '(header, closing) := native_steer_framing in
  let event_id_hex := to_hex (ev_id e) in
  let event_block := format_event_block c None (mkBatchEvent e tag now) None in
  let body := header +:+ nl +:+ nl +:+ "[Buzz event: " +:+ tag +:+ "]" +:+ nl +:+ event_block +:+ nl +:+ nl +:+ closing in
  match send_steer c body b with
  | Ok b => (true, set_bqueue (mark_native_steer_pending c event_id_hex (b_queue b)).2 b)
  | Err _ => (false, b)
  end.

Definition invalidate_channel_sessions (c : Uuid) (slots : Slots) : Slots :=
  (fun slot : option OwnedAgent => (fun a => mkAgent (agent_index a) (delete c (agent_sessions a))) <$> slot) <$> (slots : list (option OwnedAgent)).

(** Handing queued work to idle agents; the turns become tasks. *)
Definition run_dispatch (readings : list (N * N)) (b : Bridge) : Bridge * list Action :=
  match dispatch_pending readings (b_slots b) (b_queue b) with
  | Some (turns, slots, q) =>
      (set_work q slots (b_tasks b ++ ((fun t => mkTask (Some (fb_channel_id (turn_batch t))) true (Some SteerFree)) <$> turns)) b,
       [Dispatched turns])
  | None => (b, [])
  end.

(** ** Membership notifications *)

Definition is_membership (kind : N) : bool :=
  (kind =? KIND_MEMBER_ADDED_NOTIFICATION)%N || (kind =? KIND_MEMBER_REMOVED_NOTIFICATION)%N.

(** Whether the id is new, and the two generations with it. *)
Definition see_membership (eid : string) (b : Bridge) : option Bridge :=
  if bool_decide (eid ∈ b_seen_current b) || bool_decide (eid ∈ b_seen_previous b) then None
  else
    let current := {[eid]} ∪ b_seen_current b in
    Some (if (1000 <=? size current)%nat then set_seen ∅ current b else set_seen current (b_seen_previous b) b).

Definition member_added (cfg : InboundConfig) (subscribe_ok : bool) (ch : Uuid) (ts : N) (b : Bridge) : Bridge * list Action :=
  let b := set_member (b_newest b) (b_subscribed b) (b_removed b ∖ {[ch]}) b in
  if bool_decide (ch ∈ b_subscribed b) then (b, [])
  else
    match resolve_dynamic_channel_filter (ic_subscribe cfg) ch (b_rules b) with
    | Some f => (if subscribe_ok then set_member (b_newest b) ({[ch]} ∪ b_subscribed b) (b_removed b) b else b, [SubscribeSent ch f ts])
    | None => (b, [])
    end.

Definition member_removed (ch : Uuid) (b : Bridge) : Bridge * list Action :=
  let '(drained_ids, q) := drain_channel ch (b_queue b) in
  let b := set_member (b_newest b) (b_subscribed b ∖ {[ch]}) ({[ch]} ∪ b_removed b) b in
  (set_work q (if b_pool_ready b then invalidate_channel_sessions ch (b_slots b) else b_slots b) (b_tasks b) b,
   UnsubscribeSent ch :: (if b_pool_ready b then [SessionsInvalidated ch] else []) ++ match drained_ids with [] => [] | _ => [ReactionsRemoved drained_ids] end).

Definition handle_membership (cfg : InboundConfig) (subscribe_ok : bool) (e : Event) (ch : Uuid) (b : Bridge) : Bridge * list Action :=
  let ts := ev_created_at e in
  match see_membership (to_hex (ev_id e)) b with
  | None => (b, [])
  | Some b =>
      if match b_newest b !! ch with Some newest => (ts <? newest)%N | None => false end then (b, [])
      else
        let b := set_member (<[ch := ts]> (b_newest b)) (b_subscribed b) (b_removed b) b in
        if (ev_kind e =? KIND_MEMBER_ADDED_NOTIFICATION)%N then member_added cfg subscribe_ok ch ts b
        else member_removed ch b
  end.

(** ** Events *)

(** Whether a command of the owner. *)
Definition owner_commands (cfg : InboundConfig) (e : Event) (command : string) : bool :=
  is_owner_control_command e (ev_kind e) command (ic_pubkey_hex cfg) && bool_decide (ic_owner cfg = Some (to_hex (ev_pubkey e))).

(** An accepted event whose channel has a running turn. *)
Definition signal_running (cfg : InboundConfig) (now : N) (ch : Uuid) (e : Event) (tag : string) (b : Bridge) : Bridge * list Action :=
  if negb (is_channel_in_flight ch (b_queue b)) then (b, [])
  else
    match mode_gate_signal (ic_handling cfg) (to_hex (ev_pubkey e)) (ic_owner cfg) with
    | None => (b, [])
    | Some signal =>
        let '(native, b) := match signal with CS_Steer => try_native_steer now ch e tag b | _ => (false, b) end in
        if (native : bool) then (b, [SteerSent ch (to_hex (ev_id e))])
        else
          let '(fired, b) := signal_in_flight_task ch b in
          (b, if (fired : bool) then [SignalSent ch signal] else [])
    end.

(** An event that passed the gates. *)
Definition accept_event (cfg : InboundConfig) (now : N) (readings : list (N * N)) (ch : Uuid) (e : Event) (tag : string) (b : Bridge)
    : Bridge * list Action :=
  let '(q, accepted) := push (mkQueued ch e now tag) (b_queue b) in
  let b := set_bqueue q b in
  let '(b, acts) := if (accepted : bool) then signal_running cfg now ch e tag b else (b, []) in
  let '(b, dispatched) := if b_pool_ready b then run_dispatch readings b else (b, []) in
  (b, (if accepted then [Queued ch e tag] else []) ++ acts ++ dispatched).

(** What one event meets: evaluation times, whether a subscription can be
    sent, the clock, the readings of the dispatch. *)
Record EventEnv := mkEventEnv { ee_timing : nat -> Timing; ee_subscribe_ok : bool; ee_now : N; ee_readings : list (N * N) }.

Definition handle_event (cfg : InboundConfig) (env : EventEnv) (e : Event) (ch : Uuid) (b : Bridge) : Bridge * list Action :=
  if is_membership (ev_kind e) then handle_membership cfg (ee_subscribe_ok env) e ch b
  else
    let author := to_hex (ev_pubkey e) in
    if ic_ignore_self cfg && String.eqb author (ic_pubkey_hex cfg) then (b, [])
    else if owner_commands cfg e "!shutdown" then (b, [ShutdownSent])
    else if owner_commands cfg e "!cancel" then
      let '(fired, b) := signal_in_flight_task ch b in
      (b, if (fired : bool) then [SignalSent ch CS_Cancel] else [])
    else if owner_commands cfg e "!rotate" then
      let '(fired, b) := signal_in_flight_task ch b in
      if (fired : bool) then (b, [SignalSent ch CS_Rotate])
      else (set_work (b_queue b) (invalidate_channel_sessions ch (b_slots b)) (b_tasks b) b, [SessionsInvalidated ch])
    else
      let '(is_dm, b) := is_dm_channel ch b in
      let '(allowed, b) := author_allowed cfg author is_dm b in
      if negb allowed then (b, [])
      else
        let '(matched, rules) := match_event (ee_timing env) e ch (b_rules b) (ic_pubkey_hex cfg) in
        let b := set_rules rules b in
        match matched with
        | None => (b, [])
        | Some m => accept_event cfg (ee_now env) (ee_readings env) ch e (matched_tag m) b
        end.

(** ** Settled steers *)

(** Release, drop, fall back; [None] is a dropped acknowledgement. *)
Definition steer_decision (ack : option SteerAck) : bool * bool * bool :=
  match ack with
  | Some SteerSuccess => (false, true, false)
  | Some (SteerFailed (AgentError code _)) => if (code =? -32601)%Z then (true, false, true) else (true, false, false)
  | Some (SteerFailed _) => (true, false, true)
  | Some PromptCompletedNeutral => (true, false, false)
  | None => (true, false, false)
  end.

Definition handle_steer_ack (cfg : InboundConfig) (env : EventEnv) (c : Uuid) (event_id : string) (ack : option SteerAck) (b : Bridge)
    : Bridge * list Action :=
  let '(release_withheld, drop_withheld, signal_fallback) := steer_decision ack in
  let q := match ack with Some SteerSuccess => extend_in_flight_deadline (ee_now env) c (ic_max_turn_secs cfg) (b_queue b) | _ => b_queue b end in
  let q := if (drop_withheld : bool) then remove_event c event_id q else q in
  let q := if (release_withheld : bool) then release_native_steer c event_id q else q in
  let b := set_bqueue q b in
  let '(fired, b) := if (signal_fallback : bool) then signal_in_flight_task c b else (false, b) in
  let '(b, dispatched) := run_dispatch (ee_readings env) b in
  (b, (if (fired : bool) then [SignalSent c CS_Steer] else []) ++ dispatched).
End inbound.
