(* ===== verification/InboundTheory.v ===== *)
(** * Who reaches an agent

    The author gate over every run of the bridge: whose events are queued for
    an agent, and whose commands are obeyed. *)

From S2P Require Import Prelude Text Nostr Demo Kinds OwnerAttestation GitPerms Sdk SdkTheory EventQueue EventQueueTheory AgentBridge Prompt PromptTheory Json.
From S2P Require Import AcpFilter AcpFilterTheory Inbound.

Section gate.
Context `{NL : NostrLib, EL : EvalLib, SJ : SerdeJson, SC : SchnorrLib, JL : JsonLib, RL : RestLib, QE : QueueEnv, PLB : PromptLib}.

(** ** Ground for trust *)

(** An attestation, signed for [author], whose owner field is [owner] up to
    case. *)
Definition attested (owner author : string) : Prop :=
  exists pk tag parts tag_owner, PublicKey_from_hex author = Some pk /\ as_array tag = Some parts /\
    parts !! 1 ≫= as_str = Some tag_owner /\ eq_ignore_ascii_case tag_owner owner = true /\
    is_ok (verify_auth_tag (json_text tag) pk) = true.

(** The owner, or an agent of the same owner. *)
Definition trusted (cfg : InboundConfig) (author : string) : Prop :=
  exists owner, ic_owner cfg = Some owner /\ (author = owner \/ attested owner author).

Definition siblings_ok (cfg : InboundConfig) (b : Bridge) : Prop :=
  forall a, b_siblings b !! a = Some true -> trusted cfg a.

(** A channel that was resolved, and is not a direct message. *)
Definition known_public (b : Bridge) (ch : Uuid) : Prop :=
  exists info, b_infos b !! ch = Some info /\ channel_type info <> "dm".

(** The part of the state the gate rests on, and how it may change. *)
Definition gate_grows (cfg : InboundConfig) (b b' : Bridge) : Prop :=
  (siblings_ok cfg b -> siblings_ok cfg b') /\ b_infos b ⊆ b_infos b' /\ fresh_rules (b_rules b') = fresh_rules (b_rules b).

Lemma gate_grows_refl cfg b : gate_grows cfg b b.
Proof. split_and!; done. Qed.

Lemma gate_grows_trans cfg b1 b2 b3 : gate_grows cfg b1 b2 -> gate_grows cfg b2 b3 -> gate_grows cfg b1 b3.
Proof. intros (? & ? & ?) (? & ? & ?). split_and!; [auto|by etrans|congruence]. Qed.

(** A change outside the gate. *)
Lemma gate_same cfg b b' :
  b_siblings b' = b_siblings b -> b_infos b' = b_infos b -> b_rules b' = b_rules b -> gate_grows cfg b b'.
Proof. intros H1 H2 H3. split_and!; [unfold siblings_ok; by rewrite H1|by rewrite H2|by rewrite H3]. Qed.

Lemma known_public_grows cfg b b' ch : gate_grows cfg b b' -> known_public b ch -> known_public b' ch.
Proof. intros (_ & Hsub & _) (info & Hi & Hd). exists info. split; [by eapply lookup_weaken|done]. Qed.

(** ** The gate *)

Lemma check_sibling_attested author owner rest r rest' :
  check_sibling_via_profile author owner rest = (r, rest') -> r = true -> attested owner author.
Proof.
  unfold check_sibling_via_profile. destruct (PublicKey_from_hex author) as [pk|] eqn:Epk; [|by intros [= <- _]].
  destruct (rest_query _ _) as [rest1 resp]. intros [= <- _] H.
  destruct (_ ?> as_array) as [tags|]; [|done].
  apply existsb_exists in H as (tag & _ & Ht). unfold tag_attests in Ht. destruct (as_array tag) as [parts|] eqn:Ep; [|done].
  apply andb_true_iff in Ht as [_ Ht]. destruct (parts !! 1 ≫= as_str) as [o|] eqn:Eo; [|done]. apply andb_true_iff in Ht as [Ho Hv].
  by exists pk, tag, parts, o.
Qed.

Lemma owner_or_sibling_ok cfg author b r b' :
  is_owner_or_sibling cfg author b = (r, b') -> gate_grows cfg b b' /\ (siblings_ok cfg b -> r = true -> trusted cfg author).
Proof.
  unfold is_owner_or_sibling. destruct (ic_owner cfg) as [owner|] eqn:Eo; [|intros [= <- <-]; split; [apply gate_grows_refl|done]].
  destruct (String.eqb_spec author owner) as [->|Hne]; [intros [= <- <-]; split; [apply gate_grows_refl|]; intros _ _; by exists owner; auto|].
  destruct (b_siblings b !! author) as [cached|] eqn:Ec.
  { intros [= <- <-]. split; [apply gate_grows_refl|]. intros Hs ->. by apply Hs. }
  destruct (check_sibling_via_profile author owner (b_rest b)) as [ok rest] eqn:Eq. intros [= <- <-].
  assert (ok = true -> trusted cfg author) as Htr.
  { intros ->. exists owner. split; [done|]. right. by eapply check_sibling_attested. }
  split; [|intros _; exact Htr]. split_and!; [|done|done].
  intros Hs a. cbn. unfold cache_sibling. destruct (decide (a = author)) as [->|].
  - rewrite lookup_insert_eq. intros [= ->]. auto.
  - rewrite lookup_insert_ne by done. destruct (256 <=? _)%nat; [by rewrite lookup_empty|apply Hs].
Qed.

(** Who may prompt the agent in a channel. *)
Definition may_prompt (cfg : InboundConfig) (b : Bridge) (ch : Uuid) (author : string) : Prop :=
  ic_respond_to cfg <> Nobody /\
  (trusted cfg author \/
   known_public b ch /\ (ic_respond_to cfg = Anyone \/ ic_respond_to cfg = Allowlist /\ author ∈ ic_allowlist cfg)).

Lemma author_allowed_ok cfg author is_dm b r b' ch :
  author_allowed cfg author is_dm b = (r, b') -> (is_dm = false -> known_public b ch) ->
  gate_grows cfg b b' /\ (siblings_ok cfg b -> r = true -> may_prompt cfg b' ch author).
Proof.
  intros H Hp.
  assert (forall x y, is_owner_or_sibling cfg author b = (x, y) -> ic_respond_to cfg <> Nobody ->
    gate_grows cfg b y /\ (siblings_ok cfg b -> x = true -> may_prompt cfg y ch author)) as Hown.
  { intros x y Hxy Hn. destruct (owner_or_sibling_ok _ _ _ _ _ Hxy) as [Hg Ht]. split; [done|]. intros Hs Hx. split; [done|]. left. auto. }
  unfold author_allowed in H. destruct is_dm.
  - destruct (ic_respond_to cfg) eqn:Er; try (by eapply Hown); injection H as <- <-; (split; [apply gate_grows_refl|done]).
  - specialize (Hp eq_refl). destruct (ic_respond_to cfg) eqn:Er.
    + by eapply Hown.
    + case_bool_decide as Ha; [|by eapply Hown]. injection H as <- <-. split; [apply gate_grows_refl|].
      intros _ _. split; [by rewrite Er|]. right. auto.
    + injection H as <- <-. split; [apply gate_grows_refl|]. intros _ _. split; [by rewrite Er|]. right. auto.
    + injection H as <- <-. split; [apply gate_grows_refl|done].
Qed.

Lemma resolve_gate cfg ch b o b' : resolve_channel ch b = (o, b') -> gate_grows cfg b b'.
Proof.
  unfold resolve_channel. destruct (b_infos b !! ch) as [info|] eqn:Ei; [intros [= <- <-]; apply gate_grows_refl|].
  destruct (fetch_channel_info ch (b_rest b)) as [[info|] rest]; intros [= <- <-]; [|by apply gate_same].
  split_and!; [done| |done]. by apply insert_subseteq.
Qed.

Lemma resolve_known ch b info b' : resolve_channel ch b = (Some info, b') -> b_infos b' !! ch = Some info.
Proof.
  unfold resolve_channel. destruct (b_infos b !! ch) as [i|] eqn:Ei; [by intros [= <- <-]|].
  destruct (fetch_channel_info ch (b_rest b)) as [[i|] rest]; intros [= <- <-]. cbn. by rewrite lookup_insert_eq.
Qed.

Lemma is_dm_ok cfg ch b r b' : is_dm_channel ch b = (r, b') -> gate_grows cfg b b' /\ (r = false -> known_public b' ch).
Proof.
  unfold is_dm_channel. destruct (resolve_channel ch b) as [[info|] b1] eqn:Er; intros [= <- <-].
  - split; [by eapply resolve_gate|]. intros Hd%String.eqb_neq. exists info. split; [by eapply resolve_known|done].
  - split; [by eapply resolve_gate|done].
Qed.

(** ** One event *)

Lemma signal_task_gate cfg c b r b' : signal_in_flight_task c b = (r, b') -> gate_grows cfg b b'.
Proof. unfold signal_in_flight_task. destruct (find_task _ _) as [t|]; [destruct (task_control t)|]; intros [= <- <-]; by apply gate_same. Qed.

Lemma run_dispatch_gate cfg readings b b' acts :
  run_dispatch readings b = (b', acts) -> gate_grows cfg b b' /\ Forall (fun a => exists turns, a = Dispatched turns) acts.
Proof.
  unfold run_dispatch. destruct (dispatch_pending _ _ _) as [[[turns slots] q]|]; intros [= <- <-]; (split; [by apply gate_same|]); repeat constructor. eauto.
Qed.

Lemma try_steer_gate cfg now c e tag b r b' : try_native_steer now c e tag b = (r, b') -> gate_grows cfg b b'.
Proof.
  unfold try_native_steer, send_steer. destruct native_steer_framing as [h cl].
  destruct (find_task _ _) as [t|]; [destruct (task_steer t) as [[]|]|]; intros [= <- <-]; by apply gate_same.
Qed.

(** Actions on a running turn that no owner asked for. *)
Definition mid_turn (ch : Uuid) (a : Action) : Prop :=
  (exists id, a = SteerSent ch id) \/ a = SignalSent ch CS_Steer \/ a = SignalSent ch CS_Interrupt \/ (exists turns, a = Dispatched turns).

Lemma signal_running_gate cfg now ch e tag b b' acts :
  signal_running cfg now ch e tag b = (b', acts) -> gate_grows cfg b b' /\ Forall (mid_turn ch) acts.
Proof.
  unfold signal_running. destruct (negb _); [intros [= <- <-]; split; [apply gate_grows_refl|constructor]|].
  destruct (mode_gate_signal _ _ _) as [signal|] eqn:Em; [|intros [= <- <-]; split; [apply gate_grows_refl|constructor]].
  assert (signal = CS_Steer \/ signal = CS_Interrupt) as Hsig.
  { unfold mode_gate_signal in Em. destruct (ic_handling cfg); try case_bool_decide; simplify_eq; auto. }
  destruct (match signal with CS_Steer => _ | _ => _ end) as [native b1] eqn:En.
  assert (gate_grows cfg b b1) as Hg1.
  { destruct Hsig as [->| ->]; [by eapply try_steer_gate|]. injection En as <- <-. apply gate_grows_refl. }
  destruct native; [intros [= <- <-]; split; [done|]; constructor; [left; eauto|constructor]|].
  destruct (signal_in_flight_task ch b1) as [fired b2] eqn:Es. intros [= <- <-].
  split; [eapply gate_grows_trans; [exact Hg1|by eapply signal_task_gate]|].
  destruct fired; [|constructor]. constructor; [|constructor]. unfold mid_turn. destruct Hsig as [->| ->]; auto.
Qed.

(** The promise about one event, [b] being the state after it. *)
Definition event_ok (cfg : InboundConfig) (b : Bridge) (e : Event) (ch : Uuid) (acts : list Action) : Prop :=
  let author := to_hex (ev_pubkey e) in
  (forall c x tag, Queued c x tag ∈ acts ->
     c = ch /\ x = e /\ is_membership (ev_kind e) = false /\ (ic_ignore_self cfg = true -> author <> ic_pubkey_hex cfg) /\
     may_prompt cfg b ch author /\ exists r, r ∈ fresh_rules (b_rules b) /\ passes_checks e ch (ic_pubkey_hex cfg) r = true) /\
  (ShutdownSent ∈ acts \/ (exists c, SignalSent c CS_Cancel ∈ acts \/ SignalSent c CS_Rotate ∈ acts) ->
     ic_owner cfg = Some author /\ event_mentions (ic_pubkey_hex cfg) e = true /\ ev_kind e = KIND_STREAM_MESSAGE).

Lemma accept_event_ok cfg now readings ch e tag b b' acts :
  accept_event cfg now readings ch e tag b = (b', acts) ->
  gate_grows cfg b b' /\ Forall (fun a => a = Queued ch e tag \/ mid_turn ch a) acts.
Proof.
  unfold accept_event. destruct (push _ _) as [q accepted].
  destruct (if accepted then _ else _) as [b1 acts1] eqn:E1.
  assert (gate_grows cfg b b1 /\ Forall (mid_turn ch) acts1) as [Hg1 Ha1].
  { destruct accepted; [apply (signal_running_gate cfg) in E1 as [H1 H2]|injection E1 as <- <-; split; [by apply gate_same|constructor]].
    split; [|done]. eapply gate_grows_trans; [|exact H1]. by apply gate_same. }
  destruct (if b_pool_ready b1 then _ else _) as [b2 acts2] eqn:E2.
  assert (gate_grows cfg b1 b2 /\ Forall (mid_turn ch) acts2) as [Hg2 Ha2].
  { destruct (b_pool_ready b1); [apply (run_dispatch_gate cfg) in E2 as [H1 H2]|injection E2 as <- <-; split; [apply gate_grows_refl|constructor]].
    split; [done|]. eapply Forall_impl; [exact H2|]. intros a [turns ->]. unfold mid_turn. eauto. }
  intros [= <- <-]. split; [by eapply gate_grows_trans|]. rewrite !Forall_app. split_and!.
  - destruct accepted; [constructor; [by left|constructor]|constructor].
  - eapply Forall_impl; [exact Ha1|]. auto.
  - eapply Forall_impl; [exact Ha2|]. auto.
Qed.

Lemma mid_turn_plain ch a : mid_turn ch a -> a <> ShutdownSent /\ (forall c x t, a <> Queued c x t) /\ (forall c, a <> SignalSent c CS_Cancel /\ a <> SignalSent c CS_Rotate).
Proof. intros [[id ->]|[->|[->|[t ->]]]]; done. Qed.

Lemma handle_membership_ok cfg ok e ch b b' acts :
  handle_membership cfg ok e ch b = (b', acts) ->
  gate_grows cfg b b' /\ Forall (fun a => a <> ShutdownSent /\ (forall c x t, a <> Queued c x t) /\ (forall c s, a <> SignalSent c s)) acts.
Proof.
  unfold handle_membership, see_membership. destruct (_ || _); [intros [= <- <-]; split; [apply gate_grows_refl|constructor]|].
  set (b1 := if (1000 <=? _)%nat then _ else _).
  assert (gate_grows cfg b b1) as Hg1 by (unfold b1; destruct (1000 <=? _)%nat; by apply gate_same). clearbody b1.
  destruct (match b_newest b1 !! ch with Some _ => _ | None => _ end); [intros [= <- <-]; by split; [|constructor]|].
  intros H. enough (gate_grows cfg b1 b' /\ Forall (fun a => a <> ShutdownSent /\ (forall c x t, a <> Queued c x t) /\ (forall c s, a <> SignalSent c s)) acts) as [Hg2 Ha]
    by (split; [by eapply gate_grows_trans|done]).
  revert H. destruct (_ =? _)%N; [unfold member_added|unfold member_removed].
  - case_bool_decide; [intros [= <- <-]; split; [by apply gate_same|constructor]|].
    destruct (resolve_dynamic_channel_filter _ _ _) as [f|]; intros [= <- <-]; (split; [|by repeat constructor]); try destruct ok; by apply gate_same.
  - destruct (drain_channel ch _) as [ids q]. intros [= <- <-]. split; [by apply gate_same|].
    cbn. destruct (b_pool_ready b1), ids; repeat constructor; done.
Qed.

Lemma owner_commands_ok cfg e command :
  owner_commands cfg e command = true ->
  ic_owner cfg = Some (to_hex (ev_pubkey e)) /\ event_mentions (ic_pubkey_hex cfg) e = true /\ ev_kind e = KIND_STREAM_MESSAGE.
Proof.
  unfold owner_commands, is_owner_control_command. intros [[[Hk%N.eqb_eq _]%andb_true_iff Hm]%andb_true_iff Ho%bool_decide_eq_true]%andb_true_iff. done.
Qed.

(** Nothing queued and nothing commanded. *)
Lemma event_ok_quiet cfg b e ch acts :
  Forall (fun a => a <> ShutdownSent /\ (forall c x t, a <> Queued c x t) /\ (forall c, a <> SignalSent c CS_Cancel /\ a <> SignalSent c CS_Rotate)) acts ->
  event_ok cfg b e ch acts.
Proof.
  rewrite Forall_forall. intros H. split.
  - intros c x t Hin. destruct (H _ Hin) as (_ & Hq & _). by destruct (Hq c x t).
  - intros [Hin|[c [Hin|Hin]]]; destruct (H _ Hin) as (H1 & _ & H3); [done| |]; by destruct (H3 c).
Qed.

(** A command of the owner. *)
Lemma event_ok_owner cfg b e ch acts command :
  owner_commands cfg e command = true -> Forall (fun a => forall c x t, a <> Queued c x t) acts -> event_ok cfg b e ch acts.
Proof.
  rewrite Forall_forall. intros Ho H. split; [|intros _; by eapply owner_commands_ok].
  intros c x t Hin. by destruct (H _ Hin c x t).
Qed.

Lemma handle_event_ok cfg env e ch b b' acts :
  siblings_ok cfg b -> handle_event cfg env e ch b = (b', acts) -> gate_grows cfg b b' /\ event_ok cfg b' e ch acts.
Proof.
  intros Hs. unfold handle_event. destruct (is_membership (ev_kind e)) eqn:Emem.
  { intros H. destruct (handle_membership_ok _ _ _ _ _ _ _ H) as [Hg Ha]. split; [done|]. apply event_ok_quiet.
    eapply Forall_impl; [exact Ha|]. intros a (H1 & H2 & H3). split_and!; auto. }
  destruct (_ && _) eqn:Eself; [intros [= <- <-]; split; [apply gate_grows_refl|apply event_ok_quiet; constructor]|].
  destruct (owner_commands cfg e "!shutdown") eqn:E1; [intros [= <- <-]; split; [apply gate_grows_refl|eapply event_ok_owner; [exact E1|by repeat constructor]]|].
  destruct (owner_commands cfg e "!cancel") eqn:E2.
  { destruct (signal_in_flight_task ch b) as [fired b1] eqn:Et. intros [= <- <-]. split; [by eapply signal_task_gate|].
    eapply event_ok_owner; [exact E2|]. destruct fired; by repeat constructor. }
  destruct (owner_commands cfg e "!rotate") eqn:E3.
  { destruct (signal_in_flight_task ch b) as [fired b1] eqn:Et. pose proof (signal_task_gate cfg _ _ _ _ Et) as Hg.
    destruct fired; intros [= <- <-]; (split; [|eapply event_ok_owner; [exact E3|by repeat constructor]]); [done|].
    eapply gate_grows_trans; [exact Hg|]. by apply gate_same. }
  destruct (is_dm_channel ch b) as [is_dm b1] eqn:Ed. destruct (is_dm_ok cfg _ _ _ _ Ed) as [Hg1 Hp1].
  destruct (author_allowed cfg _ is_dm b1) as [allowed b2] eqn:Ea.
  destruct (author_allowed_ok _ _ _ _ _ _ ch Ea Hp1) as [Hg2 Hmay].
  assert (gate_grows cfg b b2) as Hg by (by eapply gate_grows_trans).
  destruct allowed; cbn [negb]; [|intros [= <- <-]; split; [done|apply event_ok_quiet; constructor]].
  specialize (Hmay (proj1 Hg1 Hs) eq_refl).
  destruct (match_event _ _ _ _ _) as [m rules] eqn:Em. pose proof Em as Em'. unfold match_event in Em'.
  destruct (match_rules_counters _ _ _ _ _ _ _ _ Em') as [Hfresh _].
  assert (gate_grows cfg b2 (set_rules rules b2)) as Hg3 by (split_and!; [done|done|exact Hfresh]).
  destruct m as [m|]; [|intros [= <- <-]; split; [by eapply gate_grows_trans|apply event_ok_quiet; constructor]].
  intros H. destruct (accept_event_ok _ _ _ _ _ _ _ _ _ H) as [Hg4 Hacts].
  assert (gate_grows cfg b2 b') as Hg5 by (by eapply gate_grows_trans). split; [by eapply gate_grows_trans|].
  rewrite Forall_forall in Hacts. split.
  - intros c x t Hin. destruct (Hacts _ Hin) as [[= -> -> ->]|Hmid]; [|by apply mid_turn_plain in Hmid as (_ & Hq & _); destruct (Hq c x t)].
    split_and!; [done|done|done| |..].
    + intros Hi. rewrite Hi in Eself. cbn in Eself. by apply String.eqb_neq.
    + destruct Hmay as [Hn Hor]. split; [done|]. destruct Hor as [?|[Hk ?]]; [by left|right]. split; [|done]. by eapply known_public_grows.
    + destruct (match_rules_passes _ _ _ _ _ _ _ _ Em') as (r & Hr & Hpass). exists (set_timeouts 0 r). split; [|done].
      destruct Hg5 as (_ & _ & ->). by apply list_elem_of_fmap_2.
  - intros [Hin|[c [Hin|Hin]]]; (destruct (Hacts _ Hin) as [?|Hmid]; [done|]); apply mid_turn_plain in Hmid as (H1 & _ & H3); [done|by destruct (H3 c)..].
Qed.

(** ** Runs *)

Lemma event_ok_grows cfg b b' e ch acts : gate_grows cfg b b' -> event_ok cfg b e ch acts -> event_ok cfg b' e ch acts.
Proof.
  intros Hg [Hq Hc]. split; [|done]. intros c x t Hin. destruct (Hq c x t Hin) as (-> & -> & ? & ? & [Hn Hor] & r & Hr & ?).
  split_and!; [done..| |].
  - split; [done|]. destruct Hor as [?|[Hk ?]]; [by left|right]. split; [by eapply known_public_grows|done].
  - exists r. destruct Hg as (_ & _ & ->). done.
Qed.

(** Settling a steer. *)
Definition settle_action (a : Action) : Prop := (exists c, a = SignalSent c CS_Steer) \/ (exists turns, a = Dispatched turns).

Lemma steer_ack_gate cfg env c id ack b b' acts :
  handle_steer_ack cfg env c id ack b = (b', acts) -> gate_grows cfg b b' /\ Forall settle_action acts.
Proof.
  unfold handle_steer_ack. destruct (steer_decision ack) as [[rel drop] fb]. set (b1 := set_bqueue _ b).
  assert (gate_grows cfg b b1) as Hg1 by (by apply gate_same). clearbody b1.
  destruct (if fb then _ else _) as [fired b2] eqn:Ef.
  assert (gate_grows cfg b1 b2) as Hg2.
  { destruct fb; [by eapply signal_task_gate|]. injection Ef as <- <-. apply gate_grows_refl. }
  destruct (run_dispatch _ b2) as [b3 acts3] eqn:Ed. destruct (run_dispatch_gate cfg _ _ _ _ Ed) as [Hg3 Ha].
  intros [= <- <-]. split; [by do 2 (eapply gate_grows_trans; [eassumption|])|].
  apply Forall_app. split.
  - destruct fired; constructor; [|constructor]. left. eauto.
  - eapply Forall_impl; [exact Ha|]. intros a ?. by right.
Qed.

(** What the main loop has handled. *)
Inductive Handled :=
| EventArm (e : Event) (ch : Uuid) (acts : list Action)
| SteerArm (acts : list Action).

(** The bridge's runs: it starts with no sibling known; events and settled
    steers interleave with the lookups of the prompts and with the arms that
    only move work. *)
Inductive bridge_run (cfg : InboundConfig) : Bridge -> list Handled -> Prop :=
| run_start b : b_siblings b = ∅ -> bridge_run cfg b []
| run_event env e ch b b' acts hist :
    bridge_run cfg b hist -> handle_event cfg env e ch b = (b', acts) -> bridge_run cfg b' (EventArm e ch acts :: hist)
| run_steer env c id ack b b' acts hist :
    bridge_run cfg b hist -> handle_steer_ack cfg env c id ack b = (b', acts) -> bridge_run cfg b' (SteerArm acts :: hist)
| run_lookup ch b hist : bridge_run cfg b hist -> bridge_run cfg (resolve_channel ch b).2 hist
| run_work q slots tasks b hist : bridge_run cfg b hist -> bridge_run cfg (set_work q slots tasks b) hist.

Definition handled_ok (cfg : InboundConfig) (b : Bridge) (h : Handled) : Prop :=
  match h with
  | EventArm e ch acts => event_ok cfg b e ch acts
  | SteerArm acts => Forall settle_action acts
  end.

Lemma handled_ok_grows cfg b b' h : gate_grows cfg b b' -> handled_ok cfg b h -> handled_ok cfg b' h.
Proof. intros Hg. destruct h; [by apply event_ok_grows|done]. Qed.

End gate.

(** ** Witness *)

Import RuleDemo.

Module GateDemo.
(** Arrays of strings are written as the attestations are read. *)
#[export] Instance tag_json : JsonLib := {|
  from_str _ := None;
  json_text v := match as_array v ≫= mapM as_str with Some l => String "@" (bits (encode l)) | None => "other" end;
|}.

Definition auth_tag : Value :=
  VArray [VString "auth"; VString "key-owner"; VString EmptyString;
          VString ("key-owner" +:+ hash_preimage (NL:=sdk_nostr) (build_preimage "a1" EmptyString))].

(** Profiles of [a1] carry the attestation; every channel is hidden. *)
#[export] Instance demo_rest : RestLib := {|
  Rest := nat;
  rest_query n f :=
    (S n, Some (VArray (if bool_decide (f_kinds f = Some [0%N])
                        then (if bool_decide (f_authors f = Some ["a1"]) then [VObject [("tags", VArray [auth_tag])]] else [])
                        else [VObject [("tags", VArray [VArray [VString "hidden"]])]])));
|}.

Definition cfg : InboundConfig := mkInboundConfig "agent" (Some "key-owner") true Anyone ∅ HandleSteer config_mode 60.
Definition started : Bridge := mkBridge [gated] ∅ ∅ (0%nat : Rest) ∅ ∅ ∅ ∅ ∅ (new Queue) [] [] true.
Definition env : EventEnv := mkEventEnv (fun _ => OnTime) true 10 [].

Definition from_sibling : Event := demo_event "s" "a1" 5 9 [["p"; "agent"]].
Definition from_stranger : Event := demo_event "m" "mallory" 6 9 [["p"; "agent"]].
Definition shutdown : Event := mkEvent "q" "key-owner" 7 9 [["p"; "agent"]] "!shutdown" "sig".
Definition false_shutdown : Event := mkEvent "f" "mallory" 8 9 [["p"; "agent"]] "!shutdown" "sig".

Definition inputs : list Event := [from_sibling; from_stranger; false_shutdown; shutdown].

Fixpoint handle_all `{SC : SchnorrLib} (es : list Event) (b : Bridge) (hist : list Handled) : Bridge * list Handled :=
  match es with
  | [] => (b, hist)
  | e :: es => let '(b', acts) := handle_event (NL:=sdk_nostr) cfg env e 3%N b in handle_all es b' (EventArm e 3%N acts :: hist)
  end.

Lemma handle_all_run es b hist : bridge_run (NL:=sdk_nostr) cfg b hist -> uncurry (bridge_run (NL:=sdk_nostr) cfg) (handle_all es b hist).
Proof.
  revert b hist. induction es as [|e es IH]; intros b hist H; cbn; [done|].
  destruct (handle_event cfg env e 3%N b) as [b' acts] eqn:E. apply IH. eapply run_event; [exact H|exact E].
Qed.
End GateDemo.

Import GateDemo.

