(* ===== verification/RelayLink.v ===== *)
(** * The bridge's connection to the relay

    The background task of [buzz-acp/src/relay.rs] that owns the WebSocket: its
    state, the commands of the harness, the messages of the relay, the rate
    limit gate, resubscription and reconnection, and the main loop.

    The outside (socket, channels, clocks) is the class [LinkWorld]; every
    effect is recorded in a log.  Loops that the outside may prolong without end
    take fuel, and stop where it runs out. *)

From S2P Require Import Prelude Text Nostr Demo Kinds EventQueue Json AcpFilter.

(** ** Data *)

Definition SEEN_ID_LIMIT : N := 12000.
Definition PONG_TIMEOUT : N := from_secs 10.
Definition STABLE_CONNECTION_SECS : N := 60.
Definition SINCE_SKEW_SECS : N := 5.
Definition AUTH_TIMEOUT : N := from_secs 20.
Definition STARTUP_CONNECT_BACKOFFS : list N := from_secs <$> [1; 2; 4; 8; 16]%N.
Definition DNS_RETRY_INTERVAL : N := from_secs 2.
Definition REQ_PACING_INTERVAL : N := 125000000.
Definition DRAIN_BUDGET_PER_ITER : nat := 1.
Definition GATED_OBSERVER_QUEUE_CAP : N := 256.
Definition MEMBERSHIP_NOTIF_SUB_ID : string := "membership-notif".
Definition OBSERVER_CONTROL_SUB_ID : string := "agent-observer-control".

Record BuzzEvent := mkBuzz { bz_channel_id : Uuid; bz_event : Event }.

(** The errors of the WebSocket library that the code tells apart. *)
Inductive WsError :=
| WsUrl | WsCapacity | WsUtf8 | WsHttpFormat | WsAttackAttempt
| WsHttp (status : N)
| WsProtocol (transient : bool)
| WsIo (deterministic_tls : bool)
| WsConnectionClosed | WsTls | WsAlreadyClosed | WsWriteBufferFull.

Inductive RelayError :=
| WebSocket (e : WsError)
| JsonError (e : string)
| AuthFailed (message : string)
| NoAuthChallenge
| ConnectionClosed
| Timeout
| Http (message : string)
| UnexpectedMessage (message : string).

Inductive RelayMessage :=
| RelayEvent (subscription_id : string) (event : Event)
| RelayOk (event_id : string) (accepted : bool) (message : string)
| RelayEose (subscription_id : string)
| RelayClosed (subscription_id message : string)
| RelayNotice (message : string)
| RelayAuth (challenge : string).

Inductive RelayCommand :=
| Subscribe (channel_id : Uuid) (filter : ChannelFilter) (replay_since : option N)
| Unsubscribe (channel_id : Uuid)
| Reconnect
| Shutdown
| SubscribeMembership
| SubscribeObserverControls
| PublishEvent (event : Event)
| SetStartupWatermark (ts : N).

(** A message read from the socket. *)
Inductive Message := MText (text : string) | MPing (data : string) | MPong | MClose | MOther.

(** A message written to it. *)
Inductive Frame := FJson (v : Value) | FPing | FPong (data : string) | FClose.

(** *** [TwoGenDedup] *)

Record TwoGenDedup := mkDedup { current : gset string; previous : gset string; limit : N }.

Definition dedup_new (limit : N) : TwoGenDedup := mkDedup ∅ ∅ limit.

Definition dedup_contains (id : string) (d : TwoGenDedup) : bool :=
  bool_decide (id ∈ current d) || bool_decide (id ∈ previous d).

Definition dedup_insert (id : string) (d : TwoGenDedup) : bool * TwoGenDedup :=
  if dedup_contains id d then (false, d)
  else
    let current := {[id]} ∪ current d in
    (true, if (limit d / 2 <=? N.of_nat (size current))%N then mkDedup ∅ current (limit d) else mkDedup current (previous d) (limit d)).

Definition dedup_remove (id : string) (d : TwoGenDedup) : TwoGenDedup :=
  mkDedup (current d ∖ {[id]}) (previous d ∖ {[id]}) (limit d).

(** *** [BgState] *)

Record BgState := mkBg {
  active_subscriptions : gmap Uuid string;
  last_seen : gmap Uuid N;
  seen_ids : TwoGenDedup;
  active_filters : gmap Uuid ChannelFilter;
  membership_dropped_since : option N;
  membership_last_seen : option N;
  membership_sub_active : bool;
  observer_control_sub_active : bool;
  channel_dropped_since : gmap Uuid N;
  proactive_resubscribe_needed : bool;
  startup_watermark : option N;
  subscribe_since : gmap Uuid N;
  rate_limit_gate : option N;
  rate_limited_pending : gmap Uuid N;
  membership_resub_needed : bool;
  observer_resub_needed : bool;
  gated_observer_pending : list Event;
  observer_in_flight : list Event;
  gated_observer_dropped : N;
  resubscribe_retry : gset Uuid;
  backoff_step : nat;
}.

Definition put_active_subscriptions x s := mkBg x (last_seen s) (seen_ids s) (active_filters s) (membership_dropped_since s) (membership_last_seen s)
  (membership_sub_active s) (observer_control_sub_active s) (channel_dropped_since s) (proactive_resubscribe_needed s) (startup_watermark s)
  (subscribe_since s) (rate_limit_gate s) (rate_limited_pending s) (membership_resub_needed s) (observer_resub_needed s) (gated_observer_pending s)
  (observer_in_flight s) (gated_observer_dropped s) (resubscribe_retry s) (backoff_step s).
Definition put_last_seen x s := mkBg (active_subscriptions s) x (seen_ids s) (active_filters s) (membership_dropped_since s) (membership_last_seen s)
  (membership_sub_active s) (observer_control_sub_active s) (channel_dropped_since s) (proactive_resubscribe_needed s) (startup_watermark s)
  (subscribe_since s) (rate_limit_gate s) (rate_limited_pending s) (membership_resub_needed s) (observer_resub_needed s) (gated_observer_pending s)
  (observer_in_flight s) (gated_observer_dropped s) (resubscribe_retry s) (backoff_step s).
Definition put_seen_ids x s := mkBg (active_subscriptions s) (last_seen s) x (active_filters s) (membership_dropped_since s) (membership_last_seen s)
  (membership_sub_active s) (observer_control_sub_active s) (channel_dropped_since s) (proactive_resubscribe_needed s) (startup_watermark s)
  (subscribe_since s) (rate_limit_gate s) (rate_limited_pending s) (membership_resub_needed s) (observer_resub_needed s) (gated_observer_pending s)
  (observer_in_flight s) (gated_observer_dropped s) (resubscribe_retry s) (backoff_step s).
Definition put_active_filters x s := mkBg (active_subscriptions s) (last_seen s) (seen_ids s) x (membership_dropped_since s) (membership_last_seen s)
  (membership_sub_active s) (observer_control_sub_active s) (channel_dropped_since s) (proactive_resubscribe_needed s) (startup_watermark s)
  (subscribe_since s) (rate_limit_gate s) (rate_limited_pending s) (membership_resub_needed s) (observer_resub_needed s) (gated_observer_pending s)
  (observer_in_flight s) (gated_observer_dropped s) (resubscribe_retry s) (backoff_step s).
Definition put_membership_dropped_since x s := mkBg (active_subscriptions s) (last_seen s) (seen_ids s) (active_filters s) x (membership_last_seen s)
  (membership_sub_active s) (observer_control_sub_active s) (channel_dropped_since s) (proactive_resubscribe_needed s) (startup_watermark s)
  (subscribe_since s) (rate_limit_gate s) (rate_limited_pending s) (membership_resub_needed s) (observer_resub_needed s) (gated_observer_pending s)
  (observer_in_flight s) (gated_observer_dropped s) (resubscribe_retry s) (backoff_step s).
Definition put_membership_last_seen x s := mkBg (active_subscriptions s) (last_seen s) (seen_ids s) (active_filters s) (membership_dropped_since s) x
  (membership_sub_active s) (observer_control_sub_active s) (channel_dropped_since s) (proactive_resubscribe_needed s) (startup_watermark s)
  (subscribe_since s) (rate_limit_gate s) (rate_limited_pending s) (membership_resub_needed s) (observer_resub_needed s) (gated_observer_pending s)
  (observer_in_flight s) (gated_observer_dropped s) (resubscribe_retry s) (backoff_step s).
Definition put_membership_sub_active x s := mkBg (active_subscriptions s) (last_seen s) (seen_ids s) (active_filters s) (membership_dropped_since s)
  (membership_last_seen s) x (observer_control_sub_active s) (channel_dropped_since s) (proactive_resubscribe_needed s) (startup_watermark s)
  (subscribe_since s) (rate_limit_gate s) (rate_limited_pending s) (membership_resub_needed s) (observer_resub_needed s) (gated_observer_pending s)
  (observer_in_flight s) (gated_observer_dropped s) (resubscribe_retry s) (backoff_step s).
Definition put_observer_control_sub_active x s := mkBg (active_subscriptions s) (last_seen s) (seen_ids s) (active_filters s)
  (membership_dropped_since s) (membership_last_seen s) (membership_sub_active s) x (channel_dropped_since s) (proactive_resubscribe_needed s)
  (startup_watermark s) (subscribe_since s) (rate_limit_gate s) (rate_limited_pending s) (membership_resub_needed s) (observer_resub_needed s)
  (gated_observer_pending s) (observer_in_flight s) (gated_observer_dropped s) (resubscribe_retry s) (backoff_step s).
Definition put_channel_dropped_since x s := mkBg (active_subscriptions s) (last_seen s) (seen_ids s) (active_filters s) (membership_dropped_since s)
  (membership_last_seen s) (membership_sub_active s) (observer_control_sub_active s) x (proactive_resubscribe_needed s) (startup_watermark s)
  (subscribe_since s) (rate_limit_gate s) (rate_limited_pending s) (membership_resub_needed s) (observer_resub_needed s) (gated_observer_pending s)
  (observer_in_flight s) (gated_observer_dropped s) (resubscribe_retry s) (backoff_step s).
Definition put_proactive_resubscribe_needed x s := mkBg (active_subscriptions s) (last_seen s) (seen_ids s) (active_filters s)
  (membership_dropped_since s) (membership_last_seen s) (membership_sub_active s) (observer_control_sub_active s) (channel_dropped_since s) x
  (startup_watermark s) (subscribe_since s) (rate_limit_gate s) (rate_limited_pending s) (membership_resub_needed s) (observer_resub_needed s)
  (gated_observer_pending s) (observer_in_flight s) (gated_observer_dropped s) (resubscribe_retry s) (backoff_step s).
Definition put_startup_watermark x s := mkBg (active_subscriptions s) (last_seen s) (seen_ids s) (active_filters s) (membership_dropped_since s)
  (membership_last_seen s) (membership_sub_active s) (observer_control_sub_active s) (channel_dropped_since s) (proactive_resubscribe_needed s) x
  (subscribe_since s) (rate_limit_gate s) (rate_limited_pending s) (membership_resub_needed s) (observer_resub_needed s) (gated_observer_pending s)
  (observer_in_flight s) (gated_observer_dropped s) (resubscribe_retry s) (backoff_step s).
Definition put_subscribe_since x s := mkBg (active_subscriptions s) (last_seen s) (seen_ids s) (active_filters s) (membership_dropped_since s)
  (membership_last_seen s) (membership_sub_active s) (observer_control_sub_active s) (channel_dropped_since s) (proactive_resubscribe_needed s)
  (startup_watermark s) x (rate_limit_gate s) (rate_limited_pending s) (membership_resub_needed s) (observer_resub_needed s) (gated_observer_pending
  s) (observer_in_flight s) (gated_observer_dropped s) (resubscribe_retry s) (backoff_step s).
Definition put_rate_limit_gate x s := mkBg (active_subscriptions s) (last_seen s) (seen_ids s) (active_filters s) (membership_dropped_since s)
  (membership_last_seen s) (membership_sub_active s) (observer_control_sub_active s) (channel_dropped_since s) (proactive_resubscribe_needed s)
  (startup_watermark s) (subscribe_since s) x (rate_limited_pending s) (membership_resub_needed s) (observer_resub_needed s) (gated_observer_pending
  s) (observer_in_flight s) (gated_observer_dropped s) (resubscribe_retry s) (backoff_step s).
Definition put_rate_limited_pending x s := mkBg (active_subscriptions s) (last_seen s) (seen_ids s) (active_filters s) (membership_dropped_since s)
  (membership_last_seen s) (membership_sub_active s) (observer_control_sub_active s) (channel_dropped_since s) (proactive_resubscribe_needed s)
  (startup_watermark s) (subscribe_since s) (rate_limit_gate s) x (membership_resub_needed s) (observer_resub_needed s) (gated_observer_pending s)
  (observer_in_flight s) (gated_observer_dropped s) (resubscribe_retry s) (backoff_step s).
Definition put_membership_resub_needed x s := mkBg (active_subscriptions s) (last_seen s) (seen_ids s) (active_filters s) (membership_dropped_since s)
  (membership_last_seen s) (membership_sub_active s) (observer_control_sub_active s) (channel_dropped_since s) (proactive_resubscribe_needed s)
  (startup_watermark s) (subscribe_since s) (rate_limit_gate s) (rate_limited_pending s) x (observer_resub_needed s) (gated_observer_pending s)
  (observer_in_flight s) (gated_observer_dropped s) (resubscribe_retry s) (backoff_step s).
Definition put_observer_resub_needed x s := mkBg (active_subscriptions s) (last_seen s) (seen_ids s) (active_filters s) (membership_dropped_since s)
  (membership_last_seen s) (membership_sub_active s) (observer_control_sub_active s) (channel_dropped_since s) (proactive_resubscribe_needed s)
  (startup_watermark s) (subscribe_since s) (rate_limit_gate s) (rate_limited_pending s) (membership_resub_needed s) x (gated_observer_pending s)
  (observer_in_flight s) (gated_observer_dropped s) (resubscribe_retry s) (backoff_step s).
Definition put_gated_observer_pending x s := mkBg (active_subscriptions s) (last_seen s) (seen_ids s) (active_filters s) (membership_dropped_since s)
  (membership_last_seen s) (membership_sub_active s) (observer_control_sub_active s) (channel_dropped_since s) (proactive_resubscribe_needed s)
  (startup_watermark s) (subscribe_since s) (rate_limit_gate s) (rate_limited_pending s) (membership_resub_needed s) (observer_resub_needed s) x
  (observer_in_flight s) (gated_observer_dropped s) (resubscribe_retry s) (backoff_step s).
Definition put_observer_in_flight x s := mkBg (active_subscriptions s) (last_seen s) (seen_ids s) (active_filters s) (membership_dropped_since s)
  (membership_last_seen s) (membership_sub_active s) (observer_control_sub_active s) (channel_dropped_since s) (proactive_resubscribe_needed s)
  (startup_watermark s) (subscribe_since s) (rate_limit_gate s) (rate_limited_pending s) (membership_resub_needed s) (observer_resub_needed s)
  (gated_observer_pending s) x (gated_observer_dropped s) (resubscribe_retry s) (backoff_step s).
Definition put_gated_observer_dropped x s := mkBg (active_subscriptions s) (last_seen s) (seen_ids s) (active_filters s) (membership_dropped_since s)
  (membership_last_seen s) (membership_sub_active s) (observer_control_sub_active s) (channel_dropped_since s) (proactive_resubscribe_needed s)
  (startup_watermark s) (subscribe_since s) (rate_limit_gate s) (rate_limited_pending s) (membership_resub_needed s) (observer_resub_needed s)
  (gated_observer_pending s) (observer_in_flight s) x (resubscribe_retry s) (backoff_step s).
Definition put_resubscribe_retry x s := mkBg (active_subscriptions s) (last_seen s) (seen_ids s) (active_filters s) (membership_dropped_since s)
  (membership_last_seen s) (membership_sub_active s) (observer_control_sub_active s) (channel_dropped_since s) (proactive_resubscribe_needed s)
  (startup_watermark s) (subscribe_since s) (rate_limit_gate s) (rate_limited_pending s) (membership_resub_needed s) (observer_resub_needed s)
  (gated_observer_pending s) (observer_in_flight s) (gated_observer_dropped s) x (backoff_step s).
Definition put_backoff_step x s := mkBg (active_subscriptions s) (last_seen s) (seen_ids s) (active_filters s) (membership_dropped_since s)
  (membership_last_seen s) (membership_sub_active s) (observer_control_sub_active s) (channel_dropped_since s) (proactive_resubscribe_needed s)
  (startup_watermark s) (subscribe_since s) (rate_limit_gate s) (rate_limited_pending s) (membership_resub_needed s) (observer_resub_needed s)
  (gated_observer_pending s) (observer_in_flight s) (gated_observer_dropped s) (resubscribe_retry s) x.

Definition bg_new : BgState :=
  mkBg ∅ ∅ (dedup_new SEEN_ID_LIMIT) ∅ None None false false ∅ false None ∅ None ∅ false false [] [] 0 ∅ 0.

(** [record_event]: whether the event is new. *)
Definition record_event (channel_id : Uuid) (e : Event) (s : BgState) : bool * BgState :=
  let '(fresh, d) := dedup_insert (to_hex (ev_id e)) (seen_ids s) in
  if (fresh : bool) then
    let ts := ev_created_at e in
    let newest := match last_seen s !! channel_id with Some t => N.max t ts | None => ts end in
    (true, put_last_seen (<[channel_id := newest]> (last_seen s)) (put_seen_ids d s))
  else (false, s).

Definition channel_since (channel_id : Uuid) (s : BgState) : option N :=
  match last_seen s !! channel_id, channel_dropped_since s !! channel_id with
  | Some l, Some d => Some (N.min l d)
  | Some l, None => Some l
  | None, Some d => Some d
  | None, None => match subscribe_since s !! channel_id with Some t => Some t | None => startup_watermark s end
  end.

(** The replay start of the membership subscription. *)
Definition membership_since (s : BgState) : option N :=
  match membership_dropped_since s, membership_last_seen s with
  | Some d, Some l => Some (N.min d l)
  | Some d, None => Some d
  | None, Some l => Some l
  | None, None => startup_watermark s
  end.

Definition clear_channel_state (c : Uuid) (s : BgState) : BgState :=
  let s := put_last_seen (delete c (last_seen s)) s in
  let s := put_subscribe_since (delete c (subscribe_since s)) s in
  let s := put_channel_dropped_since (delete c (channel_dropped_since s)) s in
  let s := put_active_filters (delete c (active_filters s)) s in
  let s := put_rate_limited_pending (delete c (rate_limited_pending s)) s in
  put_resubscribe_retry (resubscribe_retry s ∖ {[c]}) s.

Definition full (l : list Event) : bool := (GATED_OBSERVER_QUEUE_CAP <=? N.of_nat (length l))%N.

Definition park_gated_observer_frame (e : Event) (s : BgState) : BgState :=
  let s := if full (gated_observer_pending s)
           then put_gated_observer_dropped (gated_observer_dropped s + 1) (put_gated_observer_pending (tail (gated_observer_pending s)) s)
           else s in
  put_gated_observer_pending (gated_observer_pending s ++ [e]) s.

(** The frames beyond the capacity, counted. *)
Definition evict_oldest (s : BgState) : BgState :=
  let excess := (N.of_nat (length (gated_observer_pending s)) - GATED_OBSERVER_QUEUE_CAP)%N in
  put_gated_observer_dropped (gated_observer_dropped s + excess)
    (put_gated_observer_pending (drop (N.to_nat excess) (gated_observer_pending s)) s).

Definition requeue_observer_in_flight (s : BgState) : BgState :=
  evict_oldest (put_observer_in_flight [] (put_gated_observer_pending (observer_in_flight s ++ gated_observer_pending s) s)).

Definition track_observer_in_flight (e : Event) (s : BgState) : BgState :=
  let s := if full (observer_in_flight s)
           then put_gated_observer_dropped (gated_observer_dropped s + 1) (put_observer_in_flight (tail (observer_in_flight s)) s)
           else s in
  put_observer_in_flight (observer_in_flight s ++ [e]) s.

(** The first frame with the id is removed; and which it was. *)
Fixpoint remove_first (id : string) (l : list Event) : option Event * list Event :=
  match l with
  | [] => (None, [])
  | e :: l => if String.eqb (to_hex (ev_id e)) id then (Some e, l) else let '(o, l') := remove_first id l in (o, e :: l')
  end.

(** ** The outside *)

Inductive TrySend := SendOk | SendFull | SendClosed.
#[global] Instance TrySend_eq_dec : EqDecision TrySend.
Proof. solve_decision. Defined.

Inductive TryRecv := Received (c : RelayCommand) | RecvEmpty | Disconnected.
Inductive WsNext := NextElapsed | NextEnd | NextErr (e : WsError) | NextMsg (m : Message).

(** What wakes the main loop. *)
Inductive Select :=
| SelWs (raw : option (result WsError Message))
| SelCmd (c : option RelayCommand)
| SelPing
| SelPacing.

Class LinkWorld := {
  World : Type;
  (** [ws.send] within its timeout; [Err None] is a timeout *)
  w_send : Frame -> World -> result (option WsError) unit * World;
  (** [event_tx.try_send] and [observer_control_tx.try_send] *)
  w_event_tx : option BuzzEvent -> World -> TrySend * World;
  w_control_tx : Event -> World -> TrySend * World;
  (** [Instant::now()] in nanoseconds, [unix_now_secs()], [subsec_nanos()] *)
  w_now : World -> N * World;
  w_unix : World -> N * World;
  w_nanos : World -> N * World;
  w_try_recv : World -> TryRecv * World;
  (** what the command channel gives before the deadline; [None] is closed *)
  w_sleep_until : N -> World -> list (option RelayCommand) * World;
  (** [connect_async] within its timeout; [None] is a timeout *)
  w_connect : World -> option (result WsError unit) * World;
  (** [timeout(remaining, ws.next())] *)
  w_next : N -> World -> WsNext * World;
  w_select : option N -> World -> Select * World;
}.

Class LinkLib := {
  (** [serde_json] of an event *)
  event_value : Event -> Value;
  event_from_value : Value -> result string Event;
  (** the error of [serde_json::from_str::<Vec<Value>>] *)
  json_array_error : string -> string;
  (** [Duration::mul_f64] of the jitter factor; [None] panics *)
  jitter : N -> N -> option N;
  (** [Display] of the WebSocket errors *)
  ws_error_text : WsError -> string;
  (** [relay_url.parse::<Url>()] and [RelayUrl::parse] *)
  url_check : string -> result string unit;
  relay_url_check : string -> result string unit;
  (** [Tag::parse] and [sign_with_keys] of an authentication event *)
  link_tag : list string -> result string Tag;
  sign_auth : list Tag -> result string Event;
  (** the tags of [EventBuilder::auth(challenge, url)] *)
  auth_tags : string -> string -> list Tag;
}.

(** The jitter is twenty per cent, up to rounding. *)
Class LinkLaws (LL : LinkLib) := {
  jitter_low : forall base nanos d, jitter base nanos = Some d -> (7 * base <= 10 * d)%N;
}.

(** [Instant + Duration] panics beyond this many nanoseconds. *)
Definition INSTANT_MAX : N := 9223372036854775807999999999.

(** Where an event comes from. *)
Inductive Via := ByMembership | ByChannel.

(** What happens, newest first. *)
Inductive Entry :=
| Sent (f : Frame)
| SendFailed (f : Frame)
| Offered (via : Via) (e : BuzzEvent) (r : TrySend)
| LossSignalled (r : TrySend)
| ControlOffered (e : Event) (r : TrySend)
| Took (c : RelayCommand)
| Ran (c : RelayCommand)
| Denied (channel_id : Uuid)
| Acked (e : Event)
| DropsReported (n : N)
| Connected.

(** ** The monad *)

(** Why a run ends early; [BetweenTurns] is the fuel of the main loop. *)
Inductive Stop := OutOfFuel | Panicked | BetweenTurns.

Section link.
Context `{NL : NostrLib, JL : JsonLib, QE : QueueEnv, LW : LinkWorld, LL : LinkLib}.

Record Link := mkLink { l_state : BgState; l_world : World; l_log : list Entry }.

Definition M (A : Type) : Type := Link -> result Stop A * Link.

Definition ret {A} (a : A) : M A := fun l => (Ok a, l).
Definition stop {A} (s : Stop) : M A := fun l => (Err s, l).
Definition bind {A B} (m : M A) (k : A -> M B) : M B :=
  fun l => let '(r, l) := m l in match r with Ok a => k a l | Err s => (Err s, l) end.
Definition get_state : M BgState := fun l => (Ok (l_state l), l).
Definition modify (f : BgState -> BgState) : M unit := fun l => (Ok tt, mkLink (f (l_state l)) (l_world l) (l_log l)).
Definition log (e : Entry) : M unit := fun l => (Ok tt, mkLink (l_state l) (l_world l) (e :: l_log l)).
(** A reading of the outside, and one that is recorded. *)
Definition ask {A} (f : World -> A * World) : M A :=
  fun l => let '(a, w) := f (l_world l) in (Ok a, mkLink (l_state l) w (l_log l)).
Definition effect {A} (f : World -> A * World) (entry : A -> Entry) : M A :=
  fun l => let '(a, w) := f (l_world l) in (Ok a, mkLink (l_state l) w (entry a :: l_log l)).
End link.

Notation "'let*' x ':=' m 'in' k" := (bind m (fun x => k)) (at level 10, x pattern, m at level 200, k at level 200) : result_scope.
Notation "m ';;' k" := (bind m (fun _ => k)) (at level 100, k at level 200, right associativity) : result_scope.

Section task.
Context `{NL : NostrLib, JL : JsonLib, QE : QueueEnv, LW : LinkWorld, LL : LinkLib}.
(** The arguments of the task, the fuel of its loops and the seed of its hash maps. *)
Variables (agent_pubkey_hex relay_url : string) (auth_tag : option Tag) (fuel : nat) (seed : N).

Definition ws_send_timeout (f : Frame) : M (result RelayError unit) :=
  let* r := effect (w_send f) (fun r => if is_ok r then Sent f else SendFailed f) in
  ret (map_err (fun o : option WsError => match o with Some e => WebSocket e | None => Timeout end) r).
Definition ws_send (f : Frame) : M bool := let* r := ws_send_timeout f in ret (is_ok r).
Definition offer (via : Via) (e : BuzzEvent) : M TrySend := effect (w_event_tx (Some e)) (Offered via e).
Definition signal_loss : M unit := let* _ := effect (w_event_tx None) LossSignalled in ret tt.
Definition now : M N := ask w_now.
Definition unix_now : M N := ask w_unix.

Definition jittered_duration (base : N) : M N :=
  let* nanos := ask w_nanos in
  match jitter base nanos with Some d => ret d | None => stop Panicked end.

Definition instant_add (t d : N) : M N := if (t + d <=? INSTANT_MAX)%N then ret (t + d)%N else stop Panicked.

(** *** The rate limit gate *)

Definition set_rate_limit_gate (retry_secs : N) : M N :=
  let secs := if (retry_secs <? 2)%N then 5%N else retry_secs in
  let base := from_secs secs in
  let* t := now in
  let* d := jittered_duration base in
  let* deadline := instant_add t d in
  let* s := get_state in
  let gate := match rate_limit_gate s with Some existing => if (deadline <? existing)%N then existing else deadline | None => deadline end in
  modify (put_rate_limit_gate (Some gate));; ret gate.

Definition check_rate_gate : M (option N) :=
  let* s := get_state in
  match rate_limit_gate s with
  | Some deadline =>
      let* t := now in
      if (t <? deadline)%N then ret (Some deadline) else modify (put_rate_limit_gate None);; ret None
  | None => ret None
  end.

Definition gated : M bool := let* g := check_rate_gate in ret (bool_decide (is_Some g)).

(** *** Requests *)

Definition json_u64 (n : N) : Value := VNumber (PosInt n).

Definition channel_sub_id (c : Uuid) : string := "ch-" +:+ Uuid_to_string c.
Definition channel_id_from_sub_id (sub_id : string) : option Uuid := strip_prefix "ch-" sub_id ?> Uuid_parse.

Definition req (sub_id : string) (fields : list (string * Value)) : Value := VArray [VString "REQ"; VString sub_id; VObject fields].

Definition channel_req (c : Uuid) (filter : ChannelFilter) (since_ts : N) : Value :=
  let fields := match cf_kinds filter with Some kinds => set_field "kinds" (VArray (json_u64 <$> kinds)) [] | None => [] end in
  let fields := set_field "#h" (VArray [VString (Uuid_to_string c)]) fields in
  let fields := if cf_require_mention filter then set_field "#p" (VArray [VString agent_pubkey_hex]) fields else fields in
  req (channel_sub_id c) (set_field "since" (json_u64 since_ts) fields).

(** The start of a replay, with the skew taken off. *)
Definition since_or_now (since : option N) : M N :=
  match since with Some ts => ret (ts - SINCE_SKEW_SECS)%N | None => unix_now end.

Definition send_subscribe (c : Uuid) (since : option N) (filter : ChannelFilter) : M bool :=
  let* since_ts := since_or_now since in
  ws_send (FJson (channel_req c filter since_ts)).

Definition send_membership_subscribe (since : option N) : M bool :=
  let* since_ts := since_or_now since in
  ws_send (FJson (req MEMBERSHIP_NOTIF_SUB_ID
    [("kinds", VArray (json_u64 <$> [KIND_MEMBER_ADDED_NOTIFICATION; KIND_MEMBER_REMOVED_NOTIFICATION]));
     ("#p", VArray [VString agent_pubkey_hex]); ("since", json_u64 since_ts)])).

Definition send_observer_control_subscribe : M bool :=
  let* t := unix_now in
  ws_send (FJson (req OBSERVER_CONTROL_SUB_ID
    [("kinds", VArray [json_u64 KIND_AGENT_OBSERVER_FRAME]); ("#p", VArray [VString agent_pubkey_hex]); ("since", json_u64 t)])).

Definition send_publish_event_frame (e : Event) : M bool := ws_send (FJson (VArray [VString "EVENT"; event_value e])).

(** *** Commands *)

Definition is_observer_frame (e : Event) : bool := (ev_kind e =? KIND_AGENT_OBSERVER_FRAME)%N.

(** The replay floor of a first subscription; [t] is the clock. *)
Definition seed_subscribe_since (t : N) (c : Uuid) (replay_since : option N) (s : BgState) : BgState :=
  match subscribe_since s !! c with
  | Some _ => s
  | None =>
      let floor := match replay_since with Some r => r | None => default t (startup_watermark s) end in
      put_subscribe_since (<[c := floor]> (subscribe_since s)) s
  end.

Definition set_watermark (ts : N) (s : BgState) : BgState :=
  let s := put_startup_watermark (Some ts) s in
  match membership_last_seen s with None => put_membership_last_seen (Some ts) s | Some _ => s end.

Definition unsubscribe (c : Uuid) (s : BgState) : BgState :=
  clear_channel_state c (put_active_subscriptions (delete c (active_subscriptions s)) s).

(** A subscription that is wanted. *)
Definition want (c : Uuid) (filter : ChannelFilter) (s : BgState) : BgState :=
  let s := put_active_subscriptions (<[c := channel_sub_id c]> (active_subscriptions s)) s in
  put_active_filters (<[c := filter]> (active_filters s)) s.

Definition apply_command_to_state (t : N) (cmd : RelayCommand) (s : BgState) : BgState :=
  match cmd with
  | Subscribe c filter replay_since => seed_subscribe_since t c replay_since (want c filter s)
  | Unsubscribe c => unsubscribe c s
  | SubscribeMembership => put_membership_sub_active true s
  | SubscribeObserverControls => put_observer_control_sub_active true s
  | SetStartupWatermark ts => set_watermark ts s
  | PublishEvent e => if is_observer_frame e then park_gated_observer_frame e s else s
  | Reconnect => s
  | Shutdown => s
  end.

Definition apply_command (cmd : RelayCommand) : M unit :=
  let* t := unix_now in modify (apply_command_to_state t cmd).

Definition retain_failed_command_intent (cmd : RelayCommand) : M unit :=
  match cmd with
  | PublishEvent e => modify (fun s => if is_observer_frame e then park_gated_observer_frame e s else s)
  | cmd => apply_command cmd
  end.

Fixpoint retain_deferred_command_intent (deferred : list RelayCommand) : M unit :=
  match deferred with
  | [] => ret tt
  | cmd :: deferred =>
      (match cmd with Shutdown | Reconnect => ret tt | cmd => log (Ran cmd);; retain_failed_command_intent cmd end);;
      retain_deferred_command_intent deferred
  end.

Definition execute_subscribe (c : Uuid) (filter : ChannelFilter) (replay_since : option N) : M bool :=
  let* gate := check_rate_gate in
  match gate with
  | Some retry_after =>
      apply_command (Subscribe c filter replay_since);;
      modify (fun s => put_rate_limited_pending (<[c := retry_after]> (rate_limited_pending s)) s);; ret true
  | None =>
      let* t := unix_now in
      modify (seed_subscribe_since t c replay_since);;
      let* s := get_state in
      let since := match last_seen s !! c with Some ts => Some ts | None => subscribe_since s !! c end in
      let* sent := send_subscribe c since filter in
      if (sent : bool) then
        modify (want c filter);;
        modify (fun s => put_rate_limited_pending (delete c (rate_limited_pending s)) s);;
        modify (fun s => put_resubscribe_retry (resubscribe_retry s ∖ {[c]}) s);; ret true
      else apply_command (Subscribe c filter replay_since);; ret false
  end.

Definition execute_unsubscribe (c : Uuid) : M bool :=
  let* s := get_state in
  (match active_subscriptions s !! c with
   | Some sub_id =>
       modify (fun s => put_active_subscriptions (delete c (active_subscriptions s)) s);;
       let* _ := ws_send (FJson (VArray [VString "CLOSE"; VString sub_id])) in ret tt
   | None => ret tt
   end);;
  modify (clear_channel_state c);; ret true.

Definition execute_membership : M bool :=
  modify (put_membership_sub_active true);;
  let* g := gated in
  if (g : bool) then modify (put_membership_resub_needed true);; ret true
  else
    let* s := get_state in
    let since := match membership_last_seen s with Some t => Some t | None => startup_watermark s end in
    let* sent := send_membership_subscribe since in
    if (sent : bool) then
      modify (put_membership_resub_needed false);;
      modify (fun s => match membership_last_seen s with None => put_membership_last_seen since s | Some _ => s end);; ret true
    else modify (put_membership_resub_needed true);; ret false.

Definition execute_observer_controls : M bool :=
  modify (put_observer_control_sub_active true);;
  let* g := gated in
  if (g : bool) then modify (put_observer_resub_needed true);; ret true
  else
    let* sent := send_observer_control_subscribe in
    if (sent : bool) then modify (put_observer_resub_needed false);; ret true
    else modify (put_observer_resub_needed true);; ret false.

(** Whether an observer frame must wait behind the gate or other frames. *)
Definition must_park (e : Event) : M bool :=
  if is_observer_frame e then
    let* g := gated in
    if (g : bool) then ret true else let* s := get_state in ret (negb (bool_decide (gated_observer_pending s = [])))
  else ret false.

Definition execute_publish (e : Event) : M bool :=
  let* park := must_park e in
  if (park : bool) then modify (park_gated_observer_frame e);; ret true
  else
    let* g := gated in
    if (g : bool) then ret true
    else
      let* sent := send_publish_event_frame e in
      (if (sent : bool) then (if is_observer_frame e then modify (track_observer_in_flight e) else ret tt)
       else if is_observer_frame e then modify (park_gated_observer_frame e) else ret tt);;
      ret true.

Definition execute_connected_command (cmd : RelayCommand) : M bool :=
  match cmd with
  | Subscribe c filter replay_since => execute_subscribe c filter replay_since
  | Unsubscribe c => execute_unsubscribe c
  | SubscribeMembership => execute_membership
  | SubscribeObserverControls => execute_observer_controls
  | PublishEvent e => execute_publish e
  | SetStartupWatermark ts => modify (set_watermark ts);; ret true
  | Shutdown | Reconnect => ret true
  end.

(** *** Parsing *)

Definition parse_rate_limit_retry_secs (msg : string) : option N :=
  after ← after_str "retry in " msg; parse_u64 (take_digits after).1.

Definition as_bool (v : Value) : option bool := match v with VBool b => Some b | _ => None end.

(** A field of a frame. *)
Definition text_at (i : nat) (arr : list Value) (text : string) : result RelayError string :=
  ok_or (arr !! i ≫= as_str) (UnexpectedMessage text).
Definition text_or_empty (i : nat) (arr : list Value) : string := default EmptyString (arr !! i ≫= as_str).

Definition parse_relay_message (text : string) : result RelayError RelayMessage :=
  let? arr := ok_or (from_str text ≫= as_array) (JsonError (json_array_error text)) in
  let? msg_type := text_at 0 arr text in
  if String.eqb msg_type "EVENT" then
    let? sub_id := text_at 1 arr text in
    let? v := ok_or (arr !! 2) (UnexpectedMessage text) in
    let? event := map_err JsonError (event_from_value v) in
    Ok (RelayEvent sub_id event)
  else if String.eqb msg_type "OK" then
    let? event_id := text_at 1 arr text in
    Ok (RelayOk event_id (default false (arr !! 2 ≫= as_bool)) (text_or_empty 3 arr))
  else if String.eqb msg_type "EOSE" then
    let? sub_id := text_at 1 arr text in Ok (RelayEose sub_id)
  else if String.eqb msg_type "CLOSED" then
    let? sub_id := text_at 1 arr text in Ok (RelayClosed sub_id (text_or_empty 2 arr))
  else if String.eqb msg_type "NOTICE" then Ok (RelayNotice (text_or_empty 1 arr))
  else if String.eqb msg_type "AUTH" then
    let? challenge := text_at 1 arr text in Ok (RelayAuth challenge)
  else Err (UnexpectedMessage ("unknown message type: " +:+ msg_type)).

Definition extract_h_tag_uuid (e : Event) : option Uuid :=
  find_map (fun tag : Tag => match tag with "h" :: v :: _ => Uuid_parse v | _ => None end) (ev_tags e).

(** *** Messages of the relay *)

Definition CHANNEL_ACCESS_DENIED_REASONS : list string :=
  ["restricted: not a channel member"; "restricted: channel access revoked"].

Definition drop_channel_on_access_denied (sub_id message : string) : M bool :=
  if negb (bool_decide (message ∈ CHANNEL_ACCESS_DENIED_REASONS)) then ret false
  else
    match channel_id_from_sub_id sub_id with
    | None => ret false
    | Some c => log (Denied c);; modify (unsubscribe c);; ret true
    end.

Definition min_or (o : option N) (ts : N) : N := match o with Some d => N.min d ts | None => ts end.

Definition on_membership_event (e : Event) : M bool :=
  match extract_h_tag_uuid e with
  | None => ret true
  | Some channel_uuid =>
      let id := to_hex (ev_id e) in
      let* s := get_state in
      let '(fresh, d) := dedup_insert id (seen_ids s) in
      if negb fresh then ret true
      else
        modify (put_seen_ids d);;
        let ts := ev_created_at e in
        let* r := offer ByMembership (mkBuzz channel_uuid e) in
        match r with
        | SendOk => modify (fun s => put_membership_last_seen (Some (N.max (default 0%N (membership_last_seen s)) ts)) s);; ret true
        | SendFull =>
            modify (fun s => put_seen_ids (dedup_remove id (seen_ids s)) s);;
            modify (fun s => put_membership_dropped_since (Some (min_or (membership_dropped_since s) ts)) s);;
            modify (put_proactive_resubscribe_needed true);; ret true
        | SendClosed => ret false
        end
  end.

Definition on_channel_event (c : Uuid) (e : Event) : M bool :=
  let ts := ev_created_at e in
  let id := to_hex (ev_id e) in
  let* s := get_state in
  let '(fresh, s') := record_event c e s in
  if negb fresh then ret true
  else
    modify (fun _ => s');;
    let* r := offer ByChannel (mkBuzz c e) in
    match r with
    | SendOk => ret true
    | SendFull =>
        modify (fun s => put_seen_ids (dedup_remove id (seen_ids s)) s);;
        modify (fun s => put_channel_dropped_since (<[c := min_or (channel_dropped_since s !! c) ts]> (channel_dropped_since s)) s);;
        modify (put_proactive_resubscribe_needed true);; ret true
    | SendClosed => ret false
    end.

Definition on_event (sub_id : string) (e : Event) : M bool :=
  if String.eqb sub_id OBSERVER_CONTROL_SUB_ID then
    let* r := effect (w_control_tx e) (ControlOffered e) in
    ret (match r with SendClosed => false | _ => true end)
  else if String.eqb sub_id MEMBERSHIP_NOTIF_SUB_ID then on_membership_event e
  else match channel_id_from_sub_id sub_id with Some c => on_channel_event c e | None => ret true end.

(** A subscription sent again; its losses are forgotten once it is sent. *)
Definition resubscribe_channel (c : Uuid) (filter : ChannelFilter) : M bool :=
  let* s := get_state in
  let* sent := send_subscribe c (channel_since c s) filter in
  (if (sent : bool) then modify (fun s => put_channel_dropped_since (delete c (channel_dropped_since s)) s) else ret tt);;
  ret sent.

Definition resubscribe_membership : M bool :=
  let* s := get_state in
  let* sent := send_membership_subscribe (membership_since s) in
  (if (sent : bool) then modify (put_membership_dropped_since None) else ret tt);;
  ret sent.

Definition on_rate_limited_close (sub_id message : string) : M bool :=
  let* deadline := set_rate_limit_gate (default 0%N (parse_rate_limit_retry_secs message)) in
  (match channel_id_from_sub_id sub_id with
   | Some c => modify (fun s => put_rate_limited_pending (<[c := deadline]> (rate_limited_pending s)) s)
   | None =>
       if String.eqb sub_id MEMBERSHIP_NOTIF_SUB_ID then modify (put_membership_resub_needed true)
       else if String.eqb sub_id OBSERVER_CONTROL_SUB_ID then modify (put_observer_resub_needed true) else ret tt
   end);;
  ret true.

(** A closed subscription that is wanted again at once. *)
Definition restore_closed (sub_id : string) : M bool :=
  if String.eqb sub_id OBSERVER_CONTROL_SUB_ID then
    let* sent := send_observer_control_subscribe in
    if (sent : bool) then modify (put_observer_control_sub_active true);; ret true else ret false
  else if String.eqb sub_id MEMBERSHIP_NOTIF_SUB_ID then resubscribe_membership
  else
    match channel_id_from_sub_id sub_id with
    | None => ret true
    | Some c =>
        let* s := get_state in
        match active_subscriptions s !! c with
        | None => ret true
        | Some _ =>
            match active_filters s !! c with
            | None => ret false
            | Some filter =>
                let* sent := resubscribe_channel c filter in
                if (sent : bool)
                then modify (fun s => put_active_subscriptions (<[c := channel_sub_id c]> (active_subscriptions s)) s);; ret true
                else ret false
            end
        end
    end.

Definition on_closed (sub_id message : string) : M bool :=
  let* dropped := drop_channel_on_access_denied sub_id message in
  if (dropped : bool) then ret true
  else if starts_with message "rate-limited:" then on_rate_limited_close sub_id message
  else if starts_with message "auth-required" || starts_with message "restricted" || str_contains "auth" message then ret false
  else restore_closed sub_id.

Definition on_notice (message : string) : M bool :=
  if starts_with message "rate-limited:" then
    let* _ := set_rate_limit_gate (default 0%N (parse_rate_limit_retry_secs message)) in
    modify requeue_observer_in_flight;; ret true
  else ret true.

(** [acknowledge_observer_frame] *)
Definition acknowledge_observer_frame (event_id : string) : M unit :=
  let* s := get_state in
  let '(o, rest) := remove_first event_id (observer_in_flight s) in
  modify (put_observer_in_flight rest);;
  match o with Some e => log (Acked e) | None => ret tt end.

(** The event of an authentication. *)
Definition auth_event (challenge : string) : result RelayError Event :=
  let? _ := map_err (fun e => Http ("invalid relay URL: " +:+ e)) (relay_url_check relay_url) in
  let tag_error e := Http ("tag parse error: " +:+ e) in
  match auth_tag with
  | Some tag =>
      let? relay := map_err tag_error (link_tag ["relay"; relay_url]) in
      let? ch := map_err tag_error (link_tag ["challenge"; challenge]) in
      map_err AuthFailed (sign_auth [relay; ch; tag])
  | None => map_err AuthFailed (sign_auth (auth_tags challenge relay_url))
  end.

Definition send_auth_response (challenge : string) : M (result RelayError unit) :=
  match auth_event challenge with
  | Err e => ret (Err e)
  | Ok e => ws_send_timeout (FJson (VArray [VString "AUTH"; event_value e]))
  end.

Definition on_relay_message (m : RelayMessage) : M bool :=
  match m with
  | RelayEvent sub_id e => on_event sub_id e
  | RelayEose _ => ret true
  | RelayNotice message => on_notice message
  | RelayClosed sub_id message => on_closed sub_id message
  | RelayAuth challenge => let* r := send_auth_response challenge in ret (is_ok r)
  | RelayOk event_id accepted message =>
      if negb accepted && starts_with message "auth" then ret false
      else acknowledge_observer_frame event_id;; ret true
  end.

(** [handle_ws_message]: whether the connection is kept. *)
Definition handle_ws_message (msg : Message) : M bool :=
  match msg with
  | MText text => match parse_relay_message text with Ok m => on_relay_message m | Err _ => ret true end
  | MPing data => ws_send (FPong data)
  | MClose => ret false
  | MPong | MOther => ret true
  end.

Definition message_value (m : RelayMessage) : option Value :=
  match m with
  | RelayEvent sub_id e => Some (VArray [VString "EVENT"; VString sub_id; event_value e])
  | RelayEose sub_id => Some (VArray [VString "EOSE"; VString sub_id])
  | RelayNotice message => Some (VArray [VString "NOTICE"; VString message])
  | RelayClosed sub_id message => Some (VArray [VString "CLOSED"; VString sub_id; VString message])
  | RelayOk event_id accepted message => Some (VArray [VString "OK"; VString event_id; VBool accepted; VString message])
  | RelayAuth _ => None
  end.

Fixpoint process_handshake_buffer (buffer : list RelayMessage) : M bool :=
  match buffer with
  | [] => ret true
  | m :: buffer =>
      match message_value m with
      | Some v =>
          let* go_on := handle_ws_message (MText (json_text v)) in
          if (go_on : bool) then process_handshake_buffer buffer else ret false
      | None => process_handshake_buffer buffer
      end
  end.

(** *** Sleeps that listen *)

(** What arrives is put off; [None] is a shutdown. *)
Fixpoint defer_commands (arrived : list (option RelayCommand)) (deferred : list RelayCommand) : M (option (list RelayCommand)) :=
  match arrived with
  | [] => ret (Some deferred)
  | Some Shutdown :: _ | None :: _ => ret None
  | Some cmd :: arrived => log (Took cmd);; defer_commands arrived (deferred ++ [cmd])
  end.

Definition pacing_sleep (deferred : list RelayCommand) (duration : N) : M (option (list RelayCommand)) :=
  let* t := now in
  let* deadline := instant_add t duration in
  let* arrived := ask (w_sleep_until deadline) in
  defer_commands arrived deferred.

(** What arrives is recorded; [false] is a shutdown. *)
Fixpoint record_commands (arrived : list (option RelayCommand)) : M bool :=
  match arrived with
  | [] => ret true
  | Some Shutdown :: _ | None :: _ => ret false
  | Some cmd :: arrived => log (Took cmd);; log (Ran cmd);; apply_command cmd;; record_commands arrived
  end.

Definition listening_sleep (duration : N) : M bool :=
  let* jittered := jittered_duration duration in
  let* t := now in
  let* deadline := instant_add t jittered in
  let* arrived := ask (w_sleep_until deadline) in
  record_commands arrived.

(** *** Drains *)

Inductive ResubscribeResult := ResubOk | RetryConnection | ResubShutdown.
Inductive ReconnectOutcome := ReconnectOk | ReconnectFailed | ReconnectShutdown.

Definition park_channel (c : Uuid) (retry_after : N) : M unit :=
  modify (fun s => put_rate_limited_pending (<[c := retry_after]> (rate_limited_pending s)) s).
Definition unpark_channel (c : Uuid) : M unit := modify (fun s => put_rate_limited_pending (delete c (rate_limited_pending s)) s).
Definition retry_channel (c : Uuid) : M unit := modify (fun s => put_resubscribe_retry ({[c]} ∪ resubscribe_retry s) s).
Definition unretry_channel (c : Uuid) : M unit := modify (fun s => put_resubscribe_retry (resubscribe_retry s ∖ {[c]}) s).

(** At most [budget] frames. *)
Fixpoint drain_observer_loop (budget : nat) : M nat :=
  match budget with
  | O => ret 0
  | S budget =>
      let* g := gated in
      if (g : bool) then ret 0
      else
        let* s := get_state in
        match gated_observer_pending s with
        | [] => ret 0
        | e :: rest =>
            let* sent := send_publish_event_frame e in
            if (sent : bool) then
              modify (put_gated_observer_pending rest);; modify (track_observer_in_flight e);;
              let* n := drain_observer_loop budget in ret (S n)
            else ret 0
        end
  end.

Definition drain_gated_observer_pending (budget : nat) : M nat :=
  let* sent := drain_observer_loop budget in
  let* s := get_state in
  (if bool_decide (gated_observer_pending s = []) && (0 <? gated_observer_dropped s)%N
   then log (DropsReported (gated_observer_dropped s));; modify (put_gated_observer_dropped 0) else ret tt);;
  ret sent.

Fixpoint drain_pending_loop (ready : list Uuid) : M nat :=
  match ready with
  | [] => ret 0
  | c :: ready =>
      let* gate := check_rate_gate in
      let* one :=
        match gate with
        | Some retry_after => park_channel c retry_after;; ret 0
        | None =>
            let* s := get_state in
            match active_filters s !! c with
            | None => unpark_channel c;; ret 0
            | Some filter =>
                let* sent := resubscribe_channel c filter in
                if (sent : bool) then unpark_channel c;; ret 1
                else
                  let* t := now in
                  let* penalty := instant_add t (from_secs 5) in
                  park_channel c penalty;; ret 0
            end
        end in
      let* n := drain_pending_loop ready in ret (one + n)
  end.

Definition drain_rate_limited_pending (budget : nat) : M nat :=
  let* t := now in
  let* s := get_state in
  drain_pending_loop (take budget ((filter (fun kv => (snd kv <= t)%N) (hash_iter seed (rate_limited_pending s))).*1)).

Fixpoint drain_retry_loop (channels : list Uuid) : M nat :=
  match channels with
  | [] => ret 0
  | c :: channels =>
      let* gate := check_rate_gate in
      let* one :=
        match gate with
        | Some retry_after => park_channel c retry_after;; unretry_channel c;; ret 0
        | None =>
            let* s := get_state in
            match active_filters s !! c with
            | None => unretry_channel c;; ret 0
            | Some filter =>
                let* sent := resubscribe_channel c filter in
                if (sent : bool) then unretry_channel c;; ret 1 else ret 0
            end
        end in
      let* n := drain_retry_loop channels in ret (one + n)
  end.

Definition drain_resubscribe_retry (budget : nat) : M nat :=
  let* s := get_state in
  drain_retry_loop (take budget ((hash_iter seed (gset_to_gmap tt (resubscribe_retry s))).*1)).

(** *** Resubscription *)

(** The channels in turn; [None] is a shutdown. *)
Fixpoint resubscribe_channels (channels : list Uuid) (deferred : list RelayCommand) : M (option (list RelayCommand)) :=
  match channels with
  | [] => ret (Some deferred)
  | c :: channels =>
      let* gate := check_rate_gate in
      match gate with
      | Some retry_after => park_channel c retry_after;; resubscribe_channels channels deferred
      | None =>
          let* s := get_state in
          match active_filters s !! c with
          | None => retry_channel c;; resubscribe_channels channels deferred
          | Some filter =>
              let* sent := resubscribe_channel c filter in
              if (sent : bool) then
                let* slept := pacing_sleep deferred REQ_PACING_INTERVAL in
                match slept with Some deferred => resubscribe_channels channels deferred | None => ret None end
              else retry_channel c;; resubscribe_channels channels deferred
          end
      end
  end.

(** One of the control subscriptions: parked, sent, or failed. *)
Inductive ControlStep := ControlDone (deferred : list RelayCommand) | ControlFailed (deferred : list RelayCommand) | ControlShutdown.

Definition resubscribe_membership_control (deferred : list RelayCommand) : M ControlStep :=
  let* s := get_state in
  if negb (membership_sub_active s) then ret (ControlDone deferred)
  else
    let* g := gated in
    if (g : bool) then modify (put_membership_resub_needed true);; ret (ControlDone deferred)
    else
      let* s := get_state in
      let* slept := if bool_decide (active_subscriptions s = ∅) then ret (Some deferred) else pacing_sleep deferred REQ_PACING_INTERVAL in
      match slept with
      | None => ret ControlShutdown
      | Some deferred =>
          let* sent := resubscribe_membership in
          if (sent : bool) then modify (put_membership_resub_needed false);; ret (ControlDone deferred)
          else ret (ControlFailed deferred)
      end.

Definition resubscribe_observer_control (deferred : list RelayCommand) : M ControlStep :=
  let* s := get_state in
  if negb (observer_control_sub_active s) then ret (ControlDone deferred)
  else
    let* g := gated in
    if (g : bool) then modify (put_observer_resub_needed true);; ret (ControlDone deferred)
    else
      let* slept := pacing_sleep deferred REQ_PACING_INTERVAL in
      match slept with
      | None => ret ControlShutdown
      | Some deferred =>
          let* sent := send_observer_control_subscribe in
          if (sent : bool) then modify (put_observer_resub_needed false);; ret (ControlDone deferred)
          else ret (ControlFailed deferred)
      end.

(** [Close], and the outcome of a shutdown. *)
Definition close_socket : M unit := let* _ := ws_send FClose in ret tt.

(** The next command: one put off, or one that waits. *)
Definition next_command (deferred : list RelayCommand) : M (TryRecv * list RelayCommand) :=
  match deferred with
  | cmd :: deferred => ret (Received cmd, deferred)
  | [] =>
      let* r := ask w_try_recv in
      (match r with Received Shutdown => ret tt | Received cmd => log (Took cmd) | _ => ret tt end);;
      ret (r, [])
  end.

Definition is_subscription (cmd : RelayCommand) : bool :=
  match cmd with Subscribe _ _ _ | SubscribeMembership | SubscribeObserverControls => true | _ => false end.

(** A command carried out: whether its write worked, and [None] on a shutdown
    while pacing. *)
Definition drain_one (cmd : RelayCommand) (deferred : list RelayCommand) : M (bool * option (list RelayCommand)) :=
  if is_subscription cmd then
    let* g := gated in
    let* ok := log (Ran cmd);; execute_connected_command cmd in
    if (ok : bool) && negb g then
      let* slept := pacing_sleep deferred REQ_PACING_INTERVAL in ret (true, slept)
    else ret (ok, Some deferred)
  else let* ok := log (Ran cmd);; execute_connected_command cmd in ret (ok, Some deferred).

Fixpoint drain_commands (n : nat) (deferred : list RelayCommand) (send_failed : bool) : M ReconnectOutcome :=
  match n with
  | O => stop OutOfFuel
  | S n =>
      let* next := next_command deferred in
      match next with
      | (RecvEmpty, _) => ret (if send_failed then ReconnectFailed else ReconnectOk)
      | (Disconnected, _) => ret ReconnectShutdown
      | (Received Shutdown, _) => close_socket;; ret ReconnectShutdown
      | (Received Reconnect, deferred) => drain_commands n deferred send_failed
      | (Received cmd, deferred) =>
          if (send_failed : bool) then log (Ran cmd);; retain_failed_command_intent cmd;; drain_commands n deferred true
          else
            let* done := drain_one cmd deferred in
            match done with
            | (ok, Some deferred) => drain_commands n deferred (negb ok)
            | (_, None) => ret ReconnectShutdown
            end
      end
  end.

Definition drain_post_reconnect : M ReconnectOutcome := drain_commands fuel [] false.

Definition resubscribe_after_reconnect (is_fresh_connection : bool) : M ResubscribeResult :=
  (if is_fresh_connection then modify (put_rate_limited_pending ∅);; modify (put_resubscribe_retry ∅) else ret tt);;
  let* s := get_state in
  let channels := (hash_iter seed (active_subscriptions s)).*1 in
  let* o := resubscribe_channels channels [] in
  match o with
  | None => ret ResubShutdown
  | Some deferred =>
      let* m := resubscribe_membership_control deferred in
      match m with
      | ControlShutdown => ret ResubShutdown
      | ControlFailed deferred => retain_deferred_command_intent deferred;; ret RetryConnection
      | ControlDone deferred =>
          let* c := resubscribe_observer_control deferred in
          match c with
          | ControlShutdown => ret ResubShutdown
          | ControlFailed deferred => retain_deferred_command_intent deferred;; ret RetryConnection
          | ControlDone deferred =>
              let* r := drain_commands fuel deferred false in
              ret (match r with ReconnectOk => ResubOk | ReconnectFailed => RetryConnection | ReconnectShutdown => ResubShutdown end)
          end
      end
  end.

(** *** Connecting *)

Definition relay_error_text (e : RelayError) : string :=
  match e with
  | WebSocket e => "WebSocket error: " +:+ ws_error_text e
  | JsonError e => "JSON error: " +:+ e
  | AuthFailed m => "Auth failed: " +:+ m
  | NoAuthChallenge => "No auth challenge received"
  | ConnectionClosed => "Connection closed"
  | Timeout => "Timeout"
  | Http m => "HTTP error: " +:+ m
  | UnexpectedMessage m => "Unexpected message: " +:+ m
  end.

Definition is_dns_error (e : RelayError) : bool :=
  let msg := relay_error_text e in
  str_contains "nodename nor servname" msg || str_contains "Name or service not known" msg ||
  str_contains "No such host" msg || str_contains "failed to lookup address" msg.

Definition is_terminal_auth_failure (message : string) : bool := negb (starts_with (trim_start message) "error:").

Definition is_terminal_ws_error (e : WsError) : bool :=
  match e with
  | WsUrl | WsCapacity | WsUtf8 | WsHttpFormat | WsAttackAttempt => true
  | WsHttp status => negb ((status =? 408) || (status =? 429) || ((500 <=? status) && (status <? 600)))%N
  | WsProtocol transient => negb transient
  | WsIo deterministic_tls => deterministic_tls
  | WsConnectionClosed => false
  | WsTls => true
  | WsAlreadyClosed | WsWriteBufferFull => false
  end.

Definition is_terminal_connect_error (e : RelayError) : bool :=
  match e with
  | Http _ | JsonError _ | UnexpectedMessage _ => true
  | WebSocket e => is_terminal_ws_error e
  | AuthFailed message => is_terminal_auth_failure message
  | NoAuthChallenge | ConnectionClosed | Timeout => false
  end.

(** Messages until one that [wanted] takes; the others are kept. *)
Fixpoint wait_for {A} (n : nat) (wanted : RelayMessage -> option A) (late : RelayError) (deadline : N) (buffer : list RelayMessage)
    : M (result RelayError A * list RelayMessage) :=
  match n with
  | O => stop OutOfFuel
  | S n =>
      let* t := now in
      if (deadline <=? t)%N then ret (Err late, buffer)
      else
        let* next := ask (w_next (deadline - t)) in
        match next with
        | NextElapsed => ret (Err late, buffer)
        | NextEnd => ret (Err ConnectionClosed, buffer)
        | NextErr e => ret (Err (WebSocket e), buffer)
        | NextMsg (MText text) =>
            match parse_relay_message text with
            | Err e => ret (Err e, buffer)
            | Ok m =>
                match wanted m with
                | Some a => ret (Ok a, buffer)
                | None => wait_for n wanted late deadline (buffer ++ [m])
                end
            end
        | NextMsg (MPing data) =>
            let* sent := ws_send (FPong data) in
            if (sent : bool) then wait_for n wanted late deadline buffer else ret (Err Timeout, buffer)
        | NextMsg MClose => ret (Err ConnectionClosed, buffer)
        | NextMsg _ => wait_for n wanted late deadline buffer
        end
  end.

(** The first buffered message that is wanted, taken out. *)
Fixpoint take_buffered {A} (wanted : RelayMessage -> option A) (buffer : list RelayMessage) : option (A * list RelayMessage) :=
  match buffer with
  | [] => None
  | m :: buffer =>
      match wanted m with
      | Some a => Some (a, buffer)
      | None => match take_buffered wanted buffer with Some (a, rest) => Some (a, m :: rest) | None => None end
      end
  end.

Definition wait_buffered {A} (wanted : RelayMessage -> option A) (late : RelayError) (buffer : list RelayMessage)
    : M (result RelayError A * list RelayMessage) :=
  match take_buffered wanted buffer with
  | Some (a, buffer) => ret (Ok a, buffer)
  | None =>
      let* t := now in
      let* deadline := instant_add t AUTH_TIMEOUT in
      wait_for fuel wanted late deadline buffer
  end.

Definition auth_challenge (m : RelayMessage) : option string := match m with RelayAuth c => Some c | _ => None end.
Definition any_ok (m : RelayMessage) : option (bool * string) := match m with RelayOk _ accepted message => Some (accepted, message) | _ => None end.

Definition wait_for_auth_challenge : list RelayMessage -> M (result RelayError string * list RelayMessage) :=
  wait_buffered auth_challenge NoAuthChallenge.
Definition wait_for_any_ok : list RelayMessage -> M (result RelayError (bool * string) * list RelayMessage) :=
  wait_buffered any_ok Timeout.

Definition handshake : M (result RelayError (list RelayMessage)) :=
  let* c := wait_for_auth_challenge [] in
  match c with
  | (Err e, _) => ret (Err e)
  | (Ok challenge, buffer) =>
      let* sent := send_auth_response challenge in
      match sent with
      | Err e => ret (Err e)
      | Ok _ =>
          let* o := wait_for_any_ok buffer in
          match o with
          | (Err e, _) => ret (Err e)
          | (Ok (accepted, message), buffer) => ret (if (accepted : bool) then Ok buffer else Err (AuthFailed message))
          end
      end
  end.

Definition do_connect : M (result RelayError (list RelayMessage)) :=
  match url_check relay_url with
  | Err e => ret (Err (Http ("invalid relay URL: " +:+ e)))
  | Ok _ =>
      let* r := ask w_connect in
      match r with
      | None => ret (Err ConnectionClosed)
      | Some (Err e) => ret (Err (WebSocket e))
      | Some (Ok _) => log Connected;; handshake
      end
  end.

(** [retry_initial_connect]: the delays that remain. *)
Fixpoint retry_initial_connect (delays : list N) : M (result RelayError (list RelayMessage)) :=
  let* r := do_connect in
  match r with
  | Ok buffer => ret (Ok buffer)
  | Err e =>
      if is_terminal_connect_error e then ret (Err e)
      else
        match delays with
        | [] => ret (Err e)
        | base :: delays => let* _ := jittered_duration base in retry_initial_connect delays
        end
  end.

(** Whether a new connection is restored: its buffer and its subscriptions. *)
Definition restore_connection (buffer : list RelayMessage) : M ResubscribeResult :=
  let* ok := process_handshake_buffer buffer in
  if (ok : bool) then resubscribe_after_reconnect true else ret RetryConnection.

Definition MAX_DNS_FLAT_RETRIES : nat := 10.

(** One rung of the ladder: the attempts that remain, the DNS retries so far. *)
Fixpoint reconnect_ladder (n : nat) (backoffs : list N) (dns_retry_count : nat) : M ReconnectOutcome :=
  match n with
  | O => stop OutOfFuel
  | S n =>
      match backoffs with
      | [] => ret ReconnectFailed
      | delay :: rest =>
          let climb :=
            match rest with
            | [] => ret ReconnectFailed
            | _ =>
                let* slept := listening_sleep delay in
                if (slept : bool) then reconnect_ladder n rest dns_retry_count else ret ReconnectShutdown
            end in
          let* r := do_connect in
          match r with
          | Ok buffer =>
              let* restored := restore_connection buffer in
              match restored with
              | ResubOk => ret ReconnectOk
              | ResubShutdown => ret ReconnectShutdown
              | RetryConnection => climb
              end
          | Err e =>
              if is_dns_error e && (dns_retry_count <? MAX_DNS_FLAT_RETRIES)%nat then
                let* slept := listening_sleep DNS_RETRY_INTERVAL in
                if (slept : bool) then reconnect_ladder n backoffs (S dns_retry_count) else ret ReconnectShutdown
              else climb
          end
      end
  end.

Definition try_autonomous_reconnect : M ReconnectOutcome :=
  modify requeue_observer_in_flight;;
  reconnect_ladder fuel STARTUP_CONNECT_BACKOFFS 0.

Definition wait_delay (attempt : nat) : N := default (from_secs 60) ((from_secs <$> [1; 2; 4; 8; 16; 32]%N) !! attempt).

Fixpoint wait_ladder (n : nat) (attempt : nat) : M ReconnectOutcome :=
  match n with
  | O => stop OutOfFuel
  | S n =>
      let climb :=
        modify (put_backoff_step attempt);;
        let* slept := listening_sleep (wait_delay attempt) in
        if (slept : bool) then wait_ladder n (S attempt) else ret ReconnectShutdown in
      let* r := do_connect in
      match r with
      | Ok buffer =>
          let* restored := restore_connection buffer in
          match restored with
          | ResubOk => drain_post_reconnect
          | ResubShutdown => ret ReconnectShutdown
          | RetryConnection => climb
          end
      | Err e =>
          if is_dns_error e then
            let* slept := listening_sleep DNS_RETRY_INTERVAL in
            if (slept : bool) then wait_ladder n attempt else ret ReconnectShutdown
          else climb
      end
  end.

(** [wait_for_reconnect] with [skip_drain], as every caller has it. *)
Definition wait_for_reconnect : M ReconnectOutcome :=
  modify requeue_observer_in_flight;;
  let* s := get_state in
  wait_ladder fuel (backoff_step s).

(** *** The main loop *)

Record Locals := mkLocals {
  last_pong : N;
  ping_sent : bool;
  connected_since : N;
  stable_logged : bool;
  drain_pacing_next : option N;
}.

Definition fresh_locals (t : N) (pacing : option N) : Locals := mkLocals t false t false pacing.

(** The connection is lost: the harness is told, and the task reconnects;
    [false] is a shutdown. *)
Definition recover : M bool :=
  signal_loss;;
  let* outcome := try_autonomous_reconnect in
  let* after :=
    match outcome with
    | ReconnectOk => drain_post_reconnect
    | ReconnectShutdown => ret ReconnectShutdown
    | ReconnectFailed => wait_for_reconnect
    end in
  ret (match after with ReconnectShutdown => false | _ => true end).

(** [recover], then the clocks start again; [None] ends the task. *)
Definition recover_loop (loc : Locals) : M (option Locals) :=
  let* alive := recover in
  if (alive : bool) then let* t := now in ret (Some (fresh_locals t (drain_pacing_next loc))) else ret None.

Definition proactive_resubscribe (loc : Locals) : M (option Locals) :=
  let* s := get_state in
  if proactive_resubscribe_needed s then
    modify (put_proactive_resubscribe_needed false);;
    let* r := resubscribe_after_reconnect false in
    match r with
    | ResubOk => ret (Some loc)
    | ResubShutdown => ret None
    | RetryConnection => recover_loop loc
    end
  else ret (Some loc).

(** The control subscriptions; what is left of the budget, and whether one was
    sent. *)
Definition drain_controls (budget : nat) : M (nat * bool) :=
  let* g := gated in
  if (g : bool) then ret (budget, false)
  else
    let* s := get_state in
    let* m :=
      if membership_resub_needed s && (0 <? budget)%nat then
        let* sent := resubscribe_membership in
        if (sent : bool) then modify (put_membership_resub_needed false);; ret (pred budget, true) else ret (budget, false)
      else ret (budget, false) in
    let '(budget, any_sent) := m in
    let* s := get_state in
    if observer_resub_needed s && (0 <? budget)%nat then
      let* sent := send_observer_control_subscribe in
      if (sent : bool) then modify (put_observer_resub_needed false);; ret (pred budget, true) else ret (budget, any_sent)
    else ret (budget, any_sent).

(** A drain within the budget. *)
Definition drain_within (waiting : BgState -> bool) (drain : nat -> M nat) (st : nat * bool) : M (nat * bool) :=
  let '(budget, any_sent) := st in
  let* s := get_state in
  if (0 <? budget)%nat && waiting s then
    let* sent := drain budget in ret ((budget - sent)%nat, any_sent || (0 <? sent)%nat)
  else ret (budget, any_sent).

Definition drain_window (loc : Locals) : M Locals :=
  let* open := match drain_pacing_next loc with Some t => let* t' := now in ret (t <=? t')%N | None => ret true end in
  if negb open then ret loc
  else
    let* st := drain_controls DRAIN_BUDGET_PER_ITER in
    let* st := drain_within (fun s => negb (bool_decide (rate_limited_pending s = ∅))) drain_rate_limited_pending st in
    let* st := drain_within (fun s => negb (bool_decide (resubscribe_retry s = ∅))) drain_resubscribe_retry st in
    let* st := drain_within (fun s => negb (bool_decide (gated_observer_pending s = []))) drain_gated_observer_pending st in
    let with_pacing p := mkLocals (last_pong loc) (ping_sent loc) (connected_since loc) (stable_logged loc) p in
    if (st.2 : bool) then let* t := now in let* next := instant_add t REQ_PACING_INTERVAL in ret (with_pacing (Some next))
    else
      let* s := get_state in
      if bool_decide (gated_observer_pending s = []) then ret loc
      else
        let* gate := check_rate_gate in
        match gate with
        | Some deadline => ret (with_pacing (Some deadline))
        | None => let* t := now in let* next := instant_add t REQ_PACING_INTERVAL in ret (with_pacing (Some next))
        end.

Definition on_socket (raw : option (result WsError Message)) (loc : Locals) : M (option Locals) :=
  match raw with
  | Some (Ok MPong) =>
      let* t := now in
      ret (Some (mkLocals t false (connected_since loc) (stable_logged loc) (drain_pacing_next loc)))
  | Some (Ok msg) =>
      let* kept := handle_ws_message msg in
      if (kept : bool) then ret (Some loc) else recover_loop loc
  | Some (Err _) | None => recover_loop loc
  end.

Definition on_command (c : option RelayCommand) (loc : Locals) : M (option Locals) :=
  match c with
  | Some Reconnect =>
      log (Took Reconnect);;
      let* outcome := wait_for_reconnect in
      match outcome with
      | ReconnectShutdown => ret None
      | _ => let* t := now in ret (Some (fresh_locals t (drain_pacing_next loc)))
      end
  | Some Shutdown | None => close_socket;; ret None
  | Some cmd =>
      log (Took cmd);; log (Ran cmd);;
      let* ok := execute_connected_command cmd in
      if (ok : bool) then ret (Some loc) else recover_loop loc
  end.

Definition on_ping (loc : Locals) : M (option Locals) :=
  if ping_sent loc then
    let* t := now in
    if (PONG_TIMEOUT <? t - last_pong loc)%N then recover_loop loc else ret (Some loc)
  else
    let* sent := ws_send FPing in
    if (sent : bool)
    then ret (Some (mkLocals (last_pong loc) true (connected_since loc) (stable_logged loc) (drain_pacing_next loc)))
    else recover_loop loc.

(** The ladder starts over once the connection has been up long enough. *)
Definition settle_backoff (loc : Locals) : M Locals :=
  if stable_logged loc then ret loc
  else
    let* t := now in
    if (from_secs STABLE_CONNECTION_SECS <? t - connected_since loc)%N then
      modify (put_backoff_step 0);;
      ret (mkLocals (last_pong loc) (ping_sent loc) (connected_since loc) true (drain_pacing_next loc))
    else ret loc.

(** One turn of the loop; [None] ends the task. *)
Definition bg_turn (loc : Locals) : M (option Locals) :=
  let* o := proactive_resubscribe loc in
  match o with
  | None => ret None
  | Some loc =>
      let* loc := drain_window loc in
      let* sel := ask (w_select (drain_pacing_next loc)) in
      let* o :=
        match sel with
        | SelWs raw => on_socket raw loc
        | SelCmd c => on_command c loc
        | SelPing => on_ping loc
        | SelPacing => ret (Some (mkLocals (last_pong loc) (ping_sent loc) (connected_since loc) (stable_logged loc) None))
        end in
      match o with
      | None => ret None
      | Some loc => let* loc := settle_backoff loc in ret (Some loc)
      end
  end.

Fixpoint bg_loop (turns : nat) (loc : Locals) : M unit :=
  match turns with
  | O => stop BetweenTurns
  | S turns => let* o := bg_turn loc in match o with Some loc => bg_loop turns loc | None => ret tt end
  end.

Definition run_background_task (turns : nat) (handshake_buffer : list RelayMessage) : M unit :=
  let* ok := process_handshake_buffer handshake_buffer in
  let* alive := if (ok : bool) then ret true else recover in
  if (alive : bool) then let* t := now in bg_loop turns (fresh_locals t None) else ret tt.

(** [HarnessRelay::connect], up to the task it spawns. *)
Definition connect (turns : nat) : M (result RelayError unit) :=
  let* r := retry_initial_connect STARTUP_CONNECT_BACKOFFS in
  match r with
  | Err e => ret (Err e)
  | Ok buffer => run_background_task turns buffer;; ret (Ok tt)
  end.

Definition start (w : World) : Link := mkLink bg_new w [].
End task.
