(* ===== verification/RelayLinkTheory.v ===== *)
(** * What the connection promises

    One invariant over the state and the log of the background task, kept by
    every operation and at every point where a loop may stop: subscriptions
    follow the commands, lost events stay asked for, observer frames are
    accounted for, and events are handed over once. *)

From S2P Require Import Prelude Text Nostr Demo Kinds OwnerAttestation GitPerms Sdk SdkTheory EventQueue EventQueueTheory Json AcpFilter RelayLink.

Section spec.
Context `{NL : NostrLib}.
Variable agent_pubkey_hex : string.

(** ** Subscriptions *)

(** The filters the commands have asked for, less the channels the relay
    denied. *)
Fixpoint intent (log : list Entry) : gmap Uuid ChannelFilter :=
  match log with
  | [] => ∅
  | Ran (Subscribe c f _) :: log => <[c := f]> (intent log)
  | Ran (Unsubscribe c) :: log | Denied c :: log => delete c (intent log)
  | _ :: log => intent log
  end.

Definition is_data (c : RelayCommand) : bool := match c with Reconnect | Shutdown => false | _ => true end.
Definition data (cs : list RelayCommand) : list RelayCommand := filter (fun c => is_data c = true) cs.

(** The commands received and carried out, oldest first. *)
Fixpoint took (log : list Entry) : list RelayCommand :=
  match log with [] => [] | Took c :: log => took log ++ data [c] | _ :: log => took log end.
Fixpoint ran (log : list Entry) : list RelayCommand :=
  match log with [] => [] | Ran c :: log => ran log ++ data [c] | _ :: log => ran log end.

(** A request for a channel carries the channel's own filter. *)
Definition frame_ok (f : Frame) (log : list Entry) : Prop :=
  forall sub fields, f = FJson (req sub fields) ->
    sub = MEMBERSHIP_NOTIF_SUB_ID \/ sub = OBSERVER_CONTROL_SUB_ID \/
    exists c filter ts, f = FJson (channel_req agent_pubkey_hex c filter ts) /\ intent log !! c = Some filter.

Fixpoint requests_ok (log : list Entry) : Prop :=
  match log with
  | [] => True
  | (Sent f | SendFailed f) :: log => frame_ok f log /\ requests_ok log
  | _ :: log => requests_ok log
  end.

Definition subscriptions_ok (deferred : list RelayCommand) (s : BgState) (log : list Entry) : Prop :=
  active_filters s = intent log /\ (forall c, active_subscriptions s !! c = (fun _ => channel_sub_id c) <$> intent log !! c) /\
  took log = ran log ++ data deferred /\ requests_ok log.

(** ** Lost events *)

(** The subscription an event came by: a channel, or the membership
    notifications. *)
Definition origin (via : Via) (e : BuzzEvent) : option Uuid := match via with ByMembership => None | ByChannel => Some (bz_channel_id e) end.
Definition sub_id_of (k : option Uuid) : string := match k with Some c => channel_sub_id c | None => MEMBERSHIP_NOTIF_SUB_ID end.
Definition event_id_of (e : BuzzEvent) : string := to_hex (ev_id (bz_event e)).

(** Where a request of the subscription starts. *)
Definition asked (k : option Uuid) (f : Frame) : option N :=
  match f with
  | FJson (VArray [VString verb; VString sub; VObject fields]) =>
      if String.eqb verb "REQ" && String.eqb sub (sub_id_of k) then get "since" fields ≫= as_u64 else None
  | _ => None
  end.

(** Events that found no room, were not handed over since, and that no request
    has reached back to since. *)
Fixpoint owed (k : option Uuid) (log : list Entry) : list (string * N) :=
  match log with
  | [] => []
  | Offered via e SendFull :: log =>
      if decide (origin via e = k) then (event_id_of e, ev_created_at (bz_event e)) :: owed k log else owed k log
  | Offered via e SendOk :: log => filter (fun x => x.1 <> event_id_of e) (owed k log)
  | Offered via e SendClosed :: log => []
  | Sent f :: log => match asked k f with Some since => filter (fun x => (x.2 < since)%N) (owed k log) | None => owed k log end
  | Ran (Unsubscribe c) :: log | Denied c :: log => if decide (k = Some c) then [] else owed k log
  | _ :: log => owed k log
  end.

Definition dropped_since (k : option Uuid) (s : BgState) : option N :=
  match k with Some c => channel_dropped_since s !! c | None => membership_dropped_since s end.

Definition losses_ok (s : BgState) (log : list Entry) : Prop :=
  forall k id ts, (id, ts) ∈ owed k log ->
    dedup_contains id (seen_ids s) = false /\ exists d, dropped_since k s = Some d /\ (d <= ts)%N.

(** ** Observer frames *)

Fixpoint published (log : list Entry) : list Event :=
  match log with
  | [] => []
  | Ran (PublishEvent e) :: log => published log ++ (if is_observer_frame e then [e] else [])
  | _ :: log => published log
  end.

Fixpoint acknowledged (log : list Entry) : N :=
  match log with [] => 0 | Acked _ :: log => acknowledged log + 1 | _ :: log => acknowledged log end%N.
Fixpoint reported (log : list Entry) : N :=
  match log with [] => 0 | DropsReported n :: log => reported log + n | _ :: log => reported log end%N.

Definition frames_ok (s : BgState) (log : list Entry) : Prop :=
  (observer_in_flight s ++ gated_observer_pending s) `sublist_of` published log /\
  (N.of_nat (length (observer_in_flight s)) <= GATED_OBSERVER_QUEUE_CAP)%N /\
  (N.of_nat (length (gated_observer_pending s)) <= GATED_OBSERVER_QUEUE_CAP)%N /\
  (N.of_nat (length (published log)) =
   N.of_nat (length (observer_in_flight s)) + N.of_nat (length (gated_observer_pending s)) +
   acknowledged log + reported log + gated_observer_dropped s)%N.

(** ** Repeated events *)

Definition WINDOW : N := 6000.

(** How many events were offered since the one with this id was handed over. *)
Fixpoint offers_since (id : string) (log : list Entry) : option N :=
  match log with
  | [] => None
  | Offered _ e r :: log =>
      if decide (r = SendOk /\ event_id_of e = id) then Some 0%N else (fun n => n + 1)%N <$> offers_since id log
  | _ :: log => offers_since id log
  end.

(** An event is handed over again only after that many others. *)
Fixpoint once (log : list Entry) : Prop :=
  match log with
  | [] => True
  | Offered _ e SendOk :: log => (forall n, offers_since (event_id_of e) log = Some n -> (WINDOW <= n)%N) /\ once log
  | _ :: log => once log
  end.

Definition dedup_ok (s : BgState) (log : list Entry) : Prop :=
  limit (seen_ids s) = SEEN_ID_LIMIT /\ (N.of_nat (size (current (seen_ids s))) < WINDOW)%N /\
  (N.of_nat (size (previous (seen_ids s))) <= WINDOW)%N /\ once log /\
  forall id n, offers_since id log = Some n ->
    id ∈ current (seen_ids s) \/ (id ∈ previous (seen_ids s) /\ (N.of_nat (size (current (seen_ids s))) <= n)%N) \/ (WINDOW <= n)%N.

(** ** The invariant *)

Definition link_ok (deferred : list RelayCommand) (s : BgState) (log : list Entry) : Prop :=
  subscriptions_ok deferred s log /\ losses_ok s log /\ frames_ok s log /\ dedup_ok s log.

Lemma link_ok_start : link_ok [] bg_new [].
Proof.
  split_and!; try done.
  - intros k id ts []%not_elem_of_nil.
Qed.
(** *** What leaves it alone *)

(** The part of the state it speaks of. *)
Definition core (s : BgState) :=
  (active_subscriptions s, active_filters s, seen_ids s, (membership_dropped_since s, channel_dropped_since s),
   (gated_observer_pending s, observer_in_flight s, gated_observer_dropped s)).

Lemma link_ok_core deferred s s' log : core s' = core s -> link_ok deferred s log -> link_ok deferred s' log.
Proof.
  intros [= H1 H2 H3 H4 H5 H6 H7 H8]. unfold link_ok, subscriptions_ok, losses_ok, frames_ok, dedup_ok, dropped_since.
  by rewrite H1, H2, H3, H4, H5, H6, H7, H8.
Qed.

(** Entries that no part of it counts. *)
Definition neutral (e : Entry) : bool :=
  match e with LossSignalled _ | ControlOffered _ _ | Connected => true | Took c | Ran c => negb (is_data c) | _ => false end.

Lemma link_ok_neutral deferred s log e : neutral e = true -> link_ok deferred s log -> link_ok deferred s (e :: log).
Proof.
  intros Hn. unfold link_ok, subscriptions_ok, losses_ok, frames_ok, dedup_ok.
  destruct e as [| | | | |c|c| | | |]; try done; destruct c; try done; cbn; by rewrite ?app_nil_r.
Qed.

(** A frame that is no request. *)
Definition plain_frame (f : Frame) : bool :=
  match f with FJson (VArray (VString verb :: _)) => negb (String.eqb verb "REQ") | FJson _ => false | _ => true end.

Lemma plain_frame_ok f log : plain_frame f = true -> frame_ok f log.
Proof. intros Hp sub fields ->. done. Qed.

Lemma link_ok_failed deferred s log f : frame_ok f log -> link_ok deferred s log -> link_ok deferred s (SendFailed f :: log).
Proof. intros Hf ((H1 & H2 & H3 & H4) & H5 & H6 & H7). split_and!; done. Qed.

(** A request can only settle losses. *)
Lemma link_ok_sent deferred s log f : frame_ok f log -> link_ok deferred s log -> link_ok deferred s (Sent f :: log).
Proof.
  intros Hf ((H1 & H2 & H3 & H4) & H5 & H6 & H7). split; [done|]. split; [|done].
  intros k id ts. cbn. destruct (asked k f); [rewrite list_elem_of_filter; intros [_ ?]|]; by apply H5.
Qed.

(** A write, as it went. *)
Definition written (ok : bool) (f : Frame) : Entry := if ok then Sent f else SendFailed f.

Lemma link_ok_written ok deferred s log f : frame_ok f log -> link_ok deferred s log -> link_ok deferred s (written ok f :: log).
Proof. intros Hf Hl. destruct ok; [by apply link_ok_sent|by apply link_ok_failed]. Qed.

Lemma link_ok_plain ok deferred s log f : plain_frame f = true -> link_ok deferred s log -> link_ok deferred s (written ok f :: log).
Proof. intros Hf. by apply link_ok_written, plain_frame_ok. Qed.

(** Requests say where they start. *)
Lemma asked_channel c filter ts : asked (Some c) (FJson (channel_req agent_pubkey_hex c filter ts)) = Some ts.
Proof. unfold asked, channel_req, req. rewrite String.eqb_refl. cbn -[get set_field]. by rewrite String.eqb_refl, get_set_field. Qed.

(** A loss is forgotten once a request reaches back to it. *)
Lemma settle_losses k s log f since :
  losses_ok s log -> asked k f = Some since -> (forall d, dropped_since k s = Some d -> (since <= d)%N) -> owed k (Sent f :: log) = [].
Proof.
  intros Hl Ha Hd. cbn. rewrite Ha. destruct (filter _ _) as [|[id ts] r] eqn:E; [done|].
  assert ((id, ts) ∈ filter (fun x : string * N => (x.2 < since)%N) (owed k log)) as Hin by (rewrite E; left).
  apply list_elem_of_filter in Hin as [Hlt Hin]. destruct (Hl k id ts Hin) as (_ & d & Hk & Hle). specialize (Hd d Hk). cbn in Hlt. lia.
Qed.

Lemma link_ok_settled k deferred s s' log f since :
  frame_ok f log -> asked k f = Some since -> (forall d, dropped_since k s = Some d -> (since <= d)%N) ->
  core (put_membership_dropped_since (membership_dropped_since s) (put_channel_dropped_since (channel_dropped_since s) s')) = core s ->
  (forall k', k' <> k -> dropped_since k' s' = dropped_since k' s) ->
  link_ok deferred s log -> link_ok deferred s' (Sent f :: log).
Proof.
  intros Hf Ha Hd Hc Hk (Hs & Hl & Hfr & Hdd). injection Hc as H1 H2 H3 H4 H5 H6.
  assert (link_ok deferred s (Sent f :: log)) as (Hs' & Hl' & Hfr' & Hdd') by (by apply link_ok_sent).
  unfold link_ok, subscriptions_ok, frames_ok, dedup_ok in *. rewrite H1, H2, H3, H4, H5, H6. split; [done|]. split; [|done].
  intros k' id ts Hin. destruct (decide (k' = k)) as [->|Hne].
  { rewrite (settle_losses k s log f since Hl Ha Hd) in Hin. by apply not_elem_of_nil in Hin. }
  rewrite Hk, H3 by done. by apply Hl'.
Qed.

Lemma channel_since_reaches c s d : channel_dropped_since s !! c = Some d -> exists t, channel_since c s = Some t /\ (t <= d)%N.
Proof. intros Hd. unfold channel_since. rewrite Hd. destruct (last_seen s !! c) as [l|]; eexists; (split; [done|lia]). Qed.

Lemma membership_since_reaches s d : membership_dropped_since s = Some d -> exists t, membership_since s = Some t /\ (t <= d)%N.
Proof. intros Hd. unfold membership_since. rewrite Hd. destruct (membership_last_seen s) as [l|]; eexists; (split; [done|lia]). Qed.

(** *** Events offered to the harness *)

Lemma dedup_insert_fresh id d :
  dedup_contains id d = false -> limit d = SEEN_ID_LIMIT ->
  dedup_insert id d = (true, if (WINDOW <=? N.of_nat (size (current d)) + 1)%N then mkDedup ∅ ({[id]} ∪ current d) (limit d)
                             else mkDedup ({[id]} ∪ current d) (previous d) (limit d)).
Proof.
  intros Hc Hl. unfold dedup_insert. rewrite Hc. apply orb_false_iff in Hc as [Hc%bool_decide_eq_false _].
  rewrite size_union, size_singleton by set_solver. rewrite Hl at 1.
  replace (SEEN_ID_LIMIT / 2)%N with WINDOW by done. by replace (N.of_nat (1 + size (current d))) with (N.of_nat (size (current d)) + 1)%N by lia.
Qed.

(** What an offer does to the set of known events. *)
Definition seen_after (id : string) (r : TrySend) (d : TwoGenDedup) : TwoGenDedup :=
  let d := (dedup_insert id d).2 in match r with SendFull => dedup_remove id d | _ => d end.

Lemma dedup_ok_offer s s' log via e r :
  dedup_contains (event_id_of e) (seen_ids s) = false -> seen_ids s' = seen_after (event_id_of e) r (seen_ids s) ->
  dedup_ok s log -> dedup_ok s' (Offered via e r :: log).
Proof.
  intros Hc Hs' (Hl & Hcur & Hprev & Honce & Hago). unfold dedup_ok. rewrite Hs'. clear Hs'. set (id := event_id_of e) in *.
  unfold seen_after. rewrite (dedup_insert_fresh _ _ Hc Hl). cbn [snd].
  apply orb_false_iff in Hc as [Hnc%bool_decide_eq_false Hnp%bool_decide_eq_false].
  assert (forall n, offers_since id log = Some n -> (WINDOW <= n)%N) as Hold by (intros n Hn; destruct (Hago id n Hn) as [?|[[? _]|?]]; done).
  set (d1 := if (WINDOW <=? _)%N then _ else _).
  assert (limit d1 = SEEN_ID_LIMIT) as Hl1 by (unfold d1; by destruct (_ <=? _)%N).
  assert ((WINDOW <= N.of_nat (size (current (seen_ids s))) + 1)%N /\ current d1 = ∅ /\ previous d1 = {[id]} ∪ current (seen_ids s) \/
          (N.of_nat (size (current (seen_ids s))) + 1 < WINDOW)%N /\ current d1 = {[id]} ∪ current (seen_ids s) /\ previous d1 = previous (seen_ids s)) as Hd1.
  { unfold d1. destruct (N.leb_spec WINDOW (N.of_nat (size (current (seen_ids s))) + 1)); [left|right]; done. }
  clearbody d1. set (d2 := match r with SendFull => _ | _ => _ end).
  assert (size (current d2) <= size (current d1) /\ size (previous d2) <= size (previous d1))%nat as [S4 S5].
  { unfold d2. destruct r; cbn; try lia. split; apply subseteq_size; set_solver. }
  assert (limit d2 = SEEN_ID_LIMIT) as Hl2 by (unfold d2; by destruct r).
  assert (forall x, x <> id \/ r = SendOk -> (x ∈ current d1 -> x ∈ current d2) /\ (x ∈ previous d1 -> x ∈ previous d2)) as Hkeep
    by (intros x [Hx|Hr]; unfold d2; [destruct r; cbn; set_solver|by rewrite Hr]).
  clearbody d2. assert (size ({[id]} ∪ current (seen_ids s)) = S (size (current (seen_ids s)))) as Hsz
    by (rewrite size_union, size_singleton by set_solver; done).
  assert (N.of_nat (size (current d2)) < WINDOW /\ N.of_nat (size (previous d2)) <= WINDOW /\
    (current d1 = ∅ -> size (current d2) = 0%nat) /\ N.of_nat (size (current d2)) <= N.of_nat (size (current (seen_ids s))) + 1)%N as (S1 & S2 & S3 & S6).
  { destruct Hd1 as [(Hr & E1 & E2)|(Hr & E1 & E2)]; rewrite E1 in S4; rewrite E2 in S5;
      rewrite ?Hsz, ?size_empty in S4; rewrite ?Hsz in S5; unfold WINDOW in *; split_and!; [lia..| |lia]; intros Hempty; rewrite E1 in Hempty;
      first [lia|rewrite Hempty, size_empty in Hsz; lia]. }
  cbn [once offers_since]. split_and!; [done|done|done|destruct r; [by split|done|done]|].
  intros x n. destruct (decide _) as [[-> <-]|Hnot].
  { fold id. intros [= <-]. destruct (Hkeep id) as [K1 K2]; [by right|]. destruct Hd1 as [(Hr & E1 & E2)|(Hr & E1 & E2)].
    - right; left. rewrite (S3 E1). split; [|done]. apply K2. rewrite E2. set_solver.
    - left. apply K1. rewrite E1. set_solver. }
  destruct (offers_since x log) as [m|] eqn:Em; [|done]. intros [= <-].
  destruct (decide (x = id)) as [->|Hx]; [right; right; specialize (Hold m Em); lia|].
  destruct (Hkeep x) as [K1 K2]; [by left|]. destruct (Hago x m Em) as [H|[[H Hn]|H]]; [| |right; right; lia].
  - destruct Hd1 as [(Hr & E1 & E2)|(Hr & E1 & E2)]; [right; left|left; apply K1; rewrite E1; set_solver].
    rewrite (S3 E1). split; [|lia]. apply K2. rewrite E2. set_solver.
  - destruct Hd1 as [(Hr & E1 & E2)|(Hr & E1 & E2)]; [right; right; lia|right; left]. split; [apply K2; by rewrite E2|lia].
Qed.

Lemma seen_after_contains x id r d :
  dedup_contains x (seen_after id r d) = true -> dedup_contains x d = true \/ x = id /\ r <> SendFull.
Proof.
  unfold seen_after, dedup_insert. destruct (dedup_contains id d) eqn:Ec.
  - destruct r; cbn; intros H; try by left. left. revert H. unfold dedup_contains. cbn. rewrite !orb_true_iff, !bool_decide_eq_true. set_solver.
  - unfold dedup_contains. destruct r, (_ <=? _)%N; cbn; rewrite !orb_true_iff, !bool_decide_eq_true; intros H;
      destruct (decide (x = id)) as [->|]; try (right; done); left; set_solver.
Qed.

Lemma losses_ok_offer s s' log via e r :
  dedup_contains (event_id_of e) (seen_ids s) = false -> seen_ids s' = seen_after (event_id_of e) r (seen_ids s) ->
  (forall k, dropped_since k s' = if decide (r = SendFull /\ origin via e = k)
    then Some (min_or (dropped_since k s) (ev_created_at (bz_event e))) else dropped_since k s) ->
  losses_ok s log -> losses_ok s' (Offered via e r :: log).
Proof.
  intros Hc Hseen Hk Hl k id ts Hin. rewrite Hseen, Hk. clear Hseen Hk.
  assert (forall id', dedup_contains id' (seen_ids s) = false -> id' <> event_id_of e \/ r = SendFull -> dedup_contains id' (seen_after (event_id_of e) r (seen_ids s)) = false) as Hno.
  { intros id' Hf Hor. apply not_true_is_false. intros [H|[-> Hr]]%seen_after_contains; [congruence|]. by destruct Hor. }
  destruct r; cbn in Hin; [| |by apply not_elem_of_nil in Hin].
  - apply list_elem_of_filter in Hin as [Hne Hin]. destruct (Hl k id ts Hin) as (Hf & d & Hd & Hle). rewrite decide_False by (by intros [? _]).
    split; [|by exists d]. apply Hno; [done|by left].
  - case_decide as Ho; [rewrite decide_True by done|rewrite decide_False by (by intros [_ ?])].
    + apply elem_of_cons in Hin as [[= -> ->]|Hin].
      * split; [apply Hno; [done|by right]|]. eexists. split; [done|]. unfold min_or. destruct (dropped_since k s); lia.
      * destruct (Hl k id ts Hin) as (Hf & d & Hd & Hle). split; [apply Hno; [done|by right]|]. eexists. split; [done|]. rewrite Hd. cbn. lia.
    + destruct (Hl k id ts Hin) as (Hf & Hd). split; [apply Hno; [done|by right]|done].
Qed.

Lemma link_ok_offer deferred s s' log via e r :
  dedup_contains (event_id_of e) (seen_ids s) = false -> seen_ids s' = seen_after (event_id_of e) r (seen_ids s) ->
  (forall k, dropped_since k s' = if decide (r = SendFull /\ origin via e = k)
    then Some (min_or (dropped_since k s) (ev_created_at (bz_event e))) else dropped_since k s) ->
  active_subscriptions s' = active_subscriptions s -> active_filters s' = active_filters s ->
  (gated_observer_pending s', observer_in_flight s', gated_observer_dropped s') = (gated_observer_pending s, observer_in_flight s, gated_observer_dropped s) ->
  link_ok deferred s log -> link_ok deferred s' (Offered via e r :: log).
Proof.
  intros Hc Hseen Hk H1 H2 [= H3 H4 H5] (Hs & Hl & Hf & Hd).
  split; [unfold subscriptions_ok; rewrite H1, H2; exact Hs|]. split; [by eapply losses_ok_offer|].
  split; [unfold frames_ok; rewrite H3, H4, H5; exact Hf|by eapply dedup_ok_offer].
Qed.

(** *** Commands carried out *)

(** The effect a command has on the subscriptions. *)
Definition wanted (c : Uuid) (f : ChannelFilter) (s s' : BgState) : Prop :=
  core s' = core (want c f s).

Lemma link_ok_subscribe c f since deferred s s' log :
  wanted c f s s' -> link_ok (Subscribe c f since :: deferred) s log -> link_ok deferred s' (Ran (Subscribe c f since) :: log).
Proof.
  intros Hw ((H1 & H2 & H3 & H4) & Hl & Hf & Hd). apply (link_ok_core _ (want c f s)); [done|]. unfold link_ok. split; [|done].
  split_and!; [cbn; by rewrite H1| |cbn; rewrite <-app_assoc; exact H3|done].
  intros c'. cbn. destruct (decide (c' = c)) as [->|]; [by rewrite !lookup_insert_eq|by rewrite !lookup_insert_ne].
Qed.

(** A channel is given up, by a command or by the relay. *)
Lemma unsubscribed_ok c s log e :
  e = Ran (Unsubscribe c) \/ e = Denied c ->
  active_filters s = intent log -> (forall c', active_subscriptions s !! c' = (fun _ => channel_sub_id c') <$> intent log !! c') -> losses_ok s log ->
  active_filters (unsubscribe c s) = intent (e :: log) /\
  (forall c', active_subscriptions (unsubscribe c s) !! c' = (fun _ => channel_sub_id c') <$> intent (e :: log) !! c') /\ losses_ok (unsubscribe c s) (e :: log).
Proof.
  intros He H1 H2 Hl. assert (intent (e :: log) = delete c (intent log)) as -> by (by destruct He as [->| ->]).
  split_and!; [cbn; by rewrite H1| |].
  - intros c'. cbn. destruct (decide (c' = c)) as [->|]; [by rewrite !lookup_delete_eq|by rewrite !lookup_delete_ne].
  - intros k id ts Hin. assert (k <> Some c /\ (id, ts) ∈ owed k log) as [Hk Hin'].
    { destruct He as [->| ->]; cbn in Hin; (case_decide; [by apply not_elem_of_nil in Hin|done]). }
    destruct (Hl k id ts Hin') as (Hf & d & Hd & Hle). split; [done|]. exists d. split; [|done].
    destruct k as [c'|]; [|done]. cbn in *. by rewrite lookup_delete_ne by congruence.
Qed.

Lemma link_ok_unsubscribe c deferred s log : link_ok (Unsubscribe c :: deferred) s log -> link_ok deferred (unsubscribe c s) (Ran (Unsubscribe c) :: log).
Proof.
  intros ((H1 & H2 & H3 & H4) & Hl & Hf & Hd). destruct (unsubscribed_ok c s log (Ran (Unsubscribe c))) as (U1 & U2 & U3); [by left|done..|].
  split; [|done]. split_and!; [done|done|cbn; rewrite <-app_assoc; exact H3|done].
Qed.

Lemma link_ok_denied c deferred s log : link_ok deferred s log -> link_ok deferred (unsubscribe c s) (Denied c :: log).
Proof.
  intros ((H1 & H2 & H3 & H4) & Hl & Hf & Hd). destruct (unsubscribed_ok c s log (Denied c)) as (U1 & U2 & U3); [by right|done..|].
  split; [|done]. by split_and!.
Qed.

(** Commands that leave the subscriptions and the frames alone. *)
Definition indifferent (cmd : RelayCommand) : bool :=
  match cmd with SubscribeMembership | SubscribeObserverControls | SetStartupWatermark _ => true | PublishEvent e => negb (is_observer_frame e) | _ => false end.

Lemma link_ok_indifferent cmd deferred s log : indifferent cmd = true -> link_ok (cmd :: deferred) s log -> link_ok deferred s (Ran cmd :: log).
Proof.
  intros Hi ((H1 & H2 & H3 & H4) & Hl & Hf & Hd).
  assert (took (Ran cmd :: log) = ran (Ran cmd :: log) ++ data deferred) as Hfifo.
  { cbn. rewrite <-app_assoc, H3. f_equal. by destruct cmd. }
  destruct cmd as [| | | | | |e|]; try done. cbn in Hi. split; [by split_and!|]. split; [done|]. split; [|done].
  unfold frames_ok. cbn. apply negb_true_iff in Hi. rewrite Hi, app_nil_r. exact Hf.
Qed.

(** *** Observer frames moved *)

(** The part of the state that is not about frames. *)
Definition unframed (s : BgState) :=
  (active_subscriptions s, active_filters s, seen_ids s, (membership_dropped_since s, channel_dropped_since s)).

Lemma link_ok_frames deferred s s' log : unframed s' = unframed s -> frames_ok s' log -> link_ok deferred s log -> link_ok deferred s' log.
Proof.
  intros [= H1 H2 H3 H4 H5] Hf (Hs & Hl & _ & Hd). unfold link_ok, subscriptions_ok, losses_ok, dedup_ok, dropped_since in *.
  by rewrite H1, H2, H3, H4, H5.
Qed.

Lemma cap_full l : (N.of_nat (length l) <= GATED_OBSERVER_QUEUE_CAP)%N ->
  full l = true -> N.of_nat (length l) = GATED_OBSERVER_QUEUE_CAP /\ (N.of_nat (length (tail l)) + 1 = GATED_OBSERVER_QUEUE_CAP)%N.
Proof. intros Hl Hf%N.leb_le. split; [lia|]. destruct l; cbn in *; [|lia]. unfold GATED_OBSERVER_QUEUE_CAP in *. cbn in *. lia. Qed.

Lemma cap_free l : full l = false -> (N.of_nat (length l) + 1 <= GATED_OBSERVER_QUEUE_CAP)%N.
Proof. intros Hf%N.leb_gt. lia. Qed.

Lemma sublist_tail {A} (l : list A) : tail l `sublist_of` l.
Proof. destruct l; [done|]. by apply sublist_cons. Qed.

(** A frame is appended to a queue, at the cost of the oldest. *)
Lemma frames_park e s log log' :
  published log' = published log ++ [e] -> acknowledged log' = acknowledged log -> reported log' = reported log ->
  frames_ok s log -> frames_ok (park_gated_observer_frame e s) log'.
Proof.
  intros Hp Ha Hr (Hs & Hi & Hg & Hn). unfold frames_ok, park_gated_observer_frame. rewrite Hp, Ha, Hr.
  destruct (full (gated_observer_pending s)) eqn:Ef; cbn; rewrite app_assoc, !length_app; cbn.
  - destruct (cap_full _ Hg Ef) as [E1 E2]. split_and!; [|done|lia|lia].
    apply sublist_app; [|done]. etrans; [|exact Hs]. apply sublist_app; [done|apply sublist_tail].
  - pose proof (cap_free _ Ef). split_and!; [by apply sublist_app|done|lia|lia].
Qed.

Lemma frames_track e s log log' :
  gated_observer_pending s = [] ->
  published log' = published log ++ [e] -> acknowledged log' = acknowledged log -> reported log' = reported log ->
  frames_ok s log -> frames_ok (track_observer_in_flight e s) log'.
Proof.
  intros He Hp Ha Hr (Hs & Hi & Hg & Hn). unfold frames_ok, track_observer_in_flight. rewrite Hp, Ha, Hr. rewrite He in *. rewrite app_nil_r in Hs.
  destruct (full (observer_in_flight s)) eqn:Ef; cbn; rewrite He, app_nil_r, !length_app; cbn.
  - destruct (cap_full _ Hi Ef) as [E1 E2]. split_and!; [|lia|done|cbn in Hn; lia].
    apply sublist_app; [|done]. etrans; [|exact Hs]. apply sublist_tail.
  - pose proof (cap_free _ Ef). split_and!; [by apply sublist_app|lia|done|cbn in Hn; lia].
Qed.

(** A waiting frame goes out. *)
Lemma frames_drain e waiting s log :
  gated_observer_pending s = e :: waiting -> frames_ok s log -> frames_ok (track_observer_in_flight e (put_gated_observer_pending waiting s)) log.
Proof.
  intros He (Hs & Hi & Hg & Hn). unfold frames_ok, track_observer_in_flight. cbn. rewrite He in *. cbn in Hg, Hn.
  destruct (full (observer_in_flight s)) eqn:Ef; cbn; rewrite <-app_assoc, length_app; cbn.
  - destruct (cap_full _ Hi Ef) as [E1 E2]. split_and!; [|lia|lia|lia]. etrans; [|exact Hs]. apply sublist_app; [apply sublist_tail|done].
  - pose proof (cap_free _ Ef). split_and!; [done|lia|lia|lia].
Qed.

(** Unanswered frames wait again, ahead of the others. *)
Lemma frames_requeue s log : frames_ok s log -> frames_ok (requeue_observer_in_flight s) log.
Proof.
  intros (Hs & Hi & Hg & Hn). unfold frames_ok, requeue_observer_in_flight, evict_oldest. cbn.
  rewrite length_drop, length_app. unfold GATED_OBSERVER_QUEUE_CAP in *. split_and!; [|lia|lia|lia].
  etrans; [apply sublist_drop|exact Hs].
Qed.

Lemma remove_first_spec id l o l' :
  remove_first id l = (o, l') -> l' `sublist_of` l /\ length l = (length l' + match o with Some _ => 1 | None => 0 end)%nat /\ (o = None -> l' = l).
Proof.
  revert o l'. induction l as [|e l IH]; intros o l'; cbn; [by intros [= <- <-]|].
  destruct (String.eqb _ _); [intros [= <- <-]; split_and!; [by apply sublist_cons|lia|done]|].
  destruct (remove_first id l) as [o' l''] eqn:E. intros [= <- <-]. destruct (IH _ _ eq_refl) as (H1 & H2 & H3).
  split_and!; [by apply sublist_skip|cbn; lia|]. intros Ho. by rewrite H3.
Qed.

Lemma frames_ack e l' s log :
  l' `sublist_of` observer_in_flight s -> length (observer_in_flight s) = S (length l') -> frames_ok s log ->
  frames_ok (put_observer_in_flight l' s) (Acked e :: log).
Proof.
  intros Hl Hlen (Hs & Hi & Hg & Hn). unfold frames_ok. cbn. rewrite Hlen in *. split_and!; [|lia|done|lia].
  etrans; [|exact Hs]. by apply sublist_app.
Qed.

Lemma link_ok_publish e deferred s s' log :
  is_observer_frame e = true -> unframed s' = unframed s -> frames_ok s' (Ran (PublishEvent e) :: log) ->
  link_ok (PublishEvent e :: deferred) s log -> link_ok deferred s' (Ran (PublishEvent e) :: log).
Proof.
  intros Ho Hr Hf ((H1 & H2 & H3 & H4) & Hl & Hf0 & Hd). injection Hr as R1 R2 R3 R4 R5.
  unfold link_ok, subscriptions_ok, losses_ok, dedup_ok, dropped_since in *. rewrite R1, R2, R3, R4, R5. split; [|done].
  split_and!; [done|done|cbn; rewrite <-app_assoc; exact H3|done].
Qed.

Lemma published_publish e log : is_observer_frame e = true -> published (Ran (PublishEvent e) :: log) = published log ++ [e].
Proof. intros He. cbn. by rewrite He. Qed.

(** Losses are reported and counted from zero again. *)
Lemma link_ok_reported deferred s log :
  link_ok deferred s log -> link_ok deferred (put_gated_observer_dropped 0 s) (DropsReported (gated_observer_dropped s) :: log).
Proof.
  intros (Hs & Hl & (F1 & F2 & F3 & F4) & Hd). split; [done|]. split; [done|]. split; [|done].
  unfold frames_ok. cbn. split_and!; [done..|]. lia.
Qed.

(** *** A command carried out on the state *)

Lemma park_rest e s : unframed (park_gated_observer_frame e s) = unframed s.
Proof. unfold park_gated_observer_frame. by destruct (full _). Qed.
Lemma track_rest e s : unframed (track_observer_in_flight e s) = unframed s.
Proof. unfold track_observer_in_flight. by destruct (full _). Qed.

Lemma seed_core t c r s : core (seed_subscribe_since t c r s) = core s.
Proof. unfold seed_subscribe_since. by destruct (subscribe_since s !! c). Qed.

Lemma link_ok_apply t cmd deferred s log :
  is_data cmd = true -> link_ok (cmd :: deferred) s log -> link_ok deferred (apply_command_to_state t cmd s) (Ran cmd :: log).
Proof.
  intros Hd H. destruct cmd as [c f r|c| | | | |e|ts]; try done; cbn.
  - eapply link_ok_subscribe; [|exact H]. apply seed_core.
  - by apply link_ok_unsubscribe.
  - eapply link_ok_core; [|by apply link_ok_indifferent]. done.
  - eapply link_ok_core; [|by apply link_ok_indifferent]. done.
  - destruct (is_observer_frame e) eqn:Eo.
    + eapply link_ok_publish; [done|apply park_rest| |exact H]. eapply frames_park; [by apply published_publish|done|done|apply H].
    + apply link_ok_indifferent; [cbn; by rewrite Eo|done].
  - eapply link_ok_core; [|by apply link_ok_indifferent]. unfold set_watermark. cbn. by destruct (membership_last_seen s).
Qed.
End spec.

(** ** The operations *)

Create HintDb link discriminated.

Section task_theory.
Context `{NL : NostrLib, JL : JsonLib, QE : QueueEnv, LW : LinkWorld, LL : LinkLib}.
Variables (agent_pubkey_hex relay_url : string) (auth_tag : option Tag) (fuel : nat) (seed : N).

(** The invariant with commands put off, and with one being carried out. *)
Definition I (deferred : list RelayCommand) (l : Link) : Prop := link_ok agent_pubkey_hex deferred (l_state l) (l_log l).
Definition started (cmd : RelayCommand) (deferred : list RelayCommand) (l : Link) : Prop :=
  exists log, l_log l = Ran cmd :: log /\ link_ok agent_pubkey_hex (cmd :: deferred) (l_state l) log.

(** Where an operation stops short, the invariant holds for some commands put
    off, and for none between the turns of the main loop. *)
Definition triple {A} (P : Link -> Prop) (m : M A) (Q : A -> Link -> Prop) : Prop :=
  forall l, P l -> match m l with (Ok a, l') => Q a l' | (Err st, l') => exists deferred, I deferred l' /\ (st = BetweenTurns -> deferred = []) end.

Definition keeps {A} (m : M A) : Prop := forall deferred, triple (I deferred) m (fun _ => I deferred).

(** *** Rules *)

Lemma triple_ret {A} (P : Link -> Prop) (a : A) (Q : A -> Link -> Prop) : (forall l, P l -> Q a l) -> triple P (ret a) Q.
Proof. intros H l Hl. by apply H. Qed.

Lemma triple_bind {A B} P (m : M A) (k : A -> M B) Q R : triple P m Q -> (forall a, triple (Q a) (k a) R) -> triple P (bind m k) R.
Proof.
  intros Hm Hk l Hl. specialize (Hm l Hl). unfold bind. destruct (m l) as [[a|st] l']; [|done]. by apply Hk.
Qed.

Lemma triple_pre {A} (P P' : Link -> Prop) (m : M A) Q : (forall l, P l -> P' l) -> triple P' m Q -> triple P m Q.
Proof. intros HP Hm l Hl. by apply Hm, HP. Qed.

Lemma triple_post {A} P (m : M A) (Q Q' : A -> Link -> Prop) : (forall a l, Q' a l -> Q a l) -> triple P m Q' -> triple P m Q.
Proof. intros HQ Hm l Hl. specialize (Hm l Hl). destruct (m l) as [[a|st] l']; [by apply HQ|done]. Qed.

(** The state that was read is the state at hand. *)
Lemma triple_get {B} P (k : BgState -> M B) R : (forall s, triple (fun l => P l /\ l_state l = s) (k s) R) -> triple P (bind get_state k) R.
Proof. intros Hk l Hl. by apply Hk. Qed.

Lemma keeps_ret {A} (a : A) : keeps (ret a).
Proof. intros d. by apply triple_ret. Qed.

Lemma keeps_stop {A} st : st <> BetweenTurns -> keeps (stop (A:=A) st).
Proof. intros Hst d l Hl. exists d. by split. Qed.

Lemma keeps_bind {A B} (m : M A) (k : A -> M B) : keeps m -> (forall a, keeps (k a)) -> keeps (bind m k).
Proof. intros Hm Hk d. eapply triple_bind; [apply Hm|]. intros a. apply Hk. Qed.

Lemma keeps_get {B} (k : BgState -> M B) : (forall s, keeps (k s)) -> keeps (bind get_state k).
Proof. intros Hk d. apply triple_get. intros s. eapply triple_pre; [|apply Hk]. by intros l [? _]. Qed.

Lemma keeps_ask {A} (f : World -> A * World) : keeps (ask f).
Proof. intros d l Hl. unfold ask. by destruct (f (l_world l)). Qed.

Lemma keeps_modify f : (forall s, core (f s) = core s) -> keeps (modify f).
Proof. intros Hf d l Hl. eapply link_ok_core; [|exact Hl]. apply Hf. Qed.

Lemma keeps_log e : neutral e = true -> keeps (log e).
Proof. intros He d l Hl. by apply link_ok_neutral. Qed.

Lemma keeps_effect {A} (f : World -> A * World) entry : (forall a, neutral (entry a) = true) -> keeps (effect f entry).
Proof. intros He d l Hl. unfold effect. destruct (f (l_world l)) as [a w]. by apply link_ok_neutral. Qed.

(** Readings, which change nothing the invariant speaks of and always end. *)
Definition calm {A} (m : M A) : Prop :=
  forall l, exists a l', m l = (Ok a, l') /\ core (l_state l') = core (l_state l) /\ l_log l' = l_log l.

Lemma calm_started {A} (m : M A) cmd d : calm m -> triple (started cmd d) m (fun _ => started cmd d).
Proof.
  intros Hm l (log & Hlog & Hok). destruct (Hm l) as (a & l' & E & Hc & Hl). rewrite E. exists log. rewrite Hl. split; [done|].
  by eapply link_ok_core.
Qed.

Lemma calm_keeps {A} (m : M A) : calm m -> keeps m.
Proof. intros Hm d l Hok. destruct (Hm l) as (a & l' & E & Hc & Hl). rewrite E. unfold I. rewrite Hl. by eapply link_ok_core. Qed.

Lemma calm_ret {A} (a : A) : calm (ret a).
Proof. intros l. by exists a, l. Qed.
Lemma calm_ask {A} (f : World -> A * World) : calm (ask f).
Proof. intros l. unfold ask. destruct (f (l_world l)) as [a w]. by exists a, (mkLink (l_state l) w (l_log l)). Qed.
Lemma calm_modify f : (forall s, core (f s) = core s) -> calm (modify f).
Proof. intros Hf l. exists tt, (mkLink (f (l_state l)) (l_world l) (l_log l)). split_and!; [done|apply Hf|done]. Qed.
Lemma calm_get : calm get_state.
Proof. intros l. by exists (l_state l), l. Qed.
Lemma calm_bind {A B} (m : M A) (k : A -> M B) : calm m -> (forall a, calm (k a)) -> calm (bind m k).
Proof.
  intros Hm Hk l. destruct (Hm l) as (a & l1 & E1 & C1 & L1). destruct (Hk a l1) as (b & l2 & E2 & C2 & L2).
  exists b, l2. unfold bind. rewrite E1. split; [done|]. by rewrite C2, L2.
Qed.

Lemma calm_gate : calm check_rate_gate.
Proof.
  unfold check_rate_gate. apply calm_bind; [apply calm_get|]. intros s. destruct (rate_limit_gate s); [|apply calm_ret].
  apply calm_bind; [apply calm_ask|]. intros t. destruct (_ <? _)%N; [apply calm_ret|]. apply calm_bind; [by apply calm_modify|]. intros; apply calm_ret.
Qed.

Lemma calm_gated : calm gated.
Proof. apply calm_bind; [apply calm_gate|]. intros; apply calm_ret. Qed.

(** *** Writes *)

Lemma write_ok f (P : Link -> Prop) (Q : bool -> Link -> Prop) :
  (forall l w ok, P l -> Q ok (mkLink (l_state l) w (written ok f :: l_log l))) -> triple P (ws_send f) Q.
Proof.
  intros H l Hl. unfold ws_send, ws_send_timeout, effect, bind. destruct (w_send f (l_world l)) as [r w]. specialize (H l w (is_ok r) Hl).
  by destruct r.
Qed.

Lemma keeps_send f : (forall d l, I d l -> frame_ok agent_pubkey_hex f (l_log l)) -> keeps (ws_send f).
Proof.
  intros Hf d. apply write_ok. intros l w ok Hl. by apply link_ok_written; [eapply Hf|].
Qed.

Lemma keeps_send_plain f : plain_frame f = true -> keeps (ws_send f).
Proof. intros Hf. apply keeps_send. intros d l _. by apply plain_frame_ok. Qed.

Lemma req_inj sub fields sub' fields' : FJson (req sub fields) = FJson (req sub' fields') -> sub = sub' /\ fields = fields'.
Proof. by intros [= -> ->]. Qed.

Lemma frame_ok_membership fields log : frame_ok agent_pubkey_hex (FJson (req MEMBERSHIP_NOTIF_SUB_ID fields)) log.
Proof. intros sub fields' [<- _]%req_inj. by left. Qed.
Lemma frame_ok_observer fields log : frame_ok agent_pubkey_hex (FJson (req OBSERVER_CONTROL_SUB_ID fields)) log.
Proof. intros sub fields' [<- _]%req_inj. by right; left. Qed.
Lemma frame_ok_channel c filter ts log : intent log !! c = Some filter -> frame_ok agent_pubkey_hex (FJson (channel_req agent_pubkey_hex c filter ts)) log.
Proof. intros Hi sub fields _. right; right. eauto. Qed.

Lemma calm_since since : calm (since_or_now since).
Proof. destruct since; [apply calm_ret|apply calm_ask]. Qed.

(** A replay starts no later than asked. *)
Lemma since_or_now_spec since (P : Link -> Prop) :
  (forall l l', core (l_state l') = core (l_state l) -> l_log l' = l_log l -> P l -> P l') ->
  triple P (since_or_now since) (fun ts l => P l /\ forall t, since = Some t -> (ts <= t)%N).
Proof.
  intros HP l Hl. destruct since as [t|]; cbn.
  - split; [done|]. intros t' [= <-]. unfold SINCE_SKEW_SECS. lia.
  - unfold unix_now, ask. destruct (w_unix (l_world l)) as [u w]. split; [|done]. by eapply HP; [| |exact Hl].
Qed.

Lemma keeps_membership_subscribe since : keeps (send_membership_subscribe agent_pubkey_hex since).
Proof. apply keeps_bind; [apply calm_keeps, calm_since|]. intros ts. apply keeps_send. intros d l _. apply frame_ok_membership. Qed.

Lemma keeps_observer_subscribe : keeps (send_observer_control_subscribe agent_pubkey_hex).
Proof. apply keeps_bind; [apply keeps_ask|]. intros ts. apply keeps_send. intros d l _. apply frame_ok_observer. Qed.

(** A channel asked for again, from where its losses start. *)
Lemma resubscribe_channel_ok c filter d :
  triple (fun l => I d l /\ active_filters (l_state l) !! c = Some filter) (resubscribe_channel agent_pubkey_hex c filter)
    (fun _ l => I d l /\ active_filters (l_state l) !! c = Some filter).
Proof.
  unfold resubscribe_channel. apply triple_get. intros s. unfold send_subscribe.
  set (P l := I d l /\ active_filters (l_state l) !! c = Some filter /\ forall x, channel_dropped_since (l_state l) !! c = Some x -> exists t, channel_since c s = Some t /\ (t <= x)%N).
  eapply (triple_pre _ P). { intros l [[H1 H2] <-]. split_and!; [done|done|]. intros x. apply channel_since_reaches. }
  eapply (triple_bind _ _ _ (fun ok l => (if (ok : bool) then I d (mkLink (put_channel_dropped_since (delete c (channel_dropped_since (l_state l))) (l_state l)) (l_world l) (l_log l)) else I d l) /\
    active_filters (l_state l) !! c = Some filter)).
  - eapply triple_bind; [apply (since_or_now_spec _ P)|].
    { intros l l' Hc Hl (H1 & H2 & H3). injection Hc as C1 C2 C3 C4 C5 C6 C7 C8. unfold P, I. rewrite Hl, C2, C5. split_and!; [|done|done].
      eapply link_ok_core; [|exact H1]. unfold core. congruence. }
    intros ts. apply write_ok. intros l w ok [(H1 & H2 & H3) Hts].
    assert (intent (l_log l) !! c = Some filter) as Hint by (destruct H1 as ((<- & _) & _); done).
    split; [|done]. destruct ok; [|by apply link_ok_failed; [apply frame_ok_channel|]].
    eapply (link_ok_settled _ (Some c)); [by apply frame_ok_channel|apply asked_channel| | | |exact H1]; cbn.
    + intros x Hx. destruct (H3 x Hx) as (t & Ht & Hle). specialize (Hts t Ht). lia.
    + done.
    + intros [c'|] Hne; cbn; [|done]. rewrite lookup_delete_ne by congruence. done.
  - intros ok. apply (triple_bind _ _ _ (fun _ l => I d l /\ active_filters (l_state l) !! c = Some filter));
      [destruct ok; [intros l Hl; exact Hl|by apply triple_ret]|intros ?; by apply triple_ret].
Qed.

Lemma keeps_resubscribe_membership : keeps (resubscribe_membership agent_pubkey_hex).
Proof.
  intros d. unfold resubscribe_membership. apply triple_get. intros s. unfold send_membership_subscribe.
  set (P l := I d l /\ forall x, membership_dropped_since (l_state l) = Some x -> exists t, membership_since s = Some t /\ (t <= x)%N).
  eapply (triple_pre _ P). { intros l [H1 <-]. split; [done|]. intros x. apply membership_since_reaches. }
  eapply (triple_bind _ _ _ (fun ok l => if (ok : bool) then I d (mkLink (put_membership_dropped_since None (l_state l)) (l_world l) (l_log l)) else I d l)).
  - eapply triple_bind; [apply (since_or_now_spec _ P)|].
    { intros l l' Hc Hl (H1 & H3). injection Hc as C1 C2 C3 C4 C5 C6 C7 C8. unfold P, I. rewrite Hl, C4. split; [|done].
      eapply link_ok_core; [|exact H1]. unfold core. congruence. }
    intros ts. apply write_ok. intros l w ok [(H1 & H3) Hts].
    destruct ok; [|by apply link_ok_failed; [apply frame_ok_membership|]].
    eapply (link_ok_settled _ None); [apply frame_ok_membership|reflexivity| | | |exact H1]; cbn.
    + intros x Hx. destruct (H3 x Hx) as (t & Ht & Hle). specialize (Hts t Ht). lia.
    + done.
    + by intros [c'|] Hne.
  - intros ok. apply (triple_bind _ _ _ (fun _ => I d)); [destruct ok; [intros l Hl; exact Hl|by apply triple_ret]|intros ?; by apply triple_ret].
Qed.

(** *** Automation *)

Hint Resolve keeps_ask keeps_membership_subscribe keeps_observer_subscribe keeps_resubscribe_membership : link.
Hint Extern 1 (keeps gated) => apply calm_keeps, calm_gated : link.
Hint Extern 1 (keeps check_rate_gate) => apply calm_keeps, calm_gate : link.
Hint Extern 1 (keeps (ws_send _)) => apply keeps_send_plain; reflexivity : link.
Hint Extern 1 (keeps now) => apply keeps_ask : link.
Hint Extern 1 (keeps unix_now) => apply keeps_ask : link.

(** Goes through an operation whose parts keep the invariant. *)
Ltac keep :=
  repeat first
    [ apply keeps_ret | apply keeps_stop; done | solve [auto with link] | apply keeps_get; intros ? | apply keeps_bind; [|intros ?]
    | match goal with |- keeps (match ?x with _ => _ end) => destruct x end
    | apply keeps_modify; intros ?; try done | apply keeps_log; done | apply keeps_effect; intros ?; done ].

(** *** Commands *)

Lemma log_ran cmd d : triple (I (cmd :: d)) (log (Ran cmd)) (fun _ => started cmd d).
Proof. intros l Hl. by exists (l_log l). Qed.

Lemma log_took cmd d : triple (I d) (log (Took cmd)) (fun _ => I (d ++ [cmd])).
Proof.
  intros l ((H1 & H2 & H3 & H4) & Hrest). split; [|done]. split_and!; [done|done| |done].
  cbn. unfold data in *. rewrite filter_app, app_assoc. by f_equal.
Qed.

Lemma I_control cmd d l : is_data cmd = false -> I (cmd :: d) l <-> I d l.
Proof. intros Hc. unfold I, link_ok, subscriptions_ok. by destruct cmd. Qed.

Lemma apply_started cmd d : is_data cmd = true -> triple (started cmd d) (apply_command cmd) (fun _ => I d).
Proof.
  intros Hd. eapply triple_bind; [apply calm_started, calm_ask|]. intros t l (log & Hlog & Hok). unfold I. cbn. rewrite Hlog. by apply link_ok_apply.
Qed.

Lemma run_applied cmd d : triple (I (cmd :: d)) (log (Ran cmd);; apply_command cmd) (fun _ => I d).
Proof.
  destruct (is_data cmd) eqn:Ed; [eapply triple_bind; [apply log_ran|intros ?; by apply apply_started]|].
  apply (triple_pre _ (I d)); [intros l Hl; by apply (I_control cmd d l Ed)|].
  assert (keeps (log (Ran cmd);; apply_command cmd)) as Hk; [|apply Hk].
  apply keeps_bind; [apply keeps_log; by destruct cmd|]. intros ?. apply keeps_bind; [apply keeps_ask|]. intros t. apply keeps_modify. by destruct cmd.
Qed.

(** A subscription being carried out: the wish is as good as recorded. *)
Lemma execute_subscribe_ok c f r d : triple (started (Subscribe c f r) d) (execute_subscribe agent_pubkey_hex c f r) (fun _ => I d).
Proof.
  unfold execute_subscribe. eapply triple_bind; [apply calm_started, calm_gate|]. intros [retry_after|].
  - eapply triple_bind; [by apply apply_started|]. intros ?. apply (triple_bind _ _ _ (fun _ => I d)); [apply keeps_modify|intros ?; by apply triple_ret]. done.
  - eapply triple_bind; [apply calm_started, calm_ask|]. intros t. eapply triple_bind; [apply calm_started, calm_modify, seed_core|]. intros ?.
    eapply triple_bind; [apply calm_started, calm_get|]. intros s. unfold send_subscribe.
    apply (triple_bind _ _ _ (fun ok l => if (ok : bool) then I d (mkLink (want c f (l_state l)) (l_world l) (l_log l))
      else I d (mkLink (want c f (l_state l)) (l_world l) (l_log l)))).
    { eapply triple_bind; [apply calm_started, calm_since|]. intros ts. apply write_ok. intros l w ok (log & Hlog & Hok). unfold I. cbn. rewrite Hlog.
      assert (link_ok agent_pubkey_hex d (want c f (l_state l)) (Ran (Subscribe c f r) :: log)) as Hw by (by eapply link_ok_subscribe).
      assert (intent (Ran (Subscribe c f r) :: log) !! c = Some f) as Hi by apply lookup_insert_eq.
      destruct ok; by apply link_ok_written; [apply frame_ok_channel|]. }
    intros [].
    + apply (triple_bind _ _ _ (fun _ => I d)); [by intros l Hl|]. intros ?.
      apply (triple_bind _ _ _ (fun _ => I d)); [by apply keeps_modify|]. intros ?.
      apply (triple_bind _ _ _ (fun _ => I d)); [by apply keeps_modify|]. intros ?. by apply triple_ret.
    + apply (triple_bind _ _ _ (fun _ => I d)); [|intros ?; by apply triple_ret].
      apply (triple_bind _ _ _ (fun _ l => I d (mkLink (want c f (l_state l)) (l_world l) (l_log l)))).
      { intros l Hl. unfold unix_now, ask. by destruct (w_unix (l_world l)). }
      intros u l Hl. unfold I in *. cbn in *. eapply link_ok_core; [|exact Hl]. apply seed_core.
Qed.

Lemma execute_unsubscribe_ok c d : triple (started (Unsubscribe c) d) (execute_unsubscribe c) (fun _ => I d).
Proof.
  unfold execute_unsubscribe. apply triple_get. intros s.
  apply (triple_bind _ _ _ (fun _ l => I d (mkLink (clear_channel_state c (l_state l)) (l_world l) (l_log l))));
    [|intros ?; apply (triple_bind _ _ _ (fun _ => I d)); [intros l Hl; exact Hl|intros ?; by apply triple_ret]].
  destruct (active_subscriptions s !! c) as [sub|] eqn:Es.
  - intros l [(log & Hlog & Hok) _].
    assert (link_ok agent_pubkey_hex d (unsubscribe c (l_state l)) (Ran (Unsubscribe c) :: log)) as Hu by (by apply link_ok_unsubscribe).
    unfold bind, modify, ws_send, ws_send_timeout, effect, bind. cbn. destruct (w_send _ (l_world l)) as [[] w]; cbn; unfold I; cbn; rewrite Hlog;
      [apply link_ok_sent|apply link_ok_failed]; try exact Hu; by apply plain_frame_ok.
  - apply triple_ret. intros l [(log & Hlog & Hok) <-]. unfold I. cbn. rewrite Hlog. eapply link_ok_core; [|by apply link_ok_unsubscribe].
    unfold core. cbn. by rewrite (delete_id _ _ Es).
Qed.

(** A gate found open is gone. *)
Lemma gated_open l l' : gated l = (Ok false, l') -> rate_limit_gate (l_state l') = None.
Proof.
  unfold gated, check_rate_gate, bind, get_state. destruct (rate_limit_gate (l_state l)) as [t|] eqn:Eg; [|by intros [= <-]].
  unfold now, ask. destruct (w_now (l_world l)) as [u w]. cbn. by destruct (_ <? _)%N; intros [= <-].
Qed.

Lemma gated_none l : rate_limit_gate (l_state l) = None -> gated l = (Ok false, l).
Proof. intros Hg. unfold gated, check_rate_gate, bind, get_state. by rewrite Hg. Qed.

(** An observer frame that need not wait finds the gate gone and the queue
    empty. *)
Definition may_go (e : Event) (s : BgState) : Prop := is_observer_frame e = true -> gated_observer_pending s = [] /\ rate_limit_gate s = None.

Lemma must_park_ok e d :
  triple (started (PublishEvent e) d) (must_park e)
    (fun park l => started (PublishEvent e) d l /\ (if (park : bool) then is_observer_frame e = true else may_go e (l_state l))).
Proof.
  unfold must_park, may_go. destruct (is_observer_frame e) eqn:Eo; [|by apply triple_ret].
  apply (triple_bind _ _ _ (fun g l => started (PublishEvent e) d l /\ (g = false -> rate_limit_gate (l_state l) = None))).
  { intros l Hl. pose proof (calm_started gated _ _ calm_gated l Hl) as Hs. destruct (gated l) as [[[]|] l'] eqn:Eg; [by split| |done].
    split; [done|]. intros ?. by eapply gated_open. }
  intros []; [by apply triple_ret; intros l [? _]|]. apply triple_get. intros s. apply triple_ret.
  intros l [[Hl Hg] <-]. split; [done|]. case_bool_decide; cbn; auto.
Qed.

(** The frame of an event was written, or was not. *)
Definition event_frame (e : Event) : Frame := FJson (VArray [VString "EVENT"; event_value e]).
Definition published_ok (ok : bool) (e : Event) (d : list RelayCommand) (l : Link) : Prop :=
  exists log0, link_ok agent_pubkey_hex (PublishEvent e :: d) (l_state l) log0 /\ may_go e (l_state l) /\ l_log l = written ok (event_frame e) :: Ran (PublishEvent e) :: log0.

Lemma park_published e d s log0 :
  is_observer_frame e = true -> link_ok agent_pubkey_hex (PublishEvent e :: d) s log0 ->
  link_ok agent_pubkey_hex d (park_gated_observer_frame e s) (Ran (PublishEvent e) :: log0).
Proof.
  intros Ho Hok. eapply link_ok_publish; [done|apply park_rest| |exact Hok]. eapply frames_park; [by apply published_publish|done|done|apply Hok].
Qed.

Lemma plain_published e d s log0 :
  is_observer_frame e = false -> link_ok agent_pubkey_hex (PublishEvent e :: d) s log0 -> link_ok agent_pubkey_hex d s (Ran (PublishEvent e) :: log0).
Proof. intros Ho. apply link_ok_indifferent. cbn. by rewrite Ho. Qed.

(** After the write the frame waits for its answer, or for another chance. *)
Lemma settle_published ok e d :
  triple (published_ok ok e d)
    (if ok then (if is_observer_frame e then modify (track_observer_in_flight e) else ret tt)
     else if is_observer_frame e then modify (park_gated_observer_frame e) else ret tt) (fun _ => I d).
Proof.
  destruct (is_observer_frame e) eqn:Eo.
  - assert (triple (published_ok ok e d) (modify (fun s => if ok then track_observer_in_flight e s else park_gated_observer_frame e s)) (fun _ => I d)) as Hm; [|by destruct ok].
    intros l (log0 & Hok & Hgo & Hlog). unfold I. cbn. rewrite Hlog. apply link_ok_plain; [done|]. destruct ok; [|by apply park_published].
    eapply link_ok_publish; [done|apply track_rest| |exact Hok]. eapply frames_track; [by apply Hgo|by apply published_publish|done|done|apply Hok].
  - assert (triple (published_ok ok e d) (ret tt) (fun _ => I d)) as Hm; [|by destruct ok].
    apply triple_ret. intros l (log0 & Hok & _ & Hlog). unfold I. rewrite Hlog. apply link_ok_plain; [done|]. by apply plain_published.
Qed.

Lemma execute_publish_ok e d : triple (started (PublishEvent e) d) (execute_publish e) (fun _ => I d).
Proof.
  unfold execute_publish. eapply triple_bind; [apply must_park_ok|]. intros [].
  { apply (triple_bind _ _ _ (fun _ => I d)); [|intros ?; by apply triple_ret]. intros l [(log0 & Hlog & Hok) Ho]. unfold I. cbn. rewrite Hlog. by apply park_published. }
  apply (triple_bind _ _ _ (fun g l => (started (PublishEvent e) d l /\ may_go e (l_state l)) /\ (g = true -> is_observer_frame e = false))).
  { intros l [Hl Hgo]. pose proof (calm_started gated _ _ calm_gated l Hl) as Hs. destruct (is_observer_frame e) eqn:Eo.
    - destruct (Hgo Eo) as [_ Hg]. rewrite (gated_none l Hg). by split.
    - destruct (gated l) as [[g|] l'] eqn:Eg; [|done]. unfold may_go. rewrite Eo. by split. }
  intros []; [apply triple_ret; intros l [[(log0 & Hlog & Hok) _] Ho]; unfold I; rewrite Hlog; apply plain_published; auto|].
  apply (triple_bind _ _ _ (fun ok => published_ok ok e d)).
  { apply write_ok. intros l w ok [[(log0 & Hlog & Hok) Hgo] _]. exists log0. cbn. by rewrite Hlog. }
  intros ok. apply (triple_bind _ _ _ (fun _ => I d)); [apply settle_published|intros ?; by apply triple_ret].
Qed.

Lemma keeps_execute_membership : keeps (execute_membership agent_pubkey_hex).
Proof. unfold execute_membership. keep. by destruct (membership_last_seen s0). Qed.

Lemma keeps_execute_observer : keeps (execute_observer_controls agent_pubkey_hex).
Proof. unfold execute_observer_controls. keep. Qed.

Lemma execute_ok cmd d : is_data cmd = true -> triple (started cmd d) (execute_connected_command agent_pubkey_hex cmd) (fun _ => I d).
Proof.
  intros Hd. assert (indifferent cmd = true -> forall l, started cmd d l -> I d l) as Hi.
  { intros Hi l (log0 & Hlog & Hok). unfold I. rewrite Hlog. by apply link_ok_indifferent. }
  destruct cmd as [c f r|c| | | | |e|ts]; try done; cbn.
  - apply execute_subscribe_ok.
  - apply execute_unsubscribe_ok.
  - eapply triple_pre; [by apply Hi|]. apply keeps_execute_membership.
  - eapply triple_pre; [by apply Hi|]. apply keeps_execute_observer.
  - apply execute_publish_ok.
  - eapply triple_pre; [by apply Hi|]. assert (keeps (modify (set_watermark ts);; ret true)) as Hk; [|apply Hk]. keep.
    unfold set_watermark. cbn. by destruct (membership_last_seen s).
Qed.

(** *** Messages of the relay *)

Lemma keeps_jittered base : keeps (jittered_duration base).
Proof. unfold jittered_duration. keep. Qed.
Lemma keeps_instant_add t x : keeps (instant_add t x).
Proof. unfold instant_add. keep. Qed.
Hint Resolve keeps_jittered keeps_instant_add : link.

Lemma keeps_set_gate secs : keeps (set_rate_limit_gate secs).
Proof. unfold set_rate_limit_gate. keep. Qed.
Hint Resolve keeps_set_gate : link.

Lemma keeps_drop_denied sub msg : keeps (drop_channel_on_access_denied sub msg).
Proof.
  unfold drop_channel_on_access_denied. destruct (negb _); [apply keeps_ret|].
  destruct (channel_id_from_sub_id sub) as [c|]; [|apply keeps_ret]. intros d.
  apply (triple_bind _ _ _ (fun _ l => I d (mkLink (unsubscribe c (l_state l)) (l_world l) (l_log l)))); [intros l Hl; by apply link_ok_denied|].
  intros ?. apply (triple_bind _ _ _ (fun _ => I d)); [intros l Hl; exact Hl|intros ?; by apply triple_ret].
Qed.

Lemma dedup_insert_true id x x' : dedup_insert id x = (true, x') -> dedup_contains id x = false.
Proof. unfold dedup_insert. by destruct (dedup_contains id x). Qed.

(** An event that was new, offered; [d] is the set with it. *)
Lemma offer_known via e (l : Link) (s' : BgState) w r d dd :
  dedup_insert (event_id_of e) (seen_ids (l_state l)) = (true, dd) ->
  unframed (put_seen_ids (seen_ids (l_state l)) (put_membership_dropped_since (membership_dropped_since (l_state l))
    (put_channel_dropped_since (channel_dropped_since (l_state l)) s'))) = unframed (l_state l) ->
  (gated_observer_pending s', observer_in_flight s', gated_observer_dropped s') =
    (gated_observer_pending (l_state l), observer_in_flight (l_state l), gated_observer_dropped (l_state l)) ->
  seen_ids s' = (match r with SendFull => dedup_remove (event_id_of e) dd | _ => dd end) ->
  (forall k, dropped_since k s' = if decide (r = SendFull /\ origin via e = k)
    then Some (min_or (dropped_since k (l_state l)) (ev_created_at (bz_event e))) else dropped_since k (l_state l)) ->
  I d l -> I d (mkLink s' w (Offered via e r :: l_log l)).
Proof.
  intros Hd [= U1 U2] Hf Hseen Hk Hl. eapply link_ok_offer; [by eapply dedup_insert_true| |exact Hk|done|done|done|exact Hl].
  cbn. rewrite Hseen. unfold seen_after. by rewrite Hd.
Qed.

Lemma keeps_membership_event e : keeps (on_membership_event e).
Proof.
  unfold on_membership_event. destruct (extract_h_tag_uuid e) as [c|]; [|apply keeps_ret]. intros d. apply triple_get. intros s.
  destruct (dedup_insert (to_hex (ev_id e)) (seen_ids s)) as [[] dd] eqn:Ed; cbn [negb]; [|by apply triple_ret; intros l [? _]].
  intros l [Hl <-]. unfold bind, modify, offer, effect. cbn.
  destruct (w_event_tx _ (l_world l)) as [[] w]; cbn;
    (eapply offer_known; [exact Ed|done|done|done| |exact Hl]); intros [c'|]; cbn; try done; by rewrite decide_False by naive_solver.
Qed.

Lemma keeps_channel_event c e : keeps (on_channel_event c e).
Proof.
  unfold on_channel_event. intros d. apply triple_get. intros s. unfold record_event.
  destruct (dedup_insert (to_hex (ev_id e)) (seen_ids s)) as [[] dd] eqn:Ed; cbn [negb]; [|by apply triple_ret; intros l [? _]].
  intros l [Hl <-]. unfold bind, modify, offer, effect. cbn.
  destruct (w_event_tx _ (l_world l)) as [[] w]; cbn; (eapply offer_known; [exact Ed|done|done|done| |exact Hl]); intros [c'|]; cbn; try done.
  case_decide as Hc; [destruct Hc as [_ [= <-]]; apply lookup_insert_eq|]. apply lookup_insert_ne. naive_solver.
Qed.
Hint Resolve keeps_drop_denied keeps_membership_event keeps_channel_event : link.

Lemma keeps_event sub e : keeps (on_event sub e).
Proof. unfold on_event. keep. Qed.

Lemma keeps_rate_limited sub msg : keeps (on_rate_limited_close sub msg).
Proof. unfold on_rate_limited_close. keep. Qed.

(** A channel whose filter was just read. *)
Lemma with_filter {B} d c s (k : ChannelFilter -> M B) (k0 : M B) R :
  (forall f, triple (fun l => I d l /\ active_filters (l_state l) !! c = Some f) (k f) R) ->
  triple (I d) k0 R ->
  triple (fun l => I d l /\ l_state l = s) (match active_filters s !! c with None => k0 | Some f => k f end) R.
Proof.
  intros Hk H0. destruct (active_filters s !! c) as [f|] eqn:Ef.
  - eapply triple_pre; [|apply Hk]. intros l [Hl <-]. done.
  - eapply triple_pre; [|exact H0]. by intros l [? _].
Qed.

Lemma keeps_restore_closed sub : keeps (restore_closed agent_pubkey_hex sub).
Proof.
  unfold restore_closed. destruct (String.eqb sub _); [keep|]. destruct (String.eqb sub _); [keep|].
  destruct (channel_id_from_sub_id sub) as [c|]; [|keep]. intros d. apply triple_get. intros s.
  destruct (active_subscriptions s !! c) as [sid|] eqn:Ea; [|by apply triple_ret; intros l [? _]].
  apply (with_filter d); [|by apply triple_ret]. intros f.
  eapply triple_bind; [apply resubscribe_channel_ok|]. intros []; [|by apply triple_ret; intros l [? _]].
  apply (triple_bind _ _ _ (fun _ => I d)); [|intros ?; by apply triple_ret]. intros l [Hl Hf].
  eapply link_ok_core; [|exact Hl]. unfold core. cbn. f_equal. repeat f_equal. apply insert_id.
  destruct Hl as ((H1 & H2 & _) & _). rewrite H2, <-H1, Hf. done.
Qed.
Hint Resolve keeps_event keeps_rate_limited keeps_restore_closed : link.

Lemma keeps_closed sub msg : keeps (on_closed agent_pubkey_hex sub msg).
Proof. unfold on_closed. keep. Qed.

Lemma keeps_requeue : keeps (modify requeue_observer_in_flight).
Proof. intros d l Hl. eapply link_ok_frames; [|apply frames_requeue, Hl|exact Hl]. done. Qed.
Hint Resolve keeps_requeue : link.

Lemma keeps_notice msg : keeps (on_notice msg).
Proof. unfold on_notice. keep. Qed.

Lemma keeps_acknowledge id : keeps (acknowledge_observer_frame id).
Proof.
  intros d. unfold acknowledge_observer_frame. apply triple_get. intros s. destruct (remove_first id (observer_in_flight s)) as [o l'] eqn:Er.
  destruct (remove_first_spec _ _ _ _ Er) as (Hsub & Hlen & Hnone). intros l [Hl <-]. destruct o as [e|]; cbn.
  - assert (frames_ok (put_observer_in_flight l' (l_state l)) (Acked e :: l_log l)) as Hf by (apply frames_ack; [done|lia|apply Hl]).
    destruct Hl as (Hs & Hlo & _ & Hd). done.
  - eapply link_ok_core; [|exact Hl]. unfold core. cbn. by rewrite (Hnone eq_refl).
Qed.

Lemma keeps_auth_response challenge : keeps (send_auth_response relay_url auth_tag challenge).
Proof.
  unfold send_auth_response. destruct (auth_event _ _ _) as [e|]; [|apply keeps_ret]. intros d l Hl. unfold ws_send_timeout, effect, bind.
  destruct (w_send _ (l_world l)) as [[] w]; cbn; [apply link_ok_sent|apply link_ok_failed]; try done; by apply plain_frame_ok.
Qed.
Hint Resolve keeps_closed keeps_notice keeps_acknowledge keeps_auth_response : link.

Lemma keeps_relay_message m : keeps (on_relay_message agent_pubkey_hex relay_url auth_tag m).
Proof. unfold on_relay_message. keep. Qed.
Hint Resolve keeps_relay_message : link.

Lemma keeps_ws_message m : keeps (handle_ws_message agent_pubkey_hex relay_url auth_tag m).
Proof. unfold handle_ws_message. keep. Qed.
Hint Resolve keeps_ws_message : link.

Lemma keeps_handshake_buffer buffer : keeps (process_handshake_buffer agent_pubkey_hex relay_url auth_tag buffer).
Proof. induction buffer as [|m buffer IH]; cbn; keep. Qed.
Hint Resolve keeps_handshake_buffer : link.

(** *** Sleeps and drains *)

(** Commands that arrive are put off in order. *)
Definition deferred_ok (o : option (list RelayCommand)) (l : Link) : Prop := match o with Some d => I d l | None => exists d, I d l end.

Lemma defer_ok arrived d : triple (I d) (defer_commands arrived d) deferred_ok.
Proof.
  revert d. induction arrived as [|[cmd|] arrived IH]; intros d; cbn; [by apply triple_ret| |by apply triple_ret; exists d].
  destruct cmd; try (eapply triple_bind; [apply log_took|intros ?; apply IH]). apply triple_ret. by exists d.
Qed.

Lemma pacing_sleep_ok d duration : triple (I d) (pacing_sleep d duration) deferred_ok.
Proof.
  unfold pacing_sleep. eapply triple_bind; [apply keeps_ask|]. intros t. eapply triple_bind; [apply keeps_instant_add|]. intros u.
  eapply triple_bind; [apply keeps_ask|]. intros arrived. apply defer_ok.
Qed.

Lemma record_ok arrived : triple (I []) (record_commands arrived) (fun _ => I []).
Proof.
  induction arrived as [|[cmd|] arrived IH]; cbn; [by apply triple_ret| |by apply triple_ret].
  assert (triple (I []) (log (Took cmd);; log (Ran cmd);; apply_command cmd;; record_commands arrived) (fun _ => I [])) as Hstep; [|by destruct cmd; try exact Hstep; apply triple_ret].
  eapply triple_bind; [apply log_took|]. intros ? l Hl. cbn in Hl. pose proof (run_applied cmd [] l Hl) as Ha. unfold bind in *.
  destruct (log (Ran cmd) l) as [[]?]; [|done]. destruct (apply_command cmd _) as [[]?]; [|done]. by apply IH.
Qed.

Lemma listening_sleep_ok duration : triple (I []) (listening_sleep duration) (fun _ => I []).
Proof.
  unfold listening_sleep. eapply triple_bind; [apply keeps_jittered|]. intros j. eapply triple_bind; [apply keeps_ask|]. intros t.
  eapply triple_bind; [apply keeps_instant_add|]. intros u. eapply triple_bind; [apply keeps_ask|]. intros arrived. apply record_ok.
Qed.

Lemma keeps_drain_observer budget : keeps (drain_observer_loop budget).
Proof.
  induction budget as [|budget IH]; cbn; [apply keeps_ret|]. apply keeps_bind; [auto with link|]. intros []; [apply keeps_ret|].
  intros d. apply triple_get. intros s. destruct (gated_observer_pending s) as [|e waiting] eqn:Ep; [by apply triple_ret; intros l [? _]|].
  apply (triple_bind _ _ _ (fun _ l => I d l /\ gated_observer_pending (l_state l) = e :: waiting)).
  { apply write_ok. intros l w ok [Hl Hs]. split; [|cbn; by rewrite Hs].
    by apply link_ok_plain. }
  intros []; [|by apply triple_ret; intros l [? _]].
  apply (triple_bind _ _ _ (fun _ l => I d (mkLink (track_observer_in_flight e (l_state l)) (l_world l) (l_log l)))).
  { intros l [Hl Hw]. eapply link_ok_frames; [|apply frames_drain; [exact Hw|apply Hl]|exact Hl].
    exact (track_rest e (put_gated_observer_pending waiting (l_state l))). }
  intros ?. apply (triple_bind _ _ _ (fun _ => I d)); [intros l Hl; exact Hl|]. intros ?.
  eapply triple_bind; [apply IH|]. intros n. by apply triple_ret.
Qed.

Lemma keeps_drain_gated budget : keeps (drain_gated_observer_pending budget).
Proof.
  unfold drain_gated_observer_pending. apply keeps_bind; [apply keeps_drain_observer|]. intros sent d. apply triple_get. intros s.
  apply (triple_bind _ _ _ (fun _ => I d)); [|intros ?; by apply triple_ret].
  destruct (_ && _); [|by apply triple_ret; intros l [? _]]. intros l [Hl <-]. by apply link_ok_reported.
Qed.

(** One channel that waits: parked, dropped or asked for again. *)
Lemma waiting_channel_ok {B} d c (k : ChannelFilter -> M B) (k0 : M B) R :
  (forall f, triple (fun l => I d l /\ active_filters (l_state l) !! c = Some f) (k f) R) -> triple (I d) k0 R ->
  triple (I d) (let* s := get_state in match active_filters s !! c with None => k0 | Some f => k f end) R.
Proof. intros Hk H0. apply triple_get. intros s. by apply with_filter. Qed.

Lemma resubscribed_then {B} d c f (k : bool -> M B) R :
  (forall ok, triple (I d) (k ok) R) ->
  triple (fun l => I d l /\ active_filters (l_state l) !! c = Some f) (let* sent := resubscribe_channel agent_pubkey_hex c f in k sent) R.
Proof. intros Hk. eapply triple_bind; [apply resubscribe_channel_ok|]. intros ok. eapply triple_pre; [|apply Hk]. by intros l [? _]. Qed.

Lemma keeps_drain_pending ready : keeps (drain_pending_loop agent_pubkey_hex ready).
Proof.
  induction ready as [|c ready IH]; cbn; [apply keeps_ret|]. apply keeps_bind; [auto with link|]. intros gate. apply keeps_bind; [|intros n; keep].
  destruct gate as [t|]; [unfold park_channel; keep|]. intros d. apply waiting_channel_ok; [|assert (keeps (unpark_channel c;; ret 0)) as Hk by (unfold unpark_channel; keep); apply Hk].
  intros f. apply resubscribed_then. intros ok. assert (keeps (if ok then unpark_channel c;; ret 1 else let* t := now in
    let* penalty := instant_add t (from_secs 5) in park_channel c penalty;; ret 0)) as Hk by (unfold unpark_channel, park_channel; keep). apply Hk.
Qed.

Lemma keeps_drain_retry channels : keeps (drain_retry_loop agent_pubkey_hex channels).
Proof.
  induction channels as [|c channels IH]; cbn; [apply keeps_ret|]. apply keeps_bind; [auto with link|]. intros gate. apply keeps_bind; [|intros n; keep].
  destruct gate as [t|]; [unfold park_channel, unretry_channel; keep|]. intros d. apply waiting_channel_ok; [|assert (keeps (unretry_channel c;; ret 0)) as Hk by (unfold unretry_channel; keep); apply Hk].
  intros f. apply resubscribed_then. intros ok. assert (keeps (if ok then unretry_channel c;; ret 1 else ret 0)) as Hk by (unfold unretry_channel; keep). apply Hk.
Qed.
Hint Resolve keeps_drain_gated keeps_drain_pending keeps_drain_retry : link.

(** *** Resubscription *)

Lemma I_exists d l : I d l -> exists d', I d' l.
Proof. by exists d. Qed.
Hint Resolve I_exists : link.

Lemma resubscribe_channels_ok channels d : triple (I d) (resubscribe_channels agent_pubkey_hex channels d) deferred_ok.
Proof.
  revert d. induction channels as [|c channels IH]; intros d; cbn; [by apply triple_ret|].
  eapply triple_bind; [apply calm_keeps, calm_gate|]. intros [t|].
  { eapply triple_bind; [by apply keeps_modify|]. intros ?. apply IH. }
  assert (triple (I d) (retry_channel c;; resubscribe_channels agent_pubkey_hex channels d) deferred_ok) as Hretry.
  { eapply triple_bind; [by apply keeps_modify|]. intros ?. apply IH. }
  apply waiting_channel_ok; [|exact Hretry]. intros f. apply resubscribed_then. intros []; [|exact Hretry].
  eapply triple_bind; [apply pacing_sleep_ok|]. intros [d'|]; [apply IH|by apply triple_ret].
Qed.

Definition control_ok (c : ControlStep) (l : Link) : Prop :=
  match c with ControlDone d | ControlFailed d => I d l | ControlShutdown => exists d, I d l end.

Lemma control_step {A} d (m : M A) (Q : A -> Link -> Prop) : keeps m -> (forall a l, I d l -> Q a l) -> triple (I d) m Q.
Proof. intros Hm HQ. eapply triple_post; [|apply Hm]. intros a l Hl. by apply HQ. Qed.

Lemma membership_control_ok d : triple (I d) (resubscribe_membership_control agent_pubkey_hex d) control_ok.
Proof.
  unfold resubscribe_membership_control. eapply triple_bind; [apply calm_keeps, calm_get|]. intros s. destruct (negb _); [by apply triple_ret|].
  eapply triple_bind; [apply calm_keeps, calm_gated|]. intros [].
  { eapply triple_bind; [by apply keeps_modify|]. intros ?. by apply triple_ret. }
  eapply triple_bind; [apply calm_keeps, calm_get|]. intros s'.
  apply (triple_bind _ _ _ deferred_ok); [case_bool_decide; [by apply triple_ret|apply pacing_sleep_ok]|]. intros [d'|]; [|by apply triple_ret].
  eapply triple_bind; [apply keeps_resubscribe_membership|]. intros []; [|by apply triple_ret].
  eapply triple_bind; [by apply keeps_modify|]. intros ?. by apply triple_ret.
Qed.

Lemma observer_control_ok d : triple (I d) (resubscribe_observer_control agent_pubkey_hex d) control_ok.
Proof.
  unfold resubscribe_observer_control. eapply triple_bind; [apply calm_keeps, calm_get|]. intros s. destruct (negb _); [by apply triple_ret|].
  eapply triple_bind; [apply calm_keeps, calm_gated|]. intros [].
  { eapply triple_bind; [by apply keeps_modify|]. intros ?. by apply triple_ret. }
  eapply triple_bind; [apply pacing_sleep_ok|]. intros [d'|]; [|by apply triple_ret].
  eapply triple_bind; [apply keeps_observer_subscribe|]. intros []; [|by apply triple_ret].
  eapply triple_bind; [by apply keeps_modify|]. intros ?. by apply triple_ret.
Qed.

(** A command recorded after its write could not be made. *)
Lemma retain_ok cmd d : is_data cmd = true -> triple (started cmd d) (retain_failed_command_intent cmd) (fun _ => I d).
Proof.
  intros Hd. destruct cmd as [| | | | | |e|]; try done; try by apply apply_started.
  intros l (log0 & Hlog & Hok). unfold I. cbn. rewrite Hlog. exact (link_ok_apply agent_pubkey_hex 0%N (PublishEvent e) d _ _ eq_refl Hok).
Qed.

Lemma retain_deferred_ok d : triple (I d) (retain_deferred_command_intent d) (fun _ => I []).
Proof.
  induction d as [|cmd d IH]; cbn; [by apply triple_ret|]. apply (triple_bind _ _ _ (fun _ => I d)); [|intros ?; apply IH].
  assert (is_data cmd = true -> triple (I (cmd :: d)) (log (Ran cmd);; retain_failed_command_intent cmd) (fun _ => I d)) as Hrun.
  { intros Hd. eapply triple_bind; [apply log_ran|]. intros ?. by apply retain_ok. }
  destruct cmd; try by apply Hrun. all: apply triple_ret; intros l Hl; by apply I_control in Hl.
Qed.

Definition outcome_ok (o : ReconnectOutcome) (l : Link) : Prop := match o with ReconnectShutdown => exists d, I d l | _ => I [] l end.
Definition resub_ok (o : ResubscribeResult) (l : Link) : Prop := match o with ResubShutdown => exists d, I d l | _ => I [] l end.

(** What waits in the command channel, or was put off before. *)
Definition next_ok (x : TryRecv * list RelayCommand) (l : Link) : Prop :=
  match x with (Received Shutdown, _) => exists d, I d l | (Received cmd, d) => I (cmd :: d) l | _ => I [] l end.

Lemma next_command_ok d : triple (I d) (next_command d) next_ok.
Proof.
  destruct d as [|cmd d]; [|apply triple_ret; intros l Hl; destruct cmd; try done; by exists (Shutdown :: d)].
  unfold next_command. eapply triple_bind; [apply keeps_ask|]. intros r. apply (triple_bind _ _ _ (fun _ => next_ok (r, []))); [|intros ?; by apply triple_ret].
  destruct r as [cmd| |]; [|by apply triple_ret..]. destruct cmd; try apply log_took. apply triple_ret. intros l Hl. by exists [].
Qed.

Lemma drain_one_ok cmd d : is_data cmd = true ->
  triple (I (cmd :: d)) (drain_one agent_pubkey_hex cmd d) (fun x l => deferred_ok x.2 l).
Proof.
  intros Hd. assert (triple (I (cmd :: d)) (log (Ran cmd);; execute_connected_command agent_pubkey_hex cmd) (fun _ => I d)) as Hrun.
  { eapply triple_bind; [apply log_ran|]. intros ?. by apply execute_ok. }
  unfold drain_one. destruct (is_subscription cmd).
  - eapply triple_bind; [apply calm_keeps, calm_gated|]. intros g. eapply triple_bind; [exact Hrun|]. intros ok. destruct (ok && negb g); [|by apply triple_ret].
    eapply triple_bind; [apply pacing_sleep_ok|]. intros o. by apply triple_ret.
  - eapply triple_bind; [exact Hrun|]. intros ok. by apply triple_ret.
Qed.

Lemma keeps_close : keeps close_socket.
Proof. unfold close_socket. keep. Qed.

Lemma drain_commands_ok n d failed : triple (I d) (drain_commands agent_pubkey_hex n d failed) outcome_ok.
Proof.
  revert d failed. induction n as [|n IH]; intros d failed; cbn; [intros l Hl; by exists d|].
  eapply triple_bind; [apply next_command_ok|]. intros [[cmd| |] d']; [|apply triple_ret; by destruct failed|apply triple_ret; by exists []].
  destruct (is_data cmd) eqn:Ed.
  - assert (triple (I (cmd :: d')) (if failed then log (Ran cmd);; retain_failed_command_intent cmd;; drain_commands agent_pubkey_hex n d' true
      else let* done := drain_one agent_pubkey_hex cmd d' in match done with
            | (ok, Some deferred) => drain_commands agent_pubkey_hex n deferred (negb ok) | (_, None) => ret ReconnectShutdown end) outcome_ok) as Hrun; [|by destruct cmd].
    destruct failed.
    + eapply triple_bind; [apply log_ran|]. intros ?. eapply triple_bind; [by apply retain_ok|]. intros ?. apply IH.
    + eapply triple_bind; [by apply drain_one_ok|]. intros [ok [d''|]]; [apply IH|by apply triple_ret].
  - destruct cmd; try done; cbn.
    + apply (triple_pre _ (I d')); [intros l Hl; by apply I_control in Hl|apply IH].
    + intros l [x Hl]. pose proof (keeps_close x l Hl) as Hc. unfold bind. destruct (close_socket l) as [[] ?]; [|done]. cbn. eauto with link.
Qed.

Lemma resubscribe_ok fresh : triple (I []) (resubscribe_after_reconnect agent_pubkey_hex fuel seed fresh) resub_ok.
Proof.
  unfold resubscribe_after_reconnect. apply (triple_bind _ _ _ (fun _ => I [])).
  { destruct fresh; [|by apply triple_ret]. eapply triple_bind; [by apply keeps_modify|]. intros ?. by apply keeps_modify. }
  intros ?. eapply triple_bind; [apply calm_keeps, calm_get|]. intros s. eapply triple_bind; [apply resubscribe_channels_ok|].
  intros [d|]; [|by apply triple_ret]. eapply triple_bind; [apply membership_control_ok|]. intros [d'|d'|]; [| |by apply triple_ret].
  - eapply triple_bind; [apply observer_control_ok|]. intros [d''|d''|]; [| |by apply triple_ret].
    + eapply triple_bind; [apply drain_commands_ok|]. intros o. apply triple_ret. by destruct o.
    + eapply triple_bind; [apply retain_deferred_ok|]. intros ?. by apply triple_ret.
  - eapply triple_bind; [apply retain_deferred_ok|]. intros ?. by apply triple_ret.
Qed.

(** *** Connecting *)

Lemma keeps_wait_for {A} n (wanted : RelayMessage -> option A) late deadline buffer : keeps (wait_for n wanted late deadline buffer).
Proof. revert buffer. induction n as [|n IH]; intros buffer; cbn; keep; apply IH. Qed.

Lemma keeps_wait_buffered {A} (wanted : RelayMessage -> option A) late buffer : keeps (wait_buffered fuel wanted late buffer).
Proof. unfold wait_buffered. destruct (take_buffered wanted buffer) as [[a b]|]; keep. apply keeps_wait_for. Qed.
Hint Resolve keeps_wait_buffered : link.

Lemma keeps_handshake : keeps (handshake relay_url auth_tag fuel).
Proof. unfold handshake, wait_for_auth_challenge, wait_for_any_ok. keep. Qed.
Hint Resolve keeps_handshake : link.

Lemma keeps_connect : keeps (do_connect relay_url auth_tag fuel).
Proof. unfold do_connect. keep. Qed.
Hint Resolve keeps_connect : link.

Lemma restore_ok buffer : triple (I []) (restore_connection agent_pubkey_hex relay_url auth_tag fuel seed buffer) resub_ok.
Proof.
  unfold restore_connection. eapply triple_bind; [apply keeps_handshake_buffer|]. intros []; [apply resubscribe_ok|by apply triple_ret].
Qed.

(** Sleep, then go on unless a shutdown came. *)
Lemma sleep_then duration (k : M ReconnectOutcome) :
  triple (I []) k outcome_ok ->
  triple (I []) (let* slept := listening_sleep duration in if (slept : bool) then k else ret ReconnectShutdown) outcome_ok.
Proof. intros Hk. eapply triple_bind; [apply listening_sleep_ok|]. intros []; [done|]. apply triple_ret. by exists []. Qed.

Lemma ladder_ok n backoffs dns : triple (I []) (reconnect_ladder agent_pubkey_hex relay_url auth_tag fuel seed n backoffs dns) outcome_ok.
Proof.
  revert backoffs dns. induction n as [|n IH]; intros backoffs dns; cbn; [intros l Hl; by exists []|].
  destruct backoffs as [|delay more]; [by apply triple_ret|].
  assert (triple (I []) (match more with [] => ret ReconnectFailed | _ => let* slept := listening_sleep delay in
     if (slept : bool) then reconnect_ladder agent_pubkey_hex relay_url auth_tag fuel seed n more dns else ret ReconnectShutdown end) outcome_ok) as Hclimb.
  { destruct more; [by apply triple_ret|]. apply sleep_then, IH. }
  eapply triple_bind; [apply keeps_connect|]. intros [buffer|e].
  - eapply triple_bind; [apply restore_ok|]. intros []; [by apply triple_ret|exact Hclimb|by apply triple_ret].
  - destruct (_ && _); [apply sleep_then, IH|exact Hclimb].
Qed.

Lemma try_reconnect_ok : triple (I []) (try_autonomous_reconnect agent_pubkey_hex relay_url auth_tag fuel seed) outcome_ok.
Proof. unfold try_autonomous_reconnect. eapply triple_bind; [apply keeps_requeue|]. intros ?. apply ladder_ok. Qed.

Lemma wait_ladder_ok n attempt : triple (I []) (wait_ladder agent_pubkey_hex relay_url auth_tag fuel seed n attempt) outcome_ok.
Proof.
  revert attempt. induction n as [|n IH]; intros attempt; cbn; [intros l Hl; by exists []|].
  assert (triple (I []) (modify (put_backoff_step attempt);; (let* slept := listening_sleep (wait_delay attempt) in
     if (slept : bool) then wait_ladder agent_pubkey_hex relay_url auth_tag fuel seed n (S attempt) else ret ReconnectShutdown)) outcome_ok) as Hclimb.
  { eapply triple_bind; [by apply keeps_modify|]. intros ?. apply sleep_then, IH. }
  eapply triple_bind; [apply keeps_connect|]. intros [buffer|e].
  - eapply triple_bind; [apply restore_ok|]. intros []; [apply drain_commands_ok|exact Hclimb|by apply triple_ret].
  - destruct (is_dns_error e); [apply sleep_then, IH|exact Hclimb].
Qed.

Lemma wait_reconnect_ok : triple (I []) (wait_for_reconnect agent_pubkey_hex relay_url auth_tag fuel seed) outcome_ok.
Proof.
  unfold wait_for_reconnect. eapply triple_bind; [apply keeps_requeue|]. intros ?. eapply triple_bind; [apply calm_keeps, calm_get|]. intros s. apply wait_ladder_ok.
Qed.

(** *** The main loop *)

Definition alive_ok (o : option Locals) (l : Link) : Prop := match o with Some _ => I [] l | None => exists d, I d l end.

Lemma recover_ok : triple (I []) (recover agent_pubkey_hex relay_url auth_tag fuel seed) (fun alive l => if (alive : bool) then I [] l else exists d, I d l).
Proof.
  unfold recover. apply (triple_bind _ _ _ (fun _ => I [])); [assert (keeps signal_loss) as Hk by (unfold signal_loss; keep); apply Hk|]. intros ?.
  eapply triple_bind; [apply try_reconnect_ok|]. intros o.
  apply (triple_bind _ _ _ outcome_ok); [destruct o; [apply drain_commands_ok|apply wait_reconnect_ok|by apply triple_ret]|]. intros o'. apply triple_ret. by destruct o'.
Qed.

Lemma recover_loop_ok loc : triple (I []) (recover_loop agent_pubkey_hex relay_url auth_tag fuel seed loc) alive_ok.
Proof.
  unfold recover_loop. eapply triple_bind; [apply recover_ok|]. intros []; [|by apply triple_ret].
  eapply triple_bind; [apply keeps_ask|]. intros t. by apply triple_ret.
Qed.

Lemma proactive_ok loc : triple (I []) (proactive_resubscribe agent_pubkey_hex relay_url auth_tag fuel seed loc) alive_ok.
Proof.
  unfold proactive_resubscribe. eapply triple_bind; [apply calm_keeps, calm_get|]. intros s. destruct (proactive_resubscribe_needed s); [|by apply triple_ret].
  eapply triple_bind; [by apply keeps_modify|]. intros ?. eapply triple_bind; [apply resubscribe_ok|]. intros []; [by apply triple_ret|apply recover_loop_ok|by apply triple_ret].
Qed.

Lemma keeps_drain_controls budget : keeps (drain_controls agent_pubkey_hex budget).
Proof. unfold drain_controls. keep. Qed.

Lemma keeps_drain_within waiting drain st : (forall n, keeps (drain n)) -> keeps (drain_within waiting drain st).
Proof. intros Hd. unfold drain_within. destruct st as [b any]. keep. Qed.

Lemma keeps_drain_window loc : keeps (drain_window agent_pubkey_hex seed loc).
Proof.
  unfold drain_window. apply keeps_bind; [keep|]. intros open. destruct (negb open); [apply keeps_ret|].
  apply keeps_bind; [apply keeps_drain_controls|]. intros st. apply keeps_bind; [apply keeps_drain_within; intros n; unfold drain_rate_limited_pending; keep|]. intros st1.
  apply keeps_bind; [apply keeps_drain_within; intros n; unfold drain_resubscribe_retry; keep|]. intros st2.
  apply keeps_bind; [apply keeps_drain_within; intros n; auto with link|]. intros st3. keep.
Qed.

Lemma on_socket_ok raw loc : triple (I []) (on_socket agent_pubkey_hex relay_url auth_tag fuel seed raw loc) alive_ok.
Proof.
  unfold on_socket. destruct raw as [[msg|e]|]; [|apply recover_loop_ok..].
  assert (triple (I []) (let* kept := handle_ws_message agent_pubkey_hex relay_url auth_tag msg in
    if (kept : bool) then ret (Some loc) else recover_loop agent_pubkey_hex relay_url auth_tag fuel seed loc) alive_ok) as Hm.
  { eapply triple_bind; [apply keeps_ws_message|]. intros []; [by apply triple_ret|apply recover_loop_ok]. }
  destruct msg; try exact Hm. eapply triple_bind; [apply keeps_ask|]. intros t. by apply triple_ret.
Qed.

Lemma on_command_ok c loc : triple (I []) (on_command agent_pubkey_hex relay_url auth_tag fuel seed c loc) alive_ok.
Proof.
  unfold on_command. assert (triple (I []) (close_socket;; ret None) alive_ok) as Hclose.
  { eapply triple_bind; [apply keeps_close|]. intros ?. apply triple_ret. by exists []. }
  destruct c as [cmd|]; [|exact Hclose]. destruct (is_data cmd) eqn:Ed.
  - assert (triple (I []) (log (Took cmd);; log (Ran cmd);; let* ok := execute_connected_command agent_pubkey_hex cmd in
      if (ok : bool) then ret (Some loc) else recover_loop agent_pubkey_hex relay_url auth_tag fuel seed loc) alive_ok) as Hrun; [|by destruct cmd].
    eapply triple_bind; [apply log_took|]. intros ?. eapply triple_bind; [apply log_ran|]. intros ?. eapply triple_bind; [by apply execute_ok|].
    intros []; [by apply triple_ret|apply recover_loop_ok].
  - destruct cmd; try done; try exact Hclose. eapply triple_bind; [by apply keeps_log|]. intros ?.
    eapply triple_bind; [apply wait_reconnect_ok|]. intros [].
    1,2: eapply triple_bind; [apply keeps_ask|]; intros t; by apply triple_ret.
    by apply triple_ret.
Qed.

Lemma on_ping_ok loc : triple (I []) (on_ping agent_pubkey_hex relay_url auth_tag fuel seed loc) alive_ok.
Proof.
  unfold on_ping. destruct (ping_sent loc).
  - eapply triple_bind; [apply keeps_ask|]. intros t. destruct (_ <? _)%N; [apply recover_loop_ok|by apply triple_ret].
  - eapply triple_bind; [by apply keeps_send_plain|]. intros []; [by apply triple_ret|apply recover_loop_ok].
Qed.

Lemma bg_turn_ok loc : triple (I []) (bg_turn agent_pubkey_hex relay_url auth_tag fuel seed loc) alive_ok.
Proof.
  unfold bg_turn. eapply triple_bind; [apply proactive_ok|]. intros [loc1|]; [|by apply triple_ret].
  eapply triple_bind; [apply keeps_drain_window|]. intros loc2. eapply triple_bind; [apply keeps_ask|]. intros sel.
  apply (triple_bind _ _ _ alive_ok); [destruct sel; [apply on_socket_ok|apply on_command_ok|apply on_ping_ok|by apply triple_ret]|].
  intros [loc3|]; [|by apply triple_ret]. apply (triple_bind _ _ _ (fun _ => I [])); [|intros ?; by apply triple_ret].
  assert (keeps (settle_backoff loc3)) as Hk by (unfold settle_backoff; keep). apply Hk.
Qed.

Lemma bg_loop_ok n loc : triple (I []) (bg_loop agent_pubkey_hex relay_url auth_tag fuel seed n loc) (fun _ l => exists d, I d l).
Proof.
  revert loc. induction n as [|n IH]; intros loc; cbn; [intros l Hl; by exists []|].
  eapply triple_bind; [apply bg_turn_ok|]. intros [loc'|]; [apply IH|by apply triple_ret].
Qed.

Lemma run_ok turns buffer : triple (I []) (run_background_task agent_pubkey_hex relay_url auth_tag fuel seed turns buffer) (fun _ l => exists d, I d l).
Proof.
  unfold run_background_task. eapply triple_bind; [apply keeps_handshake_buffer|]. intros ok.
  apply (triple_bind _ _ _ (fun alive l => if (alive : bool) then I [] l else exists d, I d l)); [destruct ok; [by apply triple_ret|apply recover_ok]|].
  intros []; [|by apply triple_ret]. eapply triple_bind; [apply keeps_ask|]. intros t. apply bg_loop_ok.
Qed.

Lemma keeps_initial_connect delays : keeps (retry_initial_connect relay_url auth_tag fuel delays).
Proof. induction delays as [|base delays IH]; cbn; keep. Qed.

(** The task from its start. *)
Lemma connect_ok turns w :
  exists d, I d (connect agent_pubkey_hex relay_url auth_tag fuel seed turns (start w)).2 /\
    ((connect agent_pubkey_hex relay_url auth_tag fuel seed turns (start w)).1 = Err BetweenTurns -> d = []).
Proof.
  assert (triple (I []) (connect agent_pubkey_hex relay_url auth_tag fuel seed turns) (fun _ l => exists d, I d l)) as Hc.
  { unfold connect. eapply triple_bind; [apply keeps_initial_connect|]. intros [buffer|e]; [|apply triple_ret; by exists []].
    eapply triple_bind; [apply run_ok|]. intros ?. by apply triple_ret. }
  specialize (Hc (start w) (link_ok_start _)). destruct (connect _ _ _ _ _ _ (start w)) as [[u|st] l']; cbn.
  - destruct Hc as [d Hd]. by exists d.
  - destruct Hc as (d & Hd & Hst). exists d. split; [done|]. intros [= ->]. auto.
Qed.

(** ** The promises *)

(** Where the next replay of a subscription starts. *)
Definition replay_start (k : option Uuid) (s : BgState) : option N :=
  match k with Some c => channel_since c s | None => membership_since s end.

Lemma replay_reaches k s d : dropped_since k s = Some d -> exists t, replay_start k s = Some t /\ (t <= d)%N.
Proof. destruct k as [c|]; [apply channel_since_reaches|apply membership_since_reaches]. Qed.

(** Offers between two deliveries. *)
Fixpoint offers (log : list Entry) : N :=
  match log with [] => 0 | Offered _ _ _ :: log => offers log + 1 | _ :: log => offers log end%N.

Lemma offers_since_app id via e log1 log2 :
  event_id_of e = id -> exists n, offers_since id (log1 ++ Offered via e SendOk :: log2) = Some n /\ (n <= offers log1)%N.
Proof.
  intros He. induction log1 as [|x log1 (n & IH & Hn)]; cbn [app offers_since offers].
  - rewrite decide_True by done. by exists 0%N.
  - destruct x; try by exists n. case_decide; [exists 0%N; split; [done|lia]|]. rewrite IH. exists (n + 1)%N. split; [done|lia].
Qed.

Lemma once_app log1 log2 : once (log1 ++ log2) -> once log2.
Proof. induction log1 as [|x log1 IH]; cbn; [done|]. destruct x as [| |? ? []| | | | | | | |]; try done. intros [_ H]. by apply IH. Qed.

Lemma requests_at log newer older f :
  requests_ok agent_pubkey_hex log -> log = newer ++ Sent f :: older \/ log = newer ++ SendFailed f :: older -> frame_ok agent_pubkey_hex f older.
Proof.
  revert log. induction newer as [|x newer IH]; intros log H Hlog; [destruct Hlog as [-> | ->]; apply H|].
  destruct log as [|y log]; [by destruct Hlog|]. apply (IH log); [destruct y; try done; apply H|]. destruct Hlog as [[= _ ->]|[= _ ->]]; auto.
Qed.

(** A run of so many turns: how it ended, its state and its log. *)
Section run.
Variables (turns : nat) (w : World).
Definition run_end : result Stop (result RelayError unit) := (connect agent_pubkey_hex relay_url auth_tag fuel seed turns (start w)).1.
Definition run_state : BgState := l_state (connect agent_pubkey_hex relay_url auth_tag fuel seed turns (start w)).2.
Definition run_log : list Entry := l_log (connect agent_pubkey_hex relay_url auth_tag fuel seed turns (start w)).2.

(** C32: Whatever the socket, the clocks, the harness and the relay do, and
    through every reconnection: the subscriptions on record are exactly those
    the harness has asked for, less the channels the relay denied; commands
    are carried out in the order they arrived, none twice, and between
    the turns of the task none is left over; and every request for a
    channel, sent or not, is the one made of that channel and the filter last
    asked for it, so no failure widens a subscription. *)
Theorem link_follows_commands :
  active_filters run_state = intent run_log /\
  (forall c, active_subscriptions run_state !! c = (fun _ => channel_sub_id c) <$> intent run_log !! c) /\
  (exists deferred, took run_log = ran run_log ++ data deferred) /\ (run_end = Err BetweenTurns -> took run_log = ran run_log) /\
  forall newer older f sub fields, (run_log = newer ++ Sent f :: older \/ run_log = newer ++ SendFailed f :: older) -> f = FJson (req sub fields) ->
    sub = MEMBERSHIP_NOTIF_SUB_ID \/ sub = OBSERVER_CONTROL_SUB_ID \/
    exists c filter ts, f = FJson (channel_req agent_pubkey_hex c filter ts) /\ intent older !! c = Some filter.
Proof.
  destruct (connect_ok turns w) as (d & ((H1 & H2 & H3 & H4) & _) & Hd). split_and!; [done|done|by exists d| |].
  - intros Hr. fold run_state run_log in H3. specialize (Hd Hr). subst d. by rewrite app_nil_r in H3.
  - fold run_state run_log in H4. intros newer older f sub fields Hlog Hf.
    exact (requests_at _ _ _ _ H4 Hlog sub fields Hf).
Qed.

(** C33: An event that found the harness's queue full stays asked for: as long
    as it was neither handed over later nor reached by a later request of its
    subscription, the channel was not given up and the harness still listens,
    its id is not taken for
    known, the loss is on record with a time no later than the event's,
    and the next replay of the subscription starts no later than that; this
    for channels and for membership notifications, across reconnections and
    rate limits. *)
Theorem link_replays_losses k id ts :
  (id, ts) ∈ owed k run_log ->
  dedup_contains id (seen_ids run_state) = false /\
  exists d t, dropped_since k run_state = Some d /\ (d <= ts)%N /\ replay_start k run_state = Some t /\ (t <= d)%N.
Proof.
  destruct (connect_ok turns w) as (d & (_ & H & _) & _). intros Hin. destruct (H k id ts Hin) as (Hf & x & Hx & Hle).
  destruct (replay_reaches _ _ _ Hx) as (t & Ht & Htx). split; [done|]. by exists x, t.
Qed.

(** C34: Observer frames are accounted for: those unanswered and those waiting
    are, in this order, a part of what was published in the order of
    publishing, neither queue exceeds its capacity, and every frame ever
    published is unanswered, waiting, acknowledged or counted as dropped. *)
Theorem link_observer_frames :
  (observer_in_flight run_state ++ gated_observer_pending run_state) `sublist_of` published run_log /\
  (N.of_nat (length (observer_in_flight run_state)) <= GATED_OBSERVER_QUEUE_CAP)%N /\
  (N.of_nat (length (gated_observer_pending run_state)) <= GATED_OBSERVER_QUEUE_CAP)%N /\
  (N.of_nat (length (published run_log)) =
   N.of_nat (length (observer_in_flight run_state)) + N.of_nat (length (gated_observer_pending run_state)) +
   acknowledged run_log + reported run_log + gated_observer_dropped run_state)%N.
Proof. by destruct (connect_ok turns w) as (d & (_ & _ & H & _) & _). Qed.

(** The harness is handed an event again only after six thousand other
    events were offered to it in between, whatever was dropped, replayed
    or received twice meanwhile, and the set of known ids never exceeds its
    limit of twelve thousand. *)
Theorem link_delivers_once :
  (forall newer between older via via' e e', run_log = newer ++ Offered via e SendOk :: between ++ Offered via' e' SendOk :: older ->
     event_id_of e = event_id_of e' -> (WINDOW <= offers between)%N) /\
  (N.of_nat (size (current (seen_ids run_state))) + N.of_nat (size (previous (seen_ids run_state))) <= SEEN_ID_LIMIT)%N.
Proof.
  destruct (connect_ok turns w) as (d & (_ & _ & _ & (H1 & H2 & H3 & H4 & _)) & _). fold run_state run_log in H1, H2, H3, H4. split.
  - intros newer between older via via' e e' Hlog He. rewrite Hlog in H4. apply once_app in H4 as [H4 _].
    destruct (offers_since_app (event_id_of e) via' e' between older (eq_sym He)) as (n & Hn & Hle). specialize (H4 n Hn). lia.
  - unfold SEEN_ID_LIMIT, WINDOW in *. lia.
Qed.
End run.

(** ** Findings *)

(** A retry hint at the limit of its type stops the task. *)
Lemma huge_hint_panics `{LA : !LinkLaws LL} l : (set_rate_limit_gate u64_max l).1 = Err Panicked.
Proof.
  unfold set_rate_limit_gate, now, jittered_duration, ask, bind. destruct (w_now (l_world l)) as [t w1]. cbn.
  destruct (w_nanos w1) as [nanos w2]. destruct (jitter (from_secs u64_max) nanos) as [x|] eqn:Ej; [|done]. cbn.
  apply jitter_low in Ej. unfold instant_add. destruct (N.leb_spec (t + x) INSTANT_MAX) as [H|H]; [|done].
  unfold from_secs, u64_max, INSTANT_MAX in *. lia.
Qed.
End task_theory.

(** ** A run *)

Module LinkDemo.
(** What the outside answers, in turn; a second passes at each reading of the
    clock. *)
Record Script := mkScript { sc_next : list WsNext; sc_select : list Select; sc_offers : list TrySend; sc_time : N }.

#[export] Instance demo_world : LinkWorld := {|
  World := Script;
  w_send _ w := (Ok tt, w);
  w_event_tx _ w := (default SendOk (head (sc_offers w)), mkScript (sc_next w) (sc_select w) (tail (sc_offers w)) (sc_time w));
  w_control_tx _ w := (SendOk, w);
  w_now w := (sc_time w, mkScript (sc_next w) (sc_select w) (sc_offers w) (sc_time w + from_secs 1));
  w_unix w := (1000%N, w);
  w_nanos w := (0%N, w);
  w_try_recv w := (RecvEmpty, w);
  w_sleep_until _ w := ([], w);
  w_connect w := (Some (Ok tt), w);
  w_next _ w := (default NextEnd (head (sc_next w)), mkScript (tail (sc_next w)) (sc_select w) (sc_offers w) (sc_time w));
  w_select _ w := (default SelPacing (head (sc_select w)), mkScript (sc_next w) (tail (sc_select w)) (sc_offers w) (sc_time w));
|}.

Definition older : Event := demo_event "a" "alice" 110 9 [].
Definition newer : Event := demo_event "b" "alice" 200 9 [].

#[export] Instance demo_link : LinkLib := {|
  event_value e := VString (ev_id e);
  event_from_value v := if bool_decide (v = VString "a") then Ok older else if bool_decide (v = VString "b") then Ok newer else Err "no event";
  json_array_error _ := "expected an array";
  jitter base _ := Some base;
  ws_error_text _ := "error";
  url_check _ := Ok tt;
  relay_url_check _ := Ok tt;
  link_tag parts := Ok parts;
  sign_auth tags := Ok (demo_event "auth" "agent" 1000 22242 tags);
  auth_tags challenge url := [["challenge"; challenge]; ["relay"; url]];
|}.

#[export] Instance demo_link_laws : LinkLaws demo_link.
Proof. split. intros base nanos d [= <-]. lia. Qed.

(** Texts are names of what they stand for. *)
#[export] Instance demo_texts : JsonLib := {|
  from_str s :=
    if String.eqb s "auth" then Some (VArray [VString "AUTH"; VString "c"])
    else if String.eqb s "ok" then Some (VArray [VString "OK"; VString "auth"; VBool true; VString EmptyString])
    else if String.eqb s "older" then Some (VArray [VString "EVENT"; VString "ch-1"; VString "a"])
    else if String.eqb s "newer" then Some (VArray [VString "EVENT"; VString "ch-1"; VString "b"])
    else if String.eqb s "refused" then Some (VArray [VString "CLOSED"; VString "ch-1"; VString "rate-limited: retry in 2s"])
    else None;
  json_text _ := "text";
|}.

Definition room : Uuid := 3%N.
Definition wish : ChannelFilter := mkChannelFilter (Some [9%N]) false.
Definition says (text : string) : Select := SelWs (Some (Ok (MText text))).

(** The harness takes the newer event and has no room for the older one. *)
Definition script (rest : list Select) : Script :=
  mkScript [NextMsg (MText "auth"); NextMsg (MText "ok")]
    (SelCmd (Some (Subscribe room wish (Some 100%N))) :: says "newer" :: says "older" :: rest) [SendOk; SendFull] 0.

Definition demo_log (turns : nat) (w : Script) : list Entry := run_log (NL:=sdk_nostr) "agent" "ws://relay" None 20 0 turns w.
Definition demo_state (turns : nat) (w : Script) : BgState := run_state (NL:=sdk_nostr) "agent" "ws://relay" None 20 0 turns w.

(** Where the requests for the room start, newest first; and what was handed
    over. *)
Definition starts (log : list Entry) : list N :=
  omap (fun e => match e with Sent f => asked (NL:=sdk_nostr) (Some room) f | _ => None end) log.
Definition handed (log : list Entry) : list string :=
  omap (fun e => match e with Offered _ e SendOk => Some (ev_id (bz_event e)) | _ => None end) log.
End LinkDemo.

Import LinkDemo.

Lemma link_replays_losses_witness :
  owed (NL:=sdk_nostr) (Some room) (demo_log 3 (script [])) = [("a", 110%N)] /\
  exists d, channel_dropped_since (demo_state 3 (script [])) !! room = Some d /\ (d <= 110)%N.
Proof.
  assert (owed (NL:=sdk_nostr) (Some room) (demo_log 3 (script [])) = [("a", 110%N)]) as Ho by (vm_compute; reflexivity).
  split; [exact Ho|].
  destruct (link_replays_losses (NL:=sdk_nostr) (LW:=demo_world) "agent" "ws://relay" None 20 0 3 (script []) (Some room) "a" 110) as (_ & d & t & Hd & Hle & _).
  - change (("a", 110%N) ∈ owed (NL:=sdk_nostr) (Some room) (demo_log 3 (script []))). rewrite Ho. left.
  - exists d. split; [exact Hd|exact Hle].
Defined.

(** A replay that the relay refuses for its rate limit is forgotten: the request
    that reached back to the older event counts as its replay, the next one,
    once the gate is open, starts after it, and the event is never handed over. *)
Example refused_replay_lost :
  let log := demo_log 12 (script [says "refused"]) in
  starts log = [195; 105; 95]%N /\ handed log = ["b"] /\
  channel_dropped_since (demo_state 12 (script [says "refused"])) !! room = None /\
  rate_limited_pending (demo_state 12 (script [says "refused"])) = ∅.
Proof. vm_compute. done. Qed.
