(* ===== verification/AgentConfig.v ===== *)
(** * The configuration of the coding agent

    [buzz-agent/src/config.rs]: the reading of the environment, its validation,
    and the tables of reasoning efforts by model family.  The environment is a
    function, a file read an argument. *)

From S2P Require Import Prelude Text Json.

(** ** Reasoning effort *)

Module Effort.
Inductive ThinkingEffort := ENone | Minimal | Low | Medium | High | XHigh | Max.
End Effort.
Export Effort.

#[export] Instance ThinkingEffort_eq_dec : EqDecision ThinkingEffort.
Proof. solve_decision. Defined.

Definition effort_eqb (a b : ThinkingEffort) : bool := bool_decide (a = b).

(** [e as i32]. *)
Definition effort_rank (e : ThinkingEffort) : Z :=
  match e with ENone => 0 | Minimal => 1 | Low => 2 | Medium => 3 | High => 4 | XHigh => 5 | Max => 6 end.

Definition anthropic_budget_tokens (e : ThinkingEffort) : N :=
  match e with
  | Low => 1024
  | Medium => 8192
  | High | XHigh | Max => 32768
  | ENone | Minimal => 0
  end.

Definition openai_effort_str (e : ThinkingEffort) : string :=
  match e with
  | ENone => "none" | Minimal => "minimal" | Low => "low" | Medium => "medium" | High => "high" | XHigh => "xhigh" | Max => "max"
  end.

Definition anthropic_effort_str (e : ThinkingEffort) : string :=
  match e with
  | Low => "low" | Medium => "medium" | High => "high" | XHigh => "xhigh" | Max => "max" | ENone | Minimal => "low"
  end.

(** ** Model families *)

(** The text from the first place on where one of the tokens begins, looked for
    in lower case. *)
Fixpoint from_family (model : string) : option string :=
  if starts_with (to_ascii_lowercase model) "claude-" || starts_with (to_ascii_lowercase model) "gpt-" then Some model
  else match model with EmptyString => None | String _ rest => from_family rest end.

Definition strip_catalog_prefix (model : string) : string := default model (from_family model).

Definition is_manual_budget_model (model : string) : bool := starts_with model "claude-3" || String.eqb model "claude-opus-4-5".

Definition is_adaptive_thinking_model (model : string) : bool :=
  existsb (starts_with model)
    ["claude-opus-4-6"; "claude-opus-4-7"; "claude-opus-4-8"; "claude-sonnet-5"; "claude-sonnet-4-6"; "claude-fable-5"; "claude-mythos-5";
     "claude-mythos-preview"].

Definition anthropic_model_supports_xhigh (model : string) : bool :=
  existsb (starts_with model) ["claude-opus-4-7"; "claude-opus-4-8"; "claude-sonnet-5"; "claude-fable-5"; "claude-mythos-5"].

Definition clamp_adaptive_effort (model : string) (effort : ThinkingEffort) : ThinkingEffort :=
  if anthropic_model_supports_xhigh model then effort
  else if effort_eqb effort XHigh then High
  else effort.

Definition MIN_ANSWER_TOKENS : N := 1024.

Definition anthropic_thinking_config (effective_model : string) (effort : ThinkingEffort) (max_output_tokens : N) : option Value * option Value :=
  let model := strip_catalog_prefix effective_model in
  if is_manual_budget_model model then
    let budget := N.min (anthropic_budget_tokens effort) (max_output_tokens - MIN_ANSWER_TOKENS) in
    if (budget <? MIN_ANSWER_TOKENS)%N then (None, None)
    else (Some (VObject [("type", VString "enabled"); ("budget_tokens", VNumber (PosInt budget))]), None)
  else if is_adaptive_thinking_model model then
    (Some (VObject [("type", VString "adaptive")]),
     Some (VObject [("effort", VString (anthropic_effort_str (clamp_adaptive_effort model effort)))]))
  else (None, None).

(** The loops look at every place where the token occurs; it begins with one
    byte, so the next look starts one byte later. *)
Fixpoint gpt5_token_matches (lower_model token : string) : bool :=
  match strip_prefix token lower_model with
  | Some EmptyString => true
  | Some (String c _) => Ascii.eqb c "-"
  | None => false
  end ||
  match lower_model with EmptyString => false | String _ rest => gpt5_token_matches rest token end.

Definition is_ascii_alphabetic (c : ascii) : bool := Lines.byte_in 65 90 c || Lines.byte_in 97 122 c.

Definition base_suffix (rest : string) : bool :=
  match rest with
  | EmptyString => true
  | _ =>
      match strip_prefix "-" rest with
      | Some tail =>
          let '(digits, after) := take_digits tail in
          let digit_run := String.length digits in
          (digit_run =? 0)%nat || (4 <=? digit_run)%nat ||
          match after with String c _ => is_ascii_alphabetic c | EmptyString => false end
      | None => false
      end
  end.

Fixpoint gpt5_base_matches (lower_model token : string) : bool :=
  match strip_prefix token lower_model with Some rest => base_suffix rest | None => false end ||
  match lower_model with EmptyString => false | String _ rest => gpt5_base_matches rest token end.

Definition GPT5_PRO : list ThinkingEffort := [High].
Definition GPT5_6 : list ThinkingEffort := [ENone; Low; Medium; High; XHigh; Max].
Definition GPT5_5_AND_5_4 : list ThinkingEffort := [ENone; Low; Medium; High; XHigh].
Definition GPT5_1 : list ThinkingEffort := [ENone; Low; Medium; High].
Definition GPT5_BASE : list ThinkingEffort := [Minimal; Low; Medium; High].

Definition openai_efforts_for_model (model : string) : option (list ThinkingEffort) :=
  let lower := to_ascii_lowercase model in
  let any := existsb (gpt5_token_matches lower) in
  if any ["gpt-5-pro"; "gpt5-pro"] then Some GPT5_PRO
  else if any ["gpt-5.6"; "gpt5.6"; "gpt-5-6"; "gpt5-6"] then Some GPT5_6
  else if any ["gpt-5.5"; "gpt5.5"; "gpt-5-5"; "gpt5-5"; "gpt-5.4"; "gpt5.4"; "gpt-5-4"; "gpt5-4"] then Some GPT5_5_AND_5_4
  else if any ["gpt-5.1"; "gpt5.1"; "gpt-5-1"; "gpt5-1"] then Some GPT5_1
  else if existsb (gpt5_base_matches lower) ["gpt-5"; "gpt5"] then Some GPT5_BASE
  else None.

Definition anthropic_efforts_for_model (model : string) : list ThinkingEffort * option ThinkingEffort :=
  if is_manual_budget_model model then ([Low; Medium; High], None)
  else if is_adaptive_thinking_model model then
    if anthropic_model_supports_xhigh model then ([Low; Medium; High; XHigh; Max], Some High)
    else ([Low; Medium; High; Max], Some High)
  else ([Low; Medium; High; XHigh; Max], Some High).

(** The sort key: distance, then upward first. *)
Definition effort_key (requested e : ThinkingEffort) : Z * Z :=
  (Z.abs (effort_rank e - effort_rank requested), if (effort_rank requested <=? effort_rank e)%Z then 0%Z else 1%Z).

Definition key_leb (a b : Z * Z) : bool := (a.1 <? b.1)%Z || (a.1 =? b.1)%Z && (a.2 <=? b.2)%Z.

Definition effort_peer (requested : ThinkingEffort) : option ThinkingEffort :=
  match requested with ENone => Some Minimal | Minimal => Some ENone | _ => None end.

Definition effort_in (e : ThinkingEffort) (l : list ThinkingEffort) : bool := existsb (effort_eqb e) l.

Definition effort_candidates (requested : ThinkingEffort) (supported : list ThinkingEffort) : list ThinkingEffort :=
  let by_dist := sort_by (fun a b => key_leb (effort_key requested a) (effort_key requested b)) supported in
  let first := match effort_peer requested with Some p => if effort_in p supported then [p] else [] | None => [] end in
  fold_left (fun result e => if effort_in e result then result else result ++ [e]) by_dist first.

(** [None] is the panic of [expect]. *)
Definition resolve_openai_effort (requested : ThinkingEffort) (supported : list ThinkingEffort) : option ThinkingEffort :=
  if effort_in requested supported then Some requested else head (effort_candidates requested supported).

Definition normalize_effort_for_openai_route (effort : ThinkingEffort) (model : string) : option ThinkingEffort :=
  match openai_efforts_for_model model with
  | Some supported => resolve_openai_effort effort supported
  | None => Some (if effort_eqb effort Max then XHigh else effort)
  end.

Definition normalize_effort_for_anthropic_route (effort : ThinkingEffort) : option ThinkingEffort :=
  match effort with ENone | Minimal => None | other => Some other end.

Definition parse_thinking_effort (raw : option string) : result string (option ThinkingEffort) :=
  match (fun s => to_ascii_lowercase (trim s)) <$> raw with
  | None | Some EmptyString => Ok None
  | Some other =>
      if String.eqb other "none" then Ok (Some ENone)
      else if String.eqb other "minimal" then Ok (Some Minimal)
      else if String.eqb other "low" then Ok (Some Low)
      else if String.eqb other "medium" then Ok (Some Medium)
      else if String.eqb other "high" then Ok (Some High)
      else if String.eqb other "xhigh" then Ok (Some XHigh)
      else if String.eqb other "max" then Ok (Some Max)
      else Err ("config: BUZZ_AGENT_THINKING_EFFORT=" +:+ other +:+ " not supported (use none|minimal|low|medium|high|xhigh|max)")
  end.

(** ** Configuration *)

Definition PROTOCOL_VERSION : N := 2.
Definition MAX_PROMPT_BYTES : N := 1048576.
Definition MAX_SYSTEM_PROMPT_BYTES : N := 524288.
Definition MAX_TOOL_RESULT_BYTES : N := 8388608.
Definition DEFAULT_TOOL_RESULT_TEXT_BYTES : N := 51200.
Definition MAX_TOOL_CALLS_PER_TURN : nat := 64.
Definition HANDOFF_MAX_OUTPUT_TOKENS : N := 8192.
Definition HANDOFF_ORIGINAL_TASK_MAX_BYTES : N := 16384.
Definition HANDOFF_MAX_TOOL_NAMES : nat := 20.
Definition DEFAULT_SYSTEM_PROMPT : string :=
  "You are buzz-agent. Use the provided tools to act. Tool calls are your only output.".

Inductive Provider := Anthropic | OpenAi | Databricks | DatabricksV2.
Inductive OpenAiApi := Chat | Responses | Auto.
Inductive HookServers := NoServers | AllServers | OnlyServers (names : list string).

(** Durations are in milliseconds. *)
Record Config := mkConfig {
  provider : Provider;
  system_prompt : string;
  max_rounds : N;
  max_output_tokens : N;
  llm_timeout : N;
  tool_timeout : N;
  mcp_init_timeout : N;
  mcp_max_restart_attempts : N;
  mcp_restart_base_ms : N;
  mcp_restart_max_ms : N;
  max_sessions : N;
  max_line_bytes : N;
  max_history_bytes : N;
  max_tool_result_text_bytes : N;
  max_context_tokens : N;
  max_handoffs : N;
  max_parallel_tools : N;
  hook_timeout : N;
  stop_max_rejections : N;
  hook_servers : HookServers;
  api_key : string;
  cfg_model : string;
  base_url : string;
  anthropic_api_version : string;
  openai_api : OpenAiApi;
  prefer_mesh_for_auto : bool;
  hints_enabled : bool;
  thinking_effort : option ThinkingEffort;
}.

Definition hook_allows (allowed : HookServers) (name : string) : bool :=
  match allowed with NoServers => false | AllServers => true | OnlyServers v => existsb (String.eqb name) v end.

Definition hook_is_disabled (allowed : HookServers) : bool := match allowed with NoServers => true | _ => false end.

Definition parse_hook_servers (raw : option string) : HookServers :=
  match raw with
  | None => NoServers
  | Some raw =>
      match filter (fun s => s <> EmptyString) (trim <$> split_on "," raw) with
      | [] => NoServers
      | [name] => if String.eqb name "*" then AllServers else OnlyServers [name]
      | names => OnlyServers names
      end
  end.

(** [resolve_model]. *)
Definition resolve_model (explicit_override provider_default : option string) : option string :=
  match explicit_override with Some m => Some m | None => provider_default end.

Definition present_nonempty (v : option string) : bool :=
  match trim <$> v with Some EmptyString | None => false | Some _ => true end.

Definition resolve_provider (requested anthropic_key openai_key : option string) : result string Provider :=
  match trim <$> requested with
  | None | Some EmptyString =>
      Err "config: BUZZ_AGENT_PROVIDER is required — set it to your provider (e.g. anthropic, openai, databricks)"
  | Some raw =>
      let normalized := to_ascii_lowercase raw in
      if String.eqb normalized "anthropic" then
        if present_nonempty anthropic_key then Ok Anthropic else Err "config: ANTHROPIC_API_KEY required"
      else if String.eqb normalized "openai" || String.eqb normalized "openai-compat" then
        if present_nonempty openai_key then Ok OpenAi else Err "config: OPENAI_COMPAT_API_KEY required"
      else if String.eqb normalized "databricks" then Ok Databricks
      else if String.eqb normalized "databricks_v2" || String.eqb normalized "databricks-v2" then Ok DatabricksV2
      else Err ("config: BUZZ_AGENT_PROVIDER=" +:+ raw +:+ " not supported")
  end.

Definition parse_openai_api (raw : option string) : result string OpenAiApi :=
  let other := to_ascii_lowercase (trim (default "auto" raw)) in
  if existsb (String.eqb other) ["chat"; "chat-completions"; "chat_completions"] then Ok Chat
  else if String.eqb other "responses" then Ok Responses
  else if String.eqb other "auto" || String.eqb other EmptyString then Ok Auto
  else Err ("config: OPENAI_COMPAT_API=" +:+ other +:+ " not supported (use auto|chat|responses)").

Fixpoint until_path (s : string) : string :=
  match s with
  | EmptyString => EmptyString
  | String c rest => if Ascii.eqb c "/" || Ascii.eqb c ":" then EmptyString else String c (until_path rest)
  end.

Fixpoint str_ends_with (s suffix : string) : bool :=
  String.eqb s suffix || match s with EmptyString => false | String _ rest => str_ends_with rest suffix end.

Definition is_openai_host (base_url : string) : bool :=
  match (match strip_prefix "https://" base_url with Some r => Some r | None => strip_prefix "http://" base_url end) with
  | Some rest => let host := until_path rest in String.eqb host "api.openai.com" || str_ends_with host ".openai.com"
  | None => false
  end.

(** *** The environment *)

(** [str::parse] of an unsigned integer type whose largest value is [max]. *)
Fixpoint parse_digits (max acc : N) (s : string) : result string N :=
  match s with
  | EmptyString => Ok acc
  | String c rest =>
      let? _ := ensure (is_digit c) "invalid digit found in string" in
      let acc := (acc * 10 + (N_of_ascii c - 48))%N in
      let? _ := ensure (acc <=? max)%N "number too large to fit in target type" in
      parse_digits max acc rest
  end.

Definition parse_uint (max : N) (s : string) : result string N :=
  match s with
  | EmptyString => Err "cannot parse integer from empty string"
  | String "+" (String _ _ as digits) => parse_digits max 0 digits
  | _ => parse_digits max 0 s
  end.

Definition u8_max : N := 255.

Section from_env.
Variable env : string -> option string.
(** [std::fs::read_to_string] *)
Variable read_file : string -> result string string.

Definition env_or (k d : string) : string := default d (env k).

Definition req (k : string) : result string string := ok_or (env k) ("config: " +:+ k +:+ " required").

Definition parse_env (max : N) (key : string) (default : N) : result string N :=
  match env key with
  | Some v => map_err (fun e => "config: " +:+ key +:+ ": " +:+ e) (parse_uint max v)
  | None => Ok default
  end.

Definition MIN_HISTORY_BYTES : N := 4096.
Definition MIN_LINE_BYTES : N := 1024.
Definition MIN_TOOL_RESULT_TEXT_BYTES : N := 1024.
Definition MIN_TIMEOUT : N := 1000.

Definition validate (c : Config) : result string unit :=
  let? _ := ensure (1 <=? max_output_tokens c)%N "config: BUZZ_AGENT_MAX_OUTPUT_TOKENS must be >= 1" in
  let? _ := ensure (max_output_tokens c <? max_context_tokens c)%N
    ("config: BUZZ_AGENT_MAX_CONTEXT_TOKENS (" +:+ u64_to_string (max_context_tokens c) +:+ ") must be > BUZZ_AGENT_MAX_OUTPUT_TOKENS ("
     +:+ u64_to_string (max_output_tokens c) +:+ ") — the context window must leave room for the response") in
  let? _ := ensure (MIN_HISTORY_BYTES <=? max_history_bytes c)%N
    ("config: BUZZ_AGENT_MAX_HISTORY_BYTES must be >= " +:+ u64_to_string MIN_HISTORY_BYTES) in
  let? _ := ensure (MAX_PROMPT_BYTES <=? max_history_bytes c)%N
    ("config: BUZZ_AGENT_MAX_HISTORY_BYTES (" +:+ u64_to_string (max_history_bytes c) +:+ ") must be >= MAX_PROMPT_BYTES ("
     +:+ u64_to_string MAX_PROMPT_BYTES +:+ ")") in
  let? _ := ensure (MIN_LINE_BYTES <=? max_line_bytes c)%N
    ("config: BUZZ_AGENT_MAX_LINE_BYTES must be >= " +:+ u64_to_string MIN_LINE_BYTES) in
  let? _ := ensure ((MIN_TOOL_RESULT_TEXT_BYTES <=? max_tool_result_text_bytes c) && (max_tool_result_text_bytes c <=? MAX_TOOL_RESULT_BYTES))%N
    ("config: BUZZ_AGENT_MAX_TOOL_RESULT_TEXT_BYTES must be in " +:+ u64_to_string MIN_TOOL_RESULT_TEXT_BYTES +:+ "..="
     +:+ u64_to_string MAX_TOOL_RESULT_BYTES) in
  let? _ := ensure (MIN_TIMEOUT <=? llm_timeout c)%N "config: BUZZ_AGENT_LLM_TIMEOUT_SECS must be >= 1" in
  let? _ := ensure (MIN_TIMEOUT <=? tool_timeout c)%N "config: BUZZ_AGENT_TOOL_TIMEOUT_SECS must be >= 1" in
  let? _ := ensure (MIN_TIMEOUT <=? mcp_init_timeout c)%N "config: BUZZ_AGENT_MCP_INIT_TIMEOUT_SECS must be >= 1" in
  let? _ := ensure (1 <=? max_parallel_tools c)%N "config: BUZZ_AGENT_MAX_PARALLEL_TOOLS must be >= 1" in
  let? _ := ensure (1 <=? mcp_max_restart_attempts c)%N "config: BUZZ_AGENT_MCP_RESTART_MAX_ATTEMPTS must be >= 1" in
  let? _ := ensure (1 <=? mcp_restart_base_ms c)%N "config: BUZZ_AGENT_MCP_RESTART_BASE_MS must be >= 1" in
  let? _ := ensure (mcp_restart_base_ms c <=? mcp_restart_max_ms c)%N
    "config: BUZZ_AGENT_MCP_RESTART_MAX_MS must be >= BUZZ_AGENT_MCP_RESTART_BASE_MS" in
  match provider c, thinking_effort c with
  | Anthropic, Some ((ENone | Minimal) as effort) =>
      Err ("config: BUZZ_AGENT_THINKING_EFFORT=" +:+ openai_effort_str effort
           +:+ " is not valid for Anthropic providers (allowed: low|medium|high|xhigh|max)")
  | _, _ => Ok tt
  end.

(** The key, the model, the base URL and the endpoint, by provider. *)
Definition provider_settings (p : Provider) : result string (string * string * string * OpenAiApi) :=
  let buzz_agent_model := env "BUZZ_AGENT_MODEL" in
  match p with
  | Anthropic =>
      let? key := req "ANTHROPIC_API_KEY" in
      let? model := ok_or (resolve_model buzz_agent_model (env "ANTHROPIC_MODEL")) "config: ANTHROPIC_MODEL required" in
      Ok (key, model, env_or "ANTHROPIC_BASE_URL" "https://api.anthropic.com", Auto)
  | OpenAi =>
      let? key := req "OPENAI_COMPAT_API_KEY" in
      let? model := ok_or (resolve_model buzz_agent_model (env "OPENAI_COMPAT_MODEL")) "config: OPENAI_COMPAT_MODEL required" in
      let? api := parse_openai_api (env "OPENAI_COMPAT_API") in
      Ok (key, model, env_or "OPENAI_COMPAT_BASE_URL" "https://api.openai.com/v1", api)
  | Databricks | DatabricksV2 =>
      let? model := ok_or (resolve_model buzz_agent_model (env "DATABRICKS_MODEL")) "config: DATABRICKS_MODEL required" in
      let? host := ok_or (env "DATABRICKS_HOST") "config: DATABRICKS_HOST required" in
      Ok (default EmptyString (env "DATABRICKS_TOKEN"), model, host, Chat)
  end.

Definition env_system_prompt : result string string :=
  match env "BUZZ_AGENT_SYSTEM_PROMPT", env "BUZZ_AGENT_SYSTEM_PROMPT_FILE" with
  | Some _, Some _ => Err "config: BUZZ_AGENT_SYSTEM_PROMPT and BUZZ_AGENT_SYSTEM_PROMPT_FILE are mutually exclusive"
  | Some s, None => Ok s
  | None, Some p => map_err (fun e => "config: read " +:+ p +:+ ": " +:+ e) (read_file p)
  | None, None => Ok DEFAULT_SYSTEM_PROMPT
  end.

Definition from_env : result string Config :=
  let? provider := resolve_provider (env "BUZZ_AGENT_PROVIDER") (env "ANTHROPIC_API_KEY") (env "OPENAI_COMPAT_API_KEY") in
  let? (api_key, model, base_url, openai_api) := provider_settings provider in
  let? system_prompt := env_system_prompt in
  let? prefer_mesh := parse_env u8_max "BUZZ_AGENT_PREFER_MESH_FOR_AUTO" 0 in
  let? max_rounds := parse_env u32_max "BUZZ_AGENT_MAX_ROUNDS" 0 in
  let? max_output_tokens := parse_env u32_max "BUZZ_AGENT_MAX_OUTPUT_TOKENS" 32768 in
  let? llm_timeout := parse_env u64_max "BUZZ_AGENT_LLM_TIMEOUT_SECS" 240 in
  let? tool_timeout := parse_env u64_max "BUZZ_AGENT_TOOL_TIMEOUT_SECS" 660 in
  let? mcp_init_timeout := parse_env u64_max "BUZZ_AGENT_MCP_INIT_TIMEOUT_SECS" 30 in
  let? restart_attempts := parse_env u32_max "BUZZ_AGENT_MCP_RESTART_MAX_ATTEMPTS" 3 in
  let? restart_base := parse_env u64_max "BUZZ_AGENT_MCP_RESTART_BASE_MS" 500 in
  let? restart_max := parse_env u64_max "BUZZ_AGENT_MCP_RESTART_MAX_MS" 30000 in
  let? max_sessions := parse_env u64_max "BUZZ_AGENT_MAX_SESSIONS" u64_max in
  let? max_line_bytes := parse_env u64_max "BUZZ_AGENT_MAX_LINE_BYTES" 4194304 in
  let? max_history_bytes := parse_env u64_max "BUZZ_AGENT_MAX_HISTORY_BYTES" 16777216 in
  let? text_bytes := parse_env u64_max "BUZZ_AGENT_MAX_TOOL_RESULT_TEXT_BYTES" DEFAULT_TOOL_RESULT_TEXT_BYTES in
  let? max_context_tokens := parse_env u64_max "BUZZ_AGENT_MAX_CONTEXT_TOKENS" 200000 in
  let? max_handoffs := parse_env u64_max "BUZZ_AGENT_MAX_HANDOFFS" 10 in
  let? max_parallel_tools := parse_env u64_max "BUZZ_AGENT_MAX_PARALLEL_TOOLS" 8 in
  let? hook_timeout := parse_env u64_max "BUZZ_AGENT_HOOK_TIMEOUT_MS" 2500 in
  let? stop_max_rejections := parse_env u32_max "BUZZ_AGENT_STOP_MAX_REJECTIONS" 3 in
  let? no_hints := parse_env u8_max "BUZZ_AGENT_NO_HINTS" 0 in
  let? thinking_effort := parse_thinking_effort (env "BUZZ_AGENT_THINKING_EFFORT") in
  let cfg := mkConfig provider system_prompt max_rounds max_output_tokens (llm_timeout * 1000) (tool_timeout * 1000) (mcp_init_timeout * 1000)
    restart_attempts restart_base restart_max max_sessions max_line_bytes max_history_bytes text_bytes max_context_tokens max_handoffs
    max_parallel_tools hook_timeout stop_max_rejections (parse_hook_servers (env "MCP_HOOK_SERVERS")) api_key model base_url
    (env_or "ANTHROPIC_API_VERSION" "2023-06-01") openai_api (negb (prefer_mesh =? 0)%N) (no_hints =? 0)%N thinking_effort in
  let? _ := validate cfg in
  Ok cfg.
End from_env.

(** ** The tables agree *)

Lemma effort_in_elem e l : effort_in e l = true <-> e ∈ l.
Proof.
  unfold effort_in, effort_eqb. rewrite existsb_exists. split.
  - intros (x & Hx & He). apply bool_decide_eq_true in He as ->. by apply list_elem_of_In.
  - intros H. exists e. split; [by apply list_elem_of_In|by apply bool_decide_eq_true].
Qed.

(** What is sent to a model of a known family is in its table. *)
Lemma openai_effort_supported effort model supported :
  openai_efforts_for_model model = Some supported ->
  exists e, normalize_effort_for_openai_route effort model = Some e /\ e ∈ supported.
Proof.
  intros E. unfold normalize_effort_for_openai_route. rewrite E.
  assert (supported ∈ [GPT5_PRO; GPT5_6; GPT5_5_AND_5_4; GPT5_1; GPT5_BASE]) as Hl.
  { revert E. unfold openai_efforts_for_model. repeat case_match; intros [= <-]; set_solver. }
  unfold resolve_openai_effort. destruct (effort_in effort supported) eqn:Ein; [exists effort; by rewrite <-effort_in_elem|].
  set_unfold in Hl. destruct_or! Hl; subst; destruct effort; try done; eexists; (split; [vm_compute; reflexivity|set_solver]).
Qed.

(** A request of an unknown family carries an effort, too. *)
Lemma openai_effort_some effort model : exists e, normalize_effort_for_openai_route effort model = Some e.
Proof.
  destruct (openai_efforts_for_model model) as [l|] eqn:E.
  - destruct (openai_effort_supported effort model l E) as (e & He & _). by exists e.
  - unfold normalize_effort_for_openai_route. rewrite E. eauto.
Qed.

(** Thinking leaves room for the answer. *)
Lemma thinking_leaves_room model effort max_tokens budget oc :
  anthropic_thinking_config model effort max_tokens =
    (Some (VObject [("type", VString "enabled"); ("budget_tokens", VNumber (PosInt budget))]), oc) ->
  (MIN_ANSWER_TOKENS <= budget /\ budget + MIN_ANSWER_TOKENS <= max_tokens)%N.
Proof.
  unfold anthropic_thinking_config. repeat case_match; intros [= <- _]; try done. unfold MIN_ANSWER_TOKENS in *. lia.
Qed.

(** A configuration that starts is valid. *)
Lemma from_env_valid env read_file cfg : from_env env read_file = Ok cfg -> validate cfg = Ok tt.
Proof.
  unfold from_env. intros H. repeat (case_match; try done); simplify_eq. match goal with H : validate _ = Ok ?u |- _ => by destruct u end.
Qed.
