(* ===== verification/AgentTypes.v ===== *)
(** * Histories, tool results and their sizes

    [buzz-agent/src/types.rs], the message frames of [wire.rs], and of [mcp.rs]
    and [handoff.rs] the cutting of texts to a budget.  A text is the string of
    its bytes; a cut is moved to where a character begins. *)

From S2P Require Import Prelude Text Json AgentConfig.

(** ** Data *)

Inductive ToolResultContent := TText (text : string) | TImage (data mime_type : string).

Record ToolCall := mkCall { call_id : string; call_name : string; call_arguments : Value }.

Record ToolResult := mkToolResult { result_id : string; result_content : list ToolResultContent; result_is_error : bool }.

Inductive HistoryItem :=
| User (text : string)
| Assistant (text : string) (tool_calls : list ToolCall)
| ToolAnswer (r : ToolResult).

Inductive ProviderStop := PEndTurn | PToolUse | PMaxTokens | PRefusal | POther.

Record LlmResponse := mkLlmResponse {
  resp_text : string;
  resp_tool_calls : list ToolCall;
  resp_stop : ProviderStop;
  resp_input_tokens : option N;
  resp_output_tokens : option N;
  resp_reasoning : string;
}.

Record ToolDef := mkToolDef { tool_name : string; tool_description : string; tool_schema : Value }.

Inductive StopReason := EndTurn | Cancelled | MaxTokens | MaxTurnRequests | Refusal.

#[export] Instance StopReason_eq_dec : EqDecision StopReason.
Proof. solve_decision. Defined.

#[export] Instance ProviderStop_eq_dec : EqDecision ProviderStop.
Proof. solve_decision. Defined.

Definition stop_as_wire (s : StopReason) : string :=
  match s with
  | EndTurn => "end_turn" | Cancelled => "cancelled" | MaxTokens => "max_tokens" | MaxTurnRequests => "max_turn_requests" | Refusal => "refusal"
  end.

Inductive ContentBlock := BText (text : string) | BResourceLink (uri : string) | BUnsupported.

Inductive AgentError :=
| InvalidParams (s : string)
| Llm (s : string)
| LlmAuth (s : string)
| LlmModelNotFound (s : string)
| Mcp (s : string)
| AgentCancelled.

Definition agent_error_text (e : AgentError) : string :=
  match e with
  | InvalidParams s => "invalid params: " +:+ s
  | Llm s => "llm: " +:+ s
  | LlmAuth s => "llm auth: " +:+ s
  | LlmModelNotFound s => "llm model not found: " +:+ s
  | Mcp s => "mcp: " +:+ s
  | AgentCancelled => "cancelled"
  end.

Definition json_rpc_code (e : AgentError) : Z :=
  match e with InvalidParams _ => -32602 | LlmAuth _ => -32001 | LlmModelNotFound _ => -32002 | _ => -32000 end.

(** ** Sizes *)

Definition IMAGE_CONTEXT_TOKEN_EQUIV : N := 16384.

Definition content_estimated_bytes (c : ToolResultContent) : N :=
  match c with TText s => len s | TImage data mime_type => len data + len mime_type end.

Definition content_context_pressure_bytes (c : ToolResultContent) : N :=
  match c with TText s => len s | TImage _ mime_type => IMAGE_CONTEXT_TOKEN_EQUIV + len mime_type end.

Definition as_text_lossy (c : ToolResultContent) : string :=
  match c with
  | TText s => s
  | TImage data mime_type => "[image: " +:+ mime_type +:+ ", " +:+ u64_to_string (len data) +:+ " base64 bytes]"
  end.

Definition nl : string := String Lines.newline EmptyString.

Definition result_text (r : ToolResult) : string := join_str nl (as_text_lossy <$> result_content r).

Definition sum_N (l : list N) : N := foldr N.add 0%N l.

Section sizes.
Context `{JL : JsonLib}.

Definition call_bytes (c : ToolCall) : N := (len (call_id c) + len (call_name c) + len (json_text (call_arguments c)))%N.

Definition size_with (content_size : ToolResultContent -> N) (h : HistoryItem) : N :=
  match h with
  | User s => len s
  | Assistant text tool_calls => len text + sum_N (call_bytes <$> tool_calls)
  | ToolAnswer r => len (result_id r) + sum_N (content_size <$> result_content r)
  end.

Definition estimated_bytes : HistoryItem -> N := size_with content_estimated_bytes.
Definition context_pressure_bytes : HistoryItem -> N := size_with content_context_pressure_bytes.
End sizes.

(** ** Cutting texts *)

(** [while cut > 0 && !s.is_char_boundary(cut) { cut -= 1 }]. *)
Fixpoint floor_boundary (s : string) (cut : nat) : nat :=
  match cut with
  | O => O
  | S cut' => if is_char_boundary s cut then cut else floor_boundary s cut'
  end.

(** [&s[..n]] and [&s[n..]]. *)
Definition str_take (n : nat) (s : string) : string := String.substring 0 n s.
Definition str_drop (n : nat) (s : string) : string := String.substring n (String.length s - n) s.

Definition MARKER : string := nl +:+ "[truncated]".

Definition clamp (s : string) (max : N) : string :=
  if (len s <=? max)%N then s
  else
    let cut := floor_boundary s (N.to_nat (max - len MARKER)) in
    if (len MARKER <=? max)%N then str_take cut s +:+ MARKER else str_take cut s.

Definition ELLIPSIS : string := "…".

Definition clamp_bytes (s : string) (max_bytes : N) : string :=
  if (len s <=? max_bytes)%N then s
  else if (max_bytes <? 4)%N then str_take (floor_boundary s (N.to_nat (N.min max_bytes (len s)))) s
  else str_take (floor_boundary s (N.to_nat (max_bytes - len ELLIPSIS))) s +:+ ELLIPSIS.

Definition truncate_at_boundary (s : string) (max : N) : string :=
  if (len s <=? max)%N then s else str_take (floor_boundary s (N.to_nat max)) s.

Definition ELISION_MARKER_ALLOWANCE : N := 128.

(** [while start < s.len() && !s.is_char_boundary(start) { start += 1 }], with
    the number of bytes left as fuel. *)
Fixpoint ceil_boundary (s : string) (fuel start : nat) : nat :=
  match fuel with
  | O => start
  | S fuel => if is_char_boundary s start then start else ceil_boundary s fuel (S start)
  end.

Definition elision_marker (elided total : N) : string :=
  nl +:+ "[... " +:+ u64_to_string elided +:+ " of " +:+ u64_to_string total +:+ " bytes elided from tool result ...]" +:+ nl.

Definition truncate_middle (s : string) (max : N) : string :=
  if (len s <=? max)%N then s
  else
    let keep := (max - ELISION_MARKER_ALLOWANCE)%N in
    if (keep =? 0)%N then truncate_at_boundary s max
    else
      let head := truncate_at_boundary s ((keep + 1) / 2) in
      let tail_start := String.length s - N.to_nat (keep / 2) in
      let tail := str_drop (ceil_boundary s (String.length s - tail_start) tail_start) s in
      head +:+ elision_marker (len s - len head - len tail) (len s) +:+ tail.

(** *** The content of a tool result *)

Inductive RawContent :=
| RawText (text : string)
| RawImage (data mime_type : string)
| RawAudio (data mime_type : string)
| RawResourceLink (uri : string)
| RawResource.

Definition MARKER_FIELD_MAX : N := 256.

Record Assembly := mkAssembly { as_out : list ToolResultContent; as_text : string; as_used : N; as_text_used : N }.

Definition flush_text (max_bytes max_text_bytes : N) (a : Assembly) : Assembly :=
  match as_text a with
  | EmptyString => a
  | text =>
      let budget := N.min (max_text_bytes - as_text_used a) (max_bytes - as_used a) in
      let kept := truncate_middle text budget in
      mkAssembly (match kept with EmptyString => as_out a | _ => as_out a ++ [TText kept] end) EmptyString
        (as_used a + len kept) (as_text_used a + len kept)
  end.

Definition append_text (s : string) (a : Assembly) : Assembly :=
  mkAssembly (as_out a) (match as_text a with EmptyString => s | t => t +:+ nl +:+ s end) (as_used a) (as_text_used a).

Definition assemble (max_bytes max_text_bytes : N) (a : Assembly) (c : RawContent) : Assembly :=
  let short := fun s => truncate_at_boundary s MARKER_FIELD_MAX in
  match c with
  | RawText t => append_text t a
  | RawImage data mime_type =>
      let a := flush_text max_bytes max_text_bytes a in
      let image_bytes := (len data + len mime_type)%N in
      if (as_used a + image_bytes <=? max_bytes)%N
      then mkAssembly (as_out a ++ [TImage data mime_type]) (as_text a) (as_used a + image_bytes) (as_text_used a)
      else append_text ("[image elided: " +:+ short mime_type +:+ ", " +:+ u64_to_string (len data)
                        +:+ " base64 bytes exceeds remaining tool-result budget]") a
  | RawAudio data mime_type => append_text ("[audio elided: " +:+ short mime_type +:+ ", " +:+ u64_to_string (len data) +:+ " bytes]") a
  | RawResourceLink uri => append_text ("[resource: " +:+ short uri +:+ "]") a
  | RawResource => append_text "[resource elided]" a
  end.

Definition tool_result_content (blocks : list RawContent) (max_bytes max_text_bytes : N) : list ToolResultContent :=
  as_out (flush_text max_bytes max_text_bytes
    (fold_left (assemble max_bytes max_text_bytes) blocks (mkAssembly [] EmptyString 0 0))).

(** ** Frames *)

Definition json_int (z : Z) : Value := VNumber (match z with Z0 => PosInt 0 | Zpos p => PosInt (Npos p) | Zneg _ => NegInt z end).

Definition wire_ok (id v : Value) : Value := VObject [("jsonrpc", VString "2.0"); ("id", id); ("result", v)].

Definition wire_err (id : Value) (code : Z) (message : string) : Value :=
  VObject [("jsonrpc", VString "2.0"); ("id", id); ("error", VObject [("code", json_int code); ("message", VString message)])].

Definition session_update (sid : string) (update : Value) : Value :=
  VObject [("jsonrpc", VString "2.0"); ("method", VString "session/update");
           ("params", VObject [("sessionId", VString sid); ("update", update)])].

Definition goose_session_update (sid : string) (update : Value) : Value :=
  VObject [("jsonrpc", VString "2.0"); ("method", VString "_goose/unstable/session/update");
           ("params", VObject [("sessionId", VString sid); ("update", update)])].

Definition session_update_with_goose_meta (sid : string) (update : list (string * Value)) (goose_meta : Value) : Value :=
  session_update sid (VObject (set_field "_meta" (VObject [("goose", goose_meta)]) update)).

Inductive Inbound :=
| Request (id : Value) (method : string) (params : Value)
| Notification (method : string) (params : Value)
| Ignored
| Invalid (id : Value) (code : Z) (message : string).

Definition PARSE_ERROR : Z := -32700.
Definition INVALID_REQUEST : Z := -32600.
Definition METHOD_NOT_FOUND : Z := -32601.
Definition INVALID_PARAMS : Z := -32602.

Definition classify (msg : Value) : Inbound :=
  if negb (is_object msg) || negb (bool_decide ((field "jsonrpc" msg ≫= as_str) = Some "2.0"))
  then Invalid (default VNull (field "id" msg)) INVALID_REQUEST "jsonrpc: missing or invalid version"
  else
    let params := default VNull (field "params" msg) in
    match field "method" msg ≫= as_str, field "id" msg with
    | Some m, Some id => Request id m params
    | Some m, None => Notification m params
    | None, Some _ => Ignored
    | None, None => Invalid VNull INVALID_REQUEST "jsonrpc: missing method and id"
    end.
