(* ===== verification/AgentLlm.v ===== *)
(** * Requests to language models

    [buzz-agent/src/llm.rs]: the bodies sent to each kind of provider, the
    parsing of their answers, retries, token refresh, the choice between the
    endpoints of an OpenAI host, and the choice between the models [mesh] and
    [auto] of a relay mesh.

    A request is a function of the process [Proc], whose outside ([AgentWorld])
    answers it; every effect is recorded in a log.  The future of a request is
    dropped when the session is cancelled: it then has no result. *)

From S2P Require Import Prelude Text Json AgentConfig AgentTypes.

(** ** The outside *)

Record HttpResponse := mkHttpResponse {
  http_status : N;
  http_content_length : option N;
  http_chunks : list string;
  (** the error that ends the body early *)
  http_broken : option string;
}.

(** [reqwest::Error]: its text, and what the code asks of it. *)
Record TransportError := mkTransportError { te_text : string; te_timeout : bool; te_connect : bool; te_request : bool }.

Record MeshAutoState := mkMesh {
  last_checked : option N;
  consecutive_available : N;
  collective_enabled : bool;
  cooldown_until : option N;
}.

(** Functions of the crates. *)
Class LlmLib := {
  (** [Display] of [reqwest::StatusCode] *)
  status_text : N -> string;
  (** [String::from_utf8_lossy] *)
  utf8_lossy : string -> string;
  (** [serde_json::from_str] and [from_slice], with the text of the error *)
  json_parse : string -> result string Value;
  (** [Debug] of a [Duration] in nanoseconds *)
  duration_debug : N -> string;
}.

Class AgentWorld := {
  World : Type;
  (** whether the session is cancelled meanwhile *)
  cancel_raised : World -> bool * World;
  (** [Instant::now], in nanoseconds *)
  now : World -> N * World;
  (** eight bytes of [getrandom] *)
  random : World -> option N * World;
  http_post : string -> list (string * string) -> string -> World -> result TransportError HttpResponse * World;
  http_get : string -> list (string * string) -> World -> result TransportError HttpResponse * World;
  (** the methods of [TokenSource] *)
  bearer : World -> result AgentError string * World;
  refresh_now : string -> World -> result AgentError string * World;
  (** what other sessions leave in the state shared with them *)
  others_mesh : MeshAutoState -> World -> MeshAutoState * World;
  others_upgraded : bool -> World -> bool * World;
}.

Inductive Effect :=
| Wire (v : Value)
| Posted (url : string) (headers : list (string * string)) (body : Value)
| Fetched (url : string)
| Slept (ms : N).

Section requests.
Context `{JL : JsonLib, LL : LlmLib, AW : AgentWorld}.

Record Proc := mkProc {
  world : World;
  (** the value of the session's cancel channel *)
  cancelled : bool;
  auto_upgraded : bool;
  mesh_auto_state : MeshAutoState;
  log : list Effect;
}.

Definition put_world (w : World) (p : Proc) : Proc := mkProc w (cancelled p) (auto_upgraded p) (mesh_auto_state p) (log p).
Definition put_cancelled (c : bool) (p : Proc) : Proc := mkProc (world p) c (auto_upgraded p) (mesh_auto_state p) (log p).
Definition put_upgraded (b : bool) (p : Proc) : Proc := mkProc (world p) (cancelled p) b (mesh_auto_state p) (log p).
Definition put_mesh (m : MeshAutoState) (p : Proc) : Proc := mkProc (world p) (cancelled p) (auto_upgraded p) m (log p).
Definition effect (e : Effect) (p : Proc) : Proc := mkProc (world p) (cancelled p) (auto_upgraded p) (mesh_auto_state p) (log p ++ [e]).

(** A computation that a cancellation may drop where it waits. *)
Definition M (A : Type) : Type := Proc -> option A * Proc.

Definition ret {A} (a : A) : M A := fun p => (Some a, p).
Definition bind {A B} (m : M A) (k : A -> M B) : M B :=
  fun p => match m p with (Some a, p) => k a p | (None, p) => (None, p) end.

(** [f.await]. *)
Definition wait {A} (f : World -> A * World) : M A := fun p =>
  let '(raised, w) := cancel_raised (world p) in
  if cancelled p || raised then (None, put_cancelled true (put_world w p))
  else let '(a, w) := f w in (Some a, put_world w p).

(** A call that returns at once. *)
Definition call {A} (f : World -> A * World) : M A := fun p => let '(a, w) := f (world p) in (Some a, put_world w p).

Definition record (e : Effect) : M unit := fun p => (Some tt, effect e p).
End requests.

Declare Scope agent_scope.
Open Scope agent_scope.
Notation "'let!' x ':=' e 'in' k" := (bind e (fun x => k)) (at level 10, x pattern, e at level 200, k at level 200) : agent_scope.

(** [let x = e?;] inside a computation. *)
Notation "'let!?' x ':=' e 'in' k" := (bind e (fun r => match r with Ok x => k | Err err => ret (Err err) end))
  (at level 10, x pattern, e at level 200, k at level 200) : agent_scope.

(** ** Bodies *)

Section bodies.
Context `{JL : JsonLib}.

Definition text_block (type text : string) : Value := VObject [("type", VString type); ("text", VString text)].

Definition anthropic_tool_result_content (content : list ToolResultContent) : list Value :=
  (fun c => match c with
   | TText text => text_block "text" text
   | TImage data mime_type =>
       VObject [("type", VString "image");
                ("source", VObject [("type", VString "base64"); ("media_type", VString mime_type); ("data", VString data)])]
   end) <$> content.

Definition role (r : string) (content : Value) : Value := VObject [("role", VString r); ("content", content)].

Definition tool_use_block (c : ToolCall) : Value :=
  VObject [("type", VString "tool_use"); ("id", VString (call_id c)); ("name", VString (call_name c)); ("input", call_arguments c)].

Definition tool_result_block (r : ToolResult) : Value :=
  VObject [("type", VString "tool_result"); ("tool_use_id", VString (result_id r));
           ("content", VArray (anthropic_tool_result_content (result_content r))); ("is_error", VBool (result_is_error r))].

(** The closures [flush] and [flush_images]. *)
Definition flush (messages pending : list Value) : list Value :=
  match pending with [] => messages | _ => messages ++ [role "user" (VArray pending)] end.

Definition anthropic_message (acc : list Value * list Value) (item : HistoryItem) : list Value * list Value :=
  let '(messages, pending) := acc in
  match item with
  | User text => (flush messages pending ++ [role "user" (VArray [text_block "text" text])], [])
  | Assistant text tool_calls =>
      let content := (match text with EmptyString => [] | _ => [text_block "text" text] end) ++ (tool_use_block <$> tool_calls) in
      (match content with [] => flush messages pending | _ => flush messages pending ++ [role "assistant" (VArray content)] end, [])
  | ToolAnswer r => (messages, pending ++ [tool_result_block r])
  end.

Definition anthropic_messages (history : list HistoryItem) : list Value :=
  let '(messages, pending) := fold_left anthropic_message history ([], []) in flush messages pending.

Definition anthropic_body (cfg : Config) (system_prompt : string) (history : list HistoryItem) (tools : list ToolDef) (effective_model : string)
    (effort : option ThinkingEffort) : Value :=
  let tools_json := (fun t => VObject [("name", VString (tool_name t)); ("description", VString (tool_description t));
                                       ("input_schema", tool_schema t)]) <$> tools in
  let body := [("model", VString effective_model); ("max_tokens", VNumber (PosInt (max_output_tokens cfg))); ("system", VString system_prompt);
               ("messages", VArray (anthropic_messages history))] in
  let '(thinking, output_config) :=
    match effort with Some e => anthropic_thinking_config effective_model e (max_output_tokens cfg) | None => (None, None) end in
  let body := match thinking with Some t => set_field "thinking" t body | None => body end in
  let body := match output_config with Some oc => set_field "output_config" oc body | None => body end in
  VObject (match tools_json with [] => body | _ => set_field "tools" (VArray tools_json) body end).

Definition openai_tool_text_content (content : list ToolResultContent) : string :=
  join_str nl ((fun c => match c with
   | TText text => text
   | TImage data mime_type => "This tool result included an image (" +:+ mime_type +:+ ", " +:+ u64_to_string (len data)
       +:+ " base64 bytes) that is provided in the next user message."
   end) <$> content).

Definition data_url (data mime_type : string) : string := "data:" +:+ mime_type +:+ ";base64," +:+ data.

Definition openai_image_user_content (content : list ToolResultContent) : list Value :=
  omap (fun c => match c with
   | TImage data mime_type =>
       Some (VObject [("type", VString "image_url"); ("image_url", VObject [("url", VString (data_url data mime_type))])])
   | TText _ => None
   end) content.

Definition openai_call (c : ToolCall) : Value :=
  VObject [("id", VString (call_id c)); ("type", VString "function");
           ("function", VObject [("name", VString (call_name c)); ("arguments", VString (json_text (call_arguments c)))])].

Definition openai_tool_message (r : ToolResult) : Value :=
  VObject [("role", VString "tool"); ("tool_call_id", VString (result_id r)); ("content", VString (openai_tool_text_content (result_content r)))].

Definition openai_assistant (text : string) (tool_calls : list ToolCall) : Value :=
  VObject ([("role", VString "assistant"); ("content", VString text)]
    ++ match tool_calls with [] => [] | _ => [("tool_calls", VArray (openai_call <$> tool_calls))] end).

Definition openai_message (acc : list Value * list Value) (item : HistoryItem) : list Value * list Value :=
  let '(messages, pending_images) := acc in
  match item with
  | User text => (flush messages pending_images ++ [role "user" (VString text)], [])
  | Assistant text tool_calls => (flush messages pending_images ++ [openai_assistant text tool_calls], [])
  | ToolAnswer r => (messages ++ [openai_tool_message r], pending_images ++ openai_image_user_content (result_content r))
  end.

Definition openai_messages (system_prompt : string) (history : list HistoryItem) : list Value :=
  let '(messages, pending) := fold_left openai_message history ([role "system" (VString system_prompt)], []) in flush messages pending.

Definition with_tools (tools_json : list Value) (body : list (string * Value)) : Value :=
  VObject (match tools_json with
           | [] => body
           | _ => set_field "tool_choice" (VString "auto") (set_field "tools" (VArray tools_json) body)
           end).

Definition openai_body (cfg : Config) (system_prompt : string) (history : list HistoryItem) (tools : list ToolDef) (effective_model : string)
    (effort : option ThinkingEffort) : Value :=
  let tools_json := (fun t => VObject [("type", VString "function");
    ("function", VObject [("name", VString (tool_name t)); ("description", VString (tool_description t)); ("parameters", tool_schema t)])]) <$> tools in
  let body := [("model", VString effective_model); ("stream", VBool false); ("max_completion_tokens", VNumber (PosInt (max_output_tokens cfg)));
               ("messages", VArray (openai_messages system_prompt history))] in
  with_tools tools_json (match effort with Some e => set_field "reasoning_effort" (VString (openai_effort_str e)) body | None => body end).

Definition function_call_item (c : ToolCall) : Value :=
  VObject [("type", VString "function_call"); ("call_id", VString (call_id c)); ("name", VString (call_name c));
           ("arguments", VString (json_text (call_arguments c)))].

Definition function_call_output (r : ToolResult) : Value :=
  VObject [("type", VString "function_call_output"); ("call_id", VString (result_id r));
           ("output", VString (openai_tool_text_content (result_content r)))].

Definition responses_images (content : list ToolResultContent) : list Value :=
  omap (fun c => match c with
   | TImage data mime_type => Some (VObject [("type", VString "input_image"); ("image_url", VString (data_url data mime_type))])
   | TText _ => None
   end) content.

Definition responses_item (item : HistoryItem) : list Value :=
  match item with
  | User text => [role "user" (VArray [text_block "input_text" text])]
  | Assistant text tool_calls =>
      (match text with EmptyString => [] | _ => [role "assistant" (VArray [text_block "output_text" text])] end)
      ++ (function_call_item <$> tool_calls)
  | ToolAnswer r =>
      [function_call_output r] ++ (match responses_images (result_content r) with [] => [] | images => [role "user" (VArray images)] end)
  end.

Definition responses_body (cfg : Config) (system_prompt : string) (history : list HistoryItem) (tools : list ToolDef) (effective_model : string)
    (effort : option ThinkingEffort) : Value :=
  let tools_json := (fun t => VObject [("type", VString "function"); ("name", VString (tool_name t)); ("description", VString (tool_description t));
                                       ("parameters", tool_schema t)]) <$> tools in
  let body := [("model", VString effective_model); ("instructions", VString system_prompt);
               ("max_output_tokens", VNumber (PosInt (max_output_tokens cfg))); ("input", VArray (concat (responses_item <$> history)))] in
  with_tools tools_json (match effort with Some e => set_field "reasoning" (VObject [("effort", VString (openai_effort_str e))]) body | None => body end).

Definition strip_model (body : Value) : Value :=
  match body with VObject fields => VObject (filter (fun x => x.1 <> "model") fields) | other => other end.
End bodies.

(** ** Answers *)

Section answers.
Context `{JL : JsonLib, LL : LlmLib}.

Definition llm_map_stop (s : option string) : ProviderStop :=
  match s with
  | Some s =>
      if String.eqb s "end_turn" || String.eqb s "stop" then PEndTurn
      else if String.eqb s "tool_use" || String.eqb s "tool_calls" then PToolUse
      else if String.eqb s "max_tokens" || String.eqb s "length" then PMaxTokens
      else if String.eqb s "refusal" || String.eqb s "content_filter" then PRefusal
      else POther
  | None => POther
  end.

Definition sum_usage (v : Value) (fields : list string) : option N :=
  match field "usage" v with
  | Some usage =>
      match omap (fun f => field f usage ≫= as_u64) fields with
      | [] => None
      | found => Some (fold_left u64_saturating_add found 0%N)
      end
  | None => None
  end.

Definition anthropic_input_tokens (v : Value) : option N :=
  sum_usage v ["input_tokens"; "cache_read_input_tokens"; "cache_creation_input_tokens"].

Definition openai_chat_input_tokens (v : Value) : option N :=
  sum_usage v ["prompt_tokens"; "cache_read_input_tokens"; "cache_creation_input_tokens"].

Definition str_field (v : Value) (key : string) : string := default EmptyString (field key v ≫= as_str).

Definition make_tool_call (id name : string) (args : Value) : result AgentError ToolCall :=
  let? _ := ensure (negb (String.eqb id EmptyString || String.eqb name EmptyString)) (Llm "tool_call missing id or name") in
  match args with
  | VObject _ => Ok (mkCall id name args)
  | VNull => Ok (mkCall id name (VObject []))
  | _ => Err (Llm "tool_call arguments must be a JSON object")
  end.

(** The items of an array field; none when it is missing. *)
Definition items (key : string) (v : Value) : list Value := default [] (field key v ≫= as_array).

Definition type_of (v : Value) : option string := field "type" v ≫= as_str.

(** The text of the parts of the given types. *)
Definition texts_of (types : list string) (key : string) (parts : list Value) : list string :=
  omap (fun p => match type_of p with Some t => if existsb (String.eqb t) types then field key p ≫= as_str else None | None => None end) parts.

(** Reasoning chunks, one per line. *)
Definition add_reasoning (reasoning t : string) : string :=
  match reasoning with EmptyString => t | _ => reasoning +:+ nl +:+ t end.

(** The variables of the parsing loops. *)
Record Parsed := mkParsed { pa_text : string; pa_reasoning : string; pa_calls : list ToolCall; pa_saw_call : bool }.

Fixpoint fold_res {E A B} (f : B -> A -> result E B) (b : B) (l : list A) : result E B :=
  match l with [] => Ok b | x :: l => let? b := f b x in fold_res f b l end.

Definition parse_arguments (what : string) (v : Value) : result AgentError Value :=
  map_err (fun e => Llm (what +:+ ".arguments not valid JSON: " +:+ e)) (json_parse (default "{}" (field "arguments" v ≫= as_str))).

Definition parse_responses_item (a : Parsed) (item : Value) : result AgentError Parsed :=
  match type_of item with
  | Some t =>
      if String.eqb t "message" then
        Ok (mkParsed (fold_left String.append (texts_of ["output_text"; "text"] "text" (items "content" item)) (pa_text a))
              (pa_reasoning a) (pa_calls a) (pa_saw_call a))
      else if String.eqb t "function_call" then
        let? args := parse_arguments "function_call" item in
        let? c := make_tool_call (str_field item "call_id") (str_field item "name") args in
        Ok (mkParsed (pa_text a) (pa_reasoning a) (pa_calls a ++ [c]) true)
      else if String.eqb t "reasoning" then
        Ok (mkParsed (pa_text a) (fold_left add_reasoning (texts_of ["summary_text"; "text"] "text" (items "summary" item)) (pa_reasoning a))
              (pa_calls a) (pa_saw_call a))
      else Ok a
  | None => Ok a
  end.

Definition responses_stop (v : Value) (saw_function_call : bool) : ProviderStop :=
  match field "status" v ≫= as_str with
  | Some s =>
      if String.eqb s "incomplete" then
        if bool_decide ((field "incomplete_details" v ?> field "reason" ?> as_str) = Some "max_output_tokens") then PMaxTokens else POther
      else if String.eqb s "completed" then if saw_function_call then PToolUse else PEndTurn
      else POther
  | None => POther
  end.

Definition nothing_parsed : Parsed := mkParsed EmptyString EmptyString [] false.

Definition parse_responses (v : Value) : result AgentError LlmResponse :=
  let? a := fold_res parse_responses_item nothing_parsed (items "output" v) in
  Ok (mkLlmResponse (pa_text a) (pa_calls a) (responses_stop v (pa_saw_call a)) (sum_usage v ["input_tokens"]) (sum_usage v ["output_tokens"])
        (pa_reasoning a)).

Definition parse_anthropic_block (a : Parsed) (b : Value) : result AgentError Parsed :=
  match type_of b with
  | Some t =>
      if String.eqb t "text" then
        Ok (mkParsed (pa_text a +:+ str_field b "text") (pa_reasoning a) (pa_calls a) (pa_saw_call a))
      else if String.eqb t "thinking" then
        Ok (mkParsed (pa_text a) (match field "thinking" b ≫= as_str with Some r => add_reasoning (pa_reasoning a) r | None => pa_reasoning a end)
              (pa_calls a) (pa_saw_call a))
      else if String.eqb t "tool_use" then
        let? c := make_tool_call (str_field b "id") (str_field b "name") (default VNull (field "input" b)) in
        Ok (mkParsed (pa_text a) (pa_reasoning a) (pa_calls a ++ [c]) true)
      else Ok a
  | None => Ok a
  end.

Definition parse_anthropic (v : Value) : result AgentError LlmResponse :=
  let? a := fold_res parse_anthropic_block nothing_parsed (items "content" v) in
  Ok (mkLlmResponse (pa_text a) (pa_calls a) (llm_map_stop (field "stop_reason" v ≫= as_str)) (anthropic_input_tokens v)
        (sum_usage v ["output_tokens"]) (pa_reasoning a)).

Definition parse_openai_call (calls : list ToolCall) (tc : Value) : result AgentError (list ToolCall) :=
  let? f := ok_or (field "function" tc) (Llm "tool_call missing function") in
  let? args := parse_arguments "tool_call" f in
  let? c := make_tool_call (str_field tc "id") (str_field f "name") args in
  Ok (calls ++ [c]).

Definition parse_openai (v : Value) : result AgentError LlmResponse :=
  let? choice := ok_or (field "choices" v ?> as_array ?> head) (Llm "response missing choices") in
  let? msg := ok_or (field "message" choice) (Llm "missing message") in
  let reasoning := match str_field msg "reasoning_content" with EmptyString => str_field msg "reasoning" | rc => rc end in
  let? tool_calls := fold_res parse_openai_call [] (items "tool_calls" msg) in
  Ok (mkLlmResponse (str_field msg "content") tool_calls (llm_map_stop (field "finish_reason" choice ≫= as_str)) (openai_chat_input_tokens v)
        (sum_usage v ["completion_tokens"]) reasoning).
End answers.

(** ** Requests *)

Definition MAX_LLM_RESPONSE_BYTES : N := 16777216.
Definition MAX_LLM_ERROR_BODY_BYTES : N := 4096.
Definition MESH_VIRTUAL_MODEL_ID : string := "mesh".
Definition MESH_AUTO_MODEL_ID : string := "auto".
(** nanoseconds *)
Definition MESH_AUTO_CATALOG_TTL : N := 5000000000.
Definition MESH_AUTO_COOLDOWN : N := 30000000000.
Definition MESH_AUTO_ENABLE_OBSERVATIONS : N := 2.
Definition MESH_MOA_UNAVAILABLE_MESSAGE : string := "MoA requires ≥2 models available in the mesh".
Definition MAX_RETRIES : nat := 3.
Definition BASE_BACKOFF_MS : N := 500.
Definition MAX_BACKOFF_MS : N := 8000.

Inductive MeshCatalogObservation := Available | Unavailable | Unknown.
Inductive DatabricksV2Route := OpenAiResponses | AnthropicMessages | MlflowChatCompletions.

Inductive PostError := PostAgent (e : AgentError) | MeshFallback (detail : string).

Definition into_agent (e : PostError) : AgentError := match e with PostAgent error => error | MeshFallback detail => Llm detail end.

(** [str::replace] of the suffix of a branch by nothing. *)
Fixpoint remove_main (fuel : nat) (s : string) : string :=
  match fuel with
  | O => s
  | S fuel =>
      match strip_prefix "@main" s with
      | Some rest => remove_main fuel rest
      | None => match s with EmptyString => EmptyString | String c r => String c (remove_main fuel r) end
      end
  end.

Definition mesh_catalog_supports_collective (catalog : Value) : option bool :=
  match field "data" catalog ≫= as_array with
  | Some models =>
      let ids := filter (fun id => id <> EmptyString) (trim <$> omap (fun m => field "id" m ≫= as_str) models) in
      let physical := filter (fun id => id <> MESH_VIRTUAL_MODEL_ID /\ id <> MESH_AUTO_MODEL_ID) ids in
      let physical_models : gset string := list_to_set ((fun id => remove_main (String.length id) id) <$> physical) in
      Some (existsb (String.eqb MESH_VIRTUAL_MODEL_ID) ids && (2 <=? size physical_models)%nat)
  | None => None
  end.

Definition looks_like_unstructured_tool_call (text : string) : bool :=
  existsb (starts_with (to_ascii_lowercase (trim_start text))) ["<|tool_call"; "<tool_call"; "[tool_call]"].

Definition is_responses_required_error (body : string) : bool :=
  let b := to_ascii_lowercase body in
  str_contains "/v1/responses" b || str_contains "responses api instead" b || str_contains "use the responses api" b.

Definition databricks_v2_route_for_model (model : string) : DatabricksV2Route :=
  let lower := to_ascii_lowercase model in
  if str_contains "gpt-5" lower || str_contains "gpt5" lower then OpenAiResponses
  else if str_contains "claude" lower then AnthropicMessages
  else MlflowChatCompletions.

Definition databricks_v2_path (route : DatabricksV2Route) : string :=
  match route with
  | OpenAiResponses => "/ai-gateway/openai/v1/responses"
  | AnthropicMessages => "/ai-gateway/anthropic/v1/messages"
  | MlflowChatCompletions => "/ai-gateway/mlflow/v1/chat/completions"
  end.

Definition is_retryable_transport_error (e : TransportError) : bool := te_timeout e || te_connect e || te_request e.

Definition status_is_success (status : N) : bool := (200 <=? status)%N && (status <? 300)%N.
Definition status_is_server_error (status : N) : bool := (500 <=? status)%N && (status <? 600)%N.

(** [read_error_body]: at most so many bytes. *)
Fixpoint read_error_chunks (buf : string) (chunks : list string) : string :=
  if (MAX_LLM_ERROR_BODY_BYTES <=? len buf)%N then buf
  else match chunks with
       | [] => buf
       | chunk :: chunks =>
           let take := N.min (len chunk) (MAX_LLM_ERROR_BODY_BYTES - len buf) in
           let buf := buf +:+ str_take (N.to_nat take) chunk in
           if (take <? len chunk)%N then buf else read_error_chunks buf chunks
       end.

Inductive BodyRead := BodyWhole (buf : string) | BodyTooLarge | BodyBroken (e : string).

Fixpoint read_body_chunks (buf : string) (chunks : list string) (broken : option string) : BodyRead :=
  match chunks with
  | [] => match broken with Some e => BodyBroken e | None => BodyWhole buf end
  | chunk :: chunks =>
      if (MAX_LLM_RESPONSE_BYTES <? len buf + len chunk)%N then BodyTooLarge else read_body_chunks (buf +:+ chunk) chunks broken
  end.

Section llm.
Context `{JL : JsonLib, LL : LlmLib, AW : AgentWorld}.

Definition error_pointer (key body : string) : option string :=
  match json_parse body with Ok v => field "error" v ?> field key ?> as_str | Err _ => None end.

Definition is_mesh_moa_unavailable_body (body : string) : bool :=
  bool_decide (error_pointer "message" body = Some MESH_MOA_UNAVAILABLE_MESSAGE).

Definition is_mesh_moa_failure_body (body : string) : bool := bool_decide (error_pointer "type" body = Some "moa_failure").

Definition terminal_llm_error (elapsed : N) (attempts : N) (detail : string) : AgentError :=
  Llm (detail +:+ " (cumulative " +:+ duration_debug elapsed +:+ ", " +:+ u64_to_string attempts +:+ " attempt"
       +:+ (if (attempts =? 1)%N then EmptyString else "s") +:+ ")").

Definition read_error_body (r : HttpResponse) : M string :=
  let! _ := wait (fun w => (tt, w)) in ret (utf8_lossy (read_error_chunks EmptyString (http_chunks r))).

Definition backoff_delay (attempt : N) (r : option N) : N :=
  let base := N.min (u64_saturating_mul BASE_BACKOFF_MS (2 ^ attempt)) MAX_BACKOFF_MS in
  let jitter_range := (base / 2)%N in
  match r with
  | Some r => if (0 <? jitter_range)%N then (base - jitter_range + r mod jitter_range)%N else base
  | None => base
  end.

Definition backoff_with_jitter (attempt : N) : M unit :=
  let! r := call random in
  let! _ := record (Slept (backoff_delay attempt r)) in
  wait (fun w => (tt, w)).

Definition elapsed_since (start : N) : M N := let! t := call now in ret (t - start)%N.

(** The end of an attempt that is not repeated. *)
Definition exhausted {A} (start attempt : N) (detail : string) : M (result PostError A) :=
  let! elapsed := elapsed_since start in ret (Err (PostAgent (terminal_llm_error elapsed (attempt + 1) detail))).

Definition read_answer (start attempt : N) (r : HttpResponse) : M (result PostError Value) :=
  let status := http_status r in
  if (status =? 404)%N then let! text := read_error_body r in ret (Err (PostAgent (LlmModelNotFound (status_text status +:+ ": " +:+ text))))
  else if negb (status_is_success status) then let! text := read_error_body r in ret (Err (PostAgent (Llm (status_text status +:+ ": " +:+ text))))
  else if match http_content_length r with Some n => (MAX_LLM_RESPONSE_BYTES <? n)%N | None => false end then
    ret (Err (PostAgent (Llm ("response too large: " +:+ u64_to_string (default 0%N (http_content_length r)) +:+ " > "
                              +:+ u64_to_string MAX_LLM_RESPONSE_BYTES))))
  else
    let! _ := wait (fun w => (tt, w)) in
    match read_body_chunks EmptyString (http_chunks r) (http_broken r) with
    | BodyTooLarge => ret (Err (PostAgent (Llm ("response exceeded " +:+ u64_to_string MAX_LLM_RESPONSE_BYTES +:+ " bytes"))))
    | BodyBroken e => exhausted start attempt ("body read: " +:+ e)
    | BodyWhole buf => ret (map_err (fun e => PostAgent (Llm ("json: " +:+ e))) (json_parse buf))
    end.

(** The attempts; [retries] are left after this one. *)
Fixpoint post_attempts (url : string) (headers : list (string * string)) (body : Value) (detect_mesh_fallback : bool) (start attempt : N)
    (retries : nat) : M (result PostError Value) :=
  let! _ := record (Posted url headers body) in
  let! answer := wait (http_post url headers (json_text body)) in
  match answer with
  | Err e =>
      match retries with
      | S retries' =>
          if is_retryable_transport_error e then
            let! _ := backoff_with_jitter attempt in
            post_attempts url headers body detect_mesh_fallback start (attempt + 1) retries'
          else exhausted start attempt ("transport: " +:+ te_text e)
      | O => exhausted start attempt ("transport: " +:+ te_text e)
      end
  | Ok r =>
      let status := http_status r in
      if (status =? 401)%N || (status =? 403)%N then let! text := read_error_body r in ret (Err (PostAgent (LlmAuth text)))
      else if status_is_server_error status || (status =? 429)%N || (status =? 499)%N then
        let! text := read_error_body r in
        if detect_mesh_fallback && ((status =? 503)%N && is_mesh_moa_unavailable_body text
                                    || status_is_server_error status && is_mesh_moa_failure_body text)
        then ret (Err (MeshFallback (status_text status +:+ ": " +:+ text)))
        else match retries with
             | S retries' =>
                 let! _ := backoff_with_jitter attempt in
                 post_attempts url headers body detect_mesh_fallback start (attempt + 1) retries'
             | O => exhausted start attempt ("exhausted retries: " +:+ status_text status +:+ ": " +:+ text)
             end
      else read_answer start attempt r
  end.

Definition post (url : string) (headers : list (string * string)) (body : Value) (detect_mesh_fallback : bool) : M (result PostError Value) :=
  let! start := call now in
  post_attempts url (("content-type", "application/json") :: headers) body detect_mesh_fallback start 0 (MAX_RETRIES - 1).

Definition post_anthropic (cfg : Config) (body : Value) : M (result AgentError Value) :=
  let! r := post (trim_end_matches "/" (base_url cfg) +:+ "/v1/messages")
              [("x-api-key", api_key cfg); ("anthropic-version", anthropic_api_version cfg)] body false in
  ret (map_err into_agent r).

Definition bearer_auth (token : string) : list (string * string) := [("authorization", "Bearer " +:+ token)].

Definition post_openai (cfg : Config) (path : string) (body : Value) (effective_model : string) : M (result PostError Value) :=
  let base := trim_end_matches "/" (base_url cfg) in
  let '(url, body) :=
    match provider cfg with
    | Databricks => (base +:+ "/serving-endpoints/" +:+ effective_model +:+ "/invocations", strip_model body)
    | _ => (base +:+ path, body)
    end in
  let detect := String.eqb effective_model MESH_VIRTUAL_MODEL_ID in
  let! token := wait bearer in
  match token with
  | Err e => ret (Err (PostAgent e))
  | Ok token =>
      let! first := post url (bearer_auth token) body detect in
      match first with
      | Err (PostAgent (LlmAuth _)) =>
          let! token := wait (refresh_now token) in
          match token with
          | Err e => ret (Err (PostAgent e))
          | Ok token => post url (bearer_auth token) body detect
          end
      | result => ret result
      end
  end.

Definition parsed {A} (parse : Value -> result AgentError A) (r : result PostError Value) : result PostError A :=
  let? v := r in map_err PostAgent (parse v).

(** [auto_upgraded.load]. *)
Definition load_upgraded : M bool := fun p =>
  let '(b, w) := others_upgraded (auto_upgraded p) (world p) in (Some b, put_upgraded b (put_world w p)).

Definition try_upgrade (err : AgentError) : M bool :=
  match err with
  | Llm body => if is_responses_required_error body then (fun p => (Some true, put_upgraded true p)) else ret false
  | _ => ret false
  end.

(** What a request builds: its body and the parser of the answer. *)
Definition Build : Type := Value * (Value -> result AgentError LlmResponse).

Definition openai_request_for_model (cfg : Config) (request_model : string) (build : bool -> string -> Build) : M (result PostError LlmResponse) :=
  let responses :=
    let '(body, parse) := build true request_model in
    let! r := post_openai cfg "/responses" body request_model in ret (parsed parse r) in
  let! upgraded := load_upgraded in
  if upgraded || match openai_api cfg with Responses => true | Auto => is_openai_host (base_url cfg) | Chat => false end then responses
  else
    let '(body, parse) := build false request_model in
    let! r := post_openai cfg "/chat/completions" body request_model in
    match r, openai_api cfg with
    | Err (PostAgent error), Auto => let! upgrade := try_upgrade error in if upgrade then responses else ret (Err (PostAgent error))
    | _, _ => ret (parsed parse r)
    end.

Definition databricks_v2_request (cfg : Config) (effective_model : string) (build : DatabricksV2Route -> Build) : M (result AgentError LlmResponse) :=
  let route := databricks_v2_route_for_model effective_model in
  let '(body, parse) := build route in
  let! r := post_openai cfg (databricks_v2_path route) body effective_model in
  ret (let? v := map_err into_agent r in parse v).

(** *** The models [auto] and [mesh] *)

(** [mesh_auto_state.lock()]. *)
Definition store_mesh (m : MeshAutoState) : M unit := fun p => (Some tt, put_mesh m p).

Definition lock_mesh : M MeshAutoState :=
  let! m := (fun p => wait (others_mesh (mesh_auto_state p)) p) in
  let! _ := store_mesh m in ret m.

Definition cool_down_collective : M unit :=
  let! t := call now in
  let! _ := lock_mesh in
  store_mesh (mkMesh (Some t) 0 false (Some (t + MESH_AUTO_COOLDOWN)%N)).

Definition observe_mesh_virtual_model (cfg : Config) : M MeshCatalogObservation :=
  let url := trim_end_matches "/" (base_url cfg) +:+ "/models" in
  let! token := wait bearer in
  match token with
  | Err _ => ret Unknown
  | Ok token =>
      let! _ := record (Fetched url) in
      let! answer := wait (http_get url (bearer_auth token)) in
      match answer with
      | Err _ => ret Unknown
      | Ok r =>
          if negb (status_is_success (http_status r)) then ret Unknown
          else
            let! _ := wait (fun w => (tt, w)) in
            match http_broken r, json_parse (fold_left String.append (http_chunks r) EmptyString) with
               | None, Ok catalog =>
                   ret (match mesh_catalog_supports_collective catalog with Some true => Available | Some false => Unavailable | None => Unknown end)
               | _, _ => ret Unknown
               end
      end
  end.

Definition mesh_model (enabled : bool) : string := if enabled then MESH_VIRTUAL_MODEL_ID else MESH_AUTO_MODEL_ID.

(** The state after a catalog check at [t]. *)
Definition observed (o : MeshCatalogObservation) (t : N) (m : MeshAutoState) : MeshAutoState :=
  match o with
  | Available =>
      let n := N.min (consecutive_available m + 1) 255 in
      mkMesh (Some t) n (if (MESH_AUTO_ENABLE_OBSERVATIONS <=? n)%N then true else collective_enabled m) (cooldown_until m)
  | Unavailable => mkMesh (Some t) 0 false (if collective_enabled m then Some (t + MESH_AUTO_COOLDOWN)%N else cooldown_until m)
  | Unknown => mkMesh (Some t) (consecutive_available m) (collective_enabled m) (cooldown_until m)
  end.

Definition resolve_openai_model (cfg : Config) (effective_model : string) : M string :=
  match provider cfg with
  | OpenAi =>
      if negb (prefer_mesh_for_auto cfg) || negb (String.eqb effective_model MESH_AUTO_MODEL_ID) then ret effective_model
      else
        let! m := lock_mesh in
        let! t := call now in
        if match cooldown_until m with Some u => (t <? u)%N | None => false end then ret MESH_AUTO_MODEL_ID
        else
          let m := mkMesh (last_checked m) (consecutive_available m) (collective_enabled m) None in
          let! _ := store_mesh m in
          let! t := call now in
          if match last_checked m with Some checked_at => (t - checked_at <? MESH_AUTO_CATALOG_TTL)%N | None => false end
          then ret (mesh_model (collective_enabled m))
          else
            let! observation := observe_mesh_virtual_model cfg in
            let! checked_at := call now in
            let m := observed observation checked_at m in
            let! _ := store_mesh m in
            ret (mesh_model (collective_enabled m))
  | _ => ret effective_model
  end.

Definition openai_request (cfg : Config) (effective_model : string) (tools_supplied : bool) (build : bool -> string -> Build) :
    M (result AgentError LlmResponse) :=
  let! request_model := resolve_openai_model cfg effective_model in
  let adaptive_mesh := String.eqb effective_model MESH_AUTO_MODEL_ID && String.eqb request_model MESH_VIRTUAL_MODEL_ID in
  let again :=
    let! _ := cool_down_collective in
    let! r := openai_request_for_model cfg MESH_AUTO_MODEL_ID build in ret (map_err into_agent r) in
  let! first := openai_request_for_model cfg request_model build in
  match first with
  | Err (MeshFallback detail) => if adaptive_mesh then again else ret (Err (into_agent (MeshFallback detail)))
  | Ok response =>
      if adaptive_mesh && tools_supplied && match resp_tool_calls response with [] => true | _ => false end
         && looks_like_unstructured_tool_call (resp_text response)
      then again else ret (Ok response)
  | Err error => ret (Err (into_agent error))
  end.

(** *** Completion and summary *)

Definition stamp_model (effective_model : string) (e : AgentError) : AgentError :=
  match e with
  | Llm s => Llm ("(" +:+ effective_model +:+ ") " +:+ s)
  | LlmModelNotFound s => LlmModelNotFound ("(" +:+ effective_model +:+ ") " +:+ s)
  | other => other
  end.

Definition complete (cfg : Config) (system_prompt : string) (history : list HistoryItem) (tools : list ToolDef) (effective_model : string) :
    M (result AgentError LlmResponse) :=
  let effort := thinking_effort cfg in
  let openai_effort := fun model => effort ≫= fun ef => normalize_effort_for_openai_route ef model in
  match provider cfg with
  | Anthropic =>
      let! r := post_anthropic cfg (anthropic_body cfg system_prompt history tools effective_model effort) in
      match r with
      | Err e => ret (Err e)
      | Ok v => ret (map_err (stamp_model effective_model) (parse_anthropic v))
      end
  | OpenAi | Databricks =>
      let! r := openai_request cfg effective_model (match tools with [] => false | _ => true end) (fun use_responses request_model =>
        if use_responses then (responses_body cfg system_prompt history tools request_model (openai_effort request_model), parse_responses)
        else (openai_body cfg system_prompt history tools request_model (openai_effort request_model), parse_openai)) in
      ret (map_err (stamp_model effective_model) r)
  | DatabricksV2 =>
      let! r := databricks_v2_request cfg effective_model (fun route =>
        match route with
        | OpenAiResponses => (responses_body cfg system_prompt history tools effective_model (openai_effort effective_model), parse_responses)
        | AnthropicMessages =>
            (anthropic_body cfg system_prompt history tools effective_model (effort ≫= normalize_effort_for_anthropic_route), parse_anthropic)
        | MlflowChatCompletions => (openai_body cfg system_prompt history tools effective_model (openai_effort effective_model), parse_openai)
        end) in
      ret (map_err (stamp_model effective_model) r)
  end.

Definition anthropic_summary_body (model system_prompt user_prompt : string) (max_tokens : N) : Value :=
  VObject [("model", VString model); ("max_tokens", VNumber (PosInt max_tokens)); ("system", VString system_prompt);
           ("messages", VArray [role "user" (VArray [text_block "text" user_prompt])])].

Definition responses_summary_body (model system_prompt user_prompt : string) (max_tokens : N) : Value :=
  VObject [("model", VString model); ("max_output_tokens", VNumber (PosInt max_tokens)); ("instructions", VString system_prompt);
           ("input", VString user_prompt)].

Definition openai_summary_body (model system_prompt user_prompt : string) (max_tokens : N) : Value :=
  VObject [("model", VString model); ("stream", VBool false); ("max_completion_tokens", VNumber (PosInt max_tokens));
           ("messages", VArray [role "system" (VString system_prompt); role "user" (VString user_prompt)])].

Definition summarize (cfg : Config) (system_prompt user_prompt : string) (max_tokens : N) (effective_model : string) : M (result AgentError string) :=
  let text := fun r : result AgentError LlmResponse => let? response := r in Ok (resp_text response) in
  match provider cfg with
  | Anthropic =>
      let! r := post_anthropic cfg (anthropic_summary_body effective_model system_prompt user_prompt max_tokens) in
      ret (text (let? v := r in parse_anthropic v))
  | OpenAi | Databricks =>
      let! r := openai_request cfg effective_model false (fun use_responses request_model =>
        if use_responses then (responses_summary_body request_model system_prompt user_prompt max_tokens, parse_responses)
        else (openai_summary_body request_model system_prompt user_prompt max_tokens, parse_openai)) in
      ret (text r)
  | DatabricksV2 =>
      let! r := databricks_v2_request cfg effective_model (fun route =>
        match route with
        | OpenAiResponses => (responses_summary_body effective_model system_prompt user_prompt max_tokens, parse_responses)
        | AnthropicMessages => (anthropic_summary_body effective_model system_prompt user_prompt max_tokens, parse_anthropic)
        | MlflowChatCompletions => (openai_summary_body effective_model system_prompt user_prompt max_tokens, parse_openai)
        end) in
      ret (text r)
  end.
End llm.
