(* ===== verification/AgentTurn.v ===== *)
(** * A turn of the coding agent

    [buzz-agent/src/agent.rs] and [handoff.rs]: the loop that asks the model,
    runs the tools it calls and asks again, with steering, cancellation, stop
    hooks, and the handoff to a fresh context before the window is full.

    The tool servers are the class [ToolBox].  Tool calls run in parallel: the
    tasks of a round take their steps in the order the outside picks. *)

From S2P Require Import Prelude Text Json AgentConfig AgentTypes AgentLlm.

(** ** The session's tools *)

Record ResultBudget := mkBudget { budget_total : N; budget_text : N }.

(** [McpRegistry] and the built-in tool, as a turn uses them. *)
Class ToolBox `{AW : AgentWorld} := {
  tb_tools : World -> list ToolDef;
  tb_has : string -> bool;
  tb_is_hook : string -> bool;
  tb_server_of : string -> option string;
  (** [None] when the time is over first; the flag is the cancel channel *)
  tb_call : string -> string -> Value -> ResultBudget -> bool -> World -> option (result AgentError ToolResult) * World;
  tb_kill_server : string -> string -> World -> World;
  tb_call_hooks : string -> World -> list (string * string) * World;
  (** [builtin::call_load_skill] on the skills of the session *)
  tb_load_skill : Value -> World -> ToolResult * World;
  (** what [steer.try_recv] gives until it is empty *)
  steers : World -> list (list ContentBlock) * World;
  (** ticks of the keepalive interval during a completion *)
  keepalives : World -> nat * World;
  (** which of the steps that are possible comes next *)
  schedule : nat -> World -> nat * World;
}.

(** What a turn relies on: a result carries the id it was asked with. *)
Class ToolBoxOk `{TB : ToolBox} : Prop :=
  tb_call_id q id args budget cancel w r w' : tb_call q id args budget cancel w = (Some (Ok r), w') -> result_id r = id.

(** ** Prompts *)

Fixpoint block_texts (prompt : list ContentBlock) : result AgentError (list string) :=
  match prompt with
  | [] => Ok []
  | block :: prompt =>
      let? part :=
        match block with
        | BText text => Ok text
        | BResourceLink uri => Ok ("[resource: " +:+ uri +:+ "]")
        | BUnsupported => Err (InvalidParams "prompt: unsupported content block (only text and resource_link are advertised)")
        end in
      let? parts := block_texts prompt in
      Ok (part :: parts)
  end.

Definition prompt_to_text (prompt : list ContentBlock) : result AgentError string := let? parts := block_texts prompt in Ok (join_str nl parts).

(** ** History *)

Definition history_bytes `{JL : JsonLib} (size : HistoryItem -> N) (history : list HistoryItem) : N := sum_N (size <$> history).

Definition is_user (h : HistoryItem) : bool := match h with User _ => true | _ => false end.

(** The items before the next user turn, and the rest. *)
Fixpoint until_user (history : list HistoryItem) : list HistoryItem * list HistoryItem :=
  match history with
  | [] => ([], [])
  | h :: rest => if is_user h then ([], history) else let '(a, b) := until_user rest in (h :: a, b)
  end.

Section history.
Context `{JL : JsonLib}.

(** The loop of [truncate_history]; each round drops at least one item. *)
Fixpoint truncate_loop (fuel : nat) (history : list HistoryItem) (total max_bytes : N) : list HistoryItem :=
  match fuel with
  | O => history
  | S fuel =>
      if (total <=? max_bytes)%N then history
      else match history with
           | [] => history
           | h :: rest =>
               let '(dropped, kept) := until_user rest in
               match kept with
               | [] => history
               | _ => truncate_loop fuel kept (total - history_bytes estimated_bytes (h :: dropped)) max_bytes
               end
           end
  end.

Definition truncate_history (history : list HistoryItem) (max_bytes : N) : list HistoryItem :=
  truncate_loop (length history) history (history_bytes estimated_bytes history) max_bytes.

Definition format_hook_output_body (hook server text : string) : string :=
  json_text (VObject [("hook", VString hook); ("server", VString server); ("text", VString text)]).

Definition synthetic_hook_id (hook server : string) (ordinal : N) : string :=
  "buzz_hook_" +:+ hook +:+ "_" +:+ server +:+ "_" +:+ u64_to_string ordinal.

(** The pair of a hook's output; [ordinal] is the process-wide counter. *)
Definition hook_pair (hook : string) (ordinal : N) (output : string * string) : list HistoryItem :=
  let '(server, text) := output in
  let id := synthetic_hook_id hook server ordinal in
  [Assistant EmptyString [mkCall id (server +:+ "__" +:+ hook) (VObject [])];
   ToolAnswer (mkToolResult id [TText (format_hook_output_body hook server text)] false)].

Fixpoint push_hook_outputs_as_tool_results (hook : string) (nonce : N) (outputs : list (string * string)) (history : list HistoryItem) :
    list HistoryItem * N :=
  match outputs with
  | [] => (history, nonce)
  | output :: outputs => push_hook_outputs_as_tool_results hook (u64_wrapping_add nonce 1) outputs (history ++ hook_pair hook nonce output)
  end.
End history.

Definition synthetic_tool_result (call : ToolCall) (msg : string) : ToolResult := mkToolResult (call_id call) [TText msg] true.

Inductive InvokeOutcome := Done (r : ToolResult) | Failed (msg : string).

Definition outcome_to_result (call : ToolCall) (outcome : InvokeOutcome) : ToolResult :=
  match outcome with Done r => r | Failed m => synthetic_tool_result call m end.

Definition ERROR_REFLECTION_SUFFIX : string :=
  nl +:+ nl +:+ "[Reflect] Before retrying, identify the cause and change your approach.".

Definition appended_result (call : ToolCall) (result : option ToolResult) : HistoryItem :=
  let r := default (mkToolResult (call_id call) [TText "internal error: missing result"] true) result in
  ToolAnswer (if result_is_error r then mkToolResult (result_id r) (result_content r ++ [TText ERROR_REFLECTION_SUFFIX]) true else r).

Definition append_results (calls : list ToolCall) (results : list (option ToolResult)) (history : list HistoryItem) : list HistoryItem :=
  history ++ zip_with appended_result calls results.

Definition map_stop (p : ProviderStop) : StopReason :=
  match p with PEndTurn | PToolUse | POther => EndTurn | PMaxTokens => MaxTokens | PRefusal => Refusal end.

(** ** Handoff thresholds *)

Definition CONSERVATIVE_BYTES_PER_TOKEN : N := 1.

Definition handoff_prompt_budget_bytes (max_context_tokens max_output_tokens fixed_prompt_bytes : N) : N :=
  (u64_saturating_mul (max_context_tokens - max_output_tokens) CONSERVATIVE_BYTES_PER_TOKEN - fixed_prompt_bytes)%N.

(** [bytes.div_ceil(1)]. *)
Definition estimate_tokens_from_bytes (bytes : N) : N := ((bytes + (CONSERVATIVE_BYTES_PER_TOKEN - 1)) / CONSERVATIVE_BYTES_PER_TOKEN)%N.

Definition token_threshold (max_context_tokens max_output_tokens : N) : N :=
  N.min (max_context_tokens / 10 * 9) (max_context_tokens - max_output_tokens).

Definition byte_fallback_threshold (max_context_tokens max_output_tokens max_history_bytes : N) : N :=
  N.min (u64_saturating_mul (token_threshold max_context_tokens max_output_tokens) CONSERVATIVE_BYTES_PER_TOKEN) (max_history_bytes / 10 * 9).

Definition hook_outputs_text (outputs : list (string * string)) : string :=
  join_str (nl +:+ nl) ((fun x : string * string => "[" +:+ x.1 +:+ "]" +:+ nl +:+ x.2) <$> outputs).

Definition history_snippet (item : HistoryItem) : string :=
  match item with
  | User s => "[user] " +:+ s +:+ nl
  | Assistant text tool_calls => "[assistant] " +:+ text +:+ fold_left (fun acc c => acc +:+ " tool:" +:+ call_name c) tool_calls EmptyString +:+ nl
  | ToolAnswer r => (if result_is_error r then "[tool_err] " else "[tool] ") +:+ result_text r +:+ nl
  end.

(** The variables of the loop over the history, newest first: the snippets kept,
    their bytes, and how many items were dropped. *)
Definition add_snippet (prompt_budget : N) (acc : list string * N * nat) (item : HistoryItem) : list string * N * nat :=
  let '(snippets, snippets_bytes, dropped) := acc in
  let snippet := history_snippet item in
  if (prompt_budget <? snippets_bytes + len snippet)%N then
    match snippets with
    | [] => ([clamp_bytes snippet prompt_budget], prompt_budget, S dropped)
    | _ => (snippets, snippets_bytes, S dropped)
    end
  else (snippets ++ [snippet], (snippets_bytes + len snippet)%N, dropped).

Definition HANDOFF_SYSTEM_PROMPT : string :=
  "You are generating a context handoff summary for the next turn of an autonomous agent. Be concise but thorough. Cover: what the original task was, what you accomplished, key decisions made, what remains, and one concrete next step. Output plain text only — no tool calls, no JSON. Stay under 8192 tokens.".

Definition handoff_tail : string :=
  nl +:+ "# Instructions" +:+ nl +:+ "Produce a context handoff summary covering: (1) original task, (2) what was accomplished, (3) key decisions, (4) what remains, (5) one concrete next step. Be concise but thorough. Plain text." +:+ nl.

Definition handoff_history_header : string := nl +:+ "# Session History (oldest first)" +:+ nl.

Definition handoff_head (handoff_count : N) (original_task : option string) (all_tools : list ToolDef) : string :=
  let total := length all_tools in
  let shown := Nat.min total HANDOFF_MAX_TOOL_NAMES in
  "[Internal handoff #" +:+ u64_to_string (handoff_count + 1) +:+ " — context reset]" +:+ nl +:+ nl +:+ "# Original Task" +:+ nl
  +:+ clamp_bytes (default "(unknown)" original_task) HANDOFF_ORIGINAL_TASK_MAX_BYTES +:+ nl +:+ nl +:+ "# Available Tools" +:+ nl
  +:+ (if (total =? 0)%nat then "(none)" +:+ nl
       else join_str ", " (tool_name <$> take shown all_tools)
            +:+ (if (shown <? total)%nat then ", … (+" +:+ u64_to_string (N.of_nat (total - shown)) +:+ " more)" else EmptyString) +:+ nl).

Definition build_handoff_prompt (cfg : Config) (handoff_count : N) (original_task : option string) (all_tools : list ToolDef)
    (history : list HistoryItem) : string :=
  let head := handoff_head handoff_count original_task all_tools in
  let prompt_budget := handoff_prompt_budget_bytes (max_context_tokens cfg) HANDOFF_MAX_OUTPUT_TOKENS
    (len head + len handoff_history_header + len handoff_tail) in
  let '(snippets, _, dropped) := fold_left (add_snippet prompt_budget) (rev history) ([], 0%N, 0) in
  head +:+ handoff_history_header
  +:+ (if (0 <? dropped)%nat then "(… " +:+ u64_to_string (N.of_nat dropped) +:+ " older items omitted)" +:+ nl else EmptyString)
  +:+ fold_left String.append (rev snippets) EmptyString +:+ handoff_tail.

(** ** The context of a run *)

Record RunCtx := mkRunCtx {
  history : list HistoryItem;
  original_task : option string;
  handoff_count : N;
  last_request_input_tokens : option N;
  last_request_history_bytes : option N;
  turn_input_tokens : option N;
  turn_output_tokens : option N;
  (** the counter of [unique_nonce] *)
  nonce : N;
}.

Definition put_history (h : list HistoryItem) (c : RunCtx) : RunCtx :=
  mkRunCtx h (original_task c) (handoff_count c) (last_request_input_tokens c) (last_request_history_bytes c) (turn_input_tokens c)
    (turn_output_tokens c) (nonce c).
Definition put_usage (tokens bytes : option N) (c : RunCtx) : RunCtx :=
  mkRunCtx (history c) (original_task c) (handoff_count c) tokens bytes (turn_input_tokens c) (turn_output_tokens c) (nonce c).
Definition put_turn_tokens (input output : option N) (c : RunCtx) : RunCtx :=
  mkRunCtx (history c) (original_task c) (handoff_count c) (last_request_input_tokens c) (last_request_history_bytes c) input output (nonce c).
Definition put_nonce (n : N) (c : RunCtx) : RunCtx :=
  mkRunCtx (history c) (original_task c) (handoff_count c) (last_request_input_tokens c) (last_request_history_bytes c) (turn_input_tokens c)
    (turn_output_tokens c) n.
Definition put_task (t : option string) (c : RunCtx) : RunCtx :=
  mkRunCtx (history c) t (handoff_count c) (last_request_input_tokens c) (last_request_history_bytes c) (turn_input_tokens c)
    (turn_output_tokens c) (nonce c).
Definition count_handoff (c : RunCtx) : RunCtx :=
  mkRunCtx (history c) (original_task c) (handoff_count c + 1) (last_request_input_tokens c) (last_request_history_bytes c) (turn_input_tokens c)
    (turn_output_tokens c) (nonce c).
Definition push_item (h : HistoryItem) (c : RunCtx) : RunCtx := put_history (history c ++ [h]) c.

(** What is the same during a run. *)
Record RunEnv := mkRunEnv { cfg : Config; effective_model : string; session_id : string; session_prompt : string; has_skills : bool }.

Section turn.
Context `{JL : JsonLib, LL : LlmLib, AW : AgentWorld, TB : !ToolBox}.
Variable env : RunEnv.

(** [*cancel.borrow()]: the session may have been cancelled since. *)
Definition look (p : Proc) : bool * Proc :=
  let '(raised, w) := cancel_raised (world p) in
  let c := cancelled p || raised in (c, put_cancelled c (put_world w p)).

(** A call to the outside that nothing interrupts. *)
Definition outside {A} (f : World -> A * World) (p : Proc) : A * Proc := let '(a, w) := f (world p) in (a, put_world w p).

(** [wire::send(session_update(..))]. *)
Definition emit (update : list (string * Value)) (p : Proc) : Proc := effect (Wire (session_update (session_id env) (VObject update))) p.

Definition pending_update (call : ToolCall) : list (string * Value) :=
  [("sessionUpdate", VString "tool_call"); ("toolCallId", VString (call_id call)); ("title", VString (call_name call)); ("kind", VString "other");
   ("status", VString "pending"); ("rawInput", call_arguments call)].
Definition in_progress_update (call : ToolCall) : list (string * Value) :=
  [("sessionUpdate", VString "tool_call_update"); ("toolCallId", VString (call_id call)); ("status", VString "in_progress")].
Definition completed_update (call : ToolCall) (r : ToolResult) : list (string * Value) :=
  [("sessionUpdate", VString "tool_call_update"); ("toolCallId", VString (call_id call)); ("status", VString "completed");
   ("content", VArray [VObject [("type", VString "content"); ("content", text_block "text" (result_text r))]]);
   ("rawOutput", VObject [("isError", VBool (result_is_error r))])].
Definition failed_update (call : ToolCall) (err : string) : list (string * Value) :=
  [("sessionUpdate", VString "tool_call_update"); ("toolCallId", VString (call_id call)); ("status", VString "failed");
   ("rawOutput", VObject [("error", VString err)])].
Definition chunk_update (kind text : string) : list (string * Value) :=
  [("sessionUpdate", VString kind); ("content", text_block "text" text)].

(** ** Tools in parallel *)

Inductive TaskState :=
| TWaiting
| TRunning
| TFinished (outcome : option InvokeOutcome)  (** [None]: the task panicked *)
| TJoined.

Inductive MainState := Joining | Draining | Over.

Record Round := mkRound {
  rd_tasks : list (nat * ToolCall * TaskState);
  rd_results : list (option ToolResult);
  rd_closed : bool;
  rd_main : MainState;
}.

(** The steps a round can take: of task [k] of the list, or of the loops that
    collect them. *)
Inductive RoundStep :=
| Acquire (k : nat)
| Refuse (k : nat)
| Return (k : nat)
| Panic (k : nat)
| Join (k : nat)
| ObserveCancel
| Deadline.

Definition is_running (t : nat * ToolCall * TaskState) : bool := match t.2 with TRunning => true | _ => false end.
Definition is_joined (t : nat * ToolCall * TaskState) : bool := match t.2 with TJoined => true | _ => false end.

Definition permits (r : Round) : bool :=
  (N.of_nat (length (List.filter is_running (rd_tasks r))) <? N.max (max_parallel_tools (cfg env)) 1)%N.

(** The steps of one task. *)
Definition task_steps (r : Round) (cancel : bool) (k : nat) (t : nat * ToolCall * TaskState) : list RoundStep :=
  match t.2 with
  | TWaiting => if rd_closed r then [Refuse k] else if permits r then [Acquire k] else []
  | TRunning => [Return k; Panic k]
  | TFinished _ => match rd_main r with Joining => if cancel then [] else [Join k] | Draining => [Join k] | Over => [] end
  | TJoined => []
  end.

(** The steps that are possible; none when the set of tasks is empty. *)
Definition enabled (r : Round) (cancel : bool) : list RoundStep :=
  match rd_main r with
  | Over => []
  | main =>
      if forallb is_joined (rd_tasks r) then []
      else concat (imap (task_steps r cancel) (rd_tasks r))
           ++ match main with Joining => if cancel then [ObserveCancel] else [] | _ => [Deadline] end
  end.

Definition set_task (k : nat) (s : TaskState) (r : Round) : Round :=
  mkRound (alter (fun t => (t.1, s)) k (rd_tasks r)) (rd_results r) (rd_closed r) (rd_main r).

(** The updates a task sends once its tool has returned. *)
Definition finish_task (k : nat) (call : ToolCall) (outcome : InvokeOutcome) (rp : Round * Proc) : Round * Proc :=
  let '(r, p) := rp in
  (set_task k (TFinished (Some outcome)) r,
   match outcome with Done result => emit (completed_update call result) p | Failed msg => emit (failed_update call msg) p end).

Definition timeout_text : string :=
  "tool: timeout after " +:+ u64_to_string (tool_timeout (cfg env) / 1000) +:+ "s. The command took too long. Try a faster approach.".

(** [invoke_tool_inner] from the call on. *)
Definition invoke (call : ToolCall) (p : Proc) : InvokeOutcome * Proc :=
  let budget := mkBudget MAX_TOOL_RESULT_BYTES (max_tool_result_text_bytes (cfg env)) in
  let '(answer, p) := outside (tb_call (call_name call) (call_id call) (call_arguments call) budget (cancelled p)) p in
  match answer with
  | Some (Ok result) => (Done result, p)
  | Some (Err AgentCancelled) => (Failed "cancelled", p)
  | Some (Err e) => (Failed (agent_error_text e), p)
  | None =>
      let '(cancel, p) := look p in
      if cancel then (Failed "cancelled", p)
      else
        let p := match tb_server_of (call_name call) with
                 | Some server => put_world (tb_kill_server server "tool timeout" (world p)) p
                 | None => p
                 end in
        (Failed timeout_text, p)
  end.

Definition round_step (s : RoundStep) (r : Round) (p : Proc) : Round * Proc :=
  match s with
  | Acquire k =>
      match rd_tasks r !! k with
      | Some (_, call, _) =>
          let p := emit (in_progress_update call) p in
          let '(cancel, p) := look p in
          if cancel then finish_task k call (Failed "cancelled") (r, p) else (set_task k TRunning r, p)
      | None => (r, p)
      end
  | Refuse k =>
      match rd_tasks r !! k with
      | Some (_, call, _) => finish_task k call (Failed "cancelled") (r, p)
      | None => (r, p)
      end
  | Return k =>
      match rd_tasks r !! k with
      | Some (_, call, _) => let '(outcome, p) := invoke call p in finish_task k call outcome (r, p)
      | None => (r, p)
      end
  | Panic k => (set_task k (TFinished None) r, p)
  | Join k =>
      match rd_tasks r !! k with
      | Some (i, call, TFinished outcome) =>
          let r := set_task k TJoined r in
          (match outcome, rd_main r, rd_results r !! i with
           | Some o, Joining, _ | Some o, Draining, Some None =>
               mkRound (rd_tasks r) (<[i := Some (outcome_to_result call o)]> (rd_results r)) (rd_closed r) (rd_main r)
           | _, _, _ => r
           end, p)
      | _ => (r, p)
      end
  | ObserveCancel => (mkRound (rd_tasks r) (rd_results r) true Draining, p)
  | Deadline => (mkRound (rd_tasks r) (rd_results r) (rd_closed r) Over, p)
  end.

Fixpoint round_loop (fuel : nat) (r : Round) (p : Proc) : Round * Proc :=
  match fuel with
  | O => (r, p)
  | S fuel =>
      let '(cancel, p) := look p in
      match enabled r cancel with
      | [] => (r, p)
      | (first :: _) as steps =>
          let '(k, p) := outside (schedule (length steps)) p in
          let '(r, p) := round_step (nth (k mod length steps) steps first) r p in
          round_loop fuel r p
      end
  end.

(** Every task takes at most three steps, the loops two. *)
Definition round_fuel (runnable : nat) : nat := 3 * runnable + 3.

Definition fill_cancelled (acc : list (option ToolResult) * Proc) (t : nat * ToolCall) : list (option ToolResult) * Proc :=
  let '(results, p) := acc in
  match results !! t.1 with
  | Some None => (<[t.1 := Some (synthetic_tool_result t.2 "cancelled")]> results, emit (failed_update t.2 "cancelled") p)
  | _ => (results, p)
  end.

Definition execute_parallel (runnable : list (nat * ToolCall)) (results : list (option ToolResult)) (p : Proc) : list (option ToolResult) * Proc :=
  let r := mkRound ((fun t => (t, TWaiting)) <$> runnable) results false Joining in
  let '(r, p) := round_loop (round_fuel (length runnable)) r p in
  fold_left fill_cancelled runnable (rd_results r, p).

(** ** Calls *)

Definition LOAD_SKILL_TOOL : string := "load_skill".

(** Cancellation during preflight: the calls before [idx] were announced. *)
Definition cancel_slot (idx : nat) (acc : list (option ToolResult) * Proc) (t : nat * ToolCall) : list (option ToolResult) * Proc :=
  let '(results, p) := acc in
  match results !! t.1 with
  | Some None =>
      (<[t.1 := Some (synthetic_tool_result t.2 "cancelled")]> results,
       if (t.1 <? idx)%nat then emit (failed_update t.2 "cancelled") p else p)
  | _ => (results, p)
  end.

Fixpoint preflight (all rest : list (nat * ToolCall)) (results : list (option ToolResult)) (runnable : list (nat * ToolCall)) (p : Proc) :
    bool * list (option ToolResult) * list (nat * ToolCall) * Proc :=
  match rest with
  | [] => (false, results, runnable, p)
  | (idx, call) :: rest =>
      let '(cancel, p) := look p in
      if cancel then let '(results, p) := fold_left (cancel_slot idx) all (results, p) in (true, results, runnable, p)
      else
        let p := emit (pending_update call) p in
        if String.eqb (call_name call) LOAD_SKILL_TOOL then
          let p := emit (in_progress_update call) p in
          let '(loaded, p) := outside (tb_load_skill (call_arguments call)) p in
          let result := mkToolResult (call_id call) (result_content loaded) (result_is_error loaded) in
          preflight all rest (<[idx := Some result]> results) runnable (emit (completed_update call result) p)
        else if negb (tb_has (call_name call)) || tb_is_hook (call_name call) then
          let err := "unknown tool: " +:+ call_name call in
          preflight all rest (<[idx := Some (synthetic_tool_result call err)]> results) runnable (emit (failed_update call err) p)
        else preflight all rest results (runnable ++ [(idx, call)]) p
  end.

Definition execute_calls (calls : list ToolCall) (c : RunCtx) (p : Proc) : option StopReason * RunCtx * Proc :=
  let indexed := imap (fun i call => (i, call)) calls in
  let '(stopped, results, runnable, p) := preflight indexed indexed (replicate (length calls) None) [] p in
  if stopped then (Some Cancelled, put_history (append_results calls results (history c)) c, p)
  else
    let '(results, p) := execute_parallel runnable results p in
    let c := put_history (append_results calls results (history c)) c in
    let '(cancel, p) := look p in
    (if cancel then Some Cancelled else None, c, p).

(** ** Steering *)

Definition add_steer (c : RunCtx) (blocks : list ContentBlock) : RunCtx :=
  match prompt_to_text blocks with
  | Ok text => if Lines.trim_is_empty text then c else push_item (User text) c
  | Err _ => c
  end.

Definition drain_steers (c : RunCtx) (p : Proc) : RunCtx * Proc :=
  let '(queued, p) := outside steers p in (fold_left add_steer queued c, p).

(** ** Handoff *)

Definition pressure (c : RunCtx) : N := history_bytes context_pressure_bytes (history c).

Definition projected_handoff_input_tokens (c : RunCtx) : N :=
  match last_request_input_tokens c with
  | Some measured_tokens =>
      let grown := (pressure c - default 0 (last_request_history_bytes c))%N in
      u64_saturating_add measured_tokens (estimate_tokens_from_bytes grown)
  | None => estimate_tokens_from_bytes (pressure c)
  end.

Definition should_handoff (c : RunCtx) : bool :=
  let g := cfg env in
  match last_request_input_tokens c with
  | Some _ => (token_threshold (max_context_tokens g) (max_output_tokens g) <=? projected_handoff_input_tokens c)%N
  | None => (byte_fallback_threshold (max_context_tokens g) (max_output_tokens g) (max_history_bytes g) <? pressure c)%N
  end.

Inductive HandoffOutcome := Performed | Skipped | HandoffCancelled.

Definition last_user (history : list HistoryItem) : option string :=
  find_map (fun item => match item with User s => Some s | _ => None end) (rev history).

Definition handoff_text (summary : string) (post_compact : list (string * string)) : string :=
  "[Context Handoff]" +:+ nl +:+ summary
  +:+ match post_compact with
      | [] => EmptyString
      | _ => nl +:+ nl +:+ "[Post-compact hook output — untrusted]" +:+ nl +:+ hook_outputs_text post_compact
      end.

Definition maybe_handoff (c : RunCtx) (p : Proc) : HandoffOutcome * RunCtx * Proc :=
  if negb (should_handoff c) then (Skipped, c, p)
  else if (max_handoffs (cfg env) <=? handoff_count c)%N then (Skipped, c, p)
  else
    let prompt := build_handoff_prompt (cfg env) (handoff_count c) (original_task c) (tb_tools (world p)) (history c) in
    match summarize (cfg env) HANDOFF_SYSTEM_PROMPT prompt HANDOFF_MAX_OUTPUT_TOKENS (effective_model env) p with
    | (None, p) => (HandoffCancelled, c, p)
    | (Some (Err _), p) => (Skipped, c, p)
    | (Some (Ok summary), p) =>
        if Lines.trim_is_empty summary then (Skipped, c, p)
        else
          let current_prompt := last_user (history c) in
          let '(post_compact, p) := outside (tb_call_hooks "_PostCompact") p in
          let fresh := User (handoff_text summary post_compact) :: match current_prompt with Some s => [User s] | None => [] end in
          (Performed, count_handoff (put_history fresh c), p)
    end.

(** ** The loop *)

Inductive RunOutcome := Returned (r : result AgentError StopReason) | OutOfRounds.

(** Usage of a response; the history is the one just sent. *)
Definition record_usage (response : LlmResponse) (c : RunCtx) : RunCtx :=
  let c :=
    match resp_input_tokens response with
    | Some tokens =>
        put_turn_tokens (Some (u64_saturating_add (default 0%N (turn_input_tokens c)) tokens)) (turn_output_tokens c)
          (put_usage (Some tokens) (Some (pressure c)) c)
    | None => c
    end in
  match resp_output_tokens response with
  | Some out => put_turn_tokens (turn_input_tokens c) (Some (u64_saturating_add (default 0%N (turn_output_tokens c)) out)) c
  | None => c
  end.

Definition emit_chunks (response : LlmResponse) (p : Proc) : Proc :=
  let p := match resp_reasoning response with EmptyString => p | t => emit (chunk_update "agent_thought_chunk" t) p end in
  match resp_text response with EmptyString => p | t => emit (chunk_update "agent_message_chunk" t) p end.

Definition emit_keepalives (p : Proc) : Proc :=
  let '(n, p) := outside keepalives p in Nat.iter n (emit [("sessionUpdate", VString "keepalive")]) p.

(** What a round decides. *)
Inductive Next := Continue | Stop (r : result AgentError StopReason).

(** A response without tool calls: the [_Stop] hooks may object. *)
Definition on_final (response : LlmResponse) (stop_rejections : N) (c : RunCtx) (p : Proc) : Next * N * RunCtx * Proc :=
  if bool_decide (resp_stop response = PToolUse)
  then (Stop (Err (Llm "provider: stop=tool_use but zero tool_calls")), stop_rejections, c, p)
  else
    let c := push_item (Assistant (resp_text response) []) c in
    let stop := map_stop (resp_stop response) in
    if bool_decide (stop = EndTurn) then
      if (stop_max_rejections (cfg env) <=? stop_rejections)%N then (Stop (Ok stop), stop_rejections, c, p)
      else
        let '(objections, p) := outside (tb_call_hooks "_Stop") p in
        match objections with
        | [] => (Stop (Ok stop), stop_rejections, c, p)
        | _ =>
            let '(h, n) := push_hook_outputs_as_tool_results "_Stop" (nonce c) objections (history c) in
            (Continue, N.min (stop_rejections + 1) u32_max, put_nonce n (put_history h c), p)
        end
    else (Stop (Ok stop), stop_rejections, c, p).

Definition on_response (response : LlmResponse) (stop_rejections : N) (c : RunCtx) (p : Proc) : Next * N * RunCtx * Proc :=
  let c := record_usage response c in
  let p := emit_chunks response p in
  match resp_tool_calls response with
  | [] => on_final response stop_rejections c p
  | _ =>
      let calls := take MAX_TOOL_CALLS_PER_TURN (resp_tool_calls response) in
      let c := push_item (Assistant (resp_text response) calls) c in
      let '(stop, c, p) := execute_calls calls c p in
      (match stop with Some stop => Stop (Ok stop) | None => Continue end, stop_rejections, c, p)
  end.

Definition dq : string := String quote EmptyString.

Definition load_skill_def : ToolDef :=
  mkToolDef LOAD_SKILL_TOOL
    ("Load the full content of a skill by name. Call this before using a skill — the system prompt lists skill names and descriptions only; the full instructions are loaded on demand. To load a supporting file within a skill, use the form " +:+ dq +:+ "skill-name/relative/path" +:+ dq +:+ " (e.g. " +:+ dq +:+ "my-skill/references/foo.md" +:+ dq +:+ ").")
    (VObject [("type", VString "object");
              ("properties", VObject [("name", VObject [("type", VString "string");
                 ("description", VString ("The skill name as listed in the Available Skills section, or " +:+ dq +:+ "skill-name/relative/path" +:+ dq +:+ " to load a supporting file."))])]);
              ("required", VArray [VString "name"])]).

(** One turn of the loop, after the checks at its top. *)
Definition ask (stop_rejections : N) (c : RunCtx) (p : Proc) : Next * N * RunCtx * Proc :=
  let tools := tb_tools (world p) ++ (if has_skills env then [load_skill_def] else []) in
  match complete (cfg env) (session_prompt env) (history c) tools (effective_model env) p with
  | (None, p) => (Stop (Ok Cancelled), stop_rejections, c, emit_keepalives p)
  | (Some (Err e), p) => (Stop (Err e), stop_rejections, c, emit_keepalives p)
  | (Some (Ok response), p) => on_response response stop_rejections c (emit_keepalives p)
  end.

Fixpoint run_loop (fuel : nat) (round stop_rejections : N) (c : RunCtx) (p : Proc) : RunOutcome * RunCtx * Proc :=
  match fuel with
  | O => (OutOfRounds, c, p)
  | S fuel =>
      if (0 <? max_rounds (cfg env))%N && (max_rounds (cfg env) <=? round)%N then (Returned (Ok MaxTurnRequests), c, p)
      else
        let '(cancel, p) := look p in
        if cancel then (Returned (Ok Cancelled), c, p)
        else
          let '(c, p) := drain_steers c p in
          let '(outcome, c, p) := maybe_handoff c p in
          match outcome with
          | HandoffCancelled => (Returned (Ok Cancelled), c, p)
          | _ =>
              let c := match outcome with
                       | Performed => put_usage None None c
                       | _ => put_history (truncate_history (history c) (max_history_bytes (cfg env))) c
                       end in
              let '(next, stop_rejections, c, p) := ask stop_rejections c p in
              match next with
              | Stop r => (Returned r, c, p)
              | Continue => run_loop fuel (N.min (round + 1) u32_max) stop_rejections c p
              end
          end
  end.

Definition run (fuel : nat) (prompt : list ContentBlock) (c : RunCtx) (p : Proc) : RunOutcome * RunCtx * Proc :=
  match prompt_to_text prompt with
  | Err e => (Returned (Err e), c, p)
  | Ok user_text =>
      if (MAX_PROMPT_BYTES <? len user_text)%N
      then (Returned (Err (InvalidParams ("prompt: exceeds " +:+ u64_to_string MAX_PROMPT_BYTES +:+ " bytes"))), c, p)
      else
        let c := match original_task c with None => put_task (Some user_text) c | Some _ => c end in
        run_loop fuel 0 0 (put_turn_tokens None None (push_item (User user_text) c)) p
  end.
End turn.
