(* ===== verification/AgentTheory.v ===== *)
(** * The coding agent: histories, requests, settlement

    What a turn promises whatever the model, the tools and the client do: each
    tool call in a history is answered at once and in order, so that every
    request is one a provider accepts; a turn is bounded; a call announced to
    the client is settled; the text of a tool result keeps within its budget. *)

From S2P Require Import Prelude Text Json AgentConfig AgentTypes AgentLlm AgentTurn.

Create HintDb agent.

(** ** What requests do *)

Section requests.
Context `{JL : JsonLib, LL : LlmLib, AW : AgentWorld}.

Definition is_post (e : Effect) : bool := match e with Posted _ _ _ => true | _ => false end.

Definition posts (l : list Effect) : nat := length (List.filter is_post l).

Lemma posts_app l l' : posts (l ++ l') = posts l + posts l'.
Proof. unfold posts. by rewrite List.filter_app, length_app. Qed.

(** An effect of a request whose bodies satisfy [Q]. *)
Definition effect_ok (Q : Value -> Prop) (e : Effect) : Prop :=
  match e with Posted _ _ body => Q body | Wire _ => False | _ => True end.

(** [m] sends at most [n] requests, all with bodies in [Q]. *)
Definition sends (Q : Value -> Prop) (n : nat) {A} (m : M A) : Prop :=
  forall p o p', m p = (o, p') -> exists l, log p' = log p ++ l /\ Forall (effect_ok Q) l /\ posts l <= n.

Lemma sends_ret Q {A} (a : A) : sends Q 0 (ret a).
Proof. intros p o p' [= <- <-]. exists []. rewrite app_nil_r. split_and!; [done|constructor|done]. Qed.

Lemma sends_bind Q n1 n2 n {A B} (m : M A) (k : A -> M B) :
  sends Q n1 m -> (forall a, sends Q n2 (k a)) -> n1 + n2 <= n -> sends Q n (bind m k).
Proof.
  intros H1 H2 Hn p o p' E. unfold bind in E. destruct (m p) as [[a|] p1] eqn:E1.
  - destruct (H1 _ _ _ E1) as (l1 & Hl1 & Hf1 & Hp1). destruct (H2 a _ _ _ E) as (l2 & Hl2 & Hf2 & Hp2).
    exists (l1 ++ l2). rewrite Hl2, Hl1, app_assoc, posts_app. split_and!; [done|by apply Forall_app|lia].
  - injection E as <- <-. destruct (H1 _ _ _ E1) as (l1 & Hl1 & Hf1 & Hp1). exists l1. split_and!; [done..|lia].
Qed.

(** What comes first sends nothing. *)
Lemma sends_free Q n {A B} (m : M A) (k : A -> M B) : sends Q 0 m -> (forall a, sends Q n (k a)) -> sends Q n (bind m k).
Proof. intros H1 H2. by eapply sends_bind. Qed.

Lemma sends_le Q n n' {A} (m : M A) : n <= n' -> sends Q n m -> sends Q n' m.
Proof. intros Hn H p o p' E. destruct (H _ _ _ E) as (l & ? & ? & ?). exists l. split_and!; [done..|lia]. Qed.

Lemma sends_same Q {A} (m : M A) : (forall p, log (m p).2 = log p) -> sends Q 0 m.
Proof. intros H p o p' E. exists []. rewrite app_nil_r. specialize (H p). rewrite E in H. split_and!; [done|constructor|done]. Qed.

Lemma sends_wait Q {A} (f : World -> A * World) : sends Q 0 (wait f).
Proof. apply sends_same. intros p. unfold wait. repeat case_match; by simplify_eq/=. Qed.

Lemma sends_call Q {A} (f : World -> A * World) : sends Q 0 (call f).
Proof. apply sends_same. intros p. unfold call. by case_match. Qed.

Lemma sends_posted Q url headers body : Q body -> sends Q 1 (record (Posted url headers body)).
Proof. intros H p o p' [= <- <-]. exists [Posted url headers body]. split_and!; [done|by repeat constructor|done]. Qed.

Lemma sends_other Q e : is_post e = false -> effect_ok Q e -> sends Q 0 (record e).
Proof. intros He Hq p o p' [= <- <-]. exists [e]. split_and!; [done|by repeat constructor|]. unfold posts. cbn. by rewrite He. Qed.
End requests.

#[export] Hint Resolve sends_ret sends_wait sends_call : agent.

Section llm_requests.
Context `{JL : JsonLib, LL : LlmLib, AW : AgentWorld}.
Variable Q : Value -> Prop.

Lemma sends_none {A} n (m : M A) : sends Q 0 m -> sends Q n m.
Proof. apply sends_le. lia. Qed.

Lemma sends_read_error_body r : sends Q 0 (read_error_body r).
Proof. apply sends_free; auto with agent. Qed.

Lemma sends_backoff attempt : sends Q 0 (backoff_with_jitter attempt).
Proof. apply sends_free; [auto with agent|]. intros r. apply sends_free; [by apply sends_other|auto with agent]. Qed.

Lemma sends_exhausted {A} start attempt detail : sends Q 0 (exhausted (A := A) start attempt detail).
Proof. apply sends_free; [|auto with agent]. apply sends_free; auto with agent. Qed.

Lemma sends_error {A} r (k : string -> A) : sends Q 0 (bind (read_error_body r) (fun text => ret (k text))).
Proof. apply sends_free; [apply sends_read_error_body|auto with agent]. Qed.

Hint Resolve sends_read_error_body sends_backoff sends_exhausted sends_error sends_none : agent.

Lemma sends_read_answer start attempt r : sends Q 0 (read_answer start attempt r).
Proof.
  unfold read_answer. repeat match goal with |- sends _ _ (if ?x then _ else _) => destruct x; [auto with agent|] end.
  apply sends_free; [auto with agent|]. intros _. destruct (read_body_chunks _ _ _); auto with agent.
Qed.
Hint Resolve sends_read_answer : agent.

Lemma sends_attempts url headers body detect start attempt retries :
  Q body -> sends Q (S retries) (post_attempts url headers body detect start attempt retries).
Proof.
  intros HQ. revert attempt. induction retries as [|retries IH]; intros attempt; cbn [post_attempts];
    (eapply (sends_bind _ 1); [by apply sends_posted|intros _|apply Nat.le_refl]; apply sends_free; [auto with agent|]; intros [r|e]).
  all: repeat match goal with
    | |- sends _ _ (bind (read_error_body _) (fun _ => if _ then _ else _)) =>
        apply sends_free; [apply sends_read_error_body|intros ?text]
    | |- sends _ _ (if ?x then _ else _) => destruct x
    | |- sends _ _ (bind (backoff_with_jitter _) _) => apply sends_free; [apply sends_backoff|intros _; apply IH]
    | |- _ => solve [auto with agent]
    end.
Qed.

Lemma sends_post url headers body detect : Q body -> sends Q 3 (post url headers body detect).
Proof. intros HQ. apply sends_free; [auto with agent|]. intros start. by apply sends_attempts. Qed.

Lemma sends_post_anthropic cfg body : Q body -> sends Q 3 (post_anthropic cfg body).
Proof. intros HQ. eapply (sends_bind _ 3 0); [by apply sends_post|auto with agent|done]. Qed.

Hypothesis Q_strip : forall body, Q body -> Q (strip_model body).

Lemma sends_post_openai cfg path body model : Q body -> sends Q 6 (post_openai cfg path body model).
Proof.
  intros HQ. unfold post_openai.
  assert (forall url body, Q body -> sends Q 6 (bind (wait bearer) (fun token => match token with
    | Err e => ret (Err (PostAgent e))
    | Ok token => bind (post url (bearer_auth token) body (String.eqb model MESH_VIRTUAL_MODEL_ID)) (fun first => match first with
      | Err (PostAgent (LlmAuth _)) => bind (wait (refresh_now token)) (fun token => match token with
          | Err e => ret (Err (PostAgent e))
          | Ok token => post url (bearer_auth token) body (String.eqb model MESH_VIRTUAL_MODEL_ID) end)
      | r => ret r end) end))) as H.
  { intros url b Hb. apply sends_free; [auto with agent|]. intros [token|e]; [|auto with agent].
    eapply (sends_bind _ 3 3); [by apply sends_post| |done]. intros [v|[[]|]]; auto with agent.
    apply sends_free; [auto with agent|]. intros [t|e]; [by apply sends_post|auto with agent]. }
  destruct (provider cfg); apply H; auto.
Qed.

Lemma sends_load_upgraded : sends Q 0 load_upgraded.
Proof. apply sends_same. intros p. unfold load_upgraded. by case_match. Qed.

Lemma sends_try_upgrade e : sends Q 0 (try_upgrade e).
Proof. apply sends_same. intros p. unfold try_upgrade. by repeat case_match. Qed.

Lemma sends_store_mesh m : sends Q 0 (store_mesh m).
Proof. by apply sends_same. Qed.

Lemma sends_lock_mesh : sends Q 0 lock_mesh.
Proof.
  apply sends_free; [|intros m; apply sends_free; auto using sends_store_mesh with agent].
  intros p. apply sends_wait.
Qed.

Hint Resolve sends_load_upgraded sends_try_upgrade sends_store_mesh sends_lock_mesh : agent.

Lemma sends_for_model cfg model (build : bool -> string -> Build) :
  (forall b m, Q (build b m).1) -> sends Q 12 (openai_request_for_model cfg model build).
Proof.
  intros HQ. unfold openai_request_for_model.
  assert (sends Q 6 (let '(body, parse) := build true model in
    bind (post_openai cfg "/responses" body model) (fun r => ret (parsed parse r)))) as Hr.
  { specialize (HQ true model). destruct (build true model) as [body parse].
    eapply (sends_bind _ 6 0); [by apply sends_post_openai|auto with agent|lia]. }
  apply sends_free; [auto with agent|]. intros upgraded. destruct (upgraded || _); [by apply (sends_le _ 6); [lia|]|].
  specialize (HQ false model). destruct (build false model) as [body parse].
  eapply (sends_bind _ 6 6); [by apply sends_post_openai| |lia].
  intros [v|[e|d]]; [auto with agent| |auto with agent]. destruct (openai_api cfg); [auto with agent..|].
  apply sends_free; [auto with agent|]. intros []; [by apply (sends_le _ 6); [lia|]|auto with agent].
Qed.

Lemma sends_databricks cfg model (build : DatabricksV2Route -> Build) :
  (forall r, Q (build r).1) -> sends Q 6 (databricks_v2_request cfg model build).
Proof.
  intros HQ. unfold databricks_v2_request. specialize (HQ (databricks_v2_route_for_model model)). destruct (build _) as [body parse].
  eapply (sends_bind _ 6 0); [by apply sends_post_openai|auto with agent|lia].
Qed.

Lemma sends_observe cfg : sends Q 0 (observe_mesh_virtual_model cfg).
Proof.
  apply sends_free; [auto with agent|]. intros [token|e]; [|auto with agent]. apply sends_free; [by apply sends_other|]. intros _.
  apply sends_free; [auto with agent|]. intros [r|e]; [|auto with agent]. destruct (negb _); [auto with agent|].
  apply sends_free; [auto with agent|]. intros _. repeat case_match; auto with agent.
Qed.

Lemma sends_if {A} n (b : bool) (m m' : M A) : sends Q n m -> sends Q n m' -> sends Q n (if b then m else m').
Proof. by destruct b. Qed.

Lemma sends_resolve cfg model : sends Q 0 (resolve_openai_model cfg model).
Proof.
  unfold resolve_openai_model. destruct (provider cfg); [auto with agent| |auto with agent..]. apply sends_if; [auto with agent|].
  apply sends_free; [auto with agent|]. intros m. apply sends_free; [auto with agent|]. intros t. apply sends_if; [auto with agent|].
  apply sends_free; [auto with agent|]. intros _. apply sends_free; [auto with agent|]. intros t'. apply sends_if; [auto with agent|].
  apply sends_free; [apply sends_observe|]. intros o. apply sends_free; [auto with agent|]. intros t''. apply sends_free; auto with agent.
Qed.

Lemma sends_cool_down : sends Q 0 cool_down_collective.
Proof. apply sends_free; [auto with agent|]. intros t. apply sends_free; auto with agent. Qed.

Lemma sends_openai_request cfg model tools (build : bool -> string -> Build) :
  (forall b m, Q (build b m).1) -> sends Q 24 (openai_request cfg model tools build).
Proof.
  intros HQ. apply sends_free; [apply sends_resolve|]. intros request_model.
  assert (sends Q 12 (bind cool_down_collective (fun _ =>
    bind (openai_request_for_model cfg MESH_AUTO_MODEL_ID build) (fun r => ret (map_err into_agent r))))) as Hagain.
  { apply sends_free; [apply sends_cool_down|]. intros _. eapply (sends_bind _ 12 0); [by apply sends_for_model|auto with agent|lia]. }
  eapply (sends_bind _ 12 12); [by apply sends_for_model| |lia].
  intros [response|[e|d]]; repeat case_match; auto with agent.
Qed.

Lemma sends_complete cfg system_prompt history tools model :
  (forall effort model, Q (anthropic_body cfg system_prompt history tools model effort)) ->
  (forall effort model, Q (openai_body cfg system_prompt history tools model effort)) ->
  (forall effort model, Q (responses_body cfg system_prompt history tools model effort)) ->
  sends Q 24 (complete cfg system_prompt history tools model).
Proof.
  intros Ha Ho Hr. unfold complete. destruct (provider cfg).
  - eapply (sends_bind _ 3 0); [by apply sends_post_anthropic| |lia]. intros [v|e]; auto with agent.
  - eapply (sends_bind _ 24 0); [|auto with agent|lia]. apply sends_openai_request. intros [] m; cbn; auto.
  - eapply (sends_bind _ 24 0); [|auto with agent|lia]. apply sends_openai_request. intros [] m; cbn; auto.
  - eapply (sends_bind _ 6 0); [|auto with agent|lia]. apply sends_databricks. intros []; cbn; auto.
Qed.

Lemma sends_summarize cfg system_prompt user_prompt max_tokens model :
  (forall model, Q (anthropic_summary_body model system_prompt user_prompt max_tokens)) ->
  (forall model, Q (openai_summary_body model system_prompt user_prompt max_tokens)) ->
  (forall model, Q (responses_summary_body model system_prompt user_prompt max_tokens)) ->
  sends Q 24 (summarize cfg system_prompt user_prompt max_tokens model).
Proof.
  intros Ha Ho Hr. unfold summarize. destruct (provider cfg).
  - eapply (sends_bind _ 3 0); [by apply sends_post_anthropic|auto with agent|lia].
  - eapply (sends_bind _ 24 0); [|auto with agent|lia]. apply sends_openai_request. intros [] m; cbn; auto.
  - eapply (sends_bind _ 24 0); [|auto with agent|lia]. apply sends_openai_request. intros [] m; cbn; auto.
  - eapply (sends_bind _ 6 0); [|auto with agent|lia]. apply sends_databricks. intros []; cbn; auto.
Qed.
End llm_requests.

(** ** Histories in which calls are answered *)

Inductive paired : list HistoryItem -> Prop :=
| paired_nil : paired []
| paired_user s h : paired h -> paired (User s :: h)
| paired_assistant text calls rs h :
    result_id <$> rs = call_id <$> calls -> paired h -> paired (Assistant text calls :: (ToolAnswer <$> rs) ++ h).

#[export] Hint Constructors paired : agent.

Lemma paired_app a b : paired a -> paired b -> paired (a ++ b).
Proof. intros Ha Hb. induction Ha as [|s h _ IH|text calls rs h E _ IH]; cbn; [done|by constructor|]. rewrite <-app_assoc. by constructor. Qed.

(** A history can be cut before any user turn. *)
Lemma paired_suffix h a s b : paired h -> h = a ++ User s :: b -> paired (User s :: b).
Proof.
  intros Hp. revert a. induction Hp as [|s' h Hh IH|text calls rs h E Hh IH]; intros a Ea.
  - by destruct a.
  - destruct a as [|x a]; simplify_eq/=; [by constructor|by eapply IH].
  - destruct a as [|x a]; [done|]. injection Ea as _ Ea. clear E. revert a Ea. induction rs as [|r rs IHr]; cbn; intros a Ea; [by eapply IH|].
    destruct a as [|y a]; [done|]. injection Ea as _ Ea. by eapply IHr.
Qed.

Lemma until_user_spec h a b : until_user h = (a, b) -> h = a ++ b /\ match b with x :: _ => is_user x = true | [] => True end.
Proof.
  revert a b. induction h as [|x h IH]; cbn; intros a b E; [by simplify_eq|].
  destruct (is_user x) eqn:Ex; [by simplify_eq|]. destruct (until_user h) as [a' b'] eqn:Eu. simplify_eq.
  destruct (IH _ _ eq_refl) as [-> Hb]. done.
Qed.

Section pairing.
Context `{JL : JsonLib}.

Lemma truncate_loop_paired fuel h total max_bytes : paired h -> paired (truncate_loop fuel h total max_bytes).
Proof.
  revert h total. induction fuel as [|fuel IH]; intros h total Hp; cbn; [done|]. destruct (total <=? max_bytes)%N; [done|].
  destruct h as [|x h]; [done|]. destruct (until_user h) as [a b] eqn:E. apply until_user_spec in E as [-> Hb].
  destruct b as [|y b]; [done|]. destruct y as [s| |]; try done. apply IH. by eapply (paired_suffix _ (x :: a)).
Qed.

Lemma truncate_history_paired h max_bytes : paired h -> paired (truncate_history h max_bytes).
Proof. apply truncate_loop_paired. Qed.

Lemma hook_pair_paired hook n output : paired (hook_pair hook n output).
Proof. destruct output as [server text]. by apply (paired_assistant _ _ [_] []); [|constructor]. Qed.

Lemma push_hooks_paired hook n outputs h : paired h -> paired (push_hook_outputs_as_tool_results hook n outputs h).1.
Proof.
  revert n h. induction outputs as [|o outputs IH]; intros n h Hp; cbn; [done|]. apply IH, paired_app; [done|apply hook_pair_paired].
Qed.
End pairing.

(** ** What providers require *)

Definition block_id (type key : string) (b : Value) : option string :=
  if bool_decide (type_of b = Some type) then field key b ≫= as_str else None.

(** Anthropic: the results in a message are those of the calls in the message
    before it. *)
Definition uses (m : Value) : list string := omap (block_id "tool_use" "id") (items "content" m).
Definition used (m : Value) : list string := omap (block_id "tool_result" "tool_use_id") (items "content" m).

Fixpoint anthropic_rule (expected : list string) (messages : list Value) : Prop :=
  match messages with
  | [] => expected = []
  | m :: rest => used m = expected /\ anthropic_rule (uses m) rest
  end.

(** Chat completions: after a message with calls come its tool messages, in
    order, and tool messages come nowhere else. *)
Definition requested (m : Value) : list string := omap (fun c => field "id" c ≫= as_str) (items "tool_calls" m).
Definition tool_message_id (m : Value) : option string :=
  if bool_decide ((field "role" m ≫= as_str) = Some "tool") then field "tool_call_id" m ≫= as_str else None.

Fixpoint openai_rule (expected : list string) (messages : list Value) : Prop :=
  match messages with
  | [] => expected = []
  | m :: rest =>
      match tool_message_id m with
      | Some id => match expected with e :: es => e = id /\ openai_rule es rest | [] => False end
      | None => expected = [] /\ openai_rule (requested m) rest
      end
  end.

(** Responses: every output follows its call, in order, and every call gets
    one. *)
Fixpoint responses_rule (open : list string) (input : list Value) : Prop :=
  match input with
  | [] => open = []
  | i :: rest =>
      match block_id "function_call" "call_id" i, block_id "function_call_output" "call_id" i with
      | Some id, _ => responses_rule (open ++ [id]) rest
      | None, Some id => match open with o :: os => o = id /\ responses_rule os rest | [] => False end
      | None, None => responses_rule open rest
      end
  end.

(** The rule of the endpoint a body is made for. *)
Definition body_rule (body : Value) : Prop :=
  match field "input" body with
  | Some (VArray input) => responses_rule [] input
  | Some _ => True
  | None =>
      match field "messages" body with
      | Some (VArray messages) =>
          match field "system" body with Some _ => anthropic_rule [] messages | None => openai_rule [] messages end
      | _ => False
      end
  end.

Section bodies_follow.
Context `{JL : JsonLib}.

Lemma get_strip k (fields : list (string * Value)) : k <> "model" -> get k (filter (fun x => x.1 <> "model") fields) = get k fields.
Proof.
  intros Hk. induction fields as [|[k' v] fields IH]; [done|]. destruct (decide (k' = "model")) as [->|Hm].
  - rewrite filter_cons_False by (cbn; naive_solver). rewrite IH. unfold get. cbn [find_map fst snd].
    destruct (String.eqb_spec "model" k); [congruence|done].
  - rewrite filter_cons_True by done. unfold get in *. cbn [find_map fst snd]. by destruct (String.eqb k' k).
Qed.

Lemma field_strip k body : k <> "model" -> field k (strip_model body) = field k body.
Proof. intros Hk. destruct body as [| | | | |fields]; try done. by apply get_strip. Qed.

Lemma body_rule_strip body : body_rule body -> body_rule (strip_model body).
Proof. unfold body_rule. by rewrite !field_strip. Qed.

(** *** Anthropic *)

Definition anthropic_final (acc : list Value * list Value) (h : list HistoryItem) : list Value :=
  let '(messages, pending) := fold_left anthropic_message h acc in flush messages pending.

Lemma anthropic_flush h ms pending : paired h -> anthropic_final (ms, pending) h = anthropic_final (flush ms pending, []) h.
Proof. by destruct 1. Qed.

Lemma anthropic_pend rs ms pending h :
  anthropic_final (ms, pending) ((ToolAnswer <$> rs) ++ h) = anthropic_final (ms, pending ++ (tool_result_block <$> rs)) h.
Proof.
  revert pending. induction rs as [|r rs IH]; intros pending; cbn; [by rewrite app_nil_r|].
  unfold anthropic_final in *. cbn. rewrite IH. by rewrite <-app_assoc.
Qed.

Lemma used_results rs : used (role "user" (VArray (tool_result_block <$> rs))) = result_id <$> rs.
Proof. unfold used. cbn. induction rs as [|r rs IH]; [done|]. cbn. by rewrite IH. Qed.

Lemma used_calls prefix calls : omap (block_id "tool_result" "tool_use_id") prefix = [] ->
  used (role "assistant" (VArray (prefix ++ (tool_use_block <$> calls)))) = [].
Proof.
  intros Hp. unfold used. cbn. rewrite omap_app, Hp. cbn. induction calls as [|c calls IH]; [done|]. by cbn.
Qed.

Lemma uses_calls prefix calls : omap (block_id "tool_use" "id") prefix = [] ->
  uses (role "assistant" (VArray (prefix ++ (tool_use_block <$> calls)))) = call_id <$> calls.
Proof.
  intros Hp. unfold uses. cbn. rewrite omap_app, Hp. cbn. induction calls as [|c calls IH]; [done|]. cbn. by rewrite IH.
Qed.

Lemma uses_results rs : uses (role "user" (VArray (tool_result_block <$> rs))) = [].
Proof. unfold uses. cbn. induction rs as [|r rs IH]; [done|]. by cbn. Qed.

Lemma anthropic_follows h ms : paired h -> exists l, anthropic_final (ms, []) h = ms ++ l /\ anthropic_rule [] l.
Proof.
  intros Hp. revert ms. induction Hp as [|s h _ IH|text calls rs h E Hh IH]; intros ms.
  - exists []. by rewrite app_nil_r.
  - destruct (IH (ms ++ [role "user" (VArray [text_block "text" s])])) as (l & El & Hl).
    eexists (_ :: l). rewrite cons_middle, app_assoc. by split.
  - set (prefix := match text with EmptyString => [] | _ => [text_block "text" text] end).
    change (anthropic_final (ms, []) (Assistant text calls :: (ToolAnswer <$> rs) ++ h))
      with (anthropic_final (match prefix ++ (tool_use_block <$> calls) with [] => ms | _ => ms ++ [role "assistant" (VArray (prefix ++ (tool_use_block <$> calls)))] end, [])
              ((ToolAnswer <$> rs) ++ h)).
    rewrite anthropic_pend, anthropic_flush by done. cbn [app].
    assert (forall ms', exists l, anthropic_final (flush ms' (tool_result_block <$> rs), []) h = ms' ++ l /\ anthropic_rule (call_id <$> calls) l) as Hrest.
    { intros ms'. rewrite <-E. destruct rs as [|r rs]; [by apply IH|].
      destruct (IH (flush ms' (tool_result_block <$> r :: rs))) as (l & El & Hl).
      eexists (role "user" (VArray (tool_result_block <$> r :: rs)) :: l). rewrite El. cbn [flush fmap list_fmap]. rewrite <-app_assoc.
      split; [done|]. split; [apply (used_results (r :: rs))|]. pose proof (uses_results (r :: rs)) as Hu. cbn [fmap list_fmap] in Hu. by rewrite Hu. }
    destruct (prefix ++ (tool_use_block <$> calls)) as [|b bs] eqn:Eb.
    + destruct (Hrest ms) as (l & El & Hl). exists l. split; [done|]. apply app_eq_nil in Eb as [_ Eb]. apply fmap_nil_inv in Eb as ->. done.
    + rewrite <-Eb. destruct (Hrest (ms ++ [role "assistant" (VArray (prefix ++ (tool_use_block <$> calls)))])) as (l & El & Hl).
      exists (role "assistant" (VArray (prefix ++ (tool_use_block <$> calls))) :: l). split; [by rewrite El, <-app_assoc|].
      split; [apply used_calls|rewrite uses_calls; [exact Hl|]]; by destruct text.
Qed.

(** *** Chat completions *)

Definition openai_final (acc : list Value * list Value) (h : list HistoryItem) : list Value :=
  let '(messages, pending) := fold_left openai_message h acc in flush messages pending.

Lemma openai_flush h ms pending : paired h -> openai_final (ms, pending) h = openai_final (flush ms pending, []) h.
Proof. by destruct 1. Qed.

Lemma openai_pend rs ms pending h : exists images,
  openai_final (ms, pending) ((ToolAnswer <$> rs) ++ h) = openai_final (ms ++ (openai_tool_message <$> rs), images) h.
Proof.
  revert ms pending. induction rs as [|r rs IH]; intros ms pending; cbn; [exists pending; by rewrite app_nil_r|].
  destruct (IH (ms ++ [openai_tool_message r]) (pending ++ openai_image_user_content (result_content r))) as (images & E).
  exists images. unfold openai_final in *. cbn. rewrite E. by rewrite <-app_assoc.
Qed.

Lemma openai_rule_answers rs l : openai_rule [] l -> openai_rule (result_id <$> rs) ((openai_tool_message <$> rs) ++ l).
Proof. intros Hl. by induction rs as [|r rs IH]; cbn. Qed.

Lemma requested_calls text calls : requested (openai_assistant text calls) = call_id <$> calls.
Proof.
  destruct calls as [|c calls]; [done|]. unfold requested, openai_assistant. cbn. f_equal. induction calls as [|d calls IH]; [done|]. cbn. by rewrite IH.
Qed.

Lemma assistant_not_tool text calls : tool_message_id (openai_assistant text calls) = None.
Proof. by destruct calls. Qed.

Lemma openai_follows h ms : paired h -> exists l, openai_final (ms, []) h = ms ++ l /\ openai_rule [] l.
Proof.
  intros Hp. revert ms. induction Hp as [|s h _ IH|text calls rs h E Hh IH]; intros ms.
  - exists []. by rewrite app_nil_r.
  - destruct (IH (ms ++ [role "user" (VString s)])) as (l & El & Hl).
    eexists (_ :: l). rewrite cons_middle, app_assoc. by split.
  - change (openai_final (ms, []) (Assistant text calls :: (ToolAnswer <$> rs) ++ h))
      with (openai_final (ms ++ [openai_assistant text calls], []) ((ToolAnswer <$> rs) ++ h)).
    destruct (openai_pend rs (ms ++ [openai_assistant text calls]) [] h) as (images & ->). rewrite openai_flush by done.
    destruct (IH (flush ((ms ++ [openai_assistant text calls]) ++ (openai_tool_message <$> rs)) images)) as (l & El & Hl). rewrite El.
    exists (openai_assistant text calls :: (openai_tool_message <$> rs) ++ flush [] images ++ l). split.
    + destruct images; cbn [flush app]; rewrite <-!app_assoc; done.
    + cbn [openai_rule]. rewrite assistant_not_tool, requested_calls, <-E. split; [done|]. apply openai_rule_answers. by destruct images.
Qed.

(** *** Responses *)

Lemma responses_rule_calls open calls l :
  responses_rule open ((function_call_item <$> calls) ++ l) <-> responses_rule (open ++ (call_id <$> calls)) l.
Proof.
  revert open. induction calls as [|c calls IH]; intros open; cbn; [by rewrite app_nil_r|].
  change (block_id "function_call" "call_id" (function_call_item c)) with (Some (call_id c)). cbn. by rewrite IH, <-app_assoc.
Qed.

Lemma responses_rule_answers rs l :
  responses_rule [] l -> responses_rule (result_id <$> rs) (concat (responses_item <$> (ToolAnswer <$> rs)) ++ l).
Proof.
  intros Hl. induction rs as [|r rs IH]; [done|]. rewrite !fmap_cons. cbn [concat responses_item]. rewrite <-app_assoc. cbn.
  split; [done|]. by destruct (responses_images (result_content r)).
Qed.

Lemma responses_follows h : paired h -> responses_rule [] (concat (responses_item <$> h)).
Proof.
  induction 1 as [|s h _ IH|text calls rs h E Hh IH]; [done|done|].
  rewrite fmap_cons. cbn [concat responses_item]. rewrite fmap_app, concat_app, <-app_assoc.
  assert (responses_rule [] ((function_call_item <$> calls) ++ concat (responses_item <$> (ToolAnswer <$> rs)) ++ concat (responses_item <$> h))) as H.
  { apply responses_rule_calls. cbn. rewrite <-E. by apply responses_rule_answers. }
  by destruct text.
Qed.
End bodies_follow.

Section bodies_rule.
Context `{JL : JsonLib}.
Variables (cfg : Config) (system_prompt : string) (history : list HistoryItem) (tools : list ToolDef) (model : string) (effort : option ThinkingEffort).
Hypothesis Hp : paired history.

Lemma anthropic_body_rule : body_rule (anthropic_body cfg system_prompt history tools model effort).
Proof.
  assert (anthropic_rule [] (anthropic_messages history)) as Hm.
  { destruct (anthropic_follows history [] Hp) as (l & El & Hl). unfold anthropic_messages, anthropic_final in *. by rewrite El. }
  unfold anthropic_body.
  destruct (match effort with Some e => anthropic_thinking_config model e (max_output_tokens cfg) | None => (None, None) end) as [[t|] [oc|]];
    destruct tools; exact Hm.
Qed.

Lemma openai_body_rule : body_rule (openai_body cfg system_prompt history tools model effort).
Proof.
  assert (openai_rule [] (openai_messages system_prompt history)) as Hm.
  { unfold openai_messages. destruct (openai_follows history [role "system" (VString system_prompt)] Hp) as (l & El & Hl).
    unfold openai_final in El. rewrite El. by split. }
  unfold openai_body. destruct effort, tools; exact Hm.
Qed.

Lemma responses_body_rule : body_rule (responses_body cfg system_prompt history tools model effort).
Proof. pose proof (responses_follows history Hp) as Hm. unfold responses_body. destruct effort, tools; exact Hm. Qed.
End bodies_rule.

Section turn_requests.
Context `{JL : JsonLib, LL : LlmLib, AW : AgentWorld}.

Lemma sends_completion cfg system_prompt history tools model :
  paired history -> sends body_rule 24 (complete cfg system_prompt history tools model).
Proof.
  intros Hp. apply sends_complete; [apply body_rule_strip|..]; intros effort m;
    [by apply anthropic_body_rule|by apply openai_body_rule|by apply responses_body_rule].
Qed.

Lemma sends_summary cfg system_prompt user_prompt max_tokens model :
  sends body_rule 24 (summarize cfg system_prompt user_prompt max_tokens model).
Proof. by apply sends_summarize; [apply body_rule_strip|..]. Qed.
End turn_requests.
