(* ===== verification/AgentTurnTheory.v ===== *)
(** * A turn keeps histories answered and calls settled

    [Inv] holds before and after every turn: the history is [paired], every body
    sent follows its provider's rule, and no call announced to the client is
    left open ([owed]).  Inside a turn the open calls are those whose result is
    still missing. *)

From S2P Require Import Prelude Text Json AgentConfig AgentTypes AgentLlm AgentTurn AgentTheory.

(** ** Calls the client waits for *)

Definition call_status (e : Effect) : option (string * string) :=
  match e with
  | Wire v =>
      match field "params" v ?> field "update" with
      | Some u => match field "toolCallId" u ?> as_str, field "status" u ?> as_str with Some id, Some s => Some (id, s) | _, _ => None end
      | None => None
      end
  | _ => None
  end.

Definition terminal (status : string) : bool := String.eqb status "completed" || String.eqb status "failed".

Definition owe (s : gset string) (e : Effect) : gset string :=
  match call_status e with
  | Some (id, status) => if String.eqb status "pending" then {[id]} ∪ s else if terminal status then s ∖ {[id]} else s
  | None => s
  end.

(** The ids announced and not settled since. *)
Definition owed (l : list Effect) : gset string := fold_left owe l ∅.

Lemma owed_app l l' : owed (l ++ l') = fold_left owe l' (owed l).
Proof. apply fold_left_app. Qed.

(** No call is left open: each announcement is followed by its settlement. *)
Lemma owed_settled l : owed l = ∅ ->
  forall l1 e l2 id, l = l1 ++ e :: l2 -> call_status e = Some (id, "pending") ->
  exists e' status, e' ∈ l2 /\ call_status e' = Some (id, status) /\ terminal status = true.
Proof.
  intros H l1 e l2 id -> He. rewrite owed_app in H. cbn in H. unfold owe at 2 in H. rewrite He in H. cbn in H.
  assert (id ∈ {[id]} ∪ owed l1) as Hin by (apply elem_of_union_l, elem_of_singleton; done). revert H Hin. generalize ({[id]} ∪ owed l1) as s.
  induction l2 as [|x l2 IH]; cbn; intros s H Hin; [by rewrite H in Hin; apply not_elem_of_empty in Hin|].
  destruct (decide (id ∈ owe s x)) as [Hx|Hx].
  - destruct (IH _ H Hx) as (e' & st & ? & ? & ?). exists e', st. split_and!; [by right|done..].
  - unfold owe in Hx. destruct (call_status x) as [[id' st]|] eqn:Ex; [|done].
    destruct (String.eqb st "pending"); [by destruct Hx; apply elem_of_union_r|]. destruct (terminal st) eqn:Et; [|done].
    destruct (decide (id = id')) as [<-|Hne]; [|by destruct Hx; apply elem_of_difference; split; [|rewrite elem_of_singleton]].
    exists x, st. split_and!; [by left|done..].
Qed.

(** Requests say nothing to the client. *)
Lemma owed_requests Q l l' : Forall (effect_ok Q) l' -> owed (l ++ l') = owed l.
Proof. intros H. rewrite owed_app. generalize (owed l) as s. induction H as [|e l' He _ IH]; intros s; cbn; [done|]. rewrite IH. by destruct e. Qed.

Section turn.
Context `{JL : JsonLib, LL : LlmLib, AW : AgentWorld, TB : !ToolBox}.
Variable env : RunEnv.

Lemma owed_emit update p :
  owed (log (emit env update p)) =
  match get "toolCallId" update ?> as_str, get "status" update ?> as_str with
  | Some id, Some status =>
      if String.eqb status "pending" then {[id]} ∪ owed (log p) else if terminal status then owed (log p) ∖ {[id]} else owed (log p)
  | _, _ => owed (log p)
  end.
Proof.
  unfold emit, effect. cbn [log]. rewrite owed_app. cbn [fold_left]. unfold owe, call_status.
  change (field "params" (session_update (session_id env) (VObject update)) ?> field "update") with (Some (VObject update)). cbn [field as_object].
  change (field "toolCallId" (VObject update)) with (get "toolCallId" update). change (field "status" (VObject update)) with (get "status" update).
  by destruct (get "toolCallId" update ?> as_str) as [id|], (get "status" update ?> as_str) as [st|].
Qed.

Lemma owed_pending call p : owed (log (emit env (pending_update call) p)) = {[call_id call]} ∪ owed (log p).
Proof. apply owed_emit. Qed.
Lemma owed_in_progress call p : owed (log (emit env (in_progress_update call) p)) = owed (log p).
Proof. apply owed_emit. Qed.
Lemma owed_completed call r p : owed (log (emit env (completed_update call r) p)) = owed (log p) ∖ {[call_id call]}.
Proof. apply owed_emit. Qed.
Lemma owed_failed call err p : owed (log (emit env (failed_update call err) p)) = owed (log p) ∖ {[call_id call]}.
Proof. apply owed_emit. Qed.

(** ** Requests made so far *)

Definition post_ok (e : Effect) : Prop := match e with Posted _ _ body => body_rule body | _ => True end.

Definition requests_ok (p : Proc) : Prop := Forall post_ok (log p).
Definition requests (p : Proc) : nat := posts (log p).

(** Steps that send no request. *)
Definition quiet (p p' : Proc) : Prop := (requests_ok p -> requests_ok p') /\ requests p' = requests p.

#[local] Instance quiet_preorder : PreOrder quiet.
Proof. split; [by split|]. intros p1 p2 p3 [H1 E1] [H2 E2]. split; [auto|congruence]. Qed.

Lemma quiet_log p p' : log p' = log p -> quiet p p'.
Proof. intros E. unfold quiet, requests_ok, requests. by rewrite E. Qed.

Lemma quiet_emit update p : quiet p (emit env update p).
Proof.
  unfold quiet, requests_ok, requests, emit, effect. cbn [log]. split; [intros H; apply Forall_app; by repeat constructor|].
  rewrite posts_app. cbn. lia.
Qed.

Lemma look_log p c p' : look p = (c, p') -> log p' = log p.
Proof. unfold look. case_match. by intros [= _ <-]. Qed.

Lemma outside_log {A} (f : World -> A * World) p a p' : outside f p = (a, p') -> log p' = log p.
Proof. unfold outside. case_match. by intros [= _ <-]. Qed.

(** ** Results in their slots *)

Definition fits (call : ToolCall) (r : option ToolResult) : Prop := match r with Some r => result_id r = call_id call | None => True end.

Lemma fits_insert calls results i call r :
  Forall2 fits calls results -> calls !! i = Some call -> result_id r = call_id call -> Forall2 fits calls (<[i := Some r]> results).
Proof. intros H Hc Hr. rewrite <-(list_insert_id calls i call) by done. by apply Forall2_insert. Qed.

Lemma appended_answers calls results : Forall2 fits calls results ->
  exists rs, zip_with appended_result calls results = ToolAnswer <$> rs /\ result_id <$> rs = call_id <$> calls.
Proof.
  induction 1 as [|call r calls results Hr _ (rs & E & Eid)]; [by exists []|].
  eexists (_ :: rs). cbn. rewrite E, Eid. split; [reflexivity|]. f_equal. by destruct r as [r|]; cbn in *; [destruct (result_is_error r)|].
Qed.

(** What is owed waits for an empty slot. *)
Definition covered (waiting : list (nat * ToolCall)) (results : list (option ToolResult)) (p : Proc) : Prop :=
  forall id, id ∈ owed (log p) -> exists t, t ∈ waiting /\ call_id t.2 = id /\ results !! t.1 = Some None.

(** [cancel_slot] and [fill_cancelled] as one function. *)
Definition slot (announced : nat -> bool) (acc : list (option ToolResult) * Proc) (t : nat * ToolCall) : list (option ToolResult) * Proc :=
  let '(results, p) := acc in
  match results !! t.1 with
  | Some None =>
      (<[t.1 := Some (synthetic_tool_result t.2 "cancelled")]> results, if announced t.1 then emit env (failed_update t.2 "cancelled") p else p)
  | _ => (results, p)
  end.

Definition named (calls : list ToolCall) (t : nat * ToolCall) : Prop := calls !! t.1 = Some t.2.

Section slots.
Variables (announced : nat -> bool) (calls : list ToolCall) (waiting : list (nat * ToolCall)).
Hypothesis Hwaiting : Forall (fun t => named calls t /\ announced t.1 = true) waiting.

(** One slot: what is owed for others stays covered. *)
Lemma slot_spec results p t results' p' :
  slot announced (results, p) t = (results', p') -> named calls t -> Forall2 fits calls results -> covered waiting results p ->
  Forall2 fits calls results' /\ quiet p p' /\ covered waiting results' p' /\ results' !! t.1 <> Some None /\
  (forall i, results' !! i = Some None -> results !! i = Some None).
Proof.
  intros E Ht Hf Hc. unfold slot in E. destruct (results !! t.1) as [[r|]|] eqn:Er; cycle 1.
  - injection E as <- <-. assert (t.1 < length results) as Hlt by (by eapply lookup_lt_Some). split_and!.
    + by eapply fits_insert.
    + case_match; [apply quiet_emit|reflexivity].
    + intros id Hid. assert (id ∈ owed (log p) /\ (announced t.1 = true -> id <> call_id t.2)) as [Hin Hne].
      { destruct (announced t.1); [rewrite owed_failed, elem_of_difference, elem_of_singleton in Hid; naive_solver|done]. }
      destruct (Hc id Hin) as (t' & Ht' & Hid' & Hr). exists t'. split_and!; [done..|].
      destruct (decide (t'.1 = t.1)) as [Ei|Ei]; [|by rewrite list_lookup_insert_ne].
      rewrite Forall_forall in Hwaiting. destruct (Hwaiting t' Ht') as [Hn Ha]. unfold named in *. rewrite Ei in Hn, Ha. rewrite Hn in Ht.
      injection Ht as Ht. rewrite Ht in Hid'. by destruct (Hne Ha).
    + by rewrite list_lookup_insert_eq.
    + intros i. destruct (decide (i = t.1)) as [->|]; [by rewrite list_lookup_insert_eq|by rewrite list_lookup_insert_ne].
  - injection E as <- <-. split_and!; try done. congruence.
  - injection E as <- <-. split_and!; try done. congruence.
Qed.

Lemma slots_spec l results p results' p' :
  fold_left (slot announced) l (results, p) = (results', p') -> Forall (named calls) l -> Forall2 fits calls results -> covered waiting results p ->
  Forall2 fits calls results' /\ quiet p p' /\ covered waiting results' p' /\ (forall t, t ∈ l -> results' !! t.1 <> Some None) /\
  (forall i, results' !! i = Some None -> results !! i = Some None).
Proof.
  revert results p. induction l as [|t l IH]; cbn [fold_left]; intros results p E Hl Hf Hc.
  { injection E as <- <-. split_and!; try done. set_solver. }
  apply Forall_cons in Hl as [Ht Hl]. destruct (slot announced (results, p) t) as [results1 p1] eqn:E1.
  destruct (slot_spec _ _ _ _ _ E1 Ht Hf Hc) as (Hf1 & Hq1 & Hc1 & Hn1 & Hk1).
  destruct (IH _ _ E Hl Hf1 Hc1) as (Hf2 & Hq2 & Hc2 & Hn2 & Hk2). split_and!; [done|by etrans|done| |auto].
  intros t' [->|Ht']%elem_of_cons; [|auto]. intros H. by apply Hk2 in H.
Qed.

(** When every open call has its turn nothing is owed any more. *)
Lemma slots_settle l results p results' p' :
  fold_left (slot announced) l (results, p) = (results', p') -> Forall (named calls) l -> Forall2 fits calls results -> covered waiting results p ->
  (forall t, t ∈ waiting -> t ∈ l) ->
  Forall2 fits calls results' /\ quiet p p' /\ owed (log p') = ∅.
Proof.
  intros E Hl Hf Hc Hsub. destruct (slots_spec _ _ _ _ _ E Hl Hf Hc) as (Hf' & Hq & Hc' & Hn & _). split_and!; [done..|].
  apply set_eq. intros id. split; [|set_solver]. intros Hid. destruct (Hc' id Hid) as (t & Ht & _ & Hr). by destruct (Hn t (Hsub t Ht)).
Qed.
End slots.
(** ** A round of tools *)

Section round.
Context {TBO : ToolBoxOk}.
Variables (calls : list ToolCall) (runnable : list (nat * ToolCall)).
Hypothesis Hnamed : Forall (named calls) runnable.
Hypothesis Hnodup : NoDup runnable.*1.

Definition unreported (s : TaskState) : Prop := forall o, s <> TFinished (Some o).

Definition done_ok (t : nat * ToolCall * TaskState) : Prop :=
  match t.2 with TFinished (Some (Done res)) => result_id res = call_id t.1.2 | _ => True end.

Record round_inv (r : Round) (p : Proc) : Prop := {
  ri_tasks : (rd_tasks r).*1 = runnable;
  ri_done : Forall done_ok (rd_tasks r);
  ri_fits : Forall2 fits calls (rd_results r);
  ri_owed : forall id, id ∈ owed (log p) -> exists k t,
    rd_tasks r !! k = Some t /\ call_id t.1.2 = id /\ rd_results r !! t.1.1 = Some None /\ unreported t.2;
}.

Lemma task_named r p k t : round_inv r p -> rd_tasks r !! k = Some t -> runnable !! k = Some t.1 /\ calls !! t.1.1 = Some t.1.2.
Proof.
  intros [E _ _ _] Hk. assert (runnable !! k = Some t.1) as H by (rewrite <-E, list_lookup_fmap, Hk; done).
  split; [done|]. rewrite Forall_lookup in Hnamed. exact (Hnamed _ _ H).
Qed.

(** Two tasks have two slots. *)
Lemma task_slot r p k k' t t' : round_inv r p -> rd_tasks r !! k = Some t -> rd_tasks r !! k' = Some t' -> t.1.1 = t'.1.1 -> k = k'.
Proof.
  intros Hi Hk Hk' E. destruct (task_named _ _ _ _ Hi Hk) as [H _], (task_named _ _ _ _ Hi Hk') as [H' _].
  eapply (NoDup_lookup (runnable.*1)); [done|by rewrite list_lookup_fmap, H|rewrite list_lookup_fmap, H'; cbn; congruence].
Qed.

Lemma set_task_tasks k s r : (rd_tasks (set_task k s r)).*1 = (rd_tasks r).*1.
Proof. unfold set_task. cbn [rd_tasks]. rewrite (list_fmap_alter _ _ id) by (by apply Forall_true). by apply list_alter_id. Qed.

Lemma set_task_lookup k s r k' t : rd_tasks r !! k' = Some t -> rd_tasks (set_task k s r) !! k' = Some (if decide (k = k') then (t.1, s) else t).
Proof.
  intros H. unfold set_task. cbn [rd_tasks]. destruct (decide (k = k')) as [->|Hne].
  - by rewrite list_lookup_alter_eq, H.
  - by rewrite list_lookup_alter_ne.
Qed.

Lemma set_task_done k s r : Forall done_ok (rd_tasks r) -> (forall t, rd_tasks r !! k = Some t -> done_ok (t.1, s)) ->
  Forall done_ok (rd_tasks (set_task k s r)).
Proof. intros H Hs. apply Forall_alter; auto. Qed.

(** A task that moves on without a report. *)
Lemma round_move k s r p p' : round_inv r p -> unreported s -> owed (log p') = owed (log p) -> round_inv (set_task k s r) p'.
Proof.
  intros Hi Hs Ho. destruct Hi as [E Hd Hf Hw]. split; [by rewrite set_task_tasks|..|done|].
  - apply set_task_done; [done|]. intros t _. unfold done_ok. cbn. destruct s as [| |[o|]|]; try done. by destruct (Hs o).
  - rewrite Ho. intros id Hid. destruct (Hw id Hid) as (k' & t & Hk & Hid' & Hr & Hu). exists k'. eexists. split; [by apply set_task_lookup|].
    by destruct (decide (k = k')).
Qed.

(** A task that reports. *)
Lemma round_finish k i call s outcome r p r' p' :
  round_inv r p -> rd_tasks r !! k = Some (i, call, s) -> (forall res, outcome = Done res -> result_id res = call_id call) ->
  finish_task env k call outcome (r, p) = (r', p') -> round_inv r' p' /\ quiet p p'.
Proof.
  intros Hi Hk Hdone [= <- <-]. destruct Hi as [E Hd Hf Hw]. split; [split|].
  - by rewrite set_task_tasks.
  - apply set_task_done; [done|]. intros t Ht. rewrite Hk in Ht. injection Ht as <-. unfold done_ok. cbn. destruct outcome; auto.
  - done.
  - intros id Hid. assert (id ∈ owed (log p) /\ id <> call_id call) as [Hin Hne].
    { destruct outcome; [rewrite owed_completed in Hid|rewrite owed_failed in Hid]; by rewrite elem_of_difference, elem_of_singleton in Hid. }
    destruct (Hw id Hin) as (k' & t & Hk' & Hid' & Hr & Hu). exists k'. eexists. split; [by apply set_task_lookup|].
    destruct (decide (k = k')) as [<-|]; [|done]. rewrite Hk in Hk'. injection Hk' as <-. cbn in Hid'. congruence.
  - destruct outcome; apply quiet_emit.
Qed.

Lemma invoke_spec call p outcome p' : invoke env call p = (outcome, p') ->
  log p' = log p /\ (forall res, outcome = Done res -> result_id res = call_id call).
Proof.
  unfold invoke. destruct (outside _ p) as [answer p1] eqn:E1. pose proof (outside_log _ _ _ _ E1) as L1.
  unfold outside in E1. destruct (tb_call _ _ _ _ _ _) as [a w] eqn:Ec. injection E1 as -> <-.
  destruct answer as [[r|e]|].
  - intros [= <- <-]. split; [done|]. intros res [= <-]. by eapply TBO.
  - intros E. destruct e; injection E as <- <-; done.
  - destruct (look _) as [cancel p2] eqn:E2. apply look_log in E2. destruct cancel; [intros [= <- ->]; by split|]. destruct (tb_server_of _); intros [= <- <-]; by split.
Qed.

Lemma round_join k r p : round_inv r p -> round_inv (round_step env (Join k) r p).1 (round_step env (Join k) r p).2.
Proof.
  intros Hi. cbn [round_step]. destruct (rd_tasks r !! k) as [[[i call] s]|] eqn:Hk; [|done]. destruct s as [| |outcome|]; try done. cbn [fst snd].
  pose proof (task_named _ _ _ _ Hi Hk) as [_ Hcall]. cbn in Hcall.
  assert (round_inv (set_task k TJoined r) p) as Hj by (by apply (round_move _ _ _ p)).
  destruct outcome as [o|]; [|done].
  assert (forall r', rd_tasks r' = rd_tasks (set_task k TJoined r) -> rd_results r' = <[i := Some (outcome_to_result call o)]> (rd_results r) ->
    round_inv r' p) as Hset.
  { intros r' Et Er. split; rewrite ?Et, ?Er; [apply Hj|apply Hj| |].
    - eapply fits_insert; [apply Hi|done|]. pose proof (ri_done _ _ Hi) as Hd. rewrite Forall_lookup in Hd. specialize (Hd _ _ Hk). unfold done_ok in Hd.
      by destruct o.
    - intros id Hid. destruct (ri_owed _ _ Hi id Hid) as (k' & t & Hk' & Hid' & Hr & Hu). assert (k' <> k) as Hne.
      { intros ->. rewrite Hk in Hk'. injection Hk' as <-. by destruct (Hu o). }
      exists k', t. split_and!; [|done| |done].
      + rewrite (set_task_lookup _ _ _ _ _ Hk'). by destruct (decide (k = k')).
      + rewrite list_lookup_insert_ne; [done|]. intros Ei. by apply Hne, (task_slot _ _ _ _ _ _ Hi Hk' Hk). }
  destruct (rd_main _); [by apply Hset| |done]. change (rd_results (set_task k TJoined r)) with (rd_results r).
  destruct (rd_results r !! i) as [[|]|]; [done|by apply Hset|done].
Qed.

Lemma round_step_inv s r p : round_inv r p -> (forall r' p', round_step env s r p = (r', p') -> round_inv r' p' /\ quiet p p').
Proof.
  intros Hi r' p' E. destruct s as [k|k|k|k|k| |].
  - cbn [round_step] in E. destruct (rd_tasks r !! k) as [[[i call] s]|] eqn:Hk; [|injection E as <- <-; by split].
    destruct (look _) as [cancel p1] eqn:E1. apply look_log in E1.
    assert (owed (log p1) = owed (log p)) as Ho by (rewrite E1; apply owed_in_progress).
    assert (quiet p p1) as Hq by (etrans; [apply quiet_emit|by apply quiet_log]).
    assert (round_inv r p1) as Hi1 by (destruct Hi; split; [done..|by rewrite Ho]).
    destruct cancel; [|injection E as <- <-; split; [by apply (round_move _ _ _ p)|done]].
    eapply round_finish in E as [? ?]; [|done..]. split; [done|by etrans].
  - cbn [round_step] in E. destruct (rd_tasks r !! k) as [[[i call] s]|] eqn:Hk; [|injection E as <- <-; by split].
    by eapply round_finish in E.
  - cbn [round_step] in E. destruct (rd_tasks r !! k) as [[[i call] s]|] eqn:Hk; [|injection E as <- <-; by split].
    destruct (invoke env call p) as [outcome p1] eqn:E1. apply invoke_spec in E1 as [L1 Hd].
    assert (round_inv r p1) as Hi1 by (destruct Hi; split; [done..|by rewrite L1]).
    eapply round_finish in E as [? ?]; [|done..]. split; [done|]. etrans; [by apply quiet_log|done].
  - injection E as <- <-. split; [by apply (round_move _ _ _ p)|done].
  - pose proof (round_join k r p Hi) as H. rewrite E in H. split; [done|]. apply quiet_log.
    cbn [round_step] in E. repeat case_match; by simplify_eq.
  - injection E as <- <-. split; [|done]. by destruct Hi.
  - injection E as <- <-. split; [|done]. by destruct Hi.
Qed.

Lemma round_loop_inv fuel r p r' p' : round_loop env fuel r p = (r', p') -> round_inv r p -> round_inv r' p' /\ quiet p p'.
Proof.
  revert r p. induction fuel as [|fuel IH]; cbn [round_loop]; intros r p E Hi; [injection E as <- <-; by split|].
  destruct (look p) as [cancel p1] eqn:E1. apply look_log in E1.
  assert (round_inv r p1) as Hi1 by (destruct Hi; split; [done..|by rewrite E1]).
  destruct (enabled env r cancel) as [|first rest]; [injection E as <- <-; split; [done|by apply quiet_log]|].
  destruct (outside _ p1) as [k p2] eqn:E2. apply outside_log in E2.
  assert (round_inv r p2) as Hi2 by (destruct Hi1; split; [done..|by rewrite E2]).
  destruct (round_step _ _ r p2) as [r3 p3] eqn:E3. destruct (round_step_inv _ _ _ Hi2 _ _ E3) as [Hi3 Hq3].
  destruct (IH _ _ E Hi3) as [Hi' Hq']. split; [done|]. etrans; [|exact Hq']. etrans; [|exact Hq3]. apply quiet_log. congruence.
Qed.
End round.
(** *** Rounds end *)

Definition task_weight (t : nat * ToolCall * TaskState) : nat :=
  match t.2 with TWaiting => 3 | TRunning => 2 | TFinished _ => 1 | TJoined => 0 end.

Definition round_weight (r : Round) : nat :=
  sum_list_with task_weight (rd_tasks r) + match rd_main r with Joining => 2 | Draining => 1 | Over => 0 end.

Lemma sum_alter {A} (f : A -> nat) (g : A -> A) (l : list A) k x : l !! k = Some x ->
  sum_list_with f (alter g k l) + f x = sum_list_with f l + f (g x).
Proof. revert k. induction l as [|y l IH]; intros k H; [done|]. destruct k as [|k]; [cbn in H; injection H as ->; cbn; lia|]. specialize (IH k H).
  change (alter g (S k) (y :: l)) with (y :: alter g k l). cbn [sum_list_with]. lia.
Qed.

Lemma set_task_weight k s r t : rd_tasks r !! k = Some t -> task_weight (t.1, s) < task_weight t -> round_weight (set_task k s r) < round_weight r.
Proof.
  intros Hk Hlt. unfold round_weight, set_task. cbn [rd_tasks rd_main]. pose proof (sum_alter task_weight (fun t => (t.1, s)) _ _ _ Hk). cbn in *. lia.
Qed.

Lemma elem_of_steps r c s : s ∈ concat (imap (task_steps env r c) (rd_tasks r)) <->
  exists k t, rd_tasks r !! k = Some t /\ s ∈ task_steps env r c k t.
Proof.
  rewrite list_elem_of_In, in_concat. split.
  - intros (l & Hl & Hs). apply list_elem_of_In, elem_of_lookup_imap_1 in Hl as (k & t & -> & Hk). exists k, t. split; [done|by apply list_elem_of_In].
  - intros (k & t & Hk & Hs). exists (task_steps env r c k t). split; apply list_elem_of_In; [|done]. by apply elem_of_lookup_imap_2.
Qed.

Lemma round_step_weight s r c p : s ∈ enabled env r c -> round_weight (round_step env s r p).1 < round_weight r.
Proof.
  unfold enabled. intros Hs. assert (rd_main r <> Over) as Hmain by (intros E; rewrite E in Hs; by apply elem_of_nil in Hs).
  assert (s ∈ concat (imap (task_steps env r c) (rd_tasks r)) \/ (s = ObserveCancel /\ rd_main r = Joining) \/ (s = Deadline /\ rd_main r = Draining)) as Hcases.
  { destruct (rd_main r); [..|done]; (destruct (forallb _ _); [by apply elem_of_nil in Hs|]); apply elem_of_app in Hs as [Hs|Hs]; auto.
    - destruct c; [|by apply elem_of_nil in Hs]. apply list_elem_of_singleton in Hs as ->. auto.
    - apply list_elem_of_singleton in Hs as ->. auto. }
  destruct Hcases as [Hs'|[[-> E]|[-> E]]]; [|unfold round_weight; cbn; rewrite E; lia..].
  apply elem_of_steps in Hs' as (k & [[i call] st] & Hk & Hin). unfold task_steps in Hin. cbn [snd] in Hin. destruct st as [| |o|].
  - assert (s = Refuse k \/ s = Acquire k) as [->| ->].
    { destruct (rd_closed r); [|destruct (permits env r)]; [apply list_elem_of_singleton in Hin; auto..|by apply elem_of_nil in Hin]. }
    + cbn [round_step]. rewrite Hk. cbn. eapply set_task_weight; [exact Hk|cbn; lia].
    + cbn [round_step]. rewrite Hk. destruct (look _) as [[] p1]; cbn; (eapply set_task_weight; [exact Hk|cbn; lia]).
  - assert (s = Return k \/ s = Panic k) as [->| ->] by (rewrite !elem_of_cons, elem_of_nil in Hin; naive_solver).
    + cbn [round_step]. rewrite Hk. destruct (invoke env call p) as [o p1]. cbn. eapply set_task_weight; [exact Hk|cbn; lia].
    + cbn. eapply set_task_weight; [exact Hk|cbn; lia].
  - assert (s = Join k) as ->.
    { destruct (rd_main r); [destruct c|..]; (apply list_elem_of_singleton in Hin; by auto) || (by apply elem_of_nil in Hin). }
    cbn [round_step]. rewrite Hk. cbn [fst].
    assert (round_weight (set_task k TJoined r) < round_weight r) as H by (eapply set_task_weight; [exact Hk|cbn; lia]).
    unfold round_weight in *. by repeat case_match.
  - by apply elem_of_nil in Hin.
Qed.

(** Nothing is possible only when the tasks are collected or given up. *)
Lemma enabled_none r c : enabled env r c = [] -> rd_main r = Over \/ forallb is_joined (rd_tasks r) = true.
Proof.
  unfold enabled. intros H. destruct (rd_main r) eqn:Em; [..|by left]; right; destruct (forallb is_joined (rd_tasks r)) eqn:Ej; try done;
    apply app_eq_nil in H as [H Hlast]; [|done]. destruct c; [done|]. exfalso.
  assert (forall k t, rd_tasks r !! k = Some t -> task_steps env r false k t = []) as Hnone.
  { intros k t Hk. destruct (task_steps env r false k t) as [|s l] eqn:E; [done|].
    assert (s ∈ concat (imap (task_steps env r false) (rd_tasks r))) as Hin by (apply elem_of_steps; exists k, t; rewrite E; set_solver).
    rewrite H in Hin. by apply elem_of_nil in Hin. }
  assert (forall t, t ∈ rd_tasks r -> t.2 = TJoined \/ (t.2 = TWaiting /\ permits env r = false)) as Hall.
  { intros t (k & Hk)%list_elem_of_lookup. specialize (Hnone _ _ Hk). unfold task_steps in Hnone. rewrite Em in Hnone.
    destruct t.2; try done; [|by left]. right. destruct (rd_closed r); [done|]. by destruct (permits env r). }
  assert (permits env r = true) as Hp.
  { unfold permits. apply N.ltb_lt. assert (List.filter is_running (rd_tasks r) = []) as ->; [|cbn; lia].
    destruct (List.filter is_running (rd_tasks r)) as [|t l] eqn:E; [done|]. assert (In t (t :: l)) as Hin by (by left). rewrite <-E in Hin.
    apply filter_In in Hin as [Hin Hr]. apply list_elem_of_In in Hin. unfold is_running in Hr. destruct (Hall t Hin) as [E'|[E' _]]; by rewrite E' in Hr. }
  apply not_true_iff_false in Ej. apply Ej, forallb_forall. intros t Hin. apply list_elem_of_In in Hin. unfold is_joined.
  destruct (Hall t Hin) as [->|[_ E]]; [done|congruence].
Qed.

Lemma round_loop_ends fuel r p r' p' : round_loop env fuel r p = (r', p') -> round_weight r < fuel ->
  rd_main r' = Over \/ forallb is_joined (rd_tasks r') = true.
Proof.
  revert r p. induction fuel as [|fuel IH]; cbn [round_loop]; intros r p E Hlt; [lia|].
  destruct (look p) as [cancel p1]. destruct (enabled env r cancel) as [|first rest] eqn:En; [injection E as <- <-; by eapply enabled_none|].
  destruct (outside _ p1) as [k p2]. set (s := nth _ _ _) in E.
  assert (s ∈ enabled env r cancel) as Hin by (rewrite En; apply list_elem_of_In, nth_In, Nat.mod_upper_bound; done).
  pose proof (round_step_weight s r cancel p2 Hin) as Hw. destruct (round_step env s r p2) as [r3 p3]. eapply IH; [done|]. cbn in Hw. lia.
Qed.

(** The fuel of a round is enough for its tasks. *)
Lemma round_ends runnable results p r' p' :
  round_loop env (round_fuel (length runnable)) (mkRound ((fun t => (t, TWaiting)) <$> runnable) results false Joining) p = (r', p') ->
  rd_main r' = Over \/ forallb is_joined (rd_tasks r') = true.
Proof.
  intros E. eapply round_loop_ends; [exact E|]. unfold round_weight, round_fuel. cbn [rd_tasks rd_main].
  assert (forall l : list (nat * ToolCall), sum_list_with task_weight ((fun t => (t, TWaiting)) <$> l) = 3 * length l) as ->; [|lia].
  induction l as [|t l IH]; cbn; [done|]. rewrite IH. cbn. lia.
Qed.
(** ** The calls of a response *)

Section calls.
Context {TBO : ToolBoxOk}.
Variable calls : list ToolCall.

(** The calls from the [n]-th on, with their places. *)
Definition from (n : nat) : list (nat * ToolCall) := imap (fun i call => (n + i, call)) (drop n calls).

Lemma from_named n : Forall (named calls) (from n).
Proof.
  apply Forall_forall. intros t (i & call & -> & Hi)%elem_of_lookup_imap_1. unfold named. cbn. by rewrite lookup_drop in Hi.
Qed.

Lemma from_cons n call rest : drop n calls = call :: rest -> from n = (n, call) :: from (S n).
Proof.
  intros E. unfold from. rewrite E. cbn. rewrite Nat.add_0_r. f_equal.
  assert (drop (S n) calls = rest) as -> by (rewrite <-(Nat.add_1_r n), <-drop_drop, E; done). apply imap_ext. intros. cbn. f_equal. lia.
Qed.

(** Preflight has reached call [n]: announced calls are settled or runnable. *)
Record pre_inv (n : nat) (results : list (option ToolResult)) (runnable : list (nat * ToolCall)) (p : Proc) : Prop := {
  pre_named : Forall (fun t => named calls t /\ t.1 < n) runnable;
  pre_nodup : NoDup runnable.*1;
  pre_fits : Forall2 fits calls results;
  pre_empty : forall i, n <= i < length calls -> results !! i = Some None;
  pre_owed : covered runnable results p;
}.

(** A call settled at once. *)
Lemma pre_settled n results runnable p call r p' :
  pre_inv n results runnable p -> calls !! n = Some call -> result_id r = call_id call ->
  (forall id, id ∈ owed (log p') -> id ∈ owed (log p)) -> pre_inv (S n) (<[n := Some r]> results) runnable p'.
Proof.
  intros [Hn Hd Hf He Ho] Hc Hr Hsub. assert (forall t, t ∈ runnable -> t.1 <> n) as Hne.
  { intros t Ht E. rewrite Forall_forall in Hn. destruct (Hn t Ht). lia. }
  split; [|done|by eapply fits_insert| |].
  - eapply Forall_impl; [exact Hn|]. cbn. intros t [? ?]. split; [done|lia].
  - intros i Hi. rewrite list_lookup_insert_ne by lia. apply He. lia.
  - intros id Hid. destruct (Ho id (Hsub id Hid)) as (t & Ht & Hid' & Hres). exists t. split_and!; [done..|].
    rewrite list_lookup_insert_ne; [done|]. intros E. by destruct (Hne t Ht).
Qed.

(** A call left for the round. *)
Lemma pre_runnable n results runnable p call p' :
  pre_inv n results runnable p -> calls !! n = Some call -> owed (log p') = {[call_id call]} ∪ owed (log p) ->
  pre_inv (S n) results (runnable ++ [(n, call)]) p'.
Proof.
  intros [Hn Hd Hf He Ho] Hc Hadd. split; [..|done| |].
  - apply Forall_app. split; [|by repeat constructor]. eapply Forall_impl; [exact Hn|]. cbn. intros t [? ?]. split; [done|lia].
  - rewrite fmap_app. apply NoDup_app. split_and!; [done| |apply NoDup_singleton]. intros i (t & -> & Ht)%list_elem_of_fmap.
    rewrite Forall_forall in Hn. destruct (Hn t Ht). cbn. rewrite list_elem_of_singleton. lia.
  - intros i Hi. apply He. lia.
  - intros id. rewrite Hadd, elem_of_union, elem_of_singleton. intros [->|Hid].
    + exists (n, call). split_and!; [set_solver|done|]. apply He. cbn. split; [lia|by eapply lookup_lt_Some].
    + destruct (Ho id Hid) as (t & ? & ? & ?). exists t. set_solver.
Qed.

Lemma pre_same n results runnable p p' : pre_inv n results runnable p -> owed (log p') = owed (log p) -> pre_inv n results runnable p'.
Proof. intros [? ? ? ? Ho] E. split; try done. intros id. rewrite E. apply Ho. Qed.

Lemma preflight_spec n results runnable p stopped results' runnable' p' :
  preflight env (from 0) (from n) results runnable p = (stopped, results', runnable', p') -> pre_inv n results runnable p ->
  Forall2 fits calls results' /\ quiet p p' /\
  if stopped then owed (log p') = ∅ else pre_inv (length calls) results' runnable' p'.
Proof.
  remember (drop n calls) as rest eqn:Er. symmetry in Er. revert n Er results runnable p. induction rest as [|call rest IH]; intros n Er results runnable p E Hi.
  { unfold from at 2 in E. rewrite Er in E. cbn in E. injection E as <- <- <- <-. assert (length calls <= n) by (apply (f_equal length) in Er; rewrite length_drop in Er; cbn in Er; lia).
    destruct Hi as [Hn Hd Hf He Ho]. split_and!; [done..|]. split; try done; [|lia].
    eapply Forall_impl; [exact Hn|]. cbn. intros t [Ht _]. split; [done|by eapply lookup_lt_Some]. }
  assert (calls !! n = Some call) as Hc by (rewrite <-(Nat.add_0_r n), <-lookup_drop, Er; done).
  assert (drop (S n) calls = rest) as Er' by (rewrite <-(Nat.add_1_r n), <-drop_drop, Er; done).
  rewrite (from_cons _ _ _ Er) in E. cbn [preflight] in E. destruct (look p) as [cancel p1] eqn:E1. apply look_log in E1.
  assert (pre_inv n results runnable p1) as Hi1 by (eapply pre_same; [done|by rewrite E1]). assert (quiet p p1) as Hq1 by (by apply quiet_log).
  destruct cancel.
  { destruct (fold_left _ _ _) as [results2 p2] eqn:E2. injection E as <- <- <- <-. destruct Hi1 as [Hn Hd Hf He Ho].
    assert (Forall (fun t => named calls t /\ (t.1 <? n)%nat = true) runnable) as Hw.
    { eapply Forall_impl; [exact Hn|]. cbn. intros t [? ?]. split; [done|by apply Nat.ltb_lt]. }
    destruct (slots_settle (fun i => (i <? n)%nat) calls runnable Hw (from 0) _ _ _ _ E2 (from_named 0) Hf Ho) as (? & ? & ?).
    - intros t Ht. rewrite Forall_forall in Hn. destruct (Hn t Ht) as [Hn' _]. unfold from. rewrite drop_0.
      destruct t as [i c]. apply (elem_of_lookup_imap_2 (fun i call => (0 + i, call)) _ _ i Hn').
    - split_and!; [done|by etrans|done]. }
  destruct (String.eqb (call_name call) LOAD_SKILL_TOOL).
  { destruct (outside _ _) as [loaded p2] eqn:E2. apply outside_log in E2. eapply IH in E as (? & ? & ?); [|done|].
    - split_and!; [done| |done]. etrans; [exact Hq1|]. etrans; [apply (quiet_emit (pending_update call))|]. etrans; [apply (quiet_emit (in_progress_update call))|].
      etrans; [by apply quiet_log|]. etrans; [apply quiet_emit|done].
    - eapply pre_settled; [exact Hi1|done..|]. intros id. rewrite owed_completed, E2, owed_in_progress, owed_pending, elem_of_difference, elem_of_union, elem_of_singleton. naive_solver. }
  destruct (_ || _).
  { eapply IH in E as (? & ? & ?); [|done|].
    - split_and!; [done| |done]. etrans; [exact Hq1|]. etrans; [apply (quiet_emit (pending_update call))|]. etrans; [apply quiet_emit|done].
    - eapply pre_settled; [exact Hi1|done..|]. intros id. rewrite owed_failed, owed_pending, elem_of_difference, elem_of_union, elem_of_singleton. naive_solver. }
  eapply IH in E as (? & ? & ?); [|done|].
  - split_and!; [done| |done]. etrans; [exact Hq1|]. etrans; [apply quiet_emit|done].
  - eapply pre_runnable; [exact Hi1|done|apply owed_pending].
Qed.

Lemma execute_parallel_spec runnable results p results' p' :
  execute_parallel env runnable results p = (results', p') -> pre_inv (length calls) results runnable p ->
  Forall2 fits calls results' /\ quiet p p' /\ owed (log p') = ∅.
Proof.
  unfold execute_parallel. intros E [Hn Hd Hf He Ho]. destruct (round_loop _ _ _ p) as [r p1] eqn:E1.
  assert (Forall (named calls) runnable) as Hnamed by (eapply Forall_impl; [exact Hn|]; naive_solver).
  destruct (round_loop_inv calls runnable Hnamed Hd _ _ _ _ _ E1) as [[Et _ Hf1 Ho1] Hq1].
  { split; cbn [rd_tasks rd_results].
    - rewrite <-list_fmap_compose. apply list_fmap_id.
    - apply Forall_fmap, Forall_true. done.
    - done.
    - intros id Hid. destruct (Ho id Hid) as (t & (k & Hk)%list_elem_of_lookup & Hid' & Hr). exists k, (t, TWaiting).
      split_and!; [by rewrite list_lookup_fmap, Hk|done..]. }
  assert (covered runnable (rd_results r) p1) as Hc.
  { intros id Hid. destruct (Ho1 id Hid) as (k & t & Hk & Hid' & Hr & _). exists t.1. split_and!; [|done..].
    rewrite <-Et. apply list_elem_of_lookup. exists k. by rewrite list_lookup_fmap, Hk. }
  assert (Forall (fun t : nat * ToolCall => named calls t /\ true = true) runnable) as Hw by (eapply Forall_impl; [exact Hnamed|done]).
  destruct (slots_settle (fun _ => true) calls runnable Hw runnable _ _ _ _ E Hnamed Hf1 Hc) as (? & ? & ?); [done|].
  split_and!; [done|by etrans|done].
Qed.

Lemma execute_calls_spec text c p stop c' p' :
  execute_calls env calls (push_item (Assistant text calls) c) p = (stop, c', p') -> paired (history c) -> owed (log p) = ∅ ->
  paired (history c') /\ handoff_count c' = handoff_count c /\ quiet p p' /\ owed (log p') = ∅.
Proof.
  unfold execute_calls. intros E Hp Ho.
  assert (imap (fun i call => (i, call)) calls = from 0) as Hfrom by done. rewrite Hfrom in E.
  destruct (preflight _ _ _ _ _ _) as [[[stopped results] runnable] p1] eqn:E1.
  destruct (preflight_spec 0 _ _ _ _ _ _ _ E1) as (Hf & Hq & Hs).
  { split; [constructor|constructor| | |].
    - apply Forall2_same_length_lookup_2; [by rewrite length_replicate|]. intros i x y _ Hy. by apply lookup_replicate in Hy as [-> _].
    - intros i Hi. apply lookup_replicate. split; [done|lia].
    - intros id. rewrite Ho. by intros ?%not_elem_of_empty. }
  assert (forall results', Forall2 fits calls results' ->
    paired (append_results calls results' (history c ++ [Assistant text calls]))) as Hpaired.
  { intros results' Hf'. destruct (appended_answers _ _ Hf') as (rs & Ez & Eid). unfold append_results. rewrite Ez, <-app_assoc.
    apply paired_app; [done|]. cbn. rewrite <-(app_nil_r (ToolAnswer <$> rs)). by repeat constructor. }
  destruct stopped.
  { injection E as <- <- <-. split_and!; [by apply Hpaired|done..]. }
  destruct (execute_parallel env runnable results p1) as [results2 p2] eqn:E2.
  destruct (execute_parallel_spec _ _ _ _ _ E2 Hs) as (Hf2 & Hq2 & Ho2). destruct (look p2) as [cancel p3] eqn:E3. apply look_log in E3.
  injection E as <- <- <-. split_and!; [by apply Hpaired|done| |by rewrite E3]. etrans; [exact Hq|]. etrans; [exact Hq2|by apply quiet_log].
Qed.
End calls.
(** ** Turns *)

Section turns.
Context {TBO : ToolBoxOk}.

(** What holds between turns and between the rounds of a turn. *)
Record Inv (c : RunCtx) (p : Proc) : Prop := {
  inv_paired : paired (history c);
  inv_settled : owed (log p) = ∅;
  inv_requests : requests_ok p;
  inv_handoffs : (handoff_count c <= max_handoffs (cfg env))%N;
}.

Lemma inv_quiet c c' p p' : Inv c p -> paired (history c') -> handoff_count c' = handoff_count c -> quiet p p' -> owed (log p') = ∅ -> Inv c' p'.
Proof. intros [? ? ? Hh] Hp Hc [Hq _] Ho. split; [done..|auto|by rewrite Hc]. Qed.

(** A request and its drop. *)
Lemma sends_spec {A} n (m : M A) p o p' : sends body_rule n m -> m p = (o, p') ->
  owed (log p') = owed (log p) /\ (requests_ok p -> requests_ok p') /\ requests p' <= requests p + n.
Proof.
  intros Hm E. destruct (Hm _ _ _ E) as (l & El & Hl & Hn). unfold requests_ok, requests. rewrite El, posts_app. split_and!; [by eapply owed_requests| |lia].
  intros H. apply Forall_app. split; [done|]. eapply Forall_impl; [exact Hl|]. by intros [].
Qed.

Lemma drain_steers_spec c p c' p' : drain_steers c p = (c', p') ->
  log p' = log p /\ (paired (history c) -> paired (history c')) /\ handoff_count c' = handoff_count c.
Proof.
  unfold drain_steers. destruct (outside _ p) as [queued p1] eqn:E1. apply outside_log in E1. intros [= <- <-]. split; [done|].
  revert c. induction queued as [|blocks queued IH]; intros c; cbn [fold_left]; [done|]. destruct (IH (add_steer c blocks)) as [H1 H2].
  assert ((paired (history c) -> paired (history (add_steer c blocks))) /\ handoff_count (add_steer c blocks) = handoff_count c) as [H3 H4].
  { unfold add_steer. repeat case_match; split; try done. cbn. intros Hp. apply paired_app; [done|by repeat constructor]. }
  split; [auto|congruence].
Qed.

Lemma maybe_handoff_spec c p outcome c' p' : maybe_handoff env c p = (outcome, c', p') -> Inv c p -> Inv c' p' /\ requests p' <= requests p + 24.
Proof.
  unfold maybe_handoff. intros E Hi. destruct (negb _); [injection E as <- <- <-; split; [done|lia]|].
  destruct (_ <=? _)%N eqn:Ec; [injection E as <- <- <-; split; [done|lia]|].
  destruct (summarize _ _ _ _ _ p) as [[[summary|e]|] p1] eqn:E1; apply (sends_spec 24) in E1 as (Ho & Hq & Hn); try apply sends_summary.
  2, 3: injection E as <- <- <-; destruct Hi; split; [split; [done|congruence|auto|done]|done].
  destruct (Lines.trim_is_empty summary); [injection E as <- <- <-; destruct Hi; split; [split; [done|congruence|auto|done]|done]|].
  destruct (outside _ p1) as [hooks p2] eqn:E2. apply outside_log in E2. injection E as <- <- <-. destruct Hi as [Hp Hs Hr Hh].
  split; [split|].
  - cbn. constructor. case_match; by repeat constructor.
  - congruence.
  - unfold requests_ok in *. rewrite E2. auto.
  - cbn. apply N.leb_gt in Ec. lia.
  - unfold requests in *. by rewrite E2.
Qed.

Lemma push_item_inv c p s : Inv c p -> Inv (push_item (User s) c) p.
Proof. intros [Hp ? ? ?]. split; try done. cbn. apply paired_app; [done|by repeat constructor]. Qed.

Lemma usage_history response c : history (record_usage response c) = history c /\ handoff_count (record_usage response c) = handoff_count c.
Proof. unfold record_usage. by destruct (resp_input_tokens response), (resp_output_tokens response). Qed.

Lemma emit_chat_quiet kind text p : quiet p (emit env (chunk_update kind text) p) /\ owed (log (emit env (chunk_update kind text) p)) = owed (log p).
Proof. split; [apply quiet_emit|apply owed_emit]. Qed.

Lemma emit_chunks_spec response p : quiet p (emit_chunks env response p) /\ owed (log (emit_chunks env response p)) = owed (log p).
Proof.
  unfold emit_chunks. destruct (resp_reasoning response); destruct (resp_text response); try (apply emit_chat_quiet); try done.
  split; [etrans; apply emit_chat_quiet|]. etrans; apply emit_chat_quiet.
Qed.

Lemma emit_keepalives_spec p : quiet p (emit_keepalives env p) /\ owed (log (emit_keepalives env p)) = owed (log p).
Proof.
  unfold emit_keepalives. destruct (outside _ p) as [n p1] eqn:E1. apply outside_log in E1. rewrite <-E1.
  assert (quiet p p1) as Hq by (by apply quiet_log). set (f := emit env _). induction n as [|n [IH1 IH2]]; [done|].
  change (Nat.iter (S n) f p1) with (f (Nat.iter n f p1)). split; [etrans; [exact IH1|apply quiet_emit]|]. etrans; [apply owed_emit|exact IH2].
Qed.

Lemma on_final_spec response rejections c p next rejections' c' p' :
  on_final env response rejections c p = (next, rejections', c', p') -> Inv c p -> Inv c' p' /\ requests p' = requests p.
Proof.
  unfold on_final. intros E Hi. destruct (bool_decide _); [injection E as <- <- <- <-; by split|].
  assert (Inv (push_item (Assistant (resp_text response) []) c) p) as Hi1.
  { destruct Hi as [Hp ? ? ?]. split; try done. cbn. apply paired_app; [done|]. by apply (paired_assistant _ [] [] []); constructor. }
  destruct (bool_decide _); [|injection E as <- <- <- <-; by split]. destruct (_ <=? _)%N; [injection E as <- <- <- <-; by split|].
  destruct (outside _ p) as [objections p1] eqn:E1. apply outside_log in E1.
  assert (Inv (push_item (Assistant (resp_text response) []) c) p1 /\ requests p1 = requests p) as [Hi2 Hr].
  { destruct Hi1. unfold requests, requests_ok in *. rewrite E1. split; [split; unfold requests_ok; rewrite ?E1; done|done]. }
  destruct objections as [|o objections]; [injection E as <- <- <- <-; by split|].
  destruct (push_hook_outputs_as_tool_results _ _ _ _) as [h n] eqn:Eh. injection E as <- <- <- <-. split; [|done].
  destruct Hi2 as [Hp ? ? ?]. split; try done. cbn. pose proof (push_hooks_paired "_Stop" (nonce (push_item (Assistant (resp_text response) []) c)) (o :: objections) _ Hp) as H. by rewrite Eh in H.
Qed.

Lemma on_response_spec response rejections c p next rejections' c' p' :
  on_response env response rejections c p = (next, rejections', c', p') -> Inv c p -> Inv c' p' /\ requests p' = requests p.
Proof.
  unfold on_response. intros E Hi. destruct (usage_history response c) as [Eh Ec]. destruct (emit_chunks_spec response p) as [Hq Ho].
  assert (Inv (record_usage response c) (emit_chunks env response p)) as Hi1.
  { eapply inv_quiet; [exact Hi|by rewrite Eh; apply Hi|done|done|]. rewrite Ho. apply Hi. }
  assert (requests (emit_chunks env response p) = requests p) as Hr by apply Hq.
  destruct (resp_tool_calls response) as [|call0 more]; [apply on_final_spec in E as [? ?]; [split; [done|congruence]|done]|].
  destruct (execute_calls _ _ _ _) as [[stop c2] p2] eqn:E2. apply execute_calls_spec in E2 as (Hp2 & Hc2 & Hq2 & Ho2); [|apply Hi1|apply Hi1].
  injection E as <- <- <- <-. split; [by eapply inv_quiet|]. destruct Hq2 as [_ ->]. done.
Qed.

Lemma ask_spec rejections c p next rejections' c' p' :
  ask env rejections c p = (next, rejections', c', p') -> Inv c p -> Inv c' p' /\ requests p' <= requests p + 24.
Proof.
  unfold ask. intros E Hi. destruct (complete _ _ _ _ _ p) as [r p1] eqn:E1. apply (sends_spec 24) in E1 as (Ho & Hq & Hn); [|apply sends_completion, Hi].
  destruct (emit_keepalives_spec p1) as [Hqk Hok].
  assert (Inv c (emit_keepalives env p1)) as Hi1.
  { destruct Hi as [? Hs Hr ?]. split; [done|by rewrite Hok, Ho|apply Hqk; auto|done]. }
  assert (requests (emit_keepalives env p1) = requests p1) as Hr1 by apply Hqk.
  destruct r as [[response|e]|]; [|injection E as <- <- <- <-; split; [done|lia]..].
  apply on_response_spec in E as [? ?]; [|done]. split; [done|lia].
Qed.

(** Every round keeps the invariant and sends a bounded number of requests. *)
Lemma run_loop_spec fuel round rejections c p o c' p' :
  run_loop env fuel round rejections c p = (o, c', p') -> Inv c p ->
  Inv c' p' /\
  ((0 < max_rounds (cfg env) <= u32_max)%N ->
   requests p' <= requests p + 48 * N.to_nat (max_rounds (cfg env) - round) /\
   (N.to_nat (max_rounds (cfg env) - round) < fuel -> o <> OutOfRounds)).
Proof.
  revert round rejections c p. induction fuel as [|fuel IH]; cbn [run_loop]; intros round rejections c p E Hi.
  { injection E as <- <- <-. split; [done|]. intros _. split; [lia|]. lia. }
  destruct (_ && _) eqn:Em; [injection E as <- <- <-; split; [done|]; intros _; split; [lia|done]|].
  destruct (look p) as [cancel p1] eqn:E1. apply look_log in E1.
  assert (Inv c p1) as Hi1 by (eapply inv_quiet; [exact Hi|apply Hi|done|by apply quiet_log|rewrite E1; apply Hi]).
  assert (requests p1 = requests p) as Hr1 by (unfold requests; by rewrite E1).
  destruct cancel; [injection E as <- <- <-; split; [done|]; intros _; split; [lia|done]|].
  destruct (drain_steers c p1) as [c2 p2] eqn:E2. apply drain_steers_spec in E2 as (L2 & Hp2 & Hc2).
  assert (Inv c2 p2) as Hi2 by (eapply inv_quiet; [exact Hi1|apply Hp2, Hi1|done|by apply quiet_log|rewrite L2; apply Hi1]).
  assert (requests p2 = requests p) as Hr2 by (unfold requests in *; by rewrite L2).
  destruct (maybe_handoff env c2 p2) as [[outcome c3] p3] eqn:E3. apply maybe_handoff_spec in E3 as [Hi3 Hr3]; [|done].
  assert (requests p3 <= requests p + 24) as Hr3' by lia.
  assert (forall c4, Inv c4 p3 ->
    (let '(next, rejections, c, p) := ask env rejections c4 p3 in
     match next with Stop r => (Returned r, c, p) | Continue => run_loop env fuel (N.min (round + 1) u32_max) rejections c p end) = (o, c', p') ->
    Inv c' p' /\ ((0 < max_rounds (cfg env) <= u32_max)%N ->
     requests p' <= requests p + 48 * N.to_nat (max_rounds (cfg env) - round) /\
     (N.to_nat (max_rounds (cfg env) - round) < S fuel -> o <> OutOfRounds))) as Hrest.
  { intros c4 Hi4 E'. destruct (ask env rejections c4 p3) as [[[next rej5] c5] p5] eqn:E5. apply ask_spec in E5 as [Hi5 Hr5]; [|done]. destruct next as [|r].
    - apply IH in E' as [Hi' Hm]; [|done]. split; [done|]. intros Hmax. destruct (Hm Hmax) as [Hreq Hout].
      apply andb_false_iff in Em. assert (round < max_rounds (cfg env))%N as Hlt by (destruct Em as [?%N.ltb_ge|?%N.leb_gt]; lia).
      assert (N.min (round + 1) u32_max = round + 1)%N as Hmin by lia. rewrite Hmin in *.
      assert (N.to_nat (max_rounds (cfg env) - round) = S (N.to_nat (max_rounds (cfg env) - (round + 1)))) as Hs by lia.
      split; [lia|]. intros Hf. apply Hout. lia.
    - injection E' as <- <- <-. split; [done|]. intros Hmax. split; [|done].
      apply andb_false_iff in Em. assert (round < max_rounds (cfg env))%N as Hlt by (destruct Em as [?%N.ltb_ge|?%N.leb_gt]; lia). lia. }
  destruct outcome.
  - eapply Hrest; [|exact E]. by destruct Hi3.
  - eapply Hrest; [|exact E]. destruct Hi3 as [Hp3 ? ? ?]. split; try done. by apply truncate_history_paired.
  - injection E as <- <- <-. split; [done|]. intros Hmax. split; [|done].
    apply andb_false_iff in Em. assert (round < max_rounds (cfg env))%N as Hlt by (destruct Em as [?%N.ltb_ge|?%N.leb_gt]; lia). lia.
Qed.

Lemma run_spec fuel prompt c p o c' p' :
  run env fuel prompt c p = (o, c', p') -> Inv c p ->
  Inv c' p' /\
  ((0 < max_rounds (cfg env) <= u32_max)%N ->
   requests p' <= requests p + 48 * N.to_nat (max_rounds (cfg env)) /\ (N.to_nat (max_rounds (cfg env)) < fuel -> o <> OutOfRounds)).
Proof.
  unfold run. intros E Hi. destruct (prompt_to_text prompt) as [text|e]; [|injection E as <- <- <-; split; [done|]; intros _; split; [lia|done]].
  destruct (_ <? _)%N; [injection E as <- <- <-; split; [done|]; intros _; split; [lia|done]|].
  apply run_loop_spec in E as [Hi' Hm]; [rewrite N.sub_0_r in Hm; by split|].
  destruct Hi as [Hp ? ? ?]. destruct (original_task c); (split; [cbn; apply paired_app; [exact Hp|by repeat constructor]|done..]).
Qed.
End turns.
End turn.
