(* ===== verification/AgentMcp.v ===== *)
(** * The tool servers of a session

    [buzz-agent/src/mcp.rs]: the registry of the tools of a session's MCP
    servers, calls with their result budgets, hooks, and the restarting of
    servers that died.  Starting a server and talking to it is the class
    [McpWorld]; a client is a number, new for every start. *)

From S2P Require Import Prelude Text Json AgentConfig AgentTypes AgentLlm AgentTurn.

Definition SEP : string := "__".
Definition MAX_NAME_LEN : N := 128.
Definition MAX_QNAME_LEN : N := 64.
Definition MAX_TOOLS_PER_SESSION : nat := 128.
Definition MAX_DESCRIPTION_BYTES : N := 1024.
Definition MAX_SCHEMA_BYTES : N := 4096.
Definition MAX_MCP_SERVERS : nat := 16.
Definition MAX_HOOK_RESULT_BYTES : N := 16384.

Record McpServerStdio := mkServerStdio { ms_name : string; ms_command : string; ms_args : list string; ms_env : list (string * string) }.

Record ServerSpec := mkSpec { spec_server : McpServerStdio; spec_cwd : string }.

(** [rmcp::model::Tool], what the code reads of it. *)
Record RawTool := mkRawTool { rt_name : string; rt_description : option string; rt_schema : list (string * Value) }.

Inductive ClientState :=
| Healthy (client : N) (pgid : option N) (tools : list string)
| Dead (attempts next_retry : N) (reason : string) (tools : list string).

Record Server := mkServer { srv_spec : ServerSpec; srv_client : ClientState }.

Definition srv_name (s : Server) : string := ms_name (spec_server (srv_spec s)).

Record Entry := mkEntry { server_idx : nat; bare : string }.

Record McpRegistry := mkRegistry {
  by_qname : gmap string Entry;
  defs : list ToolDef;
  servers : list Server;
  max_attempts : N;
  backoff_base : N;
  backoff_max : N;
  hook_timeouts : gmap string N;
}.

(** What a server answers to a call. *)
Inductive CallAnswer :=
| CallResult (content : list RawContent) (is_error : option bool)
| CallOther
| CallFailed (text : string) (transport : bool)
| CallNotSent (text : string)
| CallCancelled
| CallTimedOut.

Class McpWorld := {
  MW : Type;
  (** [spawn_one]: client, process group, tools *)
  spawn_one : ServerSpec -> MW -> result AgentError (N * option N * list RawTool) * MW;
  (** [send_cancellable_request] and its response; the flag is the cancel channel *)
  send_call : N -> string -> option (list (string * Value)) -> bool -> MW -> CallAnswer * MW;
  (** [Instant::now], in milliseconds *)
  mcp_now : MW -> N * MW;
  (** [jitter_percent] *)
  jitter_percent : MW -> Z * MW;
  killpg : N -> MW -> MW;
  (** whether the time of a call is over before a restart is *)
  restart_timed_out : MW -> bool * MW;
}.

(** ** Names *)

Definition valid_name (s : string) : bool :=
  negb (String.eqb s EmptyString) && (len s <=? MAX_NAME_LEN)%N &&
  str_forallb (fun c => is_digit c || is_ascii_alphabetic c || Ascii.eqb c "_" || Ascii.eqb c "-") s.

Definition plain_name (s : string) : bool := valid_name s && negb (str_contains SEP s).

Definition qualified (server bare : string) : string := server +:+ SEP +:+ bare.

Section registry.
Context `{JL : JsonLib, MCP : McpWorld}.

Definition cap_schema (schema : Value) : Value := if (len (json_text schema) <=? MAX_SCHEMA_BYTES)%N then schema else VObject [].

Definition add_tool (server_name : string) (server_idx : nat) (reg : McpRegistry) (t : RawTool) : result AgentError McpRegistry :=
  let? _ := ensure (length (defs reg) <? MAX_TOOLS_PER_SESSION)%nat
    (Mcp ("too many tools (>" +:+ u64_to_string (N.of_nat MAX_TOOLS_PER_SESSION) +:+ ")")) in
  let? _ := ensure (plain_name (rt_name t)) (Mcp ("invalid tool name: " +:+ rt_name t)) in
  let qname := qualified server_name (rt_name t) in
  let? _ := ensure (len qname <=? MAX_QNAME_LEN)%N
    (Mcp ("qualified tool name too long: " +:+ qname +:+ " (" +:+ u64_to_string (len qname) +:+ " > " +:+ u64_to_string MAX_QNAME_LEN +:+ ")")) in
  let? _ := ensure (negb (bool_decide (is_Some (by_qname reg !! qname)))) (Mcp ("duplicate tool: " +:+ qname)) in
  let def := mkToolDef qname (clamp (default EmptyString (rt_description t)) MAX_DESCRIPTION_BYTES) (cap_schema (VObject (rt_schema t))) in
  Ok (mkRegistry (<[qname := mkEntry server_idx (rt_name t)]> (by_qname reg)) (defs reg ++ [def]) (servers reg) (max_attempts reg)
        (backoff_base reg) (backoff_max reg) (hook_timeouts reg)).

(** [Drop for Server]: what a registry that is given up leaves. *)
Definition drop_server (s : Server) (w : MW) : MW := match srv_client s with Healthy _ (Some p) _ => killpg p w | _ => w end.

Definition drop_registry (reg : McpRegistry) (w : MW) : MW := fold_left (fun w s => drop_server s w) (servers reg) w.

Definition add_server (cwd : string) (reg : McpRegistry) (s : McpServerStdio) (w : MW) : result AgentError McpRegistry * MW :=
  if negb (plain_name (ms_name s)) then (Err (Mcp ("invalid server name: " +:+ ms_name s)), drop_registry reg w)
  else if existsb (fun x => String.eqb (srv_name x) (ms_name s)) (servers reg) then (Err (Mcp ("duplicate server name: " +:+ ms_name s)), drop_registry reg w)
  else
    let spec := mkSpec s cwd in
    let '(spawned, w) := spawn_one spec w in
    match spawned with
    | Err e => (Err e, drop_registry reg w)
    | Ok (client, pgid, raw_tools) =>
        let server := mkServer spec (Healthy client pgid (rt_name <$> raw_tools)) in
        let idx := length (servers reg) in
        let reg := mkRegistry (by_qname reg) (defs reg) (servers reg ++ [server]) (max_attempts reg) (backoff_base reg) (backoff_max reg) (hook_timeouts reg) in
        match fold_res (add_tool (ms_name s) idx) reg raw_tools with
        | Err e => (Err e, drop_registry reg w)
        | Ok reg => (Ok reg, w)
        end
    end.

Fixpoint add_servers (cwd : string) (reg : McpRegistry) (l : list McpServerStdio) (w : MW) : result AgentError McpRegistry * MW :=
  match l with
  | [] => (Ok reg, w)
  | s :: l => match add_server cwd reg s w with (Ok reg, w) => add_servers cwd reg l w | (Err e, w) => (Err e, w) end
  end.

Definition spawn_all (cfg : Config) (l : list McpServerStdio) (cwd : string) (w : MW) : result AgentError McpRegistry * MW :=
  if (MAX_MCP_SERVERS <? length l)%nat then
    (Err (Mcp ("too many MCP servers: " +:+ u64_to_string (N.of_nat (length l)) +:+ " > " +:+ u64_to_string (N.of_nat MAX_MCP_SERVERS))), w)
  else add_servers cwd (mkRegistry ∅ [] [] (N.max (mcp_max_restart_attempts cfg) 1) (N.max (mcp_restart_base_ms cfg) 1)
                          (N.max (mcp_restart_max_ms cfg) 1) ∅) l w.

(** ** Lookups *)

Definition entry_server (reg : McpRegistry) (e : Entry) : option Server := servers reg !! server_idx e.

Definition server_of (reg : McpRegistry) (qname : string) : option string := e ← by_qname reg !! qname; srv_name <$> entry_server reg e.

Definition has (reg : McpRegistry) (qname : string) : bool := bool_decide (is_Some (by_qname reg !! qname)).

Definition is_hook_name (bare : string) : bool := starts_with bare "_".

Definition is_hook (reg : McpRegistry) (qname : string) : bool :=
  match by_qname reg !! qname with Some e => is_hook_name (bare e) | None => false end.

Definition available (reg : McpRegistry) (e : Entry) : bool :=
  match entry_server reg e with
  | Some s =>
      match srv_client s with
      | Healthy _ _ tools => existsb (String.eqb (bare e)) tools
      | Dead attempts _ _ tools => (attempts <? max_attempts reg)%N && existsb (String.eqb (bare e)) tools
      end
  | None => false
  end.

Definition tools (reg : McpRegistry) : list ToolDef :=
  List.filter (fun d => match by_qname reg !! tool_name d with Some e => negb (is_hook_name (bare e)) && available reg e | None => false end) (defs reg).

(** ** Dying and restarting *)

(** [as i64], and [i64] arithmetic in a release build. *)
Definition i64_wrap (z : Z) : Z := ((z + 2 ^ 63) mod 2 ^ 64 - 2 ^ 63)%Z.

Definition backoff (attempt base max : N) (jitter : Z) : N :=
  let shift := N.min (attempt - 1) 20 in
  let ms := i64_wrap (Z.of_N (N.min (base * 2 ^ shift) max)) in
  Z.to_N (Z.max (i64_wrap (ms + Z.quot (i64_wrap (ms * jitter)) 100)) 0).

Definition set_client (i : nat) (c : ClientState) (reg : McpRegistry) : McpRegistry :=
  mkRegistry (by_qname reg) (defs reg) (alter (fun s => mkServer (srv_spec s) c) i (servers reg)) (max_attempts reg) (backoff_base reg)
    (backoff_max reg) (hook_timeouts reg).

Definition put_timeouts (m : gmap string N) (reg : McpRegistry) : McpRegistry :=
  mkRegistry (by_qname reg) (defs reg) (servers reg) (max_attempts reg) (backoff_base reg) (backoff_max reg) m.

(** A server found healthy is killed and marked dead. *)
Definition mark_dead (i : nat) (pgid : option N) (tools : list string) (reason : string) (rw : McpRegistry * MW) : McpRegistry * MW :=
  let '(reg, w) := rw in
  let '(t, w) := mcp_now w in
  let '(jitter, w) := jitter_percent w in
  let w := match pgid with Some p => killpg p w | None => w end in
  (set_client i (Dead 1 (t + backoff 1 (backoff_base reg) (backoff_max reg) jitter) reason tools) reg, w).

Definition kill_server (name reason : string) (rw : McpRegistry * MW) : McpRegistry * MW :=
  let '(reg, w) := rw in
  match position (fun s => String.eqb (srv_name s) name) (servers reg) with
  | Some i =>
      match srv_client <$> servers reg !! i with
      | Some (Healthy _ pgid tools) => mark_dead i pgid tools reason (reg, w)
      | _ => (reg, w)
      end
  | None => (reg, w)
  end.

Definition kill_and_mark_dead_if_current (i : nat) (failed_client : N) (reason : string) (rw : McpRegistry * MW) : McpRegistry * MW :=
  let '(reg, w) := rw in
  match srv_client <$> servers reg !! i with
  | Some (Healthy client pgid tools) => if (client =? failed_client)%N then mark_dead i pgid tools reason (reg, w) else (reg, w)
  | _ => (reg, w)
  end.

Inductive RestartCheck := RestartHealthy | RestartReady (attempt_n : N) (prev_tools : list string).

Definition check_restart_state (reg : McpRegistry) (s : Server) (t : N) : result AgentError RestartCheck :=
  match srv_client s with
  | Healthy _ _ _ => Ok RestartHealthy
  | Dead attempts next_retry reason tools =>
      if (max_attempts reg <=? attempts)%N then
        Err (Mcp ("The MCP server '" +:+ srv_name s +:+ "' is unavailable (exhausted). Its tools have been removed for this session."))
      else if (t <? next_retry)%N then
        Err (Mcp ("server '" +:+ srv_name s +:+ "' is recovering (last error: " +:+ reason +:+ "). Try again later or use a different tool."))
      else Ok (RestartReady (attempts + 1) tools)
  end.

(** The restart, under its lock; [None] when the time of the call is over first,
    which drops the start and with it its process. *)
Definition maybe_restart (i : nat) (s : Server) (rw : McpRegistry * MW) : option (result AgentError unit) * (McpRegistry * MW) :=
  let '(reg, w) := rw in
  let '(t, w) := mcp_now w in
  match check_restart_state reg s t with
  | Err e => (Some (Err e), (reg, w))
  | Ok RestartHealthy => (Some (Ok tt), (reg, w))
  | Ok (RestartReady attempt_n prev_tools) =>
      let '(late, w) := restart_timed_out w in
      if late then (None, (reg, w)) else
      let '(spawned, w) := spawn_one (srv_spec s) w in
      match spawned with
      | Ok (client, pgid, raw_tools) => (Some (Ok tt), (set_client i (Healthy client pgid (rt_name <$> raw_tools)) reg, w))
      | Err e =>
          let reason := "restart failed: " +:+ agent_error_text e in
          let '(t, w) := mcp_now w in
          let '(jitter, w) := jitter_percent w in
          let next_retry :=
            if (max_attempts reg <=? attempt_n)%N then (t + 86400000)%N
            else (t + backoff attempt_n (backoff_base reg) (backoff_max reg) jitter)%N in
          (Some (Err (Mcp reason)), (set_client i (Dead attempt_n next_retry reason prev_tools) reg, w))
      end
  end.

(** ** Calls *)

Definition do_call (i : nat) (client : N) (bare qname provider_id : string) (arguments : Value) (budget : ResultBudget) (cancel : bool)
    (rw : McpRegistry * MW) : option (result AgentError ToolResult) * (McpRegistry * MW) :=
  let '(reg, w) := rw in
  let send := fun args =>
    let '(answer, w) := send_call client bare args cancel w in
    match answer with
    | CallNotSent e => (Some (Err (Mcp ("call " +:+ qname +:+ ": " +:+ e))), (reg, w))
    | CallCancelled => (Some (Err AgentCancelled), (reg, w))
    | CallTimedOut => (None, (reg, w))
    | CallOther => (Some (Err (Mcp ("call " +:+ qname +:+ ": unexpected response type"))), (reg, w))
    | CallFailed e true =>
        (Some (Err (Mcp ("call " +:+ qname +:+ ": " +:+ e))), kill_and_mark_dead_if_current i client ("call failed: " +:+ e) (reg, w))
    | CallFailed e false =>
        (Some (Ok (mkToolResult provider_id [TText (clamp ("Tool call rejected: " +:+ e) (budget_text budget))] true)), (reg, w))
    | CallResult content is_error =>
        (Some (Ok (mkToolResult provider_id (tool_result_content content (budget_total budget) (budget_text budget)) (default false is_error))), (reg, w))
    end in
  match arguments with
  | VObject m => send (Some m)
  | VNull => send None
  | _ => (Some (Err (Mcp ("tool " +:+ qname +:+ " arguments must be a JSON object"))), (reg, w))
  end.

Definition no_longer (qname : string) : AgentError :=
  Mcp ("tool '" +:+ qname +:+ "': no longer available; the MCP server restarted with a different tool set.").

(** A call to a server in its present state. *)
Definition call_healthy (i : nat) (e : Entry) (qname provider_id : string) (arguments : Value) (budget : ResultBudget) (cancel : bool)
    (rw : McpRegistry * MW) : option (result AgentError ToolResult) * (McpRegistry * MW) :=
  match srv_client <$> servers rw.1 !! i with
  | Some (Healthy client _ tools) =>
      if existsb (String.eqb (bare e)) tools then do_call i client (bare e) qname provider_id arguments budget cancel rw
      else (Some (Err (no_longer qname)), rw)
  | Some (Dead _ _ reason _) =>
      (Some (Err (Mcp ("tool '" +:+ qname +:+ "': server '" +:+ default EmptyString (srv_name <$> servers rw.1 !! i) +:+ "' restart failed: " +:+ reason))), rw)
  | None => (Some (Err (Mcp ("unknown tool " +:+ qname))), rw)
  end.

Definition mcp_call (qname provider_id : string) (arguments : Value) (budget : ResultBudget) (cancel : bool) (rw : McpRegistry * MW) :
    option (result AgentError ToolResult) * (McpRegistry * MW) :=
  let '(reg, w) := rw in
  match by_qname reg !! qname with
  | None => (Some (Err (Mcp ("unknown tool " +:+ qname))), rw)
  | Some e =>
      let i := server_idx e in
      match servers reg !! i with
      | None => (Some (Err (Mcp ("unknown tool " +:+ qname))), rw)
      | Some s =>
          match srv_client s with
          | Healthy _ _ _ => call_healthy i e qname provider_id arguments budget cancel rw
          | Dead _ _ _ _ =>
              match maybe_restart i s rw with
              | (None, rw) => (None, rw)
              | (Some (Err err), rw) => (Some (Err err), rw)
              | (Some (Ok _), rw) => call_healthy i e qname provider_id arguments budget cancel rw
              end
          end
      end
  end.

(** ** Hooks *)

Definition hook_targets (reg : McpRegistry) (hook_name : string) (allowed : HookServers) : list (string * string) :=
  omap (fun s =>
    let qname := qualified (srv_name s) hook_name in
    if hook_allows allowed (srv_name s) && has reg qname then Some (srv_name s, qname) else None) (servers reg).

(** One hook.  The hooks of different servers run in parallel, each on its own
    server, and what they say is put in the order of registration: here they run
    in that order. *)
Definition call_hook (input : Value) (acc : list (string * string) * (McpRegistry * MW)) (target : string * string) :
    list (string * string) * (McpRegistry * MW) :=
  let '(out, rw) := acc in
  let '(server_name, qname) := target in
  match mcp_call qname "hook" input (mkBudget MAX_HOOK_RESULT_BYTES MAX_HOOK_RESULT_BYTES) false rw with
  | (Some (Ok r), (reg, w)) =>
      let reg := put_timeouts (delete server_name (hook_timeouts reg)) reg in
      (if negb (result_is_error r) && negb (Lines.trim_is_empty (result_text r)) then out ++ [(server_name, result_text r)] else out, (reg, w))
  | (Some (Err _), rw) => (out, rw)
  | (None, (reg, w)) =>
      let count := (default 0 (hook_timeouts reg !! server_name) + 1)%N in
      if (2 <=? count)%N then
        let '(reg, w) := kill_server server_name "hook timeout (consecutive)" (reg, w) in
        (out, (put_timeouts (delete server_name (hook_timeouts reg)) reg, w))
      else (out, (put_timeouts (<[server_name := count]> (hook_timeouts reg)) reg, w))
  end.

Definition call_hooks (hook_name : string) (input : Value) (allowed : HookServers) (rw : McpRegistry * MW) : list (string * string) * (McpRegistry * MW) :=
  if hook_is_disabled allowed then ([], rw)
  else fold_left (call_hook input) (hook_targets rw.1 hook_name allowed) ([], rw).
End registry.
