(* ===== verification/AgentMcpTheory.v ===== *)
(** * The tool servers: budgets, names, restarts

    A tool result keeps within its byte budgets and carries the id it was asked
    with, which is what a turn relies on; names resolve to one tool; a server is
    given up after the configured number of failed restarts. *)

From Stdlib Require Import Decimal DecimalFacts DecimalN DecimalString.
From S2P Require Import Prelude Text Json AgentConfig AgentTypes AgentLlm AgentTurn AgentTheory AgentTurnTheory AgentMcp.

(** ** Decimal texts are short *)

Lemma of_uint_acc_lower d acc : (N.pos acc * 10 ^ N.of_nat (Decimal.nb_digits d) <= N.pos (Pos.of_uint_acc d acc))%N.
Proof.
  revert acc. induction d as [|d IH|d IH|d IH|d IH|d IH|d IH|d IH|d IH|d IH|d IH]; intros acc; cbn [Pos.of_uint_acc Decimal.nb_digits]; [cbn; lia|..];
    (etrans; [|apply IH]); rewrite Nat2N.inj_succ, N.pow_succ_r', N.mul_assoc; apply N.mul_le_mono_r; lia.
Qed.

Lemma nil_empty_length d : String.length (NilEmpty.string_of_uint d) = Decimal.nb_digits d.
Proof. induction d; cbn; congruence. Qed.

Lemma decimal_short n : (n <= u64_max)%N -> String.length (u64_to_string n) <= 20.
Proof.
  intros Hn. unfold u64_to_string. assert (Decimal.unorm (N.to_uint n) = N.to_uint n) as Hu.
  { by rewrite <-DecimalN.Unsigned.to_of, DecimalN.Unsigned.of_to. }
  pose proof (DecimalN.Unsigned.of_to n) as Hof. destruct (decide (String.length (NilZero.string_of_uint (N.to_uint n)) <= 20)) as [|Hlong]; [done|].
  exfalso. apply Nat.nle_gt in Hlong.
  assert (forall d acc, N.of_uint (N.to_uint n) = N.pos (Pos.of_uint_acc d acc) -> 20 <= Decimal.nb_digits d -> False) as Hbig.
  { intros d acc E Hd. pose proof (of_uint_acc_lower d acc) as Hl. rewrite <-E, Hof in Hl.
    assert (10 ^ 20 <= 10 ^ N.of_nat (Decimal.nb_digits d))%N by (apply N.pow_le_mono_r; lia). unfold u64_max in Hn.
    assert (18446744073709551615 < 10 ^ 20)%N by done. nia. }
  destruct (N.to_uint n) as [|d|d|d|d|d|d|d|d|d|d] eqn:Ed; cbn in Hlong; rewrite ?nil_empty_length in Hlong;
    try (eapply Hbig; [cbn; reflexivity|lia]); [lia|].
  unfold Decimal.unorm in Hu. cbn [Decimal.nzhead] in Hu. destruct (Decimal.nzhead d) eqn:E; try discriminate Hu.
  - injection Hu as <-. cbn in Hlong. lia.
  - by destruct (nzhead_nonzero d u).
Qed.

(** ** Cuts *)

Lemma str_take_length n s : String.length (str_take n s) = Nat.min n (String.length s).
Proof. unfold str_take. revert s. induction n as [|n IH]; intros [|c s]; cbn; try done. by rewrite IH. Qed.

Lemma substring_length_min n m s : String.length (String.substring n m s) = Nat.min m (String.length s - n).
Proof.
  revert n m. induction s as [|c s IH]; intros [|n] [|m]; cbn; try done; rewrite IH; lia.
Qed.

Lemma str_drop_length n s : String.length (str_drop n s) = String.length s - n.
Proof. unfold str_drop. rewrite substring_length_min. lia. Qed.

Lemma floor_boundary_le s cut : floor_boundary s cut <= cut.
Proof. induction cut as [|cut IH]; cbn [floor_boundary]; [done|]. case_match; lia. Qed.

Lemma ceil_boundary_ge s fuel start : start <= ceil_boundary s fuel start.
Proof. revert start. induction fuel as [|fuel IH]; intros start; cbn [ceil_boundary]; [done|]. case_match; [done|]. specialize (IH (S start)). lia. Qed.

Lemma truncate_at_boundary_len s max : (len (truncate_at_boundary s max) <= max)%N.
Proof.
  unfold truncate_at_boundary. destruct (len s <=? max)%N eqn:E; [lia|]. unfold len. rewrite str_take_length.
  pose proof (floor_boundary_le s (N.to_nat max)). lia.
Qed.

Lemma clamp_len s max : (len (clamp s max) <= max)%N.
Proof.
  unfold clamp. destruct (len s <=? max)%N eqn:E; [lia|]. pose proof (floor_boundary_le s (N.to_nat (max - len MARKER))) as Hf.
  destruct (len MARKER <=? max)%N eqn:Em; rewrite ?len_app; unfold len in *; rewrite str_take_length; lia.
Qed.

Lemma elision_marker_len elided total : (elided <= u64_max)%N -> (total <= u64_max)%N -> (len (elision_marker elided total) <= 96)%N.
Proof.
  intros He Ht. unfold elision_marker. rewrite !len_app. pose proof (decimal_short _ He). pose proof (decimal_short _ Ht).
  change (len nl) with 1%N. change (len "[... ") with 5%N. change (len " of ") with 4%N. change (len " bytes elided from tool result ...]") with 35%N.
  unfold len. lia.
Qed.

(** A text cut in the middle keeps to its budget, and keeps both ends. *)
Lemma truncate_middle_len s max : (len s <= u64_max)%N -> (len (truncate_middle s max) <= max)%N.
Proof.
  intros Hs. unfold truncate_middle. destruct (len s <=? max)%N eqn:E; [lia|]. destruct (_ =? 0)%N eqn:Ek; [apply truncate_at_boundary_len|].
  cbv zeta. set (head := truncate_at_boundary s _). set (tail := str_drop _ s).
  assert (len head <= (max - ELISION_MARKER_ALLOWANCE + 1) / 2)%N as Hh by apply truncate_at_boundary_len.
  assert (len tail <= (max - ELISION_MARKER_ALLOWANCE) / 2)%N as Ht.
  { unfold tail, len. rewrite str_drop_length. generalize ((max - ELISION_MARKER_ALLOWANCE) / 2)%N as k. intros k.
    pose proof (ceil_boundary_ge s (String.length s - (String.length s - N.to_nat k)) (String.length s - N.to_nat k)) as Hge. revert Hge.
    generalize (ceil_boundary s (String.length s - (String.length s - N.to_nat k)) (String.length s - N.to_nat k)) as n. lia. }
  assert (len s - len head - len tail <= u64_max)%N as He by (etrans; [|exact Hs]; lia).
  rewrite !len_app. pose proof (elision_marker_len _ _ He Hs) as Hm.
  unfold ELISION_MARKER_ALLOWANCE in *. apply N.eqb_neq in Ek.
  assert ((max - 128 + 1) / 2 + (max - 128) / 2 <= max - 128)%N by (clear; zify; Z.to_euclidean_division_equations; lia).
  lia.
Qed.

Lemma str_take_prefix n s : exists r, s = str_take n s +:+ r.
Proof.
  unfold str_take. revert n. induction s as [|c s IH]; intros n; [exists EmptyString; by destruct n|].
  destruct n as [|n]; [by exists (String c s)|]. destruct (IH n) as (r & E). exists r. cbn [String.substring]. by rewrite str_app_cons, <-E.
Qed.

(** *** The budgets of a result *)

Definition text_bytes (c : ToolResultContent) : N := match c with TText s => len s | TImage _ _ => 0 end.
Definition content_bytes (l : list ToolResultContent) : N := sum_N (content_estimated_bytes <$> l).
Definition content_text_bytes (l : list ToolResultContent) : N := sum_N (text_bytes <$> l).

Lemma sum_N_app l l' : sum_N (l ++ l') = (sum_N l + sum_N l')%N.
Proof. unfold sum_N. induction l as [|x l IH]; cbn; [done|]. rewrite IH. lia. Qed.

Lemma content_bytes_snoc l c : content_bytes (l ++ [c]) = (content_bytes l + content_estimated_bytes c)%N.
Proof. unfold content_bytes. rewrite fmap_app, sum_N_app. cbn. lia. Qed.

Lemma content_text_bytes_snoc l c : content_text_bytes (l ++ [c]) = (content_text_bytes l + text_bytes c)%N.
Proof. unfold content_text_bytes. rewrite fmap_app, sum_N_app. cbn. lia. Qed.

(** An upper bound on the text a block adds. *)
Definition raw_size (c : RawContent) : N :=
  match c with RawText t => len t + 1 | RawImage data m | RawAudio data m => len data + len m + 512 | RawResourceLink uri => len uri + 512 | RawResource => 512 end.

Definition raw_total (blocks : list RawContent) : N := sum_N (raw_size <$> blocks).

Lemma raw_total_cons c blocks : raw_total (c :: blocks) = (raw_size c + raw_total blocks)%N.
Proof. done. Qed.

Section assembly.
Variables (max_bytes max_text_bytes : N).

Record asm_ok (rest : N) (a : Assembly) : Prop := {
  asm_used : as_used a = content_bytes (as_out a);
  asm_text_used : as_text_used a = content_text_bytes (as_out a);
  asm_bound : (as_used a <= max_bytes)%N;
  asm_text_bound : (as_text_used a <= max_text_bytes)%N;
  asm_memory : (len (as_text a) + rest <= u64_max)%N;
}.

Lemma flush_ok rest a : asm_ok rest a -> asm_ok rest (flush_text max_bytes max_text_bytes a).
Proof.
  intros [Hu Ht Hb Htb Hm]. unfold flush_text. destruct (as_text a) as [|c text] eqn:Ea; [by split; rewrite ?Ea|]. cbv zeta.
  set (budget := N.min _ _). assert (len (String c text) <= u64_max)%N as Hlen by lia. pose proof (truncate_middle_len _ budget Hlen) as Hk.
  set (kept := truncate_middle (String c text) budget) in *. destruct kept as [|k kept']; split; cbn [as_used as_text_used as_out as_text];
    rewrite ?content_bytes_snoc, ?content_text_bytes_snoc; cbn [content_estimated_bytes text_bytes]; change (len EmptyString) with 0%N in *; lia.
Qed.

Lemma append_ok rest s n a : asm_ok (rest + n) a -> (len s + 1 <= n)%N -> asm_ok rest (append_text s a).
Proof.
  intros [Hu Ht Hb Htb Hm] Hs. split; cbn; try done. destruct (as_text a) eqn:Ea; [lia|]. rewrite !len_app. change (len nl) with 1%N. lia.
Qed.

Lemma short_len s : (len (truncate_at_boundary s MARKER_FIELD_MAX) <= 256)%N.
Proof. apply truncate_at_boundary_len. Qed.

Lemma asm_weaken rest rest' a : (rest <= rest')%N -> asm_ok rest' a -> asm_ok rest a.
Proof. intros Hle [? ? ? ? ?]. split; try done. lia. Qed.

Lemma assemble_ok rest a c : asm_ok (rest + raw_size c) a -> asm_ok rest (assemble max_bytes max_text_bytes a c).
Proof.
  intros Ha. assert (raw_size c <= u64_max)%N as Hmem by (destruct Ha; lia). destruct c as [t|data m|data m|uri|]; cbn [assemble].
  - by eapply append_ok; [exact Ha|].
  - apply flush_ok in Ha. set (a' := flush_text _ _ a) in *. destruct (_ <=? _)%N eqn:E.
    + apply (asm_weaken rest) in Ha; [|lia]. destruct Ha as [Hu Ht Hb Htb Hm].
      split; cbn [as_used as_text_used as_out as_text]; rewrite ?content_bytes_snoc, ?content_text_bytes_snoc; cbn [content_estimated_bytes text_bytes] in *; lia.
    + eapply append_ok; [exact Ha|]. rewrite !len_app. pose proof (short_len m). pose proof (decimal_short (len data) ltac:(cbn in *; lia)).
      change (len "[image elided: ") with 15%N. change (len ", ") with 2%N. change (len " base64 bytes exceeds remaining tool-result budget]") with 51%N.
      cbn [raw_size]. unfold len in *. lia.
  - eapply append_ok; [exact Ha|]. rewrite !len_app. pose proof (short_len m). pose proof (decimal_short (len data) ltac:(cbn in *; lia)).
    change (len "[audio elided: ") with 15%N. change (len ", ") with 2%N. change (len " bytes]") with 7%N. cbn [raw_size]. unfold len in *. lia.
  - eapply append_ok; [exact Ha|]. rewrite !len_app. pose proof (short_len uri). change (len "[resource: ") with 11%N. change (len "]") with 1%N.
    cbn [raw_size]. lia.
  - eapply append_ok; [exact Ha|]. done.
Qed.
End assembly.

Lemma tool_result_content_bounded blocks max_bytes max_text_bytes : (raw_total blocks <= u64_max)%N ->
  (content_bytes (tool_result_content blocks max_bytes max_text_bytes) <= max_bytes /\
   content_text_bytes (tool_result_content blocks max_bytes max_text_bytes) <= max_text_bytes)%N.
Proof.
  intros Hm. unfold tool_result_content.
  assert (asm_ok max_bytes max_text_bytes 0 (fold_left (assemble max_bytes max_text_bytes) blocks (mkAssembly [] EmptyString 0 0))) as H.
  { assert (asm_ok max_bytes max_text_bytes (raw_total blocks) (mkAssembly [] EmptyString 0 0)) as H0 by (split; cbn [as_used as_text_used as_out as_text]; change (len EmptyString) with 0%N; [done|done|lia..]).
    revert H0. generalize (mkAssembly [] EmptyString 0 0) as a. clear Hm. induction blocks as [|c blocks IH]; intros a Ha; [done|].
    cbn [fold_left]. apply IH, assemble_ok. eapply asm_weaken; [|exact Ha]. rewrite raw_total_cons. lia. }
  apply flush_ok in H as [Hu Ht Hb Htb _]. by rewrite <-Hu, <-Ht.
Qed.

(** ** Calls *)

Section calls.
Context `{JL : JsonLib, MCP : McpWorld}.

(** What a call, a hook and a kill leave: the names and the servers' specs; only
    the clients and the counts of timeouts change. *)
Record same_static (reg reg' : McpRegistry) : Prop := {
  same_qnames : by_qname reg' = by_qname reg;
  same_defs : defs reg' = defs reg;
  same_specs : srv_spec <$> servers reg' = srv_spec <$> servers reg;
  same_attempts : max_attempts reg' = max_attempts reg;
}.

#[export] Instance same_static_preorder : PreOrder same_static.
Proof. split; [by split|]. intros ? ? ? [] []. split; congruence. Qed.

Lemma alter_specs i c (l : list Server) : srv_spec <$> alter (fun s => mkServer (srv_spec s) c) i l = srv_spec <$> l.
Proof. revert i. induction l as [|s l IH]; intros [|i]; cbn; try done. f_equal. apply IH. Qed.

Lemma set_client_static i c reg : same_static reg (set_client i c reg).
Proof. split; try done. apply alter_specs. Qed.

Lemma put_timeouts_static m reg : same_static reg (put_timeouts m reg).
Proof. by split. Qed.

Lemma mark_dead_static i pgid tools reason rw : same_static rw.1 (mark_dead i pgid tools reason rw).1.
Proof. unfold mark_dead. destruct rw as [reg w]. do 2 case_match. apply set_client_static. Qed.

Lemma kill_server_static name reason rw : same_static rw.1 (kill_server name reason rw).1.
Proof. unfold kill_server. destruct rw as [reg w]. repeat case_match; try done. apply (mark_dead_static _ _ _ _ (reg, w)). Qed.

Lemma mark_current_static i client reason rw : same_static rw.1 (kill_and_mark_dead_if_current i client reason rw).1.
Proof. unfold kill_and_mark_dead_if_current. destruct rw as [reg w]. repeat case_match; try done. apply (mark_dead_static _ _ _ _ (reg, w)). Qed.

Lemma maybe_restart_static i s rw : same_static rw.1 (maybe_restart i s rw).2.1.
Proof. unfold maybe_restart. destruct rw as [reg w]. repeat case_match; try done; apply set_client_static. Qed.

Lemma do_call_static i client b q id args budget cancel rw : same_static rw.1 (do_call i client b q id args budget cancel rw).2.1.
Proof. unfold do_call. destruct rw as [reg w]. repeat case_match; try done; cbn [snd];
  match goal with |- same_static _ (kill_and_mark_dead_if_current ?i ?c ?reason ?rw).1 => apply (mark_current_static i c reason rw) end. Qed.

Lemma call_healthy_static i e q id args budget cancel rw : same_static rw.1 (call_healthy i e q id args budget cancel rw).2.1.
Proof. unfold call_healthy. repeat case_match; try done. apply do_call_static. Qed.

Lemma mcp_call_static q id args budget cancel rw : same_static rw.1 (mcp_call q id args budget cancel rw).2.1.
Proof.
  unfold mcp_call. destruct rw as [reg w]. repeat case_match; try done; try apply (call_healthy_static _ _ _ _ _ _ _ (reg, w));
    match goal with E : maybe_restart ?i ?s ?rw = _ |- _ => pose proof (maybe_restart_static i s rw) as Hs; rewrite E in Hs end; try done.
  etrans; [exact Hs|]. apply call_healthy_static.
Qed.

Lemma call_hook_static input acc target : same_static acc.2.1 (call_hook input acc target).2.1.
Proof.
  unfold call_hook. destruct acc as [out rw], target as [server q].
  pose proof (mcp_call_static q "hook" input (mkBudget MAX_HOOK_RESULT_BYTES MAX_HOOK_RESULT_BYTES) false rw) as Hs.
  destruct (mcp_call q "hook" input _ false rw) as [[[r|e]|] [reg w]]; [by etrans; [exact Hs|]|done|]. cbv zeta. case_match; [|by etrans; [exact Hs|]].
  pose proof (kill_server_static server "hook timeout (consecutive)" (reg, w)) as Hk. destruct (kill_server _ _ _) as [reg' w'].
  etrans; [exact Hs|]. by etrans; [exact Hk|].
Qed.

Lemma call_hooks_static hook input allowed rw : same_static rw.1 (call_hooks hook input allowed rw).2.1.
Proof.
  unfold call_hooks. case_match; [done|]. generalize (hook_targets rw.1 hook allowed) as l. intros l.
  change rw.1 with (@nil (string * string), rw).2.1 at 1. generalize (@nil (string * string), rw) as acc.
  induction l as [|t l IH]; intros acc; [done|]. cbn [fold_left]. etrans; [apply (call_hook_static input acc t)|apply IH].
Qed.

(** A result carries the id it was asked with. *)
Lemma do_call_id i client b q id args budget cancel rw r rw' :
  do_call i client b q id args budget cancel rw = (Some (Ok r), rw') -> result_id r = id.
Proof. unfold do_call. destruct rw as [reg w]. intros E. by repeat (case_match; simplify_eq). Qed.

Lemma call_healthy_id i e q id args budget cancel rw r rw' :
  call_healthy i e q id args budget cancel rw = (Some (Ok r), rw') -> result_id r = id.
Proof. unfold call_healthy. intros E. repeat (case_match; simplify_eq). by eapply do_call_id. Qed.

Lemma mcp_call_id q id args budget cancel rw r rw' : mcp_call q id args budget cancel rw = (Some (Ok r), rw') -> result_id r = id.
Proof. unfold mcp_call. destruct rw as [reg w]. intros E. repeat (case_match; simplify_eq); by eapply call_healthy_id. Qed.

(** What the memory of the process bounds: the size of an answer. *)
Class McpWorldOk : Prop :=
  answer_size client b args cancel w content is_error w' :
    send_call client b args cancel w = (CallResult content is_error, w') -> (raw_total content <= u64_max)%N.

Context `{MOK : McpWorldOk}.

Definition within (budget : ResultBudget) (r : ToolResult) : Prop :=
  (content_text_bytes (result_content r) <= budget_text budget /\ content_bytes (result_content r) <= N.max (budget_text budget) (budget_total budget))%N.

Lemma do_call_within i client b q id args budget cancel rw r rw' :
  do_call i client b q id args budget cancel rw = (Some (Ok r), rw') -> within budget r.
Proof.
  unfold do_call. destruct rw as [reg w]. intros E.
  assert (forall a, (let '(answer, w) := send_call client b a cancel w in
    match answer with
    | CallFailed e false => within budget (mkToolResult id [TText (clamp ("Tool call rejected: " +:+ e) (budget_text budget))] true)
    | CallResult content is_error =>
        within budget (mkToolResult id (tool_result_content content (budget_total budget) (budget_text budget)) (default false is_error))
    | _ => True end)) as H.
  { intros a. destruct (send_call client b a cancel w) as [answer w1] eqn:Es. destruct answer as [content is_error| |e []|e| |]; try done.
    - apply answer_size in Es. destruct (tool_result_content_bounded _ (budget_total budget) (budget_text budget) Es). unfold within. cbn [result_content]. lia.
    - unfold within, content_text_bytes, content_bytes, sum_N. cbn [result_content fmap list_fmap foldr text_bytes content_estimated_bytes].
      pose proof (clamp_len ("Tool call rejected: " +:+ e) (budget_text budget)). lia. }
  destruct args; simplify_eq;
    match type of E with context [send_call _ _ ?a] => specialize (H a); destruct (send_call client b a cancel w) as [[| |? []| | |] ?]; by simplify_eq end.
Qed.

Lemma call_healthy_within i e q id args budget cancel rw r rw' :
  call_healthy i e q id args budget cancel rw = (Some (Ok r), rw') -> within budget r.
Proof. unfold call_healthy. intros E. repeat (case_match; simplify_eq). by eapply do_call_within. Qed.

Lemma mcp_call_within q id args budget cancel rw r rw' : mcp_call q id args budget cancel rw = (Some (Ok r), rw') -> within budget r.
Proof. unfold mcp_call. destruct rw as [reg w]. intros E. repeat (case_match; simplify_eq); by eapply call_healthy_within. Qed.
End calls.

(** ** The registry *)

Definition name_byte (c : ascii) : bool := is_digit c || is_ascii_alphabetic c || Ascii.eqb c "_" || Ascii.eqb c "-".

(** What the providers ask of the name of a tool. *)
Definition provider_name (s : string) : Prop := (0 < len s <= MAX_QNAME_LEN)%N /\ str_forallb name_byte s = true.

Lemma qualified_name server b : valid_name server = true -> valid_name b = true -> (len (qualified server b) <= MAX_QNAME_LEN)%N -> provider_name (qualified server b).
Proof.
  unfold valid_name. intros [_ Hs]%andb_prop [_ Hb]%andb_prop Hl. split.
  - split; [|done]. unfold qualified. rewrite !len_app. change (len SEP) with 2%N. lia.
  - unfold qualified, name_byte. by rewrite !str_forallb_app, Hs, Hb.
Qed.

(** The name of the built-in tool is none of a server's. *)
Lemma load_skill_unqualified server b : qualified server b <> LOAD_SKILL_TOOL.
Proof. unfold qualified, LOAD_SKILL_TOOL, SEP. do 10 (destruct server as [|? server]; [by intros [=]|rewrite str_app_cons; intros [= -> E]; revert E]). by destruct server. Qed.

Section registry_ok.
Context `{JL : JsonLib, MCP : McpWorld}.

Definition def_ok (reg : McpRegistry) (d : ToolDef) : Prop :=
  is_Some (by_qname reg !! tool_name d) /\ (len (tool_description d) <= MAX_DESCRIPTION_BYTES)%N /\
  (tool_schema d = VObject [] \/ (len (json_text (tool_schema d)) <= MAX_SCHEMA_BYTES)%N).

Record reg_ok (reg : McpRegistry) : Prop := {
  reg_names : forall q e, by_qname reg !! q = Some e -> provider_name q /\ exists s, servers reg !! server_idx e = Some s /\ q = qualified (srv_name s) (bare e);
  reg_defs : Forall (def_ok reg) (defs reg);
  reg_nodup : NoDup (tool_name <$> defs reg);
  reg_count : length (defs reg) <= MAX_TOOLS_PER_SESSION;
}.

Lemma specs_lookup (l l' : list Server) i s : srv_spec <$> l' = srv_spec <$> l -> l !! i = Some s -> exists s', l' !! i = Some s' /\ srv_name s' = srv_name s.
Proof.
  intros E Hi. assert ((srv_spec <$> l') !! i = Some (srv_spec s)) as Hi' by (rewrite E, list_lookup_fmap, Hi; done).
  rewrite list_lookup_fmap in Hi'. destruct (l' !! i) as [s'|]; [|done]. exists s'. split; [done|]. unfold srv_name. cbn in Hi'. by injection Hi' as ->.
Qed.

Lemma reg_ok_static reg reg' : same_static reg reg' -> reg_ok reg -> reg_ok reg'.
Proof.
  intros [Hq Hd Hs _] [Hn Hf Hu Hc]. split; rewrite ?Hd; try done.
  - intros q e He. rewrite Hq in He. destruct (Hn q e He) as (Hp & s & Hi & ->). split; [done|]. destruct (specs_lookup _ _ _ _ Hs Hi) as (s' & Hi' & Hname).
    exists s'. by rewrite Hname.
  - eapply Forall_impl; [exact Hf|]. intros d. unfold def_ok. by rewrite Hq.
Qed.

Lemma cap_schema_small v : cap_schema v = VObject [] \/ (len (json_text (cap_schema v)) <= MAX_SCHEMA_BYTES)%N.
Proof. unfold cap_schema. case_match; [right; lia|by left]. Qed.

(** Adding a tool of the server registered last. *)
Lemma add_tool_ok name idx reg t reg' : add_tool name idx reg t = Ok reg' ->
  valid_name name = true -> (exists s, servers reg !! idx = Some s /\ srv_name s = name) -> reg_ok reg -> reg_ok reg' /\ servers reg' = servers reg.
Proof.
  unfold add_tool, ensure. intros E Hname (s & Hs & Hsn) [Hn Hf Hu Hc].
  destruct (_ <? _) eqn:E1 in E; [|done]. apply Nat.ltb_lt in E1. destruct (plain_name _) eqn:E2 in E; [|done].
  destruct (_ <=? _)%N eqn:E3 in E; [|done]. destruct (negb _) eqn:E4 in E; [|done]. cbn in E. injection E as <-.
  apply negb_true_iff, bool_decide_eq_false in E4. set (q := qualified name (rt_name t)) in *.
  assert (forall d, d ∈ defs reg -> tool_name d <> q) as Hfresh.
  { intros d Hd Eq. rewrite Forall_forall in Hf. destruct (Hf d Hd) as [Hin _]. by rewrite Eq in Hin. }
  split; [|done]. split; cbn [by_qname defs servers].
  - intros q' e. destruct (decide (q' = q)) as [->|Hne].
    + rewrite lookup_insert_eq. intros [= <-]. split; [|exists s; by rewrite Hsn].
      apply qualified_name; [done| |apply N.leb_le, E3]. by apply andb_prop in E2 as [? _].
    + rewrite lookup_insert_ne by done. apply Hn.
  - apply Forall_app. split.
    + apply Forall_forall. intros d Hd. unfold def_ok. cbn [by_qname]. rewrite lookup_insert_ne by (intros ?; by eapply Hfresh). rewrite Forall_forall in Hf. by apply Hf.
    + constructor; [|done]. unfold def_ok. cbn. rewrite lookup_insert_eq. split_and!; [done|apply clamp_len|apply cap_schema_small].
  - rewrite fmap_app. apply NoDup_app. split_and!; [done| |apply NoDup_singleton]. intros x (d & -> & Hd)%list_elem_of_fmap Hq%list_elem_of_singleton.
    by apply (Hfresh d Hd).
  - rewrite length_app. cbn. lia.
Qed.

Lemma add_tools_ok name idx l reg reg' : fold_res (add_tool name idx) reg l = Ok reg' ->
  valid_name name = true -> (exists s, servers reg !! idx = Some s /\ srv_name s = name) -> reg_ok reg -> reg_ok reg'.
Proof.
  revert reg. induction l as [|t l IH]; intros reg E Hname Hs Hr; cbn in E; [by injection E as <-|].
  destruct (add_tool name idx reg t) as [reg1|e] eqn:E1; [|done]. cbn in E. destruct (add_tool_ok _ _ _ _ _ E1 Hname Hs Hr) as [Hr1 Hs1].
  apply (IH _ E); [done|by rewrite Hs1|done].
Qed.

Lemma add_server_ok cwd reg s w reg' w' : add_server cwd reg s w = (Ok reg', w') -> reg_ok reg -> reg_ok reg'.
Proof.
  unfold add_server. destruct (negb (plain_name _)) eqn:Ep; [done|]. destruct (existsb _ _); [done|].
  destruct (spawn_one _ w) as [[[[client pgid] raw]|e] w1]; [|done]. cbv zeta. destruct (fold_res _ _ _) as [reg1|e] eqn:E; [|done]. intros [= <- <-] [Hn Hf Hu Hc].
  eapply add_tools_ok; [exact E| |eexists; split; [apply list_lookup_middle; done|done]|].
  - apply negb_false_iff, andb_prop in Ep as [? _]. done.
  - split; cbn [by_qname defs servers]; try done. intros q e He. destruct (Hn q e He) as (? & s' & Hi & ?). split; [done|]. exists s'. split; [|done]. by apply lookup_app_l_Some.
Qed.

Lemma spawn_all_ok cfg l cwd w reg w' : spawn_all cfg l cwd w = (Ok reg, w') -> reg_ok reg.
Proof.
  unfold spawn_all. case_match; [done|]. set (reg0 := mkRegistry _ _ _ _ _ _ _). assert (reg_ok reg0) as H0.
  { split; cbn; [by intros ? ? ?|constructor|constructor|unfold MAX_TOOLS_PER_SESSION; lia]. }
  clearbody reg0. clear H. revert reg0 w H0. induction l as [|s l IH]; intros reg0 w H0 E; cbn in E; [by injection E as -> ->|].
  destruct (add_server cwd reg0 s w) as [[reg1|e] w1] eqn:E1; [|done]. eapply IH; [|exact E]. by eapply add_server_ok.
Qed.

(** *** What happens to a registry *)

Inductive mcp_step : McpRegistry * MW -> McpRegistry * MW -> Prop :=
| step_call q id args budget cancel rw : mcp_step rw (mcp_call q id args budget cancel rw).2
| step_hooks hook input allowed rw : mcp_step rw (call_hooks hook input allowed rw).2
| step_kill name reason rw : mcp_step rw (kill_server name reason rw)
| step_time reg w w' : mcp_step (reg, w) (reg, w').

Lemma mcp_steps_static rw rw' : rtc mcp_step rw rw' -> same_static rw.1 rw'.1.
Proof.
  induction 1 as [|rw rw1 rw' Hstep _ IH]; [done|]. etrans; [|exact IH]. destruct Hstep.
  - apply mcp_call_static.
  - apply call_hooks_static.
  - apply kill_server_static.
  - done.
Qed.

Lemma tools_sublist reg : tools reg `sublist_of` defs reg.
Proof.
  unfold tools. generalize (fun d => match by_qname reg !! tool_name d with Some e => negb (is_hook_name (bare e)) && available reg e | None => false end) as f.
  intros f. induction (defs reg) as [|d l IH]; cbn; [constructor|]. destruct (f d); by constructor.
Qed.

(** Every tool offered is one that can be called: it has an entry, which is no hook. *)
Lemma tools_callable reg d : d ∈ tools reg -> d ∈ defs reg /\ has reg (tool_name d) = true /\ is_hook reg (tool_name d) = false.
Proof.
  unfold tools, has, is_hook. rewrite list_elem_of_In, List.filter_In, <-list_elem_of_In. intros [Hd H]. destruct (by_qname reg !! tool_name d) as [e|]; [|done].
  apply andb_prop in H as [Hh _]. apply negb_true_iff in Hh. split_and!; [done|by apply bool_decide_eq_true_2|done].
Qed.
End registry_ok.
