(* ===== verification/AgentSessions.v ===== *)
(** * The sessions of the coding agent

    [buzz-agent/src/lib.rs]: the loop that reads requests, the handlers of the
    session methods, and the tasks they spawn; of [wire.rs] the reading of a line
    and of [catalog.rs] what is advertised when discovery fails.  A task is
    stepped from one point where it waits for the lock of the sessions, or for
    the run of a turn, to the next. *)

From S2P Require Import Prelude Text Json AgentConfig AgentTypes AgentLlm AgentTurn AgentMcp.

(** ** Reading lines *)

(** The bytes up to and with the first newline, and those after it. *)
Fixpoint take_line (chunk : string) : string * string :=
  match chunk with
  | EmptyString => (EmptyString, EmptyString)
  | String c chunk => if Ascii.eqb c Lines.newline then (String c EmptyString, chunk) else let '(a, b) := take_line chunk in (String c a, b)
  end.

Section reading.
Context `{LL : LlmLib}.

(** [String::from_utf8]: the lossy reading of a text changes nothing. *)
Definition from_utf8 (s : string) : option string := if String.eqb (utf8_lossy s) s then Some s else None.

(** The loop over the chunks of the input, none of them empty. *)
Fixpoint read_bounded_line (max : N) (buf : string) (chunks : list string) : result string (option string) * list string :=
  match chunks with
  | [] => (Ok None, [])
  | chunk :: rest =>
      let '(taken, after) := take_line chunk in
      if (max <? len buf + len taken)%N then (Err ("io: line exceeds max (" +:+ u64_to_string max +:+ " bytes)"), chunks)
      else
        let buf := buf +:+ taken in
        match Lines.strip_suffix_char Lines.newline buf with
        | Some line =>
            let chunks := match after with EmptyString => rest | _ => after :: rest end in
            match from_utf8 (default line (Lines.strip_suffix_char Lines.carriage_return line)) with
            | Some s => (Ok (Some s), chunks)
            | None => (Err "io: frame contains invalid UTF-8", chunks)
            end
        | None => read_bounded_line max buf rest
        end
  end.
End reading.

(** ** Parameters *)

Record SessionNewParams := mkNewParams { np_cwd : string; np_servers : list McpServerStdio; np_system_prompt : option string }.
Record SessionPromptParams := mkPromptParams { pp_session : string; pp_prompt : list ContentBlock }.
Record SessionSteerParams := mkSteerParams { sp_session : string; sp_prompt : list ContentBlock; sp_expected : string }.
Record SessionSetModelParams := mkModelParams { mp_session : string; mp_model : string }.

(** What [serde] derives for the parameters, with the text of its errors. *)
Class WireParams := {
  decode_initialize : Value -> result string N;
  decode_new : Value -> result string SessionNewParams;
  decode_prompt : Value -> result string SessionPromptParams;
  decode_cancel : Value -> result string string;
  decode_steer : Value -> result string SessionSteerParams;
  decode_set_model : Value -> result string SessionSetModelParams;
}.

Record ModelEntry := mkModelEntry { model_id : string; model_name : string }.

Definition DATABRICKS_V2_KNOWN_MODELS : list string := ["databricks-gpt-5-5"; "databricks-claude-opus-4-7"].

Definition discovery_failure_fallback (p : Provider) (configured_model : string) : list ModelEntry :=
  let configured_model := trim configured_model in
  let configured := mkModelEntry configured_model configured_model in
  match p with
  | DatabricksV2 =>
      (if String.eqb configured_model EmptyString then [] else [configured])
      ++ ((fun id => mkModelEntry id id) <$> filter (fun id => id <> configured_model) DATABRICKS_V2_KNOWN_MODELS)
  | _ => [configured]
  end.

(** What a session takes from its surroundings: its tool servers, as the tools of
    a turn; the hints and skills below its directory; the catalog of a
    Databricks workspace; random bytes. *)
Class SessionWorld `{AW : AgentWorld} := {
  Registry : Type;
  Skill : Type;
  spawn_servers : Config -> list McpServerStdio -> string -> World -> result AgentError Registry * World;
  drop_servers : Registry -> World -> World;
  toolbox : Registry -> list Skill -> ToolBox;
  build_hints_section : string -> World -> string * list Skill * World;
  discover_models : Config -> World -> result AgentError (list ModelEntry) * World;
  token_bytes : World -> result string (list N) * World;
}.

Section sessions.
Context `{JL : JsonLib, LL : LlmLib, AW : AgentWorld, WP : WireParams, SW : !SessionWorld}.
Variable cfg : Config.

(** [cancel_tx] is the value last sent on the channel; [steer_tx] what is queued. *)
Record Session := mkSession {
  mcp : Registry;
  skills : list Skill;
  ses_history : list HistoryItem;
  cancel_tx : bool;
  busy : bool;
  active_run_id : option string;
  steer_tx : option (list (list ContentBlock));
  ses_original_task : option string;
  ses_handoff_count : N;
  ses_input_tokens : option N;
  ses_history_bytes : option N;
  effective_system_prompt : string;
  ses_model : option string;
  accumulated_input_tokens : N;
  accumulated_output_tokens : N;
}.

(** A turn, with what it took from its session. *)
Record Turn := mkTurn {
  tn_id : Value;
  tn_session : string;
  tn_mcp : Registry;
  tn_skills : list Skill;
  tn_system_prompt : string;
  tn_model : string;
  tn_prompt : list ContentBlock;
  tn_ctx : RunCtx;
}.

Inductive Task :=
| NewAsked (id params : Value)
| NewChecked (id : Value) (p : SessionNewParams)
| NewInserted (id : Value) (session : string)
| PromptAsked (id params : Value)
| PromptAcquired (t : Turn)
| PromptReturned (t : Turn) (r : result AgentError StopReason)
| PromptReleased (t : Turn) (r : result AgentError StopReason)
| TaskOver.

Record App := mkApp {
  sessions : gmap string Session;
  models_cache : option (list ModelEntry);
  tasks : list Task;
  app_world : World;
  app_upgraded : bool;
  app_mesh : MeshAutoState;
  app_nonce : N;
  (** what is left to read, and the lines read *)
  input : list string;
  reading : bool;
  lines_read : list string;
  (** the frames the handlers sent, and the effects of each turn *)
  out : list Value;
  turns : list (string * list Effect);
}.

Definition put_sessions (m : gmap string Session) (a : App) : App :=
  mkApp m (models_cache a) (tasks a) (app_world a) (app_upgraded a) (app_mesh a) (app_nonce a) (input a) (reading a) (lines_read a) (out a) (turns a).
Definition put_cache (c : option (list ModelEntry)) (a : App) : App :=
  mkApp (sessions a) c (tasks a) (app_world a) (app_upgraded a) (app_mesh a) (app_nonce a) (input a) (reading a) (lines_read a) (out a) (turns a).
Definition put_tasks (l : list Task) (a : App) : App :=
  mkApp (sessions a) (models_cache a) l (app_world a) (app_upgraded a) (app_mesh a) (app_nonce a) (input a) (reading a) (lines_read a) (out a) (turns a).
Definition put_app_world (w : World) (a : App) : App :=
  mkApp (sessions a) (models_cache a) (tasks a) w (app_upgraded a) (app_mesh a) (app_nonce a) (input a) (reading a) (lines_read a) (out a) (turns a).
Definition send (v : Value) (a : App) : App :=
  mkApp (sessions a) (models_cache a) (tasks a) (app_world a) (app_upgraded a) (app_mesh a) (app_nonce a) (input a) (reading a) (lines_read a)
    (out a ++ [v]) (turns a).

Definition spawn (t : Task) (a : App) : App := put_tasks (tasks a ++ [t]) a.
Definition reject (id : Value) (code : Z) (message : string) (a : App) : App := send (wire_err id code message) a.

(** [format!("{x:02x}")]. *)
Definition hex_byte (x : N) : string := String (hex_digit (x / 16)) (String (hex_digit (x mod 16)) EmptyString).

Definition AGENT_VERSION : string := "0.1.0".

Definition session_token (a : App) : result string string * App :=
  let '(bytes, w) := token_bytes (app_world a) in
  (match bytes with Ok b => Ok (join_str EmptyString (hex_byte <$> b)) | Err e => Err ("rng: getrandom failed: " +:+ e) end, put_app_world w a).

(** ** Handlers that end at once *)

Definition info_update : list (string * Value) := [("sessionUpdate", VString "session_info_update")].

Definition initialize (id params : Value) (a : App) : App :=
  match decode_initialize params with
  | Err e => reject id INVALID_PARAMS ("initialize: " +:+ e) a
  | Ok version =>
      send (wire_ok id (VObject [
        ("protocolVersion", VNumber (PosInt (N.min version PROTOCOL_VERSION)));
        ("agentCapabilities", VObject [
          ("loadSession", VBool false);
          ("promptCapabilities", VObject [("image", VBool false); ("audio", VBool false); ("embeddedContext", VBool false)]);
          ("mcpCapabilities", VObject [("http", VBool false); ("sse", VBool false)])]);
        ("agentInfo", VObject [("name", VString "buzz-agent"); ("version", VString AGENT_VERSION)])])) a
  end.

Definition put_cancel (s : Session) : Session :=
  mkSession (mcp s) (skills s) (ses_history s) true (busy s) (active_run_id s) (steer_tx s) (ses_original_task s) (ses_handoff_count s)
    (ses_input_tokens s) (ses_history_bytes s) (effective_system_prompt s) (ses_model s) (accumulated_input_tokens s) (accumulated_output_tokens s).

Definition cancel_session (params : Value) (a : App) : App :=
  match decode_cancel params with
  | Ok sid => put_sessions (alter put_cancel sid (sessions a)) a
  | Err _ => a
  end.

Definition put_model (m : string) (s : Session) : Session :=
  mkSession (mcp s) (skills s) (ses_history s) (cancel_tx s) (busy s) (active_run_id s) (steer_tx s) (ses_original_task s) (ses_handoff_count s)
    (ses_input_tokens s) (ses_history_bytes s) (effective_system_prompt s) (Some m) (accumulated_input_tokens s) (accumulated_output_tokens s).

Definition set_model_session (id params : Value) (a : App) : App :=
  match decode_set_model params with
  | Err e => reject id INVALID_PARAMS ("session/set_model: " +:+ e) a
  | Ok p =>
      if Lines.trim_is_empty (mp_model p) then reject id INVALID_PARAMS "session/set_model: modelId must not be empty" a
      else match sessions a !! mp_session p with
           | None => reject id INVALID_PARAMS "session/set_model: unknown session" a
           | Some s =>
               send (wire_ok id (VObject [("sessionId", VString (mp_session p)); ("modelId", VString (mp_model p))]))
                 (put_sessions (<[mp_session p := put_model (mp_model p) s]> (sessions a)) a)
           end
  end.

Definition put_steers (q : option (list (list ContentBlock))) (s : Session) : Session :=
  mkSession (mcp s) (skills s) (ses_history s) (cancel_tx s) (busy s) (active_run_id s) q (ses_original_task s) (ses_handoff_count s)
    (ses_input_tokens s) (ses_history_bytes s) (effective_system_prompt s) (ses_model s) (accumulated_input_tokens s) (accumulated_output_tokens s).

Definition steer_session (id params : Value) (a : App) : App :=
  match decode_steer params with
  | Err e => reject id INVALID_PARAMS ("_goose/unstable/session/steer: " +:+ e) a
  | Ok p =>
      if bool_decide (sp_prompt p = []) then reject id INVALID_PARAMS "steer: prompt must not be empty" a
      else if String.eqb (sp_expected p) EmptyString then reject id INVALID_PARAMS "steer: expectedRunId must not be empty" a
      else
        let '(token, a) := session_token a in
        let message_id := "steer_" +:+ match token with Ok t => t | Err _ => "x" end in
        match sessions a !! sp_session p with
        | None => reject id INVALID_PARAMS "steer: unknown session" a
        | Some s =>
            match active_run_id s with
            | None => reject id INVALID_PARAMS "steer: no active run to steer" a
            | Some active =>
                if negb (String.eqb active (sp_expected p)) then
                  reject id INVALID_PARAMS ("steer: expected active run id `" +:+ sp_expected p +:+ "` but found `" +:+ active +:+ "`") a
                else
                  match steer_tx s with
                  | None => reject id INVALID_PARAMS "steer: no active run to steer" a
                  | Some q =>
                      send (session_update_with_goose_meta (sp_session p) info_update
                              (VObject [("queuedSteer", VObject [("messageId", VString message_id); ("runId", VString active)])]))
                        (send (wire_ok id (VObject [("runId", VString active); ("messageId", VString message_id)]))
                          (put_sessions (<[sp_session p := put_steers (Some (q ++ [sp_prompt p])) s]> (sessions a)) a))
                  end
            end
        end
  end.

(** ** [session/new] *)

Definition at_capacity (a : App) : bool := (max_sessions cfg <=? N.of_nat (size (sessions a)))%N.

(** [Path::is_absolute]; an empty path is not. *)
Definition is_absolute (p : string) : bool := starts_with p "/".

Definition new_check (id params : Value) (a : App) : Task * App :=
  match decode_new params with
  | Err e => (TaskOver, reject id INVALID_PARAMS ("session/new: " +:+ e) a)
  | Ok p =>
      if negb (is_absolute (np_cwd p)) then (TaskOver, reject id INVALID_PARAMS "session/new: cwd must be an absolute path" a)
      else if at_capacity a then (TaskOver, reject id INVALID_PARAMS "session/new: max sessions reached" a)
      else (NewChecked id p, a)
  end.

Definition base_prompt (p : SessionNewParams) : string :=
  match np_system_prompt p with
  | Some client_prompt => if negb (Lines.trim_is_empty client_prompt) then client_prompt else system_prompt cfg
  | None => system_prompt cfg
  end.

Definition with_hints (base hints : string) : string :=
  if String.eqb hints EmptyString then base else base +:+ nl +:+ nl +:+ hints.

Definition new_session (reg : Registry) (sk : list Skill) (prompt : string) : Session :=
  mkSession reg sk [] false false None None None 0 None None prompt None 0 0.

(** From the hints to the session in the map. *)
Definition new_insert (id : Value) (p : SessionNewParams) (a : App) : Task * App :=
  let '(hints, sk, w) := if hints_enabled cfg then build_hints_section (np_cwd p) (app_world a) else (EmptyString, [], app_world a) in
  let prompt := with_hints (base_prompt p) hints in
  if (MAX_SYSTEM_PROMPT_BYTES <? len prompt)%N then
    (TaskOver, reject id INVALID_PARAMS ("session/new: combined system prompt exceeds " +:+ u64_to_string (MAX_SYSTEM_PROMPT_BYTES / 1024)
       +:+ "KB limit (" +:+ u64_to_string (len prompt) +:+ " bytes)") (put_app_world w a))
  else
    match spawn_servers cfg (np_servers p) (np_cwd p) w with
    | (Err e, w) => (TaskOver, reject id (json_rpc_code e) (agent_error_text e) (put_app_world w a))
    | (Ok reg, w) =>
        match session_token (put_app_world w a) with
        | (Err e, a) => (TaskOver, reject id (-32000) e (put_app_world (drop_servers reg (app_world a)) a))
        | (Ok token, a) =>
            if at_capacity a then
              (TaskOver, reject id INVALID_PARAMS "session/new: max sessions reached" (put_app_world (drop_servers reg (app_world a)) a))
            else
              let sid := "ses_" +:+ token in
              (NewInserted id sid, put_sessions (<[sid := new_session reg sk prompt]> (sessions a)) a)
        end
    end.

(** [resolve_models_catalog]: a discovery that fails is not kept. *)
Definition resolve_models_catalog (a : App) : list ModelEntry * App :=
  match models_cache a with
  | Some cached => (cached, a)
  | None =>
      match discover_models cfg (app_world a) with
      | (Ok models, w) => (models, put_cache (Some models) (put_app_world w a))
      | (Err _, w) => (discovery_failure_fallback (provider cfg) (cfg_model cfg), put_app_world w a)
      end
  end.

Definition available_models (a : App) : list ModelEntry * App :=
  match provider cfg with
  | Databricks | DatabricksV2 => resolve_models_catalog a
  | _ => ([mkModelEntry (cfg_model cfg) (cfg_model cfg)], a)
  end.

Definition new_answer (id : Value) (sid : string) (a : App) : Task * App :=
  let '(models, a) := available_models a in
  (TaskOver, send (wire_ok id (VObject [
     ("sessionId", VString sid);
     ("models", VObject [
       ("currentModelId", VString (cfg_model cfg));
       ("availableModels", VArray ((fun m => VObject [("modelId", VString (model_id m)); ("name", VString (model_name m))]) <$> models))])])) a).

(** ** [session/prompt] *)

Definition acquire (run_id : string) (s : Session) : Session :=
  mkSession (mcp s) (skills s) [] false true (Some run_id) (Some []) None (ses_handoff_count s)
    (ses_input_tokens s) (ses_history_bytes s) (effective_system_prompt s) (ses_model s) (accumulated_input_tokens s) (accumulated_output_tokens s).

(** What a turn takes from its session. *)
Definition turn_of (id : Value) (p : SessionPromptParams) (s : Session) : Turn :=
  mkTurn id (pp_session p) (mcp s) (skills s) (effective_system_prompt s) (default (cfg_model cfg) (ses_model s)) (pp_prompt p)
    (mkRunCtx (ses_history s) (ses_original_task s) (ses_handoff_count s) (ses_input_tokens s) (ses_history_bytes s) None None 0).

Definition acquire_session (id : Value) (p : SessionPromptParams) (a : App) : result string (string * Turn) * App :=
  match sessions a !! pp_session p with
  | None => (Err "unknown session", a)
  | Some s =>
      if busy s then (Err "prompt already in flight", a)
      else
        let '(token, a) := session_token a in
        let run_id := "run_" +:+ match token with Ok t => t | Err _ => "x" end in
        (Ok (run_id, turn_of id p s), put_sessions (<[pp_session p := acquire run_id s]> (sessions a)) a)
  end.

Definition prompt_acquire (id params : Value) (a : App) : Task * App :=
  match decode_prompt params with
  | Err e => (TaskOver, reject id INVALID_PARAMS ("session/prompt: " +:+ e) a)
  | Ok p =>
      match acquire_session id p a with
      | (Err reason, a) => (TaskOver, reject id INVALID_PARAMS ("session/prompt: " +:+ reason) a)
      | (Ok (run_id, t), a) =>
          (PromptAcquired t,
           send (session_update_with_goose_meta (pp_session p) info_update (VObject [("activeRunId", VString run_id)])) a)
      end
  end.

Definition with_nonce (n : N) (c : RunCtx) : RunCtx := put_nonce n c.
Definition put_ctx (c : RunCtx) (t : Turn) : Turn :=
  mkTurn (tn_id t) (tn_session t) (tn_mcp t) (tn_skills t) (tn_system_prompt t) (tn_model t) (tn_prompt t) c.

Definition turn_env (t : Turn) : RunEnv :=
  mkRunEnv cfg (tn_model t) (tn_session t) (tn_system_prompt t) (negb (bool_decide (tn_skills t = []))).

(** The state a turn starts in: its channel may have been cancelled already. *)
Definition turn_proc (t : Turn) (a : App) : Proc :=
  mkProc (app_world a) (match sessions a !! tn_session t with Some s => cancel_tx s | None => false end) (app_upgraded a) (app_mesh a) [].

Definition after_turn (sid : string) (c : RunCtx) (p : Proc) (a : App) : App :=
  mkApp (sessions a) (models_cache a) (tasks a) (world p) (auto_upgraded p) (mesh_auto_state p) (nonce c) (input a) (reading a) (lines_read a)
    (out a) (turns a ++ [(sid, log p)]).

(** [ctx.run(p.prompt).await]; out of fuel the turn goes on. *)
Definition prompt_run (fuel : nat) (t : Turn) (a : App) : Task * App :=
  match run (TB := toolbox (tn_mcp t) (tn_skills t)) (turn_env t) fuel (tn_prompt t) (with_nonce (app_nonce a) (tn_ctx t)) (turn_proc t a) with
  | (Returned r, c, p) => (PromptReturned (put_ctx c t) r, after_turn (tn_session t) c p a)
  | (OutOfRounds, _, _) => (PromptAcquired t, a)
  end.

Definition release (c : RunCtx) (s : Session) : Session :=
  mkSession (mcp s) (skills s) (history c) (cancel_tx s) false None None (original_task c) (handoff_count c)
    (last_request_input_tokens c) (last_request_history_bytes c) (effective_system_prompt s) (ses_model s)
    (accumulated_input_tokens s) (accumulated_output_tokens s).

Definition prompt_release (t : Turn) (r : result AgentError StopReason) (a : App) : Task * App :=
  (PromptReleased t r, put_sessions (alter (release (tn_ctx t)) (tn_session t) (sessions a)) a).

Definition accumulate (c : RunCtx) (s : Session) : Session :=
  mkSession (mcp s) (skills s) (ses_history s) (cancel_tx s) (busy s) (active_run_id s) (steer_tx s) (ses_original_task s) (ses_handoff_count s)
    (ses_input_tokens s) (ses_history_bytes s) (effective_system_prompt s) (ses_model s)
    (N.min (accumulated_input_tokens s + default 0 (turn_input_tokens c)) u64_max)%N
    (N.min (accumulated_output_tokens s + default 0 (turn_output_tokens c)) u64_max)%N.

Definition usage_update (t : Turn) (s : Session) : Value :=
  let i := accumulated_input_tokens s in
  let o := accumulated_output_tokens s in
  goose_session_update (tn_session t) (VObject [
    ("sessionUpdate", VString "usage_update"); ("used", VNumber (PosInt (N.min (i + o) u64_max))); ("contextLimit", VNumber (PosInt 0));
    ("accumulatedInputTokens", VNumber (PosInt i)); ("accumulatedOutputTokens", VNumber (PosInt o)); ("model", VString (tn_model t))]).

Definition report_usage (t : Turn) (a : App) : App :=
  let c := tn_ctx t in
  if bool_decide (is_Some (turn_input_tokens c)) || bool_decide (is_Some (turn_output_tokens c)) then
    match sessions a !! tn_session t with
    | Some s => send (usage_update t (accumulate c s)) (put_sessions (<[tn_session t := accumulate c s]> (sessions a)) a)
    | None => a
    end
  else a.

Definition prompt_answer (t : Turn) (r : result AgentError StopReason) (a : App) : Task * App :=
  (TaskOver,
   let a := report_usage t a in
   match r with
   | Ok stop => send (wire_ok (tn_id t) (VObject [("stopReason", VString (stop_as_wire stop))])) a
   | Err e => reject (tn_id t) (json_rpc_code e) (agent_error_text e) a
   end).

(** ** Tasks and requests *)

Definition step_task (fuel : nat) (t : Task) (a : App) : Task * App :=
  match t with
  | NewAsked id params => new_check id params a
  | NewChecked id p => new_insert id p a
  | NewInserted id sid => new_answer id sid a
  | PromptAsked id params => prompt_acquire id params a
  | PromptAcquired t => prompt_run fuel t a
  | PromptReturned t r => prompt_release t r a
  | PromptReleased t r => prompt_answer t r a
  | TaskOver => (TaskOver, a)
  end.

Definition task_step (fuel k : nat) (a : App) : App :=
  match tasks a !! k with
  | Some t => let '(t, a) := step_task fuel t a in put_tasks (<[k := t]> (tasks a)) a
  | None => a
  end.

Definition handle_request (id : Value) (method : string) (params : Value) (a : App) : App :=
  if String.eqb method "initialize" then initialize id params a
  else if String.eqb method "session/new" then spawn (NewAsked id params) a
  else if String.eqb method "session/prompt" then spawn (PromptAsked id params) a
  else if String.eqb method "session/set_model" then set_model_session id params a
  else if String.eqb method "session/cancel" then send (wire_ok id VNull) (cancel_session params a)
  else if String.eqb method "_goose/unstable/session/steer" then steer_session id params a
  else reject id METHOD_NOT_FOUND ("jsonrpc: method not found: " +:+ method) a.

Definition handle_notification (method : string) (params : Value) (a : App) : App :=
  if String.eqb method "session/cancel" then cancel_session params a else a.

Definition dispatch (msg : Value) (a : App) : App :=
  match classify msg with
  | Request id method params => handle_request id method params a
  | Notification method params => handle_notification method params a
  | Ignored => a
  | Invalid id code message => reject id code message a
  end.

Definition handle_line (line : string) (a : App) : App :=
  if Lines.trim_is_empty line then a
  else match json_parse line with
       | Ok msg => dispatch msg a
       | Err e => reject VNull PARSE_ERROR ("jsonrpc: parse: " +:+ e) a
       end.

(** One turn of [read_loop]; at its end the turns in flight are cancelled. *)
Definition read_step (a : App) : App :=
  if negb (reading a) then a
  else
    let '(line, rest) := read_bounded_line (max_line_bytes cfg) EmptyString (input a) in
    let after := fun reading lines =>
      mkApp (sessions a) (models_cache a) (tasks a) (app_world a) (app_upgraded a) (app_mesh a) (app_nonce a) rest reading lines (out a) (turns a) in
    match line with
    | Ok (Some line) => handle_line line (after true (lines_read a ++ [line]))
    | _ => let a := after false (lines_read a) in put_sessions (put_cancel <$> sessions a) a
    end.

Definition app_start (w : World) (chunks : list string) : App :=
  mkApp ∅ None [] w false (mkMesh None 0 false None) 0 chunks true [] [] [].

(** What happens in the process, in any order. *)
Inductive Event := EvRead | EvTask (fuel k : nat) | EvWorld (w : World).

Definition app_step (a : App) (e : Event) : App :=
  match e with
  | EvRead => read_step a
  | EvTask fuel k => task_step fuel k a
  | EvWorld w => put_app_world w a
  end.

Definition exec (a : App) (l : list Event) : App := fold_left app_step l a.
End sessions.
