(* ===== verification/AgentSessionsTheory.v ===== *)
(** * The sessions of the coding agent: turns, histories, answers

    Whatever is read and however the tasks interleave: a session has at most one
    turn, an idle session a history whose calls are all answered, and every
    request is answered once. *)

From S2P Require Import Prelude Text Json AgentConfig AgentTypes AgentLlm AgentTurn AgentTheory AgentTurnTheory AgentMcp AgentMcpTheory AgentSessions.

Section sessions.
Context `{JL : JsonLib, LL : LlmLib, AW : AgentWorld, WP : WireParams, SW : !SessionWorld}.
Variable cfg : Config.

(** ** Turns and histories *)

(** The session whose turn a task is. *)
Definition owner (t : Task) : option string :=
  match t with PromptAcquired t | PromptReturned t _ => Some (tn_session t) | _ => None end.

Definition ctx_ok (c : RunCtx) : Prop := paired (history c) /\ (handoff_count c <= max_handoffs cfg)%N.

Definition task_ok (t : Task) : Prop := match t with PromptAcquired t | PromptReturned t _ => ctx_ok (tn_ctx t) | _ => True end.

Definition session_ok (s : Session) : Prop :=
  (ses_handoff_count s <= max_handoffs cfg)%N /\
  if busy s then is_Some (active_run_id s) /\ is_Some (steer_tx s) else active_run_id s = None /\ steer_tx s = None /\ paired (ses_history s).

Definition turn_ok (l : list Effect) : Prop :=
  Forall post_ok l /\ owed l = ∅ /\ ((0 < max_rounds cfg <= u32_max)%N -> posts l <= 48 * N.to_nat (max_rounds cfg)).

Record state_ok (m : gmap string Session) (l : list Task) (r : list (string * list Effect)) : Prop := {
  so_size : (N.of_nat (size m) <= max_sessions cfg)%N;
  so_sessions : forall sid s, m !! sid = Some s -> session_ok s;
  so_tasks : forall k t, l !! k = Some t -> task_ok t;
  so_owner : forall k t sid, l !! k = Some t -> owner t = Some sid -> exists s, m !! sid = Some s /\ busy s = true;
  so_owned : forall sid s, m !! sid = Some s -> busy s = true -> exists k t, l !! k = Some t /\ owner t = Some sid;
  so_unique : forall k k' t t' sid, l !! k = Some t -> l !! k' = Some t' -> owner t = Some sid -> owner t' = Some sid -> k = k';
  so_turns : Forall (fun x => turn_ok x.2) r;
}.

Definition app_ok (a : App) : Prop := state_ok (sessions a) (tasks a) (turns a).

(** Changes of a session that leave its turn alone. *)
Record gentle (s s' : Session) : Prop := {
  g_busy : busy s' = busy s;
  g_history : ses_history s' = ses_history s;
  g_run : active_run_id s' = active_run_id s;
  g_steer : is_Some (steer_tx s') <-> is_Some (steer_tx s);
  g_handoffs : ses_handoff_count s' = ses_handoff_count s;
}.

Lemma gentle_ok s s' : gentle s s' -> session_ok s -> session_ok s'.
Proof.
  intros [Hb Hh Hr Hs Hc] [Hn H]. split; [by rewrite Hc|]. rewrite Hb. destruct (busy s); rewrite Hr.
  - destruct H. split; [done|by apply Hs].
  - destruct H as (? & Hq & ?). rewrite Hh. split_and!; [done| |done]. rewrite Hq in Hs. destruct (steer_tx s') as [q|]; [|done].
    destruct Hs as [Hs _]. by destruct Hs as [? [=]].
Qed.

Lemma state_gentle m m' l r : state_ok m l r -> (forall i, option_Forall2 gentle (m !! i) (m' !! i)) -> state_ok m' l r.
Proof.
  intros [Hz Hs Ht Ho Hd Hu Hr] Hg. split; try done.
  - assert (dom m' = dom m) as E.
    { apply set_eq. intros i. rewrite !elem_of_dom. destruct (Hg i); split; intros [? ?]; try done; by eexists. }
    by rewrite <-size_dom, E, size_dom.
  - intros sid s' E. specialize (Hg sid). rewrite E in Hg. destruct (m !! sid) as [s|] eqn:Es; inversion Hg as [? ? Hss|]; subst. eapply gentle_ok; [done|]. by eapply Hs.
  - intros k t sid Hk Hk'. destruct (Ho _ _ _ Hk Hk') as (s & Es & Hb). specialize (Hg sid). rewrite Es in Hg. destruct (m' !! sid) as [s'|] eqn:Es'; inversion Hg as [? ? Hss|]; subst.
    exists s'. split; [done|]. by rewrite (g_busy _ _ Hss).
  - intros sid s' E Hb. specialize (Hg sid). rewrite E in Hg. destruct (m !! sid) as [s|] eqn:Es; inversion Hg as [? ? Hss|]; subst. eapply Hd; [done|]. by rewrite <-(g_busy _ _ Hss).
Qed.

Lemma gentle_refl s : gentle s s.
Proof. by split. Qed.

Lemma option_gentle (o : option Session) : option_Forall2 gentle o o.
Proof. destruct o; constructor. apply gentle_refl. Qed.

Lemma state_insert m l r sid s s' : state_ok m l r -> m !! sid = Some s -> gentle s s' -> state_ok (<[sid := s']> m) l r.
Proof.
  intros H E Hg. eapply state_gentle; [done|]. intros i. destruct (decide (i = sid)) as [->|]; [rewrite lookup_insert_eq, E; by constructor|].
  rewrite lookup_insert_ne by done. apply option_gentle.
Qed.

Lemma state_alter m l r sid f : state_ok m l r -> (forall s, gentle s (f s)) -> state_ok (alter f sid m) l r.
Proof.
  intros H Hg. eapply state_gentle; [done|]. intros i. destruct (decide (i = sid)) as [->|].
  - rewrite lookup_alter_eq. destruct (m !! sid); constructor. apply Hg.
  - rewrite lookup_alter_ne by done. apply option_gentle.
Qed.

Lemma state_spawn m l r t : state_ok m l r -> owner t = None -> task_ok t -> state_ok m (l ++ [t]) r.
Proof.
  intros [Hz Hs Ht Ho Hd Hu Hr] Hn Htk.
  assert (forall k t' sid, (l ++ [t]) !! k = Some t' -> owner t' = Some sid -> l !! k = Some t') as Hold.
  { intros k t' sid [E|[_ E]]%lookup_app_Some Et'; [done|]. apply list_lookup_singleton_Some in E as [_ <-]. congruence. }
  split; try done.
  - intros k t' [E|[_ E]]%lookup_app_Some; [by eapply Ht|]. by apply list_lookup_singleton_Some in E as [_ <-].
  - intros k t' sid E Et'. eapply Ho; [by eapply Hold|done].
  - intros sid s Es Hb. destruct (Hd _ _ Es Hb) as (k & t' & E & ?). exists k, t'. split; [by apply lookup_app_l_Some|done].
  - intros k k' t1 t2 sid E1 E2 O1 O2. eapply Hu; [by eapply Hold|by eapply Hold|done..].
Qed.

(** A task goes on, with the same turn or none. *)
Lemma state_move m l r k t t' : state_ok m l r -> l !! k = Some t -> owner t' = owner t -> task_ok t' -> state_ok m (<[k := t']> l) r.
Proof.
  intros [Hz Hs Ht Ho Hd Hu Hr] Hk Hown Htk.
  assert (forall j x sid, <[k := t']> l !! j = Some x -> owner x = Some sid -> exists y, l !! j = Some y /\ owner y = Some sid) as Hold.
  { intros j x sid E Ex. destruct (decide (j = k)) as [->|]; [|rewrite list_lookup_insert_ne in E by done; by exists x].
    rewrite list_lookup_insert_eq in E by (by eapply lookup_lt_Some). injection E as <-. exists t. split; [done|congruence]. }
  split; try done.
  - intros j x E. destruct (decide (j = k)) as [->|]; [|rewrite list_lookup_insert_ne in E by done; by eapply Ht].
    rewrite list_lookup_insert_eq in E by (by eapply lookup_lt_Some). by injection E as <-.
  - intros j x sid E Ex. destruct (Hold _ _ _ E Ex) as (y & ? & ?). by eapply Ho.
  - intros sid s Es Hb. destruct (Hd _ _ Es Hb) as (j & x & E & Ex). destruct (decide (j = k)) as [->|].
    + exists k, t'. rewrite list_lookup_insert_eq by (by eapply lookup_lt_Some). split; [done|congruence].
    + exists j, x. by rewrite list_lookup_insert_ne.
  - intros j j' x x' sid E E' Ex Ex'. destruct (Hold _ _ _ E Ex) as (y & ? & ?), (Hold _ _ _ E' Ex') as (y' & ? & ?). by eapply Hu.
Qed.

Lemma state_new m l r sid s : state_ok m l r -> m !! sid = None -> (N.of_nat (size m) < max_sessions cfg)%N -> session_ok s -> busy s = false ->
  state_ok (<[sid := s]> m) l r.
Proof.
  intros [Hz Hs Ht Ho Hd Hu Hr] Hn Hlt Hok Hb. split; try done.
  - rewrite map_size_insert_None by done. lia.
  - intros i s' [[<- <-]|[Hi E]]%lookup_insert_Some; [done|by eapply Hs].
  - intros k t i Hk Hi. destruct (Ho _ _ _ Hk Hi) as (s' & Es & ?). exists s'. split; [|done]. rewrite lookup_insert_ne; [done|]. intros ->. congruence.
  - intros i s' [[<- <-]|[Hi E]]%lookup_insert_Some Hb'; [congruence|by eapply Hd].
Qed.

(** A task takes the turn of an idle session. *)
Lemma state_acquire m l r sid s s' k t t' : state_ok m l r -> m !! sid = Some s -> busy s = false -> l !! k = Some t -> owner t = None ->
  busy s' = true -> session_ok s' -> owner t' = Some sid -> task_ok t' -> state_ok (<[sid := s']> m) (<[k := t']> l) r.
Proof.
  intros [Hz Hs Ht Ho Hd Hu Hr] Es Hb Hk Hn Hb' Hok Ho' Htk. assert (k < length l) as Hlen by (by eapply lookup_lt_Some).
  assert (forall j x i, <[k := t']> l !! j = Some x -> owner x = Some i -> (j = k /\ i = sid) \/ (j <> k /\ l !! j = Some x /\ i <> sid)) as Hcase.
  { intros j x i E Ex. destruct (decide (j = k)) as [->|Hne].
    - rewrite list_lookup_insert_eq in E by done. injection E as <-. left. split; congruence.
    - rewrite list_lookup_insert_ne in E by done. right. split_and!; [done..|]. intros ->. destruct (Ho _ _ _ E Ex) as (? & ? & ?). congruence. }
  split; try done.
  - rewrite map_size_insert_Some by (by eexists). done.
  - intros i x [[<- <-]|[Hi E]]%lookup_insert_Some; [done|by eapply Hs].
  - intros j x E. destruct (decide (j = k)) as [->|]; [|rewrite list_lookup_insert_ne in E by done; by eapply Ht].
    rewrite list_lookup_insert_eq in E by done. by injection E as <-.
  - intros j x i E Ex. destruct (Hcase _ _ _ E Ex) as [[-> ->]|(? & E' & ?)]; [exists s'; by rewrite lookup_insert_eq|].
    destruct (Ho _ _ _ E' Ex) as (y & ? & ?). exists y. by rewrite lookup_insert_ne.
  - intros i x [[<- <-]|[Hi E]]%lookup_insert_Some Hbx; [exists k, t'; by rewrite list_lookup_insert_eq|].
    destruct (Hd _ _ E Hbx) as (j & y & Ej & Ey). exists j, y. split; [|done]. rewrite list_lookup_insert_ne; [done|]. intros ->. congruence.
  - intros j j' x x' i E E' Ex Ex'. destruct (Hcase _ _ _ E Ex) as [[-> ->]|(? & E1 & ?)], (Hcase _ _ _ E' Ex') as [[-> ?]|(? & E2 & ?)]; try done.
    by eapply Hu.
Qed.

(** A task gives its turn back. *)
Lemma state_release m l r sid f k t t' : state_ok m l r -> l !! k = Some t -> owner t = Some sid -> owner t' = None -> task_ok t' ->
  (forall s, busy (f s) = false) -> (forall s, session_ok (f s)) -> state_ok (alter f sid m) (<[k := t']> l) r.
Proof.
  intros [Hz Hs Ht Ho Hd Hu Hr] Hk Hown Hn Htk Hfb Hfo. assert (k < length l) as Hlen by (by eapply lookup_lt_Some).
  assert (forall j x i, <[k := t']> l !! j = Some x -> owner x = Some i -> l !! j = Some x /\ i <> sid) as Hcase.
  { intros j x i E Ex. destruct (decide (j = k)) as [->|Hne]; [rewrite list_lookup_insert_eq in E by done; injection E as <-; congruence|].
    rewrite list_lookup_insert_ne in E by done. split; [done|]. intros ->. apply Hne. by eapply Hu. }
  split; try done.
  - rewrite <-size_dom, dom_alter_L, size_dom. done.
  - intros i x. destruct (decide (i = sid)) as [->|]; [|rewrite lookup_alter_ne by done; apply Hs].
    rewrite lookup_alter_eq. intros (y & _ & ->)%fmap_Some. apply Hfo.
  - intros j x E. destruct (decide (j = k)) as [->|]; [|rewrite list_lookup_insert_ne in E by done; by eapply Ht].
    rewrite list_lookup_insert_eq in E by done. by injection E as <-.
  - intros j x i E Ex. destruct (Hcase _ _ _ E Ex) as [E' ?]. destruct (Ho _ _ _ E' Ex) as (y & ? & ?). exists y. by rewrite lookup_alter_ne.
  - intros i x E Hb. destruct (decide (i = sid)) as [->|].
    + rewrite lookup_alter_eq in E. apply fmap_Some in E as (y & _ & ->). by rewrite Hfb in Hb.
    + rewrite lookup_alter_ne in E by done. destruct (Hd _ _ E Hb) as (j & y & Ej & Ey). exists j, y. split; [|done].
      rewrite list_lookup_insert_ne; [done|]. intros ->. congruence.
  - intros j j' x x' i E E' Ex Ex'. destruct (Hcase _ _ _ E Ex), (Hcase _ _ _ E' Ex'). by eapply Hu.
Qed.

Lemma state_turn m l r x : state_ok m l r -> turn_ok x.2 -> state_ok m l (r ++ [x]).
Proof. intros [? ? ? ? ? ? ?] Hx. split; try done. apply Forall_app. split; [done|]. by apply Forall_singleton. Qed.

(** *** The handlers *)

Lemma session_token_same a r a' : session_token a = (r, a') ->
  sessions a' = sessions a /\ tasks a' = tasks a /\ turns a' = turns a /\ out a' = out a /\ lines_read a' = lines_read a.
Proof. unfold session_token. destruct (token_bytes _) as [b w]. by intros [= <- <-]. Qed.

Lemma cancel_session_ok params a : app_ok a -> app_ok (cancel_session params a).
Proof. intros H. unfold cancel_session. case_match; [|done]. by apply state_alter. Qed.

Lemma set_model_ok id params a : app_ok a -> app_ok (set_model_session id params a).
Proof. intros H. unfold set_model_session. repeat case_match; try done. unfold app_ok in *. cbn. by eapply state_insert. Qed.

Lemma steer_ok id params a : app_ok a -> app_ok (steer_session id params a).
Proof.
  intros H. unfold steer_session. destruct (decode_steer params) as [p|e]; [|done]. do 2 (case_match; [done|]).
  destruct (session_token a) as [token a1] eqn:E. apply session_token_same in E as (Es & Et & Er & _). cbv zeta. assert (app_ok a1) as Ha1 by (unfold app_ok; by rewrite Es, Et, Er).
  destruct (sessions a1 !! sp_session p) as [s|] eqn:E1; [|done]. destruct (active_run_id s) as [run|]; [|done]. case_match; [done|].
  destruct (steer_tx s) as [q|] eqn:Eq; [|done]. unfold app_ok in *. cbn. eapply state_insert; [exact Ha1|exact E1|]. by split.
Qed.

Lemma initialize_ok id params a : app_ok a -> app_ok (initialize id params a).
Proof. intros H. unfold initialize. by case_match. Qed.

Lemma handle_line_ok line a : app_ok a -> app_ok (handle_line line a).
Proof.
  intros H. unfold handle_line, dispatch, handle_notification, handle_request.
  repeat match goal with |- context [match ?x with _ => _ end] => destruct x end; try done;
    eauto using cancel_session_ok, set_model_ok, steer_ok, initialize_ok; try (by apply state_spawn).
  by apply cancel_session_ok.
Qed.

Lemma read_step_ok a : app_ok a -> app_ok (read_step cfg a).
Proof.
  intros H. unfold read_step. case_match; [done|]. destruct (read_bounded_line _ _ _) as [line rest]. cbv zeta.
  destruct line as [[line|]|e]; [by apply handle_line_ok|..]; (eapply state_gentle; [exact H|]; intros i; cbn; rewrite lookup_fmap;
    destruct (sessions a !! i); constructor; by split).
Qed.

(** *** The tasks *)

Context {TBO : forall r sk, ToolBoxOk (TB := toolbox r sk)}.

Lemma prompt_run_ok fuel t a t' a' : prompt_run cfg fuel t a = (t', a') -> app_ok a -> ctx_ok (tn_ctx t) ->
  task_ok t' /\ owner t' = Some (tn_session t) /\ sessions a' = sessions a /\ tasks a' = tasks a /\
  (turns a' = turns a \/ exists x, turns a' = turns a ++ [x] /\ turn_ok x.2).
Proof.
  unfold prompt_run. destruct (run _ _ _ _ _) as [[[r|] c] p] eqn:E; intros [= <- <-] H [Hp Hh]; [|split_and!; try done; by left].
  pose proof (TBO (tn_mcp t) (tn_skills t)) as Hok.
  apply (run_spec (TB := toolbox (tn_mcp t) (tn_skills t)) (turn_env cfg t) (TBO := Hok)) in E as [[Hp' Ho Hr Hh'] Hb];
    [|split; [done|done|constructor|done]]. split_and!; try done. right.
  exists (tn_session t, log p). split; [done|]. split_and!; [done|done|]. intros Hm. by destruct (Hb Hm) as [Hreq _].
Qed.

(** Random names do not repeat: the session a task is about to insert is new. *)
Definition fresh_at (a : App) (e : Event) : Prop :=
  match e with
  | EvTask _ k => forall id p id' sid, tasks a !! k = Some (NewChecked id p) -> (new_insert cfg id p a).1 = NewInserted id' sid -> sessions a !! sid = None
  | _ => True
  end.

Fixpoint fresh_run (a : App) (l : list Event) : Prop :=
  match l with [] => True | e :: l => fresh_at a e /\ fresh_run (app_step cfg a e) l end.

Definition fresh_atb (a : App) (e : Event) : bool :=
  match e with
  | EvTask _ k =>
      match tasks a !! k with
      | Some (NewChecked id p) =>
          match (new_insert cfg id p a).1 with NewInserted _ sid => match sessions a !! sid with None => true | Some _ => false end | _ => true end
      | _ => true
      end
  | _ => true
  end.

Fixpoint fresh_runb (a : App) (l : list Event) : bool := match l with [] => true | e :: l => fresh_atb a e && fresh_runb (app_step cfg a e) l end.

Lemma fresh_runb_ok a l : fresh_runb a l = true -> fresh_run a l.
Proof.
  revert a. induction l as [|e l IH]; intros a; [done|]. intros [He Hl]%andb_prop. split; [|by apply IH]. destruct e as [|fuel k|w]; [done| |done].
  intros id p id' sid Hk Hi. cbn in He. rewrite Hk, Hi in He. by destruct (sessions a !! sid).
Qed.

Lemma new_check_same id params a t' a' : new_check cfg id params a = (t', a') ->
  owner t' = None /\ task_ok t' /\ sessions a' = sessions a /\ tasks a' = tasks a /\ turns a' = turns a.
Proof. unfold new_check. by repeat case_match; intros [= <- <-]. Qed.

Lemma new_insert_spec id p a t' a' : new_insert cfg id p a = (t', a') ->
  owner t' = None /\ task_ok t' /\ tasks a' = tasks a /\ turns a' = turns a /\
  (sessions a' = sessions a \/ exists id' sid reg sk prompt, t' = NewInserted id' sid /\ sessions a' = <[sid := new_session reg sk prompt]> (sessions a) /\
     at_capacity cfg a = false).
Proof.
  unfold new_insert. destruct (if hints_enabled cfg then _ else _) as [[hints sk] w]. cbv zeta. case_match; [intros [= <- <-]; split_and!; try done; by left|].
  destruct (spawn_servers _ _ _ _) as [[reg|e] w1]; [|intros [= <- <-]; split_and!; try done; by left].
  destruct (session_token _) as [[token|e] a1] eqn:Et; apply session_token_same in Et as (Es & Etk & Etu & _);
    [|intros [= <- <-]; rewrite <-?Es, <-?Etk, <-?Etu; split_and!; try done; by left].
  destruct (at_capacity cfg a1) eqn:Ec; intros [= <- <-]; split_and!; try done; [by left|].
  right. do 5 eexists. split_and!; [done|cbn; by rewrite Es|]. unfold at_capacity in *. by rewrite Es in Ec.
Qed.

Lemma new_answer_same id sid a t' a' : new_answer cfg id sid a = (t', a') ->
  t' = TaskOver /\ sessions a' = sessions a /\ tasks a' = tasks a /\ turns a' = turns a.
Proof. unfold new_answer, available_models, resolve_models_catalog. by repeat (case_match; simplify_eq); intros [= <- <-]. Qed.

Lemma prompt_acquire_ok id params a k t' a' : prompt_acquire cfg id params a = (t', a') -> tasks a !! k = Some (PromptAsked id params) -> app_ok a ->
  state_ok (sessions a') (<[k := t']> (tasks a')) (turns a').
Proof.
  unfold prompt_acquire, acquire_session. intros E Hk H.
  assert (forall a1, sessions a1 = sessions a -> tasks a1 = tasks a -> turns a1 = turns a -> state_ok (sessions a1) (<[k := TaskOver]> (tasks a1)) (turns a1)) as Hover.
  { intros a1 -> -> ->. by eapply state_move. }
  destruct (decode_prompt params) as [p|e]; [|injection E as <- <-; by apply Hover].
  destruct (sessions a !! pp_session p) as [s|] eqn:Es; [|injection E as <- <-; by apply Hover].
  destruct (busy s) eqn:Eb; [injection E as <- <-; by apply Hover|].
  destruct (session_token a) as [token a1] eqn:Et. apply session_token_same in Et as (E1 & E2 & E3 & _). cbv zeta in E. injection E as <- <-. cbn. rewrite E1, E2, E3.
  pose proof (so_sessions _ _ _ H _ _ Es) as [Hh Hs]. rewrite Eb in Hs.
  eapply state_acquire; [exact H|exact Es|done|exact Hk|done|done| |done|]; split; try done. apply Hs.
Qed.

Lemma app_step_ok a e : app_ok a -> fresh_at a e -> app_ok (app_step cfg a e).
Proof.
  intros H Hf. destruct e as [|fuel k|w]; cbn [app_step]; [by apply read_step_ok| |done].
  unfold task_step. destruct (tasks a !! k) as [t|] eqn:Hk; [|done]. destruct (step_task cfg fuel t a) as [t' a'] eqn:E. unfold app_ok. cbn [sessions tasks turns put_tasks].
  destruct t as [id params|id p|id sid|id params|t|t r|t r|]; cbn [step_task] in E.
  - apply new_check_same in E as (Ho & Ht & -> & -> & ->). by eapply state_move.
  - pose proof E as E'. apply new_insert_spec in E as (Ho & Ht & -> & -> & Hs). assert (state_ok (sessions a) (<[k := t']> (tasks a)) (turns a)) as Hm by (by eapply state_move).
    destruct Hs as [->|(id' & sid & reg & sk & prompt & -> & -> & Hc)]; [done|]. apply state_new; try done.
    + eapply Hf; [exact Hk|]. by rewrite E'.
    + unfold at_capacity in Hc. lia.
    + split; [cbn; lia|]. cbn. split_and!; [done..|constructor].
  - apply new_answer_same in E as (-> & -> & -> & ->). by eapply state_move.
  - by eapply prompt_acquire_ok.
  - pose proof (so_tasks _ _ _ H _ _ Hk) as Hc. apply prompt_run_ok in E as (Ht & Ho & -> & -> & Hr); [|done..].
    assert (state_ok (sessions a) (<[k := t']> (tasks a)) (turns a)) as Hm by (by eapply state_move). destruct Hr as [->|(x & -> & Hx)]; [done|]. by apply state_turn.
  - injection E as <- <-. cbn. pose proof (so_tasks _ _ _ H _ _ Hk) as [Hp Hh]. eapply state_release; [exact H|exact Hk|done..|]. by intros s.
  - injection E as <- <-. assert (state_ok (sessions (report_usage t a)) (<[k := TaskOver]> (tasks (report_usage t a))) (turns (report_usage t a))) as Hm; [|by destruct r].
    unfold report_usage. case_match; [|by eapply state_move]. destruct (sessions a !! tn_session t) as [s|] eqn:Es; [|by eapply state_move].
    eapply state_insert; [by eapply state_move|exact Es|done].
  - injection E as <- <-. by eapply state_move.
Qed.

Lemma app_start_ok w chunks : app_ok (app_start w chunks).
Proof. split; try done. apply N.le_0_l. Qed.

Lemma exec_ok a l : app_ok a -> fresh_run a l -> app_ok (exec cfg a l).
Proof.
  revert a. induction l as [|e l IH]; intros a H Hf; [done|]. destruct Hf as [Hf Hl]. apply IH; [|done]. by apply app_step_ok.
Qed.

(** ** Answers *)

(** The request a frame answers. *)
Definition reply_id (v : Value) : option Value :=
  match field "result" v, field "error" v with None, None => None | _, _ => field "id" v end.

Definition replies (l : list Value) : list Value := omap reply_id l.

(** What a line asks an answer for. *)
Definition asked (line : string) : list Value :=
  if Lines.trim_is_empty line then []
  else match json_parse line with
       | Ok msg => match classify msg with Request id _ _ | Invalid id _ _ => [id] | _ => [] end
       | Err _ => [VNull]
       end.

(** The request a task has still to answer. *)
Definition waiting (t : Task) : list Value :=
  match t with
  | NewAsked id _ | NewChecked id _ | NewInserted id _ | PromptAsked id _ => [id]
  | PromptAcquired t | PromptReturned t _ | PromptReleased t _ => [tn_id t]
  | TaskOver => []
  end.

(** [a'] comes from [a] by answering the requests [ids]. *)
Definition sent (ids : list Value) (a a' : App) : Prop :=
  replies (out a') = replies (out a) ++ ids /\ tasks a' = tasks a /\ lines_read a' = lines_read a.

Lemma sent_same a a' : out a' = out a -> tasks a' = tasks a -> lines_read a' = lines_read a -> sent [] a a'.
Proof. intros E1 E2 E3. split_and!; [by rewrite E1, app_nil_r|done..]. Qed.

Lemma sent_trans l l' a a' a'' : sent l a a' -> sent l' a' a'' -> sent (l ++ l') a a''.
Proof. intros (E1 & E2 & E3) (F1 & F2 & F3). split_and!; [by rewrite F1, E1, app_assoc|congruence..]. Qed.

Lemma sent_frame v a : sent (option_list (reply_id v)) a (send v a).
Proof. split_and!; [|done..]. cbn. unfold replies. rewrite omap_app. cbn. by destruct (reply_id v). Qed.

Lemma sent_reply v ids a a' : sent ids a a' -> sent (ids ++ option_list (reply_id v)) a (send v a').
Proof. intros H. eapply sent_trans; [exact H|apply sent_frame]. Qed.

Lemma sent_token a r a' : session_token a = (r, a') -> sent [] a a'.
Proof. intros (_ & E1 & _ & E2 & E3)%session_token_same. by apply sent_same. Qed.

(** A frame sent on a state that only differs where nothing is sent. *)
Lemma sent_final v id a a' : reply_id v = Some id -> sent [] a a' -> sent [id] a (send v a').
Proof. intros E H. apply (sent_reply v) in H. by rewrite E in H. Qed.

Lemma sent_notice v ids a a' : reply_id v = None -> sent ids a a' -> sent ids a (send v a').
Proof. intros E H. apply (sent_reply v) in H. by rewrite E, app_nil_r in H. Qed.

Ltac answered := first [apply sent_final; [done|]; first [done | by apply sent_same] | by apply sent_same].

Lemma initialize_sent id params a : sent [id] a (initialize id params a).
Proof. unfold initialize. case_match; answered. Qed.

Lemma cancel_sent params a : sent [] a (cancel_session params a).
Proof. unfold cancel_session. case_match; answered. Qed.

Lemma set_model_sent id params a : sent [id] a (set_model_session id params a).
Proof. unfold set_model_session. repeat case_match; answered. Qed.

Lemma steer_sent id params a : sent [id] a (steer_session id params a).
Proof.
  unfold steer_session. destruct (decode_steer params) as [p|e]; [|answered]. do 2 (case_match; [answered|]).
  destruct (session_token a) as [token a1] eqn:E. apply sent_token in E. cbv zeta. repeat (case_match; try answered).
  all: apply sent_notice; [done|]; by apply sent_final.
Qed.

(** What a line does: it answers at once or leaves a task. *)
Lemma handle_line_sent line a : exists l,
  tasks (handle_line line a) = tasks a ++ l /\ lines_read (handle_line line a) = lines_read a /\
  replies (out (handle_line line a)) ++ (l ≫= waiting) = replies (out a) ++ asked line.
Proof.
  assert (forall ids a', sent ids a a' -> exists l, tasks a' = tasks a ++ l /\ lines_read a' = lines_read a /\
    replies (out a') ++ (l ≫= waiting) = replies (out a) ++ ids) as Hs.
  { intros ids a' (E1 & E2 & E3). exists []. cbn. by rewrite !app_nil_r. }
  unfold handle_line, asked, dispatch. case_match; [by apply Hs, sent_same|]. destruct (json_parse line) as [msg|e]; [|by apply Hs, sent_final, sent_same].
  destruct (classify msg) as [id method params|method params| |id code message]; [| |by apply Hs, sent_same|by apply Hs, sent_final, sent_same].
  - unfold handle_request. case_match; [apply Hs, initialize_sent|]. case_match; [by exists [NewAsked id params]|]. case_match; [by exists [PromptAsked id params]|].
    case_match; [apply Hs, set_model_sent|]. case_match; [apply Hs, sent_final, cancel_sent; done|]. case_match; [apply Hs, steer_sent|by apply Hs, sent_final, sent_same].
  - unfold handle_notification. case_match; [apply Hs, cancel_sent|by apply Hs, sent_same].
Qed.

Lemma models_sent a : sent [] a (available_models cfg a).2.
Proof. unfold available_models, resolve_models_catalog. by repeat case_match; apply sent_same. Qed.

Lemma step_task_sent fuel t a t' a' : step_task cfg fuel t a = (t', a') -> exists ids, sent ids a a' /\ ids ++ waiting t' = waiting t.
Proof.
  destruct t as [id params|id p|id sid|id params|t|t r|t r|]; cbn [step_task waiting]; intros E.
  - unfold new_check in E. repeat case_match; injection E as <- <-; eexists; (split; [answered|done]).
  - unfold new_insert in E. destruct (if hints_enabled cfg then _ else _) as [[hints sk] w]. cbv zeta in E. case_match; [injection E as <- <-; eexists; (split; [answered|done])|].
    destruct (spawn_servers _ _ _ _) as [[reg|e] w1]; [|injection E as <- <-; eexists; (split; [answered|done])].
    destruct (session_token _) as [[token|e] a1] eqn:Et; apply sent_token in Et; [case_match|]; injection E as <- <-; eexists;
      (split; [first [apply sent_final; [done|exact Et] | exact Et]|done]).
  - unfold new_answer in E. pose proof (models_sent a) as Hm. destruct (available_models cfg a) as [models a1]. injection E as <- <-. exists [id]. split; [by apply sent_final|done].
  - unfold prompt_acquire, acquire_session in E. destruct (decode_prompt params) as [p|e]; [|injection E as <- <-; eexists; (split; [answered|done])].
    destruct (sessions a !! pp_session p) as [s|]; [|injection E as <- <-; eexists; (split; [answered|done])].
    destruct (busy s); [injection E as <- <-; eexists; (split; [answered|done])|].
    destruct (session_token a) as [token a1] eqn:Et. apply sent_token in Et. injection E as <- <-. exists []. split; [|done]. by apply sent_notice.
  - exists []. unfold prompt_run in E. destruct (run _ _ _ _ _) as [[[r|] c] p]; injection E as <- <-; (split; [answered|done]).
  - injection E as <- <-. exists []. split; [answered|done].
  - injection E as <- <-. exists [tn_id t]. split; [|done]. assert (sent [] a (report_usage t a)) as Hu.
    { unfold report_usage. case_match; [|answered]. case_match; [|answered]. apply sent_notice; [done|answered]. }
    by destruct r; apply sent_final.
  - injection E as <- <-. exists []. split; [answered|done].
Qed.

Definition answered_once (a : App) : Prop := replies (out a) ++ (tasks a ≫= waiting) ≡ₚ lines_read a ≫= asked.

Lemma bind_insert_perm (l : list Task) k t t' ids : l !! k = Some t -> ids ++ waiting t' = waiting t -> ids ++ (<[k := t']> l ≫= waiting) ≡ₚ l ≫= waiting.
Proof.
  revert k. induction l as [|x l IH]; intros [|k] Hk E; [done..| |]; cbn in *.
  - injection Hk as ->. by rewrite app_assoc, E.
  - rewrite <-(IH k) by done. rewrite !app_assoc. by rewrite (Permutation_app_comm ids).
Qed.

Lemma app_step_answered a e : answered_once a -> answered_once (app_step cfg a e).
Proof.
  unfold answered_once. intros H. destruct e as [|fuel k|w]; cbn [app_step]; [| |done].
  - unfold read_step. case_match; [done|]. destruct (read_bounded_line _ _ _) as [line rest]. cbv zeta. destruct line as [[line|]|e]; [|done..].
    set (a1 := mkApp _ _ _ _ _ _ _ _ _ _ _ _). destruct (handle_line_sent line a1) as (l & E1 & E2 & E3). rewrite E1, E2, bind_app, app_assoc.
    rewrite <-app_assoc, (Permutation_app_comm (tasks a1 ≫= waiting)), app_assoc, E3. cbn [lines_read a1]. rewrite bind_app. cbn. rewrite app_nil_r, <-H.
    cbn. rewrite <-!app_assoc. by rewrite (Permutation_app_comm (asked line)).
  - unfold task_step. destruct (tasks a !! k) as [t|] eqn:Hk; [|done]. destruct (step_task cfg fuel t a) as [t' a'] eqn:E.
    apply step_task_sent in E as (ids & (E1 & E2 & E3) & Ew). cbn [out tasks lines_read put_tasks]. rewrite E1, E2, E3, <-H, <-app_assoc. apply Permutation_app_head. by eapply bind_insert_perm.
Qed.

Lemma app_start_answered w chunks : answered_once (app_start w chunks).
Proof. by unfold answered_once. Qed.

Lemma exec_answered a l : answered_once a -> answered_once (exec cfg a l).
Proof. revert a. induction l as [|e l IH]; intros a H; [done|]. by apply IH, app_step_answered. Qed.

(** ** Tasks end *)

Definition task_rank (t : Task) : nat :=
  match t with
  | PromptAsked _ _ => 4
  | NewAsked _ _ | PromptAcquired _ => 3
  | NewChecked _ _ | PromptReturned _ _ => 2
  | NewInserted _ _ | PromptReleased _ _ => 1
  | TaskOver => 0
  end.

(** A step of task [k] that leaves its turn the rounds it may take. *)
Definition is_step (k : nat) (e : Event) : bool :=
  match e with EvTask fuel j => (j =? k) && (N.to_nat (max_rounds cfg) <? fuel) | _ => false end.

Hypothesis Hrounds : (0 < max_rounds cfg <= u32_max)%N.

Lemma step_task_rank fuel t a t' a' : step_task cfg fuel t a = (t', a') -> task_ok t ->
  task_rank t' <= task_rank t /\ (N.to_nat (max_rounds cfg) < fuel -> t <> TaskOver -> task_rank t' < task_rank t).
Proof.
  destruct t as [id params|id p|id sid|id params|t|t r|t r|]; cbn [step_task]; intros E Hok.
  - unfold new_check in E. repeat case_match; injection E as <- <-; cbn; lia.
  - unfold new_insert in E. repeat (case_match; try lia); injection E as <- <-; cbn; lia.
  - unfold new_answer in E. repeat case_match. injection E as <- <-. cbn. lia.
  - unfold prompt_acquire in E. repeat case_match; injection E as <- <-; cbn; lia.
  - unfold prompt_run in E. destruct (run _ _ _ _ _) as [[[r|] c] p] eqn:Er; injection E as <- <-; [cbn; lia|]. split; [done|]. intros Hf. destruct Hok as [Hp Hh].
    apply (run_spec (TB := toolbox (tn_mcp t) (tn_skills t)) (turn_env cfg t) (TBO := TBO (tn_mcp t) (tn_skills t))) in Er as [_ Hb];
      [|split; [done|done|constructor|done]]. by destruct (Hb Hrounds) as [_ Hn]; destruct (Hn Hf).
  - injection E as <- <-. cbn. lia.
  - injection E as <- <-. cbn. lia.
  - injection E as <- <-. split; done.
Qed.

Lemma handle_line_tasks line a k t : tasks a !! k = Some t -> tasks (handle_line line a) !! k = Some t.
Proof. intros Hk. destruct (handle_line_sent line a) as (l & -> & _). by apply lookup_app_l_Some. Qed.

Lemma app_step_rank a e k t : app_ok a -> tasks a !! k = Some t ->
  exists t', tasks (app_step cfg a e) !! k = Some t' /\ task_rank t' <= task_rank t /\ (is_step k e = true -> task_rank t' <= task_rank t - 1).
Proof.
  intros H Hk. destruct e as [|fuel j|w]; cbn [app_step is_step]; [|destruct (decide (j = k)) as [->|Hne]|by exists t].
  - exists t. split; [|done]. unfold read_step. case_match; [done|]. destruct (read_bounded_line _ _ _) as [line rest]. cbv zeta.
    destruct line as [[line|]|e]; [by apply handle_line_tasks|done..].
  - unfold task_step. rewrite Hk. destruct (step_task cfg fuel t a) as [t' a'] eqn:E. exists t'.
    pose proof (step_task_sent _ _ _ _ _ E) as (ids & (_ & Et & _) & _). apply step_task_rank in E as [Hle Hlt]; [|by eapply so_tasks].
    cbn [tasks put_tasks]. rewrite Et, list_lookup_insert_eq by (by eapply lookup_lt_Some). split_and!; [done..|]. intros [_ Hf%Nat.ltb_lt]%andb_prop.
    destruct (decide (task_rank t = 0)) as [Hz|]; [lia|]. assert (t <> TaskOver) as Hn by (by intros ->). specialize (Hlt Hf Hn). lia.
  - exists t. rewrite (proj2 (Nat.eqb_neq j k)) by done. split; [|done]. unfold task_step. destruct (tasks a !! j) as [x|]; [|done].
    destruct (step_task cfg fuel x a) as [t' a'] eqn:E. pose proof (step_task_sent _ _ _ _ _ E) as (ids & (_ & Et & _) & _).
    cbn [tasks put_tasks]. by rewrite Et, list_lookup_insert_ne.
Qed.

Lemma task_ends a l k t : app_ok a -> fresh_run a l -> tasks a !! k = Some t -> task_rank t <= length (List.filter (is_step k) l) ->
  tasks (exec cfg a l) !! k = Some TaskOver.
Proof.
  revert a t. induction l as [|e l IH]; intros a t H Hf Hk Hr; [by destruct t; cbn in Hr; try lia|]. destruct Hf as [Hf Hl].
  destruct (app_step_rank a e k t H Hk) as (t' & Hk' & Hle & Hlt). apply (IH _ t'); [by apply app_step_ok|done..|]. cbn [List.filter] in Hr.
  destruct (is_step k e); [|lia]. specialize (Hlt eq_refl). cbn [length] in Hr. lia.
Qed.
End sessions.
