(* ===== verification/AgentServers.v ===== *)
(** * The coding agent as a whole

    The tool servers of [AgentMcp] as the tools of a turn and of a session, the
    properties of the agent, and a small outside on which it runs. *)

From S2P Require Import Prelude Text Json AgentConfig AgentTypes AgentLlm AgentTurn AgentTheory AgentTurnTheory AgentMcp AgentMcpTheory AgentSessions AgentSessionsTheory.

(** ** The registry of a session *)

(** What is left of the outside once the tool servers are modelled: where the
    registry of each session and the servers' processes live, and what is not a
    tool server.  [run_steers] are the steers of the turn of a session. *)
Class Surroundings `{AW : AgentWorld, MCP : McpWorld} := {
  get_mw : World -> MW;
  put_mw : MW -> World -> World;
  get_registry : N -> World -> McpRegistry;
  put_registry : N -> McpRegistry -> World -> World;
  new_registry : McpRegistry -> World -> N * World;
  SkillEntry : Type;
  call_load_skill : list SkillEntry -> Value -> World -> ToolResult * World;
  run_steers : N -> World -> list (list ContentBlock) * World;
  run_keepalives : World -> nat * World;
  run_schedule : nat -> World -> nat * World;
  hints_section : string -> World -> string * list SkillEntry * World;
  discover : Config -> World -> result AgentError (list ModelEntry) * World;
  getrandom : World -> result string (list N) * World;
}.

(** [Arc<McpRegistry>]: where it is, what it was when the session began, and the
    servers whose hooks are called. *)
Record RegistryRef := mkRef { ref_slot : N; ref_spawned : McpRegistry; ref_hooks : HookServers }.

Section servers.
Context `{JL : JsonLib, AW : AgentWorld, MCP : McpWorld, SU : !Surroundings}.

(** An operation on the registry in the world. *)
Definition on_registry {A} (slot : N) (f : McpRegistry * MW -> A * (McpRegistry * MW)) (w : World) : A * World :=
  let '(a, (reg, m)) := f (get_registry slot w, get_mw w) in (a, put_mw m (put_registry slot reg w)).

#[export] Instance registry_toolbox (r : RegistryRef) (sk : list SkillEntry) : ToolBox := {|
  tb_tools w := tools (get_registry (ref_slot r) w);
  tb_has := has (ref_spawned r);
  tb_is_hook := is_hook (ref_spawned r);
  tb_server_of := server_of (ref_spawned r);
  tb_call q id args budget cancel := on_registry (ref_slot r) (mcp_call q id args budget cancel);
  tb_kill_server name reason w := (on_registry (ref_slot r) (fun rw => (tt, kill_server name reason rw)) w).2;
  tb_call_hooks hook := on_registry (ref_slot r) (call_hooks hook (VObject []) (ref_hooks r));
  tb_load_skill := call_load_skill sk;
  steers := run_steers (ref_slot r);
  keepalives := run_keepalives;
  schedule := run_schedule;
|}.

#[export] Instance registry_toolbox_ok r sk : ToolBoxOk (TB := registry_toolbox r sk).
Proof.
  intros q id args budget cancel w res w'. cbn. unfold on_registry. destruct (mcp_call _ _ _ _ _ _) as [o [reg m]] eqn:E. intros [= -> _].
  by eapply mcp_call_id.
Qed.

#[export] Instance registry_sessions : SessionWorld := {|
  Registry := RegistryRef;
  Skill := SkillEntry;
  spawn_servers cfg l cwd w :=
    let '(r, m) := spawn_all cfg l cwd (get_mw w) in
    let w := put_mw m w in
    match r with
    | Ok reg => let '(slot, w) := new_registry reg w in (Ok (mkRef slot reg (hook_servers cfg)), w)
    | Err e => (Err e, w)
    end;
  drop_servers r w := put_mw (drop_registry (get_registry (ref_slot r) w) (get_mw w)) w;
  toolbox := registry_toolbox;
  build_hints_section := hints_section;
  discover_models := discover;
  token_bytes := getrandom;
|}.
End servers.

(** ** Properties *)

Section agent.
Context `{JL : JsonLib, LL : LlmLib, AW : AgentWorld, WP : WireParams, MCP : McpWorld, SU : !Surroundings}.



Section turn.
Context `{TB : !ToolBox, TBO : !ToolBoxOk}.
Variables (env : RunEnv) (prompt : list ContentBlock) (c : RunCtx) (w : World) (cancel upgraded : bool) (mesh : MeshAutoState).

(** C37: A turn ends: with its configured number of rounds as fuel it returns a
    stop reason or an error, and it has posted at most 48 requests per round. *)
Theorem agent_turn_ends : paired (history c) -> (handoff_count c <= max_handoffs (cfg env))%N -> (0 < max_rounds (cfg env) <= u32_max)%N ->
  exists r c' p', run env (S (N.to_nat (max_rounds (cfg env)))) prompt c (mkProc w cancel upgraded mesh []) = (Returned r, c', p') /\
    requests p' <= 48 * N.to_nat (max_rounds (cfg env)).
Proof.
  intros Hp Hh Hm. destruct (run env _ prompt c _) as [[o c'] p'] eqn:E. apply (run_spec env) in E as [_ Hb]; [|by split; [done|done|constructor|done]].
  destruct (Hb Hm) as [Hr Ho]. destruct o as [r|]; [|by destruct (Ho ltac:(lia))]. by exists r, c', p'.
Qed.

(** C38: Every call announced to the client during a turn, however its tools are
    scheduled, time out, panic or are cancelled, is later reported completed or
    failed. *)
Theorem agent_calls_settled fuel o c' p' : paired (history c) -> (handoff_count c <= max_handoffs (cfg env))%N ->
  run env fuel prompt c (mkProc w cancel upgraded mesh []) = (o, c', p') ->
  forall l1 e l2 id, log p' = l1 ++ e :: l2 -> call_status e = Some (id, "pending") ->
  exists e' status, e' ∈ l2 /\ call_status e' = Some (id, status) /\ terminal status = true.
Proof.
  intros Hp Hh E. apply (run_spec env) in E as [[_ Ho _ _] _]; [|by split; [done|done|constructor|done]]. by apply owed_settled.
Qed.
End turn.

(** C39: The tools offered to a model, whatever calls, hooks, restarts and kills
    the registry has been through, have distinct names of 1 to 64 letters, digits,
    underscores and dashes, are at most 129 with the built-in one, and each of a
    server's is a tool the registry resolves to that server and is no hook. *)
Theorem agent_tools_ok (cfg : Config) (l : list McpServerStdio) (cwd : string) (m : MW) reg m' rw :
  spawn_all cfg l cwd m = (Ok reg, m') -> rtc mcp_step (reg, m') rw ->
  let offered := tools rw.1 ++ [load_skill_def] in
  NoDup (tool_name <$> offered) /\ Forall (fun d => provider_name (tool_name d)) offered /\ length offered <= S MAX_TOOLS_PER_SESSION /\
  forall d, d ∈ tools rw.1 -> is_hook rw.1 (tool_name d) = false /\
    exists e s, by_qname rw.1 !! tool_name d = Some e /\ servers rw.1 !! server_idx e = Some s /\ tool_name d = qualified (srv_name s) (bare e).
Proof.
  intros E Hsteps offered. pose proof (reg_ok_static _ _ (mcp_steps_static _ _ Hsteps) (spawn_all_ok _ _ _ _ _ _ E)) as [Hn Hf Hu Hc].
  assert (forall d, d ∈ tools rw.1 -> provider_name (tool_name d) /\ is_hook rw.1 (tool_name d) = false /\
    exists e s, by_qname rw.1 !! tool_name d = Some e /\ servers rw.1 !! server_idx e = Some s /\ tool_name d = qualified (srv_name s) (bare e)) as Hd.
  { intros d (_ & Hh & Hk)%tools_callable. unfold has in Hh. apply bool_decide_eq_true in Hh as [e He]. destruct (Hn _ _ He) as (Hp & s & ? & ?).
    split_and!; [done..|]. by exists e, s. }
  split_and!.
  - unfold offered. rewrite fmap_app. apply NoDup_app. split_and!; [|intros x (d & -> & Hin)%list_elem_of_fmap Hx%list_elem_of_singleton|apply NoDup_singleton].
    + eapply NoDup_fmap_sublist; [apply tools_sublist|exact Hu].
    + destruct (Hd d Hin) as (_ & _ & e & s & _ & _ & Eq). rewrite Eq in Hx. by eapply load_skill_unqualified.
  - apply Forall_app. split; [apply Forall_forall; intros d Hin; by apply Hd|]. by repeat constructor.
  - unfold offered. rewrite length_app. cbn. pose proof (sublist_length _ _ (tools_sublist rw.1)). lia.
  - intros d Hin. by apply Hd.
Qed.

(** C40: The result of a tool call carries the id of the call, and whatever the
    server sent, its text keeps within the text budget and all of it within the
    larger of the two budgets. *)
Theorem agent_results_bounded `{MOK : !McpWorldOk} (q id : string) (args : Value) (budget : ResultBudget) (cancel : bool) rw r rw' :
  mcp_call q id args budget cancel rw = (Some (Ok r), rw') ->
  result_id r = id /\ (content_text_bytes (result_content r) <= budget_text budget)%N /\
  (content_bytes (result_content r) <= N.max (budget_text budget) (budget_total budget))%N.
Proof. intros E. destruct (mcp_call_within _ _ _ _ _ _ _ _ E). split_and!; [by eapply mcp_call_id|done..]. Qed.
End agent.

(** ** A small outside *)

Module Demo.

#[global] Instance json : JsonLib := {| from_str _ := None; json_text _ := "{}" |}.

Definition frame (id method : string) : Value :=
  VObject ([("jsonrpc", VString "2.0")] ++ (if String.eqb id EmptyString then [] else [("id", VString id)]) ++ [("method", VString method)]).

(** The lines of a client and the bodies of a model, by name. *)
Definition parsed : list (string * Value) := [
  ("new", frame "1" "session/new");
  ("prompt", frame "2" "session/prompt");
  ("cancel", frame EmptyString "session/cancel");
  ("tool", VObject [("content", VArray [VObject [("type", VString "tool_use"); ("id", VString "c1"); ("name", VString "dev__shell"); ("input", VObject [])]]);
                    ("stop_reason", VString "tool_use")]);
  ("end", VObject [("content", VArray [VObject [("type", VString "text"); ("text", VString "done")]]); ("stop_reason", VString "end_turn")])].

#[global] Instance lib : LlmLib := {|
  status_text _ := "status"; utf8_lossy s := s; duration_debug _ := "0s";
  json_parse s := match list_find (fun x => x.1 = s) parsed with Some (_, (_, v)) => Ok v | None => Err "expected value" end
|}.

(** The clock, what the model answers, what is queued to steer once it has
    answered all, the number of names drawn, the registries, the clock of the
    servers. *)
Record W := mkW { clock : N; answers : list string; queued : list (list ContentBlock); drawn : N; registries : list McpRegistry; servers_clock : N }.

#[global] Instance outside : AgentWorld := {|
  World := W;
  cancel_raised w := (false, w);
  now w := (clock w, mkW (clock w + 1) (answers w) (queued w) (drawn w) (registries w) (servers_clock w));
  random w := (Some 0%N, w);
  http_post _ _ _ w :=
    match answers w with
    | a :: l => (Ok (mkHttpResponse 200 None [a] None), mkW (clock w) l (queued w) (drawn w) (registries w) (servers_clock w))
    | [] => (Err (mkTransportError "closed" false false false), w)
    end;
  http_get _ _ w := (Err (mkTransportError "closed" false false false), w);
  bearer w := (Ok "t", w);
  refresh_now _ w := (Ok "t", w);
  others_mesh m w := (m, w);
  others_upgraded b w := (b, w);
|}.

(** A server that starts well and whose tool [wedge] always loses it; every look
    at the clock is a day later. *)
#[global] Instance mcp_outside : McpWorld := {|
  MW := N;
  spawn_one spec m := (Ok (m, None, if String.eqb (ms_name (spec_server spec)) "a_" then [mkRawTool "Stop" None []]
                                   else [mkRawTool "shell" None []; mkRawTool "wedge" None []]), (m + 1)%N);
  send_call _ b _ _ m := (if String.eqb b "wedge" then CallFailed "closed" true else CallResult [RawText "ok"] None, m);
  mcp_now m := ((m * 86400000)%N, (m + 1)%N);
  jitter_percent m := (0%Z, m);
  killpg _ m := m;
  restart_timed_out m := (false, m);
|}.

#[global] Instance mcp_outside_ok : McpWorldOk.
Proof. intros client b args cancel w content is_error w'. cbn. destruct (String.eqb b "wedge"); [done|]. by intros [= <- _ _]. Qed.

Definition no_registry : McpRegistry := mkRegistry ∅ [] [] 1 1 1 ∅.

#[global] Instance surroundings : Surroundings := {|
  get_mw := servers_clock;
  put_mw m w := mkW (clock w) (answers w) (queued w) (drawn w) (registries w) m;
  get_registry slot w := default no_registry (registries w !! N.to_nat slot);
  put_registry slot reg w := mkW (clock w) (answers w) (queued w) (drawn w) (<[N.to_nat slot := reg]> (registries w)) (servers_clock w);
  new_registry reg w := (N.of_nat (length (registries w)), mkW (clock w) (answers w) (queued w) (drawn w) (registries w ++ [reg]) (servers_clock w));
  SkillEntry := unit;
  call_load_skill _ _ w := (mkToolResult "load_skill" [] true, w);
  run_steers _ w :=
    match answers w with
    | [] => (queued w, mkW (clock w) [] [] (drawn w) (registries w) (servers_clock w))
    | _ => ([], w)
    end;
  run_keepalives w := (0, w);
  run_schedule _ w := (0, w);
  hints_section _ w := (EmptyString, [], w);
  discover _ w := (Err (Llm "offline"), w);
  getrandom w := (Ok [drawn w mod 256]%N, mkW (clock w) (answers w) (queued w) (drawn w + 1) (registries w) (servers_clock w));
|}.

Definition dev : McpServerStdio := mkServerStdio "dev" "dev-mcp" [] [].

#[global] Instance params : WireParams := {|
  decode_initialize _ := Ok 1%N;
  decode_new _ := Ok (mkNewParams "/work" [dev] None);
  decode_prompt _ := Ok (mkPromptParams "ses_00" [BText "hello"]);
  decode_cancel _ := Ok "ses_00";
  decode_steer _ := Err "none";
  decode_set_model _ := Err "none";
|}.

Definition config : Config :=
  mkConfig Anthropic "You are an agent." 4 1024 60000 60000 60000 3 1 1 2 1048576 1000000 1000 100000 2 2 1000 1 NoServers "key" "claude" "https://api"
    "2023-06-01" Chat false false None.

Definition world : World := mkW 0 ["tool"; "end"] [[BText "wait"]] 0 [] 0.

Definition lf : string := nl.

(** The client asks for a session and a turn. *)
Definition start : App := app_start world ["new" +:+ lf; "prompt" +:+ lf].

Definition schedule_a : list Event := [EvRead; EvTask 0 0; EvTask 0 0; EvTask 0 0; EvRead; EvTask 0 1].
Definition schedule_b : list Event := [EvTask 5 1; EvRead; EvTask 5 1; EvTask 5 1; EvTask 5 1].

(** The same turn by itself. *)
Definition spawned : result AgentError McpRegistry * N := spawn_all config [dev] "/work" 0%N.
Definition registry : McpRegistry := match spawned.1 with Ok r => r | Err _ => no_registry end.
Definition tools_of : ToolBox := registry_toolbox (mkRef 0 registry NoServers) [].
Definition env : RunEnv := mkRunEnv config "claude" "ses_00" "You are an agent." false.
Definition ctx : RunCtx := mkRunCtx [] None 0 None None None None 0.
Definition turn_world : World := mkW 0 ["tool"; "end"] [] 0 [registry] 1.
Definition mesh0 : MeshAutoState := mkMesh None 0 false None.
End Demo.



Lemma agent_turn_ends_witness :
  exists r c p, run (TB := Demo.tools_of) Demo.env 5 [BText "hello"] Demo.ctx (mkProc Demo.turn_world false false Demo.mesh0 []) = (Returned r, c, p) /\
    requests p <= 192.
Proof.
  apply (agent_turn_ends (TB := Demo.tools_of) (TBO := registry_toolbox_ok _ _) Demo.env).
  - constructor.
  - vm_compute. congruence.
  - vm_compute. split; congruence.
Defined.

Lemma agent_calls_settled_witness :
  let p := (run (TB := Demo.tools_of) Demo.env 5 [BText "hello"] Demo.ctx (mkProc Demo.turn_world false false Demo.mesh0 [])).2 in
  exists l1 e l2, log p = l1 ++ e :: l2 /\ call_status e = Some ("c1", "pending") /\
    exists e' status, e' ∈ l2 /\ call_status e' = Some ("c1", status) /\ terminal status = true.
Proof.
  intros p. destruct (run (TB := Demo.tools_of) Demo.env 5 [BText "hello"] Demo.ctx (mkProc Demo.turn_world false false Demo.mesh0 [])) as [[o c] p'] eqn:E.
  exists (take 1 (log p')), (default (Slept 0) (log p' !! 1)), (drop 2 (log p')).
  assert (log p' = take 1 (log p') ++ default (Slept 0) (log p' !! 1) :: drop 2 (log p') /\ call_status (default (Slept 0) (log p' !! 1)) = Some ("c1", "pending")) as [El Ec].
  { replace p' with (run (TB := Demo.tools_of) Demo.env 5 [BText "hello"] Demo.ctx (mkProc Demo.turn_world false false Demo.mesh0 [])).2 by (rewrite E; reflexivity).
    vm_compute. split; reflexivity. }
  split; [exact El|]. split; [exact Ec|].
  refine (agent_calls_settled (TB := Demo.tools_of) (TBO := registry_toolbox_ok _ _) Demo.env [BText "hello"] Demo.ctx Demo.turn_world false false Demo.mesh0 5 o c p' _ _ E _ _ _ _ El Ec).
  - constructor.
  - vm_compute. congruence.
Defined.

Lemma agent_tools_ok_witness :
  exists m, spawn_all Demo.config [Demo.dev] "/work" 0%N = (Ok Demo.registry, m) /\
  rtc mcp_step (Demo.registry, m) (mcp_call "dev__wedge" "c1" VNull (mkBudget 10 10) false (Demo.registry, m)).2 /\
  (tool_name <$> tools (mcp_call "dev__wedge" "c1" VNull (mkBudget 10 10) false (Demo.registry, m)).2.1) = ["dev__shell"; "dev__wedge"] /\
  NoDup (tool_name <$> tools (mcp_call "dev__wedge" "c1" VNull (mkBudget 10 10) false (Demo.registry, m)).2.1 ++ [load_skill_def]).
Proof.
  exists 1%N. assert (spawn_all Demo.config [Demo.dev] "/work" 0%N = (Ok Demo.registry, 1%N)) as E by (vm_compute; reflexivity).
  assert (rtc mcp_step (Demo.registry, 1%N) (mcp_call "dev__wedge" "c1" VNull (mkBudget 10 10) false (Demo.registry, 1%N)).2) as Hs
    by (eapply rtc_l; [apply step_call|apply rtc_refl]).
  split; [exact E|]. split; [exact Hs|]. split; [vm_compute; reflexivity|]. exact (proj1 (agent_tools_ok Demo.config [Demo.dev] "/work" 0%N _ _ _ E Hs)).
Defined.

Lemma agent_results_bounded_witness :
  exists r rw, mcp_call "dev__shell" "c1" VNull (mkBudget 10 1) false (Demo.registry, 1%N) = (Some (Ok r), rw) /\
    result_id r = "c1" /\ (content_text_bytes (result_content r) <= 1)%N /\ (content_bytes (result_content r) <= 10)%N.
Proof.
  eexists _, _. split; [vm_compute; reflexivity|].
  refine (agent_results_bounded "dev__shell" "c1" VNull (mkBudget 10 1) false (Demo.registry, 1%N) _ _ _). vm_compute. reflexivity.
Defined.

(** ** What the code does not do *)

(** A server that loses every call: each time the count of attempts begins at
    one again and the restart in between forgets it, so that with three attempts
    allowed it is never given up and its tools stay on offer. *)
Example wedged_server_not_exhausted :
  let '(reg, _) := Nat.iter 20 (fun rw => (mcp_call "dev__wedge" "c" VNull (mkBudget 10 10) false rw).2) (Demo.registry, 1%N) in
  max_attempts reg = 3%N /\ (tool_name <$> tools reg) = ["dev__shell"; "dev__wedge"] /\
  match srv_client <$> servers reg !! 0 with Some (Dead attempts _ _ _) => attempts = 1%N | _ => False end.
Proof. vm_compute. done. Qed.

(** Names of servers and tools are joined by two underscores and may begin and end
    with one: the hook [_Stop] looked for at the server [a] is the tool [Stop] of
    the server [a_], which the allowlist does not name. *)
Example hook_of_another_server :
  let '(spawned, _) := spawn_all Demo.config [mkServerStdio "a_" "x" [] []; mkServerStdio "a" "x" [] []] "/work" 0%N in
  match spawned with
  | Ok reg =>
      hook_targets reg "_Stop" (OnlyServers ["a"]) = [("a", "a___Stop")] /\ server_of reg "a___Stop" = Some "a_" /\
      (call_hooks "_Stop" (VObject []) (OnlyServers ["a"]) (reg, 2%N)).1 = [("a", "ok")]
  | Err _ => False
  end.
Proof. vm_compute. done. Qed.

(** A steer that is queued while the model writes its last answer is not read:
    the turn ends and drops it. *)
Example late_steer_dropped :
  let a := exec Demo.config Demo.start (Demo.schedule_a ++ Demo.schedule_b) in
  Demo.queued (app_world a) = [[BText "wait"]] /\ (busy <$> sessions a !! "ses_00") = Some false.
Proof. vm_compute. done. Qed.

(** A cancellation read before the task of the prompt it follows has begun is
    lost: the turn replaces the channel it was sent on. *)
Example early_cancel_lost :
  let a := exec Demo.config (app_start Demo.world ["new" +:+ Demo.lf; "prompt" +:+ Demo.lf; "cancel" +:+ Demo.lf])
             [EvRead; EvTask 0 0; EvTask 0 0; EvTask 0 0; EvRead; EvRead; EvTask 0 1] in
  lines_read a = ["new"; "prompt"; "cancel"] /\ (cancel_tx <$> sessions a !! "ses_00") = Some false /\ (busy <$> sessions a !! "ses_00") = Some true.
Proof. vm_compute. done. Qed.
