(* ===== verification/Mentions.v ===== *)
(** * Mentions

    [buzz-sdk/src/mentions.rs]: which members a message mentions, from [@name]
    and [nostr:npub1] texts outside code, as keys for the [p] tags of a builder.
    The scans look at single bytes below 128 only, so a text is the string of
    its bytes.  JSON is the class [JsonLib], bech32 the class [MentionLib]. *)

From S2P Require Import Prelude Text Nostr Demo Kinds OwnerAttestation GitPerms Sdk SdkTheory EventQueue Prompt PromptTheory Json.

Record MentionProfile := mkMentionProfile { mp_pubkey : string; mp_content_json : string }.

(** Functions of the crates. *)
Class MentionLib := {
  (** [PublicKey::from_bech32(..)] and [PublicKey::parse(..)], as hex *)
  from_bech32 : string -> option string;
  PublicKey_parse : string -> option string;
}.

Fixpoint str_contains_char (c : ascii) (s : string) : bool :=
  match s with EmptyString => false | String a r => Ascii.eqb a c || str_contains_char c r end.

(** What follows each [@] at the start or after white space. *)
Fixpoint at_rests (preceded : bool) (s : string) : list string :=
  match s with
  | EmptyString => []
  | String c r =>
      (if Ascii.eqb c "@" && preceded && negb (String.eqb r EmptyString) then [r] else []) ++ at_rests (is_ascii_whitespace c) r
  end.

(** The longest prefix of name characters. *)
Fixpoint take_word (s : string) : string :=
  match s with String c r => if mention_char c then String c (take_word r) else EmptyString | EmptyString => EmptyString end.

(** [if seen.insert(x.clone()) { out.push(x) }] over a list. *)
Fixpoint dedup (seen : gset string) (l : list string) : list string :=
  match l with
  | [] => []
  | x :: l => if bool_decide (x ∈ seen) then dedup seen l else x :: dedup ({[x]} ∪ seen) l
  end.

Definition word_name (rest : string) : option string :=
  let w := take_word rest in if String.eqb w EmptyString then None else Some (to_ascii_lowercase w).

Definition extract_at_names (content : string) : list string :=
  if String.eqb content EmptyString || negb (str_contains_char "@" content) then []
  else dedup ∅ (omap word_name (at_rests true content)).

Definition boundary_mark (c : ascii) : bool := existsb (Ascii.eqb c) [","; ";"; "."; "!"; "?"; ":"; ")"; "]"; "}"]%char.

Definition is_word_boundary (s : string) : bool :=
  match s with EmptyString => true | String c _ => is_ascii_whitespace c || boundary_mark c end.

(** A known name at the start of the text, up to a word boundary. *)
Definition is_known (rest known : string) : bool :=
  let n := String.length known in
  (n <=? String.length rest)%nat && eq_ignore_ascii_case (String.substring 0 n rest) known &&
  is_word_boundary (String.substring n (String.length rest - n) rest).

Definition known_or_word (sorted : list string) (rest : string) : option string :=
  match find (is_known rest) sorted with
  | Some known => Some (to_ascii_lowercase known)
  | None => word_name rest
  end.

Definition extract_at_mentions_with_known (content : string) (names : list string) : list string :=
  if String.eqb content EmptyString || negb (str_contains_char "@" content) then []
  else dedup ∅ (omap (known_or_word (known_names names)) (at_rests true content)).

(** [a.or_else(|| b)]. *)
Definition union_first {A} (a b : option A) : option A := match a with Some _ => a | None => b end.

Section profiles.
Context `{JL : JsonLib}.

(** The name of a profile: [name] only when [display_name] is absent. *)
Definition profile_name (p : MentionProfile) : string :=
  match from_str (mp_content_json p) with
  | Some value => default EmptyString (union_first (field "display_name" value) (field "name" value) ≫= as_str)
  | None => EmptyString
  end.

Definition match_names_to_profiles (names : list string) (profiles : list MentionProfile) : list string :=
  if bool_decide (names = []) then []
  else
    omap (fun p => let name := profile_name p in
            if String.eqb name EmptyString then None
            else if existsb (fun n => eq_ignore_ascii_case n name) names then Some (mp_pubkey p) else None) profiles.
End profiles.

(** The loop of [merge_mentions], with the budget left. *)
Fixpoint merge_loop (budget : nat) (explicit auto_resolved : list string) : list string :=
  match auto_resolved, budget with
  | [], _ | _, O => explicit
  | pk :: rest, S b => if bool_decide (pk ∈ explicit) then merge_loop budget explicit rest else merge_loop b (explicit ++ [pk]) rest
  end.

Definition merge_mentions (explicit auto_resolved : list string) (cap : nat) : list string :=
  merge_loop (cap - length explicit) explicit auto_resolved.

Definition normalize_mention_pubkeys (pubkeys : list string) (sender_pubkey : option string) : list string :=
  let sender := to_ascii_lowercase <$> sender_pubkey in
  dedup ∅ (List.filter (fun pk => negb (bool_decide (sender = Some pk))) (to_ascii_lowercase <$> pubkeys)).

(** ** Code regions *)

Definition fence : string := "```".

(** White space only since the last line break. *)
Fixpoint blank_line (blank : bool) (s : string) : bool :=
  match s with
  | EmptyString => blank
  | String c r => blank_line (if Ascii.eqb c Lines.newline then true else blank && is_ascii_whitespace c) r
  end.

(** [content[from..].find('\n').map_or(len, |p| from + p + 1)], as the text
    after it. *)
Fixpoint after_line (s : string) : string :=
  match s with EmptyString => EmptyString | String c r => if Ascii.eqb c Lines.newline then r else after_line r end.

(** What follows the closing fence and its line; [blank] says whether the line
    so far is blank.  A fence that does not start its line is passed over
    whole. *)
Fixpoint close_fence (fuel : nat) (blank : bool) (s : string) : string :=
  match fuel with
  | O => EmptyString
  | S fuel =>
      match s with
      | EmptyString => EmptyString
      | String c r =>
          match strip_prefix fence s with
          | Some rest => if blank then after_line rest else close_fence fuel false rest
          | None => close_fence fuel (if Ascii.eqb c Lines.newline then true else blank && is_ascii_whitespace c) r
          end
      end
  end.

(** The text up to the next backtick and what follows it. *)
Fixpoint to_backtick (s : string) : option (string * string) :=
  match s with
  | EmptyString => None
  | String c r => if Ascii.eqb c "`" then Some (EmptyString, r) else '(a, b) ← to_backtick r; Some (String c a, b)
  end.

(** The loop; [blank] says whether the line so far is blank. *)
Fixpoint strip_loop (fuel : nat) (blank : bool) (s : string) : option string :=
  match fuel with
  | O => None
  | S fuel =>
      match s with
      | EmptyString => Some EmptyString
      | String c r =>
          let keep := String c <$> strip_loop fuel (if Ascii.eqb c Lines.newline then true else blank && is_ascii_whitespace c) r in
          match (if blank then strip_prefix fence s else None) with
          | Some rest => String " " <$> strip_loop fuel true (close_fence (S (String.length rest)) true (after_line rest))
          | None =>
              if Ascii.eqb c "`" then
                match to_backtick r with
                | Some (code, rest) =>
                    if str_contains_char Lines.newline code then keep else String " " <$> strip_loop fuel false rest
                | None => keep
                end
              else keep
          end
      end
  end.

Definition strip_code_regions (content : string) : string :=
  default EmptyString (strip_loop (S (String.length content)) true content).

(** ** [nostr:] references *)

Definition is_bech32_char (c : ascii) : bool := is_ascii_alphanumeric c.

Definition BECH32_SUFFIX_LEN : nat := 58.

(** The 63 bytes from [npub1] on, at each [nostr:npub1]. *)
Fixpoint uri_candidates (s : string) : list string :=
  match s with
  | EmptyString => []
  | String _ r =>
      (if starts_with s "nostr:npub1" && (6 + 5 + BECH32_SUFFIX_LEN <=? String.length s)%nat
       then [String.substring 6 (5 + BECH32_SUFFIX_LEN) s] else []) ++ uri_candidates r
  end.

Definition extract_nostr_uris `{ML : MentionLib} (content : string) : list string :=
  dedup ∅ (omap (fun c => if str_forallb is_bech32_char c then from_bech32 (to_ascii_lowercase c) else None) (uri_candidates content)).

(** ** What is found *)

(** [dedup] keeps the first of each, in order. *)
Lemma dedup_spec l seen : NoDup (dedup seen l) /\ sublist (dedup seen l) l /\ forall x, x ∈ dedup seen l <-> x ∈ l /\ (x ∉ seen).
Proof.
  revert seen. induction l as [|y l IH]; intros seen; cbn [dedup].
  { split_and!; [constructor|constructor|]. intros x. split; [by intros ?%not_elem_of_nil|by intros [?%not_elem_of_nil _]]. }
  case_bool_decide as Hy.
  - destruct (IH seen) as (H1 & H2 & H3). split_and!; [done|by constructor|]. intros x. rewrite H3, elem_of_cons. split; [tauto|].
    intros [[->|?] ?]; [done|tauto].
  - destruct (IH ({[y]} ∪ seen)) as (H1 & H2 & H3). split_and!.
    + constructor; [|done]. rewrite H3. set_solver.
    + by constructor.
    + intros x. rewrite !elem_of_cons, H3. destruct (decide (x = y)) as [->|]; set_solver.
Qed.

(** The text before an [@] lets it begin a mention; [p] at its start. *)
Fixpoint opens (p : bool) (pre : string) : bool := match pre with EmptyString => p | String c r => opens (is_ascii_whitespace c) r end.

Lemma at_rests_spec p s r :
  r ∈ at_rests p s <-> r <> EmptyString /\ exists pre, s = pre +:+ String "@" r /\ opens p pre = true.
Proof.
  revert p. induction s as [|c s IH]; intros p; cbn [at_rests].
  { split; [by intros ?%not_elem_of_nil|]. intros (_ & [|? ?] & H & _); done. }
  rewrite elem_of_app, IH. split.
  - intros [H|(Hr & pre & -> & Ho)].
    + destruct (Ascii.eqb_spec c "@") as [->|]; [|by apply not_elem_of_nil in H]. destruct p; [|by apply not_elem_of_nil in H].
      cbn [andb] in H. destruct (String.eqb_spec s EmptyString) as [|Hne]; [by apply not_elem_of_nil in H|].
      apply list_elem_of_singleton in H as ->. split; [done|]. by exists EmptyString.
    + split; [done|]. by exists (String c pre).
  - intros (Hr & [|d pre] & H & Ho).
    + injection H as -> ->. left. cbn in Ho. subst p. cbn [andb]. destruct (String.eqb_spec r EmptyString); [done|]. left.
    + rewrite str_app_cons in H. injection H as -> ->. right. split; [done|]. by exists pre.
Qed.

Lemma at_rests_none p s : str_contains_char "@" s = false -> at_rests p s = [].
Proof.
  revert p. induction s as [|c s IH]; intros p; [done|]. cbn. intros [-> H]%orb_false_iff. cbn. by apply IH.
Qed.

(** The guard at the start of both extractors only saves work. *)
Lemma extract_guard {A} content (f : list string -> list A) :
  f [] = [] -> (if String.eqb content EmptyString || negb (str_contains_char "@" content) then [] else f (at_rests true content)) = f (at_rests true content).
Proof.
  intros Hf. destruct (String.eqb_spec content EmptyString) as [->|_]; [done|]. cbn [orb].
  destruct (str_contains_char "@" content) eqn:E; [done|]. by rewrite at_rests_none, Hf.
Qed.

Lemma extract_known_spec content names x :
  x ∈ extract_at_mentions_with_known content names <->
  exists pre r, content = pre +:+ String "@" r /\ opens true pre = true /\ r <> EmptyString /\ known_or_word (known_names names) r = Some x.
Proof.
  unfold extract_at_mentions_with_known. rewrite (extract_guard content (fun l => dedup ∅ (omap (known_or_word (known_names names)) l))) by done.
  destruct (dedup_spec (omap (known_or_word (known_names names)) (at_rests true content)) ∅) as (_ & _ & H). rewrite H, list_elem_of_omap.
  setoid_rewrite at_rests_spec. split.
  - intros [(r & (Hr & pre & -> & Ho) & E) _]. by exists pre, r.
  - intros (pre & r & -> & Ho & Hr & E). split; [|set_solver]. exists r. split; [|done]. split; [done|]. by exists pre.
Qed.

Lemma extract_known_nodup content names : NoDup (extract_at_mentions_with_known content names).
Proof. unfold extract_at_mentions_with_known. destruct (_ || _); [constructor|]. apply dedup_spec. Qed.

(** Without known names the two extractors are one. *)
Lemma extract_known_nil content : extract_at_mentions_with_known content [] = extract_at_names content.
Proof. done. Qed.

(** ** Merging *)

Lemma merge_loop_spec budget e a :
  exists added, merge_loop budget e a = e ++ added /\ length added <= budget /\ NoDup added /\
  (forall x, x ∈ added -> x ∈ a /\ (x ∉ e)) /\ (length added < budget -> forall x, x ∈ a -> x ∈ e ++ added).
Proof.
  revert budget e. induction a as [|pk a IH]; intros budget e; cbn [merge_loop].
  { exists []. rewrite app_nil_r. split_and!; [done|cbn; lia|constructor|by intros x ?%not_elem_of_nil|by intros _ x ?%not_elem_of_nil]. }
  destruct budget as [|b].
  { exists []. rewrite app_nil_r. split_and!; [done|cbn; lia|constructor|by intros x ?%not_elem_of_nil|cbn; lia]. }
  case_bool_decide as Hpk.
  - destruct (IH (S b) e) as (added & E & H1 & H2 & H3 & H4). exists added. split_and!; [done..| |].
    + intros x Hx. destruct (H3 x Hx). set_solver.
    + intros Hlt x [->|Hx]%elem_of_cons; [set_solver|by apply H4].
  - destruct (IH b (e ++ [pk])) as (added & E & H1 & H2 & H3 & H4). exists (pk :: added). split_and!.
    + rewrite E, <-app_assoc. done.
    + cbn. lia.
    + constructor; [|done]. intros Hin. destruct (H3 pk Hin) as [_ Hn]. set_solver.
    + intros x [->|Hx]%elem_of_cons; [set_solver|]. destruct (H3 x Hx). set_solver.
    + cbn [length]. intros Hlt x [->|Hx]%elem_of_cons; [set_solver|]. specialize (H4 ltac:(lia) x Hx). set_solver.
Qed.

Lemma merge_mentions_spec e a cap :
  exists added, merge_mentions e a cap = e ++ added /\ length (merge_mentions e a cap) <= length e `max` cap /\ NoDup added /\
  (forall x, x ∈ added -> x ∈ a /\ (x ∉ e)) /\
  (length (merge_mentions e a cap) < cap -> forall x, x ∈ a -> x ∈ merge_mentions e a cap).
Proof.
  unfold merge_mentions. destruct (merge_loop_spec (cap - length e) e a) as (added & E & H1 & H2 & H3 & H4). exists added.
  rewrite E, length_app. split_and!; [done|lia|done|done|]. intros Hlt. apply H4. lia.
Qed.

Lemma normalize_spec l sender :
  NoDup (normalize_mention_pubkeys l sender) /\
  forall x, x ∈ normalize_mention_pubkeys l sender <-> x ∈ to_ascii_lowercase <$> l /\ to_ascii_lowercase <$> sender <> Some x.
Proof.
  unfold normalize_mention_pubkeys. destruct (dedup_spec (List.filter (fun pk => negb (bool_decide (to_ascii_lowercase <$> sender = Some pk))) (to_ascii_lowercase <$> l)) ∅) as (H1 & _ & H3).
  split; [done|]. intros x. rewrite H3, elem_of_filter_b, negb_true_iff, bool_decide_eq_false. set_solver.
Qed.

(** ** Code regions *)

Lemma after_line_tail s : tail_of (after_line s) s.
Proof. induction s as [|c s IH]; [reflexivity|]. cbn. destruct (Ascii.eqb _ _); [apply tail_of_cons; reflexivity|by apply tail_of_cons]. Qed.

Lemma strip_prefix_tail p s t : strip_prefix p s = Some t -> tail_of t s.
Proof. intros ->%strip_prefix_some. by exists p. Qed.

Lemma close_fence_tail fuel blank s : tail_of (close_fence fuel blank s) s.
Proof.
  revert blank s. induction fuel as [|fuel IH]; intros blank s; cbn [close_fence]; [exists s; by rewrite str_app_nil_r|].
  destruct s as [|c r]; [reflexivity|]. destruct (strip_prefix fence (String c r)) as [rest|] eqn:E; [|by apply tail_of_cons].
  apply strip_prefix_tail in E. etransitivity; [|exact E]. destruct blank; [apply after_line_tail|apply IH].
Qed.

(** The scan for the closing fence never runs out of fuel. *)
Lemma close_fence_fuel f1 f2 blank s : String.length s < f1 -> String.length s < f2 -> close_fence f1 blank s = close_fence f2 blank s.
Proof.
  revert f2 blank s. induction f1 as [|f1 IH]; intros f2 blank s H1 H2; [lia|]. destruct f2 as [|f2]; [lia|]. cbn [close_fence].
  destruct s as [|c r]; [done|]. cbn [String.length] in *. destruct (strip_prefix fence (String c r)) as [rest|] eqn:E.
  - destruct blank; [done|]. apply strip_prefix_some in E. apply (f_equal String.length) in E. rewrite length_str_app in E. cbn in E.
    apply IH; lia.
  - apply IH; lia.
Qed.

Lemma to_backtick_tail s a b : to_backtick s = Some (a, b) -> s = a +:+ String "`" b.
Proof.
  revert a b. induction s as [|c s IH]; intros a b; [done|]. cbn. destruct (Ascii.eqb_spec c "`") as [->|].
  - by intros [= <- <-].
  - destruct (to_backtick s) as [[a' b']|]; [|done]. intros [= <- <-]. by rewrite (IH _ _ eq_refl).
Qed.

(** The loop ends, and its output is no longer than its input. *)
Lemma strip_loop_total fuel blank s :
  String.length s < fuel -> exists out, strip_loop fuel blank s = Some out /\ String.length out <= String.length s.
Proof.
  revert blank s. induction fuel as [|fuel IH]; intros blank s Hf; [lia|]. cbn [strip_loop]. destruct s as [|c r]; [by exists EmptyString|].
  cbn [String.length] in Hf. assert (forall b, exists out, String c <$> strip_loop fuel b r = Some out /\ String.length out <= S (String.length r)) as Hkeep.
  { intros b. destruct (IH b r ltac:(lia)) as (out & -> & Hl). eexists. split; [reflexivity|]. cbn. lia. }
  assert (forall b t, String.length t < fuel -> String.length t <= String.length r ->
            exists out, String " " <$> strip_loop fuel b t = Some out /\ String.length out <= S (String.length r)) as Hskip.
  { intros b t Ht1 Ht2. destruct (IH b t Ht1) as (out & -> & Hl). eexists. split; [reflexivity|]. cbn. lia. }
  cbn [String.length]. destruct (if blank then strip_prefix fence (String c r) else None) as [rest|] eqn:Ef.
  - assert (strip_prefix fence (String c r) = Some rest) as E by (by destruct blank).
    apply strip_prefix_some in E. apply (f_equal String.length) in E. rewrite length_str_app in E. cbn in E.
    pose proof (tail_of_length _ _ (close_fence_tail (S (String.length rest)) true (after_line rest))).
    pose proof (tail_of_length _ _ (after_line_tail rest)). apply Hskip; lia.
  - destruct (Ascii.eqb c "`"); [|apply Hkeep]. destruct (to_backtick r) as [[code rest]|] eqn:Eb; [|apply Hkeep].
    destruct (str_contains_char _ code); [apply Hkeep|]. apply to_backtick_tail in Eb. apply (f_equal String.length) in Eb.
    rewrite length_str_app in Eb. cbn in Eb. apply Hskip; lia.
Qed.

Lemma strip_loop_mono fuel fuel' blank s out : strip_loop fuel blank s = Some out -> fuel <= fuel' -> strip_loop fuel' blank s = Some out.
Proof.
  revert fuel' blank s out. induction fuel as [|fuel IH]; intros fuel' blank s out H Hle; [done|]. destruct fuel' as [|fuel']; [lia|].
  cbn [strip_loop] in *. destruct s as [|c r]; [done|].
  assert (forall a b t o, String a <$> strip_loop fuel b t = Some o -> String a <$> strip_loop fuel' b t = Some o) as Hstep.
  { intros a b t o Ho. destruct (strip_loop fuel b t) as [x|] eqn:E; [|done]. by rewrite (IH fuel' _ _ _ E ltac:(lia)). }
  destruct (if blank then strip_prefix fence (String c r) else None); [by apply Hstep|].
  destruct (Ascii.eqb c "`"); [|by apply Hstep]. destruct (to_backtick r) as [[code rest]|]; [|by apply Hstep].
  destruct (str_contains_char _ code); by apply Hstep.
Qed.

(** The output for a text, whatever the fuel. *)
Definition strips (blank : bool) (s out : string) : Prop := exists fuel, strip_loop fuel blank s = Some out.

Lemma strips_content content out : strips true content out -> strip_code_regions content = out.
Proof.
  intros (fuel & H). unfold strip_code_regions. destruct (strip_loop_total (S (String.length content)) true content) as (out' & E & _); [lia|].
  pose proof (strip_loop_mono _ (fuel `max` S (String.length content)) _ _ _ H ltac:(lia)) as H1.
  pose proof (strip_loop_mono _ (fuel `max` S (String.length content)) _ _ _ E ltac:(lia)) as H2. rewrite E. cbn. congruence.
Qed.

Definition no_backtick (s : string) : bool := negb (str_contains_char "`" s).

Lemma no_backtick_cons c s : no_backtick (String c s) = true -> Ascii.eqb c "`" = false /\ no_backtick s = true.
Proof. unfold no_backtick. cbn. rewrite negb_orb, andb_true_iff, negb_true_iff. tauto. Qed.

(** Text without a backtick stays as it is. *)
Lemma strips_plain blank a s out :
  no_backtick a = true -> strips (blank_line blank a) s out -> strips blank (a +:+ s) (a +:+ out).
Proof.
  revert blank. induction a as [|c a IH]; intros blank Ha Hs; [done|]. apply no_backtick_cons in Ha as [Hc Ha].
  destruct (IH _ Ha Hs) as (fuel & E). exists (S fuel). rewrite str_app_cons. cbn [strip_loop].
  assert ((if blank then strip_prefix fence (String c (a +:+ s)) else None) = None) as ->.
  { destruct blank; [|done]. unfold fence. cbn [strip_prefix]. rewrite Ascii.eqb_sym, Hc. done. }
  rewrite Hc. cbn in E. by rewrite E.
Qed.

Lemma strips_nil blank : strips blank EmptyString EmptyString.
Proof. by exists 1. Qed.

Lemma to_backtick_first code rest : no_backtick code = true -> to_backtick (code +:+ String "`" rest) = Some (code, rest).
Proof.
  induction code as [|c code IH]; [done|]. intros [Hc Hs]%no_backtick_cons. rewrite str_app_cons. cbn. by rewrite Hc, IH.
Qed.

(** ** A reference reading of code

    A text as its author sees it: plain text, code spans, and fenced blocks that
    begin a line; the last block may be left open. *)
Inductive Segment :=
  | Plain (text : string)
  | Span (code : string)
  | Block (info body closing : string)
  | OpenBlock (info body : string).

Definition no_newline (s : string) : bool := negb (str_contains_char Lines.newline s).

Definition nl : string := String Lines.newline EmptyString.

Fixpoint render (l : list Segment) : string :=
  match l with
  | [] => EmptyString
  | Plain t :: l => t +:+ render l
  | Span code :: l => "`" +:+ code +:+ "`" +:+ render l
  | Block info body closing :: l => fence +:+ info +:+ nl +:+ body +:+ fence +:+ closing +:+ nl +:+ render l
  | OpenBlock info body :: _ => fence +:+ info +:+ nl +:+ body
  end.

(** The text with one space for each piece of code. *)
Fixpoint visible (l : list Segment) : string :=
  match l with
  | [] => EmptyString
  | Plain t :: l => t +:+ visible l
  | Span _ :: l | Block _ _ _ :: l => " " +:+ visible l
  | OpenBlock _ _ :: _ => " "
  end.

(** The pieces are what they are called; [blank]: the line so far is blank. *)
Fixpoint segments_ok (blank : bool) (l : list Segment) : bool :=
  match l with
  | [] => true
  | Plain t :: l => no_backtick t && segments_ok (blank_line blank t) l
  | Span code :: l => no_backtick code && no_newline code && negb (String.eqb code EmptyString) && segments_ok false l
  | Block info body closing :: l =>
      blank && no_newline info && no_backtick body && blank_line true body && no_newline closing && segments_ok true l
  | OpenBlock info body :: l => blank && no_newline info && no_backtick body && bool_decide (length l = 0)
  end.

Lemma after_line_skip a s : no_newline a = true -> after_line (a +:+ nl +:+ s) = s.
Proof.
  unfold no_newline. induction a as [|c a IH]; [done|]. cbn [str_contains_char]. rewrite negb_orb, andb_true_iff, !negb_true_iff.
  intros [Hc Ha]. rewrite str_app_cons. cbn [after_line]. rewrite Hc. apply IH. by rewrite Ha.
Qed.

Lemma strip_loop_fence f s :
  strip_loop (S f) true (fence +:+ s) = String " " <$> strip_loop f true (close_fence (S (String.length s)) true (after_line s)).
Proof. by destruct s. Qed.

Lemma close_fence_skip a s fuel blank :
  no_backtick a = true -> String.length (a +:+ s) < fuel ->
  close_fence fuel blank (a +:+ s) = close_fence (fuel - String.length a) (blank_line blank a) s.
Proof.
  revert fuel blank. induction a as [|c a IH]; intros fuel blank Ha Hf; [by rewrite Nat.sub_0_r|]. apply no_backtick_cons in Ha as [Hc Ha].
  rewrite str_app_cons in *. destruct fuel as [|fuel]; [lia|]. cbn [close_fence].
  assert (strip_prefix fence (String c (a +:+ s)) = None) as ->.
  { unfold fence. cbn [strip_prefix]. by rewrite Ascii.eqb_sym, Hc. }
  cbn [String.length] in *. rewrite IH by (done || lia). done.
Qed.

Lemma close_fence_here f s : close_fence (S f) true (fence +:+ s) = after_line s.
Proof. by destruct s. Qed.

Lemma close_fence_block body closing s fuel :
  no_backtick body = true -> blank_line true body = true -> no_newline closing = true ->
  String.length (body +:+ fence +:+ closing +:+ nl +:+ s) < fuel ->
  close_fence fuel true (body +:+ fence +:+ closing +:+ nl +:+ s) = s.
Proof.
  intros Hb Hl Hc Hf. rewrite close_fence_skip by done. rewrite Hl. rewrite length_str_app in Hf.
  destruct (fuel - String.length body) as [|f] eqn:E; [lia|]. rewrite close_fence_here. by apply after_line_skip.
Qed.

Lemma close_fence_open body fuel : no_backtick body = true -> String.length body < fuel -> close_fence fuel true body = EmptyString.
Proof.
  intros Hb Hf. rewrite <-(str_app_nil_r body), close_fence_skip; [|done|by rewrite str_app_nil_r].
  by destruct (fuel - String.length body).
Qed.

Lemma strips_fence info tail rest out :
  no_newline info = true -> close_fence (S (String.length (info +:+ nl +:+ tail))) true tail = rest -> strips true rest out ->
  strips true (fence +:+ info +:+ nl +:+ tail) (" " +:+ out).
Proof.
  intros Hi Hc (fuel & E). exists (S fuel). rewrite strip_loop_fence, after_line_skip by done. by rewrite Hc, E.
Qed.

Lemma strips_span blank code s out :
  no_backtick code = true -> no_newline code = true -> code <> EmptyString -> strips false s out ->
  strips blank ("`" +:+ code +:+ "`" +:+ s) (" " +:+ out).
Proof.
  intros Hb Hn Hne (fuel & E). exists (S fuel). change ("`" +:+ s) with (String "`" s). change ("`" +:+ (code +:+ String "`" s)) with (String "`" (code +:+ String "`" s)). cbn [strip_loop].
  assert ((if blank then strip_prefix fence (String "`" (code +:+ String "`" s)) else None) = None) as ->.
  { destruct blank; [|done]. destruct code as [|c code]; [done|]. apply no_backtick_cons in Hb as [Hc _].
    rewrite str_app_cons. unfold fence. cbn [strip_prefix]. by rewrite Ascii.eqb_refl, (Ascii.eqb_sym _ c), Hc. }
  rewrite Ascii.eqb_refl, to_backtick_first by done. apply negb_true_iff in Hn. rewrite Hn, E. done.
Qed.

Lemma strips_segments blank l : segments_ok blank l = true -> strips blank (render l) (visible l).
Proof.
  revert blank. induction l as [|[t|code|info body closing|info body] l IH]; intros blank; cbn [segments_ok render visible].
  - intros _. apply strips_nil.
  - intros [Ht Hl]%andb_true_iff. apply strips_plain; auto.
  - intros [[[Hb Hn]%andb_true_iff Hne]%andb_true_iff Hl]%andb_true_iff. apply strips_span; auto.
    intros ->. done.
  - intros [[[[[-> Hi]%andb_true_iff Hb]%andb_true_iff Hbl]%andb_true_iff Hc]%andb_true_iff Hl]%andb_true_iff.
    eapply strips_fence; [done| |apply IH, Hl]. apply close_fence_block; [done..|]. rewrite (length_str_app info), (length_str_app nl). lia.
  - intros [[[-> Hi]%andb_true_iff Hb]%andb_true_iff _]%andb_true_iff. change " " with (" " +:+ EmptyString).
    eapply strips_fence; [done| |apply strips_nil]. apply close_fence_open; [done|]. rewrite (length_str_app info), (length_str_app nl). lia.
Qed.

(** ** Extraction *)

(** The first hit among names sorted by length is a longest one. *)
Lemma find_longest (f : string -> bool) l m n :
  StronglySorted (fun a b => longer_first a b = true) l -> find f l = Some m -> n ∈ l -> f n = true -> String.length n <= String.length m.
Proof.
  induction 1 as [|a l Hs IH Ha]; [done|]. cbn [find]. intros Hf [->|Hn]%elem_of_cons Hfn.
  - rewrite Hfn in Hf. by injection Hf as ->.
  - destruct (f a); [|by apply IH]. injection Hf as ->. rewrite List.Forall_forall in Ha.
    apply list_elem_of_In, Ha in Hn. by apply Nat.leb_le in Hn.
Qed.

Lemma known_length a b : eq_ignore_ascii_case a b = true -> String.length a = String.length b.
Proof. intros H%String.eqb_eq. by rewrite <-(lowercase_length a), H, lowercase_length. Qed.

Lemma is_known_self w n rest : eq_ignore_ascii_case w n = true -> is_word_boundary rest = true -> is_known (w +:+ rest) n = true.
Proof.
  intros Hw Hb. unfold is_known. rewrite <-(known_length _ _ Hw), substring_app_l, Hw, length_str_app.
  replace (String.length w + String.length rest - String.length w) with (String.length rest) by lia.
  rewrite substring_app_r, Hb, andb_true_r, andb_true_r. apply Nat.leb_le. lia.
Qed.

(** A known name at an [@], not the start of a longer one, is what is mentioned. *)
Lemma known_name_found names w n rest :
  n ∈ names -> String.eqb (trim n) EmptyString = false -> eq_ignore_ascii_case w n = true -> is_word_boundary rest = true ->
  (forall m, m ∈ names -> String.length n < String.length m -> is_known (w +:+ rest) m = false) ->
  known_or_word (known_names names) (w +:+ rest) = Some (to_ascii_lowercase n).
Proof.
  intros Hn Ht Hw Hb Hlong. pose proof (is_known_self w n rest Hw Hb) as Hself.
  assert (n ∈ known_names names) as Hin by (apply elem_of_sort_by, elem_of_filter_b; by rewrite Ht).
  unfold known_or_word. destruct (find (is_known (w +:+ rest)) (known_names names)) as [m|] eqn:E.
  - pose proof (find_longest _ _ _ _ (known_names_sorted names) E Hin Hself) as Hle.
    destruct (List.find_some _ _ E) as [Hm Hk]. apply list_elem_of_In, elem_of_sort_by, elem_of_filter_b in Hm as [Hm _].
    destruct (decide (String.length n = String.length m)) as [El|]; [|rewrite (Hlong m) in Hk; [done|done|lia]].
    unfold is_known in Hk. rewrite <-El, <-(known_length _ _ Hw), substring_app_l in Hk.
    apply andb_true_iff in Hk as [Hk _]. apply andb_true_iff in Hk as [_ Hk]. apply String.eqb_eq in Hk, Hw. congruence.
  - apply list_elem_of_In in Hin. rewrite (List.find_none _ _ E n Hin) in Hself. done.
Qed.

Lemma match_names_spec `{JL : JsonLib} names profiles pk :
  pk ∈ match_names_to_profiles names profiles <->
  exists p n, p ∈ profiles /\ n ∈ names /\ mp_pubkey p = pk /\ profile_name p <> EmptyString /\
    to_ascii_lowercase n = to_ascii_lowercase (profile_name p).
Proof.
  unfold match_names_to_profiles. case_bool_decide as Hn.
  { subst names. split; [by intros ?%not_elem_of_nil|]. by intros (p & n & _ & ?%not_elem_of_nil & _). }
  rewrite list_elem_of_omap. split.
  - intros (p & Hp & H). cbn in H. destruct (String.eqb_spec (profile_name p) EmptyString) as [|Hne]; [done|].
    destruct (existsb _ names) eqn:E; [|done]. injection H as <-. apply existsb_exists in E as (n & Hin & E).
    exists p, n. apply list_elem_of_In in Hin. by apply String.eqb_eq in E.
  - intros (p & n & Hp & Hin & <- & Hne & E). exists p. split; [done|]. cbn. destruct (String.eqb_spec (profile_name p) EmptyString) as [|_]; [done|].
    assert (existsb (fun n => eq_ignore_ascii_case n (profile_name p)) names = true) as ->; [|done].
    apply existsb_exists. exists n. apply list_elem_of_In in Hin. split; [done|]. unfold eq_ignore_ascii_case. rewrite E. apply String.eqb_refl.
Qed.

(** The names taken from a message are exactly those that follow an [@] at
    the start or after white space: the longest known name that ends at a word
    boundary there, in lower case, or else the word; each is given once, and
    without known names the result is that of the single-word extractor.  A
    known display name written after such an [@] is found whatever its case,
    and whatever words it consists of, unless a longer known name stands there.
    The members then matched are exactly those whose profile carries one of
    these names. *)
Theorem mentions_found `{JL : JsonLib} content names :
  (forall x, x ∈ extract_at_mentions_with_known content names <->
     exists pre r, content = pre +:+ String "@" r /\ opens true pre = true /\ r <> EmptyString /\
    known_or_word (known_names names) r = Some x) /\
  NoDup (extract_at_mentions_with_known content names) /\
  extract_at_mentions_with_known content [] = extract_at_names content /\
  (forall pre written n rest, content = pre +:+ "@" +:+ written +:+ rest ->
     opens true pre = true -> n ∈ names -> String.eqb (trim n) EmptyString = false ->
     eq_ignore_ascii_case written n = true -> is_word_boundary rest = true ->
     (forall m, m ∈ names -> String.length n < String.length m -> is_known (written +:+ rest) m = false) ->
     to_ascii_lowercase n ∈ extract_at_mentions_with_known content names) /\
  (forall profiles pk, pk ∈ match_names_to_profiles (extract_at_mentions_with_known content names) profiles <->
     exists p x, p ∈ profiles /\ x ∈ extract_at_mentions_with_known content names /\ mp_pubkey p = pk /\
    profile_name p <> EmptyString /\ to_ascii_lowercase x = to_ascii_lowercase (profile_name p)).
Proof.
  split_and!; [intros x; apply extract_known_spec|apply extract_known_nodup|apply extract_known_nil| |intros; apply match_names_spec].
  intros pre written n rest -> Ho Hn Ht Hw Hb Hlong. apply extract_known_spec. exists pre, (written +:+ rest).
  split_and!; [done|done| |by apply known_name_found]. destruct written; [|done]. exfalso.
  apply known_length in Hw. destruct n; [|done]. done.
Qed.

Lemma mentions_found_witness :
  extract_at_mentions_with_known "hey @ada LOVELACE, see @bob" ["Ada"; "Ada Lovelace"] = ["ada lovelace"; "bob"] /\
  to_ascii_lowercase "Ada Lovelace" ∈ extract_at_mentions_with_known "hey @ada LOVELACE, see @bob" ["Ada"; "Ada Lovelace"].
Proof.
  split; [by vm_compute|].
  destruct (@mentions_found {| from_str := fun _ => None; json_text := fun _ => EmptyString |}
              "hey @ada LOVELACE, see @bob" ["Ada"; "Ada Lovelace"]) as (_ & _ & _ & H & _).
  apply (H "hey " "ada LOVELACE" "Ada Lovelace" ", see @bob"); try reflexivity.
  - right. left.
  - intros m Hm Hl. apply list_elem_of_In in Hm. destruct Hm as [<-|[<-|[]]]; cbn in Hl; lia.
Defined.

(** A text made of plain text, code spans and fenced blocks that begin a
    line (the last one possibly unclosed) is read the way it was written: each
    piece of code becomes one space and nothing else changes.  So a reference
    inside code is not a mention and one outside is.  For any text at all the
    scan ends, and never lengthens it. *)
Theorem code_hidden content :
  (exists out, strip_loop (S (String.length content)) true content = Some out /\
     strip_code_regions content = out /\ String.length out <= String.length content) /\
  (no_backtick content = true -> strip_code_regions content = content) /\
  (forall segments, segments_ok true segments = true -> content = render segments -> strip_code_regions content = visible segments).
Proof.
  split_and!.
  - destruct (strip_loop_total (S (String.length content)) true content) as (out & E & Hl); [lia|]. exists out.
    unfold strip_code_regions. by rewrite E.
  - intros Hb. apply strips_content. rewrite <-(str_app_nil_r content). apply strips_plain; [done|apply strips_nil].
  - intros l Hl ->. by apply strips_content, strips_segments.
Qed.

Lemma code_hidden_witness :
  let l := [Plain "see "; Span "@a"; Plain (" and" +:+ nl +:+ " "); Block "rs" ("let x;" +:+ nl) " "; Plain "end"; Span "b"] in
  segments_ok true l = true /\ strip_code_regions (render l) = "see   and" +:+ nl +:+ "  end ".
Proof.
  cbn zeta. split; [reflexivity|]. destruct (code_hidden (render [Plain "see "; Span "@a"; Plain (" and" +:+ nl +:+ " ");
    Block "rs" ("let x;" +:+ nl) " "; Plain "end"; Span "b"])) as (_ & _ & H).
  etransitivity; [eapply H; [|reflexivity]; reflexivity|reflexivity].
Defined.
