(* ===== verification/Cli.v ===== *)
(** * Command line client

    [buzz-cli/src/error.rs], [validate.rs] and [client.rs]: the errors of the
    command line, the checks of its arguments, and the HTTP client it talks to
    the relay with.  A command is a function of the world [World], the state of
    everything outside the process ([Env]) with the requests it sent and the
    delays it slept, that ends in a [result].  The HTTP stack, the signer, the
    clock, the file system, URLs and the JSON of the relay's receipts are the
    class [CliLib]. *)

From S2P Require Import Prelude Text Nostr Demo Kinds OwnerAttestation GitPerms Sdk Json Mentions.

(** ** Errors *)

(** [reqwest::Error]. *)
Record NetError := mkNetError {
  net_text : string;
  net_causes : list string;
  is_connect : bool;
  is_timeout : bool;
  is_request : bool;
  is_body : bool;
  is_decode : bool;
}.

Inductive CliError :=
| Usage (msg : string)
| RelayError (status : N) (body : string)
| Network (e : NetError)
| AuthError (msg : string)
| KeyError (msg : string)
| Conflict (msg : string)
| NotFound (msg : string)
| DeliveryUnknown (msg : string)
| Other (msg : string).

Definition fmt_reqwest_error (e : NetError) : string :=
  fold_left (fun msg cause => if str_contains cause msg then msg else msg +:+ ": " +:+ cause) (net_causes e) (net_text e).

(** [Display]. *)
Definition cli_error_to_string (e : CliError) : string :=
  match e with
  | Usage m | NotFound m | Other m => m
  | RelayError status body => "relay error " +:+ num status +:+ ": " +:+ body
  | Network e => "network error: " +:+ fmt_reqwest_error e
  | AuthError m => "auth error: " +:+ m
  | KeyError m => "key error: " +:+ m
  | Conflict m => "conflict: " +:+ m
  | DeliveryUnknown m => "delivery unknown: " +:+ m
  end.

Definition transport (e : NetError) : bool := is_connect e || is_timeout e || is_request e || is_body e || is_decode e.

Definition is_retryable_error (e : CliError) : bool :=
  match e with
  | Network e => transport e
  | RelayError status _ => existsb (N.eqb status) [429; 502; 503; 504]%N
  | _ => false
  end.

Definition exit_code (e : CliError) : Z :=
  match e with
  | Usage _ => 1
  | RelayError status _ => if (status =? 401)%N || (status =? 403)%N then 3 else 2
  | Network _ => 2
  | AuthError _ => 3
  | KeyError _ => 3
  | Conflict _ => 5
  | NotFound _ => 1
  | DeliveryUnknown _ => 2
  | Other _ => 4
  end%Z.

Definition category (e : CliError) : string :=
  match e with
  | Usage _ => "user_error"
  | RelayError status _ => if (status =? 401)%N || (status =? 403)%N then "auth_error" else "relay_error"
  | Network _ => "network_error"
  | AuthError _ => "auth_error"
  | KeyError _ => "key_error"
  | Conflict _ => "conflict"
  | NotFound _ => "not_found"
  | DeliveryUnknown _ => "delivery_unknown"
  | Other _ => "error"
  end.

(** The object printed on the error stream. *)
Definition print_error (e : CliError) : Value :=
  VObject [("error", VString (category e)); ("message", VString (cli_error_to_string e)); ("retryable", VBool (is_retryable_error e))].

Definition sdk_error_to_string (e : SdkError) : string :=
  match e with
  | ContentTooLarge max got => "content exceeds maximum size of " +:+ num max +:+ " bytes (got " +:+ num got +:+ ")"
  | InvalidTag r => "invalid tag: " +:+ r
  | EmojiTooLong => "emoji exceeds maximum length of 64 characters"
  | TooManyMentions => "too many mentions (max 50)"
  | InvalidDiffMeta r => "invalid diff metadata: " +:+ r
  | InvalidInput r => "invalid input: " +:+ r
  end.

Definition sdk_err (e : SdkError) : CliError :=
  match e with InvalidInput msg => Usage msg | other => Other (sdk_error_to_string other) end.

(** ** Arguments *)

Definition MAX_CONTENT_BYTES : N := 65536.
Definition MAX_DIFF_BYTES : N := 61440.

Definition hex64 (s : string) : bool := (len s =? 64)%N && all_hex s.

Definition validate_hex64 (s : string) : result CliError unit :=
  if negb (hex64 s) then Err (Usage ("must be a 64-character hex string: " +:+ s)) else Ok tt.

Definition validate_repo_id (s : string) : result CliError unit :=
  if String.eqb s EmptyString || (64 <? len s)%N then Err (Usage ("repo ID must be 1-64 characters (got " +:+ num (len s) +:+ ")"))
  else if starts_with s "." then Err (Usage "repo ID must not start with '.'")
  else if str_contains ".." s then Err (Usage "repo ID must not contain '..'")
  else if negb (str_forallb (fun c => is_ascii_alphanumeric c || Ascii.eqb c "." || Ascii.eqb c "_" || Ascii.eqb c "-") s)
  then Err (Usage ("repo ID contains invalid characters (allowed: a-z A-Z 0-9 . _ -): " +:+ s))
  else Ok tt.

Definition validate_content_size (content : string) : result CliError unit :=
  if (MAX_CONTENT_BYTES <? len content)%N
  then Err (Usage ("content exceeds maximum size (" +:+ num (len content) +:+ " > " +:+ num MAX_CONTENT_BYTES +:+ " bytes)"))
  else Ok tt.

Definition TRUNCATION_NOTICE : string :=
  String Lines.newline (String Lines.newline "[diff truncated — exceeded size limit]").

(** The last index up to [limit] where a character begins, among the indices
    from [i] on; [0] when there is none. *)
Fixpoint last_boundary (i limit acc : nat) (s : string) : nat :=
  match s with
  | EmptyString => acc
  | String c r =>
      if (limit <? i)%nat then acc else last_boundary (S i) limit (if char_start c then i else acc) r
  end.

(** [s.rfind(needle)], as an index. *)
Fixpoint rfind (needle s : string) : option nat :=
  match s with
  | EmptyString => if starts_with s needle then Some 0 else None
  | String _ r =>
      match rfind needle r with
      | Some i => Some (S i)
      | None => if starts_with s needle then Some 0 else None
      end
  end.

Definition hunk : string := String Lines.newline "@@".

Definition truncate_diff (diff : string) (max_bytes : nat) : string * bool :=
  if (String.length diff <=? max_bytes)%nat then (diff, false)
  else
    let effective_limit := max_bytes - String.length TRUNCATION_NOTICE in
    let utf8_boundary := last_boundary 0 effective_limit 0 diff in
    let safe_prefix := String.substring 0 utf8_boundary diff in
    let cut_point :=
      match rfind hunk safe_prefix with
      | Some (S p) => S p
      | _ => default utf8_boundary (rfind nl safe_prefix)
      end in
    (String.substring 0 cut_point diff +:+ TRUNCATION_NOTICE, true).

(** The language of each file extension. *)
Definition LANGUAGES : list (list string * string) :=
  [(["rs"], "rust"); (["ts"; "tsx"], "typescript"); (["js"; "jsx"], "javascript"); (["py"], "python"); (["go"], "go");
   (["java"], "java"); (["rb"], "ruby"); (["c"; "h"], "c"); (["cpp"; "cc"; "cxx"; "hpp"], "cpp"); (["cs"], "csharp");
   (["swift"], "swift"); (["kt"; "kts"], "kotlin"); (["scala"], "scala"); (["sh"; "bash"; "zsh"], "bash"); (["sql"], "sql");
   (["html"; "htm"], "html"); (["css"; "scss"; "sass"], "css"); (["json"], "json"); (["yaml"; "yml"], "yaml"); (["toml"], "toml");
   (["xml"], "xml"); (["md"; "markdown"], "markdown"); (["dockerfile"], "dockerfile")].

Definition infer_language (file_path : string) : option string :=
  let ext := match rsplit_once "." file_path with Some (_, e) => e | None => file_path end in
  find_map (fun x : list string * string => if existsb (String.eqb ext) x.1 then Some x.2 else None) LANGUAGES.

(** ** The outside *)

Record Request := mkRequest {
  rq_method : string;
  rq_url : string;
  rq_headers : list (string * string);
  rq_body : option string;
  rq_timeout : option N;
  rq_redirects : bool;
}.

(** What became of a request: no response, or a status with its body, whose
    transfer may fail. *)
Inductive Sent :=
| SendFailed (e : NetError)
| Response (status : N) (body : result NetError string).

Inductive Delay := JitterBelow (ms : N) | Seconds (n : N).

Inductive FileRead :=
| CannotAccess (e : string)
| NotAFile
| ReadFailed (e : string)
| FileBytes (bytes : string).

Inductive Host := Domain (d : string) | Ipv4 (a : string) | Ipv6 (a : string).

(** [url::Url]. *)
Record Url := mkUrl {
  u_scheme : string;
  u_host : option Host;
  u_host_str : option string;
  u_port : option N;
  u_port_or_known_default : option N;
  u_path : string;
}.

Record ArtifactReceipt := mkReceipt { receipt_sha256 : string; receipt_size : N; receipt_url : string }.

(** [duration] as it is printed. *)
Record BlobDescriptor := mkBlob {
  blob_url : string;
  blob_sha256 : string;
  blob_size : N;
  mime_type : string;
  uploaded : Z;
  dim : option string;
  blurhash : option string;
  thumb : option string;
  duration : option string;
}.

Class CliLib := {
  Env : Type;
  (** one HTTP exchange *)
  exchange : Request -> Env -> Sent * Env;
  (** [Uuid::new_v4().to_string()] and [Timestamp::now()] *)
  new_uuid : Env -> string * Env;
  unix_now : Env -> N * Env;
  (** [builder.sign_with_keys(&self.keys)] *)
  sign_with_keys : EventBuilder -> Env -> result string Event * Env;
  as_json : Event -> string;
  (** [serde_json::to_vec(&event)] *)
  event_bytes : Event -> result string string;
  B64_encode : string -> string;
  URL_SAFE_encode : string -> string;
  url_parse : string -> result string Url;
  (** whether [BUZZ_AUTH_TAG] is set *)
  auth_tag_set : bool;
  read_file : string -> Env -> FileRead;
  read_stdin : Env -> result string string;
  (** [infer::get(..).map(mime_type)] *)
  infer_mime : string -> option string;
  (** [serde_json] of the two receipts, with the error of [Response::json] *)
  read_receipt : string -> result string ArtifactReceipt;
  read_descriptor : string -> result NetError BlobDescriptor;
  (** the text of the error of [serde_json::from_str] *)
  json_error : string -> string;
  (** [EventId::parse], which reads hex, bech32 and URIs *)
  EventId_parse : string -> result string EventId;
}.

(** ** Authorities of URLs *)

Fixpoint strip_suffix (p s : string) : option string :=
  if String.eqb s p then Some EmptyString
  else match s with EmptyString => None | String c r => String c <$> strip_suffix p r end.

Definition normalize_host (host : string) : string :=
  let host := to_ascii_lowercase (trim host) in
  let host := default host (union_first (strip_suffix ":443" host) (strip_suffix ":80" host)) in
  default host (strip_suffix "." host).

(** [s.replace(from, to)] for a non-empty [from]; [fuel] counts the bytes. *)
Fixpoint replace_all (fuel : nat) (from to s : string) : string :=
  match fuel with
  | O => s
  | S fuel =>
      match strip_prefix from s with
      | Some rest => to +:+ replace_all fuel from to rest
      | None => match s with EmptyString => EmptyString | String c r => String c (replace_all fuel from to r) end
      end
  end.

Definition str_replace (from to s : string) : string := replace_all (String.length s) from to s.

Definition normalize_relay_url (url : string) : string :=
  trim_end_matches "/" (str_replace "ws://" "http://" (str_replace "wss://" "https://" url)).

Definition to_ws_url (http_url : string) : string := str_replace "http://" "ws://" (str_replace "https://" "wss://" http_url).

(** ** Constants and small decisions of the client *)

Definition ALLOWED_MIMES : list string := ["image/jpeg"; "image/png"; "image/gif"; "image/webp"; "video/mp4"].
Definition MAX_IMAGE_BYTES : N := 50 * 1024 * 1024.
Definition MAX_VIDEO_BYTES : N := 500 * 1024 * 1024.
Definition RETRY_MAX_ATTEMPTS : nat := 3.
Definition RETRY_BASE_MS : list N := [500; 1500]%N.
Definition RETRY_IN_MAX_SECS : N := 30.
Definition QUERY_PAGE_SIZE : nat := 500.

Definition opt_item (prefix : string) (o : option string) : list string :=
  match o with Some x => [prefix +:+ x] | None => [] end.

Definition build_imeta_tag (d : BlobDescriptor) : list string :=
  ["imeta"; "url " +:+ blob_url d; "m " +:+ mime_type d; "x " +:+ blob_sha256 d; "size " +:+ num (blob_size d)] ++
  opt_item "dim " (dim d) ++ opt_item "blurhash " (blurhash d) ++ opt_item "thumb " (thumb d) ++ opt_item "duration " (duration d).

(** [attempt] is 0 or 1 at every call. *)
Definition jitter_delay (attempt : nat) : Delay := JitterBelow (nth attempt RETRY_BASE_MS 0%N).

(** The value of an environment variable as seconds. *)
Definition env_duration_secs (var : option string) (default_secs : N) : N :=
  match var ≫= parse_u64 with Some n => if (0 <? n)%N then n else default_secs | None => default_secs end.

Definition parse_retry_hint_text (text : string) : option N :=
  after ← after_str "retry in " text;
  let '(digits, rest) := take_digits after in
  if String.eqb digits EmptyString || negb (starts_with rest "s") then None else parse_u64 digits.

Definition should_retry_legacy_upload (status : N) : bool := (status =? 404)%N || (status =? 405)%N.
Definition is_moderation_kind (kind : N) : bool := ((9040 <=? kind) && (kind <=? 9044))%N.
Definition resp_was_success (status : N) : bool := ((200 <=? status) && (status <? 300))%N.
Definition proxy_status (status : N) : bool := ((502 <=? status) && (status <=? 504))%N.

Definition is_stored_event_exhaustion_ambiguous (e : CliError) : bool :=
  match e with
  | Network e => if is_connect e then false else is_timeout e || is_body e || is_decode e || is_request e
  | RelayError status _ => if (status =? 429)%N then false else proxy_status status
  | _ => false
  end.

Definition is_lower_hex_sha256 (value : string) : bool := (len value =? 64)%N && str_forallb is_lower_hex_char value.

Definition is_safe_media_ext (value : string) : bool :=
  negb (String.eqb value EmptyString) && (len value <=? 8)%N && str_forallb (fun c => Lines.byte_in 97 122 c || is_digit c) value.

Definition is_safe_media_path_segment (sha256_ext : string) : bool :=
  match split_on "." sha256_ext with
  | [hash] => is_lower_hex_sha256 hash
  | [hash; ext] => is_lower_hex_sha256 hash && is_safe_media_ext ext
  | [hash; a; b] => String.eqb a "thumb" && String.eqb b "jpg" && is_lower_hex_sha256 hash
  | _ => false
  end.

Definition normalize_artifact_sha256 (value : string) : result CliError string :=
  let? _ := map_err (fun _ => Usage "artifact sha256 must be exactly 64 hex characters") (validate_hex64 value) in
  Ok (to_ascii_lowercase value).

(** [trim_start_matches(prefix)]; [fuel] counts the bytes. *)
Fixpoint trim_start_str (fuel : nat) (p s : string) : string :=
  match fuel with O => s | S fuel => match strip_prefix p s with Some r => trim_start_str fuel p r | None => s end end.

(** [filter[k] = v], which panics on other values than these two. *)
Definition index_set (filter : Value) (k : string) (v : Value) : Value :=
  match filter with VObject fields => VObject (set_field k v fields) | VNull => VObject [(k, v)] | other => other end.

Definition json_u64 (n : N) : Value := VNumber (PosInt n).

Definition advance_query_cursor (filter : Value) (page : list Value) : result CliError Value :=
  let v := last page in
  let? created_at := ok_or (v ?> field "created_at" ?> as_u64) (Other "query event missing created_at") in
  let? id := ok_or (v ?> field "id" ?> as_str ?> (fun id => if hex64 id then Some id else None)) (Other "query event missing valid id") in
  Ok (index_set (index_set filter "until" (json_u64 created_at)) "before_id" (VString id)).

(** ** JSON of answers *)

Section answers.
Context `{JL : JsonLib}.

Definition message_field (v : Value) : option string := union_first (field "error" v) (field "message" v) ?> as_str.

Definition extract_relay_message_field (body : string) : option string := from_str body ?> message_field.

Definition str_or (o : option Value) : Value := VString (default EmptyString (o ?> as_str)).
Definition u64_or (o : option Value) : Value := json_u64 (default 0%N (o ?> as_u64)).

Definition normalize_event (e : Value) : Value :=
  VObject [("id", str_or (field "id" e)); ("pubkey", str_or (field "pubkey" e)); ("kind", u64_or (field "kind" e));
           ("content", str_or (field "content" e)); ("created_at", u64_or (field "created_at" e));
           ("tags", default (VArray []) (field "tags" e))].

Definition normalize_events (events : list Value) : string := json_text (VArray (normalize_event <$> events)).

Definition as_bool (v : Value) : option bool := match v with VBool b => Some b | _ => None end.

Definition normalize_write_response (raw : string) : string :=
  match from_str raw with
  | Some v =>
      if bool_decide (is_Some (field "event_id" v)) || bool_decide (is_Some (field "accepted" v))
      then json_text (VObject [("event_id", str_or (field "event_id" v)); ("accepted", VBool (default false (field "accepted" v ?> as_bool)));
                               ("message", str_or (field "message" v))])
      else raw
  | None => raw
  end.

(** The tag with this name, and its value. *)
Definition tag_named (key : string) (t : Value) : bool :=
  bool_decide (as_array t ?> head ?> as_str = Some key).

Definition extract_tag_value (event : Value) (key : string) : string :=
  default EmptyString (field "tags" event ?> as_array ?> find (tag_named key) ?> as_array ?> (fun a => a !! 1) ?> as_str).

Definition extract_d_tag (event : Value) : string := extract_tag_value event "d".

Definition extract_p_tags (event : Value) : list Value :=
  match field "tags" event ?> as_array with
  | Some tags =>
      (fun t => let a := default [] (as_array t) in
         VObject [("pubkey", str_or (a !! 1));
                  ("role", VString (default "member" ((a !! 3) ?> as_str ?> (fun s => if String.eqb s EmptyString then None else Some s))))])
      <$> List.filter (tag_named "p") tags
  | None => []
  end.

(** [None] stands for the panic of an answer that is no object. *)
Definition create_response_with_id (resp id_key id_val : string) : option string :=
  match default (VObject []) (from_str resp) with
  | (VObject _ | VNull) as v =>
      let v := index_set v id_key (VString id_val) in
      Some (json_text (if bool_decide (is_Some (field "accepted" v)) then v else index_set v "accepted" (VBool true)))
  | _ => None
  end.

Definition extract_relay_response_field (resp name : string) : option string :=
  from_str resp ?> field "message" ?> as_str ?> strip_prefix "response:" ?> from_str ?> field name ?> as_str.
End answers.

(** ** Commands *)

Section client.
Context `{NL : NostrLib, SK : SdkLib, JL : JsonLib, CL : CliLib}.

Record World := mkWorld { w_env : Env; w_sent : list (Request * Sent); w_slept : list Delay }.

Definition with_env (w : World) (e : Env) : World := mkWorld e (w_sent w) (w_slept w).

Definition M (A : Type) : Type := World -> result CliError A * World.

Definition ret {A} (a : A) : M A := fun w => (Ok a, w).
Definition fail {A} (e : CliError) : M A := fun w => (Err e, w).
Definition lift {A} (r : result CliError A) : M A := fun w => (r, w).
Definition bind {A B} (m : M A) (k : A -> M B) : M B :=
  fun w => match m w with (Ok a, w) => k a w | (Err e, w) => (Err e, w) end.

Notation "'let!' x ':=' m 'in' k" := (bind m (fun x => k)) (at level 10, x pattern, m at level 200, k at level 200) : result_scope.

Definition send (q : Request) : M Sent :=
  fun w => let '(s, e) := exchange q (w_env w) in (Ok s, mkWorld e (w_sent w ++ [(q, s)]) (w_slept w)).

Definition sleep (d : Delay) (w : World) : World := mkWorld (w_env w) (w_sent w) (w_slept w ++ [d]).

Definition fresh_uuid : M string := fun w => let '(u, e) := new_uuid (w_env w) in (Ok u, with_env w e).
Definition now : M N := fun w => let '(t, e) := unix_now (w_env w) in (Ok t, with_env w e).

Definition sign (msg : string -> string) (b : EventBuilder) : M Event :=
  fun w => let '(r, e) := sign_with_keys b (w_env w) in (map_err (fun e => Other (msg e)) r, with_env w e).

Record BuzzClient := mkClient { relay_url : string; auth_tag : option Tag; auth_tag_json : option string }.

(** [sign_nip98] with the client's keys. *)
Definition nip98_tag (parts : list string) : M Tag := lift (map_err (fun e => Other ("tag error: " +:+ e)) (tag_parse parts)).

Definition sign_nip98 (method url : string) (body : option string) : M string :=
  let! u := nip98_tag ["u"; url] in
  let! m := nip98_tag ["method"; method] in
  let! nonce := fresh_uuid in
  let! n := nip98_tag ["nonce"; nonce] in
  let! payload := match body with
                  | Some b => let! t := nip98_tag ["payload"; sha256_hex b] in ret [t]
                  | None => ret []
                  end in
  let! event := sign (fun e => "NIP-98 signing failed: " +:+ e) (mkBuilder 27235 EmptyString ([u; m; n] ++ payload) false) in
  ret ("Nostr " +:+ B64_encode (as_json event)).

Definition artifact_sha256 (bytes : string) : string := sha256_hex bytes.

Definition parse_artifact_receipt (body : string) : result CliError ArtifactReceipt :=
  let? receipt := map_err (fun e => Other ("invalid artifact receipt: " +:+ e)) (read_receipt body) in
  let? sha256 := map_err (fun e => Other ("invalid artifact receipt: " +:+ cli_error_to_string e))
                   (normalize_artifact_sha256 (receipt_sha256 receipt)) in
  Ok (mkReceipt sha256 (receipt_size receipt) (receipt_url receipt)).

Definition verify_artifact_bytes (expected_sha256 bytes : string) : result CliError unit :=
  let? expected_sha256 := normalize_artifact_sha256 expected_sha256 in
  let actual_sha256 := artifact_sha256 bytes in
  if negb (String.eqb actual_sha256 expected_sha256)
  then Err (Other ("artifact content verification failed: expected " +:+ expected_sha256 +:+ ", got " +:+ actual_sha256))
  else Ok tt.

Definition relay_url_authority (url : string) : string :=
  match url_parse url with
  | Err _ => EmptyString
  | Ok url =>
      match u_host url with
      | None => EmptyString
      | Some host =>
          let host := match host with Domain d => d | Ipv4 a => a | Ipv6 a => "[" +:+ a +:+ "]" end in
          normalize_host (match u_port url with Some port => host +:+ ":" +:+ num port | None => host end)
      end
  end.

Definition relay_server_tag (url : string) : option string :=
  let authority := relay_url_authority url in
  if String.eqb authority EmptyString then None else Some authority.

Definition same_origin (a b : Url) : bool :=
  bool_decide (u_scheme a = u_scheme b) && bool_decide (u_host_str a = u_host_str b) &&
  bool_decide (u_port_or_known_default a = u_port_or_known_default b).

Definition media_url_from_input (relay_url input : string) : result CliError string :=
  let input := trim input in
  if http_url input then
    let? parsed := map_err (fun e => Usage ("invalid media URL: " +:+ e)) (url_parse input) in
    match strip_prefix "/media/" (u_path parsed) with
    | None => Err (Usage "media URL must point at a /media/ path")
    | Some sha256_ext =>
        if negb (is_safe_media_path_segment sha256_ext)
        then Err (Usage "media path must be sha256, sha256.ext, or sha256.thumb.jpg")
        else
          let? relay := map_err (fun e => Usage ("invalid relay URL: " +:+ e)) (url_parse relay_url) in
          if negb (same_origin parsed relay) then Err (Usage "refusing to sign media GET for a non-relay origin") else Ok input
    end
  else if str_contains "://" input then Err (Usage "media URL must use http:// or https://")
  else
    let sha256_ext := trim_start_str (String.length input) "/media/" input in
    if String.eqb sha256_ext EmptyString then Err (Usage "media input must be a URL or sha256[.ext]")
    else if negb (is_safe_media_path_segment sha256_ext)
    then Err (Usage "media input must be sha256, sha256.ext, or sha256.thumb.jpg")
    else Ok (trim_end_matches "/" relay_url +:+ "/media/" +:+ sha256_ext).

Definition blossom_tag (parts : list string) : M Tag := lift (map_err Other (tag_parse parts)).

Definition blossom_sign (content : string) (tags : list Tag) : M string :=
  let! event := sign (fun e => "signing failed: " +:+ e) (mkBuilder 24242 content tags false) in
  ret ("Nostr " +:+ URL_SAFE_encode (as_json event)).

Definition sign_blossom_get (media_url : string) : M string :=
  let! t0 := now in
  let! domain := lift (ok_or (relay_server_tag media_url) (Usage ("invalid media URL: " +:+ media_url))) in
  let! t := blossom_tag ["t"; "get"] in
  let! e := blossom_tag ["expiration"; num (t0 + 600)] in
  let! s := blossom_tag ["server"; domain] in
  blossom_sign "Get media" [t; e; s].

Definition sign_blossom_upload (sha256 mime relay_url : string) : M string :=
  let! t0 := now in
  let expiry := if starts_with mime "video/" then 3600%N else 600%N in
  let! t := blossom_tag ["t"; "upload"] in
  let! x := blossom_tag ["x"; sha256] in
  let! e := blossom_tag ["expiration"; num (t0 + expiry)] in
  let! server := match relay_server_tag relay_url with
                 | Some domain => let! s := blossom_tag ["server"; domain] in ret [s]
                 | None => ret []
                 end in
  blossom_sign "Upload file" ([t; x; e] ++ server).

(** ** The client *)

Definition is_auth_tag (t : Tag) : bool := bool_decide (head t = Some "auth"%string).

Definition auth_tag_owner_hex (c : BuzzClient) : option string := auth_tag c ≫= (fun t => t !! 1).

Definition sign_event (c : BuzzClient) (builder : EventBuilder) : M Event :=
  let builder := match auth_tag c with
                 | Some t => mkBuilder (b_kind builder) (b_content builder) (b_tags builder ++ [t]) (b_allow_self_tagging builder)
                 | None => builder
                 end in
  let! event := sign (fun e => "signing failed: " +:+ e) builder in
  let auth_count := length (List.filter is_auth_tag (ev_tags event)) in
  let expected := match auth_tag c with Some _ => 1 | None => 0 end in
  if negb (auth_count =? expected)%nat
  then fail (Other ("event has " +:+ num (N.of_nat auth_count) +:+ " auth tags — expected " +:+ num (N.of_nat expected) +:+
                    "; callers must not add auth tags manually"))
  else ret event.

Definition sign_event_unchecked (builder : EventBuilder) : M Event := sign (fun e => "signing failed: " +:+ e) builder.

(** [self.with_auth_tag(req)]. *)
Definition with_auth_tag (c : BuzzClient) (q : Request) : Request :=
  match auth_tag_json c with
  | Some json => mkRequest (rq_method q) (rq_url q) (rq_headers q ++ [("x-auth-tag", json)]) (rq_body q) (rq_timeout q) (rq_redirects q)
  | None => q
  end.

Definition retry_delay (attempt : nat) (e : CliError) : option Delay :=
  match e with
  | Network e => if transport e then Some (jitter_delay attempt) else None
  | RelayError status body =>
      if (status =? 429)%N then
        Some (match parse_retry_hint_text body with Some s => Seconds (N.min s RETRY_IN_MAX_SECS) | None => jitter_delay attempt end)
      else if proxy_status status then Some (jitter_delay attempt) else None
  | _ => None
  end.

(** The loop, with the attempts left; [unreachable!] when there is none. *)
Fixpoint retry_loop {A} (n attempt : nat) (op : M A) : M A := fun w =>
  match n with
  | O => (Err (Other "unreachable"), w)
  | S n =>
      match op w with
      | (Ok value, w) => (Ok value, w)
      | (Err e, w) =>
          match (if (n =? 0)%nat then None else retry_delay attempt e) with
          | Some d => retry_loop n (S attempt) op (sleep d w)
          | None => (Err e, w)
          end
      end
  end.

Definition with_retry_body {A} (op : M A) : M A := retry_loop RETRY_MAX_ATTEMPTS 0 op.

(** [.send().await?] *)
Definition send_ok (q : Request) : M (N * result NetError string) :=
  let! s := send q in
  match s with SendFailed e => fail (Network e) | Response status body => ret (status, body) end.

Definition auth_hint (status : N) (message : string) : string :=
  if (status =? 403)%N && auth_tag_set
  then message +:+ " (BUZZ_AUTH_TAG is set — it may be stale or revoked; try unsetting it)" else message.

Definition text_or_empty (body : result NetError string) : string := match body with Ok b => b | Err _ => EmptyString end.

Definition handle_response (status : N) (body : result NetError string) : result CliError string :=
  if negb (resp_was_success status) then
    let body := text_or_empty body in
    let message := default body (extract_relay_message_field body) in
    Err (RelayError status (auth_hint status message))
  else map_err Network body.

(** [POST] of JSON with a fresh authorization. *)
Definition post_json (c : BuzzClient) (url body : string) : M (N * result NetError string) :=
  let! auth := sign_nip98 "POST" url (Some body) in
  send_ok (with_auth_tag c (mkRequest "POST" url [("Authorization", auth); ("Content-Type", "application/json")] (Some body) None true)).

Definition post_and_read (c : BuzzClient) (url body : string) : M string :=
  let! (status, body) := post_json c url body in
  lift (handle_response status body).

Definition query_multi (c : BuzzClient) (filters : list Value) : M string :=
  with_retry_body (post_and_read c (relay_url c +:+ "/query") (json_text (VArray filters))).

Definition query (c : BuzzClient) (filter : Value) : M string := query_multi c [filter].

Definition count (c : BuzzClient) (filter : Value) : M string :=
  with_retry_body (post_and_read c (relay_url c +:+ "/count") (json_text (VArray [filter]))).

Definition get_public (c : BuzzClient) (path : string) : M string :=
  let! (status, body) := send_ok (mkRequest "GET" (relay_url c +:+ path) [("Accept", "application/nostr+json")] None None true) in
  lift (handle_response status body).

Definition get_authed (c : BuzzClient) (path : string) : M string :=
  let url := relay_url c +:+ path in
  with_retry_body (
    let! auth := sign_nip98 "GET" url None in
    let! (status, body) := send_ok (with_auth_tag c (mkRequest "GET" url [("Authorization", auth)] None None true)) in
    lift (handle_response status body)).

(** The loop of [query_pages]; the outer [None] is out of fuel. *)
Definition more_pages (limit : option nat) (got : nat) : bool := match limit with Some l => (got <? l)%nat | None => true end.

Definition page_limit (limit : option nat) (got : nat) : nat :=
  match limit with Some l => Nat.min (l - got) QUERY_PAGE_SIZE | None => QUERY_PAGE_SIZE end.

Fixpoint query_pages (fuel : nat) (c : BuzzClient) (filter : Value) (limit : option nat) (events : list Value) : M (option (list Value)) :=
  match fuel with
  | O => ret None
  | S fuel =>
      if negb (more_pages limit (length events)) then ret (Some events)
      else
        let page_limit := page_limit limit (length events) in
        let filter := index_set filter "limit" (json_u64 (N.of_nat page_limit)) in
        let! raw := query c filter in
        let! page := lift (ok_or (from_str raw ?> as_array) (Other ("failed to parse query response: " +:+ json_error raw))) in
        let is_done := (length page <? page_limit)%nat in
        if is_done then ret (Some (events ++ page))
        else
          let! filter := lift (advance_query_cursor filter page) in
          query_pages fuel c filter limit (events ++ page)
  end.

Definition query_paginated (fuel : nat) (c : BuzzClient) (filter : Value) (limit : nat) : M (option (list Value)) :=
  query_pages fuel c filter (Some limit) [].

Definition query_all (fuel : nat) (c : BuzzClient) (filter : Value) : M (option (list Value)) := query_pages fuel c filter None [].

(** *** Submission *)

Definition serialize (event : Event) : M string :=
  lift (map_err (fun e => Other ("event serialization failed: " +:+ e)) (event_bytes event)).

(** What [submit_moderation_event] does with the outcome of one attempt: end
    with a result, or sleep and try again. *)
Definition unknown_outcome (kind : N) (why : string) : CliError :=
  DeliveryUnknown ("moderation command (kind " +:+ num kind +:+ ") outcome unknown: " +:+ why).

Definition canonical_429 (body_text : string) : bool :=
  starts_with (default body_text (extract_relay_message_field body_text)) "rate-limited:".

Definition moderation_outcome (kind : N) (is_last : bool) (attempt : nat) (s : Sent) : result CliError string + Delay :=
  match s with
  | SendFailed e =>
      if negb is_last && is_connect e then inr (jitter_delay attempt)
      else if is_connect e then inl (Err (Network e))
      else if is_timeout e || is_request e || is_body e || is_decode e then inl (Err (unknown_outcome kind (net_text e)))
      else inl (Err (Network e))
  | Response status body =>
      if (status =? 429)%N then
        let body_text := text_or_empty body in
        let msg := default body_text (extract_relay_message_field body_text) in
        if starts_with msg "rate-limited:" then
          if negb is_last then
            inr (match parse_retry_hint_text msg with Some s => Seconds (N.min s RETRY_IN_MAX_SECS) | None => jitter_delay attempt end)
          else inl (Err (RelayError 429 body_text))
        else inl (Err (unknown_outcome kind "HTTP 429"))
      else if proxy_status status then inl (Err (unknown_outcome kind ("HTTP " +:+ num status)))
      else
        match body with
        | Err e => inl (Err (unknown_outcome kind ("response body lost: " +:+ net_text e)))
        | Ok body_text =>
            if negb (resp_was_success status)
            then inl (Err (RelayError status (auth_hint status (default body_text (extract_relay_message_field body_text)))))
            else inl (Ok body_text)
        end
  end.

Fixpoint moderation_loop (n attempt : nat) (c : BuzzClient) (kind : N) (url body : string) : M string :=
  match n with
  | O => fail (Other "unreachable")
  | S n =>
      let! auth := sign_nip98 "POST" url (Some body) in
      let! s := send (with_auth_tag c (mkRequest "POST" url [("Authorization", auth); ("Content-Type", "application/json")]
                                        (Some body) None true)) in
      match moderation_outcome kind (n =? 0)%nat attempt s with
      | inl r => lift r
      | inr d => fun w => moderation_loop n (S attempt) c kind url body (sleep d w)
      end
  end.

Definition submit_moderation_event (c : BuzzClient) (event : Event) : M string :=
  let! body := serialize event in
  moderation_loop RETRY_MAX_ATTEMPTS 0 c (ev_kind event) (relay_url c +:+ "/events") body.

Definition submit_stored_event (c : BuzzClient) (event : Event) : M string :=
  let! body := serialize event in
  fun w =>
    match with_retry_body (post_and_read c (relay_url c +:+ "/events") body) w with
    | (Err e, w) =>
        if is_stored_event_exhaustion_ambiguous e
        then (Err (DeliveryUnknown ("stored event (kind " +:+ num (ev_kind event) +:+ ") outcome unknown after all attempts: " +:+
                                    cli_error_to_string e)), w)
        else (Err e, w)
    | r => r
    end.

Definition submit_event (c : BuzzClient) (event : Event) : M string :=
  if is_moderation_kind (ev_kind event) then submit_moderation_event c event else submit_stored_event c event.

(** *** Files and artifacts *)

Definition refuse (status : N) (body : result NetError string) : M unit :=
  if negb (resp_was_success status) then fail (RelayError status (text_or_empty body)) else ret tt.

Definition upload_timeout (mime : string) : N := if starts_with mime "video/" then 600 else 120.

Definition upload_once (c : BuzzClient) (url mime sha256 bytes : string) : M BlobDescriptor :=
  let! auth := sign_blossom_upload sha256 mime (relay_url c) in
  let! (status, body) := send_ok (with_auth_tag c (mkRequest "PUT" url
        [("Authorization", auth); ("Content-Type", mime); ("X-SHA-256", sha256)] (Some bytes) (Some (upload_timeout mime)) true)) in
  let! _ := refuse status body in
  let! text := lift (map_err Network body) in
  lift (map_err Network (read_descriptor text)).

Definition check_upload (file_path bytes : string) : result CliError string :=
  let mime := default "application/octet-stream" (infer_mime bytes) in
  if negb (existsb (String.eqb mime) ALLOWED_MIMES) then Err (Usage ("unsupported file type: " +:+ mime))
  else
    let max := if starts_with mime "video/" then MAX_VIDEO_BYTES else MAX_IMAGE_BYTES in
    if (max <? len bytes)%N
    then Err (Usage ("file too large: " +:+ num (len bytes) +:+ " bytes (max " +:+ num max +:+ ")")) else Ok mime.

Definition upload_file (c : BuzzClient) (file_path : string) : M BlobDescriptor := fun w =>
  match read_file file_path (w_env w) with
  | CannotAccess e => (Err (Other ("cannot access " +:+ file_path +:+ ": " +:+ e)), w)
  | NotAFile => (Err (Usage (file_path +:+ " is not a file")), w)
  | ReadFailed e => (Err (Other ("failed to read " +:+ file_path +:+ ": " +:+ e)), w)
  | FileBytes bytes =>
      match check_upload file_path bytes with
      | Err e => (Err e, w)
      | Ok mime =>
          let sha256 := sha256_hex bytes in
          match with_retry_body (upload_once c (relay_url c +:+ "/upload") mime sha256 bytes) w with
          | (Err (RelayError s b), w) =>
              if should_retry_legacy_upload s
              then with_retry_body (upload_once c (relay_url c +:+ "/media/upload") mime sha256 bytes) w
              else (Err (RelayError s b), w)
          | r => r
          end
      end
  end.

Definition download_media (c : BuzzClient) (input : string) : M string :=
  let! url := lift (media_url_from_input (relay_url c) input) in
  with_retry_body (
    let! auth := sign_blossom_get url in
    let! (status, body) := send_ok (with_auth_tag c (mkRequest "GET" url [("Authorization", auth)] None (Some 120%N) false)) in
    let! _ := refuse status body in
    lift (map_err Network body)).

Definition put_artifact (c : BuzzClient) (body : string) : M ArtifactReceipt :=
  let expected_sha256 := artifact_sha256 body in
  let url := relay_url c +:+ "/artifacts" in
  with_retry_body (
    let! auth := sign_nip98 "POST" url (Some body) in
    let! (status, answer) := send_ok (with_auth_tag c (mkRequest "POST" url
          [("Authorization", auth); ("Content-Type", "application/octet-stream")] (Some body) None true)) in
    let! _ := refuse status answer in
    let! text := lift (map_err Network answer) in
    let! receipt := lift (parse_artifact_receipt text) in
    if negb (String.eqb (receipt_sha256 receipt) expected_sha256)
    then fail (Other ("artifact receipt hash mismatch: expected " +:+ expected_sha256 +:+ ", got " +:+ receipt_sha256 receipt))
    else if negb (receipt_size receipt =? len body)%N
    then fail (Other ("artifact receipt size mismatch: expected " +:+ num (len body) +:+ ", got " +:+ num (receipt_size receipt)))
    else ret receipt).

Definition get_artifact (c : BuzzClient) (sha256 : string) : M string :=
  let! sha256 := lift (normalize_artifact_sha256 sha256) in
  let url := relay_url c +:+ "/artifacts/" +:+ sha256 in
  with_retry_body (
    let! auth := sign_nip98 "GET" url (Some EmptyString) in
    let! (status, body) := send_ok (with_auth_tag c (mkRequest "GET" url [("Authorization", auth)] None None true)) in
    let! _ := refuse status body in
    let! bytes := lift (map_err Network body) in
    let! _ := lift (verify_artifact_bytes sha256 bytes) in
    ret bytes).

Definition head_artifact (c : BuzzClient) (sha256 : string) : M bool :=
  let! sha256 := lift (normalize_artifact_sha256 sha256) in
  let url := relay_url c +:+ "/artifacts/" +:+ sha256 in
  with_retry_body (
    let! auth := sign_nip98 "GET" url (Some EmptyString) in
    let! (status, body) := send_ok (with_auth_tag c (mkRequest "HEAD" url [("Authorization", auth)] None None true)) in
    if (status =? 404)%N then ret false
    else let! _ := refuse status body in ret true).
End client.

Notation "'let!' x ':=' m 'in' k" := (bind m (fun x => k)) (at level 10, x pattern, m at level 200, k at level 200) : result_scope.
