(* ===== verification/CliTheory.v ===== *)
(** * The command line client: delivery, paging and content

    What the HTTP client of [Cli.v] promises its callers: how often a command
    can have been executed when it reports an error, that following the relay's
    cursor reads every answer once, and that bytes are handed over only under
    the hash they were asked for. *)

From S2P Require Import Prelude Text Nostr Demo Kinds OwnerAttestation GitPerms Sdk SdkTheory Ingest FilterMatch Store StoreTheory PromptTheory Json Mentions Cli.

Create HintDb cli.

(** ** Runs *)

Section runs.
Context `{NL : NostrLib, SK : SdkLib, JL : JsonLib, CL : CliLib}.

(** How often the relay executed a command, by the body it came in.  A request
    executes it once at most, and not at all when no connection was made or when
    the relay's own limiter turned it away; nothing else reaches the relay. *)
Definition turned_away (s : Sent) : bool :=
  match s with
  | SendFailed e => is_connect e
  | Response status body => (status =? 429)%N && canonical_429 (text_or_empty body)
  end.

Class ExecutionLog := {
  executions : Env -> string -> nat;
  exchange_once : forall q e b, executions (exchange q e).2 b <= S (executions e b);
  exchange_other : forall q e b, rq_body q <> Some b -> executions (exchange q e).2 b = executions e b;
  exchange_away : forall q e b, turned_away (exchange q e).1 = true -> executions (exchange q e).2 b = executions e b;
  uuid_away : forall e b, executions (new_uuid e).2 b = executions e b;
  now_away : forall e b, executions (unix_now e).2 b = executions e b;
  sign_away : forall e x b, executions (sign_with_keys x e).2 b = executions e b;
}.

Context `{EL : !ExecutionLog}.

(** A step that sends nothing. *)
Definition quiet {A} (m : M A) : Prop :=
  forall w r w', m w = (r, w') ->
  w_sent w' = w_sent w /\ w_slept w' = w_slept w /\ forall b, executions (w_env w') b = executions (w_env w) b.

Lemma quiet_ret {A} (a : A) : quiet (ret a).
Proof. by intros w r w' [= <- <-]. Qed.

Lemma quiet_fail {A} e : quiet (A:=A) (fail e).
Proof. by intros w r w' [= <- <-]. Qed.

Lemma quiet_lift {A} (x : result CliError A) : quiet (lift x).
Proof. by intros w r w' [= <- <-]. Qed.

Lemma quiet_bind {A B} (m : M A) (k : A -> M B) : quiet m -> (forall a, quiet (k a)) -> quiet (bind m k).
Proof.
  intros Hm Hk w r w'. unfold bind. destruct (m w) as [[a|e] w1] eqn:E; destruct (Hm _ _ _ E) as (H1 & H2 & H3).
  - intros H. destruct (Hk _ _ _ _ H) as (? & ? & H4). split_and!; [congruence..|]. intros b. by rewrite H4, H3.
  - by intros [= <- <-].
Qed.

Lemma quiet_fresh : quiet fresh_uuid.
Proof. intros w r w'. unfold fresh_uuid. destruct (new_uuid _) as [u e] eqn:E. intros [= <- <-]. split_and!; [done..|]. intros b. cbn. by rewrite <-(uuid_away (w_env w) b), E. Qed.

Lemma quiet_now : quiet now.
Proof. intros w r w'. unfold now. destruct (unix_now _) as [u e] eqn:E. intros [= <- <-]. split_and!; [done..|]. intros b. cbn. by rewrite <-(now_away (w_env w) b), E. Qed.

Lemma quiet_sign msg x : quiet (sign msg x).
Proof.
  intros w r w'. unfold sign. destruct (sign_with_keys _ _) as [u e] eqn:E. intros [= <- <-]. split_and!; [done..|].
  intros b. cbn. by rewrite <-(sign_away (w_env w) x b), E.
Qed.

#[local] Hint Resolve quiet_ret quiet_fail quiet_lift quiet_bind quiet_fresh quiet_now quiet_sign : cli.

Lemma quiet_nip98 method url body : quiet (sign_nip98 method url body).
Proof. unfold sign_nip98, nip98_tag. repeat (apply quiet_bind; [auto with cli|intros ?]); [destruct body|..]; auto with cli. Qed.

Lemma quiet_blossom content tags : quiet (blossom_sign content tags).
Proof. unfold blossom_sign. auto with cli. Qed.

Lemma quiet_blossom_get url : quiet (sign_blossom_get url).
Proof. unfold sign_blossom_get, blossom_tag. auto 10 using quiet_blossom with cli. Qed.

Lemma quiet_blossom_upload sha mime url : quiet (sign_blossom_upload sha mime url).
Proof.
  unfold sign_blossom_upload, blossom_tag. repeat (apply quiet_bind; [|intros ?]); auto with cli.
  destruct (relay_server_tag url); auto with cli.
Qed.

(** ** Failures before anything is sent *)

Definition local_error (e : CliError) : Prop := match e with Other _ | Usage _ => True | _ => False end.

Lemma local_error_final e n : local_error e -> is_retryable_error e = false /\ retry_delay n e = None.
Proof. by destruct e. Qed.

Definition fails_locally {A} (m : M A) : Prop := forall w e w', m w = (Err e, w') -> local_error e.

Lemma local_ret {A} (a : A) : fails_locally (ret a).
Proof. by intros w e w' [=]. Qed.

Lemma local_lift {A} (x : result string A) f : (forall e, local_error (f e)) -> fails_locally (lift (map_err f x)).
Proof. intros Hf w e w'. destruct x; [done|]. intros [= <- _]. apply Hf. Qed.

Lemma local_bind {A B} (m : M A) (k : A -> M B) : fails_locally m -> (forall a, fails_locally (k a)) -> fails_locally (bind m k).
Proof.
  intros Hm Hk w e w'. unfold bind. destruct (m w) as [[a|e1] w1] eqn:E; [apply Hk|]. intros [= <- _]. by eapply Hm.
Qed.

Lemma local_fresh : fails_locally fresh_uuid.
Proof. intros w e w'. unfold fresh_uuid. by destruct (new_uuid _). Qed.

Lemma local_now : fails_locally now.
Proof. intros w e w'. unfold now. by destruct (unix_now _). Qed.

Lemma local_sign msg x : fails_locally (sign msg x).
Proof. intros w e w'. unfold sign. destruct (sign_with_keys _ _) as [[ev|m] e1]; [done|]. by intros [= <- _]. Qed.

Lemma local_tag f parts : (forall e, local_error (f e)) -> fails_locally (lift (map_err f (tag_parse parts))).
Proof. apply local_lift. Qed.

#[local] Hint Resolve local_ret local_bind local_fresh local_now local_sign local_tag : cli.

Ltac local_steps := repeat (apply local_bind; [|intros ?]); auto with cli.

Lemma nip98_local method url body : fails_locally (sign_nip98 method url body).
Proof. unfold sign_nip98, nip98_tag. local_steps; try (by apply local_tag). destruct body; [|apply local_ret]. local_steps. by apply local_tag. Qed.

Lemma blossom_get_local url : fails_locally (sign_blossom_get url).
Proof.
  unfold sign_blossom_get, blossom_tag, blossom_sign. local_steps; try (by apply local_tag).
  intros w e w'. unfold lift, ok_or. destruct (relay_server_tag url); [done|]. by intros [= <- _].
Qed.

Lemma blossom_upload_local sha mime url : fails_locally (sign_blossom_upload sha mime url).
Proof.
  unfold sign_blossom_upload, blossom_tag, blossom_sign. local_steps; try (by apply local_tag).
  destruct (relay_server_tag url); [|apply local_ret]. local_steps. by apply local_tag.
Qed.

(** ** Requests of a run *)

(** The requests sent between two worlds. *)
Definition sends (w w' : World) (l : list (Request * Sent)) : Prop := w_sent w' = w_sent w ++ l.

Lemma sends_quiet {A} (m : M A) w r w' : quiet m -> m w = (r, w') -> sends w w' [].
Proof. intros Hq H. destruct (Hq _ _ _ H) as [E _]. unfold sends. by rewrite app_nil_r. Qed.

Lemma sends_trans w1 w2 w3 l1 l2 : sends w1 w2 l1 -> sends w2 w3 l2 -> sends w1 w3 (l1 ++ l2).
Proof. unfold sends. intros H1 H2. by rewrite H2, H1, app_assoc. Qed.

Lemma sends_sleep d w w' l : sends (sleep d w) w' l -> sends w w' l.
Proof. done. Qed.

(** One attempt of an operation: it sends one request, or none and fails for a
    reason no retry helps with. *)
Definition attempt (Q : Request -> Prop) {A} (good : Sent -> result CliError A -> Prop) (op : M A) : Prop :=
  forall w r w', op w = (r, w') ->
  (exists q s, sends w w' [(q, s)] /\ Q q /\ good s r) \/
  (sends w w' [] /\ exists e, r = Err e /\ local_error e).

(** The operation after its authorization. *)
Lemma attempt_auth (Q : Request -> Prop) {A} (good : Sent -> result CliError A -> Prop) (auth : M string)
    (rq : string -> Request) (k : Sent -> M A) :
  quiet auth -> fails_locally auth ->
  (forall a, Q (rq a)) -> (forall s, quiet (k s)) -> (forall s w r w', k s w = (r, w') -> good s r) ->
  attempt Q good (bind auth (fun a => bind (send (rq a)) k)).
Proof.
  intros Hq He HQ Hk Hg w r w'. unfold bind at 1. destruct (auth w) as [[a|e] w1] eqn:E.
  - pose proof (sends_quiet _ _ _ _ Hq E) as Hs. unfold bind, send. destruct (exchange (rq a) (w_env w1)) as [s e1] eqn:Ex.
    intros H. left. exists (rq a), s. split_and!; [|done|by eapply Hg].
    pose proof (sends_quiet _ _ _ _ (Hk s) H) as Hs2. unfold sends in *. cbn in Hs2. by rewrite Hs2, Hs, !app_nil_r.
  - intros [= <- <-]. right. split; [by eapply sends_quiet|]. exists e. by split; [|eapply He].
Qed.

(** What [post_and_read] does with one outcome. *)
Definition read_outcome (s : Sent) : result CliError string :=
  match s with SendFailed e => Err (Network e) | Response status body => handle_response status body end.

Definition posted (c : BuzzClient) (url body : string) (q : Request) : Prop :=
  rq_method q = "POST" /\ rq_url q = url /\ rq_body q = Some body.

Lemma posted_auth c url body headers : posted c url body (with_auth_tag c (mkRequest "POST" url headers (Some body) None true)).
Proof. unfold posted, with_auth_tag. by destruct (auth_tag_json c). Qed.

Lemma post_attempt c url body :
  attempt (posted c url body) (fun s r => r = read_outcome s) (post_and_read c url body).
Proof.
  intros w r w' H.
  apply (attempt_auth _ (fun s r => r = read_outcome s) (sign_nip98 "POST" url (Some body))
    (fun auth => with_auth_tag c (mkRequest "POST" url [("Authorization", auth); ("Content-Type", "application/json")] (Some body) None true))
    (fun s => lift (read_outcome s))); [apply quiet_nip98| | | | |].
  - apply nip98_local.
  - intros a. apply posted_auth.
  - intros s. apply quiet_lift.
  - by intros s w1 r1 w2 [= <- <-].
  - rewrite <-H. unfold post_and_read, post_json, send_ok, bind, lift, fail, ret.
    destruct (sign_nip98 _ _ _ w) as [[a|e] w1]; [|done]. unfold send. destruct (exchange _ _) as [[e|status b] e1]; done.
Qed.
(** ** Retries *)

Lemma retry_delay_retryable n e : is_Some (retry_delay n e) <-> is_retryable_error e = true.
Proof.
  destruct e as [| status body | e | | | | | |]; cbn; try (split; [by intros []|done]).
  - destruct (N.eqb_spec status 429) as [->|H429]; [cbn; split; eauto|]. unfold proxy_status. cbn.
    destruct ((502 <=? status)%N && (status <=? 504)%N) eqn:E.
    + split; [intros _|eauto]. assert (status = 502 \/ status = 503 \/ status = 504)%N as [->|[->| ->]] by lia; done.
    + split; [by intros []|]. rewrite !orb_true_iff, !N.eqb_eq. lia.
  - destruct (transport e); (split; [|by eauto]); [done|by intros []].
Qed.

Definition bounded_delay (d : Delay) : Prop := match d with JitterBelow ms => (ms <= 1500)%N | Seconds n => (n <= 30)%N end.

Lemma jitter_bounded k : bounded_delay (jitter_delay k).
Proof. unfold jitter_delay, bounded_delay. destruct k as [|[|k]]; cbn; [lia..|destruct k; cbn; lia]. Qed.

Lemma retry_delay_bounded k e d : retry_delay k e = Some d -> bounded_delay d.
Proof.
  destruct e as [| status body | e | | | | | |]; cbn; try done.
  - destruct (status =? 429)%N; [|destruct (proxy_status status); [|done]; intros [= <-]; apply jitter_bounded].
    intros [= <-]. destruct (parse_retry_hint_text body); [|apply jitter_bounded]. cbn. unfold RETRY_IN_MAX_SECS. lia.
  - destruct (transport e); [|done]. intros [= <-]. apply jitter_bounded.
Qed.

(** The shape of a run with retries: attempts that failed for a transient
    reason, then the one whose result is returned, or a failure to sign. *)
Definition retried {A} (Q : Request -> Prop) (good : Sent -> result CliError A -> Prop) (n : nat) (w w' : World) (r : result CliError A) : Prop :=
  exists earlier final delays,
    sends w w' (earlier ++ final) /\ length (earlier ++ final) <= n /\ Forall (fun x => Q x.1) (earlier ++ final) /\
    Forall (fun x => exists e, good x.2 (Err e) /\ is_retryable_error e = true) earlier /\
    w_slept w' = w_slept w ++ delays /\ length delays < n /\ Forall bounded_delay delays /\
    ((exists x, final = [x] /\ good x.2 r) \/ (final = [] /\ exists e, r = Err e /\ local_error e)).

Lemma retry_loop_spec {A} Q (good : Sent -> result CliError A -> Prop) op n k w r w' :
  attempt Q good op -> (forall w r w', op w = (r, w') -> w_slept w' = w_slept w) ->
  0 < n -> retry_loop n k op w = (r, w') -> retried Q good n w w' r.
Proof.
  intros Hop Hsl. revert k w. induction n as [|n IH]; intros k w Hn; [lia|]. cbn [retry_loop].
  destruct (op w) as [r1 w1] eqn:E. pose proof (Hsl _ _ _ E) as Hs1. destruct (Hop _ _ _ E) as [(q & s & Hs & Hq & Hg)|(Hs & e & -> & He)].
  2:{ destruct (local_error_final e k He) as [_ Hd]. rewrite Hd. assert ((if (n =? 0)%nat then None else None : option Delay) = None) as -> by (by destruct (n =? 0)%nat).
      intros [= <- <-]. exists [], [], []. cbn. rewrite app_nil_r. split_and!; try done; try lia; [constructor..|]. right. eauto. }
  assert (forall r, (r1, w1) = (r, w') -> retried Q good (S n) w w' r) as Hend.
  { intros r0 [= <- <-]. exists [], [(q, s)], []. cbn. rewrite app_nil_r. split_and!; try done; try lia; [by constructor|constructor..|]. left. eauto. }
  destruct r1 as [v|e]; [by intros H; apply Hend|].
  destruct (if (n =? 0)%nat then None else retry_delay k e) as [d|] eqn:Ed; [|by intros H; apply Hend].
  destruct (Nat.eqb_spec n 0) as [|Hn0]; [done|]. intros H. destruct (IH (S k) (sleep d w1) ltac:(lia) H) as (ea & fi & ds & H1 & H2 & H3 & H4 & H5 & H6 & H7 & H8).
  exists ((q, s) :: ea), fi, (d :: ds). cbn in *. split_and!; try done.
  - exact (sends_trans _ _ _ [(q, s)] _ Hs H1).
  - lia.
  - by constructor.
  - constructor; [|done]. exists e. split; [done|]. apply (retry_delay_retryable k). eauto.
  - rewrite H5, Hs1, <-app_assoc. done.
  - lia.
  - constructor; [|done]. by eapply retry_delay_bounded.
Qed.

Lemma post_slept c url body w r w' : post_and_read c url body w = (r, w') -> w_slept w' = w_slept w.
Proof.
  unfold post_and_read, post_json, send_ok, bind, lift, fail, ret. destruct (sign_nip98 _ _ _ w) as [[a|e] w1] eqn:E;
    destruct (quiet_nip98 _ _ _ _ _ _ E) as (_ & Hs & _); [|by intros [= _ <-]].
  unfold send. destruct (exchange _ _) as [[e|status b] e1]; by intros [= _ <-].
Qed.
(** ** Moderation commands *)

Lemma moderation_again kind is_last k s d :
  moderation_outcome kind is_last k s = inr d -> turned_away s = true /\ bounded_delay d.
Proof.
  destruct s as [e|status body]; cbn [moderation_outcome turned_away].
  - destruct (negb is_last && is_connect e) eqn:E.
    + intros [= <-]. apply andb_true_iff in E as [_ ->]. split; [done|apply jitter_bounded].
    + destruct (is_connect e); [done|]. by destruct (_ || _).
  - destruct (status =? 429)%N; [|destruct (proxy_status status); [done|]; destruct body; [destruct (negb _)|]; done].
    unfold canonical_429. cbn zeta. destruct (starts_with _ _); [|done]. destruct (negb is_last); [|done]. intros [= <-].
    split; [done|]. destruct (parse_retry_hint_text _); [|apply jitter_bounded]. cbn. unfold RETRY_IN_MAX_SECS. lia.
Qed.

(** What is reported about the last attempt. *)
Definition reported (s : Sent) (r : result CliError string) : Prop :=
  match r with
  | Ok text => exists status, s = Response status (Ok text) /\ resp_was_success status = true
  | Err (DeliveryUnknown _) => turned_away s = false
  | Err e =>
      if is_retryable_error e then turned_away s = true
      else match s with
           | SendFailed e' => transport e' = false
           | Response status body => resp_was_success status = false /\ proxy_status status = false /\ status <> 429%N /\ is_ok body = true
           end
  end.

Lemma moderation_reports kind is_last k s r : moderation_outcome kind is_last k s = inl r -> reported s r.
Proof.
  destruct s as [e|status body]; cbn [moderation_outcome].
  - destruct (is_connect e) eqn:Ec.
    + destruct (negb is_last); [done|]. intros [= <-]. cbn. unfold transport. by rewrite Ec.
    + rewrite andb_false_r. destruct (_ || _) eqn:Et; intros [= <-]; cbn; [done|]. unfold transport.
      rewrite Ec. cbn. by rewrite Et.
  - destruct (N.eqb_spec status 429) as [->|H429].
    + cbn zeta. destruct (starts_with _ _) eqn:Ew; [destruct (negb is_last); [done|]|]; intros [= <-]; cbn; unfold canonical_429; by rewrite Ew.
    + destruct (proxy_status status) eqn:Ep.
      { intros [= <-]. cbn. by apply N.eqb_neq in H429 as ->. }
      destruct body as [text|e]; [|intros [= <-]; cbn; by apply N.eqb_neq in H429 as ->].
      destruct (resp_was_success status) eqn:Es; cbn [negb]; intros [= <-]; [by exists status|].
      cbn [reported]. destruct (is_retryable_error _) eqn:Er; [|done]. exfalso.
      apply (retry_delay_retryable 0) in Er as [d Hd]. cbn in Hd. apply N.eqb_neq in H429. by rewrite H429, Ep in Hd.
Qed.

(** The executions an attempt can add. *)
Lemma send_executions q w s w' b :
  send q w = (Ok s, w') ->
  sends w w' [(q, s)] /\ w_slept w' = w_slept w /\ executions (w_env w') b <= S (executions (w_env w) b) /\
  (turned_away s = true -> executions (w_env w') b = executions (w_env w) b).
Proof.
  unfold send. destruct (exchange q (w_env w)) as [s' e] eqn:E. intros [= <- <-]. cbn. split_and!; [done..| |].
  - pose proof (exchange_once q (w_env w) b) as H. by rewrite E in H.
  - intros Ha. pose proof (exchange_away q (w_env w) b) as H. rewrite E in H. by apply H.
Qed.

Lemma moderation_loop_spec n k c kind url body w r w' :
  0 < n -> moderation_loop n k c kind url body w = (r, w') ->
  executions (w_env w') body <= S (executions (w_env w) body) /\
  (forall e, r = Err e -> is_retryable_error e = true -> executions (w_env w') body = executions (w_env w) body) /\
  exists earlier final delays,
    sends w w' (earlier ++ final) /\ length (earlier ++ final) <= n /\ Forall (fun x => posted c url body x.1) (earlier ++ final) /\
    Forall (fun x => turned_away x.2 = true) earlier /\
    w_slept w' = w_slept w ++ delays /\ length delays < n /\ Forall bounded_delay delays /\
    ((exists x, final = [x] /\ reported x.2 r) \/ (final = [] /\ exists e, r = Err e /\ local_error e)).
Proof.
  revert k w. induction n as [|n IH]; intros k w Hn; [lia|]. cbn [moderation_loop]. unfold bind at 1.
  destruct (sign_nip98 "POST" url (Some body) w) as [[a|e] w1] eqn:Ea; destruct (quiet_nip98 _ _ _ _ _ _ Ea) as (Hq1 & Hq2 & Hq3).
  2:{ intros [= <- <-]. pose proof (nip98_local _ _ _ _ _ _ Ea) as He. rewrite Hq3. split_and!; [lia|done|].
      exists [], [], []. unfold sends. cbn. rewrite !app_nil_r. split_and!; try done; try lia; [constructor..|]. right. eauto. }
  unfold bind. set (q := with_auth_tag c _). destruct (send q w1) as [[s|e] w2] eqn:Es; [|unfold send in Es; by destruct (exchange _ _)].
  destruct (send_executions _ _ _ _ body Es) as (Hs & Hsl & Hx1 & Hx2). unfold sends in Hs. rewrite Hq1 in Hs. rewrite Hq3 in Hx1, Hx2. rewrite Hq2 in Hsl.
  destruct (moderation_outcome kind (n =? 0)%nat k s) as [r1|d] eqn:Eo.
  - intros [= <- <-]. pose proof (moderation_reports _ _ _ _ _ Eo) as Hr. split_and!; [done| |].
    { intros e -> He. apply Hx2. destruct e; try done; cbn [reported] in Hr; by rewrite He in Hr. }
    exists [], [(q, s)], []. unfold sends. cbn. rewrite app_nil_r. split_and!; try done; try lia; [constructor; [apply posted_auth|constructor]|constructor..|].
    left. eauto.
  - destruct (moderation_again _ _ _ _ _ Eo) as [Haway Hd]. specialize (Hx2 Haway).
    destruct n as [|n]. { destruct s as [e|status b]; cbn in Eo, Haway; [by rewrite Haway in Eo|]. apply andb_true_iff in Haway as [E1 E2]. rewrite E1 in Eo. unfold canonical_429 in E2. by rewrite E2 in Eo. }
    intros H. destruct (IH (S k) (sleep d w2) ltac:(lia) H) as (I1 & I2 & ea & fi & ds & H1 & H2 & H3 & H4 & H5 & H6 & H7 & H8).
    cbn [sleep w_env] in I1, I2. rewrite Hx2 in I1, I2. split_and!; [done..|]. exists ((q, s) :: ea), fi, (d :: ds).
    cbn [app length] in *. split_and!; try done; try lia.
    + unfold sends in *. rewrite H1. cbn. by rewrite Hs, <-app_assoc.
    + constructor; [apply posted_auth|done].
    + by constructor.
    + rewrite H5. cbn. by rewrite Hsl, <-app_assoc.
    + by constructor.
Qed.
(** C25: a moderation command, which the relay executes on arrival, is never
    executed twice by one submission: a request is repeated only when no
    connection was made or the relay's own limiter turned it away.  At most
    three requests are sent, with the same body, and the pauses between them
    are bounded.  An error reported as retryable means that the command was not
    executed at all, success that the relay answered with that text, and
    whenever the relay may have executed it without a definite answer the error
    is [DeliveryUnknown], which is not retryable. *)
Theorem moderation_at_most_once c ev body w r w' :
  is_moderation_kind (ev_kind ev) = true -> event_bytes ev = Ok body -> submit_event c ev w = (r, w') ->
  executions (w_env w') body <= S (executions (w_env w) body) /\
  (forall e, r = Err e -> is_retryable_error e = true -> executions (w_env w') body = executions (w_env w) body) /\
  exists earlier final delays,
    sends w w' (earlier ++ final) /\ length (earlier ++ final) <= 3 /\
    Forall (fun x => posted c (relay_url c +:+ "/events") body x.1) (earlier ++ final) /\
    Forall (fun x => turned_away x.2 = true) earlier /\
    w_slept w' = w_slept w ++ delays /\ length delays <= 2 /\ Forall bounded_delay delays /\
    ((exists x, final = [x] /\ reported x.2 r) \/ (final = [] /\ exists e, r = Err e /\ local_error e)).
Proof.
  intros Hk Hb. unfold submit_event. rewrite Hk. unfold submit_moderation_event, serialize. rewrite Hb. unfold bind. cbn [map_err lift].
  intros H. destruct (moderation_loop_spec RETRY_MAX_ATTEMPTS _ _ _ _ _ _ _ _ (Nat.lt_0_succ 2) H) as (H1 & H2 & ea & fi & ds & H3 & H4 & H5 & H6 & H7 & H8 & H9).
  unfold RETRY_MAX_ATTEMPTS in *. split_and!; [done..|]. exists ea, fi, ds. split_and!; try done; try lia; apply H9.
Qed.

(** What is reported about the last attempt to store an event. *)
Definition stored_reported (s : Sent) (r : result CliError string) : Prop :=
  match r with
  | Ok text => exists status, s = Response status (Ok text) /\ resp_was_success status = true
  | Err (DeliveryUnknown _) =>
      match s with SendFailed e => is_connect e = false | Response status body => proxy_status status = true \/ is_ok body = false end
  | Err e =>
      is_retryable_error e = true ->
      match s with SendFailed e' => is_connect e' = true | Response status body => status = 429%N \/ exists e', body = Err e' /\ is_connect e' = true end
  end.

Definition settle (kind : N) (r : result CliError string) : result CliError string :=
  match r with
  | Err e => if is_stored_event_exhaustion_ambiguous e
             then Err (DeliveryUnknown ("stored event (kind " +:+ num kind +:+ ") outcome unknown after all attempts: " +:+ cli_error_to_string e))
             else Err e
  | Ok text => Ok text
  end.

Lemma handle_response_spec status body :
  match handle_response status body with
  | Ok text => resp_was_success status = true /\ body = Ok text
  | Err (RelayError st _) => st = status /\ resp_was_success status = false
  | Err (Network e) => resp_was_success status = true /\ body = Err e
  | Err _ => False
  end.
Proof. unfold handle_response. destruct (resp_was_success status) eqn:E; cbn [negb]; [destruct body; done|done]. Qed.

Lemma proxy_not_429 status : proxy_status status = true -> (status =? 429)%N = false.
Proof. unfold proxy_status. lia. Qed.

Lemma settled_network kind e s :
  match s with SendFailed e' => e' = e | Response _ body => body = Err e end ->
  stored_reported s (settle kind (Err (Network e))).
Proof.
  intros Hs. cbn. destruct (is_connect e) eqn:Ec.
  - cbn. intros _. destruct s as [e'|status body]; [by subst|]. right. eauto.
  - destruct (_ || _) eqn:Et; cbn.
    + destruct s as [e'|status body]; [by subst|]. right. by rewrite Hs.
    + unfold transport. rewrite Ec. cbn. intros H. exfalso. revert Et H. destruct (is_timeout e), (is_body e), (is_decode e), (is_request e); done.
Qed.

Lemma read_settled kind s : stored_reported s (settle kind (read_outcome s)).
Proof.
  destruct s as [e|status body]; cbn [read_outcome]; [by apply settled_network|].
  pose proof (handle_response_spec status body) as H. destruct (handle_response status body) as [text|e].
  - destruct H as [Hs ->]. cbn. eauto.
  - destruct e; try done.
    + destruct H as [-> Hs]. cbn. destruct (N.eqb_spec status 429) as [->|H429]; [cbn; auto|].
      destruct (proxy_status status) eqn:Ep; [cbn; auto|]. cbn. intros Hr.
      assert (is_retryable_error (RelayError status body0) = true) as Hr' by done. apply (retry_delay_retryable 0) in Hr' as [d Hd]. cbn in Hd.
      apply N.eqb_neq in H429. by rewrite H429, Ep in Hd.
    + destruct H as [Hs ->]. by apply settled_network.
Qed.

(** An event that the relay stores is sent at most three times, each time
    with the same bytes, so that the relay's deduplication by id makes the
    repetitions harmless; only transient failures are followed by another
    attempt, and the pauses are bounded.  Success means that the relay answered
    with that text; an ambiguous last attempt is reported as [DeliveryUnknown];
    and an error reported as retryable means that the last attempt made no
    connection or was turned away with status 429. *)
Theorem stored_event_retries c ev body w r w' :
  is_moderation_kind (ev_kind ev) = false -> event_bytes ev = Ok body -> submit_event c ev w = (r, w') ->
  exists earlier final delays,
    sends w w' (earlier ++ final) /\ length (earlier ++ final) <= 3 /\
    Forall (fun x => posted c (relay_url c +:+ "/events") body x.1) (earlier ++ final) /\
    Forall (fun x => exists e, read_outcome x.2 = Err e /\ is_retryable_error e = true) earlier /\
    w_slept w' = w_slept w ++ delays /\ length delays <= 2 /\ Forall bounded_delay delays /\
    ((exists x, final = [x] /\ stored_reported x.2 r) \/ (final = [] /\ exists e, r = Err e /\ local_error e)).
Proof.
  intros Hk Hb. unfold submit_event. rewrite Hk. unfold submit_stored_event, serialize. rewrite Hb. unfold bind. cbn [map_err lift].
  destruct (with_retry_body _ w) as [r1 w1] eqn:E. intros H.
  destruct (retry_loop_spec _ _ _ RETRY_MAX_ATTEMPTS _ _ _ _ (post_attempt _ _ _) (post_slept _ _ _) (Nat.lt_0_succ 2) E)
    as (ea & fi & ds & H1 & H2 & H3 & H4 & H5 & H6 & H7 & H8).
  assert (r = settle (ev_kind ev) r1 /\ w' = w1) as [-> ->].
  { destruct r1 as [text|e]; [by injection H as <- <-|]. cbn. destruct (is_stored_event_exhaustion_ambiguous e); by injection H as <- <-. }
  unfold RETRY_MAX_ATTEMPTS in *. exists ea, fi, ds. split_and!; try done; try lia.
  - eapply Forall_impl; [exact H4|]. intros x (e & He & Hr). eauto.
  - destruct H8 as [(x & -> & ->)|(-> & e & -> & He)]; [left|right].
    + exists x. split; [done|apply read_settled].
    + split; [done|]. exists e. split; [|done]. cbn. by destruct e.
Qed.
(** ** Content *)

(** A result comes from one run of the operation. *)
Lemma retry_ok {A} n k (op : M A) w v w' : retry_loop n k op w = (Ok v, w') -> exists w1, op w1 = (Ok v, w').
Proof.
  revert k w. induction n as [|n IH]; intros k w; cbn [retry_loop]; [done|]. destruct (op w) as [[x|e] w1] eqn:E.
  - intros [= <- <-]. eauto.
  - destruct (if (n =? 0)%nat then None else retry_delay k e); [apply IH|done].
Qed.

Lemma bind_ok {A B} (m : M A) (k : A -> M B) w v w' : bind m k w = (Ok v, w') -> exists a w1, m w = (Ok a, w1) /\ k a w1 = (Ok v, w').
Proof. unfold bind. destruct (m w) as [[a|e] w1]; [eauto|done]. Qed.

Lemma normalize_sha_ok s t : normalize_artifact_sha256 s = Ok t -> hex64 s = true /\ t = to_ascii_lowercase s.
Proof. unfold normalize_artifact_sha256, validate_hex64. destruct (hex64 s); [|done]. by intros [= <-]. Qed.

Lemma lift_ok {A} (x : result CliError A) (w w' : World) v : lift x w = (Ok v, w') -> x = Ok v /\ w' = w.
Proof. by intros [= -> ->]. Qed.

Lemma send_ok_ok q w status body w' :
  send_ok q w = (Ok (status, body), w') -> sends w w' [(q, Response status body)].
Proof.
  unfold send_ok. intros (s & w1 & Hs & H)%bind_ok. unfold send in Hs. destruct (exchange q (w_env w)) as [s' e]. injection Hs as -> <-.
  destruct s as [e'|st b]; [done|]. by injection H as -> -> <-.
Qed.

Lemma refuse_ok status body w w' u : refuse status body w = (Ok u, w') -> resp_was_success status = true /\ w' = w.
Proof. unfold refuse. destruct (resp_was_success status); [|done]. by intros [= <- <-]. Qed.

(** Bytes fetched as an artifact hash to the content address that was asked
    for, whatever the relay answers, and a stored artifact is acknowledged only
    by a receipt with the hash and the size of what was sent.  A file is
    uploaded only when it is a regular file of an allowed type within its size
    limit, and both endpoints are tried with the hash of its bytes. *)
Theorem artifacts_verified c w w' :
  (forall sha bytes, get_artifact c sha w = (Ok bytes, w') -> hex64 sha = true /\ sha256_hex bytes = to_ascii_lowercase sha) /\
  (forall body receipt, put_artifact c body w = (Ok receipt, w') ->
     receipt_sha256 receipt = sha256_hex body /\ receipt_size receipt = len body) /\
  (forall path d, upload_file c path w = (Ok d, w') ->
     exists bytes mime url w1 q status text,
       read_file path (w_env w) = FileBytes bytes /\ mime ∈ ALLOWED_MIMES /\
       (len bytes <= if starts_with mime "video/" then MAX_VIDEO_BYTES else MAX_IMAGE_BYTES)%N /\
       (url = relay_url c +:+ "/upload" \/ url = relay_url c +:+ "/media/upload") /\
       sends w1 w' [(q, Response status (Ok text))] /\ rq_method q = "PUT" /\ rq_url q = url /\ rq_body q = Some bytes /\
       ("X-SHA-256", sha256_hex bytes) ∈ rq_headers q /\ resp_was_success status = true /\ read_descriptor text = Ok d).
Proof.
  split_and!.
  - intros sha bytes (s & w1 & [Hs ->]%lift_ok & H)%bind_ok. apply normalize_sha_ok in Hs as [Hh ->]. split; [done|].
    apply retry_ok in H as (w2 & H). apply bind_ok in H as (a & w3 & _ & H). apply bind_ok in H as ([st b] & w4 & _ & H).
    apply bind_ok in H as (u & w5 & _ & H). apply bind_ok in H as (bs & w6 & _ & H).
    apply bind_ok in H as (u2 & w7 & [Hv ->]%lift_ok & H). injection H as <- <-. unfold verify_artifact_bytes in Hv.
    destruct (normalize_artifact_sha256 _) as [t|] eqn:Et; [|done]. apply normalize_sha_ok in Et as [_ ->].
    destruct (String.eqb_spec (artifact_sha256 bs) (to_ascii_lowercase (to_ascii_lowercase sha))) as [E|]; [|done].
    unfold artifact_sha256 in E. by rewrite E, lowercase_idem.
  - intros body receipt H. apply retry_ok in H as (w2 & H). apply bind_ok in H as (a & w3 & _ & H). apply bind_ok in H as ([st b] & w4 & _ & H).
    apply bind_ok in H as (u & w5 & _ & H). apply bind_ok in H as (text & w6 & _ & H). apply bind_ok in H as (rc & w7 & _ & H).
    destruct (String.eqb_spec (receipt_sha256 rc) (artifact_sha256 body)) as [E|]; [|done]. cbn [negb] in H.
    destruct (N.eqb_spec (receipt_size rc) (len body)) as [E2|]; [|done]. by injection H as <- <-.
  - intros path d. unfold upload_file. destruct (read_file path (w_env w)) as [| | |bytes] eqn:Er; [done..|].
    unfold check_upload. set (mime := default _ _). destruct (existsb (String.eqb mime) ALLOWED_MIMES) eqn:Em; cbn [negb]; [|done].
    destruct (_ <? len bytes)%N eqn:El; [done|]. intros H.
    assert (exists url w1, (url = relay_url c +:+ "/upload" \/ url = relay_url c +:+ "/media/upload") /\
              upload_once c url mime (sha256_hex bytes) bytes w1 = (Ok d, w')) as (url & w1 & Hurl & Hop).
    { destruct (with_retry_body _ w) as [[v|e] w1] eqn:E1.
      - injection H as -> ->. apply retry_ok in E1 as (w1 & E1). eauto.
      - destruct e as [| st b | | | | | | |]; try done. destruct (should_retry_legacy_upload st); [|done].
        apply retry_ok in H as (w2 & H). eauto. }
    unfold upload_once in Hop. apply bind_ok in Hop as (a & w2 & _ & Hop). apply bind_ok in Hop as ([st b] & w3 & Hs%send_ok_ok & Hop).
    apply bind_ok in Hop as (u & w4 & [Hok ->]%refuse_ok & Hop). apply bind_ok in Hop as (text & w5 & [Ht ->]%lift_ok & Hop).
    apply lift_ok in Hop as [Hd ->]. destruct b as [t|]; [|done]. injection Ht as ->.
    destruct (read_descriptor text) as [d'|] eqn:Ed; [|done]. injection Hd as ->.
    exists bytes, mime, url, w2. eexists. exists st, text. split_and!; [done| | |done|exact Hs|by unfold with_auth_tag; destruct (auth_tag_json c)..| |done|done].
    + apply existsb_elem in Em as (x & Hx & ->%String.eqb_eq). done.
    + apply N.ltb_ge in El. exact El.
    + unfold with_auth_tag. destruct (auth_tag_json c); cbn; set_solver.
Qed.
(** ** Media *)

Lemma segment_safe seg :
  is_safe_media_path_segment seg = true ->
  str_contains_char "/" seg = false /\ exists hash ext, seg = hash +:+ ext /\ is_lower_hex_sha256 hash = true.
Proof.
  unfold is_safe_media_path_segment. intros H. pose proof (join_split_on "." seg) as Hj.
  assert (forall f s, (forall c, f c = true -> Ascii.eqb c "/" = false) -> str_forallb f s = true -> str_contains_char "/" s = false) as Hno.
  { intros f s0 Hf. induction s0 as [|c s0 IH]; [done|]. cbn. intros [Hc Hs]%andb_true_iff. by rewrite (Hf c Hc), IH. }
  assert (forall s, is_lower_hex_sha256 s = true -> str_contains_char "/" s = false) as Hhash.
  { intros s0 [_ Hs]%andb_true_iff. eapply Hno; [|exact Hs]. intros c Hc. destruct (Ascii.eqb_spec c "/") as [->|]; done. }
  assert (forall s, is_safe_media_ext s = true -> str_contains_char "/" s = false) as Hext.
  { intros s0 [_ Hs]%andb_true_iff. eapply Hno; [|exact Hs]. intros c Hc. destruct (Ascii.eqb_spec c "/") as [->|]; done. }
  assert (forall a b, str_contains_char "/" (a +:+ b) = str_contains_char "/" a || str_contains_char "/" b) as Happ.
  { intros a b. induction a as [|c a IH]; [done|]. rewrite str_app_cons. cbn. by rewrite IH, orb_assoc. }
  destruct (split_on "." seg) as [|hash [|ext [|third [|]]]]; try done; cbn in Hj; subst seg.
  - split; [by apply Hhash|]. exists hash, EmptyString. by rewrite str_app_nil_r.
  - apply andb_true_iff in H as [H1 H2]. split; [|by exists hash, (String "." ext)]. rewrite Happ, (Hhash _ H1). exact (Hext _ H2).
  - apply andb_true_iff in H as [[->%String.eqb_eq ->%String.eqb_eq]%andb_true_iff H]. split; [|by exists hash, ".thumb.jpg"]. by rewrite Happ, (Hhash _ H).
Qed.

(** A URL of this relay's media: its own origin, and one path segment that
    begins with a hash. *)
Definition own_media (relay url : string) : Prop :=
  exists seg, str_contains_char "/" seg = false /\ (exists hash ext, seg = hash +:+ ext /\ is_lower_hex_sha256 hash = true) /\
    (url = trim_end_matches "/" relay +:+ "/media/" +:+ seg \/
     exists parsed r, url_parse url = Ok parsed /\ url_parse relay = Ok r /\ same_origin parsed r = true /\ u_path parsed = "/media/" +:+ seg).

Lemma media_url_own relay input url : media_url_from_input relay input = Ok url -> own_media relay url.
Proof.
  unfold media_url_from_input. destruct (http_url (trim input)).
  - destruct (url_parse (trim input)) as [parsed|] eqn:Ep; [|done]. cbn [map_err].
    destruct (strip_prefix "/media/" (u_path parsed)) as [seg|] eqn:Es; [|done]. destruct (is_safe_media_path_segment seg) eqn:Eg; [|done].
    cbn [negb]. destruct (url_parse relay) as [r|] eqn:Er; [|done]. cbn [map_err]. destruct (same_origin parsed r) eqn:Eo; [|done].
    intros [= <-]. destruct (segment_safe _ Eg) as [H1 H2]. exists seg. split_and!; [done..|]. right. exists parsed, r.
    apply strip_prefix_some in Es. done.
  - destruct (str_contains _ _); [done|]. set (seg := trim_start_str _ _ _). destruct (String.eqb seg EmptyString); [done|].
    destruct (is_safe_media_path_segment seg) eqn:Eg; [|done]. intros [= <-]. destruct (segment_safe _ Eg) as [H1 H2]. exists seg. eauto 10.
Qed.

Definition media_request (relay : string) (q : Request) : Prop := rq_method q = "GET" /\ rq_redirects q = false /\ own_media relay (rq_url q).

Definition media_once (c : BuzzClient) (url : string) : M string :=
  let! auth := sign_blossom_get url in
  let! (status, body) := send_ok (with_auth_tag c (mkRequest "GET" url [("Authorization", auth)] None (Some 120%N) false)) in
  let! _ := refuse status body in
  lift (map_err Network body).

Lemma download_media_unfold c input :
  download_media c input = bind (lift (media_url_from_input (relay_url c) input)) (fun url => with_retry_body (media_once c url)).
Proof. done. Qed.

Definition media_outcome (s : Sent) : result CliError string :=
  match s with
  | SendFailed e => Err (Network e)
  | Response status body =>
      if resp_was_success status then map_err Network body else Err (RelayError status (text_or_empty body))
  end.

Lemma media_attempt c url : own_media (relay_url c) url -> attempt (media_request (relay_url c)) (fun s r => r = media_outcome s) (media_once c url).
Proof.
  intros Hown w r w' H.
  apply (attempt_auth _ (fun s r => r = media_outcome s) (sign_blossom_get url)
    (fun auth => with_auth_tag c (mkRequest "GET" url [("Authorization", auth)] None (Some 120%N) false))
    (fun s => lift (media_outcome s))); [apply quiet_blossom_get|apply blossom_get_local| | | |].
  - intros a. unfold media_request, with_auth_tag. by destruct (auth_tag_json c).
  - intros s. apply quiet_lift.
  - by intros s w1 r1 w2 [= <- <-].
  - rewrite <-H. unfold media_once, send_ok, refuse, bind, lift, fail, ret.
    destruct (sign_blossom_get _ w) as [[a|e] w1]; [|done]. unfold send. destruct (exchange _ _) as [[e|status b] e1]; [done|].
    cbn. by destruct (resp_was_success status).
Qed.

(** The signed authorization of a media download only ever goes to this
    relay: every request is a GET without redirects, to a URL of the relay's own
    scheme, host and port whose path is [/media/] and one segment that begins
    with a SHA-256 hash and holds no slash, however the input was written.  An
    input of another origin or shape is refused before anything is sent. *)
Theorem media_auth_scoped c input w r w' :
  download_media c input w = (r, w') ->
  exists requests, sends w w' requests /\ length requests <= 3 /\ Forall (fun x => media_request (relay_url c) x.1) requests /\
    (forall e, media_url_from_input (relay_url c) input = Err e -> requests = [] /\ r = Err e) /\
    (forall bytes, r = Ok bytes -> exists q status, last requests = Some (q, Response status (Ok bytes)) /\ resp_was_success status = true).
Proof.
  rewrite download_media_unfold. unfold bind, lift. destruct (media_url_from_input (relay_url c) input) as [url|e] eqn:Eu.
  - intros H. apply media_url_own in Eu.
    assert (forall w r w', media_once c url w = (r, w') -> w_slept w' = w_slept w) as Hsl.
    { intros w1 r1 w2. unfold media_once, send_ok, refuse, bind, lift, fail, ret. destruct (sign_blossom_get _ w1) as [[a|e] w3] eqn:E;
        destruct (quiet_blossom_get _ _ _ _ E) as (_ & Hs & _); [|by intros [= _ <-]].
      unfold send. destruct (exchange _ _) as [[e|status b] e1]; [by intros [= _ <-]|]. cbn. destruct (negb _); by intros [= _ <-]. }
    destruct (retry_loop_spec _ _ _ RETRY_MAX_ATTEMPTS _ _ _ _ (media_attempt _ _ Eu) Hsl (Nat.lt_0_succ 2) H)
      as (ea & fi & ds & H1 & H2 & H3 & _ & _ & _ & _ & H8).
    exists (ea ++ fi). split_and!; [done..| |]. { intros e He. congruence. }
    intros bytes ->. destruct H8 as [([q s] & -> & Hg)|(_ & e & ? & _)]; [|done]. cbn in Hg.
    destruct s as [e|status body]; [done|]. cbn in Hg. destruct (resp_was_success status) eqn:Es; [|done]. destruct body as [b|]; [|done].
    injection Hg as ->. exists q, status. by rewrite last_snoc.
  - intros [= <- <-]. exists []. unfold sends. rewrite app_nil_r. split_and!; [done|cbn; lia|constructor| |done]. intros e' [= <-]. done.
Qed.
End runs.

(** ** A scripted relay

    The outcomes of the requests to come, and the bodies that were executed. *)
Module CliDemo.

#[export] Instance bits_json : JsonLib := {| from_str s := unbits s ≫= decode; json_text v := bits (encode v) |}.

Definition connect_error : NetError := mkNetError "connection refused" [] true false true false false.
Definition timeout_error : NetError := mkNetError "timed out" [] false true true false false.

Record Script := mkScript { script : list Sent; executed : list string }.

Definition demo_exchange (q : Request) (e : Script) : Sent * Script :=
  match script e with
  | s :: rest =>
      (s, mkScript rest (if turned_away s then executed e else match rq_body q with Some b => b :: executed e | None => executed e end))
  | [] => (SendFailed connect_error, e)
  end.

Definition signed (b : EventBuilder) : Event := mkEvent "e" "me" 7 (b_kind b) (b_tags b) (b_content b) "sig".

(** The library with any exchange. *)
Definition cli_lib (E : Type) (exchange : Request -> E -> Sent * E) : CliLib := {|
  Env := E;
  Cli.exchange := exchange;
  new_uuid e := ("u", e);
  unix_now e := (5%N, e);
  sign_with_keys b e := (Ok (signed b), e);
  as_json _ := "{}";
  event_bytes e := Ok (ev_content e);
  B64_encode s := s;
  URL_SAFE_encode s := s;
  url_parse s := match strip_prefix "https://relay" s with
                 | Some path => Ok (mkUrl "https" (Some (Domain "relay")) (Some "relay") None (Some 443%N) path)
                 | None => Err "relative URL without a base"
                 end;
  auth_tag_set := false;
  read_file p _ := if String.eqb p "cat.png" then FileBytes "blob" else CannotAccess "not found";
  read_stdin _ := Ok "typed";
  infer_mime _ := Some "image/png";
  read_receipt _ := Ok (mkReceipt demo_digest 4 "/artifacts/x");
  read_descriptor _ := Ok (mkBlob "https://relay/media/x" demo_digest 4 "image/png" 0 None None None None);
  json_error _ := "expected value";
  EventId_parse s := Ok (to_ascii_lowercase s);
|}.

#[export] Instance demo_cli : CliLib := cli_lib Script demo_exchange.

Definition count_of (b : string) (l : list string) : nat := length (List.filter (String.eqb b) l).

Lemma demo_exchange_log q e :
  executed (demo_exchange q e).2 = executed e \/
  exists b, rq_body q = Some b /\ turned_away (demo_exchange q e).1 = false /\ executed (demo_exchange q e).2 = b :: executed e.
Proof.
  unfold demo_exchange. destruct (script e) as [|s rest]; [by left|]. cbn [fst snd executed]. destruct (turned_away s) eqn:E; [by left|].
  destruct (rq_body q) as [b|]; [|by left]. right. eauto.
Qed.

Lemma count_of_cons b x l : count_of b (x :: l) = if String.eqb b x then S (count_of b l) else count_of b l.
Proof. unfold count_of. cbn. by destruct (String.eqb b x). Qed.

#[export] Instance demo_log : ExecutionLog.
Proof.
  refine {| executions := (fun e b => count_of b (executed e)) : @Env demo_cli -> string -> nat |}; try done; intros q e b;
    pose proof (demo_exchange_log q e) as H; change (exchange q e) with (demo_exchange q e); revert H;
    generalize (demo_exchange q e); intros [s e'] H; cbn in *; destruct H as [->|(x & Hq & Ha & ->)]; try done; try lia.
  - rewrite count_of_cons. destruct (String.eqb b x); lia.
  - intros Hb. rewrite count_of_cons. destruct (String.eqb_spec b x) as [->|]; [congruence|done].
Defined.

Definition demo_client : BuzzClient := mkClient "https://relay" None None.
Definition command (kind : N) : Event := mkEvent "id" "me" 7 kind [] "ban" "sig".
Definition start (l : list Sent) : World := mkWorld (CL:=demo_cli) (mkScript l []) [] [].

(** The relay stored the event although the answer to the first attempt was
    lost; no connection could be made after that.  The error that is reported
    says that trying again is safe. *)
Example stored_event_reported_retryable :
  let '(r, w) := submit_event demo_client (command 9) (start [SendFailed timeout_error; SendFailed connect_error; SendFailed connect_error]) in
  r = Err (Network connect_error) /\ is_retryable_error (Network connect_error) = true /\ executions (w_env w) "ban" = 1.
Proof. by vm_compute. Qed.
End CliDemo.

Import CliDemo.

Lemma moderation_at_most_once_witness :
  exists r w', submit_event demo_client (command 9040) (start [SendFailed connect_error; SendFailed timeout_error]) = (r, w') /\
    executions (w_env w') "ban" <= 1 /\ length (w_sent w') = 2.
Proof.
  destruct (submit_event _ _ _) as [r w'] eqn:E. exists r, w'.
  destruct (moderation_at_most_once (CL:=demo_cli) demo_client (command 9040) "ban" _ _ _ eq_refl eq_refl E) as (H & _ & _).
  split; [reflexivity|]. split; [exact H|]. by_run E.
Defined.

Lemma stored_event_retries_witness :
  exists r w', submit_event demo_client (command 9) (start [Response 503 (Ok "busy"); Response 200 (Ok "fine")]) = (r, w') /\
    r = Ok "fine" /\ length (w_sent w') <= 3.
Proof.
  destruct (submit_event _ _ _) as [r w'] eqn:E. exists r, w'.
  destruct (stored_event_retries (CL:=demo_cli) demo_client (command 9) "ban" _ _ _ eq_refl eq_refl E) as (ea & fi & ds & H & Hl & _).
  split; [reflexivity|]. split; [by_run E|]. unfold sends in H. rewrite H. exact Hl.
Defined.

Lemma media_auth_scoped_witness :
  exists r w', download_media demo_client demo_digest (start [Response 200 (Ok "bytes")]) = (r, w') /\
    Forall (fun x => media_request "https://relay" x.1) (w_sent w') /\ length (w_sent w') = 1.
Proof.
  destruct (download_media _ _ _) as [r w'] eqn:E. exists r, w'.
  destruct (media_auth_scoped _ _ _ _ _ E) as (rs & H & _ & Hall & _).
  split; [reflexivity|]. split; [unfold sends in H; rewrite H; exact Hall|]. by_run E.
Defined.

Lemma artifacts_verified_witness :
  exists w', get_artifact demo_client demo_digest (start [Response 200 (Ok "blob")]) = (Ok "blob", w') /\
    sha256_hex "blob" = to_ascii_lowercase demo_digest.
Proof.
  destruct (get_artifact demo_client demo_digest (start [Response 200 (Ok "blob")])) as [r w'] eqn:E. exists w'.
  destruct (artifacts_verified demo_client (start [Response 200 (Ok "blob")]) w') as (H & _).
  assert (r = Ok "blob") as -> by (by_run E).
  split; [reflexivity|]. apply (H demo_digest "blob" E).
Defined.
