(* ===== verification/CliPaging.v ===== *)
(** * Reading everything, page by page

    [query_pages] of the command line client against the event store of the
    local relay: the composite cursor it sends makes it read every answer
    exactly once. *)

From S2P Require Import Prelude Text Nostr Demo Kinds OwnerAttestation GitPerms Sdk SdkTheory Ingest FilterMatch Store StoreTheory PromptTheory Json Mentions Cli CliTheory.

Section paging.
Context `{NL : NostrLib, SJ : SerdeJson, SK : SdkLib, JL : JsonLib, CL : CliLib}.

Definition set_limit (n : option nat) (f : Filter) : Filter :=
  mkFilter (f_ids f) (f_authors f) (f_kinds f) (f_search f) (f_since f) (f_until f) n (f_generic_tags f).

Definition with_limit (n : option nat) (cf : CursorFilter) : CursorFilter := mkCursorFilter (set_limit n (cf_filter cf)) (cf_before_id cf).

Definition with_cursor (t : N) (id : EventId) (cf : CursorFilter) : CursorFilter :=
  let f := cf_filter cf in
  mkCursorFilter (mkFilter (f_ids f) (f_authors f) (f_kinds f) (f_search f) (f_since f) (Some t) (f_limit f) (f_generic_tags f)) (Some id).

(** A relay that answers [/query] from this store, and what a filter and an
    event are in JSON: [until], [before_id] and [limit] are read from the fields
    of these names, and an event shows its time and its id. *)
Class PagedRelay (c : BuzzClient) (inner : StoreInner) := {
  read_cursor : Value -> option CursorFilter;
  event_value : Event -> Value;
  read_limit : forall v cf n, read_cursor v = Some cf ->
    read_cursor (index_set v "limit" (json_u64 (N.of_nat n))) = Some (with_limit (Some n) cf);
  read_after : forall v cf t id, read_cursor v = Some cf -> hex64 id = true ->
    read_cursor (index_set (index_set v "until" (json_u64 t)) "before_id" (VString id)) = Some (with_cursor t id cf);
  event_time : forall e, field "created_at" (event_value e) = Some (json_u64 (ev_created_at e));
  event_id_text : forall e, field "id" (event_value e) = Some (VString (to_hex (ev_id e)));
  serves : forall q e v cf answers,
    rq_method q = "POST" -> rq_url q = relay_url c +:+ "/query" -> rq_body q = Some (json_text (VArray [v])) ->
    read_cursor v = Some cf -> query_with_cursors inner [cf] = Ok answers ->
    exists text, (exchange q e).1 = Response 200 (Ok text) /\ from_str text = Some (VArray (event_value <$> answers));
  signs : forall url body w, exists auth w', sign_nip98 "POST" url (Some body) w = (Ok auth, w') /\ w_sent w' = w_sent w;
}.

Context (c : BuzzClient) (l : option string) (subs : list (AcceptEnv * Event)).
Let inner : StoreInner := run (empty_store l) subs.
Context `{PR : !PagedRelay c inner} (f : Filter).
Hypothesis Hinj : id_injective (snd <$> subs).
Hypothesis Hsearch : f_search f = None.
Hypothesis Huntil : f_until f = None.

(** The answers to the filter without a limit, newest first. *)
Definition answers : list Event := List.filter (cursor_match (mkCursorFilter f None)) (ordered_events inner).

Hypothesis Hids : forall e, e ∈ answers -> hex64 (to_hex (ev_id e)) = true.

Lemma query_served v cf ans w :
  read_cursor v = Some cf -> query_with_cursors inner [cf] = Ok ans ->
  exists text w', query c v w = (Ok text, w') /\ from_str text = Some (VArray (event_value <$> ans)) /\
    length (w_sent w') = S (length (w_sent w)).
Proof.
  intros Hv Hq. unfold query, query_multi, with_retry_body, RETRY_MAX_ATTEMPTS. cbn [retry_loop].
  destruct (signs (relay_url c +:+ "/query") (json_text (VArray [v])) w) as (auth & w1 & Es & Hs1).
  set (q := with_auth_tag c (mkRequest "POST" (relay_url c +:+ "/query") [("Authorization", auth); ("Content-Type", "application/json")] (Some (json_text (VArray [v]))) None true)).
  destruct (serves q (w_env w1) v cf ans) as (text & Ex & Ht); [unfold q, with_auth_tag; by destruct (auth_tag_json c)..|done|done|].
  assert (exists w2, post_and_read c (relay_url c +:+ "/query") (json_text (VArray [v])) w = (Ok text, w2) /\ length (w_sent w2) = S (length (w_sent w)))
    as (w2 & E & Hl).
  { unfold post_and_read, post_json, send_ok, bind, lift, ret. rewrite Es. unfold send. fold q.
    destruct (exchange q (w_env w1)) as [s e] eqn:Eq. cbn in Ex. subst s. eexists. split; [reflexivity|]. cbn. rewrite length_app, Hs1. cbn. lia. }
  rewrite E. eauto 10.
Qed.

(** The filter the client sends after having read [A]. *)
Definition position (n : option nat) (A : list Event) : CursorFilter :=
  match last A with Some x => page_after (set_limit n f) x | None => mkCursorFilter (set_limit n f) None end.

Lemma match_limit n : List.filter (cursor_match (mkCursorFilter (set_limit n f) None)) (ordered_events inner) = answers.
Proof. done. Qed.

Lemma page_read n A B :
  0 < n <= QUERY_PAGE_SIZE -> answers = A ++ B -> query_with_cursors inner [position (Some n) A] = Ok (take n B).
Proof.
  intros Hn E. assert (limit_of (mkCursorFilter (set_limit (Some n) f) None) = n) as Hlim.
  { unfold limit_of, QUERY_PAGE_SIZE, MAX_QUERY_LIMIT in *. cbn. lia. }
  unfold position. destruct A as [|a A _] using rev_ind.
  - cbn [last]. rewrite query_one; [|apply canonical_run; constructor|by apply run_nodup_ids|done|by left]. by rewrite Hlim, match_limit, E.
  - rewrite last_snoc. unfold inner. rewrite (next_page_exact l subs (set_limit (Some n) f) A B a Hinj Hsearch Huntil); [by rewrite Hlim|].
    rewrite <-app_assoc in E. exact E.
Qed.

Lemma set_limit_position n m A : with_limit (Some n) (position m A) = position (Some n) A.
Proof. unfold position. by destruct (last A). Qed.

Lemma cursor_position n A x : with_cursor (ev_created_at x) (ev_id x) (position n A) = position n (A ++ [x]).
Proof. unfold position. rewrite last_snoc. by destruct (last A). Qed.

(** What the client wants of the answers. *)
Definition wanted (limit : option nat) : list Event := match limit with Some n => take n answers | None => answers end.

Lemma advance_page v m A page x :
  read_cursor v = Some (position m A) -> last page = Some x -> hex64 (to_hex (ev_id x)) = true ->
  exists v', advance_query_cursor v (event_value <$> page) = Ok v' /\ read_cursor v' = Some (position m (A ++ page)).
Proof.
  intros Hv Hl Hx. unfold advance_query_cursor. rewrite fmap_last, Hl. cbn. rewrite event_time, event_id_text. cbn. rewrite Hx. cbn.
  eexists. split; [reflexivity|]. rewrite (read_after _ _ _ _ Hv Hx). f_equal.
  destruct page as [|y page _] using rev_ind; [done|]. rewrite last_snoc in Hl. injection Hl as ->.
  rewrite app_assoc, <-cursor_position. unfold position. destruct (last A), (last (A ++ page)); done.
Qed.

(** One turn of the loop. *)
Lemma pages_step fuel limit v m A B w :
  read_cursor v = Some (position m A) -> answers = A ++ B -> more_pages limit (length A) = true ->
  let n := page_limit limit (length A) in
  exists w1, length (w_sent w1) = S (length (w_sent w)) /\
  ((length B < n /\ query_pages (S fuel) c v limit (event_value <$> A) w = (Ok (Some (event_value <$> answers)), w1)) \/
   (n <= length B /\ exists v', read_cursor v' = Some (position (Some n) (A ++ take n B)) /\
      query_pages (S fuel) c v limit (event_value <$> A) w = query_pages fuel c v' limit (event_value <$> (A ++ take n B)) w1)).
Proof.
  intros Hv E Em n. assert (0 < n <= QUERY_PAGE_SIZE) as Hn.
  { unfold n, page_limit, QUERY_PAGE_SIZE in *. destruct limit as [k|]; cbn in Em; [apply Nat.ltb_lt in Em|]; lia. }
  pose proof (read_limit _ _ n Hv) as Hv'. rewrite set_limit_position in Hv'.
  destruct (query_served _ _ _ w Hv' (page_read n A B Hn E)) as (text & w1 & Eq & Et & Hl). exists w1. split; [done|].
  assert (query_pages (S fuel) c v limit (event_value <$> A) w =
          (if (length (take n B) <? n)%nat then ret (Some (event_value <$> (A ++ take n B)))
           else bind (lift (advance_query_cursor (index_set v "limit" (json_u64 (N.of_nat n))) (event_value <$> take n B)))
                  (fun v' => query_pages fuel c v' limit (event_value <$> (A ++ take n B)))) w1) as ->.
  { cbn [query_pages]. rewrite length_fmap, Em. cbn [negb]. fold n. unfold bind at 1. rewrite Eq. unfold bind at 1, lift at 1. rewrite Et.
    cbn [as_array ok_or]. rewrite length_fmap, fmap_app. done. }
  rewrite length_take. destruct (Nat.ltb_spec (n `min` length B) n) as [Hlt|Hge].
  - left. split; [lia|]. unfold ret. rewrite take_ge by lia. by rewrite <-E.
  - right. split; [lia|]. assert (exists x, last (take n B) = Some x /\ x ∈ answers) as (x & Hx & Hin).
    { destruct (last (take n B)) as [x|] eqn:Ex.
      - exists x. split; [done|]. rewrite E, <-(take_drop n B). apply last_Some_elem_of in Ex. rewrite !elem_of_app. tauto.
      - apply last_None in Ex. apply (f_equal length) in Ex. rewrite length_take in Ex. cbn in Ex. lia. }
    destruct (advance_page _ _ _ _ _ Hv' Hx (Hids x Hin)) as (v' & Ea & Hr). exists v'. split; [done|]. unfold bind, lift. by rewrite Ea.
Qed.

Lemma pages_read fuel limit v m A B w :
  read_cursor v = Some (position m A) -> answers = A ++ B -> (forall n, limit = Some n -> length A <= n) ->
  length (wanted limit) <= length A + QUERY_PAGE_SIZE * fuel ->
  exists w', query_pages (S fuel) c v limit (event_value <$> A) w = (Ok (Some (event_value <$> wanted limit)), w') /\
    length (w_sent w') <= length (w_sent w) + S fuel.
Proof.
  revert v m A B w. induction fuel as [|fuel IH]; intros v m A B w Hv E Hlim Hf.
  all: assert (length answers = length A + length B) as El by (by rewrite E, length_app).
  all: destruct (more_pages limit (length A)) eqn:Em;
    [|exists w; split; [|lia]; cbn [query_pages]; rewrite length_fmap, Em; destruct limit as [n|]; [|done]; cbn in Em; apply Nat.ltb_ge in Em;
      specialize (Hlim n eq_refl); cbn; unfold ret; rewrite E, take_app_length' by lia; done].
  2: destruct (pages_step (S fuel) limit v m A B w Hv E Em) as (w1 & Hl & [[Hlt Eq]|(Hge & v' & Hr & Eq)]).
  1: destruct (pages_step 0 limit v m A B w Hv E Em) as (w1 & Hl & [[Hlt Eq]|(Hge & v' & Hr & Eq)]).
  1, 3: exists w1; split; [|lia]; rewrite Eq; unfold wanted; destruct limit as [n|]; [|done]; cbn in Hlt, Em; apply Nat.ltb_lt in Em;
    unfold QUERY_PAGE_SIZE in Hlt; rewrite take_ge by lia; done.
  - exfalso. cbn in Hge. unfold wanted in Hf. destruct limit as [n|]; cbn in Em, Hge; unfold QUERY_PAGE_SIZE in *.
    + apply Nat.ltb_lt in Em. rewrite length_take in Hf. lia.
    + lia.
  - set (n := page_limit limit (length A)) in *. destruct (IH v' (Some n) (A ++ take n B) (drop n B) w1) as (w' & Er & Hs).
    + done.
    + by rewrite <-app_assoc, take_drop.
    + intros k ->. rewrite length_app, length_take. unfold n. cbn [page_limit]. specialize (Hlim k eq_refl). lia.
    + rewrite length_app, length_take, Nat.min_l by done. unfold wanted, n, page_limit, QUERY_PAGE_SIZE in *. destruct limit as [k|]; cbn [more_pages] in *.
      * apply Nat.ltb_lt in Em. rewrite length_take in *. lia.
      * lia.
    + exists w'. split; [by rewrite Eq|lia].
Qed.

End paging.

(** ** A relay over a store *)
Module PagingDemo.
Export CliDemo.

Definition demo_read (v : Value) : option CursorFilter :=
  fs ← as_object v;
  Some (mkCursorFilter (mkFilter None None None None None (get "until" fs ?> as_u64) (N.to_nat <$> (get "limit" fs ?> as_u64)) []) (get "before_id" fs ?> as_str)).

Definition demo_event_value (e : Event) : Value := VObject [("id", VString (ev_id e)); ("created_at", json_u64 (ev_created_at e))].

Definition store_exchange (inner : StoreInner) (q : Request) (u : unit) : Sent * unit :=
  (match (match rq_body q with Some b => from_str b | None => None end) with
   | Some (VArray [v]) =>
       match demo_read v with
       | Some cf =>
           match query_with_cursors inner [cf] with
           | Ok ans => Response 200 (Ok (json_text (VArray (demo_event_value <$> ans))))
           | Err _ => Response 400 (Ok "query")
           end
       | None => Response 400 (Ok "filter")
       end
   | _ => Response 400 (Ok "json")
   end, u).

Lemma bits_read_back v : from_str (json_text v) = Some v.
Proof. change (unbits (bits (encode v)) ≫= decode = Some v). rewrite unbits_bits. apply decode_encode. Qed.

Lemma demo_read_object v cf : demo_read v = Some cf -> exists fs, v = VObject fs.
Proof. destruct v; try done. eauto. Qed.

#[export] Instance demo_paged (inner : StoreInner) : PagedRelay (CL:=cli_lib unit (store_exchange inner)) demo_client inner.
Proof.
  refine {| read_cursor := demo_read; event_value := demo_event_value |}.
  - intros v cf n H. destruct (demo_read_object _ _ H) as (fs & ->). cbn in *. injection H as <-. rewrite !get_set_field. cbn.
    by rewrite Nat2N.id.
  - intros v cf t id H _. destruct (demo_read_object _ _ H) as (fs & ->). cbn in *. injection H as <-. rewrite !get_set_field. done.
  - done.
  - done.
  - intros q e v cf ans _ _ Hb Hr Hq. exists (json_text (VArray (demo_event_value <$> ans))). split; [|apply bits_read_back].
    change (exchange q e) with (store_exchange inner q e). unfold store_exchange. rewrite Hb, bits_read_back, Hr, Hq. done.
  - intros url body [e s d]. eexists _, _. split; [reflexivity|done].
Defined.

Definition hex_a : string := demo_digest.
Definition hex_b : string := "aaaaaaaaaaaaaaaabbbbbbbbbbbbbbbb0000000000000000fffffffffffffffe".
Definition two_notes : list (AcceptEnv * Event) := [(demo_env, demo_event hex_a "alice" 5 1 []); (demo_env, demo_event hex_b "alice" 5 1 [])].
Definition notes : StoreInner := run (empty_store None) two_notes.
End PagingDemo.

Import PagingDemo.

