(* ===== verification/CliMessages.v ===== *)
(** * Message commands

    [buzz-cli/src/commands/messages.rs]: sending, editing, deleting, voting and
    reading messages.  A sending command is split at its builder: [prepare_*]
    validates, asks the relay and builds, [publish] signs, submits and gives the
    text that is printed. *)

From S2P Require Import Prelude Text Nostr Demo Kinds OwnerAttestation GitPerms Sdk EventQueue Prompt Json Mentions Cli.

(** ** Reading tags *)

(** The loop variables: root and reply. *)
Definition root_step (acc : option string * option string) (tag : Value) : option string * option string :=
  let '(root, reply) := acc in
  match as_array tag with
  | Some (name :: id :: _ :: marker :: _) =>
      if bool_decide (as_str name = Some "e"%string) then
        match as_str marker, as_str id ?> (fun s => if hex64 s then Some s else None) with
        | Some m, Some id =>
            if String.eqb m "root" then (Some id, reply) else if String.eqb m "reply" then (root, Some id) else acc
        | _, _ => acc
        end
      else acc
  | _ => acc
  end.

Definition find_root_from_tags (tags : Value) : option string :=
  match as_array tags with
  | Some arr => let '(root, reply) := foldl root_step (None, None) arr in union_first root reply
  | None => None
  end.

Definition h_value (tag : Value) : option string :=
  match as_array tag with
  | Some arr => if bool_decide (head arr ?> as_str = Some "h"%string) then arr !! 1 ?> as_str else None
  | None => None
  end.

Definition member_pubkey `{NL : NostrLib} (t : Value) : option string :=
  match as_array t with
  | Some arr =>
      if bool_decide (head arr ?> as_str = Some "p"%string) then arr !! 1 ?> as_str ?> PublicKey_from_hex ?> (fun k => Some (to_hex k)) else None
  | None => None
  end.

Definition parse_member_pubkeys `{NL : NostrLib} (event : Value) : list string :=
  match field "tags" event ?> as_array with Some tags => omap member_pubkey tags | None => [] end.

Inductive OutputFormat := Compact | JsonFormat.

Record SendMessageParams := mkSend {
  sm_channel_id : string;
  sm_content : string;
  sm_kind : option N;
  sm_reply_to : option string;
  sm_broadcast : bool;
  sm_files : list string;
}.

Record SendDiffParams := mkSendDiff {
  sd_channel_id : string;
  sd_diff : string;
  sd_repo_url : string;
  sd_commit_sha : string;
  sd_file_path : option string;
  sd_parent_commit_sha : option string;
  sd_source_branch : option string;
  sd_target_branch : option string;
  sd_pr_number : option N;
  sd_language : option string;
  sd_description : option string;
  sd_reply_to : option string;
}.

Section messages.
Context `{NL : NostrLib, SK : SdkLib, JL : JsonLib, ML : MentionLib, CL : CliLib}.

Definition parse_event_id (hex : string) : result CliError EventId :=
  map_err (fun e => Usage ("invalid event ID: " +:+ e)) (EventId_parse hex).

Definition parse_uuid (s : string) : result CliError Uuid := ok_or (Uuid_parse s) (Usage ("invalid UUID: " +:+ uuid_error s)).

Definition validate_uuid (s : string) : result CliError unit :=
  match Uuid_parse s with Some _ => Ok tt | None => Err (Usage ("invalid UUID: " +:+ s)) end.

Definition read_or_stdin (value : string) : M string := fun w =>
  if String.eqb value "-" then (map_err (fun e => Other ("failed to read stdin: " +:+ e)) (read_stdin (w_env w)), w) else (Ok value, w).

Definition parse_response (raw : string) : result CliError Value :=
  ok_or (from_str raw) (Other ("failed to parse query response: " +:+ json_error raw)).

(** ** Asking the relay *)

Definition strs (l : list string) : Value := VArray (VString <$> l).
Definition nums (l : list N) : Value := VArray (json_u64 <$> l).

Definition resolve_thread_ref (c : BuzzClient) (parent_event_id : string) : M ThreadRef :=
  let! parent_eid := lift (parse_event_id parent_event_id) in
  let! raw := query c (VObject [("ids", strs [parent_event_id]); ("limit", json_u64 1)]) in
  let! events := lift (parse_response raw) in
  let! event := lift (ok_or (as_array events ?> head) (Other ("parent event " +:+ parent_event_id +:+ " not found"))) in
  let tags := default VNull (field "tags" event) in
  let! root_eid :=
    match find_root_from_tags tags with
    | Some root_hex => if String.eqb root_hex parent_event_id then ret parent_eid else lift (parse_event_id root_hex)
    | None => ret parent_eid
    end in
  ret (mkThread root_eid parent_eid).

Definition resolve_reply (c : BuzzClient) (reply_to : option string) : M (option ThreadRef) :=
  match reply_to with Some r => let! t := resolve_thread_ref c r in ret (Some t) | None => ret None end.

Definition resolve_channel_id (c : BuzzClient) (event_id : string) : M Uuid :=
  let! raw := query c (VObject [("ids", strs [event_id])]) in
  let! events := lift (parse_response raw) in
  let! arr := lift (ok_or (as_array events) (Other "query response is not an array")) in
  let! event := lift (ok_or (head arr) (Other ("event " +:+ event_id +:+ " not found"))) in
  let! tags := lift (ok_or (field "tags" event ?> as_array) (Other "event missing 'tags' field")) in
  match find_map h_value tags with
  | Some uuid_str => lift (ok_or (Uuid_parse uuid_str) (Other ("event h-tag is not a valid UUID: " +:+ uuid_str)))
  | None => fail (Other ("event " +:+ event_id +:+ " has no h-tag — cannot determine channel"))
  end.

Definition fetch_events (c : BuzzClient) (filter : Value) : M (option (list Value)) := fun w =>
  match query c filter w with
  | (Ok raw, w) => (Ok (from_str raw ?> as_array), w)
  | (Err _, w) => (Ok None, w)
  end.

Definition fetch_member_pubkeys (c : BuzzClient) (filter : Value) : M (option (list string)) :=
  let! events := fetch_events c filter in
  ret (events ?> head ?> (fun e => Some (parse_member_pubkeys e))).

(** A profile event's key and its name, when it has one. *)
Definition profile_entry (e : Value) : option (string * string) :=
  pubkey ← field "pubkey" e ?> as_str;
  content_json ← field "content" e ?> as_str;
  v ← from_str content_json;
  name ← union_first (field "display_name" v) (field "name" v) ?> as_str ?> (fun n => if String.eqb n EmptyString then None else Some n);
  Some (pubkey, name).

(** The keys under a name in lower case, in the order of the profiles. *)
Definition keys_named (entries : list (string * string)) (lower : string) : list string :=
  fst <$> List.filter (fun x => String.eqb (to_ascii_lowercase x.2) lower) entries.

Definition resolve_content_mentions (c : BuzzClient) (channel_id content : string) : M (list string) :=
  if negb (str_contains_char "@" content) then ret []
  else
    let! members := fetch_member_pubkeys c (VObject [("kinds", nums [39002%N]); ("#d", strs [channel_id]); ("limit", json_u64 1)]) in
    match members with
    | None | Some [] => ret []
    | Some member_pubkeys =>
        let! profiles := fetch_events c (VObject [("kinds", nums [0%N]); ("authors", strs member_pubkeys);
                                                  ("limit", json_u64 (N.of_nat (length member_pubkeys)))]) in
        match profiles with
        | None => ret []
        | Some profile_events =>
            let entries := omap profile_entry profile_events in
            let names := extract_at_mentions_with_known content (snd <$> entries) in
            ret (names ≫= keys_named entries)
        end
    end.

(** ** Sending *)

(** The loop over the files: the tags and the text of the media. *)
Fixpoint upload_all (c : BuzzClient) (files : list string) (media_tags : list (list string)) (media_content : string)
    : M (list (list string) * string) :=
  match files with
  | [] => ret (media_tags, media_content)
  | file_path :: rest => fun w =>
      match upload_file c file_path w with
      | (Err e, w) => (Err (Other ("upload failed for " +:+ file_path +:+ ": " +:+ cli_error_to_string e)), w)
      | (Ok desc, w) =>
          let label := if starts_with (mime_type desc) "video/" then "![video](" else "![image](" in
          upload_all c rest (media_tags ++ [build_imeta_tag desc]) (media_content +:+ nl +:+ label +:+ blob_url desc +:+ ")") w
      end
  end.

Definition build_failed {A} (name : string) (r : result SdkError A) : M A :=
  lift (map_err (fun e => Other (name +:+ " failed: " +:+ sdk_error_to_string e)) r).

Definition build_kind (p : SendMessageParams) (channel_uuid : Uuid) (final_content : string) (thread_ref : option ThreadRef)
    (mention_refs : list string) (media_tags : list (list string)) : M EventBuilder :=
  match sm_kind p with
  | None => build_failed "build_message" (build_message channel_uuid final_content thread_ref mention_refs (sm_broadcast p) media_tags)
  | Some k =>
      if (k =? 45001)%N then build_failed "build_forum_post" (build_forum_post channel_uuid final_content mention_refs media_tags)
      else if (k =? 45003)%N then
        let! tr := lift (ok_or thread_ref (Usage "--reply-to is required for forum comments (kind 45003)")) in
        build_failed "build_forum_comment" (build_forum_comment channel_uuid final_content tr mention_refs media_tags)
      else if (k =? 9)%N then
        build_failed "build_message" (build_message channel_uuid final_content thread_ref mention_refs (sm_broadcast p) media_tags)
      else fail (Usage ("--kind " +:+ num k +:+ " is not supported (use 9, 45001, or 45003)"))
  end.

Definition check_opt_hex (o : option string) : M unit := match o with Some r => lift (validate_hex64 r) | None => ret tt end.

(** The keys to tag: those of the names in the text, then those of its URIs. *)
Definition message_mentions (c : BuzzClient) (channel_id content : string) : M (list string) :=
  let! auto_resolved := resolve_content_mentions c channel_id content in
  ret (merge_mentions auto_resolved (extract_nostr_uris (strip_code_regions content)) MENTION_CAP).

Definition prepare_message (c : BuzzClient) (p : SendMessageParams) : M EventBuilder :=
  let! content := read_or_stdin (sm_content p) in
  let! _ := lift (validate_content_size content) in
  let! _ := check_opt_hex (sm_reply_to p) in
  let! channel_uuid := lift (parse_uuid (sm_channel_id p)) in
  let! (media_tags, media_content) := upload_all c (sm_files p) [] EmptyString in
  let final_content := if String.eqb media_content EmptyString then content else content +:+ media_content in
  let! thread_ref := resolve_reply c (sm_reply_to p) in
  let! mention_refs := message_mentions c (sm_channel_id p) content in
  build_kind p channel_uuid final_content thread_ref mention_refs media_tags.

Definition publish (c : BuzzClient) (builder : EventBuilder) : M string :=
  let! event := sign_event c builder in
  let! resp := submit_event c event in
  ret (normalize_write_response resp).

Definition cmd_send_message (c : BuzzClient) (p : SendMessageParams) : M string :=
  let! builder := prepare_message c p in publish c builder.

Definition branch_pair (p : SendDiffParams) : result CliError (option (string * string)) :=
  match sd_source_branch p, sd_target_branch p with
  | Some _, None | None, Some _ => Err (Usage "--source-branch and --target-branch must both be provided or both omitted")
  | Some src, Some tgt => Ok (Some (src, tgt))
  | None, None => Ok None
  end.

Definition diff_alt (p : SendDiffParams) : string :=
  match sd_file_path p, sd_description p with
  | Some fp, Some desc => "Diff: " +:+ fp +:+ " — " +:+ desc
  | Some fp, None => "Diff: " +:+ fp
  | _, _ => "Diff"
  end.

Definition prepare_diff (c : BuzzClient) (p : SendDiffParams) : M EventBuilder :=
  let! _ := check_opt_hex (sd_reply_to p) in
  let! branch := lift (branch_pair p) in
  let! channel_uuid := lift (parse_uuid (sd_channel_id p)) in
  let! diff_content := read_or_stdin (sd_diff p) in
  let '(diff, truncated) := truncate_diff diff_content (N.to_nat MAX_DIFF_BYTES) in
  let language := union_first (sd_language p) (sd_file_path p ≫= infer_language) in
  let! thread_ref := resolve_reply c (sd_reply_to p) in
  let diff_meta := mkDiff (sd_repo_url p) (sd_commit_sha p) (sd_file_path p) (sd_parent_commit_sha p) branch (sd_pr_number p)
                     language (sd_description p) truncated (Some (diff_alt p)) in
  build_failed "build_diff_message" (build_diff_message channel_uuid diff diff_meta thread_ref).

Definition cmd_send_diff_message (c : BuzzClient) (p : SendDiffParams) : M string :=
  let! builder := prepare_diff c p in publish c builder.

Definition cmd_delete_message (c : BuzzClient) (event_id : string) (options : DeleteMessageOptions) : M string :=
  let! _ := lift (validate_hex64 event_id) in
  let! channel_uuid := resolve_channel_id c event_id in
  let! target_eid := lift (parse_event_id event_id) in
  let! builder := build_failed "build_delete_message" (build_delete_message_with_options channel_uuid target_eid options) in
  publish c builder.

Definition cmd_edit_message (c : BuzzClient) (event_id content : string) : M string :=
  let! _ := lift (validate_hex64 event_id) in
  let! _ := lift (validate_content_size content) in
  let! channel_uuid := resolve_channel_id c event_id in
  let! target_eid := lift (parse_event_id event_id) in
  let! builder := build_failed "build_edit" (build_edit channel_uuid target_eid content) in
  publish c builder.

Definition vote_direction (direction : string) : result CliError VoteDirection :=
  if String.eqb direction "up" then Ok Up
  else if String.eqb direction "down" then Ok Down
  else Err (Usage ("--direction must be 'up' or 'down' (got: " +:+ direction +:+ ")")).

Definition cmd_vote_on_post (c : BuzzClient) (event_id direction : string) : M string :=
  let! _ := lift (validate_hex64 event_id) in
  let! vote_dir := lift (vote_direction direction) in
  let! channel_uuid := resolve_channel_id c event_id in
  let! target_eid := lift (parse_event_id event_id) in
  let! builder := build_failed "build_vote" (build_vote channel_uuid target_eid vote_dir) in
  publish c builder.

(** ** Reading *)

Definition compact_event (e : Value) : Value :=
  VObject [("id", default VNull (field "id" e)); ("content", default VNull (field "content" e));
           ("created_at", default VNull (field "created_at" e))].

Definition format_events (normalized : string) (format : OutputFormat) : string :=
  match format with
  | Compact => json_text (VArray (compact_event <$> default [] (from_str normalized ?> as_array)))
  | JsonFormat => normalized
  end.

Definition time_of (e : Value) : N := default 0%N (field "created_at" e ?> as_u64).

Definition oldest_first (events : list Value) : list Value := sort_by (fun a b => (time_of a <=? time_of b)%N) events.
Definition newest_first (events : list Value) : list Value := sort_by (fun a b => (time_of b <=? time_of a)%N) events.

Definition json_i64 (z : Z) : Value := match z with Zneg _ => VNumber (NegInt z) | _ => json_u64 (Z.to_N z) end.

Definition opt_field {A} (k : string) (o : option A) (f : A -> Value) (filter : Value) : Value :=
  match o with Some x => index_set filter k (f x) | None => filter end.

(** The numbers of a comma-separated list. *)
Definition kind_list (kinds : string) : list N := omap (fun s => parse_u64 (trim s)) (split_on "," kinds).

Definition messages_filter (channel_id : string) (limit : option N) (before since : option Z) (kinds : option string) : Value :=
  let limit := N.min (default 50%N limit) 200 in
  let filter := VObject [("kinds", nums [9; 40002; 40008; 45001; 45003]%N); ("#h", strs [channel_id]); ("limit", json_u64 limit)] in
  let filter := match kinds ≫= (fun k => match kind_list k with [] => None | l => Some l end) with
                | Some l => index_set filter "kinds" (nums l)
                | None => filter
                end in
  opt_field "since" since json_i64 (opt_field "until" before json_i64 filter).

Definition show_events (events : list Value) (format : OutputFormat) : string := format_events (normalize_events events) format.

Definition parse_events (resp : string) : list Value := default [] (from_str resp ?> as_array).

Definition cmd_get_messages (c : BuzzClient) (channel_id : string) (limit : option N) (before since : option Z) (kinds : option string)
    (format : OutputFormat) : M string :=
  let! _ := lift (validate_uuid channel_id) in
  let! resp := query c (messages_filter channel_id limit before since kinds) in
  ret (show_events (oldest_first (parse_events resp)) format).

Definition thread_filters (channel_id event_id : string) (limit depth_limit : option N) : list Value :=
  let limit := N.min (default 100%N limit) 500 in
  [opt_field "depth_limit" depth_limit json_u64
     (VObject [("kinds", nums [9; 40002; 40003; 40008; 45003]%N); ("#h", strs [channel_id]); ("#e", strs [event_id]); ("limit", json_u64 limit)]);
   VObject [("ids", strs [event_id]); ("limit", json_u64 1)]].

Definition cmd_get_thread (c : BuzzClient) (channel_id event_id : string) (limit depth_limit : option N) (format : OutputFormat) : M string :=
  let! _ := lift (validate_uuid channel_id) in
  let! _ := lift (validate_hex64 event_id) in
  let! resp := query_multi c (thread_filters channel_id event_id limit depth_limit) in
  ret (show_events (oldest_first (parse_events resp)) format).

(** The key and the shown name of a profile that carries this name. *)
Definition profile_match (lower : string) (e : Value) : option (string * string) :=
  pubkey ← field "pubkey" e ?> as_str;
  content ← field "content" e ?> as_str ?> from_str;
  let display_name := default EmptyString (field "display_name" content ?> as_str) in
  let plain_name := default EmptyString (field "name" content ?> as_str) in
  if String.eqb (to_ascii_lowercase display_name) lower || String.eqb (to_ascii_lowercase plain_name) lower
  then Some (pubkey, if String.eqb display_name EmptyString then plain_name else display_name) else None.

Definition pair_le (a b : string * string) : bool := str_ltb a.1 b.1 || (String.eqb a.1 b.1 && str_leb a.2 b.2).

(** [Vec::dedup]. *)
Fixpoint dedup_adjacent (l : list (string * string)) : list (string * string) :=
  match l with
  | x :: ((y :: _) as rest) => if bool_decide (x = y) then dedup_adjacent rest else x :: dedup_adjacent rest
  | l => l
  end.

Definition match_profiles_by_name (events : list Value) (name : string) : list (string * string) :=
  dedup_adjacent (sort_by pair_le (omap (profile_match (to_ascii_lowercase name)) events)).

Definition candidates (matches : list (string * string)) : string :=
  let shown := Nat.min 5 (length matches) in
  let listing := (fun x : string * string => x.2 +:+ " (" +:+ x.1 +:+ ")") <$> take shown matches in
  join_str ", " (listing ++ if (shown <? length matches)%nat then ["… and " +:+ num (N.of_nat (length matches - shown)) +:+ " more"] else []).

Definition resolve_author (c : BuzzClient) (author : string) : M string :=
  let author := trim author in
  if hex64 author then ret (to_ascii_lowercase author)
  else if starts_with author "npub1" then lift (ok_or (PublicKey_parse author) (Usage ("invalid npub: " +:+ author)))
  else
    let! raw := query c (VObject [("kinds", nums [0%N]); ("search", VString author); ("limit", json_u64 100)]) in
    match match_profiles_by_name (parse_events raw) author with
    | [] => fail (Usage ("no user found with name '" +:+ author +:+ "' — pass a hex pubkey or npub instead"))
    | [x] => ret x.1
    | matches => fail (Usage ("name '" +:+ author +:+ "' is ambiguous — matches: " +:+ candidates matches +:+ ". Pass a pubkey instead"))
    end.

Definition search_filter (q author_hex : option string) (since : option Z) (limit : option N) : Value :=
  opt_field "since" since json_i64
    (opt_field "authors" author_hex (fun pk => strs [pk])
      (opt_field "search" q VString
        (VObject [("kinds", nums [9; 40002; 45001; 45003]%N); ("limit", json_u64 (N.min (default 20%N limit) 100))]))).

Definition cmd_search (c : BuzzClient) (q author : option string) (since : option Z) (limit : option N) (format : OutputFormat) : M string :=
  if is_none q && is_none author then fail (Usage "at least one of --query or --author is required")
  else
    let! author_hex := match author with Some a => let! h := resolve_author c a in ret (Some h) | None => ret None end in
    let! resp := query c (search_filter q author_hex since limit) in
    let events := parse_events resp in
    ret (show_events (if is_none q then newest_first events else events) format).

(** ** The sub-commands *)

Inductive MessagesCmd :=
| Send (p : SendMessageParams)
| SendDiff (p : SendDiffParams)
| Edit (event content : string)
| Delete (event : string) (options : DeleteMessageOptions)
| Get (channel : string) (limit : option N) (before since : option Z) (kinds : option string)
| ThreadCmd (channel event : string) (limit depth_limit : option N)
| SearchCmd (q author : option string) (since : option Z) (limit : option N)
| Vote (event direction : string).

Definition dispatch (cmd : MessagesCmd) (c : BuzzClient) (format : OutputFormat) : M string :=
  match cmd with
  | Send p => cmd_send_message c p
  | SendDiff p => cmd_send_diff_message c p
  | Edit event content => cmd_edit_message c event content
  | Delete event options => cmd_delete_message c event options
  | Get channel limit before since kinds => cmd_get_messages c channel limit before since kinds format
  | ThreadCmd channel event limit depth_limit => cmd_get_thread c channel event limit depth_limit format
  | SearchCmd q author since limit => cmd_search c q author since limit format
  | Vote event direction => cmd_vote_on_post c event direction
  end.
End messages.
