(* ===== verification/CliMessagesTheory.v ===== *)
(** * Message commands: threads, truncation, best effort

    What the message commands of [CliMessages.v] promise: a reply lands in the
    thread of the message it answers, as the agent bridge reads threads; a diff
    is cut to what its builder accepts; looking up mentions does not block a
    message. *)

From S2P Require Import Prelude Text Nostr Demo Kinds OwnerAttestation GitPerms Sdk SdkTheory EventQueue Prompt PromptTheory Json Mentions Cli CliTheory CliMessages.

(** ** Truncation *)

Lemma last_boundary_spec s i limit acc :
  last_boundary i limit acc s = acc \/
  exists pre c post, s = pre +:+ String c post /\ char_start c = true /\
    last_boundary i limit acc s = i + String.length pre /\ i + String.length pre <= limit.
Proof.
  revert i acc. induction s as [|c s IH]; intros i acc; cbn [last_boundary]; [by left|].
  destruct (Nat.ltb_spec limit i) as [|Hi]; [by left|].
  destruct (IH (S i) (if char_start c then i else acc)) as [E|(pre & d & post & -> & Hd & E & Hle)].
  - rewrite E. destruct (char_start c) eqn:Ec; [|by left]. right. exists EmptyString, c, s. cbn. split_and!; [done..|lia|lia].
  - right. exists (String c pre), d, post. rewrite E. cbn [String.length]. split_and!; [done..|lia|lia].
Qed.

Lemma rfind_spec needle s i : rfind needle s = Some i -> exists pre post, s = pre +:+ needle +:+ post /\ String.length pre = i.
Proof.
  assert (forall t, starts_with t needle = true -> exists post, t = needle +:+ post) as Hpre.
  { intros t. unfold starts_with. revert t. induction needle as [|c n IH]; intros t; [by exists t|]. destruct t as [|d t]; [done|]. cbn.
    destruct (ascii_dec c d) as [->|]; [|done]. intros (post & ->)%IH. by exists post. }
  revert i. induction s as [|c s IH]; intros i; cbn [rfind].
  - destruct (starts_with EmptyString needle) eqn:E; [|done]. intros [= <-]. apply Hpre in E as (post & E). exists EmptyString, post. done.
  - destruct (rfind needle s) as [j|].
    + intros [= <-]. destruct (IH j eq_refl) as (pre & post & -> & <-). exists (String c pre), post. done.
    + destruct (starts_with (String c s) needle) eqn:E; [|done]. intros [= <-]. apply Hpre in E as (post & E). exists EmptyString, post. done.
Qed.

(** Where the text is cut: at a byte of the text where a character begins. *)
Definition cut_at (diff prefix : string) : Prop :=
  exists rest, diff = prefix +:+ rest /\ (prefix = EmptyString \/ exists c r, rest = String c r /\ char_start c = true).

Lemma substring_cut n s pre rest : s = pre +:+ rest -> String.length pre = n -> String.substring 0 n s = pre.
Proof. intros -> <-. apply substring_app_l. Qed.

Lemma truncate_diff_spec diff max :
  String.length TRUNCATION_NOTICE <= max -> max < String.length diff ->
  exists prefix, truncate_diff diff max = (prefix +:+ TRUNCATION_NOTICE, true) /\ cut_at diff prefix /\
    String.length prefix + String.length TRUNCATION_NOTICE <= max.
Proof.
  intros Hmax Hlong. unfold truncate_diff. destruct (Nat.leb_spec (String.length diff) max); [lia|].
  set (lim := max - String.length TRUNCATION_NOTICE). set (b := last_boundary 0 lim 0 diff).
  assert (exists pre rest, diff = pre +:+ rest /\ String.length pre = b /\ b <= lim /\
            (pre = EmptyString \/ exists c r, rest = String c r /\ char_start c = true)) as (pre & rest & Hd & Hb & Hle & Hc).
  { unfold b. destruct (last_boundary_spec diff 0 lim 0) as [->|(pre & c & post & -> & Hc & -> & Hle)].
    - exists EmptyString, diff. split_and!; [done..|lia|by left].
    - exists pre, (String c post). split_and!; [done..|lia|right; eauto]. }
  assert (exists prefix, String.substring 0 (match rfind hunk (String.substring 0 b diff) with Some (S p) => S p | _ => default b (rfind nl (String.substring 0 b diff)) end) diff = prefix /\
            cut_at diff prefix /\ String.length prefix <= lim) as (prefix & -> & Hcut & Hlp).
  2:{ exists prefix. split_and!; [done..|]. unfold lim in Hlp. lia. }
  rewrite (substring_cut b diff pre rest Hd Hb).
  assert (forall needle i c t, needle = String c t -> char_start c = true -> rfind needle pre = Some i ->
            exists prefix, String.substring 0 i diff = prefix /\ cut_at diff prefix /\ String.length prefix <= lim) as Hfind.
  { intros needle i c t -> Hst Hr. destruct (rfind_spec _ _ _ Hr) as (p1 & p2 & Hp & Hi). exists p1.
    assert (diff = p1 +:+ (String c t +:+ (p2 +:+ rest))) as Hd2 by (by rewrite Hd, Hp, !str_app_assoc).
    split_and!; [by eapply substring_cut|..].
    - exists (String c t +:+ (p2 +:+ rest)). split; [done|]. right. rewrite str_app_cons. eauto.
    - apply (f_equal String.length) in Hp. rewrite length_str_app in Hp. lia. }
  assert (forall i, rfind nl pre = Some i -> exists prefix, String.substring 0 i diff = prefix /\ cut_at diff prefix /\ String.length prefix <= lim) as Hnl
    by (intros i; by apply (Hfind nl i Lines.newline EmptyString)).
  assert (exists prefix, String.substring 0 b diff = prefix /\ cut_at diff prefix /\ String.length prefix <= lim) as Hwhole.
  { exists pre. split_and!; [by eapply substring_cut|by exists rest|lia]. }
  destruct (rfind hunk pre) as [[|p]|] eqn:Eh; [|by apply (Hfind hunk (S p) Lines.newline "@@")|]; destruct (rfind nl pre) as [j|] eqn:En; cbn [default from_option id]; eauto.
Qed.

(** ** Threads *)

(** Tags as the relay sends them. *)
Definition tags_value (tags : list Tag) : Value := VArray ((fun t : Tag => VArray (VString <$> t)) <$> tags).

(** The ids of the thread markers are 64 hex digits. *)
Definition marker_ok (t : Tag) : Prop :=
  match t with name :: id :: _ :: m :: _ => name = "e" -> (m = "root" \/ m = "reply") -> hex64 id = true | _ => True end.

Lemma root_step_reads root reply ms t :
  marker_ok t ->
  root_step (root, reply) (VArray (VString <$> t)) = (thread_step (root, reply, ms) t).1.
Proof.
  intros Hok. unfold root_step. cbn [as_array]. destruct t as [|name [|id [|x [|m rest]]]]; cbn [fmap list_fmap thread_step as_str]; try done.
  - by destruct (String.eqb name "e"), (String.eqb name "p").
  - by destruct (String.eqb name "e"), (String.eqb name "p").
  - by destruct (String.eqb name "e"), (String.eqb name "p").
  - cbn in Hok. destruct (String.eqb_spec name "e") as [->|Hne].
    + rewrite bool_decide_true by done. destruct (String.eqb_spec m "root") as [->|].
      * rewrite Hok by auto. done.
      * destruct (String.eqb_spec m "reply") as [->|]; [rewrite Hok by auto; done|]. by destruct (hex64 id).
    + rewrite bool_decide_false by congruence. by destruct (String.eqb name "p").
Qed.

(** The command line and the agent bridge agree on the root of a thread. *)
Lemma find_root_reads e :
  Forall marker_ok (ev_tags e) -> find_root_from_tags (tags_value (ev_tags e)) = tt_root (parse_thread_tags e).
Proof.
  intros Hok. unfold find_root_from_tags, parse_thread_tags. cbn [as_array tags_value].
  assert (forall tags root reply ms, Forall marker_ok tags ->
    foldl root_step (root, reply) ((fun t : Tag => VArray (VString <$> t)) <$> tags) = (foldl thread_step (root, reply, ms) tags).1) as H.
  { intros tags. induction tags as [|t tags IH]; intros root reply ms; [done|]. intros [Ht Hs]%Forall_cons. rewrite fmap_cons. cbn [foldl].
    rewrite (root_step_reads _ _ ms t Ht). destruct (thread_step (root, reply, ms) t) as [[r1 r2] m1] eqn:E. by apply IH. }
  rewrite (H _ None None []) by done. destruct (foldl thread_step (None, None, []) (ev_tags e)) as [[[r|] [p|]] ms]; done.
Qed.

Lemma lower_sha_hex s : is_lower_hex_sha256 s = true -> hex64 s = true /\ to_ascii_lowercase s = s.
Proof.
  unfold is_lower_hex_sha256, hex64. intros [-> Hs]%andb_true_iff. cbn [andb]. unfold all_hex.
  induction s as [|c s IH]; [done|]. cbn in Hs |- *. apply andb_true_iff in Hs as [Hc Hs]. destruct (IH Hs) as [-> ->].
  rewrite andb_true_r. revert Hc. by destruct c as [[] [] [] [] [] [] [] []].
Qed.

(** The ids of the thread markers are event ids in lower case. *)
Definition marker_lower (t : Tag) : Prop :=
  match t with name :: id :: _ :: m :: _ => name = "e" -> (m = "root" \/ m = "reply") -> is_lower_hex_sha256 id = true | _ => True end.

Lemma marker_lower_ok t : marker_lower t -> marker_ok t.
Proof. destruct t as [|name [|id [|x [|m rest]]]]; try done. cbn. intros H He Hm. by apply lower_sha_hex, H. Qed.

Lemma thread_root_lower e r :
  Forall marker_lower (ev_tags e) -> tt_root (parse_thread_tags e) = Some r -> is_lower_hex_sha256 r = true.
Proof.
  intros Hok. unfold parse_thread_tags.
  assert (forall tags root reply ms, Forall marker_lower tags ->
    (forall x, root = Some x \/ reply = Some x -> is_lower_hex_sha256 x = true) ->
    forall x, (foldl thread_step (root, reply, ms) tags).1.1 = Some x \/ (foldl thread_step (root, reply, ms) tags).1.2 = Some x -> is_lower_hex_sha256 x = true) as H.
  { intros tags. induction tags as [|t tags IH]; intros root reply ms Ht Hacc; [done|]. apply Forall_cons in Ht as [Ht Hs]. cbn [foldl].
    destruct (thread_step (root, reply, ms) t) as [[r1 r2] m1] eqn:E. apply IH; [done|]. intros x Hx.
    destruct t as [|name [|id [|y [|m rest]]]]; cbn [thread_step] in E; cbn in Ht.
    1: injection E as <- <- _; by apply Hacc.
    1-3: destruct (String.eqb name "e"); [|destruct (String.eqb name "p")]; injection E as <- <- _; by apply Hacc.
    destruct (String.eqb_spec name "e") as [->|]; [|destruct (String.eqb name "p"); injection E as <- <- _; by apply Hacc].
    destruct (String.eqb_spec m "root") as [->|]; [|destruct (String.eqb_spec m "reply") as [->|]]; injection E as <- <- _; [..|by apply Hacc].
    - destruct Hx as [[= <-]|Hx]; [auto|]. apply Hacc. auto.
    - destruct Hx as [Hx|[= <-]]; [|auto]. apply Hacc. auto. }
  specialize (H (ev_tags e) None None [] Hok ltac:(naive_solver)). destruct (foldl thread_step (None, None, []) (ev_tags e)) as [[[a|] [b|]] ms]; cbn in *; intros [= <-]; auto.
Qed.

Section replies.
Context `{NL : NostrLib, SK : SdkLib, SKL : !SdkLaws NL SK, JL : JsonLib, ML : MentionLib, CL : CliLib}.

(** [EventId::parse] reads 64 hex digits. *)
Class EventIdLaws := { parse_hex : forall s, hex64 s = true -> EventId_parse s = Ok (to_ascii_lowercase s) }.
Context `{EIL : !EventIdLaws}.

(** What the relay answers to the query for this event is this event. *)
Definition parent_served (c : BuzzClient) (parent : Event) : Prop :=
  forall w text w', query c (VObject [("ids", strs [ev_id parent]); ("limit", json_u64 1)]) w = (Ok text, w') ->
  exists v rest, from_str text = Some (VArray (v :: rest)) /\ field "tags" v = Some (tags_value (ev_tags parent)).

(** The thread a reply to an event belongs to. *)
Definition thread_of (parent : Event) : ThreadRef := mkThread (default (ev_id parent) (tt_root (parse_thread_tags parent))) (ev_id parent).

Lemma resolve_thread_ref_spec c parent w tr w' :
  is_lower_hex_sha256 (ev_id parent) = true -> Forall marker_lower (ev_tags parent) -> parent_served c parent ->
  resolve_thread_ref c (ev_id parent) w = (Ok tr, w') -> tr = thread_of parent.
Proof.
  intros Hid Hm Hserved (peid & w1 & [Hp ->]%lift_ok & H)%bind_ok. destruct (lower_sha_hex _ Hid) as [Hhex Hlow].
  unfold parse_event_id in Hp. rewrite parse_hex, Hlow in Hp by done. injection Hp as <-.
  apply bind_ok in H as (text & w2 & Hq & H). destruct (Hserved _ _ _ Hq) as (v & rest & Ht & Hf).
  apply bind_ok in H as (evs & w3 & [He ->]%lift_ok & H). unfold parse_response in He. rewrite Ht in He. injection He as <-.
  apply bind_ok in H as (ev & w4 & [He ->]%lift_ok & H). cbn in He. injection He as <-. rewrite Hf in H. cbn [default from_option id] in H.
  rewrite find_root_reads in H by (eapply Forall_impl; [exact Hm|apply marker_lower_ok]).
  apply bind_ok in H as (root & w5 & Hr & H). injection H as <- _. unfold thread_of.
  destruct (tt_root (parse_thread_tags parent)) as [r|] eqn:Er; cbn [default from_option id]; [|by injection Hr as <- _].
  destruct (String.eqb_spec r (ev_id parent)) as [->|_]; [by injection Hr as <- _|].
  apply lift_ok in Hr as [Hr _]. unfold parse_event_id in Hr. destruct (lower_sha_hex r (thread_root_lower _ _ Hm Er)) as [Hh Hl].
  rewrite parse_hex, Hl in Hr by done. by injection Hr as <-.
Qed.

Lemma upload_all_neutral c files media content w ms out w' :
  upload_all c files media content w = (Ok (ms, out), w') -> Forall (fun t => t <> [] /\ neutral t) media ->
  Forall (fun t => t <> [] /\ neutral t) ms.
Proof.
  revert media content w. induction files as [|f files IH]; intros media content w; cbn [upload_all].
  - by intros [= <- <- <-].
  - destruct (upload_file c f w) as [[d|e] w1]; [|done]. intros H Hm. eapply IH; [exact H|]. apply Forall_app. split; [done|].
    constructor; [|constructor]. unfold build_imeta_tag. split; [done|]. by split.
Qed.

(** A reply stays in its thread.  When the message [--reply-to] names has
    well-formed thread markers and the relay answers with it, the message or
    comment the command builds is read by the agent bridge as a reply to exactly
    that message, in the thread whose root the bridge reads from that message,
    or which that message starts; attached files do not disturb this.  So the
    anchor a prompt gives an agent leads its answer back into the thread of the
    prompt. *)
Theorem reply_joins_thread c p parent b w w' ev :
  prepare_message c p w = (Ok b, w') -> sm_reply_to p = Some (ev_id parent) -> sm_kind p <> Some 45001%N ->
  is_lower_hex_sha256 (ev_id parent) = true -> Forall marker_lower (ev_tags parent) -> parent_served c parent ->
  ev_tags ev = b_tags b ->
  let read := parse_thread_tags ev in
  tt_root read = Some (default (ev_id parent) (tt_root (parse_thread_tags parent))) /\
  tt_parent read = Some (ev_id parent) /\ NoDup (mentioned_pubkeys read) /\
  b_kind b = default 9%N (sm_kind p).
Proof.
  intros H Hreply Hk Hid Hm Hserved Hev read. unfold prepare_message in H. rewrite Hreply in H.
  apply bind_ok in H as (content & w1 & _ & H). apply bind_ok in H as (u1 & w2 & _ & H). apply bind_ok in H as (u2 & w3 & _ & H).
  apply bind_ok in H as (ch & w4 & _ & H). apply bind_ok in H as ([media mc] & w5 & Hup & H).
  apply upload_all_neutral in Hup; [|constructor]. set (final := if String.eqb mc EmptyString then _ else _) in H.
  apply bind_ok in H as (tr & w6 & Htr & H). cbn [resolve_reply] in Htr. apply bind_ok in Htr as (t & w7 & Ht & Htr). injection Htr as <- _.
  apply resolve_thread_ref_spec in Ht as ->; [|done..]. apply bind_ok in H as (ms & w8 & _ & H).
  assert (((exists br, build_message ch final (Some (thread_of parent)) ms br media = Ok b) \/
          (exists ref, Some (thread_of parent) = Some ref /\ build_forum_comment ch final ref ms media = Ok b)) /\ b_kind b = default 9%N (sm_kind p)) as [Hb Hkind].
  { unfold build_kind in H. destruct (sm_kind p) as [k|].
    - destruct (N.eqb_spec k 45001) as [E1|_]; [congruence|]. destruct (N.eqb_spec k 45003) as [E3|_].
      + apply bind_ok in H as (tr & w9 & [Htr ->]%lift_ok & H). injection Htr as <-. unfold build_failed in H. apply lift_ok in H as [H _].
        destruct (build_forum_comment _ _ _ _ _) as [b'|] eqn:E; [|done]. injection H as ->. split; [right; eauto|].
        unfold build_forum_comment, event in E. ok_facts. injection E as <-. by subst.
      + destruct (N.eqb_spec k 9) as [E9|_]; [|done]. unfold build_failed in H. apply lift_ok in H as [H _].
        destruct (build_message _ _ _ _ _ _) as [b'|] eqn:E; [|done]. injection H as ->. split; [left; eauto|].
        unfold build_message, event in E. ok_facts. injection E as <-. by subst.
    - unfold build_failed in H. apply lift_ok in H as [H _]. destruct (build_message _ _ _ _ _ _) as [b'|] eqn:E; [|done]. injection H as ->.
      split; [left; eauto|]. unfold build_message, event in E. ok_facts. by injection E as <-. }
  destruct (built_message_reads _ _ _ _ _ _ Hb Hup ev Hev) as (Hparse & Hnd & _). fold read in Hparse, Hnd. split_and!; [by rewrite Hparse..|done|done].
Qed.
End replies.

(** ** Best effort *)

Section best_effort.
Context `{NL : NostrLib, SK : SdkLib, SKL : !SdkLaws NL SK, JL : JsonLib, ML : MentionLib, CL : CliLib}.

Lemma push_total tags p ps : Sdk.push tags (p :: ps) = Ok (tags ++ [p :: ps]).
Proof. unfold Sdk.push, tag. by rewrite tag_parse_spec. Qed.

Lemma mention_loop_total ms seen tags : exists t, mention_loop ms seen tags = Ok t.
Proof.
  revert seen tags. induction ms as [|m ms IH]; intros seen tags; cbn [mention_loop]; [eauto|].
  case_bool_decide; [apply IH|]. rewrite push_total. apply IH.
Qed.

Lemma build_plain c content ms broadcast :
  (len content <= kib 64)%N -> length ms <= MENTION_CAP ->
  exists b, build_message c content None ms broadcast [] = Ok b /\ b_content b = content /\ b_kind b = 9%N /\
    forall k, ["p"; k] ∈ b_tags b <-> k ∈ to_ascii_lowercase <$> ms.
Proof.
  intros Hlen Hms. unfold build_message, check_content, h_tag, mention_tags. destruct (N.ltb_spec (kib 64) (len content)); [lia|].
  rewrite push_total. cbn [thread_tags_opt app]. destruct (Nat.ltb_spec MENTION_CAP (length ms)); [lia|].
  destruct (mention_loop_total ms ∅ [["h"; Uuid_to_string c]]) as (t & Et). rewrite Et.
  apply mention_loop_fresh in Et as (new & -> & (Hsome & _ & Hk) & Hp). 
  match goal with |- context [push_if ?t0 broadcast ?x] =>
    assert (exists extra, push_if t0 broadcast x = Ok (["h"; Uuid_to_string c] :: new ++ extra) /\ Forall (fun t : Tag => head t <> Some "p") extra) as (extra & Ee & Hx) end.
  { unfold push_if. destruct broadcast; [rewrite push_total; by exists [["broadcast"; "1"]]; split; [|repeat constructor]|exists []; by rewrite app_nil_r]. }
  rewrite Ee. clear Ee. cbn [imeta_tags]. eexists. split; [reflexivity|]. cbn [b_content b_kind b_tags]. split_and!; [done..|].
  intros k. rewrite elem_of_cons, elem_of_app. transitivity (["p"; k] ∈ new).
  - split; [|auto]. intros [?|[?|Hin]]; [done|done|]. rewrite Forall_forall in Hx. by apply Hx in Hin.
  - transitivity (k ∈ omap (fun t : Tag => t !! 1) new).
    + rewrite list_elem_of_omap. split; [intros Hin; by exists ["p"; k]|]. intros (t & Hin & Ht). rewrite Forall_forall in Hp.
      destruct (Hp t Hin) as (k' & ->). cbn in Ht. by injection Ht as ->.
    + rewrite Hk. set_solver.
Qed.

Lemma fetch_events_total c v w : exists r w', fetch_events c v w = (Ok r, w').
Proof. unfold fetch_events. destruct (query c v w) as [[raw|e] w1]; eauto. Qed.

Lemma fetch_members_total c v w : exists r w', fetch_member_pubkeys c v w = (Ok r, w').
Proof. unfold fetch_member_pubkeys, bind. destruct (fetch_events_total c v w) as (r & w1 & ->). unfold ret. eauto. Qed.

Lemma resolve_mentions_total c ch content w : exists ms w', resolve_content_mentions c ch content w = (Ok ms, w').
Proof.
  unfold resolve_content_mentions. destruct (negb _); [unfold ret; eauto|]. unfold bind, ret.
  destruct (fetch_members_total c (VObject [("kinds", nums [39002%N]); ("#d", strs [ch]); ("limit", json_u64 1)]) w) as ([[|k ks]|] & w1 & ->); [eauto| |eauto].
  destruct (fetch_events_total c (VObject [("kinds", nums [0%N]); ("authors", strs (k :: ks)); ("limit", json_u64 (N.of_nat (length (k :: ks))))]) w1) as ([ps|] & w2 & ->); eauto.
Qed.

Lemma resolve_mentions_silent c ch content w :
  (forall v w, is_ok (query c v w).1 = false) -> exists w', resolve_content_mentions c ch content w = (Ok [], w').
Proof.
  intros Hq. unfold resolve_content_mentions. destruct (negb _); [unfold ret; eauto|]. unfold fetch_member_pubkeys, fetch_events, bind, ret.
  specialize (Hq (VObject [("kinds", nums [39002%N]); ("#d", strs [ch]); ("limit", json_u64 1)]) w).
  destruct (query _ _ w) as [[raw|e] w1]; [done|]. eauto.
Qed.

(** Looking up mentions never blocks a message by failing.  A message to a
    channel, within the size limit and without files, is built whatever the
    relay answers to the lookups of members and profiles, garbage and silence
    included, and tags exactly the keys found; it is refused in the one case
    that more than fifty keys are found, which cannot happen when the relay
    does not answer. *)
Theorem send_best_effort c p uuid w :
  sm_content p <> "-" -> (len (sm_content p) <= MAX_CONTENT_BYTES)%N -> sm_files p = [] -> sm_reply_to p = None ->
  Uuid_parse (sm_channel_id p) = Some uuid -> sm_kind p = None \/ sm_kind p = Some 9%N ->
  exists ms w', message_mentions c (sm_channel_id p) (sm_content p) w = (Ok ms, w') /\
    (length ms <= MENTION_CAP -> exists b, prepare_message c p w = (Ok b, w') /\ b_content b = sm_content p /\ b_kind b = 9%N /\
       forall k, ["p"; k] ∈ b_tags b <-> k ∈ to_ascii_lowercase <$> ms) /\
    (MENTION_CAP < length ms -> prepare_message c p w = (Err (Other "build_message failed: too many mentions (max 50)"), w')) /\
    ((forall v w, is_ok (query c v w).1 = false) -> length ms <= MENTION_CAP).
Proof.
  intros Hc Hlen Hf Hr Hu Hk. destruct (resolve_mentions_total c (sm_channel_id p) (sm_content p) w) as (auto & w' & Ea).
  set (ms := merge_mentions auto (extract_nostr_uris (strip_code_regions (sm_content p))) MENTION_CAP).
  assert (message_mentions c (sm_channel_id p) (sm_content p) w = (Ok ms, w')) as Em by (unfold message_mentions, bind; by rewrite Ea).
  assert (prepare_message c p w = build_failed "build_message" (build_message uuid (sm_content p) None ms (sm_broadcast p) []) w') as Ep.
  { unfold prepare_message, bind, read_or_stdin. destruct (String.eqb_spec (sm_content p) "-"); [done|].
    unfold lift at 1, validate_content_size. destruct (N.ltb_spec MAX_CONTENT_BYTES (len (sm_content p))); [lia|].
    rewrite Hr, Hf. cbn [check_opt_hex ret]. unfold lift at 1, parse_uuid. rewrite Hu. cbn [ok_or upload_all ret resolve_reply].
    rewrite Em. cbn [String.eqb]. unfold build_kind. by destruct Hk as [->| ->]. }
  exists ms, w'. split_and!; [done|..].
  - intros Hms. destruct (build_plain uuid (sm_content p) ms (sm_broadcast p)) as (b & Eb & H); [done|done|]. exists b. rewrite Ep, Eb. done.
  - intros Hms. rewrite Ep. unfold build_message, check_content. destruct (N.ltb_spec (kib 64) (len (sm_content p))); [unfold kib, MAX_CONTENT_BYTES in *; lia|].
    unfold h_tag. rewrite push_total. cbn [thread_tags_opt]. unfold mention_tags. by destruct (Nat.ltb_spec MENTION_CAP (length ms)); [|lia].
  - intros Hq. destruct (resolve_mentions_silent c (sm_channel_id p) (sm_content p) w Hq) as (w2 & E2). rewrite Ea in E2. injection E2 as -> _.
    destruct (merge_mentions_spec [] (extract_nostr_uris (strip_code_regions (sm_content p))) MENTION_CAP) as (added & _ & Hl & _). unfold ms.
    cbn [length] in Hl. lia.
Qed.

(** ** Diffs *)

Lemma push_opt_keeps {A} tags (o : option A) f t x : push_opt tags o f = Ok t -> (forall a, exists p ps, f a = p :: ps) -> x ∈ tags -> x ∈ t.
Proof.
  unfold push_opt. destruct o as [a|]; [|by intros [= <-]]. intros H Hf Hx. destruct (Hf a) as (p & ps & E). rewrite E, push_total in H.
  injection H as <-. apply elem_of_app. by left.
Qed.

Lemma thread_tags_opt_keeps tr tags t x : thread_tags_opt tr tags = Ok t -> x ∈ tags -> x ∈ t.
Proof.
  destruct tr as [tr|]; cbn [thread_tags_opt]; [|by intros [= <-]]. unfold thread_tags. destruct (String.eqb _ _); rewrite !push_total; intros [= <-] Hx; set_solver.
Qed.

Lemma built_diff c content m tr b :
  build_diff_message c content m tr = Ok b ->
  b_content b = content /\ b_kind b = 40008%N /\ (["truncated"; "true"] ∈ b_tags b <-> truncated m = true).
Proof.
  unfold build_diff_message, event. intros H. ok_facts. injection H as <-. cbn [b_content b_kind b_tags]. split_and!; [done..|]. split.
  - intros Hin. destruct (truncated m) eqn:Et; [done|]. exfalso. set (P := fun t : Tag => t <> ["truncated"; "true"]).
    match goal with H : push_if ?t0 false _ = Ok ?t1 |- _ => assert (t1 = t0) as -> by (unfold push_if in H; congruence) end.
    assert (Forall P a14) as HP.
    { eapply thread_tags_opt_tags; [eassumption| |unfold P; discriminate].
      repeat (eapply push_opt_tags; [eassumption| |intros ?; eexists _, _; split; [reflexivity|unfold P; discriminate]]).
      eapply push_each_tags; [eassumption|constructor|]. repeat constructor; unfold P, h_tag; discriminate. }
    rewrite Forall_forall in HP. by apply (HP _ Hin).
  - intros Ht. eapply thread_tags_opt_keeps; [eassumption|]. eapply push_opt_keeps; [eassumption|by eauto|].
    unfold push_if in *. rewrite Ht in *. match goal with H : Sdk.push _ ["truncated"; "true"] = _ |- _ => apply push_ok in H as -> end. set_solver.
Qed.

(** A diff never fails for its size.  Text within the limit is sent as it
    is; longer text is cut where a character begins (at a hunk or a line if there
    is one) and marked, and the result, notice included, is within the limit
    that the event builder enforces, so that the builder's size check passes
    for any input; the event then says that it was truncated. *)
Theorem diff_fits diff :
  let '(out, cut) := truncate_diff diff (N.to_nat MAX_DIFF_BYTES) in
  check_content out (kib 60) = Ok tt /\
  (cut = false -> out = diff) /\
  (cut = true <-> N.to_nat MAX_DIFF_BYTES < String.length diff) /\
  (cut = true -> exists prefix, out = prefix +:+ TRUNCATION_NOTICE /\ cut_at diff prefix) /\
  forall c p b w w', sd_diff p = diff -> diff <> "-" -> prepare_diff c p w = (Ok b, w') ->
    b_content b = out /\ b_kind b = 40008%N /\ (["truncated"; "true"] ∈ b_tags b <-> cut = true).
Proof.
  set (max := N.to_nat MAX_DIFF_BYTES). destruct (truncate_diff diff max) as [out cut] eqn:E.
  assert (forall c p b w w', sd_diff p = diff -> diff <> "-" -> prepare_diff c p w = (Ok b, w') ->
    b_content b = out /\ b_kind b = 40008%N /\ (["truncated"; "true"] ∈ b_tags b <-> cut = true)) as Hbuilt.
  { intros c p b w w' Hp Hne H. unfold prepare_diff in H. apply bind_ok in H as (u1 & w1 & _ & H). apply bind_ok in H as (br & w2 & _ & H).
    apply bind_ok in H as (ch & w3 & _ & H). apply bind_ok in H as (d & w4 & Hd & H). unfold read_or_stdin in Hd. rewrite Hp in Hd.
    destruct (String.eqb_spec diff "-"); [done|]. injection Hd as <- <-. fold max in H. rewrite E in H. apply bind_ok in H as (tr & w5 & _ & H).
    apply lift_ok in H as [H _]. destruct (build_diff_message _ _ _ _) as [b'|] eqn:Eb; [|done]. injection H as ->. apply built_diff in Eb. exact Eb. }
  assert (String.length TRUNCATION_NOTICE <= max) as Hn by (change (String.length TRUNCATION_NOTICE) with 42; unfold max, MAX_DIFF_BYTES; lia).
  assert (forall s, String.length s <= max -> check_content s (kib 60) = Ok tt) as Hck.
  { intros s Hs. unfold check_content, len, kib. unfold max, MAX_DIFF_BYTES in Hs. destruct (N.ltb_spec (60 * 1024) (N.of_nat (String.length s))); [lia|done]. }
  destruct (le_lt_dec (String.length diff) max) as [Hle|Hlt].
  - assert (truncate_diff diff max = (diff, false)) as E2 by (unfold truncate_diff; by destruct (Nat.leb_spec (String.length diff) max); [|lia]).
    rewrite E in E2. injection E2 as -> ->. split_and!; try done; [by apply Hck|]. split; [done|lia].
  - destruct (truncate_diff_spec diff max Hn Hlt) as (prefix & E2 & Hcut & Hl). rewrite E in E2. injection E2 as -> ->.
    split_and!; try done; [apply Hck; rewrite length_str_app; lia|eauto].
Qed.
End best_effort.

(** ** A relay with one thread and a crowded channel *)
Module MessageDemo.

Definition hex_root : string := "aaaaaaaaaaaaaaaabbbbbbbbbbbbbbbb0000000000000000fffffffffffffffe".

Definition parent : Event := mkEvent demo_digest "k" 0 9 [["e"; hex_root; EmptyString; "root"]; ["e"; hex_root; EmptyString; "reply"]] "hi" "sig".

(** Fifty-one members that share one name. *)
Definition crowd : list string := u64_to_string ∘ N.of_nat <$> seq 0 51.

Definition crowd_event : Value := VObject [("tags", tags_value ((fun k => ["p"; k]) <$> crowd))].
Definition crowd_profiles : Value := VArray ((fun k => VObject [("pubkey", VString k); ("content", VString "profile")]) <$> crowd).

(** A text is the name of what it stands for. *)
#[export] Instance token_json : JsonLib := {|
  from_str s :=
    if String.eqb s "parent" then Some (VArray [VObject [("tags", tags_value (ev_tags parent))]])
    else if String.eqb s "members" then Some (VArray [crowd_event])
    else if String.eqb s "profiles" then Some crowd_profiles
    else if String.eqb s "profile" then Some (VObject [("display_name", VString "all")])
    else None;
  json_text v :=
    match v with
    | VArray [f] => if bool_decide (is_Some (field "ids" f)) then "parent" else if bool_decide (is_Some (field "#d" f)) then "members" else "profiles"
    | _ => "other"
    end;
|}.

#[export] Instance demo_mentions : MentionLib := {| from_bech32 _ := None; PublicKey_parse _ := None |}.

(** Every query is answered with the text it was asked with. *)
Definition echo (q : Request) (u : unit) : Sent * unit := (Response 200 (Ok (default EmptyString (rq_body q))), u).

#[export] Instance echo_cli : CliLib := CliDemo.cli_lib unit echo.

#[export] Instance echo_ids : EventIdLaws := {| parse_hex s _ := eq_refl |}.

Definition client : BuzzClient := mkClient "https://relay" None None.
Definition world : World := mkWorld (CL:=echo_cli) tt [] [].
Definition to_room (content : string) (reply : option string) : SendMessageParams := mkSend (sdk_uuid_text 5%N) content None reply false [].

(** Naming one person of a crowded channel is enough for a message to be
    refused. *)
Example crowded_mention_blocks :
  (prepare_message (NL:=sdk_nostr) client (to_room "hello @all" None) world).1 = Err (Other "build_message failed: too many mentions (max 50)").
Proof. by vm_compute. Qed.

(** A name inside a code span is tagged all the same; a key there is not. *)
Example code_span_name_found :
  (resolve_content_mentions (NL:=sdk_nostr) client "room" "see `x @all y`" world).1 = Ok crowd.
Proof. by vm_compute. Qed.

Lemma demo_parent_served : parent_served (NL:=sdk_nostr) client parent.
Proof.
  intros [[] s d] text w' H. exists (VObject [("tags", tags_value (ev_tags parent))]), [].
  assert (Ok text = Ok "parent") as [= ->] by (by_run H). done.
Qed.
End MessageDemo.

Import MessageDemo.

Lemma reply_joins_thread_witness :
  exists b w', prepare_message (NL:=sdk_nostr) client (to_room "agreed" (Some demo_digest)) world = (Ok b, w') /\
    tt_root (parse_thread_tags (mkEvent "x" "k" 0 9 (b_tags b) (b_content b) "sig")) = Some hex_root /\
    tt_parent (parse_thread_tags (mkEvent "x" "k" 0 9 (b_tags b) (b_content b) "sig")) = Some demo_digest.
Proof.
  destruct (prepare_message (NL:=sdk_nostr) client (to_room "agreed" (Some demo_digest)) world) as [[b|e] w'] eqn:E; [|exfalso; assert (is_ok (Err e : result CliError EventBuilder) = true) as Hok by (by_run E); discriminate Hok].
  exists b, w'. split; [reflexivity|].
  destruct (reply_joins_thread (NL:=sdk_nostr) client (to_room "agreed" (Some demo_digest)) parent b world w'
              (mkEvent "x" "k" 0 9 (b_tags b) (b_content b) "sig") E) as (H1 & H2 & _); try reflexivity.
  - discriminate.
  - repeat constructor.
  - apply demo_parent_served.
  - split; [exact H1|exact H2].
Defined.

Lemma send_best_effort_witness :
  exists ms w', message_mentions (NL:=sdk_nostr) client (sdk_uuid_text 5%N) "hello" world = (Ok ms, w') /\ length ms <= MENTION_CAP /\
    exists b, prepare_message (NL:=sdk_nostr) client (to_room "hello" None) world = (Ok b, w') /\ b_content b = "hello".
Proof.
  destruct (send_best_effort (NL:=sdk_nostr) client (to_room "hello" None) 5%N world) as (ms & w' & Em & Hb & _).
  - discriminate.
  - vm_compute. discriminate.
  - reflexivity.
  - reflexivity.
  - reflexivity.
  - left. reflexivity.
  - exists ms, w'. split; [exact Em|]. assert (Ok ms = Ok []) as [= Hms] by (by_run Em).
    assert (length ms <= MENTION_CAP) as Hl by (rewrite Hms; apply Nat.le_0_l). split; [exact Hl|].
    destruct (Hb Hl) as (b & Ep & Hc & _). exists b. split; [exact Ep|exact Hc].
Defined.

(** A short diff is sent whole. *)
Definition demo_diff : SendDiffParams :=
  mkSendDiff (sdk_uuid_text 5%N) "@@ -1 +1 @@" "https://example.com/repo" demo_digest None None None None None None None None.

Lemma diff_fits_witness :
  exists b w', prepare_diff (NL:=sdk_nostr) client demo_diff world = (Ok b, w') /\ b_content b = "@@ -1 +1 @@" /\
    check_content (b_content b) (kib 60) = Ok tt /\ b_kind b = 40008%N.
Proof.
  destruct (prepare_diff (NL:=sdk_nostr) client demo_diff world) as [[b|e] w'] eqn:E;
    [|exfalso; assert (is_ok (Err e : result CliError EventBuilder) = true) as Hok by (by_run E); discriminate Hok].
  exists b, w'. split; [reflexivity|]. pose proof (diff_fits (NL:=sdk_nostr) "@@ -1 +1 @@") as H.
  destruct (truncate_diff _ _) as [out cut]. destruct H as (Hc & Hout & Hlen & _ & Hb).
  destruct (Hb client demo_diff b world w' eq_refl ltac:(discriminate) E) as (Hbo & Hk & _). rewrite Hbo. split_and!; [|exact Hc|exact Hk].
  apply Hout. destruct cut; [|reflexivity]. exfalso. apply proj1 in Hlen. specialize (Hlen eq_refl).
  change (String.length "@@ -1 +1 @@") with 11 in Hlen. unfold MAX_DIFF_BYTES in Hlen. lia.
Defined.
