(* ===== verification/PairingQr.v ===== *)
(** * Pairing codes

    [buzz-core/src/pairing/qr.rs] and the errors of [pairing/mod.rs]: the
    [nostrpair://] URI a source device shows as a QR code and a target device
    scans.  A byte array is the string of its bytes; the [hex],
    [percent_encoding] and [url] crates are the class [QrLib]. *)

From S2P Require Import Prelude Text Nostr Demo Auth Identity.

Inductive PairingError :=
| InvalidQr (s : string)
| InvalidSessionId
| SasMismatch
| TranscriptMismatch
| UnexpectedMessage (expected got : string)
| SessionExpired
| Nip44 (e : string)
| Json (e : string)
| InvalidPubkey (s : string)
| SigningError (s : string).

(** The text of a [PairingError]. *)
Definition pairing_error_to_string (e : PairingError) : string :=
  match e with
  | InvalidQr s => "invalid QR URI: " +:+ s
  | InvalidSessionId => "invalid session ID"
  | SasMismatch => "SAS mismatch"
  | TranscriptMismatch => "transcript hash mismatch"
  | UnexpectedMessage expected got => "unexpected message type: expected " +:+ expected +:+ ", got " +:+ got
  | SessionExpired => "session expired"
  | Nip44 e => "NIP-44 error: " +:+ e
  | Json e => "JSON error: " +:+ e
  | InvalidPubkey s => "invalid pubkey: " +:+ s
  | SigningError s => "event signing failed: " +:+ s
  end.

(** A [str] holds well-formed UTF-8. *)
Definition utf8_tail (c : ascii) : bool := Lines.byte_in 128 191 c.

Fixpoint valid_utf8 (s : string) : bool :=
  match s with
  | EmptyString => true
  | String a r =>
      if Lines.byte_in 0 127 a then valid_utf8 r
      else match r with
      | EmptyString => false
      | String b r =>
          if Lines.byte_in 194 223 a then utf8_tail b && valid_utf8 r
          else match r with
          | EmptyString => false
          | String c r =>
              if Lines.byte_in 224 239 a then
                (if Lines.byte_is 224 a then Lines.byte_in 160 191 b
                 else if Lines.byte_is 237 a then Lines.byte_in 128 159 b else utf8_tail b)
                && utf8_tail c && valid_utf8 r
              else match r with
              | EmptyString => false
              | String d r =>
                  Lines.byte_in 240 244 a &&
                  (if Lines.byte_is 240 a then Lines.byte_in 144 191 b
                   else if Lines.byte_is 244 a then Lines.byte_in 128 143 b else utf8_tail b)
                  && utf8_tail c && utf8_tail d && valid_utf8 r
              end
          end
      end
  end.

(** Functions of the crates. *)
Class QrLib {UL : UrlLib} := {
  (** [hex::encode] and [hex::decode] *)
  hex_encode : string -> string;
  hex_decode : string -> result string string;
  (** [utf8_percent_encode(s, NON_ALPHANUMERIC)] and
      [percent_decode_str(s).decode_utf8_lossy()] *)
  percent_encode : string -> string;
  percent_decode_lossy : string -> string;
  (** [Url::scheme], [Url::host().is_some()] and the errors of [Url::parse]
      and [PublicKey::from_hex] *)
  url_scheme : Url -> string;
  url_has_host : Url -> bool;
  url_parse_error : string -> string;
  pubkey_error : string -> string;
}.

(** Letters and digits. *)
Definition alphanumeric (c : ascii) : bool :=
  Lines.byte_in 48 57 c || Lines.byte_in 65 90 c || Lines.byte_in 97 122 c.

(** Hex is lowercase, two characters a byte, and reads back; percent-encoding
    leaves letters, digits and percent signs, and reads back; decoding gives a
    [str]; a key is printed in lowercase hex. *)
Class QrLaws (NL : NostrLib) (UL : UrlLib) (QL : QrLib) := {
  hex_read_back : forall b, hex_decode (hex_encode b) = Ok b;
  hex_length : forall b, String.length (hex_encode b) = 2 * String.length b;
  hex_lower : forall b, str_forallb is_lower_hex_char (hex_encode b) = true;
  percent_plain : forall s, str_forallb (fun c => alphanumeric c || Ascii.eqb c "%") (percent_encode s) = true;
  percent_read_back : forall s, valid_utf8 s = true -> percent_decode_lossy (percent_encode s) = s;
  percent_utf8 : forall s, valid_utf8 (percent_decode_lossy s) = true;
  pubkey_lower : forall s pk, str_forallb is_lower_hex_char s = true -> PublicKey_from_hex s = Some pk -> to_hex pk = s;
}.

Record QrPayload := mkQr {
  source_pubkey : PublicKey;
  qr_secret : string;
  relays : list string;
  version : N;
}.

Section qr.
Context `{NL : NostrLib, UL : UrlLib, QL : !QrLib}.

Definition url_encode (s : string) : string := percent_encode s.
Definition url_decode (s : string) : string := percent_decode_lossy s.
Definition is_lowercase_hex (c : ascii) : bool := is_lower_hex_char c.

Definition encode_qr (payload : QrPayload) : string :=
  let pubkey_hex := to_hex (source_pubkey payload) in
  let secret_hex := hex_encode (qr_secret payload) in
  let uri := "nostrpair://" +:+ pubkey_hex +:+ "?secret=" +:+ secret_hex in
  foldl (fun uri relay => uri +:+ "&relay=" +:+ url_encode relay) uri (relays payload) +:+ "&v=1".

(** The variables of the parameter loop. *)
Record Params := mkParams { secret_hex : option string; param_relays : list string; param_version : option N }.

Definition parse_u32 (s : string) : option N :=
  match parse_u64 s with Some n => if (n <=? u32_max)%N then Some n else None | None => None end.

Definition parse_param (p : Params) (pair : string) : Params :=
  match split_once "=" pair with
  | Some (key, value) =>
      if String.eqb key "secret" then mkParams (Some value) (param_relays p) (param_version p)
      else if String.eqb key "relay" then mkParams (secret_hex p) (param_relays p ++ [url_decode value]) (param_version p)
      else if String.eqb key "v" then mkParams (secret_hex p) (param_relays p) (parse_u32 value)
      else p
  | None => p
  end.

Definition check_relay (relay : string) : result PairingError unit :=
  let? parsed := ok_or (Url_parse relay)
    (InvalidQr ("invalid relay URL " +:+ debug_str relay +:+ ": " +:+ url_parse_error relay)) in
  let scheme := url_scheme parsed in
  if negb (String.eqb scheme "wss" || String.eqb scheme "ws")
  then Err (InvalidQr ("relay URL must use wss:// or ws:// scheme, got " +:+ debug_str scheme))
  else if negb (url_has_host parsed) then Err (InvalidQr ("relay URL has no host: " +:+ debug_str relay))
  else Ok tt.

Definition hex64 (s : string) : bool := (String.length s =? 64)%nat && str_forallb is_lowercase_hex s.

Fixpoint zero_bytes (n : nat) : string := match n with O => EmptyString | S n => String "000" (zero_bytes n) end.

Definition decode_qr (uri : string) : result PairingError QrPayload :=
  let? _ := ensure (String.length uri <=? 2048)%nat
    (InvalidQr ("URI exceeds 2048-character limit (" +:+ u64_to_string (N.of_nat (String.length uri)) +:+ " chars)")) in
  let? rest := ok_or (strip_prefix "nostrpair://" uri) (InvalidQr "URI must start with nostrpair://") in
  let? (pubkey_hex, query) := ok_or (split_once "?" rest)
    (InvalidQr "missing query string (expected ?secret=…&relay=…)") in
  let? _ := ensure (hex64 pubkey_hex) (InvalidQr ("pubkey must be 64 lowercase hex chars, got " +:+ debug_str pubkey_hex)) in
  let? pk := ok_or (PublicKey_from_hex pubkey_hex) (InvalidQr ("invalid pubkey: " +:+ pubkey_error pubkey_hex)) in
  let p := foldl parse_param (mkParams None [] None) (split_on "&" query) in
  let version := default 1%N (param_version p) in
  let? _ := ensure (version =? 1)%N
    (InvalidQr ("unsupported protocol version " +:+ u64_to_string version +:+ ", expected 1")) in
  let? secret_str := ok_or (secret_hex p) (InvalidQr "missing 'secret' query parameter") in
  let? _ := ensure (hex64 secret_str) (InvalidQr ("secret must be 64 lowercase hex chars, got " +:+ debug_str secret_str)) in
  let? session_secret := map_err (fun e => InvalidQr ("invalid secret hex: " +:+ e)) (hex_decode secret_str) in
  let? _ := ensure (String.length session_secret =? 32)%nat (InvalidQr "secret must be exactly 32 bytes") in
  let? _ := ensure (negb (String.eqb session_secret (zero_bytes 32))) (InvalidQr "session_secret must not be all zeros") in
  let? _ := ensure (negb (bool_decide (param_relays p = []))) (InvalidQr "at least one 'relay' query parameter is required") in
  let? _ := map_res check_relay (param_relays p) in
  Ok (mkQr pk session_secret (param_relays p) version).
End qr.

(** ** The round trip *)

Section qr_laws.
Context `{NL : NostrLib, UL : UrlLib, QL : !QrLib, QLL : !QrLaws NL UL QL}.

Definition good_relay (relay : string) : Prop :=
  valid_utf8 relay = true /\
  exists u, Url_parse relay = Some u /\ (url_scheme u = "wss" \/ url_scheme u = "ws") /\ url_has_host u = true.

(** The payloads a code can carry. *)
Definition qr_wf (p : QrPayload) : Prop :=
  hex64 (to_hex (source_pubkey p)) = true /\ PublicKey_from_hex (to_hex (source_pubkey p)) = Some (source_pubkey p) /\
  String.length (qr_secret p) = 32 /\ qr_secret p <> zero_bytes 32 /\
  relays p <> [] /\ Forall good_relay (relays p) /\ version p = 1%N.

Lemma check_relay_ok relay : valid_utf8 relay = true -> check_relay relay = Ok tt <-> good_relay relay.
Proof.
  intros Hu. unfold check_relay, good_relay. destruct (Url_parse relay) as [u|]; cbn [ok_or].
  2: { split; [done|]. by intros (_ & u & [=] & _). }
  destruct (String.eqb_spec (url_scheme u) "wss") as [Hs|Hs], (String.eqb_spec (url_scheme u) "ws") as [Hw|Hw]; cbn [orb negb];
    destruct (url_has_host u) eqn:Hh; cbn [negb]; split; try done; try (intros (_ & ? & [= <-] & [?|?] & ?); congruence);
    intros _; split; try done; exists u; auto.
Qed.

Lemma check_relays_ok l :
  Forall (fun r => valid_utf8 r = true) l -> (exists us, map_res check_relay l = Ok us) <-> Forall good_relay l.
Proof.
  intros Hl. rewrite Forall_forall in Hl. rewrite map_res_checks, Forall_forall.
  split; intros H r Hr; apply (check_relay_ok r (Hl r Hr)), H, Hr.
Qed.

Lemma decode_qr_ok uri q :
  decode_qr uri = Ok q <->
  exists rest pubkey_hex query secret_str,
    String.length uri <= 2048 /\ strip_prefix "nostrpair://" uri = Some rest /\
    split_once "?" rest = Some (pubkey_hex, query) /\
    hex64 pubkey_hex = true /\ PublicKey_from_hex pubkey_hex = Some (source_pubkey q) /\
    let p := foldl parse_param (mkParams None [] None) (split_on "&" query) in
    default 1%N (param_version p) = 1%N /\ version q = 1%N /\
    secret_hex p = Some secret_str /\ hex64 secret_str = true /\ hex_decode secret_str = Ok (qr_secret q) /\
    String.length (qr_secret q) = 32 /\ qr_secret q <> zero_bytes 32 /\
    param_relays p = relays q /\ relays q <> [] /\ exists us, map_res check_relay (relays q) = Ok us.
Proof.
  split.
  - unfold decode_qr. intros H. ok_facts. injection H as <-. cbn [source_pubkey qr_secret relays version]. guard_facts.
    do 4 eexists. split_and!; eauto.
  - destruct q as [pk secret rs v]. cbn [source_pubkey qr_secret relays version].
    intros (rest & hexk & query & ss & Hlen & Hrest & Hs & Hh & Hk & Hv & -> & Hp & Hss & Hd & H32 & Hz & <- & Hne & us & Hus).
    apply Nat.leb_le in Hlen. apply String.eqb_neq in Hz. unfold decode_qr, ensure. cbv zeta in *.
    rewrite Hlen, Hrest. cbn [ok_or]. rewrite Hs. cbn [ok_or]. rewrite Hh, Hk. cbn [ok_or]. rewrite Hv, Hp. cbn [ok_or N.eqb].
    rewrite Hss, Hd. cbn [map_err]. rewrite H32, Hz, bool_decide_false by done. cbn [negb Nat.eqb]. by rewrite Hus.
Qed.

(** The query of an encoded payload, and its pieces. *)
Definition query_pieces (p : QrPayload) : list string :=
  ("secret=" +:+ hex_encode (qr_secret p)) :: ((fun r => "relay=" +:+ url_encode r) <$> relays p) ++ ["v=1"].

Lemma join_with_snoc c l x : l <> [] -> join_with c (l ++ [x]) = join_with c l +:+ String c x.
Proof.
  induction l as [|y l IH]; [done|]. intros _. destruct l as [|z l]; [done|].
  change ((y :: z :: l) ++ [x]) with (y :: (z :: l) ++ [x]).
  change (join_with c (y :: (z :: l) ++ [x])) with (y +:+ String c (join_with c ((z :: l) ++ [x]))).
  rewrite IH by done. change (join_with c (y :: z :: l)) with (y +:+ String c (join_with c (z :: l))).
  by rewrite str_app_assoc, str_app_cons.
Qed.

Lemma encode_relays pre l rs :
  l <> [] ->
  foldl (fun uri relay => uri +:+ "&relay=" +:+ url_encode relay) (pre +:+ join_with "&" l) rs =
  pre +:+ join_with "&" (l ++ ((fun r => "relay=" +:+ url_encode r) <$> rs)).
Proof.
  revert l. induction rs as [|r rs IH]; intros l Hl; cbn [foldl]; [by rewrite app_nil_r|].
  rewrite str_app_assoc. change ("&relay=" +:+ url_encode r) with (String "&" ("relay=" +:+ url_encode r)).
  rewrite <-join_with_snoc by done. rewrite IH by (by destruct l). rewrite fmap_cons. by rewrite <-app_assoc.
Qed.

Lemma encode_qr_query p :
  encode_qr p = "nostrpair://" +:+ to_hex (source_pubkey p) +:+ String "?" (join_with "&" (query_pieces p)).
Proof.
  unfold encode_qr, query_pieces. cbv zeta.
  set (pre := "nostrpair://" +:+ to_hex (source_pubkey p) +:+ "?").
  assert ("nostrpair://" +:+ to_hex (source_pubkey p) +:+ "?secret=" +:+ hex_encode (qr_secret p) =
          pre +:+ join_with "&" ["secret=" +:+ hex_encode (qr_secret p)]) as ->.
  { unfold pre. cbn [join_with]. by rewrite !str_app_assoc. }
  rewrite encode_relays by done. rewrite str_app_assoc. change "&v=1" with (String "&" "v=1").
  rewrite <-join_with_snoc by done. unfold pre. rewrite !str_app_assoc. do 2 f_equal.
Qed.

Lemma hex_char_not c d : is_lower_hex_char c = true -> is_lower_hex_char d = false -> negb (Ascii.eqb c d) = true.
Proof. intros Hc Hd. apply negb_true_iff, Ascii.eqb_neq. congruence. Qed.

Lemma hex_without s d :
  is_lower_hex_char d = false -> str_forallb is_lower_hex_char s = true -> str_forallb (fun a => negb (Ascii.eqb a d)) s = true.
Proof. intros Hd. apply str_forallb_impl. intros c Hc. by apply hex_char_not. Qed.

Lemma query_split p : split_on "&" (join_with "&" (query_pieces p)) = query_pieces p.
Proof.
  apply split_on_join; [done|]. unfold query_pieces. constructor.
  - rewrite str_forallb_app. apply andb_true_iff. split; [done|]. apply hex_without; [done|apply hex_lower].
  - apply Forall_app. split; [|by repeat constructor]. apply Forall_fmap, Forall_forall. intros r _. unfold compose.
    rewrite str_forallb_app. apply andb_true_iff. split; [done|].
    eapply str_forallb_impl; [|apply percent_plain]. intros c Hc. cbv beta in *.
    destruct (Ascii.eqb_spec c "&") as [->|]; [by vm_compute in Hc|done].
Qed.

Lemma parse_relays p rs :
  Forall (fun r => valid_utf8 r = true) rs ->
  foldl parse_param p ((fun r => "relay=" +:+ url_encode r) <$> rs) = mkParams (secret_hex p) (param_relays p ++ rs) (param_version p).
Proof.
  intros Hf. revert p. induction Hf as [|r rs Hr Hf IH]; intros p; [destruct p; cbn; by rewrite app_nil_r|].
  rewrite fmap_cons. cbn [foldl]. rewrite IH. unfold parse_param.
  change ("relay=" +:+ url_encode r) with ("relay" +:+ String "=" (url_encode r)). rewrite split_once_app by done.
  cbn [String.eqb Ascii.eqb Bool.eqb andb secret_hex param_relays param_version].
  unfold url_encode, url_decode. rewrite percent_read_back by done. by rewrite <-app_assoc.
Qed.

Lemma parse_query p :
  Forall (fun r => valid_utf8 r = true) (relays p) ->
  foldl parse_param (mkParams None [] None) (query_pieces p) = mkParams (Some (hex_encode (qr_secret p))) (relays p) (Some 1%N).
Proof.
  intros Hu. unfold query_pieces. cbn [foldl]. rewrite foldl_app, parse_relays by done.
  change ("secret=" +:+ hex_encode (qr_secret p)) with ("secret" +:+ String "=" (hex_encode (qr_secret p))).
  unfold parse_param at 2. rewrite split_once_app by done. reflexivity.
Qed.

Lemma utf8_params query : Forall (fun r => valid_utf8 r = true) (param_relays (foldl parse_param (mkParams None [] None) query)).
Proof.
  assert (forall p, Forall (fun r => valid_utf8 r = true) (param_relays p) ->
            Forall (fun r => valid_utf8 r = true) (param_relays (foldl parse_param p query))) as H; [|by apply H; constructor].
  induction query as [|x query IH]; intros p Hp; [done|]. cbn [foldl]. apply IH. unfold parse_param.
  destruct (split_once "=" x) as [[k v]|]; [|done]. repeat case_match; try done. cbn [param_relays].
  apply Forall_app. split; [done|]. constructor; [apply percent_utf8|constructor].
Qed.

Lemma decode_qr_wf uri q : decode_qr uri = Ok q -> qr_wf q /\ String.length uri <= 2048.
Proof.
  intros (rest & hexk & query & ss & Hlen & _ & _ & Hh & Hk & _ & Hv & _ & _ & _ & H32 & Hz & Hrs & Hne & Hus)%decode_qr_ok.
  split; [|done]. apply andb_true_iff in Hh as Hh'. destruct Hh' as [_ Hlow].
  pose proof (pubkey_lower _ _ Hlow Hk) as E. unfold qr_wf. rewrite E. split_and!; try done.
  apply check_relays_ok; [|done]. rewrite <-Hrs. apply utf8_params.
Qed.

Lemma encode_decode p : qr_wf p -> String.length (encode_qr p) <= 2048 -> decode_qr (encode_qr p) = Ok p.
Proof.
  intros (Hh & Hk & H32 & Hz & Hne & Hgood & Hv) Hlen.
  assert (Forall (fun r => valid_utf8 r = true) (relays p)) as Hu.
  { eapply Forall_impl; [exact Hgood|]. by intros r [? _]. }
  apply decode_qr_ok. do 4 eexists. split; [exact Hlen|]. rewrite encode_qr_query. split; [apply strip_prefix_app|].
  split.
  { apply split_once_app. apply andb_true_iff in Hh as [_ Hlow]. by apply hex_without. }
  split; [done|]. split; [done|]. cbv zeta. rewrite query_split, parse_query by done.
  cbn [secret_hex param_relays param_version default from_option id].
  assert (hex64 (hex_encode (qr_secret p)) = true) as Hs.
  { unfold hex64. rewrite hex_length, H32. apply hex_lower. }
  split_and!; try done; [apply hex_read_back|by apply check_relays_ok].
Qed.
End qr_laws.

(** ** An instance *)

Fixpoint demo_hex_encode (s : string) : string :=
  match s with
  | EmptyString => EmptyString
  | String c s => String (hex_digit (N_of_ascii c / 16)) (String (hex_digit (N_of_ascii c mod 16)) (demo_hex_encode s))
  end.

Definition demo_hex_value (c : ascii) : N := (if N_of_ascii c <? 58 then N_of_ascii c - 48 else N_of_ascii c - 87)%N.

Fixpoint demo_hex_pairs (s : string) : string :=
  match s with
  | String a (String b s) => String (ascii_of_N (16 * demo_hex_value a + demo_hex_value b)) (demo_hex_pairs s)
  | _ => EmptyString
  end.

Fixpoint demo_percent (s : string) : string :=
  match s with
  | EmptyString => EmptyString
  | String c s =>
      if alphanumeric c then String c (demo_percent s)
      else String "%" (String (hex_digit (N_of_ascii c / 16)) (String (hex_digit (N_of_ascii c mod 16)) (demo_percent s)))
  end.

Fixpoint demo_unpercent (s : string) : string :=
  match s with
  | String "%" (String a (String b s)) => String (ascii_of_N (16 * demo_hex_value a + demo_hex_value b)) (demo_unpercent s)
  | String c s => String c (demo_unpercent s)
  | EmptyString => EmptyString
  end.

#[global] Instance demo_qr : QrLib := {|
  hex_encode := demo_hex_encode;
  hex_decode s := Ok (demo_hex_pairs s);
  percent_encode := demo_percent;
  percent_decode_lossy s := if valid_utf8 (demo_unpercent s) then demo_unpercent s else EmptyString;
  url_scheme u := if String.prefix "wss://" u then "wss" else "other";
  url_has_host _ := true;
  url_parse_error _ := "relative URL without a base";
  pubkey_error _ := "malformed public key";
|}.

Lemma demo_unpercent_percent s : demo_unpercent (demo_percent s) = s.
Proof.
  induction s as [|c s IH]; [done|]. cbn [demo_percent].
  assert (alphanumeric c = true -> forall r, demo_unpercent (String c r) = String c (demo_unpercent r)) as Hplain.
  { intros Hc r. by destruct c as [[] [] [] [] [] [] [] []]; try (by vm_compute in Hc). }
  destruct (alphanumeric c); [by rewrite Hplain, IH|]. cbn [demo_unpercent]. rewrite IH. f_equal.
  by destruct c as [[] [] [] [] [] [] [] []].
Qed.

#[global] Instance demo_qr_laws : QrLaws demo_nostr demo_url demo_qr.
Proof.
  split.
  - intros b. cbn. f_equal. induction b as [|c b IH]; [done|]. cbn [demo_hex_encode demo_hex_pairs].
    rewrite IH. f_equal. by destruct c as [[] [] [] [] [] [] [] []].
  - intros b. cbn. induction b as [|c b IH]; [done|]. cbn [demo_hex_encode String.length]. rewrite IH. lia.
  - intros b. cbn. induction b as [|c b IH]; [done|]. cbn [demo_hex_encode str_forallb]. rewrite IH.
    by destruct c as [[] [] [] [] [] [] [] []].
  - intros s. cbn [percent_encode demo_qr]. induction s as [|c s IH]; [done|]. cbn [demo_percent].
    destruct (alphanumeric c) eqn:Hc; cbn [str_forallb]; rewrite IH; [by rewrite Hc|].
    by destruct c as [[] [] [] [] [] [] [] []].
  - intros s Hs. cbn. by rewrite demo_unpercent_percent, Hs.
  - intros s. cbn. by destruct (valid_utf8 (demo_unpercent s)) eqn:E.
  - intros s pk _. cbn. case_match; [done|]. by intros [= ->].
Qed.

Section claim.
Context `{NL : NostrLib, UL : UrlLib, QL : !QrLib, QLL : !QrLaws NL UL QL}.

(** Pairing codes round trip.  Scanning the code of a payload gives the
    payload back precisely when it is one a code can carry (a key in lowercase
    hex, a secret of 32 bytes that are not all zero, at least one relay, every
    relay a WebSocket URL with a host, version one) and its URI is within 2048
    characters; and whatever is scanned successfully is such a payload. *)
Theorem qr_round_trip (p : QrPayload) :
  (decode_qr (encode_qr p) = Ok p <-> qr_wf p /\ String.length (encode_qr p) <= 2048) /\
  (forall uri q, decode_qr uri = Ok q -> qr_wf q /\ String.length uri <= 2048).
Proof.
  split; [|apply decode_qr_wf]. split; [apply decode_qr_wf|]. intros [Hwf Hlen]. by apply encode_decode.
Qed.
End claim.

Definition demo_key_hex : string := "6b1f0a6b1f0a6b1f0a6b1f0a6b1f0a6b1f0a6b1f0a6b1f0a6b1f0a6b1f0a6b1f".

Fixpoint demo_bytes (n : nat) : string := match n with O => EmptyString | S n => String "k" (demo_bytes n) end.

Definition demo_qr_payload : QrPayload := mkQr demo_key_hex (demo_bytes 32) ["wss://relay.example.com/a?b=1&c=2"; "wss://other"] 1.

Lemma qr_round_trip_witness : decode_qr (encode_qr demo_qr_payload) = Ok demo_qr_payload.
Proof.
  apply (qr_round_trip demo_qr_payload). split; [|vm_compute; lia].
  unfold qr_wf. split_and!; try (vm_compute; reflexivity); try (vm_compute; discriminate).
  repeat constructor; try (vm_compute; reflexivity); eexists; (split; [vm_compute; reflexivity|]); split; try (vm_compute; reflexivity);
    left; vm_compute; reflexivity.
Defined.

(** A version that is not a 32-bit number counts as absent. *)
Example unreadable_version_accepted :
  decode_qr ("nostrpair://" +:+ demo_key_hex +:+ "?secret=" +:+ hex_encode (demo_bytes 32) +:+ "&relay=wss://x&v=4294967298")
  = Ok (mkQr demo_key_hex (demo_bytes 32) ["wss://x"] 1).
Proof. vm_compute. reflexivity. Qed.
