(* ===== verification/Pairing.v ===== *)
(** * Device pairing

    [buzz-core/src/pairing/crypto.rs], [types.rs] and [session.rs]: the
    derivations, the messages, and the state machine of one side of a pairing.
    A method on [&mut self] is a computation in the monad [M]: it ends in a
    session and a result, and an error keeps what was written before it.  The
    clocks and the random values of a call are its arguments; key exchange,
    encryption, signing, HKDF and the JSON encoder are the class
    [PairingLib]. *)

From S2P Require Import Prelude Text Nostr Kinds Auth PairingQr.

(** ** Messages *)

Inductive PayloadType := Nsec | Bunker | Connect | Custom.

Inductive AbortReason := ReasonSasMismatch | UserDenied | Timeout | ProtocolError | Unknown.

Inductive PairingMessage :=
| Offer (session_id : string) (version : N)
| SasConfirm (transcript_hash : string)
| Payload (payload_type : PayloadType) (payload : string)
| Complete (success : bool)
| Abort_ (reason : AbortReason).

(** ** Sessions *)

Inductive Role := Source | Target.

Inductive SessionState := Waiting | Confirming | AwaitingConfirmation | Transferring | PayloadExchanged | Completed | Aborted.

#[global] Instance Role_eq_dec : EqDecision Role.
Proof. solve_decision. Defined.
#[global] Instance SessionState_eq_dec : EqDecision SessionState.
Proof. solve_decision. Defined.

(** The randomness and the wall clock (seconds) of one built event. *)
Record Fresh := mkFresh { fresh_nonce : N; fresh_now : N; fresh_random : N; fresh_aux : N }.

(** Functions of the crates. *)
Class PairingLib := {
  Keys : Type;
  public_key : Keys -> PublicKey;
  (** [PublicKey::to_bytes] *)
  key_bytes : PublicKey -> string;
  (** [nostr::util::generate_shared_key(secret, public)] *)
  generate_shared_key : Keys -> PublicKey -> result string string;
  (** [nostr::util::hkdf], SHA-256 *)
  hkdf_extract : string -> string -> string;
  hkdf_expand : string -> string -> nat -> string;
  (** [nip44::encrypt], with its nonce, and [nip44::decrypt] *)
  nip44_encrypt : N -> Keys -> PublicKey -> string -> result string string;
  nip44_decrypt : Keys -> PublicKey -> string -> result string string;
  (** [EventBuilder::new(kind, content).tags(..).custom_created_at(..).sign_with_keys(keys)] *)
  sign_with_keys : N -> Keys -> N -> list Tag -> string -> N -> result string Event;
  (** [Event::verify] *)
  event_verify : Event -> result string unit;
  (** [serde_json] on [PairingMessage] *)
  message_to_string : PairingMessage -> result string string;
  message_from_str : string -> result string PairingMessage;
}.

(** ** Derivations *)

Definition INFO_SESSION_ID : string := "nostr-pair-session-id".
Definition INFO_SAS : string := "nostr-pair-sas-v1".
Definition INFO_TRANSCRIPT : string := "nostr-pair-transcript-v1".

(** [u32::from_be_bytes] of the first four bytes. *)
Definition be_u32 (b : string) : N :=
  let byte i := match String.get i b with Some c => N_of_ascii c | None => 0%N end in
  (16777216 * byte 0%nat + 65536 * byte 1%nat + 256 * byte 2%nat + byte 3%nat)%N.

Definition ct_eq (a b : string) : bool := String.eqb a b.

(** [format!("{code:06}")]. *)
Definition format_sas (code : N) : string :=
  let digits := u64_to_string code in
  Nat.iter (6 - String.length digits) (String "0") digits.

Section crypto.
Context `{PL : PairingLib}.

Definition hkdf32 (salt ikm info : string) : string :=
  let prk := hkdf_extract salt ikm in
  let okm := hkdf_expand prk info 32 in
  String.substring 0 32 okm.

Definition derive_session_id (session_secret : string) : string := hkdf32 EmptyString session_secret INFO_SESSION_ID.

Definition derive_sas (ecdh_shared session_secret : string) : N * string :=
  let sas_input := hkdf32 session_secret ecdh_shared INFO_SAS in
  let sas_code := (be_u32 sas_input mod 1000000)%N in
  (sas_code, sas_input).

Definition derive_transcript_hash (session_id source_pubkey target_pubkey sas_input session_secret : string) : string :=
  let transcript := session_id +:+ source_pubkey +:+ target_pubkey +:+ sas_input in
  hkdf32 session_secret transcript INFO_TRANSCRIPT.
End crypto.

(** The nanoseconds of a duration in seconds. *)
Definition from_secs (s : N) : N := (s * 1000000000)%N.

Definition DEFAULT_TIMEOUT : N := from_secs 120.
Definition PAIRING_KIND : N := (KIND_PAIRING mod 65536)%N.

Definition role_debug (r : Role) : string := match r with Source => "Source" | Target => "Target" end.

Definition state_debug (s : SessionState) : string :=
  match s with
  | Waiting => "Waiting" | Confirming => "Confirming" | AwaitingConfirmation => "AwaitingConfirmation"
  | Transferring => "Transferring" | PayloadExchanged => "PayloadExchanged" | Completed => "Completed" | Aborted => "Aborted"
  end.

Definition unexpected (expected : string) (got : PairingMessage) : PairingError :=
  UnexpectedMessage expected
    (match got with
     | Offer _ _ => "offer" | SasConfirm _ => "sas-confirm" | Payload _ _ => "payload" | Complete _ => "complete" | Abort_ _ => "abort"
     end).

Section session.
Context `{NL : NostrLib, UL : UrlLib, QL : !QrLib, PL : PairingLib}.

Record PairingSession := mkSession {
  role : Role;
  state : SessionState;
  keys : Keys;
  session_secret : string;
  relay_urls : list string;
  peer_pubkey : option PublicKey;
  session_id : string;
  sas_code_ : option N;
  sas_input : option string;
  processed_ids : gset EventId;
  created_at : N;
  timeout : N;
}.

Definition with_state (st : SessionState) (s : PairingSession) : PairingSession :=
  mkSession (role s) st (keys s) (session_secret s) (relay_urls s) (peer_pubkey s) (session_id s) (sas_code_ s) (sas_input s)
    (processed_ids s) (created_at s) (timeout s).

Definition with_peer (pk : PublicKey) (s : PairingSession) : PairingSession :=
  mkSession (role s) (state s) (keys s) (session_secret s) (relay_urls s) (Some pk) (session_id s) (sas_code_ s) (sas_input s)
    (processed_ids s) (created_at s) (timeout s).

Definition with_sas (code : N) (input : string) (s : PairingSession) : PairingSession :=
  mkSession (role s) (state s) (keys s) (session_secret s) (relay_urls s) (peer_pubkey s) (session_id s) (Some code) (Some input)
    (processed_ids s) (created_at s) (timeout s).

Definition record_event (e : Event) (s : PairingSession) : PairingSession :=
  mkSession (role s) (state s) (keys s) (session_secret s) (relay_urls s) (peer_pubkey s) (session_id s) (sas_code_ s) (sas_input s)
    ({[ev_id e]} ∪ processed_ids s) (created_at s) (timeout s).

(** *** The monad of a method *)

Definition M (A : Type) : Type := PairingSession -> PairingSession * result PairingError A.

Definition ret {A} (a : A) : M A := fun s => (s, Ok a).
Definition fail {A} (e : PairingError) : M A := fun s => (s, Err e).
Definition bind {A B} (m : M A) (k : A -> M B) : M B :=
  fun s => let (s', r) := m s in match r with Ok a => k a s' | Err e => (s', Err e) end.
(** A check that reads the session. *)
Definition asks {A} (f : PairingSession -> result PairingError A) : M A := fun s => (s, f s).
(** An assignment. *)
Definition modify (f : PairingSession -> PairingSession) : M unit := fun s => (f s, Ok tt).
End session.

Notation "'let!' x ':=' m 'in' k" := (bind m (fun x => k)) (at level 10, x pattern, m at level 200, k at level 200) : result_scope.
Notation "m ';;' k" := (bind m (fun _ => k)) (at level 100, k at level 200, right associativity) : result_scope.

Section operations.
Context `{NL : NostrLib, UL : UrlLib, QL : !QrLib, PL : PairingLib}.

(** *** Checks *)

(** [self.created_at.elapsed() > self.timeout], [now] the reading of the
    monotonic clock in nanoseconds. *)
Definition is_expired (now : N) (s : PairingSession) : bool := (timeout s <? u64_saturating_sub now (created_at s))%N.

Definition check_expired (now : N) (s : PairingSession) : result PairingError unit :=
  if is_expired now s then Err SessionExpired else Ok tt.

Definition expect_state (expected : SessionState) (s : PairingSession) : result PairingError unit :=
  if negb (bool_decide (state s = expected))
  then Err (UnexpectedMessage ("state " +:+ state_debug expected) ("state " +:+ state_debug (state s)))
  else Ok tt.

Definition expect_role (expected : Role) (s : PairingSession) : result PairingError unit :=
  if negb (bool_decide (role s = expected))
  then Err (UnexpectedMessage ("role " +:+ role_debug expected) ("role " +:+ role_debug (role s)))
  else Ok tt.

Definition has_p_tag (our_pk : PublicKey) (tags : list Tag) : bool :=
  existsb (fun t => bool_decide (t !! 0 = Some "p") &&
                    match t !! 1 with Some v => String.eqb v (to_hex our_pk) | None => false end) tags.

Definition validate_event_basics (event : Event) (s : PairingSession) : result PairingError unit :=
  let? _ := map_err (fun e => InvalidPubkey ("event verification failed: " +:+ e)) (event_verify event) in
  if bool_decide (ev_id event ∈ processed_ids s) then Err (UnexpectedMessage "new event" "duplicate event id")
  else if negb (ev_kind event =? PAIRING_KIND)%N
  then Err (UnexpectedMessage ("kind " +:+ u64_to_string PAIRING_KIND) ("kind " +:+ u64_to_string (ev_kind event)))
  else if negb (has_p_tag (public_key (keys s)) (ev_tags event))
  then Err (InvalidPubkey "event p-tag does not match our ephemeral pubkey")
  else Ok tt.

Definition validate_event_from_peer (event : Event) (s : PairingSession) : result PairingError unit :=
  let? _ := validate_event_basics event s in
  match peer_pubkey s with
  | Some expected =>
      if negb (String.eqb (ev_pubkey event) expected)
      then Err (InvalidPubkey ("event from " +:+ to_hex (ev_pubkey event) +:+ " but expected " +:+ to_hex expected))
      else Ok tt
  | None => Ok tt
  end.

(** *** Encrypted messages *)

Definition build_event (fresh : Fresh) (message : PairingMessage) (s : PairingSession) : result PairingError Event :=
  let? peer := ok_or (peer_pubkey s) (InvalidPubkey "no peer pubkey set") in
  let? plaintext := map_err Json (message_to_string message) in
  let? encrypted := map_err Nip44 (nip44_encrypt (fresh_nonce fresh) (keys s) peer plaintext) in
  let jitter := (fresh_random fresh mod 31)%N in
  let ts := u64_saturating_sub (fresh_now fresh) jitter in
  map_err SigningError (sign_with_keys (fresh_aux fresh) (keys s) PAIRING_KIND [["p"; to_hex peer]] encrypted ts).

Definition decrypt_message (event : Event) (s : PairingSession) : result PairingError PairingMessage :=
  let content_len := String.length (ev_content event) in
  if negb ((132 <=? N.of_nat content_len)%N && (N.of_nat content_len <=? 87472)%N)
  then Err (UnexpectedMessage "NIP-44 content (132–87472 chars)" (u64_to_string (N.of_nat content_len) +:+ " chars"))
  else
    let? decrypted := map_err Nip44 (nip44_decrypt (keys s) (ev_pubkey event) (ev_content event)) in
    (* the plaintext is cleared before its length is printed *)
    if (65535 <? N.of_nat (String.length decrypted))%N
    then Err (UnexpectedMessage "plaintext ≤ 65535 bytes" (u64_to_string 0 +:+ " bytes"))
    else map_err Json (message_from_str decrypted).

(** [hex::decode(..).ok().and_then(|b| <[u8; 32]>::try_from(b).ok())]. *)
Definition decode32 (s : string) : option string :=
  match hex_decode s with Ok b => if (String.length b =? 32)%nat then Some b else None | Err _ => None end.

(** *** The source *)

Definition new_source (keys : Keys) (secret : string) (now : N) (relay_url : string) : PairingSession * QrPayload :=
  let session_id := derive_session_id secret in
  (mkSession Source Waiting keys secret [relay_url] None session_id None None ∅ now DEFAULT_TIMEOUT,
   mkQr (public_key keys) secret [relay_url] 1).

Definition handle_offer (now : N) (event : Event) : M string :=
  asks (check_expired now);; asks (expect_state Waiting);; asks (expect_role Source);; asks (validate_event_basics event);;
  let! msg := asks (decrypt_message event) in
  let! (session_id_hex, version) :=
    match msg with Offer session_id version => ret (session_id, version) | other => fail (unexpected "offer" other) end in
  if negb (version =? 1)%N then fail (UnexpectedMessage "version 1" ("version " +:+ u64_to_string version))
  else
    asks (fun s => match decode32 session_id_hex with
                   | Some id => if ct_eq id (session_id s) then Ok tt else Err InvalidSessionId
                   | None => Err InvalidSessionId
                   end);;
    let peer := ev_pubkey event in
    modify (with_peer peer);;
    let! ecdh := asks (fun s => map_err SigningError (generate_shared_key (keys s) peer)) in
    let! (code, sas_input) := asks (fun s => Ok (derive_sas ecdh (session_secret s))) in
    modify (with_sas code sas_input);; modify (with_state Confirming);; modify (record_event event);;
    ret (format_sas code).

Definition confirm_sas (now : N) (fresh : Fresh) : M Event :=
  asks (check_expired now);; asks (expect_state Confirming);; asks (expect_role Source);;
  let! input := asks (fun s => ok_or (sas_input s) SasMismatch) in
  let! peer := asks (fun s => ok_or (peer_pubkey s) (InvalidPubkey "no peer")) in
  let! transcript_hash := asks (fun s => Ok (derive_transcript_hash (session_id s) (key_bytes (public_key (keys s)))
                                               (key_bytes peer) input (session_secret s))) in
  let! event := asks (build_event fresh (SasConfirm (hex_encode transcript_hash))) in
  modify (with_state Transferring);; ret event.

Definition send_payload (now : N) (fresh : Fresh) (payload_type : PayloadType) (payload : string) : M Event :=
  asks (check_expired now);; asks (expect_state Transferring);; asks (expect_role Source);;
  let! event := asks (build_event fresh (Payload payload_type payload)) in
  modify (with_state PayloadExchanged);; ret event.

Definition handle_complete (now : N) (event : Event) : M unit :=
  asks (check_expired now);; asks (expect_state PayloadExchanged);; asks (expect_role Source);;
  asks (validate_event_from_peer event);;
  let! msg := asks (decrypt_message event) in
  match msg with
  | Complete true => modify (with_state Completed);; modify (record_event event)
  | Complete false =>
      modify (with_state Aborted);; fail (UnexpectedMessage "complete(success=true)" "complete(success=false)")
  | other => fail (unexpected "complete" other)
  end.

(** *** The target *)

Definition new_target (keys : Keys) (now : N) (fresh : Fresh) (qr : QrPayload) : result PairingError (PairingSession * Event) :=
  let session_id := derive_session_id (qr_secret qr) in
  let? ecdh := map_err SigningError (generate_shared_key keys (source_pubkey qr)) in
  let (code, sas_input) := derive_sas ecdh (qr_secret qr) in
  let session := mkSession Target Waiting keys (qr_secret qr) (relays qr) (Some (source_pubkey qr)) session_id (Some code)
                   (Some sas_input) ∅ now DEFAULT_TIMEOUT in
  let? event := build_event fresh (Offer (hex_encode session_id) 1) session in
  Ok (with_state Confirming session, event).

Definition handle_sas_confirm (now : N) (event : Event) : M string :=
  asks (check_expired now);; asks (expect_state Confirming);; asks (expect_role Target);;
  asks (validate_event_from_peer event);;
  let! msg := asks (decrypt_message event) in
  let! received_hash :=
    match msg with SasConfirm transcript_hash => ret transcript_hash | other => fail (unexpected "sas-confirm" other) end in
  let! input := asks (fun s => ok_or (sas_input s) SasMismatch) in
  let! peer := asks (fun s => ok_or (peer_pubkey s) (InvalidPubkey "no peer")) in
  let! expected_hash := asks (fun s => Ok (derive_transcript_hash (session_id s) (key_bytes peer)
                                             (key_bytes (public_key (keys s))) input (session_secret s))) in
  let matches := match decode32 received_hash with Some rb => ct_eq rb expected_hash | None => false end in
  if negb matches then modify (with_state Aborted);; fail TranscriptMismatch
  else
    modify (with_state AwaitingConfirmation);; modify (record_event event);;
    let! code := asks (fun s => ok_or (sas_code_ s) SasMismatch) in
    ret (format_sas code).

Definition confirm_target_sas (now : N) : M unit :=
  asks (check_expired now);; asks (expect_state AwaitingConfirmation);; asks (expect_role Target);;
  modify (with_state Transferring).

Definition handle_payload (now : N) (event : Event) : M (PayloadType * string) :=
  asks (check_expired now);; asks (expect_state Transferring);; asks (expect_role Target);;
  asks (validate_event_from_peer event);;
  let! msg := asks (decrypt_message event) in
  match msg with
  | Payload payload_type payload =>
      modify (with_state PayloadExchanged);; modify (record_event event);; ret (payload_type, payload)
  | other => fail (unexpected "payload" other)
  end.

Definition send_complete (now : N) (fresh : Fresh) : M Event :=
  asks (check_expired now);; asks (expect_state PayloadExchanged);; asks (expect_role Target);;
  let! event := asks (build_event fresh (Complete true)) in
  modify (with_state Completed);; ret event.

(** *** Both sides *)

Definition terminal (s : SessionState) : bool := match s with Completed | Aborted => true | _ => false end.

Definition not_terminal (s : PairingSession) : result PairingError unit :=
  if terminal (state s) then Err (UnexpectedMessage "non-terminal state" ("state " +:+ state_debug (state s))) else Ok tt.

Definition abort (fresh : Fresh) (reason : AbortReason) : M (option Event) :=
  asks not_terminal;;
  let! peer := asks (fun s => Ok (peer_pubkey s)) in
  match peer with
  | None => modify (with_state Aborted);; ret None
  | Some _ =>
      let! event := asks (build_event fresh (Abort_ reason)) in
      modify (with_state Aborted);; ret (Some event)
  end.

Definition handle_abort (event : Event) : M AbortReason :=
  asks not_terminal;;
  asks (fun s => match peer_pubkey s with
                 | None => Err (InvalidPubkey "cannot accept abort before peer is known")
                 | Some _ => Ok tt
                 end);;
  asks (validate_event_from_peer event);;
  let! msg := asks (decrypt_message event) in
  match msg with
  | Abort_ reason => modify (with_state Aborted);; modify (record_event event);; ret reason
  | other => fail (unexpected "abort" other)
  end.

Definition sas_code (s : PairingSession) : option string := format_sas <$> sas_code_ s.

Definition qr_uri (s : PairingSession) : option string :=
  if negb (bool_decide (role s = Source)) then None
  else Some (encode_qr (mkQr (public_key (keys s)) (session_secret s) (relay_urls s) 1)).
End operations.
