(* ===== verification/PairingTheory.v ===== *)
(** * Pairing: the protocol

    Every run of a session follows its script ([session_protocol]), and two
    devices that talk to each other finish it with the same short code and
    the secret delivered ([pairing_completes]). *)

From S2P Require Import Prelude Text Nostr Demo Auth Identity Kinds PairingQr Pairing.

(** ** Calls and runs *)

Inductive Call :=
| COffer (e : Event)
| CConfirm (f : Fresh)
| CSend (f : Fresh) (ty : PayloadType) (p : string)
| CComplete (e : Event)
| CSasConfirm (e : Event)
| CConfirmTarget
| CPayload (e : Event)
| CSendComplete (f : Fresh)
| CAbort (f : Fresh) (reason : AbortReason)
| CHandleAbort (e : Event).

(** The event a call takes in. *)
Definition incoming (c : Call) : option Event :=
  match c with COffer e | CComplete e | CSasConfirm e | CPayload e | CHandleAbort e => Some e | _ => None end.

(** What a call is, without its arguments. *)
Inductive Step := SOffer | SConfirm | SSend | SComplete | SSasConfirm | SConfirmTarget | SPayload | SSendComplete | SAbort.

Definition step_of (c : Call) : Step :=
  match c with
  | COffer _ => SOffer | CConfirm _ => SConfirm | CSend _ _ _ => SSend | CComplete _ => SComplete
  | CSasConfirm _ => SSasConfirm | CConfirmTarget => SConfirmTarget | CPayload _ => SPayload | CSendComplete _ => SSendComplete
  | CAbort _ _ | CHandleAbort _ => SAbort
  end.

(** The script of a role and how far a state has come in it. *)
Definition script (r : Role) : list Step :=
  match r with
  | Source => [SOffer; SConfirm; SSend; SComplete]
  | Target => [SSasConfirm; SConfirmTarget; SPayload; SSendComplete]
  end.

Definition progress (r : Role) (st : SessionState) : option nat :=
  match r, st with
  | Source, Waiting | Target, Confirming => Some 0
  | Source, Confirming | Target, AwaitingConfirmation => Some 1
  | _, Transferring => Some 2
  | _, PayloadExchanged => Some 3
  | _, Completed => Some 4
  | _, _ => None
  end.

(** The steps of a session in a given state: a prefix of the script as long as
    the state says; a session that was aborted stopped short of the end. *)
Definition stage (r : Role) (st : SessionState) (steps : list Step) : Prop :=
  if bool_decide (st = Aborted)
  then exists n, n < 4 /\ (steps = take n (script r) \/ steps = take n (script r) ++ [SAbort])
  else exists n, progress r st = Some n /\ steps = take n (script r).

Section runs.
Context `{NL : NostrLib, UL : UrlLib, QL : !QrLib, PL : PairingLib}.

Definition outcome_of {A} (p : PairingSession * result PairingError A) : PairingSession * bool := (p.1, is_ok p.2).

(** A call at a reading of the clock: the session after it, and whether it
    succeeded. *)
Definition call (now : N) (c : Call) (s : PairingSession) : PairingSession * bool :=
  match c with
  | COffer e => outcome_of (handle_offer now e s)
  | CConfirm f => outcome_of (confirm_sas now f s)
  | CSend f ty p => outcome_of (send_payload now f ty p s)
  | CComplete e => outcome_of (handle_complete now e s)
  | CSasConfirm e => outcome_of (handle_sas_confirm now e s)
  | CConfirmTarget => outcome_of (confirm_target_sas now s)
  | CPayload e => outcome_of (handle_payload now e s)
  | CSendComplete f => outcome_of (send_complete now f s)
  | CAbort f reason => outcome_of (abort f reason s)
  | CHandleAbort e => outcome_of (handle_abort e s)
  end.

(** New sessions. *)
Inductive started : PairingSession -> Prop :=
| started_source keys secret now url : started (new_source keys secret now url).1
| started_target keys now fresh qr s e : new_target keys now fresh qr = Ok (s, e) -> started s.

(** The sessions a run of calls leads to, with the calls that succeeded. *)
Inductive reach (s0 : PairingSession) : PairingSession -> list (N * Call) -> Prop :=
| reach_start : reach s0 s0 []
| reach_call s h now c s' ok : reach s0 s h -> call now c s = (s', ok) -> reach s0 s' (if ok then h ++ [(now, c)] else h).

Definition event_ids (h : list (N * Call)) : list EventId := omap (fun x => ev_id <$> incoming x.2) h.

Lemma reach_result s0 s h now c ok : reach s0 s h -> (call now c s).2 = ok -> reach s0 (call now c s).1 (if ok then h ++ [(now, c)] else h).
Proof. intros Hr <-. apply (reach_call s0 s); [done|]. apply surjective_pairing. Qed.

(** An event made by the peer for us. *)
Definition authentic (s : PairingSession) (e : Event) : Prop :=
  event_verify e = Ok tt /\ ev_kind e = PAIRING_KIND /\ has_p_tag (public_key (keys s)) (ev_tags e) = true /\
  peer_pubkey s = Some (ev_pubkey e).

(** The hash that binds the session on the target. *)
Definition target_transcript (s : PairingSession) : option string :=
  input ← sas_input s; peer ← peer_pubkey s;
  Some (derive_transcript_hash (session_id s) (key_bytes peer) (key_bytes (public_key (keys s))) input (session_secret s)).

(** What a call that takes a message accepted. *)
Definition accepted_message (s : PairingSession) (c : Call) (m : PairingMessage) : Prop :=
  match c with
  | COffer _ => exists id, m = Offer id 1 /\ decode32 id = Some (session_id s)
  | CSasConfirm _ => exists h t, m = SasConfirm h /\ decode32 h = Some t /\ target_transcript s = Some t
  | CPayload _ => exists ty p, m = Payload ty p
  | CComplete _ => m = Complete true
  | CHandleAbort _ => exists reason, m = Abort_ reason
  | _ => False
  end.

(** A call that succeeded was on time, unless it is an abort, and what it took
    in was an authentic event with the right message. *)
Definition entry_ok (s : PairingSession) (x : N * Call) : Prop :=
  (step_of x.2 <> SAbort -> is_expired x.1 s = false) /\
  forall e, incoming x.2 = Some e -> authentic s e /\ exists m, decrypt_message e s = Ok m /\ accepted_message s x.2 m.

(** The parts of a session that do not change. *)
Definition same_core (s s' : PairingSession) : Prop :=
  role s' = role s /\ keys s' = keys s /\ session_secret s' = session_secret s /\ session_id s' = session_id s /\
  created_at s' = created_at s /\ timeout s' = timeout s /\ relay_urls s' = relay_urls s.

Definition same_view (s s' : PairingSession) : Prop :=
  same_core s s' /\ peer_pubkey s' = peer_pubkey s /\ sas_input s' = sas_input s /\ sas_code_ s' = sas_code_ s.

(** What one call does. *)
Inductive effect (now : N) (c : Call) (s : PairingSession) : PairingSession -> bool -> Prop :=
| effect_none : effect now c s s false
| effect_peer pk : role s = Source -> state s = Waiting -> effect now c s (with_peer pk s) false
| effect_abort n : progress (role s) (state s) = Some n -> n < 4 -> effect now c s (with_state Aborted s) false
| effect_step n s' :
    progress (role s) (state s) = Some n -> progress (role s) (state s') = Some (S n) -> script (role s) !! n = Some (step_of c) ->
    same_core s s' -> (same_view s s' \/ state s = Waiting) ->
    entry_ok s' (now, c) ->
    (forall e, incoming c = Some e -> ev_id e ∉ processed_ids s) ->
    processed_ids s' = list_to_set (ev_id <$> option_list (incoming c)) ∪ processed_ids s ->
    effect now c s s' true
| effect_end n s' :
    step_of c = SAbort -> progress (role s) (state s) = Some n -> n < 4 -> state s' = Aborted -> same_view s s' ->
    entry_ok s' (now, c) ->
    (forall e, incoming c = Some e -> ev_id e ∉ processed_ids s) ->
    processed_ids s' = list_to_set (ev_id <$> option_list (incoming c)) ∪ processed_ids s ->
    effect now c s s' true.
End runs.

(** ** What a call does *)

Section effects.
Context `{NL : NostrLib, UL : UrlLib, QL : !QrLib, PL : PairingLib}.

Lemma asks_cases {A B} (f : PairingSession -> result PairingError A) (k : A -> M B) s s' r :
  bind (asks f) k s = (s', r) -> (s' = s /\ exists e, r = Err e) \/ exists a, f s = Ok a /\ k a s = (s', r).
Proof. unfold bind, asks. destruct (f s) as [a|e]; [right|left]; [eauto|]. naive_solver. Qed.

Lemma bind_ret {A B} (a : A) (k : A -> M B) s : bind (ret a) k s = k a s.
Proof. done. Qed.

Lemma bind_fail {A B} err (k : A -> M B) s : bind (fail err) k s = (s, Err err).
Proof. done. Qed.

Lemma bind_modify {B} f (k : unit -> M B) s : bind (modify f) k s = k tt (f s).
Proof. done. Qed.

Lemma check_expired_ok now s u : check_expired now s = Ok u -> is_expired now s = false.
Proof. unfold check_expired. by destruct (is_expired now s). Qed.

Lemma expect_state_ok st s u : expect_state st s = Ok u -> state s = st.
Proof. unfold expect_state. by case_bool_decide. Qed.

Lemma expect_role_ok r s u : expect_role r s = Ok u -> role s = r.
Proof. unfold expect_role. by case_bool_decide. Qed.

Lemma validate_basics_ok e s u :
  validate_event_basics e s = Ok u ->
  event_verify e = Ok tt /\ (ev_id e ∉ processed_ids s) /\ ev_kind e = PAIRING_KIND /\ has_p_tag (public_key (keys s)) (ev_tags e) = true.
Proof.
  unfold validate_event_basics. intros H. ok_facts. case_bool_decide; [done|].
  destruct (N.eqb_spec (ev_kind e) PAIRING_KIND); [|done]. cbn [negb] in H. destruct (has_p_tag _ _); [|done]. split_and!; try done. by destruct a.
Qed.

Lemma validate_peer_ok e s u :
  validate_event_from_peer e s = Ok u ->
  event_verify e = Ok tt /\ (ev_id e ∉ processed_ids s) /\ ev_kind e = PAIRING_KIND /\ has_p_tag (public_key (keys s)) (ev_tags e) = true /\
  (forall pk, peer_pubkey s = Some pk -> ev_pubkey e = pk).
Proof.
  unfold validate_event_from_peer. intros H. ok_facts. apply validate_basics_ok in E as (H1 & H2 & H3 & H4). split_and!; try done.
  intros pk Hpk. rewrite Hpk in H. by destruct (String.eqb_spec (ev_pubkey e) pk).
Qed.

(** Sessions a run can be in. *)
Definition coherent (s : PairingSession) : Prop :=
  (state s <> Aborted -> is_Some (progress (role s) (state s))) /\
  (role s = Target -> is_Some (sas_code_ s) /\ is_Some (peer_pubkey s)) /\
  (role s = Source -> state s <> Waiting -> state s <> Aborted -> is_Some (peer_pubkey s)).

Lemma not_terminal_ok s u : coherent s -> not_terminal s = Ok u -> exists n, progress (role s) (state s) = Some n /\ n < 4.
Proof.
  intros (Hp & _) H. unfold not_terminal in H. destruct (state s), (role s); try done; try (by eexists; split; [done|lia]);
    by destruct Hp.
Qed.

(** [ask H] runs the next check of a method: when it fails nothing happened;
    [run H] runs the rest of it. *)
Ltac run H := repeat first [rewrite bind_ret in H | rewrite bind_modify in H | rewrite bind_fail in H].
Ltac ask H := run H; apply asks_cases in H as [(-> & ? & ->)|(? & ? & H)]; [apply effect_none|].
Ltac checks :=
  repeat match goal with
  | H : check_expired _ _ = Ok _ |- _ => apply check_expired_ok in H
  | H : expect_state _ _ = Ok _ |- _ => apply expect_state_ok in H
  | H : expect_role _ _ = Ok _ |- _ => apply expect_role_ok in H
  | H : validate_event_basics _ _ = Ok _ |- _ => apply validate_basics_ok in H as (? & ? & ? & ?)
  | H : validate_event_from_peer _ _ = Ok _ |- _ => apply validate_peer_ok in H as (? & ? & ? & ? & ?)
  | H : Ok _ = Ok _ |- _ => injection H as <-
  end.
Ltac done_with H := run H; injection H as <- <-.

Lemma handle_offer_effect now e s s' r :
  handle_offer now e s = (s', r) -> effect now (COffer e) s s' (is_ok r).
Proof.
  unfold handle_offer. intros H. do 5 ask H. checks.
  match goal with H' : decrypt_message e s = Ok ?m |- _ => rename m into msg, H' into Hm end.
  destruct msg as [id v| | | |]; run H; try (injection H as <- <-; apply effect_none).
  destruct (N.eqb_spec v 1) as [->|]; cbn [negb] in H; [|done_with H; apply effect_none]. ask H.
  destruct (decode32 id) as [b|] eqn:Hid; [|done]. unfold ct_eq in *. destruct (String.eqb_spec b (session_id s)) as [->|]; [|done].
  run H. apply asks_cases in H as [(-> & ? & ->)|(k & Hk & H)]; [by apply effect_peer|].
  apply asks_cases in H as [(-> & ? & ->)|([code input] & Hsas & H)]; [by apply effect_peer|].
  done_with H. cbn [is_ok]. eapply (effect_step _ _ _ 0).
  all: try done.
  - by rewrite H2, H1.
  - cbn. by rewrite H2.
  - by rewrite H2.
  - by right.
  - split; [done|]. intros ? [= <-]. split; [done|]. exists (Offer id 1). split; [done|]. by exists id.
  - by intros ? [= <-].
  - cbn. set_solver.
Qed.

(** A step without a message moves the state on. *)
Lemma effect_plain now c s n st :
  incoming c = None -> step_of c <> SAbort -> is_expired now s = false ->
  progress (role s) (state s) = Some n -> progress (role s) st = Some (S n) -> script (role s) !! n = Some (step_of c) ->
  effect now c s (with_state st s) true.
Proof.
  intros Hin Hs Ht Hn Hn' Hscript. eapply (effect_step _ _ _ n); try done.
  - by left.
  - split; [done|]. cbn. rewrite Hin. done.
  - by rewrite Hin.
  - rewrite Hin. cbn. set_solver.
Qed.

(** A step that takes a message in records its event as well. *)
Lemma effect_message now c s n st e m :
  incoming c = Some e -> step_of c <> SAbort -> is_expired now s = false ->
  progress (role s) (state s) = Some n -> progress (role s) st = Some (S n) -> script (role s) !! n = Some (step_of c) ->
  authentic s e -> ev_id e ∉ processed_ids s -> decrypt_message e s = Ok m -> accepted_message s c m ->
  effect now c s (record_event e (with_state st s)) true.
Proof.
  intros Hin Hs Ht Hn Hn' Hscript Ha Hid Hm Hacc. eapply (effect_step _ _ _ n); try done.
  - by left.
  - split; [done|]. cbn. rewrite Hin. intros ? [= <-]. split; [done|]. by exists m.
  - rewrite Hin. by intros ? [= <-].
  - rewrite Hin. cbn. set_solver.
Qed.

Lemma confirm_sas_effect now f s s' r :
  confirm_sas now f s = (s', r) -> effect now (CConfirm f) s s' (is_ok r).
Proof.
  unfold confirm_sas. intros H. do 7 ask H. checks. done_with H.
  apply (effect_plain _ _ _ 1); try done; by rewrite ?H2, ?H1.
Qed.

Lemma send_payload_effect now f ty p s s' r :
  send_payload now f ty p s = (s', r) -> effect now (CSend f ty p) s s' (is_ok r).
Proof.
  unfold send_payload. intros H. do 4 ask H. checks. done_with H.
  apply (effect_plain _ _ _ 2); try done; by rewrite ?H2, ?H1.
Qed.

Lemma confirm_target_effect now s s' r :
  confirm_target_sas now s = (s', r) -> effect now CConfirmTarget s s' (is_ok r).
Proof.
  unfold confirm_target_sas. intros H. do 3 ask H. checks. injection H as <- <-.
  apply (effect_plain _ _ _ 1); try done; by rewrite ?H2, ?H1.
Qed.

Lemma send_complete_effect now f s s' r :
  send_complete now f s = (s', r) -> effect now (CSendComplete f) s s' (is_ok r).
Proof.
  unfold send_complete. intros H. do 4 ask H. checks. done_with H.
  apply (effect_plain _ _ _ 3); try done; by rewrite ?H2, ?H1.
Qed.

Lemma peer_known s e :
  coherent s -> state s <> Waiting -> state s <> Aborted -> (forall pk, peer_pubkey s = Some pk -> ev_pubkey e = pk) ->
  peer_pubkey s = Some (ev_pubkey e).
Proof.
  intros (_ & Ht & Hs) Hw Ha Hp. assert (is_Some (peer_pubkey s)) as [pk Hpk].
  { destruct (role s) eqn:Hr; [by apply Hs|]. by apply Ht. }
  rewrite Hpk. f_equal. symmetry. by apply Hp.
Qed.

Lemma handle_payload_effect now e s s' r :
  coherent s -> handle_payload now e s = (s', r) -> effect now (CPayload e) s s' (is_ok r).
Proof.
  unfold handle_payload. intros Hc H. do 5 ask H. checks.
  match goal with H' : decrypt_message e s = Ok ?m |- _ => destruct m as [| |ty p| |] end; run H;
    try (injection H as <- <-; apply effect_none). injection H as <- <-.
  assert (peer_pubkey s = Some (ev_pubkey e)) by (apply peer_known; congruence || done).
  eapply (effect_message _ _ _ 2); try done; try (by rewrite ?H2, ?H1). by exists ty, p.
Qed.

Lemma handle_complete_effect now e s s' r :
  coherent s -> handle_complete now e s = (s', r) -> effect now (CComplete e) s s' (is_ok r).
Proof.
  unfold handle_complete. intros Hc H. do 5 ask H. checks.
  match goal with H' : decrypt_message e s = Ok ?m |- _ => destruct m as [| | |b|] end; run H;
    try (injection H as <- <-; apply effect_none).
  assert (peer_pubkey s = Some (ev_pubkey e)) by (apply peer_known; congruence || done).
  destruct b; run H; injection H as <- <-.
  - eapply (effect_message _ _ _ 3); try done; by rewrite ?H2, ?H1.
  - apply (effect_abort _ _ _ 3); [by rewrite H2, H1|lia].
Qed.

Lemma handle_sas_confirm_effect now e s s' r :
  coherent s -> handle_sas_confirm now e s = (s', r) -> effect now (CSasConfirm e) s s' (is_ok r).
Proof.
  unfold handle_sas_confirm. intros Hc H. do 5 ask H. checks.
  match goal with H' : decrypt_message e s = Ok ?m |- _ => destruct m as [|h| | |] end; run H;
    try (injection H as <- <-; apply effect_none).
  do 3 ask H. ok_facts. checks.
  assert (peer_pubkey s = Some (ev_pubkey e)) as Hpeer by (apply peer_known; congruence || done).
  destruct (decode32 h) as [t|] eqn:Ht.
  2: { run H. injection H as <- <-. apply (effect_abort _ _ _ 0); [by rewrite H2, H1|lia]. }
  unfold ct_eq in H. match type of H with context [String.eqb t ?t'] => destruct (String.eqb_spec t t') as [->|] end; cbn [negb] in H; run H.
  2: { injection H as <- <-. apply (effect_abort _ _ _ 0); [by rewrite H2, H1|lia]. }
  destruct Hc as (_ & Hsas & _). destruct (Hsas H2) as [[code Hcode] _].
  unfold bind, asks in H. cbn [sas_code_ record_event with_state] in H. rewrite Hcode in H. cbn [ok_or] in H.
  injection H as <- <-. eapply (effect_message _ _ _ 0); try done; try (by rewrite ?H2, ?H1).
  eexists _, _. split; [done|]. split; [exact Ht|]. unfold target_transcript.
  match goal with H' : sas_input s = Some _ |- _ => rewrite H' end. rewrite Hpeer. by simplify_option_eq.
Qed.

Lemma abort_effect now f reason s s' r :
  coherent s -> abort f reason s = (s', r) -> effect now (CAbort f reason) s s' (is_ok r).
Proof.
  unfold abort. intros Hc H. do 2 ask H. checks. apply not_terminal_ok in H0 as (n & Hn & Hlt); [|done].
  assert (effect now (CAbort f reason) s (with_state Aborted s) true).
  { eapply (effect_end _ _ _ n); try done. cbn. set_solver. }
  destruct (peer_pubkey s); [ask H|]; done_with H; done.
Qed.

Lemma handle_abort_effect now e s s' r :
  coherent s -> handle_abort e s = (s', r) -> effect now (CHandleAbort e) s s' (is_ok r).
Proof.
  unfold handle_abort. intros Hc H. do 4 ask H. checks. apply not_terminal_ok in H0 as (n & Hn & Hlt); [|done].
  match goal with H' : decrypt_message e s = Ok ?m |- _ => destruct m as [| | | |reason] eqn:Hm end; run H;
    try (injection H as <- <-; apply effect_none). injection H as <- <-.
  assert (peer_pubkey s = Some (ev_pubkey e)) as Hpeer.
  { destruct (peer_pubkey s) as [pk|]; [|done]. f_equal. symmetry. auto. }
  eapply (effect_end _ _ _ n); try done.
  - split; [done|]. intros ? [= <-]. split; [done|]. eexists. split; [done|]. by exists reason.
  - by intros ? [= <-].
  - cbn. set_solver.
Qed.

Lemma call_effect now c s s' ok : coherent s -> call now c s = (s', ok) -> effect now c s s' ok.
Proof.
  intros Hc. unfold call, outcome_of.
  destruct c; match goal with |- (?p.1, _) = _ -> _ => destruct p as [s1 r] eqn:E end; intros [= <- <-];
    eauto using handle_offer_effect, confirm_sas_effect, send_payload_effect, handle_complete_effect, handle_sas_confirm_effect,
      confirm_target_effect, handle_payload_effect, send_complete_effect, abort_effect, handle_abort_effect.
Qed.

(** ** The invariant of a run *)

Definition invariant (s : PairingSession) (h : list (N * Call)) : Prop :=
  coherent s /\ stage (role s) (state s) ((fun x => step_of x.2) <$> h) /\ Forall (entry_ok s) h /\
  NoDup (event_ids h) /\ processed_ids s = list_to_set (event_ids h).

Lemma entry_ok_view s s' x : same_view s s' -> entry_ok s x -> entry_ok s' x.
Proof.
  intros ((Hr & Hk & Hsec & Hid & Hc & Ht & _) & Hp & Hi & _).
  unfold entry_ok, is_expired, authentic, decrypt_message, accepted_message, target_transcript.
  by rewrite Hk, Hsec, Hid, Hc, Ht, Hp, Hi.
Qed.

Lemma Forall_entry_view s s' h : same_view s s' -> Forall (entry_ok s) h -> Forall (entry_ok s') h.
Proof. intros Hv H. eapply Forall_impl; [exact H|]. intros x. by apply entry_ok_view. Qed.

Lemma stage_open r st h n : stage r st h -> progress r st = Some n -> h = take n (script r).
Proof.
  unfold stage. case_bool_decide as E; [subst; by destruct r|]. intros (m & Hm & ->) Hn. congruence.
Qed.

Lemma stage_step r st st' h n x :
  stage r st h -> progress r st = Some n -> progress r st' = Some (S n) -> script r !! n = Some x -> stage r st' (h ++ [x]).
Proof.
  intros Hs Hn Hn' Hx. rewrite (stage_open _ _ _ _ Hs Hn). unfold stage. rewrite bool_decide_false; [|intros ->; by destruct r].
  exists (S n). split; [done|]. by rewrite (take_S_r _ _ _ Hx).
Qed.

Lemma stage_aborted r st h n l :
  stage r st h -> progress r st = Some n -> n < 4 -> l = [] \/ l = [SAbort] -> stage r Aborted (h ++ l).
Proof.
  intros Hs Hn Hlt Hl. rewrite (stage_open _ _ _ _ Hs Hn). unfold stage. rewrite bool_decide_true by done.
  exists n. split; [done|]. destruct Hl as [-> | ->]; [left; by rewrite app_nil_r|by right].
Qed.

(** Before the offer nothing has happened. *)
Lemma waiting_fresh s h : invariant s h -> role s = Source -> state s = Waiting -> h = [].
Proof.
  intros (_ & Hst & _) Hr Hw. rewrite Hr, Hw in Hst. apply (stage_open _ _ _ 0) in Hst; [|done]. by apply fmap_nil_inv in Hst.
Qed.

Lemma event_ids_snoc h now c : event_ids (h ++ [(now, c)]) = event_ids h ++ (ev_id <$> option_list (incoming c)).
Proof. unfold event_ids. rewrite omap_app. f_equal. cbn. by destruct (incoming c). Qed.

Lemma ids_snoc s s' h now c :
  invariant s h -> (forall e, incoming c = Some e -> ev_id e ∉ processed_ids s) ->
  processed_ids s' = list_to_set (ev_id <$> option_list (incoming c)) ∪ processed_ids s ->
  NoDup (event_ids (h ++ [(now, c)])) /\ processed_ids s' = list_to_set (event_ids (h ++ [(now, c)])).
Proof.
  intros (_ & _ & _ & Hnd & Hp) Hnew ->. rewrite event_ids_snoc, Hp. destruct (incoming c) as [e|]; cbn.
  - split; [|set_solver]. apply NoDup_snoc_iff. split; [done|]. specialize (Hnew e eq_refl). rewrite Hp in Hnew.
    by rewrite elem_of_list_to_set in Hnew.
  - rewrite app_nil_r. split; [done|set_solver].
Qed.

Lemma step_coherent now c s s' n :
  coherent s -> progress (role s) (state s) = Some n -> progress (role s) (state s') = Some (S n) ->
  script (role s) !! n = Some (step_of c) -> same_core s s' -> (same_view s s' \/ state s = Waiting) -> entry_ok s' (now, c) ->
  coherent s'.
Proof.
  intros (Hp & Ht & Hs) Hn Hn' Hscript (Hr & _) Hview Hentry. unfold coherent. rewrite Hr. split_and!.
  - intros _. by rewrite Hn'.
  - intros E. destruct Hview as [(_ & -> & _ & ->)|Hw]; [by apply Ht|]. by rewrite E, Hw in Hn.
  - intros E Hw Ha. destruct (decide (state s = Waiting)) as [Hws|Hws].
    + rewrite E, Hws in *. injection Hn as <-. injection Hscript as Hc. destruct c; try done.
      destruct (proj2 Hentry e eq_refl) as [(_ & _ & _ & ->) _]. eauto.
    + destruct Hview as [(_ & -> & _)|]; [|done]. apply Hs; try done. intros Ha'. by rewrite E, Ha' in Hn.
Qed.

Lemma aborted_coherent s s' : coherent s -> same_view s s' -> state s' = Aborted -> coherent s'.
Proof.
  intros (_ & Ht & _) ((Hr & _) & Hp & _ & Hc) Ha. unfold coherent. rewrite Hr, Ha, Hp, Hc. by split_and!.
Qed.

Lemma invariant_step now c s s' ok h :
  invariant s h -> call now c s = (s', ok) -> invariant s' (if ok then h ++ [(now, c)] else h) /\ same_core s s'.
Proof.
  intros Hinv Hcall. assert (coherent s) as Hcoh by apply Hinv. apply call_effect in Hcall; [|done].
  destruct Hcall as [|pk Hr Hw|n Hn Hlt|n s' Hn Hn' Hscript Hcore Hview Hentry Hnew Hids|n s' Hab Hn Hlt Hst Hview Hentry Hnew Hids].
  - done.
  - pose proof (waiting_fresh s h Hinv Hr Hw) as ->. destruct Hinv as ((H1 & H2 & H3) & Hst & _ & Hnd & Hp). split; [|done].
    split_and!; try done. split_and!; cbn; eauto. intros E. split; [by apply H2|eauto].
  - destruct Hinv as (_ & Hst & Hf & Hnd & Hp). split; [|done]. split_and!; try done.
    + by eapply aborted_coherent.
    + rewrite <-(app_nil_r (_ <$> h)). eapply stage_aborted; eauto.
  - destruct (ids_snoc s s' h now c Hinv Hnew Hids) as [Hnd' Hp']. split; [|done].
    assert (Forall (entry_ok s') h) as Hf.
    { destruct Hview as [Hv|Hw]; [eapply Forall_entry_view; [done|apply Hinv]|].
      destruct (role s) eqn:Hr; [by rewrite (waiting_fresh s h Hinv Hr Hw)|by rewrite Hw in Hn]. }
    destruct Hinv as (_ & Hst & _). pose proof (proj1 Hcore) as Hr'. split_and!; try done.
    + by eapply step_coherent.
    + rewrite fmap_app, Hr'. by eapply stage_step.
    + apply Forall_app. split; [done|]. by constructor.
  - destruct (ids_snoc s s' h now c Hinv Hnew Hids) as [Hnd' Hp']. split; [|by destruct Hview].
    destruct Hinv as (_ & Hst' & Hf & _). split_and!; try done.
    + by eapply aborted_coherent.
    + rewrite fmap_app, Hst. pose proof (proj1 (proj1 Hview)) as ->. eapply stage_aborted; eauto. right. cbn. by rewrite Hab.
    + apply Forall_app. split; [by eapply Forall_entry_view|by constructor].
Qed.

Lemma started_invariant s : started s -> invariant s [].
Proof.
  intros [k sec now url|k now f qr s' e H].
  - split; [|split; [by exists 0|by repeat constructor]]. unfold coherent. cbn. split_and!; [by eauto|done..].
  - unfold new_target in H. ok_facts. injection H as <- <-.
    split; [|split; [by exists 0|by repeat constructor]]. unfold coherent. cbn. split_and!; [by eauto|by eauto|done].
Qed.

Lemma reach_invariant s0 s h : started s0 -> reach s0 s h -> invariant s h /\ same_core s0 s.
Proof.
  intros H0. induction 1 as [|s h now c s' ok _ [IH Hc] Hcall]; [by split; [apply started_invariant|]|].
  destruct (invariant_step now c s s' ok h IH Hcall) as [H1 H2]. split; [done|].
  unfold same_core in *. destruct Hc as (-> & -> & -> & -> & -> & -> & ->) in H2. done.
Qed.

End effects.

(** ** Two honest devices *)

(** A message that can be written and encrypted. *)
Definition fits `{PL : PairingLib} (m : PairingMessage) : Prop :=
  exists s, message_to_string m = Ok s /\ 1 <= String.length s /\ (N.of_nat (String.length s) <= 65535)%N.

(** The control messages, whose texts are hex digests. *)
Definition control (m : PairingMessage) : Prop :=
  match m with
  | Offer id v => String.length id = 64 /\ v = 1%N
  | SasConfirm h => String.length h = 64
  | Payload _ _ => False
  | Complete _ | Abort_ _ => True
  end.

(** Documented facts: both ends of a key exchange get the same secret; HKDF
    gives as many bytes as asked for; NIP-44 decrypts what it encrypts, a
    plaintext of 1 to 65535 bytes to 132 to 87472 characters; a signed event
    has the given fields and verifies; messages are written and read back, the
    control messages within the limit of NIP-44. *)
Class PairingLaws (PL : PairingLib) := {
  ecdh_agree : forall a b, exists k, generate_shared_key a (public_key b) = Ok k /\ generate_shared_key b (public_key a) = Ok k;
  hkdf_length : forall prk info n, (N.of_nat n <= 8160)%N -> String.length (hkdf_expand prk info n) = n;
  nip44_round_trip : forall nonce a b m, 1 <= String.length m -> (N.of_nat (String.length m) <= 65535)%N ->
    exists c, nip44_encrypt nonce a (public_key b) m = Ok c /\ nip44_decrypt b (public_key a) c = Ok m /\
      (132 <= N.of_nat (String.length c) <= 87472)%N;
  sign_verifies : forall aux k kind tags content ts, exists e, sign_with_keys aux k kind tags content ts = Ok e /\
    event_verify e = Ok tt /\ ev_pubkey e = public_key k /\ ev_kind e = kind /\ ev_tags e = tags /\ ev_content e = content;
  message_read_back : forall m s, message_to_string m = Ok s -> message_from_str s = Ok m;
  control_fits : forall m, control m -> fits m;
}.

Section honest.
Context `{NL : NostrLib, UL : UrlLib, QL : !QrLib, QLL : !QrLaws NL UL QL, PL : PairingLib, PLL : !PairingLaws PL}.

Lemma substring_length n s : String.length s = n -> String.length (String.substring 0 n s) = n.
Proof. revert s. induction n as [|n IH]; intros [|c s]; cbn; try done. intros [= H]. f_equal. by apply IH. Qed.

Lemma hkdf32_length salt ikm info : String.length (hkdf32 salt ikm info) = 32.
Proof. unfold hkdf32. apply substring_length, hkdf_length. lia. Qed.

Lemma hex32_length b : String.length b = 32 -> String.length (hex_encode b) = 64.
Proof. intros H. by rewrite hex_length, H. Qed.

Lemma decode32_hex b : String.length b = 32 -> decode32 (hex_encode b) = Some b.
Proof. intros H. unfold decode32. by rewrite hex_read_back, H. Qed.

(** What a session builds for its peer. *)
Lemma build_event_ok fresh m s b :
  peer_pubkey s = Some (public_key b) -> fits m ->
  exists e, build_event fresh m s = Ok e /\ event_verify e = Ok tt /\ ev_kind e = PAIRING_KIND /\
    ev_pubkey e = public_key (keys s) /\ has_p_tag (public_key b) (ev_tags e) = true /\
    forall t, keys t = b -> decrypt_message e t = Ok m.
Proof.
  intros Hp (txt & Hw & Hlo & Hhi). unfold build_event. rewrite Hp, Hw. cbn [ok_or map_err].
  destruct (nip44_round_trip (fresh_nonce fresh) (keys s) b txt Hlo Hhi) as (c & -> & Hdec & Hlen). cbn [map_err].
  destruct (sign_verifies (fresh_aux fresh) (keys s) PAIRING_KIND [["p"; to_hex (public_key b)]] c
              (u64_saturating_sub (fresh_now fresh) (fresh_random fresh mod 31))) as (e & -> & Hv & Hpk & Hk & Ht & Hc).
  exists e. split_and!; try done.
  - rewrite Ht. unfold has_p_tag. cbn. by rewrite String.eqb_refl.
  - intros t Hkey. unfold decrypt_message. rewrite Hc, Hpk, Hkey, Hdec. cbv zeta.
    rewrite (proj2 (N.leb_le _ _) (proj1 Hlen)), (proj2 (N.leb_le _ _) (proj2 Hlen)). cbn [andb negb map_err].
    rewrite (proj2 (N.ltb_ge _ _) Hhi). by rewrite (message_read_back _ _ Hw).
Qed.

Lemma basics_pass e s :
  event_verify e = Ok tt -> ev_kind e = PAIRING_KIND -> has_p_tag (public_key (keys s)) (ev_tags e) = true ->
  ev_id e ∉ processed_ids s -> validate_event_basics e s = Ok tt.
Proof.
  intros Hv Hk Ht Hid. unfold validate_event_basics. rewrite Hv, Hk, Ht, bool_decide_false by done. by rewrite N.eqb_refl.
Qed.

Lemma peer_passes e s :
  event_verify e = Ok tt -> ev_kind e = PAIRING_KIND -> has_p_tag (public_key (keys s)) (ev_tags e) = true ->
  ev_id e ∉ processed_ids s -> peer_pubkey s = Some (ev_pubkey e) -> validate_event_from_peer e s = Ok tt.
Proof.
  intros Hv Hk Ht Hid Hp. unfold validate_event_from_peer. rewrite basics_pass, Hp by done. by rewrite String.eqb_refl.
Qed.

Lemma bind_asks {A B} (f : PairingSession -> result PairingError A) (k : A -> M B) s a :
  f s = Ok a -> bind (asks f) k s = k a s.
Proof. intros H. unfold bind, asks. by rewrite H. Qed.

Lemma expired_ok now s : is_expired now s = false -> check_expired now s = Ok tt.
Proof. unfold check_expired. by intros ->. Qed.

Lemma state_ok st s : state s = st -> expect_state st s = Ok tt.
Proof. intros H. unfold expect_state. by rewrite bool_decide_true. Qed.

Lemma role_ok r s : role s = r -> expect_role r s = Ok tt.
Proof. intros H. unfold expect_role. by rewrite bool_decide_true. Qed.


(** The source after the offer of the target, and the target as it starts. *)
Definition source_at (st : SessionState) (sk : Keys) (secret url : string) (peer : PublicKey) (k : string) (ids : gset EventId)
    (t0 : N) : PairingSession :=
  mkSession Source st sk secret [url] (Some peer) (derive_session_id secret) (Some (derive_sas k secret).1)
    (Some (derive_sas k secret).2) ids t0 DEFAULT_TIMEOUT.

Definition target_at (st : SessionState) (tk : Keys) (secret url : string) (peer : PublicKey) (k : string) (ids : gset EventId)
    (t1 : N) : PairingSession :=
  mkSession Target st tk secret [url] (Some peer) (derive_session_id secret) (Some (derive_sas k secret).1)
    (Some (derive_sas k secret).2) ids t1 DEFAULT_TIMEOUT.

Definition within (now t0 : N) : Prop := (u64_saturating_sub now t0 <= DEFAULT_TIMEOUT)%N.

Lemma within_ok now s : timeout s = DEFAULT_TIMEOUT -> within now (created_at s) -> check_expired now s = Ok tt.
Proof. intros Ht Hw. apply expired_ok. unfold is_expired. rewrite Ht. by apply N.ltb_ge. Qed.

Ltac session_fields :=
  cbn [role state keys session_secret relay_urls peer_pubkey session_id sas_code_ sas_input processed_ids created_at timeout fst snd].

Lemma source_takes_offer sk tk secret url k now t0 e :
  generate_shared_key sk (public_key tk) = Ok k -> within now t0 ->
  event_verify e = Ok tt -> ev_kind e = PAIRING_KIND -> ev_pubkey e = public_key tk ->
  has_p_tag (public_key sk) (ev_tags e) = true ->
  (forall t, keys t = sk -> decrypt_message e t = Ok (Offer (hex_encode (derive_session_id secret)) 1)) ->
  handle_offer now e (new_source sk secret t0 url).1 =
    (source_at Confirming sk secret url (public_key tk) k {[ev_id e]} t0, Ok (format_sas (derive_sas k secret).1)).
Proof.
  intros Hk Hw Hv Hkind Hpk Htag Hdec. unfold handle_offer, new_source. cbn [fst].
  rewrite (bind_asks _ _ _ tt) by (by apply within_ok). rewrite (bind_asks _ _ _ tt) by done. rewrite (bind_asks _ _ _ tt) by done.
  rewrite (bind_asks _ _ _ tt) by (by apply basics_pass).
  erewrite bind_asks by (by apply Hdec). cbv beta iota. rewrite bind_ret. cbn [N.eqb Pos.eqb negb].
  rewrite (bind_asks _ _ _ tt) by (rewrite decode32_hex by apply hkdf32_length; unfold ct_eq; by rewrite String.eqb_refl).
  rewrite bind_modify. erewrite bind_asks by (cbn [keys with_peer]; by rewrite Hpk, Hk).
  erewrite bind_asks by done. cbn [session_secret with_peer]. destruct (derive_sas k secret) as [code input] eqn:Es.
  unfold source_at. rewrite Es, !bind_modify. unfold ret, record_event, with_state, with_sas, with_peer. session_fields.
  by rewrite Hpk, union_empty_r_L.
Qed.

(** A well-made event of [a] for [b] that carries [m]. *)
Definition letter (a b : Keys) (m : PairingMessage) (e : Event) : Prop :=
  event_verify e = Ok tt /\ ev_kind e = PAIRING_KIND /\ ev_pubkey e = public_key a /\ has_p_tag (public_key b) (ev_tags e) = true /\
  forall t, keys t = b -> decrypt_message e t = Ok m.

Lemma build_letter fresh m s b :
  peer_pubkey s = Some (public_key b) -> fits m -> exists e, build_event fresh m s = Ok e /\ letter (keys s) b m e.
Proof.
  intros Hp Hf. destruct (build_event_ok fresh m s b Hp Hf) as (e & He & H1 & H2 & H3 & H4 & H5). by exists e.
Qed.

Lemma letter_basics a b m e s : letter a b m e -> keys s = b -> ev_id e ∉ processed_ids s -> validate_event_basics e s = Ok tt.
Proof. intros (H1 & H2 & H3 & H4 & _) <- Hid. by apply basics_pass. Qed.

Lemma letter_peer a b m e s :
  letter a b m e -> keys s = b -> ev_id e ∉ processed_ids s -> peer_pubkey s = Some (public_key a) -> validate_event_from_peer e s = Ok tt.
Proof. intros (H1 & H2 & H3 & H4 & _) <- Hid Hp. apply peer_passes; try done. by rewrite H3. Qed.

(** The script of the source. *)
Lemma source_confirms sk tk secret url k ids now t0 f :
  within now t0 ->
  let transcript := derive_transcript_hash (derive_session_id secret) (key_bytes (public_key sk)) (key_bytes (public_key tk))
                      (derive_sas k secret).2 secret in
  exists e, letter sk tk (SasConfirm (hex_encode transcript)) e /\
    confirm_sas now f (source_at Confirming sk secret url (public_key tk) k ids t0) =
      (source_at Transferring sk secret url (public_key tk) k ids t0, Ok e).
Proof.
  intros Hw transcript.
  destruct (build_letter f (SasConfirm (hex_encode transcript)) (source_at Confirming sk secret url (public_key tk) k ids t0) tk)
    as (e & He & Hl); [done|apply control_fits; repeat split; apply hex32_length, hkdf32_length|].
  exists e. split; [done|]. unfold confirm_sas. rewrite (bind_asks _ _ _ tt) by (by apply within_ok).
  do 2 rewrite (bind_asks _ _ _ tt) by done. do 3 (erewrite bind_asks by done). cbv beta.
  by erewrite bind_asks by exact He.
Qed.

Lemma source_sends sk tk secret url k ids now t0 f ty data :
  within now t0 -> fits (Payload ty data) ->
  exists e, letter sk tk (Payload ty data) e /\
    send_payload now f ty data (source_at Transferring sk secret url (public_key tk) k ids t0) =
      (source_at PayloadExchanged sk secret url (public_key tk) k ids t0, Ok e).
Proof.
  intros Hw Hf.
  destruct (build_letter f (Payload ty data) (source_at Transferring sk secret url (public_key tk) k ids t0) tk) as (e & He & Hl); [done..|].
  exists e. split; [done|]. unfold send_payload. rewrite (bind_asks _ _ _ tt) by (by apply within_ok).
  do 2 rewrite (bind_asks _ _ _ tt) by done. by erewrite bind_asks by exact He.
Qed.

Lemma source_completes sk tk secret url k ids now t0 e :
  within now t0 -> letter tk sk (Complete true) e -> ev_id e ∉ ids ->
  handle_complete now e (source_at PayloadExchanged sk secret url (public_key tk) k ids t0) =
    (source_at Completed sk secret url (public_key tk) k ({[ev_id e]} ∪ ids) t0, Ok tt).
Proof.
  intros Hw Hl Hid. unfold handle_complete. rewrite (bind_asks _ _ _ tt) by (by apply within_ok).
  do 2 rewrite (bind_asks _ _ _ tt) by done. rewrite (bind_asks _ _ _ tt) by (by eapply letter_peer).
  erewrite bind_asks by (by apply Hl). done.
Qed.

(** The script of the target. *)
Lemma target_starts sk tk secret url k t1 f :
  generate_shared_key tk (public_key sk) = Ok k ->
  exists e, letter tk sk (Offer (hex_encode (derive_session_id secret)) 1) e /\
    new_target tk t1 f (mkQr (public_key sk) secret [url] 1) = Ok (target_at Confirming tk secret url (public_key sk) k ∅ t1, e).
Proof.
  intros Hk.
  destruct (build_letter f (Offer (hex_encode (derive_session_id secret)) 1) (target_at Waiting tk secret url (public_key sk) k ∅ t1) sk)
    as (e & He & Hl); [done|apply control_fits; repeat split; apply hex32_length, hkdf32_length|].
  exists e. split; [done|]. unfold new_target. cbn [source_pubkey qr_secret relays]. rewrite Hk. cbn [map_err].
  unfold target_at in *. destruct (derive_sas k secret) as [code input]. cbn [fst snd] in *. by rewrite He.
Qed.

Lemma target_takes_confirm sk tk secret url k now t1 e :
  within now t1 ->
  letter sk tk (SasConfirm (hex_encode (derive_transcript_hash (derive_session_id secret) (key_bytes (public_key sk))
                   (key_bytes (public_key tk)) (derive_sas k secret).2 secret))) e ->
  handle_sas_confirm now e (target_at Confirming tk secret url (public_key sk) k ∅ t1) =
    (target_at AwaitingConfirmation tk secret url (public_key sk) k {[ev_id e]} t1, Ok (format_sas (derive_sas k secret).1)).
Proof.
  intros Hw Hl. unfold handle_sas_confirm. rewrite (bind_asks _ _ _ tt) by (by apply within_ok).
  do 2 rewrite (bind_asks _ _ _ tt) by done. rewrite (bind_asks _ _ _ tt) by (by eapply letter_peer).
  erewrite bind_asks by (by apply Hl). cbv beta iota. rewrite bind_ret. do 3 (erewrite bind_asks by done). cbv beta zeta.
  rewrite decode32_hex by apply hkdf32_length. unfold ct_eq. session_fields. unfold target_at. session_fields.
  rewrite String.eqb_refl. cbn [negb]. rewrite !bind_modify. unfold record_event, with_state. session_fields.
  by rewrite union_empty_r_L.
Qed.

Lemma target_takes_payload sk tk secret url k ids now t1 e ty data :
  within now t1 -> letter sk tk (Payload ty data) e -> ev_id e ∉ ids ->
  handle_payload now e (target_at Transferring tk secret url (public_key sk) k ids t1) =
    (target_at PayloadExchanged tk secret url (public_key sk) k ({[ev_id e]} ∪ ids) t1, Ok (ty, data)).
Proof.
  intros Hw Hl Hid. unfold handle_payload. rewrite (bind_asks _ _ _ tt) by (by apply within_ok).
  do 2 rewrite (bind_asks _ _ _ tt) by done. rewrite (bind_asks _ _ _ tt) by (by eapply letter_peer).
  erewrite bind_asks by (by apply Hl). done.
Qed.

Lemma target_completes sk tk secret url k ids now t1 f :
  within now t1 ->
  exists e, letter tk sk (Complete true) e /\
    send_complete now f (target_at PayloadExchanged tk secret url (public_key sk) k ids t1) =
      (target_at Completed tk secret url (public_key sk) k ids t1, Ok e).
Proof.
  intros Hw.
  destruct (build_letter f (Complete true) (target_at PayloadExchanged tk secret url (public_key sk) k ids t1) sk) as (e & He & Hl);
    [done|by apply control_fits|].
  exists e. split; [done|]. unfold send_complete. rewrite (bind_asks _ _ _ tt) by (by apply within_ok).
  do 2 rewrite (bind_asks _ _ _ tt) by done. by erewrite bind_asks by exact He.
Qed.

(** C21: pairing completes.  A source shows its code; a target that scans it
    makes an offer; the source accepts it and shows the short code the target
    shows; once the users have confirmed on both sides the secret the source
    sends is, letter for letter, what the target receives, and both sessions end
    completed.  The calls are within the two minutes of both sessions, the code
    can carry the source's relay, the secret fits into a message, and no two
    events to the same device share an id. *)
Theorem pairing_completes (sk tk : Keys) (secret url : string) (t0 t1 : N) (times : Step -> N) (f1 f2 f3 f4 : Fresh)
    (ty : PayloadType) (data : string) :
  let '(s0, qr) := new_source sk secret t0 url in
  qr_wf qr -> String.length (encode_qr qr) <= 2048 -> fits (Payload ty data) ->
  (forall x, within (times x) t0 /\ within (times x) t1) ->
  exists uri q tgt0 offer sas,
    qr_uri s0 = Some uri /\ decode_qr uri = Ok q /\ new_target tk t1 f1 q = Ok (tgt0, offer) /\ sas_code tgt0 = Some sas /\
  exists src1 src2 confirm tgt1 tgt2,
    handle_offer (times SOffer) offer s0 = (src1, Ok sas) /\ confirm_sas (times SConfirm) f2 src1 = (src2, Ok confirm) /\
    handle_sas_confirm (times SSasConfirm) confirm tgt0 = (tgt1, Ok sas) /\
    confirm_target_sas (times SConfirmTarget) tgt1 = (tgt2, Ok tt) /\
  exists src3 secret_event,
    send_payload (times SSend) f3 ty data src2 = (src3, Ok secret_event) /\
    (ev_id secret_event <> ev_id confirm ->
     exists tgt3 tgt4 done,
       handle_payload (times SPayload) secret_event tgt2 = (tgt3, Ok (ty, data)) /\
       send_complete (times SSendComplete) f4 tgt3 = (tgt4, Ok done) /\ state tgt4 = Completed /\
       (ev_id done <> ev_id offer ->
        exists src4, handle_complete (times SComplete) done src3 = (src4, Ok tt) /\ state src4 = Completed)).
Proof.
  destruct (new_source sk secret t0 url) as [s0 qr] eqn:E. injection E as <- <-. intros Hwf Hlen Hfit Htimes.
  destruct (ecdh_agree sk tk) as (k & Hks & Hkt).
  destruct (target_starts sk tk secret url k t1 f1 Hkt) as (offer & Hoffer & Hnew).
  destruct (source_confirms sk tk secret url k {[ev_id offer]} (times SConfirm) t0 f2) as (confirm & Hconfirm & Hcs); [apply Htimes|].
  destruct (source_sends sk tk secret url k {[ev_id offer]} (times SSend) t0 f3 ty data) as (pay & Hpay & Hsp); [apply Htimes|done|].
  exists (encode_qr (mkQr (public_key sk) secret [url] 1)), (mkQr (public_key sk) secret [url] 1),
    (target_at Confirming tk secret url (public_key sk) k ∅ t1), offer, (format_sas (derive_sas k secret).1).
  split_and!; try done; [by apply encode_decode|].
  eexists _, _, confirm, (target_at AwaitingConfirmation tk secret url (public_key sk) k {[ev_id confirm]} t1),
    (target_at Transferring tk secret url (public_key sk) k {[ev_id confirm]} t1). split_and!.
  - destruct Hoffer as (H1 & H2 & H3 & H4 & H5). apply (source_takes_offer sk tk secret url k); try done. apply Htimes.
  - exact Hcs.
  - apply target_takes_confirm; [apply Htimes|done].
  - unfold confirm_target_sas. rewrite (bind_asks _ _ _ tt) by (apply within_ok; [done|apply Htimes]). done.
  - eexists _, pay. split; [exact Hsp|]. intros Hne.
    destruct (target_completes sk tk secret url k ({[ev_id pay]} ∪ {[ev_id confirm]}) (times SSendComplete) t1 f4)
      as (fin & Hfin & Hsc); [apply Htimes|].
    eexists _, _, fin. split; [|split; [exact Hsc|split; [done|]]].
    + apply target_takes_payload; [apply Htimes|done|]. by rewrite elem_of_singleton.
    + intros Hne'. eexists. split; [apply source_completes; [apply Htimes|done|by rewrite elem_of_singleton]|done].
Qed.
End honest.

(** ** An instance *)

Definition payload_letter (ty : PayloadType) : ascii := match ty with Nsec => "n" | Bunker => "b" | Connect => "c" | Custom => "x" end.
Definition reason_letter (r : AbortReason) : ascii :=
  match r with ReasonSasMismatch => "s" | UserDenied => "d" | Timeout => "t" | ProtocolError => "p" | Unknown => "u" end.

Definition demo_write (m : PairingMessage) : result string string :=
  match m with
  | Offer id v => if (v =? 1)%N then Ok (String "O" id) else Err "version"
  | SasConfirm h => Ok (String "S" h)
  | Payload ty d => Ok (String "P" (String (payload_letter ty) d))
  | Complete b => Ok (String "C" (if b then "1" else "0"))
  | Abort_ r => Ok (String "A" (String (reason_letter r) EmptyString))
  end.

Definition demo_read (s : string) : result string PairingMessage :=
  match s with
  | String "O" id => Ok (Offer id 1)
  | String "S" h => Ok (SasConfirm h)
  | String "P" (String c d) =>
      Ok (Payload (if Ascii.eqb c "n" then Nsec else if Ascii.eqb c "b" then Bunker else if Ascii.eqb c "c" then Connect else Custom) d)
  | String "C" b => Ok (Complete (String.eqb b "1"))
  | String "A" (String c _) =>
      Ok (Abort_ (if Ascii.eqb c "s" then ReasonSasMismatch else if Ascii.eqb c "d" then UserDenied else if Ascii.eqb c "t" then Timeout
                  else if Ascii.eqb c "p" then ProtocolError else Unknown))
  | _ => Err "no message"
  end.

#[global] Instance demo_pairing : PairingLib := {|
  Keys := string;
  public_key k := k;
  key_bytes pk := pk;
  generate_shared_key a b := Ok (if str_leb a b then a +:+ b else b +:+ a);
  hkdf_extract salt ikm := salt +:+ ikm;
  hkdf_expand prk info n := String.substring 0 n (prk +:+ zero_bytes n);
  nip44_encrypt _ _ _ m := Ok (zero_bytes 132 +:+ m);
  nip44_decrypt _ _ c := ok_or (strip_prefix (zero_bytes 132) c) "MAC";
  sign_with_keys _ k kind tags content ts := Ok (mkEvent content k ts kind tags content "sig");
  event_verify _ := Ok tt;
  message_to_string := demo_write;
  message_from_str := demo_read;
|}.

Lemma str_length_app a b : String.length (a +:+ b) = String.length a + String.length b.
Proof. induction a as [|c a IH]; [done|]. rewrite str_app_cons. cbn. by rewrite IH. Qed.

Lemma zero_bytes_length n : String.length (zero_bytes n) = n.
Proof. induction n; cbn; by f_equal. Qed.

Lemma substring_le n s : n <= String.length s -> String.length (String.substring 0 n s) = n.
Proof. revert s. induction n as [|n IH]; intros [|c s]; cbn; try lia. intros H. f_equal. apply IH. lia. Qed.

#[global] Instance demo_pairing_laws : PairingLaws demo_pairing.
Proof.
  split.
  - intros a b. eexists. split; [done|]. cbn. f_equal. destruct (str_leb a b) eqn:E1, (str_leb b a) eqn:E2; try done.
    + by rewrite (str_leb_antisym _ _ E1 E2).
    + destruct (str_leb_total a b); congruence.
  - intros prk info n _. cbn [hkdf_expand demo_pairing]. apply substring_le. rewrite str_length_app, zero_bytes_length. lia.
  - intros nonce a b m Hlo Hhi. exists (zero_bytes 132 +:+ m). split; [done|]. cbn [nip44_decrypt demo_pairing].
    rewrite strip_prefix_app, str_length_app, zero_bytes_length. split; [done|]. lia.
  - intros. eexists. by split.
  - intros m s. cbn [message_to_string message_from_str demo_pairing].
    destruct m as [id v|h|ty d|b|r]; cbn [demo_write]; [destruct (N.eqb_spec v 1) as [->|]|..]; intros [= <-]; try done.
    + by destruct ty.
    + by destruct b.
    + by destruct r.
  - intros m Hm. unfold fits. cbn [message_to_string demo_pairing].
    destruct m as [id v|h|ty d|b|r]; cbn [demo_write control] in *; [destruct Hm as [Hm ->]|..]; try done; (eexists; split; [done|]); cbn.
    + rewrite Hm. lia.
    + rewrite Hm. lia.
    + destruct b; cbn; lia.
    + lia.
Qed.

Definition demo_source_key : Keys := demo_key_hex.
Definition demo_target_key : Keys := "target".
Definition demo_fresh : Fresh := mkFresh 0 1000 7 0.

(** Whether the source's confirmation and payload share an identifier. *)
Definition demo_ids : bool :=
  match new_target demo_target_key 5 demo_fresh (new_source demo_source_key (demo_bytes 32) 0 "wss://relay.example.com").2 with
  | Ok (_, offer) =>
      match handle_offer 9 offer (new_source demo_source_key (demo_bytes 32) 0 "wss://relay.example.com").1 with
      | (src1, _) =>
          match confirm_sas 9 demo_fresh src1 with
          | (src2, Ok c) => match send_payload 9 demo_fresh Nsec "nsec1" src2 with (_, Ok e) => bool_decide (ev_id e = ev_id c) | _ => true end
          | _ => true
          end
      end
  | Err _ => true
  end.
Lemma demo_ids_differ : demo_ids = false.
Proof. vm_compute. reflexivity. Qed.

Lemma pairing_completes_witness :
  let '(s0, qr) := new_source demo_source_key (demo_bytes 32) 0 "wss://relay.example.com" in
  exists offer confirm secret_event src1 src2 src3 tgt0 tgt1 tgt2 tgt3 sas,
    new_target demo_target_key 5 demo_fresh qr = Ok (tgt0, offer) /\ handle_offer 9 offer s0 = (src1, Ok sas) /\
    confirm_sas 9 demo_fresh src1 = (src2, Ok confirm) /\ handle_sas_confirm 9 confirm tgt0 = (tgt1, Ok sas) /\
    confirm_target_sas 9 tgt1 = (tgt2, Ok tt) /\ send_payload 9 demo_fresh Nsec "nsec1" src2 = (src3, Ok secret_event) /\
    handle_payload 9 secret_event tgt2 = (tgt3, Ok (Nsec, "nsec1")).
Proof.
  destruct (pairing_completes demo_source_key demo_target_key (demo_bytes 32) "wss://relay.example.com" 0 5 (fun _ => 9%N)
              demo_fresh demo_fresh demo_fresh demo_fresh Nsec "nsec1")
    as (uri & q & tgt0 & offer & sas & Huri & Hq & Hnew & _ & src1 & src2 & confirm & tgt1 & tgt2 & H1 & H2 & H3 & H4 & src3 & ev & H5 & H6).
  - unfold qr_wf. split_and!; try (vm_compute; reflexivity); try (vm_compute; discriminate).
    constructor; [|constructor]. split; [vm_compute; reflexivity|]. eexists. split; [vm_compute; reflexivity|].
    split; [left|]; vm_compute; reflexivity.
  - vm_compute. lia.
  - eexists. split; [reflexivity|]. vm_compute. split; [lia|discriminate].
  - intros x. split; vm_compute; discriminate.
  - injection Huri as <-.
    assert (q = (new_source demo_source_key (demo_bytes 32) 0 "wss://relay.example.com").2) as ->
      by (vm_compute in Hq; injection Hq as <-; vm_compute; reflexivity).
    cbn [new_source fst snd] in *.
    assert (ev_id ev <> ev_id confirm) as Hne.
    { pose proof demo_ids_differ as Hd. unfold demo_ids in Hd. cbn [new_source fst snd] in Hd. rewrite Hnew in Hd. cbv beta iota in Hd. rewrite H1 in Hd. cbv beta iota in Hd.
      rewrite H2 in Hd. cbv beta iota in Hd. rewrite H5 in Hd. cbv beta iota in Hd. intros Hid. by rewrite (bool_decide_true _ Hid) in Hd. }
    destruct (H6 Hne) as (tgt3 & tgt4 & fin & H7 & _).
    exists offer, confirm, ev, src1, src2, src3, tgt0, tgt1, tgt2, tgt3, sas. split_and!; assumption.
Defined.

Definition demo_source : PairingSession := (new_source demo_source_key (demo_bytes 32) 0 "wss://relay.example.com").1.
Definition demo_offer : Event :=
  match new_target demo_target_key 5 demo_fresh (new_source demo_source_key (demo_bytes 32) 0 "wss://relay.example.com").2 with
  | Ok (_, e) => e
  | Err _ => demo_event "none" "none" 0 0 []
  end.

(** An offer, the same offer again, the confirmation. *)
Definition demo_after1 : PairingSession := (call 9 (COffer demo_offer) demo_source).1.
Definition demo_after2 : PairingSession := (call 9 (COffer demo_offer) demo_after1).1.
Definition demo_after3 : PairingSession := (call 9 (CConfirm demo_fresh) demo_after2).1.

