(* ===== verification/PairRelay.v ===== *)
(** * The pairing relay

    [buzz-pair-relay/src/lib.rs]: a relay that keeps nothing and forwards the
    events of a pairing to the one live subscriber they are addressed to.

    The relay runs a task per connection on several threads, so the model is a
    system of connections that take steps in any order: the handling of a frame
    is cut where the source takes a lock ([reserve_id], [deliver_single],
    [unreserve_id] are one step each), and so is the life of a connection.  An
    [Instant] is a count of nanoseconds.  The channel to the writer task of a
    connection is the list [out_queue] of that connection; SHA-256 and
    Schnorr signatures are the class [PairLib], JSON texts [JsonLib]. *)

From S2P Require Import Prelude Text Nostr Demo Json.

(** Functions of the crates. *)
Class PairLib := {
  (** [Sha256::digest], on and into bytes *)
  sha256 : string -> string;
  (** [XOnlyPublicKey::from_byte_array] succeeds *)
  xonly_ok : string -> bool;
  (** [verify_schnorr(sig, hash, key)] *)
  verify_schnorr : string -> string -> string -> bool;
}.

(** ** Limits *)

Definition secs (n : N) : N := (n * 1000000000)%N.

Definition CONN_TIMEOUT : N := secs 120.
Definition MAX_CONNS : N := 128.
Definition CHANNEL_CAP : nat := 4.
Definition KIND_PAIR : N := 24134.
Definition RATE_WINDOW : N := secs 10.
Definition RATE_MSG_MAX : N := 20.
Definition RATE_EVENT_MAX : N := 10.
Definition SUB_ID_MAX : nat := 64.
Definition MAX_EVENTS_PER_CONN : N := 6.
Definition MAX_DELIVERED_PER_P : N := 12.
Definition DEDUP_CAP : nat := 1024.
Definition DELIVERED_MAP_CAP : nat := 4096.
Definition ENTRY_TTL : N := secs 300.
Definition FRESHNESS_SECS : Z := 120.

(** ** Validation *)

Definition is_lower_hex (s : string) (len : nat) : bool := (String.length s =? len)%nat && str_forallb is_lower_hex_char s.

(** [char::to_digit(16)]. *)
Definition to_digit16 (c : ascii) : option N :=
  if Lines.byte_in 48 57 c then Some (N_of_ascii c - 48)%N
  else if Lines.byte_in 97 102 c then Some (N_of_ascii c - 87)%N
  else if Lines.byte_in 65 70 c then Some (N_of_ascii c - 55)%N
  else None.

Fixpoint hex_bytes (s : string) : option string :=
  match s with
  | EmptyString => Some EmptyString
  | String a (String b rest) =>
      hi ← to_digit16 a; lo ← to_digit16 b; r ← hex_bytes rest; Some (String (ascii_of_N (hi * 16 + lo)) r)
  | String _ EmptyString => None
  end.

Definition decode_hex32 (s : string) : option string := if negb (is_lower_hex s 64) then None else hex_bytes s.
Definition decode_hex64 (s : string) : option string := if negb (is_lower_hex s 128) then None else hex_bytes s.

(** A static error message. *)
Definition check := result string.

(** Only these keys. *)
Definition only_keys (allowed : list string) (e : string) (fields : list (string * Value)) : check unit :=
  ensure (forallb (fun x : string * Value => existsb (String.eqb x.1) allowed) fields) e.

Definition validate_filter (filter : Value) : check string :=
  let? obj := ok_or (as_object filter) "filter must be an object" in
  let? _ := only_keys ["kinds"; "#p"] "unsupported filter field" obj in
  let? _ :=
    match get "kinds" obj with
    | Some kinds =>
        let? arr := ok_or (as_array kinds) "kinds must be an array" in
        match arr with
        | [k] => ensure (bool_decide (as_u64 k = Some KIND_PAIR)) "kinds must be [24134]"
        | _ => Err "kinds must be [24134]"
        end
    | None => Ok tt
    end in
  let? p_arr := ok_or (get "#p" obj ≫= as_array) "#p filter required" in
  match p_arr with
  | [p] =>
      let? p_str := ok_or (as_str p) "#p value must be a string" in
      ok_or (decode_hex32 p_str) "#p value must be 64 lowercase hex chars"
  | _ => Err "#p must have exactly one value"
  end.

Definition b64_val (c : ascii) : option N :=
  let n := N_of_ascii c in
  if Lines.byte_in 65 90 c then Some (n - 65)%N
  else if Lines.byte_in 97 122 c then Some (n - 97 + 26)%N
  else if Lines.byte_in 48 57 c then Some (n - 48 + 52)%N
  else if Lines.byte_is 43 c then Some 62%N
  else if Lines.byte_is 47 c then Some 63%N
  else None.

(** The loop over the bytes, from position [i]: the number of [=]. *)
Fixpoint count_padding (len i : nat) (pad_count : nat) (s : string) : check nat :=
  match s with
  | EmptyString => Ok pad_count
  | String b rest =>
      match b64_val b with
      | Some _ => if (0 <? pad_count)%nat then Err "content is not valid base64" else count_padding len (S i) pad_count rest
      | None =>
          if Lines.byte_is 61 b then
            if (i <? len - 2)%nat then Err "content is not valid base64"
            else if (2 <? S pad_count)%nat then Err "content is not valid base64"
            else count_padding len (S i) (S pad_count) rest
          else Err "content is not valid base64"
      end
  end.

Definition validate_nip44_content (content : string) : check unit :=
  if String.eqb content EmptyString then Err "content must not be empty"
  else
    let len := String.length content in
    if negb (len mod 4 =? 0)%nat then Err "content is not valid base64"
    else
      let? pad_count := count_padding len 0 0 content in
      if (len / 4 * 3 - pad_count <? 99)%nat then Err "content too short for NIP-44 v2"
      else
        let? v0 := ok_or (String.get 0 content ≫= b64_val) "content is not valid base64" in
        let? v1 := ok_or (String.get 1 content ≫= b64_val) "content is not valid base64" in
        if negb (N.lor (N.shiftl v0 2) (N.shiftr v1 4) =? 2)%N
        then Err "content is not NIP-44 v2 (expected 0x02 prefix)"
        else Ok tt.

Definition ALLOWED_KEYS : list string := ["id"; "pubkey"; "created_at"; "kind"; "tags"; "content"; "sig"].

(** The event id, its bytes and the bytes of the recipient; [now] is the wall
    clock in seconds. *)
Definition validate_event (now : Z) (ev : Value) : check (string * string * string) :=
  let? obj := ok_or (as_object ev) "event must be an object" in
  let? _ := only_keys ALLOWED_KEYS "unknown top-level field" obj in
  let? id := ok_or (get_str "id" obj) "missing id" in
  let? _ := ensure (is_lower_hex id 64) "id must be 64 lowercase hex chars" in
  let? id_bytes := ok_or (decode_hex32 id) "id must be 64 lowercase hex chars" in
  let? pubkey := ok_or (get_str "pubkey" obj) "missing pubkey" in
  let? _ := ensure (is_lower_hex pubkey 64) "pubkey must be 64 lowercase hex chars" in
  let? _ := ensure (bool_decide (get "kind" obj ≫= as_u64 = Some KIND_PAIR)) "kind must be 24134" in
  let? created_at := ok_or (get "created_at" obj ≫= as_i64) "missing created_at" in
  let? _ := ensure (Z.abs (created_at - now) <=? FRESHNESS_SECS)%Z "created_at outside freshness window" in
  let? content := ok_or (get_str "content" obj) "missing content" in
  let? _ := validate_nip44_content content in
  let? sig := ok_or (get_str "sig" obj) "missing sig" in
  let? _ := ensure (is_lower_hex sig 128) "sig must be 128 lowercase hex chars" in
  let? tags := ok_or (get "tags" obj ≫= as_array) "missing tags" in
  match tags with
  | [t] =>
      let? tag := ok_or (as_array t) "tag must be an array" in
      match tag with
      | [name; value] =>
          let? _ := ensure (bool_decide (as_str name = Some "p")) "event must have exactly one p tag" in
          let? p_str := ok_or (as_str value) "p tag value must be a string" in
          let? p_bytes := ok_or (decode_hex32 p_str) "p tag value must be 64 lowercase hex chars" in
          Ok (id, id_bytes, p_bytes)
      | _ => Err "p tag must have exactly 2 elements"
      end
  | _ => Err "event must have exactly one p tag"
  end.

Definition safe_event_id (ev : Value) : string :=
  match as_object ev ≫= get_str "id" with
  | Some s => if is_lower_hex s 64 then s else EmptyString
  | None => EmptyString
  end.

(** [Value::from] of an [i64]. *)
Definition number_of_i64 (z : Z) : Num := if (z <? 0)%Z then NegInt z else PosInt (Z.to_N z).

(** The array whose text is hashed. *)
Definition commitment (pubkey : string) (created_at : Z) (kind : N) (tags : Value) (content : string) : Value :=
  VArray [VNumber (PosInt 0); VString pubkey; VNumber (number_of_i64 created_at); VNumber (PosInt kind); tags; VString content].

Section pair_relay.
Context `{JL : JsonLib, PL : PairLib}.

Definition verify_event_sig (ev : Value) : check unit :=
  let? obj := ok_or (as_object ev) "event must be an object" in
  let? pubkey_str := ok_or (get_str "pubkey" obj) "missing pubkey" in
  let? created_at := ok_or (get "created_at" obj ≫= as_i64) "missing created_at" in
  let? kind := ok_or (get "kind" obj ≫= as_u64) "missing kind" in
  let? tags := ok_or (get "tags" obj) "missing tags" in
  let? content := ok_or (get_str "content" obj) "missing content" in
  let? id_str := ok_or (get_str "id" obj) "missing id" in
  let? sig_str := ok_or (get_str "sig" obj) "missing sig" in
  let hash := sha256 (json_text (commitment pubkey_str created_at kind tags content)) in
  let? id_bytes := ok_or (decode_hex32 id_str) "id must be 64 lowercase hex chars" in
  let? _ := ensure (String.eqb hash id_bytes) "invalid: event id mismatch" in
  let? pubkey_bytes := ok_or (decode_hex32 pubkey_str) "pubkey must be 64 lowercase hex chars" in
  let? _ := ensure (xonly_ok pubkey_bytes) "invalid: bad pubkey" in
  let? sig_bytes := ok_or (decode_hex64 sig_str) "sig must be 128 lowercase hex chars" in
  ensure (verify_schnorr sig_bytes hash pubkey_bytes) "invalid: signature verification failed".

(** ** Messages *)

Definition make_ok (id : string) (ok : bool) (msg : string) : string := json_text (VArray [VString "OK"; VString id; VBool ok; VString msg]).
Definition make_closed (sub_id msg : string) : string := json_text (VArray [VString "CLOSED"; VString sub_id; VString msg]).
Definition make_eose (sub_id : string) : string := json_text (VArray [VString "EOSE"; VString sub_id]).
Definition make_notice (msg : string) : string := json_text (VArray [VString "NOTICE"; VString msg]).
Definition make_event (sub_id : string) (event : Value) : string := json_text (VArray [VString "EVENT"; VString sub_id; event]).

Inductive OutMsg := Text (s : string) | Pong (data : string) | Close.

(** A frame from the client. *)
Inductive Message := MText (s : string) | MBinary | MPing (data : string) | MPong | MClose.

(** ** State *)

Record Sub := mkSub { sub_conn_id : N; sub_sub_id : string; p_value : string }.

Record Relay := mkRelay {
  subs : list Sub;
  conn_count : N;
  next_conn_id : N;
  seen_ids : list (string * N);
  delivered : gmap string (N * N);
}.

Definition relay_new : Relay := mkRelay [] 0 0 [] ∅.

Record RateWindow := mkWindow { count : N; window_start : N }.

Definition window_new (now : N) : RateWindow := mkWindow 0 now.

(** The window after the tick; the tick returns its count. *)
Definition tick (now : N) (w : RateWindow) : RateWindow :=
  let w := if (RATE_WINDOW <=? now - window_start w)%N then mkWindow 0 now else w in
  mkWindow (count w + 1) (window_start w).

(** An event on its way: its id, the bytes of its id, its recipient, itself,
    and when its id was reserved. *)
Record Pending := mkPending { pe_event_id : string; pe_id : string; pe_p : string; pe_event : Value; pe_reserved : N }.

(** Where the task of a connection is. *)
Inductive Phase :=
| Upgrading                     (** the response is out, the socket is not there yet *)
| Reading                       (** at the top of the loop *)
| Delivering (e : Pending)      (** between [reserve_id] and [deliver_single] *)
| Undelivered (e : Pending) (reason : string)  (** before [unreserve_id] *)
| Leaving                       (** out of the loop *)
| Closed.                       (** the subscription is removed, the writer drains *)

Record Conn := mkConn {
  phase : Phase;
  msg_rate : RateWindow;
  event_rate : RateWindow;
  sub_id : option string;
  events_attempted : N;
  out_queue : list OutMsg;
  (** the writer task holds the receiver *)
  writer : bool;
}.

Definition with_phase (ph : Phase) (c : Conn) : Conn :=
  mkConn ph (msg_rate c) (event_rate c) (sub_id c) (events_attempted c) (out_queue c) (writer c).
Definition with_queue (q : list OutMsg) (c : Conn) : Conn :=
  mkConn (phase c) (msg_rate c) (event_rate c) (sub_id c) (events_attempted c) q (writer c).

Definition upgrading : Conn := mkConn Upgrading (window_new 0) (window_new 0) None 0 [] true.

(** The connection when [handle_conn] starts. *)
Definition connected (now : N) : Conn := mkConn Reading (window_new now) (window_new now) None 0 [] true.

(** [try_send] on the channel of a connection. *)
Definition try_send (m : OutMsg) (c : Conn) : option Conn :=
  if writer c && (length (out_queue c) <? CHANNEL_CAP)%nat then Some (with_queue (out_queue c ++ [m]) c) else None.

(** [let _ = tx.try_send(m)]. *)
Definition send (m : OutMsg) (c : Conn) : Conn := default c (try_send m c).

(** ** Reservations and delivery *)

Definition fresh_entry (now : N) (e : string * N) : bool := (now - e.2 <? ENTRY_TTL)%N.

Inductive Reserved := Duplicate | AtCapacity | New.

Definition reserve_id (now : N) (id : string) (r : Relay) : Relay * Reserved :=
  let vec := List.filter (fresh_entry now) (seen_ids r) in
  let keep v := mkRelay (subs r) (conn_count r) (next_conn_id r) v (delivered r) in
  if existsb (fun e : string * N => String.eqb e.1 id) vec then (keep vec, Duplicate)
  else if (DEDUP_CAP <=? length vec)%nat then (keep vec, AtCapacity)
  else (keep (vec ++ [(id, now)]), New).

(** [Vec::swap_remove]: the last entry takes the place of the removed one. *)
Definition swap_remove {A} (i : nat) (l : list A) : list A :=
  match last l with
  | Some x => if (S i =? length l)%nat then take i l else <[i := x]> (take (length l - 1) l)
  | None => l
  end.

Definition unreserve_id (id : string) (r : Relay) : Relay :=
  match position (fun e : string * N => String.eqb e.1 id) (seen_ids r) with
  | Some pos => mkRelay (subs r) (conn_count r) (next_conn_id r) (swap_remove pos (seen_ids r)) (delivered r)
  | None => r
  end.

Definition with_delivered (d : gmap string (N * N)) (r : Relay) : Relay :=
  mkRelay (subs r) (conn_count r) (next_conn_id r) (seen_ids r) d.

(** The relay and the connections after the attempt, and its result. *)
Definition deliver_single (now : N) (p : string) (event : Value) (r : Relay) (conns : gmap N Conn)
    : Relay * gmap N Conn * result string bool :=
  match List.filter (fun s => String.eqb (p_value s) p) (subs r) with
  | [] => (r, conns, Err "no live subscriber")
  | [sub] =>
      let d := filter (fun x : string * (N * N) => (now - x.2.2 < ENTRY_TTL)%N) (delivered r) in
      let n := match d !! p with Some (c, _) => c | None => 0%N end in
      let r := with_delivered d r in
      if (MAX_DELIVERED_PER_P <=? n)%N then (r, conns, Err "recipient session budget exhausted")
      else if (DELIVERED_MAP_CAP <=? size d)%nat && bool_decide (d !! p = None) then (r, conns, Err "relay at capacity")
      else
        match c ← conns !! sub_conn_id sub; try_send (Text (make_event (sub_sub_id sub) event)) c with
        | Some c => (with_delivered (<[p := (n + 1, now)%N]> d) r, <[sub_conn_id sub := c]> conns, Ok true)
        | None => (r, conns, Ok false)
        end
  | _ => (r, conns, Err "ambiguous recipient")
  end.

Definition remove_sub (conn_id : N) (r : Relay) : Relay :=
  mkRelay (List.filter (fun s => negb (sub_conn_id s =? conn_id)%N) (subs r)) (conn_count r) (next_conn_id r) (seen_ids r) (delivered r).

(** ** A connection *)

(** What the loop does after a frame: go on, break, or deliver. *)
Inductive Flow := Continue | Break | Deliver (e : Pending).

(** The answer to a frame that only answers. *)
Definition answer (text : string) (r : Relay) (c : Conn) : Relay * Conn * Flow := (r, send (Text text) c, Continue).

Definition with_sub (r : Relay) (s : Sub) : Relay := mkRelay (subs r ++ [s]) (conn_count r) (next_conn_id r) (seen_ids r) (delivered r).

Definition set_sub_id (o : option string) (c : Conn) : Conn :=
  mkConn (phase c) (msg_rate c) (event_rate c) o (events_attempted c) (out_queue c) (writer c).

Definition handle_req (conn_id : N) (arr : list Value) (r : Relay) (c : Conn) : Relay * Conn * Flow :=
  match arr with
  | _ :: VString client_sub_id :: filter :: more =>
      if (SUB_ID_MAX <? String.length client_sub_id)%nat then answer (make_closed EmptyString "error: sub_id too long") r c
      else if negb (bool_decide (more = [])) then answer (make_closed client_sub_id "error: multiple filters not supported") r c
      else if negb (is_object filter) then answer (make_closed client_sub_id "error: invalid filter") r c
      else
        match sub_id c with
        | Some _ => answer (make_closed client_sub_id "error: already subscribed, send CLOSE first") r c
        | None =>
            match validate_filter filter with
            | Err reason => answer (make_closed client_sub_id ("error: " +:+ reason)) r c
            | Ok p =>
                if existsb (fun s => String.eqb (p_value s) p) (subs r)
                then answer (make_closed client_sub_id "error: #p already has a live subscriber") r c
                else
                  match try_send (Text (make_eose client_sub_id)) c with
                  | None => (r, c, Break)
                  | Some c => (with_sub r (mkSub conn_id client_sub_id p), set_sub_id (Some client_sub_id) c, Continue)
                  end
            end
        end
  | _ => answer (make_notice "error: invalid REQ") r c
  end.

Definition with_event_rate (w : RateWindow) (c : Conn) : Conn :=
  mkConn (phase c) (msg_rate c) w (sub_id c) (events_attempted c) (out_queue c) (writer c).

Definition count_attempt (c : Conn) : Conn :=
  mkConn (phase c) (msg_rate c) (event_rate c) (sub_id c) (events_attempted c + 1) (out_queue c) (writer c).

Definition handle_event (now : N) (wall : Z) (arr : list Value) (r : Relay) (c : Conn) : Relay * Conn * Flow :=
  match arr with
  | [_; ev] =>
      let c := with_event_rate (tick now (event_rate c)) c in
      if (RATE_EVENT_MAX <? count (event_rate c))%N then answer (make_ok (safe_event_id ev) false "rate-limited") r c
      else if (MAX_EVENTS_PER_CONN <=? events_attempted c)%N
           then answer (make_ok (safe_event_id ev) false "error: session event limit reached") r c
      else if negb (is_object ev) then answer (make_ok EmptyString false "invalid: malformed event") r c
      else
        match validate_event wall ev with
        | Err reason => answer (make_ok (safe_event_id ev) false ("invalid: " +:+ reason)) r c
        | Ok (event_id, id_bytes, p) =>
            match verify_event_sig ev with
            | Err reason => answer (make_ok event_id false reason) r c
            | Ok _ =>
                let c := count_attempt c in
                match reserve_id now id_bytes r with
                | (r, Duplicate) => answer (make_ok event_id false "duplicate: already seen") r c
                | (r, AtCapacity) => answer (make_ok event_id false "relay at capacity") r c
                | (r, New) => (r, c, Deliver (mkPending event_id id_bytes p ev now))
                end
            end
        end
  | _ => answer (make_notice "error: invalid EVENT") r c
  end.

Definition handle_close (conn_id : N) (arr : list Value) (r : Relay) (c : Conn) : Relay * Conn * Flow :=
  match arr with
  | [_; VString sid] =>
      if bool_decide (sub_id c = Some sid) then (remove_sub conn_id r, set_sub_id None c, Continue) else (r, c, Continue)
  | _ => answer (make_notice "error: invalid CLOSE") r c
  end.

Definition handle_text (now : N) (wall : Z) (conn_id : N) (text : string) (r : Relay) (c : Conn) : Relay * Conn * Flow :=
  match from_str text with
  | Some (VArray (v :: rest)) =>
      match as_str v with
      | Some verb =>
          if String.eqb verb "REQ" then handle_req conn_id (v :: rest) r c
          else if String.eqb verb "EVENT" then handle_event now wall (v :: rest) r c
          else if String.eqb verb "CLOSE" then handle_close conn_id (v :: rest) r c
          else answer (make_notice "error: unsupported message") r c
      | None => answer (make_notice "error: invalid message") r c
      end
  | _ => answer (make_notice "error: invalid message") r c
  end.

(** One turn of the loop; [None] is a frame that could not be read. *)
Definition handle_frame (now : N) (wall : Z) (conn_id : N) (frame : option Message) (r : Relay) (c : Conn) : Relay * Conn * Flow :=
  let c := mkConn (phase c) (tick now (msg_rate c)) (event_rate c) (sub_id c) (events_attempted c) (out_queue c) (writer c) in
  if (RATE_MSG_MAX <? count (msg_rate c))%N then (r, c, Break)
  else
    match frame with
    | None | Some MBinary => (r, c, Break)
    | Some (MPing data) => match try_send (Pong data) c with Some c => (r, c, Continue) | None => (r, c, Break) end
    | Some MPong => (r, c, Continue)
    | Some MClose => (r, send Close c, Break)
    | Some (MText text) => handle_text now wall conn_id text r c
    end.

(** ** Upgrades *)

(** A header holds its value when the value is visible ASCII. *)
Record Request := mkRequest {
  req_is_get : bool;
  req_at_least_http11 : bool;
  h_connection : option string;
  h_upgrade : option string;
  h_version : option string;
  h_key : option string;
}.

(** [h.split([' ', ','])]. *)
Fixpoint split_words (s : string) : list string :=
  match s with
  | EmptyString => [EmptyString]
  | String c rest =>
      if Ascii.eqb c " " || Ascii.eqb c "," then EmptyString :: split_words rest
      else match split_words rest with w :: ws => String c w :: ws | [] => [String c EmptyString] end
  end.

Definition is_ws (q : Request) : bool :=
  req_is_get q && req_at_least_http11 q &&
  match h_connection q with Some h => existsb (eq_ignore_ascii_case "upgrade") (split_words h) | None => false end &&
  match h_upgrade q with Some h => eq_ignore_ascii_case h "websocket" | None => false end &&
  bool_decide (h_version q = Some "13") &&
  match h_key q with Some k => (String.length k =? 24)%nat && str_forallb (Lines.byte_in 0 127) k | None => false end.

Definition with_conn_count (n : N) (r : Relay) : Relay := mkRelay (subs r) n (next_conn_id r) (seen_ids r) (delivered r).

Inductive Answer := BadRequest | Refusing | Switching (conn_id : N).

(** [http_service] up to the response; a refused request still has to give its
    slot back ([refused]). *)
Definition http_service (q : Request) (r : Relay) : Relay * Answer :=
  if negb (is_ws q) then (r, BadRequest)
  else
    let old := conn_count r in
    let r := with_conn_count (old + 1) r in
    if (MAX_CONNS <=? old)%N then (r, Refusing)
    else (mkRelay (subs r) (conn_count r) (next_conn_id r + 1) (seen_ids r) (delivered r), Switching (next_conn_id r)).

Definition release_slot (r : Relay) : Relay := with_conn_count (conn_count r - 1) r.

(** ** The system *)

Record System := mkSystem { relay : Relay; conns : gmap N Conn; refused : N }.

Definition system_new : System := mkSystem relay_new ∅ 0.

(** What the tasks do, with the clocks they read. *)
Inductive Op :=
| OpRequest (q : Request)                       (** a request arrives *)
| OpRefused                                     (** a refused request gives its slot back *)
| OpUpgraded (c : N) (now : N)                  (** [handle_conn] starts *)
| OpUpgradeFailed (c : N)
| OpFrame (c : N) (now : N) (wall : Z) (f : option Message)
| OpDeliver (c : N) (now : N)                   (** [deliver_single] *)
| OpUnreserve (c : N) (now : N)                 (** [unreserve_id] and the answer *)
| OpEnd (c : N)                                 (** deadline, writer or socket ends the loop *)
| OpClose (c : N)                               (** after the loop *)
| OpDrop (c : N)                                (** the guard is dropped *)
| OpWrite (c : N)                               (** the writer takes a message *)
| OpWriterGone (c : N).                         (** the writer ends *)

(** A delivery: sender, event, subscriber and the subscription id, and when. *)
Record Delivery := mkDelivery { d_from : N; d_pending : Pending; d_to : N; d_sub_id : string; d_at : N }.

(** Sets a connection and the relay. *)
Definition put (c : N) (x : Conn) (r : Relay) (s : System) : System := mkSystem r (<[c := x]> (conns s)) (refused s).

(** The connection goes on to its next phase. *)
Definition after_frame (fl : Flow) (c : Conn) : Conn :=
  match fl with Continue => c | Break => with_phase Leaving c | Deliver e => with_phase (Delivering e) c end.

Definition do_frame (c now : N) (wall : Z) (f : option Message) (x : Conn) (s : System) : System :=
  let '(r, x, fl) := handle_frame now wall c f (relay s) x in put c (after_frame fl x) r s.

(** The subscriber a delivery goes to. *)
Definition recipient (p : string) (r : Relay) : option Sub :=
  match List.filter (fun s => String.eqb (p_value s) p) (subs r) with [sub] => Some sub | _ => None end.

Definition do_deliver (c now : N) (e : Pending) (s : System) : System * list Delivery :=
  let '(r, cs, res) := deliver_single now (pe_p e) (pe_event e) (relay s) (conns s) in
  let on (f : Conn -> Conn) := mkSystem r (alter f c cs) (refused s) in
  match res with
  | Ok true =>
      (on (fun x => with_phase Reading (send (Text (make_ok (pe_event_id e) true EmptyString)) x)),
       match recipient (pe_p e) (relay s) with Some sub => [mkDelivery c e (sub_conn_id sub) (sub_sub_id sub) now] | None => [] end)
  | Ok false => (on (with_phase (Undelivered e "delivery failed")), [])
  | Err reason => (on (with_phase (Undelivered e reason)), [])
  end.

Definition do_unreserve (c : N) (e : Pending) (reason : string) (x : Conn) (s : System) : System :=
  put c (with_phase Reading (send (Text (make_ok (pe_event_id e) false reason)) x)) (unreserve_id (pe_id e) (relay s)) s.

(** A step of a task that is where the step needs it; any other step does
    nothing. *)
Definition exec (o : Op) (s : System) : System * list Delivery :=
  let at_conn (c : N) (k : Conn -> System * list Delivery) :=
    match conns s !! c with Some x => k x | None => (s, []) end in
  match o with
  | OpRequest q =>
      match http_service q (relay s) with
      | (r, BadRequest) => (mkSystem r (conns s) (refused s), [])
      | (r, Refusing) => (mkSystem r (conns s) (refused s + 1), [])
      | (r, Switching c) => (mkSystem r (<[c := upgrading]> (conns s)) (refused s), [])
      end
  | OpRefused => if (0 <? refused s)%N then (mkSystem (release_slot (relay s)) (conns s) (refused s - 1), []) else (s, [])
  | OpUpgraded c now => at_conn c (fun x => match phase x with Upgrading => (put c (connected now) (relay s) s, []) | _ => (s, []) end)
  | OpUpgradeFailed c =>
      at_conn c (fun x => match phase x with
                          | Upgrading => (mkSystem (release_slot (relay s)) (delete c (conns s)) (refused s), [])
                          | _ => (s, [])
                          end)
  | OpFrame c now wall f => at_conn c (fun x => match phase x with Reading => (do_frame c now wall f x s, []) | _ => (s, []) end)
  | OpDeliver c now => at_conn c (fun x => match phase x with Delivering e => do_deliver c now e s | _ => (s, []) end)
  | OpUnreserve c _ => at_conn c (fun x => match phase x with Undelivered e reason => (do_unreserve c e reason x s, []) | _ => (s, []) end)
  | OpEnd c => at_conn c (fun x => match phase x with Reading => (put c (with_phase Leaving x) (relay s) s, []) | _ => (s, []) end)
  | OpClose c =>
      at_conn c (fun x => match phase x with
                          | Leaving => (put c (with_phase Closed (send Close x)) (remove_sub c (relay s)) s, [])
                          | _ => (s, [])
                          end)
  | OpDrop c =>
      at_conn c (fun x => match phase x with
                          | Closed => (mkSystem (release_slot (remove_sub c (relay s))) (delete c (conns s)) (refused s), [])
                          | _ => (s, [])
                          end)
  | OpWrite c =>
      at_conn c (fun x => match out_queue x, phase x with
                          | _ :: q, (Reading | Delivering _ | Undelivered _ _ | Leaving | Closed) =>
                              if writer x then (put c (with_queue q x) (relay s) s, []) else (s, [])
                          | _, _ => (s, [])
                          end)
  | OpWriterGone c =>
      at_conn c (fun x => (put c (mkConn (phase x) (msg_rate x) (event_rate x) (sub_id x) (events_attempted x) (out_queue x) false)
                             (relay s) s, []))
  end.

(** A run: the state and the deliveries, oldest first. *)
Fixpoint run (ops : list Op) (s : System) : System * list Delivery :=
  match ops with
  | [] => (s, [])
  | o :: ops => let '(s, d) := exec o s in let '(s, ds) := run ops s in (s, d ++ ds)
  end.
End pair_relay.
