(* ===== verification/PairRelayTheory.v ===== *)
(** * What the pairing relay guarantees

    [effect] lists what a frame can do to the shared state; [Inv] is the
    invariant of the system with its deliveries so far, one Section per part:
    slots, subscriptions, reservations, budgets and attempts.  A reservation
    belongs to a connection that is delivering or to a past delivery. *)

From S2P Require Import Prelude Text Nostr Demo Json PairRelay.

(** The event a connection is delivering. *)
Definition pending (x : Conn) : option Pending :=
  match phase x with Delivering e | Undelivered e _ => Some e | _ => None end.

Definition queue_ok (x : Conn) : Prop := length (out_queue x) <= CHANNEL_CAP.

(** What sending and ticking leave alone. *)
Definition same (x x' : Conn) : Prop :=
  phase x' = phase x /\ sub_id x' = sub_id x /\ events_attempted x' = events_attempted x /\ writer x' = writer x /\ (queue_ok x -> queue_ok x').

#[export] Instance same_preorder : PreOrder same.
Proof. split; [by intros x|]. intros x y z (? & ? & ? & ? & ?) (? & ? & ? & ? & ?). split_and!; (congruence || eauto). Qed.

Lemma try_send_same m x x' : try_send m x = Some x' -> same x x' /\ out_queue x' = out_queue x ++ [m].
Proof.
  unfold try_send. destruct (writer x && _) eqn:E; [|done]. intros [= <-]. split; [|done]. split_and!; try done.
  intros _. unfold queue_ok. cbn. rewrite length_app. apply andb_true_iff in E as [_ E%Nat.ltb_lt]. cbn. lia.
Qed.

Lemma send_same m x : same x (send m x).
Proof. unfold send. destruct (try_send m x) as [x'|] eqn:E; [by apply try_send_same in E as [? _]|reflexivity]. Qed.

Section effects.
Context `{JL : JsonLib, PL : PairLib}.

(** An event that passed every check. *)
Definition genuine (e : Pending) : Prop :=
  exists wall, validate_event wall (pe_event e) = Ok (pe_event_id e, pe_id e, pe_p e) /\ verify_event_sig (pe_event e) = Ok tt.

(** The connection after an attempt. *)
Definition attempted (x x' : Conn) : Prop :=
  phase x' = phase x /\ sub_id x' = sub_id x /\ events_attempted x' = (events_attempted x + 1)%N /\ writer x' = writer x /\
  (events_attempted x < MAX_EVENTS_PER_CONN)%N /\ (queue_ok x -> queue_ok x').

(** What a frame of connection [c] can do. *)
Inductive effect (c now : N) (r : Relay) (x : Conn) : Relay -> Conn -> Flow -> Prop :=
| effect_local x' fl : same x x' -> fl = Continue \/ fl = Break -> effect c now r x r x' fl
| effect_sub x0 x' sid p :
    same x x0 -> sub_id x = None -> p ∉ (p_value <$> subs r) -> x' = set_sub_id (Some sid) x0 ->
    effect c now r x (with_sub r (mkSub c sid p)) x' Continue
| effect_unsub x0 x' : same x x0 -> x' = set_sub_id None x0 -> effect c now r x (remove_sub c r) x' Continue
| effect_refuse x' id r' res : attempted x x' -> reserve_id now id r = (r', res) -> res <> New -> effect c now r x r' x' Continue
| effect_reserve x' e r' :
    attempted x x' -> reserve_id now (pe_id e) r = (r', New) -> pe_reserved e = now -> genuine e -> effect c now r x r' x' (Deliver e).

Lemma answer_effect c now text r x x0 r' x' fl : same x x0 -> answer text r x0 = (r', x', fl) -> effect c now r x r' x' fl.
Proof. intros Hs [= <- <- <-]. apply effect_local; [|by left]. etransitivity; [done|apply send_same]. Qed.

Lemma handle_req_effect c now arr r x x0 r' x' fl :
  same x x0 -> handle_req c arr r x0 = (r', x', fl) -> effect c now r x r' x' fl.
Proof.
  intros Hs. unfold handle_req. destruct arr as [|v1 [|[]  [|f more]]]; try (by apply answer_effect).
  destruct (_ <? _)%nat; [by apply answer_effect|]. destruct (negb (bool_decide _)); [by apply answer_effect|].
  destruct (negb (is_object f)); [by apply answer_effect|]. destruct (sub_id x0) eqn:Esub; [by apply answer_effect|].
  destruct (validate_filter f) as [p|e]; [|by apply answer_effect]. destruct (existsb _ _) eqn:Ep; [by apply answer_effect|].
  destruct (try_send _ x0) as [x1|] eqn:Et; intros [= <- <- <-].
  - apply try_send_same in Et as [Hs1 _]. eapply effect_sub; [by etransitivity| | |reflexivity].
    + destruct Hs as (_ & <- & _). done.
    + intros Hin. apply not_true_iff_false in Ep. apply Ep, existsb_exists. apply list_elem_of_fmap in Hin as (s0 & -> & Hin).
      exists s0. split; [by apply list_elem_of_In|apply String.eqb_refl].
  - apply effect_local; [done|by right].
Qed.

Lemma handle_event_effect c now wall arr r x x0 r' x' fl :
  same x x0 -> handle_event now wall arr r x0 = (r', x', fl) -> effect c now r x r' x' fl.
Proof.
  intros Hs. unfold handle_event. destruct arr as [|v1 [|ev [|? ?]]]; try (by apply answer_effect).
  assert (same x (with_event_rate (tick now (event_rate x0)) x0)) as Hs1 by (etransitivity; [done|by split_and!]).
  revert Hs1. generalize (with_event_rate (tick now (event_rate x0)) x0). intros x1 Hs1.
  destruct (_ <? _)%N; [by apply answer_effect|]. destruct (N.leb_spec MAX_EVENTS_PER_CONN (events_attempted x1)) as [|Hlt]; [by apply answer_effect|].
  destruct (negb _); [by apply answer_effect|]. destruct (validate_event wall ev) as [[[eid idb] p]|e] eqn:Ev; [|by apply answer_effect].
  destruct (verify_event_sig ev) as [[]|e] eqn:Es; [|by apply answer_effect]. destruct Hs1 as (H1 & H2 & H3 & H4 & H5).
  destruct (reserve_id now idb r) as [r1 []] eqn:Er; intros [= <- <- <-].
  - eapply effect_refuse; [|done..]. destruct (send_same (Text (make_ok eid false "duplicate: already seen")) (count_attempt x1)) as (G1 & G2 & G3 & G4 & G5).
    split_and!; cbn in *; try congruence; eauto.
  - eapply effect_refuse; [|done..]. destruct (send_same (Text (make_ok eid false "relay at capacity")) (count_attempt x1)) as (G1 & G2 & G3 & G4 & G5).
    split_and!; cbn in *; try congruence; eauto.
  - apply effect_reserve; [|done|done|by exists wall]. split_and!; cbn in *; try congruence; eauto.
Qed.

Lemma handle_close_effect c now arr r x x0 r' x' fl :
  same x x0 -> handle_close c arr r x0 = (r', x', fl) -> effect c now r x r' x' fl.
Proof.
  intros Hs. unfold handle_close. destruct arr as [|v1 [|[] [|? ?]]]; try (by apply answer_effect).
  case_bool_decide; intros [= <- <- <-]; [by eapply effect_unsub|]. apply effect_local; [done|by left].
Qed.

Lemma handle_frame_effect now wall c f r x r' x' fl : handle_frame now wall c f r x = (r', x', fl) -> effect c now r x r' x' fl.
Proof.
  unfold handle_frame. set (x0 := mkConn _ _ _ _ _ _ _). assert (same x x0) as Hs by (by split_and!). clearbody x0.
  destruct (_ <? _)%N; [intros [= <- <- <-]; apply effect_local; [done|by right]|].
  destruct f as [[text| |data| |]|].
  - unfold handle_text. destruct (from_str text) as [[| | | |[|v rest]|]|]; try (by apply answer_effect).
    destruct (as_str v) as [verb|]; [|by apply answer_effect]. destruct (String.eqb _ _); [by apply handle_req_effect|].
    destruct (String.eqb _ _); [by apply handle_event_effect|]. destruct (String.eqb _ _); [by apply handle_close_effect|by apply answer_effect].
  - intros [= <- <- <-]. apply effect_local; [done|by right].
  - destruct (try_send (Pong data) x0) as [x1|] eqn:Et; intros [= <- <- <-]; apply effect_local; [|by left|done|by right].
    apply try_send_same in Et as [? _]. by etransitivity.
  - intros [= <- <- <-]. apply effect_local; [done|by left].
  - intros [= <- <- <-]. apply effect_local; [|by right]. etransitivity; [done|apply send_same].
  - intros [= <- <- <-]. apply effect_local; [done|by right].
Qed.
End effects.

(** ** Transitions *)

Section transitions.
Context `{JL : JsonLib, PL : PairLib}.

(** The same connections, with [c] in phase [ph]. *)
Definition alike (c : N) (ph : Phase) (m m' : gmap N Conn) : Prop :=
  forall k, match m !! k, m' !! k with
  | Some x, Some x' =>
      sub_id x' = sub_id x /\ events_attempted x' = events_attempted x /\ (queue_ok x -> queue_ok x') /\
      phase x' = (if decide (k = c) then ph else phase x)
  | None, None => True
  | _, _ => False
  end.

Lemma alike_size c ph m m' : alike c ph m m' -> size m' = size m.
Proof.
  intros H. rewrite <-!size_dom. f_equal. apply set_eq. intros k. rewrite !elem_of_dom. specialize (H k).
  destruct (m !! k), (m' !! k); (done || (split; intros; (by eexists) || by destruct H as [? ?])).
Qed.

Lemma alike_back c ph m m' k x' :
  alike c ph m m' -> m' !! k = Some x' ->
  exists x, m !! k = Some x /\ sub_id x' = sub_id x /\ events_attempted x' = events_attempted x /\ (queue_ok x -> queue_ok x') /\
  phase x' = (if decide (k = c) then ph else phase x).
Proof. intros H E. specialize (H k). rewrite E in H. destruct (m !! k) as [x|]; [by exists x|done]. Qed.

Lemma alike_alter c f ph m :
  (forall x, m !! c = Some x -> same x (with_phase (phase x) (f x)) /\ phase (f x) = ph) -> alike c ph m (alter f c m).
Proof.
  intros Hf k. destruct (decide (k = c)) as [->|Hne].
  - rewrite lookup_alter_eq. destruct (m !! c) as [x|] eqn:E; cbn [fmap option_fmap option_map]; [|done].
    destruct (Hf x eq_refl) as ((_ & H1 & H2 & _ & H3) & H4). done.
  - rewrite lookup_alter_ne by done. by destruct (m !! k).
Qed.

(** The counts that are still young. *)
Definition young (now : N) (d : gmap string (N * N)) : gmap string (N * N) :=
  filter (fun x : string * (N * N) => (now - x.2.2 < ENTRY_TTL)%N) d.

Definition budget_of (p : string) (d : gmap string (N * N)) : N := match d !! p with Some (n, _) => n | None => 0%N end.

(** Room for one more message. *)
Definition room (x : Conn) : Prop := writer x = true /\ length (out_queue x) < CHANNEL_CAP.

Lemma try_send_room m x : room x <-> is_Some (try_send m x).
Proof.
  unfold room, try_send. destruct (writer x); cbn [andb]; [|split; [by intros [? ?]|by intros [? ?]]].
  destruct (Nat.ltb_spec (length (out_queue x)) CHANNEL_CAP); [split; [by eexists|done]|].
  split; [intros [_ ?]; lia|by intros [? ?]].
Qed.

(** What a delivery needs: its recipient subscribed, with room, and within the
    budgets. *)
Definition deliverable (now : N) (e : Pending) (s : System) : Prop :=
  exists sub y, sub ∈ subs (relay s) /\ p_value sub = pe_p e /\ conns s !! sub_conn_id sub = Some y /\ room y /\
  (budget_of (pe_p e) (young now (delivered (relay s))) < MAX_DELIVERED_PER_P)%N /\
  (size (young now (delivered (relay s))) < DELIVERED_MAP_CAP \/ is_Some (young now (delivered (relay s)) !! pe_p e)).

(** A delivery step, by its result. *)
Inductive delivery (s : System) (c now : N) (e : Pending) : System -> list Delivery -> Prop :=
| delivery_fails d reason :
    d = delivered (relay s) \/ d = young now (delivered (relay s)) ->
    delivery s c now e (mkSystem (with_delivered d (relay s)) (alter (with_phase (Undelivered e reason)) c (conns s)) (refused s)) []
| delivery_succeeds sub cs :
    sub ∈ subs (relay s) -> p_value sub = pe_p e ->
    (budget_of (pe_p e) (young now (delivered (relay s))) < MAX_DELIVERED_PER_P)%N ->
    (size (young now (delivered (relay s))) < DELIVERED_MAP_CAP \/ is_Some (young now (delivered (relay s)) !! pe_p e)) ->
    alike c Reading (conns s) cs -> deliverable now e s ->
    delivery s c now e
      (mkSystem (with_delivered (<[pe_p e := (budget_of (pe_p e) (young now (delivered (relay s))) + 1, now)%N]> (young now (delivered (relay s)))) (relay s))
         cs (refused s))
      [mkDelivery c e (sub_conn_id sub) (sub_sub_id sub) now].

Lemma with_delivered_self r : with_delivered (delivered r) r = r.
Proof. by destruct r. Qed.

Lemma alike_compose c ph1 ph2 m1 m2 m3 : alike c ph1 m1 m2 -> alike c ph2 m2 m3 -> alike c ph2 m1 m3.
Proof.
  intros H1 H2 k. specialize (H1 k). specialize (H2 k). destruct (m1 !! k), (m2 !! k), (m3 !! k); try done.
  destruct H1 as (? & ? & ? & ?), H2 as (? & ? & ? & ?). split_and!; try congruence; [eauto|].
  destruct (decide (k = c)); congruence.
Qed.

Lemma alike_insert m c x k y y' :
  m !! c = Some x -> m !! k = Some y -> same y y' -> alike c (phase x) m (<[k := y']> m).
Proof.
  intros Hc Hk (H1 & H2 & H3 & _ & H5) i. destruct (decide (i = k)) as [->|Hne].
  - rewrite lookup_insert_eq, Hk. split_and!; try done. rewrite H1. destruct (decide (k = c)) as [->|]; [congruence|done].
  - rewrite lookup_insert_ne by done. destruct (m !! i) as [z|] eqn:Ei; [|done]. split_and!; try done.
    destruct (decide (i = c)) as [->|]; [congruence|done].
Qed.

Lemma do_deliver_delivery s c x now e s' ds :
  conns s !! c = Some x -> do_deliver c now e s = (s', ds) -> delivery s c now e s' ds.
Proof.
  intros Hc. unfold do_deliver, deliver_single, recipient.
  destruct (List.filter _ (subs (relay s))) as [|sub [|sub2 rest]] eqn:Ef.
  - intros [= <- <-]. rewrite <-(with_delivered_self (relay s)) at 1. apply delivery_fails. by left.
  - fold (young now (delivered (relay s))). fold (budget_of (pe_p e) (young now (delivered (relay s)))).
    destruct (N.leb_spec MAX_DELIVERED_PER_P (budget_of (pe_p e) (young now (delivered (relay s))))) as [|Hb];
      [intros [= <- <-]; apply delivery_fails; by right|].
    destruct ((_ <=? _)%nat && _) eqn:Ecap; [intros [= <- <-]; apply delivery_fails; by right|].
    assert (sub ∈ subs (relay s) /\ p_value sub = pe_p e) as [Hin Hp].
    { assert (sub ∈ [sub]) as H by left. rewrite <-Ef in H. apply elem_of_filter_b in H as [H1 H2%String.eqb_eq]. done. }
    destruct (conns s !! sub_conn_id sub) as [y|] eqn:Ey; cbn [mbind option_bind];
      [|intros [= <- <-]; apply delivery_fails; by right].
    destruct (try_send _ y) as [y'|] eqn:Et; intros [= <- <-]; [|apply delivery_fails; by right].
    assert (room y) as Hroom by (eapply try_send_room; by eexists).
    assert (size (young now (delivered (relay s))) < DELIVERED_MAP_CAP \/ is_Some (young now (delivered (relay s)) !! pe_p e)) as Hcap.
    { apply andb_false_iff in Ecap as [?%Nat.leb_gt|Hn]; [by left|right]. apply bool_decide_eq_false in Hn. by apply not_eq_None_Some. }
    apply try_send_same in Et as [Hy _]. apply (delivery_succeeds s c now e sub); try done; [|by exists sub, y].
    eapply alike_compose; [by eapply alike_insert|]. apply alike_alter. intros z Hz. split; [|done].
      pose proof (send_same (Text (make_ok (pe_event_id e) true EmptyString)) z) as (? & ? & ? & ? & ?). by split_and!.
  - intros [= <- <-]. rewrite <-(with_delivered_self (relay s)) at 1. apply delivery_fails. by left.
Qed.

(** The connection and the clock of a step that reads it. *)
Definition op_at (o : Op) : option (N * N) :=
  match o with
  | OpUpgraded c now | OpFrame c now _ _ | OpDeliver c now | OpUnreserve c now => Some (c, now)
  | _ => None
  end.

(** The subscriptions of [c] may go. *)
Definition keeps_or_drops (c : N) (r r' : Relay) : Prop := r' = r \/ r' = remove_sub c r.

(** A step of one connection that delivers nothing: it keeps what it is
    delivering and what it counted, and without its subscription it is past the
    loop. *)
Definition quiet (c : N) (r r' : Relay) (x x' : Conn) : Prop :=
  keeps_or_drops c r r' /\ pending x' = pending x /\ (phase x' = Closed -> phase x = Closed \/ r' = remove_sub c r) /\
  (phase x' = Upgrading -> phase x = Upgrading) /\ (queue_ok x -> queue_ok x') /\
  ((phase x = Upgrading /\ sub_id x' = None /\ events_attempted x' = 0%N /\ phase x' <> Closed) \/
   (sub_id x' = sub_id x /\ events_attempted x' = events_attempted x)) /\
  ((exists e, phase x' = Delivering e) <-> (exists e, phase x = Delivering e)).

Inductive trans (s : System) : option (N * N) -> System -> list Delivery -> Prop :=
| trans_idle t : trans s t s []
| trans_refuse t : trans s t (mkSystem (with_conn_count (conn_count (relay s) + 1) (relay s)) (conns s) (refused s + 1)) []
| trans_open t :
    (conn_count (relay s) < MAX_CONNS)%N ->
    trans s t (mkSystem (mkRelay (subs (relay s)) (conn_count (relay s) + 1) (next_conn_id (relay s) + 1) (seen_ids (relay s)) (delivered (relay s)))
                 (<[next_conn_id (relay s) := upgrading]> (conns s)) (refused s)) []
| trans_release t : (0 < refused s)%N -> trans s t (mkSystem (release_slot (relay s)) (conns s) (refused s - 1)) []
| trans_gone t c x r' :
    conns s !! c = Some x -> pending x = None -> (r' = relay s /\ phase x = Upgrading) \/ r' = remove_sub c (relay s) ->
    trans s t (mkSystem (release_slot r') (delete c (conns s)) (refused s)) []
| trans_quiet t c x x' r' : conns s !! c = Some x -> quiet c (relay s) r' x x' -> trans s t (put c x' r' s) []
| trans_frame c x x' r' fl now :
    conns s !! c = Some x -> phase x = Reading -> effect c now (relay s) x r' x' fl ->
    trans s (Some (c, now)) (put c (after_frame fl x') r' s) []
| trans_deliver c x e now s' ds :
    conns s !! c = Some x -> phase x = Delivering e -> delivery s c now e s' ds -> trans s (Some (c, now)) s' ds
| trans_unreserve c x e reason now :
    conns s !! c = Some x -> phase x = Undelivered e reason -> trans s (Some (c, now)) (do_unreserve c e reason x s) [].

(** Closes a [quiet] goal about a connection whose phase is known. *)
Ltac quiet_step Hp :=
  split_and!; try done; unfold pending; cbn; rewrite ?Hp; try done; try (by intros; right); try (by left); try (by right);
  try (split; intros [? ?]; done).

Lemma exec_trans o s s' ds : exec o s = (s', ds) -> trans s (op_at o) s' ds.
Proof.
  destruct o as [q| |c now|c|c now wall f|c now|c now|c|c|c|c|c]; cbn [exec op_at].
  - unfold http_service. destruct (negb (is_ws q)); [intros [= <- <-]; destruct s; constructor|].
    destruct (N.leb_spec MAX_CONNS (conn_count (relay s))); intros [= <- <-]; [apply trans_refuse|by apply trans_open].
  - destruct (N.ltb_spec 0 (refused s)); intros [= <- <-]; [by apply trans_release|apply trans_idle].
  - destruct (conns s !! c) as [x|] eqn:Hc; [|intros [= <- <-]; apply trans_idle].
    destruct (phase x) eqn:Hp; intros [= <- <-]; try apply trans_idle. eapply trans_quiet; [done|]. quiet_step Hp.
    intros _. unfold queue_ok. cbn. lia.
  - destruct (conns s !! c) as [x|] eqn:Hc; [|intros [= <- <-]; apply trans_idle].
    destruct (phase x) eqn:Hp; intros [= <- <-]; try apply trans_idle. eapply trans_gone; [done|by unfold pending; rewrite Hp|by left].
  - destruct (conns s !! c) as [x|] eqn:Hc; [|intros [= <- <-]; apply trans_idle].
    destruct (phase x) eqn:Hp; try (intros [= <- <-]; apply trans_idle). unfold do_frame.
    destruct (handle_frame now wall c f (relay s) x) as [[r' x'] fl] eqn:Ef. intros [= <- <-].
    eapply trans_frame; [done|done|by eapply handle_frame_effect].
  - destruct (conns s !! c) as [x|] eqn:Hc; [|intros [= <- <-]; apply trans_idle].
    destruct (phase x) eqn:Hp; try (intros [= <- <-]; apply trans_idle). intros H. eapply trans_deliver; [done|done|by eapply do_deliver_delivery].
  - destruct (conns s !! c) as [x|] eqn:Hc; [|intros [= <- <-]; apply trans_idle].
    destruct (phase x) eqn:Hp; intros [= <- <-]; try apply trans_idle. by eapply trans_unreserve.
  - destruct (conns s !! c) as [x|] eqn:Hc; [|intros [= <- <-]; apply trans_idle].
    destruct (phase x) eqn:Hp; intros [= <- <-]; try apply trans_idle. eapply trans_quiet; [done|]. quiet_step Hp.
  - destruct (conns s !! c) as [x|] eqn:Hc; [|intros [= <- <-]; apply trans_idle].
    destruct (phase x) eqn:Hp; intros [= <- <-]; try apply trans_idle. eapply trans_quiet; [done|].
    destruct (send_same Close x) as (H1 & H2 & H3 & H4 & H5). quiet_step Hp.
  - destruct (conns s !! c) as [x|] eqn:Hc; [|intros [= <- <-]; apply trans_idle].
    destruct (phase x) eqn:Hp; intros [= <- <-]; try apply trans_idle. eapply trans_gone; [done|by unfold pending; rewrite Hp|by right].
  - destruct (conns s !! c) as [x|] eqn:Hc; [|intros [= <- <-]; apply trans_idle].
    destruct (out_queue x) as [|m q] eqn:Hq; [intros [= <- <-]; constructor|].
    destruct (phase x) eqn:Hp; try (intros [= <- <-]; apply trans_idle); (destruct (writer x); intros [= <- <-]; [|apply trans_idle]);
      (eapply trans_quiet; [done|]; quiet_step Hp; unfold queue_ok; rewrite Hq; cbn; try lia; intros; by left).
  - destruct (conns s !! c) as [x|] eqn:Hc; [|intros [= <- <-]; apply trans_idle].
    intros [= <- <-]. eapply trans_quiet; [done|]. quiet_step Hp; by left.
Qed.
End transitions.

(** ** Slots *)

Section slots.
Context `{JL : JsonLib, PL : PairLib}.

(** How many events a connection got delivered. *)
Definition sent (c : N) (log : list Delivery) : N := N.of_nat (length (List.filter (fun d => (d_from d =? c)%N) log)).

Lemma sent_app c log ds : sent c (log ++ ds) = (sent c log + sent c ds)%N.
Proof. unfold sent. rewrite List.filter_app, length_app. lia. Qed.

Lemma sent_one c d : sent c [d] = if (d_from d =? c)%N then 1%N else 0%N.
Proof. unfold sent. cbn. by destruct (_ =? _)%N. Qed.

Definition slots_ok (s : System) : Prop :=
  conn_count (relay s) = (N.of_nat (size (conns s)) + refused s)%N /\ (N.of_nat (size (conns s)) <= MAX_CONNS)%N /\
  forall c, (next_conn_id (relay s) <= c)%N -> conns s !! c = None.

Lemma reserve_counts now id r r' res :
  reserve_id now id r = (r', res) -> conn_count r' = conn_count r /\ next_conn_id r' = next_conn_id r /\ subs r' = subs r /\ delivered r' = delivered r.
Proof. unfold reserve_id. destruct (existsb _ _); [|destruct (_ <=? _)%nat]; by intros [= <- <-]. Qed.

Lemma effect_counts c now r x r' x' fl :
  effect c now r x r' x' fl -> conn_count r' = conn_count r /\ next_conn_id r' = next_conn_id r /\ delivered r' = delivered r.
Proof. destruct 1; try done; edestruct reserve_counts as (? & ? & ? & ?); eauto. Qed.

Lemma unreserve_counts id r :
  conn_count (unreserve_id id r) = conn_count r /\ next_conn_id (unreserve_id id r) = next_conn_id r /\
  subs (unreserve_id id r) = subs r /\ delivered (unreserve_id id r) = delivered r.
Proof. unfold unreserve_id. by destruct (position _ _). Qed.

(** A connection is replaced. *)
Lemma slots_put c x x' r' s :
  slots_ok s -> conns s !! c = Some x -> conn_count r' = conn_count (relay s) -> next_conn_id r' = next_conn_id (relay s) ->
  slots_ok (put c x' r' s).
Proof.
  intros (H1 & H2 & H3) Hc E1 E2. split_and!; cbn [put relay conns refused].
  - by rewrite map_size_insert_Some, E1 by (by eexists).
  - by rewrite map_size_insert_Some by (by eexists).
  - intros k Hk. rewrite E2 in Hk. rewrite lookup_insert_ne; [by apply H3|]. intros ->. rewrite H3 in Hc; done.
Qed.

Lemma slots_alike c ph s cs r' :
  slots_ok s -> alike c ph (conns s) cs -> conn_count r' = conn_count (relay s) -> next_conn_id r' = next_conn_id (relay s) ->
  slots_ok (mkSystem r' cs (refused s)).
Proof.
  intros (H1 & H2 & H3) Ha E1 E2. pose proof (alike_size _ _ _ _ Ha) as Es. split_and!; cbn [relay conns refused].
  - by rewrite E1, Es.
  - by rewrite Es.
  - intros k Hk. rewrite E2 in Hk. specialize (Ha k). rewrite H3 in Ha by done. by destruct (cs !! k).
Qed.

Lemma alike_phase c ph m : alike c ph m (alter (with_phase ph) c m).
Proof. apply alike_alter. intros x _. by split_and!. Qed.

Lemma slots_trans s t s' ds : slots_ok s -> trans s t s' ds -> slots_ok s'.
Proof.
  intros Hs Ht. pose proof Hs as (H1 & H2 & H3).
  destruct Ht as [t|t|t Hlt|t Hr|t c x r' Hc Hp Hr'|t c x x' r' Hc Hq|c x x' r' fl now Hc Hp He|c x e now s' ds Hc Hp Hd|c x e reason now Hc Hp].
  - done.
  - split_and!; cbn; try done. rewrite H1. lia.
  - assert (conns s !! next_conn_id (relay s) = None) as Hn by (apply H3; lia).
    split_and!; cbn [relay conns refused conn_count next_conn_id]; try rewrite map_size_insert_None by done; try lia.
    intros k Hk. rewrite lookup_insert_ne by lia. apply H3. lia.
  - split_and!; cbn; try done. rewrite H1. lia.
  - assert (conn_count r' = conn_count (relay s) /\ next_conn_id r' = next_conn_id (relay s)) as [E1 E2]
      by (destruct Hr' as [[-> _]| ->]; done).
    assert (size (conns s) <> 0) as Hne by (apply map_size_ne_0_lookup; exists c; by eexists).
    split_and!; cbn [relay conns refused release_slot with_conn_count conn_count next_conn_id].
    + rewrite E1, H1, map_size_delete_Some by (by eexists). lia.
    + rewrite map_size_delete_Some by (by eexists). lia.
    + rewrite E2. intros k Hk. apply lookup_delete_None. right. by apply H3.
  - destruct Hq as ([-> | ->] & _); by eapply slots_put.
  - apply effect_counts in He as (? & ? & _). by eapply slots_put.
  - destruct Hd as [d reason Hd|sub cs ? ? ? ? Ha _]; eapply slots_alike; try done. apply alike_phase.
  - destruct (unreserve_counts (pe_id e) (relay s)) as (? & ? & _). by eapply slots_put.
Qed.
End slots.

(** ** Attempts and queues *)

Section attempts.
Context `{JL : JsonLib, PL : PairLib}.

(** An event is on its way. *)
Definition busy (x : Conn) : N := match phase x with Delivering _ => 1%N | _ => 0%N end.

Definition conn_ok (c : N) (x : Conn) (log : list Delivery) : Prop :=
  queue_ok x /\ (phase x = Upgrading -> sub_id x = None /\ events_attempted x = 0%N) /\
  (sent c log + busy x <= events_attempted x <= MAX_EVENTS_PER_CONN)%N.

Definition attempts_ok (s : System) (log : list Delivery) : Prop :=
  (forall c x, conns s !! c = Some x -> conn_ok c x log) /\
  (forall c, (sent c log <= MAX_EVENTS_PER_CONN)%N) /\ (forall c, (next_conn_id (relay s) <= c)%N -> sent c log = 0%N).

Lemma attempts_put c x' r' s log :
  attempts_ok s log -> conn_ok c x' log -> next_conn_id r' = next_conn_id (relay s) -> attempts_ok (put c x' r' s) log.
Proof.
  intros (H1 & H2 & H3) Hx E. split_and!; cbn [put relay conns]; [|done|by rewrite E].
  intros k y [[<- <-]|[_ Hy]]%lookup_insert_Some; [done|by apply H1].
Qed.

Lemma busy_eq x x' : ((exists e, phase x' = Delivering e) <-> (exists e, phase x = Delivering e)) -> busy x' = busy x.
Proof.
  intros H. unfold busy. destruct (phase x') eqn:E', (phase x) eqn:E; try done; exfalso;
    first [destruct H as [H _]; by destruct H as [? ?]; [by eexists|] | destruct H as [_ H]; by destruct H as [? ?]; [by eexists|]].
Qed.

Lemma conn_ok_quiet c r r' x x' log : conn_ok c x log -> quiet c r r' x x' -> conn_ok c x' log.
Proof.
  intros (H1 & H2 & H3) (_ & _ & _ & Hu & Hq & Hx & Hb). apply busy_eq in Hb. split_and!; [by apply Hq| |..].
  - intros Hp. apply Hu in Hp. destruct Hx as [(_ & ? & ? & _)|[-> ->]]; [done|by apply H2].
  - rewrite Hb. destruct Hx as [(Hp & _ & -> & _)|[_ ->]]; [|lia]. apply H2 in Hp as [_ Hp]. lia.
  - destruct Hx as [(_ & _ & -> & _)|[_ ->]]; lia.
Qed.

Lemma conn_ok_effect c now r x r' x' fl log :
  conn_ok c x log -> phase x = Reading -> effect c now r x r' x' fl -> conn_ok c (after_frame fl x') log.
Proof.
  intros (H1 & H2 & H3) Hp He. unfold busy in H3. rewrite Hp in H3.
  destruct He as [x' fl (E1 & E2 & E3 & _ & E5) Hfl|x0 x' sid p (E1 & E2 & E3 & _ & E5) _ _ ->|x0 x' (E1 & E2 & E3 & _ & E5) ->
                 |x' id r' res (E1 & E2 & E3 & _ & E4 & E5) _ _|x' e r' (E1 & E2 & E3 & _ & E4 & E5) _ _ _].
  - destruct Hfl as [-> | ->]; (split_and!; [by apply E5|cbn; congruence|..]); unfold busy; cbn; rewrite ?E1, ?Hp; lia.
  - split_and!; [by apply E5|cbn; congruence|..]; unfold busy; cbn; rewrite ?E1, ?Hp; lia.
  - split_and!; [by apply E5|cbn; congruence|..]; unfold busy; cbn; rewrite ?E1, ?Hp; lia.
  - split_and!; [by apply E5|cbn; congruence|..]; unfold busy; cbn; rewrite ?E1, ?Hp; lia.
  - split_and!; [by apply E5|cbn; congruence|..]; unfold busy; cbn; rewrite ?E1, ?Hp; lia.
Qed.

Lemma attempts_delivery s c x now e s' ds log :
  attempts_ok s log -> (forall k, (next_conn_id (relay s) <= k)%N -> conns s !! k = None) ->
  conns s !! c = Some x -> phase x = Delivering e -> delivery s c now e s' ds -> attempts_ok s' (log ++ ds).
Proof.
  intros (H1 & H2 & H3) Hn Hc Hp Hd. destruct (H1 c x Hc) as (Hx1 & Hx2 & Hx3). unfold busy in Hx3. rewrite Hp in Hx3.
  destruct Hd as [d reason Hd|sub cs ? ? ? ? Ha _].
  - rewrite app_nil_r. split_and!; [|done|done]. intros k y' Hy. cbn [conns] in Hy.
    destruct (alike_back _ _ _ _ _ _ (alike_phase c (Undelivered e reason) (conns s)) Hy) as (y & Hk & E1 & E2 & E3 & E4).
    destruct (H1 k y Hk) as (G1 & G2 & G3). destruct (decide (k = c)) as [->|Hne].
    + split_and!; [by apply E3|by rewrite E4|..]; unfold busy; rewrite ?E4, E2; lia.
    + split_and!; [by apply E3|by rewrite E4, E1, E2|..]; unfold busy in *; rewrite ?E4, E2; lia.
  - split_and!.
    + intros k y' Hy. cbn [conns] in Hy. destruct (alike_back _ _ _ _ _ _ Ha Hy) as (y & Hk & E1 & E2 & E3 & E4).
      destruct (H1 k y Hk) as (G1 & G2 & G3). unfold conn_ok. rewrite sent_app, sent_one. cbn [d_from].
      destruct (decide (k = c)) as [->|Hne].
      * rewrite Hk in Hc. injection Hc as ->. rewrite N.eqb_refl. split_and!; [by apply E3|by rewrite E4|..]; unfold busy; rewrite ?E4, E2; lia.
      * destruct (N.eqb_spec c k) as [->|_]; [done|].
        split_and!; [by apply E3|by rewrite E4, E1, E2|..]; unfold busy in *; rewrite ?E4, E2; lia.
    + intros k. rewrite sent_app, sent_one. cbn [d_from]. destruct (N.eqb_spec c k) as [<-|_]; [lia|]. specialize (H2 k). lia.
    + intros k Hk. cbn in Hk. rewrite sent_app, sent_one, H3 by done. cbn [d_from]. destruct (N.eqb_spec c k) as [<-|_]; [|done].
      rewrite Hn in Hc; done.
Qed.

Lemma attempts_trans s t s' ds log : slots_ok s -> attempts_ok s log -> trans s t s' ds -> attempts_ok s' (log ++ ds).
Proof.
  intros (_ & _ & Hn) Ha Ht. pose proof Ha as (H1 & H2 & H3).
  destruct Ht as [t|t|t Hlt|t Hr|t c x r' Hc Hp Hr'|t c x x' r' Hc Hq|c x x' r' fl now Hc Hp He|c x e now s' ds Hc Hp Hd|c x e reason now Hc Hp];
    try rewrite app_nil_r; try done.
  - split_and!; [|done|intros k Hk; cbn in Hk; apply H3; lia]. intros k y Hy. cbn [conns] in Hy.
    apply lookup_insert_Some in Hy as [[<- <-]|[_ Hy]]; [|by apply H1].
    split_and!; try done; [unfold queue_ok; cbn; lia|]. rewrite H3 by lia. done.
  - split_and!; [|done|]; [intros k y Hy; cbn [conns] in Hy; apply lookup_delete_Some in Hy as [_ Hy]; by apply H1|]. cbn. by destruct Hr' as [[-> _]| ->].
  - apply attempts_put; [done|by eapply conn_ok_quiet; [apply H1|]|]. by destruct Hq as ([-> | ->] & _).
  - apply attempts_put; [done|by eapply conn_ok_effect; [apply H1|..]|]. by apply effect_counts in He as (_ & ? & _).
  - by eapply attempts_delivery.
  - destruct (unreserve_counts (pe_id e) (relay s)) as (_ & E & _). apply attempts_put; [done| |done].
    destruct (H1 c x Hc) as (G1 & G2 & G3). destruct (send_same (Text (make_ok (pe_event_id e) false reason)) x) as (E1 & E2 & E3 & _ & E5).
    unfold busy in G3. rewrite Hp in G3. split_and!; [by apply E5|done|..]; unfold busy; cbn; rewrite ?E3; lia.
Qed.
End attempts.

(** ** Subscriptions *)

Section subscriptions.
Context `{JL : JsonLib, PL : PairLib}.

Definition subs_ok (r : Relay) (cs : gmap N Conn) : Prop :=
  NoDup (p_value <$> subs r) /\ NoDup (sub_conn_id <$> subs r) /\
  forall sub, sub ∈ subs r -> exists x, cs !! sub_conn_id sub = Some x /\ sub_id x = Some (sub_sub_id sub) /\ phase x <> Closed.

(** Fewer subscriptions, each still backed. *)
Lemma subs_mono r r' cs cs' :
  subs_ok r cs -> sublist (subs r') (subs r) ->
  (forall sub x, sub ∈ subs r' -> cs !! sub_conn_id sub = Some x -> sub_id x = Some (sub_sub_id sub) -> phase x <> Closed ->
     exists x', cs' !! sub_conn_id sub = Some x' /\ sub_id x' = sub_id x /\ phase x' <> Closed) ->
  subs_ok r' cs'.
Proof.
  intros (H1 & H2 & H3) Hsub Hx. split_and!; [by eapply NoDup_fmap_sublist|by eapply NoDup_fmap_sublist|].
  intros sub Hin. destruct (H3 sub) as (x & E1 & E2 & E3); [by eapply elem_of_sublist|].
  destruct (Hx sub x Hin E1 E2 E3) as (x' & G1 & G2 & G3). exists x'. by rewrite G2.
Qed.

Lemma remove_sub_sublist c r : sublist (subs (remove_sub c r)) (subs r).
Proof. apply filter_sublist. Qed.

Lemma remove_sub_other c r sub : sub ∈ subs (remove_sub c r) -> sub_conn_id sub <> c.
Proof. cbn. intros [_ H]%elem_of_filter_b. by apply negb_true_iff, N.eqb_neq in H. Qed.

(** The connection of a subscription is replaced by one like it. *)
Lemma subs_replace r r' cs c x x' :
  subs_ok r cs -> cs !! c = Some x -> subs r' = subs r -> sub_id x' = sub_id x -> (phase x <> Closed -> phase x' <> Closed) ->
  subs_ok r' (<[c := x']> cs).
Proof.
  intros Hs Hc Es E1 E2. eapply subs_mono; [done|by rewrite Es|]. intros sub y Hin G1 G2 G3.
  destruct (decide (sub_conn_id sub = c)) as [<-|Hne]; [|by exists y; rewrite lookup_insert_ne].
  rewrite lookup_insert_eq. exists x'. rewrite Hc in G1. injection G1 as ->. by split_and!; [..|apply E2].
Qed.

Lemma subs_alike r r' cs c ph cs' : subs_ok r cs -> alike c ph cs cs' -> ph <> Closed -> subs r' = subs r -> subs_ok r' cs'.
Proof.
  intros Hs Ha Hph Es. eapply subs_mono; [done|by rewrite Es|]. intros sub y _ E1 E2 E3. specialize (Ha (sub_conn_id sub)). rewrite E1 in Ha.
  destruct (cs' !! _) as [y'|]; [|done]. destruct Ha as (G1 & _ & _ & G4). exists y'. split_and!; [done..|]. rewrite G4. by destruct (decide _).
Qed.

Lemma subs_gone r r' cs c x :
  subs_ok r cs -> cs !! c = Some x -> (r' = r /\ sub_id x = None) \/ r' = remove_sub c r -> subs_ok r' (delete c cs).
Proof.
  intros Hs Hc Hr. eapply subs_mono; [done|destruct Hr as [[-> _]| ->]; [reflexivity|apply remove_sub_sublist]|].
  intros sub y Hin E1 E2 E3. exists y. rewrite lookup_delete_ne; [done|]. intros ->.
  destruct Hr as [[-> Hu]| ->]; [congruence|by eapply remove_sub_other].
Qed.

(** Without the subscriptions of [c], it may be anything. *)
Lemma subs_dropped r cs c x' : subs_ok r cs -> subs_ok (remove_sub c r) (<[c := x']> cs).
Proof.
  intros Hs. eapply subs_mono; [done|apply remove_sub_sublist|]. intros sub y Hin G1 G2 G3. exists y.
  rewrite lookup_insert_ne; [done|]. apply not_eq_sym. by eapply remove_sub_other.
Qed.

Lemma subs_added r cs c x x' sid p :
  subs_ok r cs -> cs !! c = Some x -> sub_id x = None -> p ∉ (p_value <$> subs r) -> sub_id x' = Some sid -> phase x' <> Closed ->
  subs_ok (with_sub r (mkSub c sid p)) (<[c := x']> cs).
Proof.
  intros (H1 & H2 & H3) Hc Hnone Hfresh E1 E2. assert (forall sub, sub ∈ subs r -> sub_conn_id sub <> c) as Hno.
  { intros sub Hin <-. destruct (H3 sub Hin) as (y & G1 & G2 & _). congruence. }
  split_and!; cbn [with_sub subs]; rewrite ?fmap_app.
  - apply NoDup_app. split_and!; [done| |apply NoDup_singleton]. intros q Hq. cbn. by intros ->%list_elem_of_singleton.
  - apply NoDup_app. split_and!; [done| |apply NoDup_singleton]. intros q (sub & -> & Hin)%list_elem_of_fmap. cbn.
    intros Heq%list_elem_of_singleton. by eapply Hno.
  - intros sub [Hin|Hin]%elem_of_app.
    + rewrite lookup_insert_ne by (apply not_eq_sym; by apply Hno). by apply H3.
    + apply list_elem_of_singleton in Hin as ->. cbn. rewrite lookup_insert_eq. by exists x'.
Qed.

Lemma subs_effect c now r cs x r' x' fl :
  subs_ok r cs -> cs !! c = Some x -> phase x = Reading -> effect c now r x r' x' fl -> subs_ok r' (<[c := after_frame fl x']> cs).
Proof.
  intros Hs Hc Hp He. destruct He as [x' fl (E1 & E2 & _) Hfl|x0 x' sid p (E1 & E2 & _) Hnone Hfresh ->|x0 x' (E1 & E2 & _) ->
                 |x' id r' res (E1 & E2 & _) Hr _|x' e r' (E1 & E2 & _) Hr _ _].
  - eapply subs_replace; [done..| |]; destruct Hfl as [-> | ->]; cbn; congruence.
  - eapply subs_added; try done. cbn. congruence.
  - by apply subs_dropped.
  - apply reserve_counts in Hr as (_ & _ & Es & _). eapply subs_replace; [done..|]. cbn. congruence.
  - apply reserve_counts in Hr as (_ & _ & Es & _). eapply subs_replace; [done..|]. cbn. congruence.
Qed.

Lemma subs_trans s t s' ds log :
  slots_ok s -> attempts_ok s log -> subs_ok (relay s) (conns s) -> trans s t s' ds -> subs_ok (relay s') (conns s').
Proof.
  intros (_ & _ & Hn) (Hc0 & _) Hs Ht.
  assert (forall c x, conns s !! c = Some x -> phase x = Upgrading -> sub_id x = None) as Hup
    by (intros c x Hc Hu; destruct (Hc0 _ _ Hc) as (_ & G & _); by apply G).
  destruct Ht as [t|t|t Hlt|t Hr|t c x r' Hc Hp Hr'|t c x x' r' Hc Hq|c x x' r' fl now Hc Hp He|c x e now s' ds Hc Hp Hd|c x e reason now Hc Hp];
    try done.
  - eapply subs_mono; [done|reflexivity|]. intros sub x _ E1 E2 E3. exists x. cbn [conns]. rewrite lookup_insert_ne; [done|].
    intros E. rewrite Hn in E1; [done|lia].
  - cbn [relay conns]. assert (subs_ok r' (delete c (conns s))) as H; [|done].
    eapply subs_gone; [done..|]. destruct Hr' as [[-> Hu]| ->]; [left; eauto|by right].
  - destruct Hq as (Hr & _ & Hcl & _ & _ & Hx & _). cbn [put relay conns].
    assert (r' = remove_sub c (relay s) \/ r' = relay s /\ (phase x <> Closed -> phase x' <> Closed)) as [-> |[-> Hph]].
    { destruct Hr as [Hr|Hr]; [|by left]. destruct (phase x') eqn:Ex; try (right; by split). destruct (Hcl eq_refl); [by right|by left]. }
    + by apply subs_dropped.
    + eapply subs_replace; [done..| |done]. destruct Hx as [(Hu & -> & _)|[Hx _]]; [symmetry; eauto|done].
  - by eapply subs_effect.
  - destruct Hd as [d reason Hd|sub cs ? ? ? ? Ha _]; [eapply subs_alike; [done|apply alike_phase|done|done]|eapply subs_alike; [done|exact Ha|done|done]].
  - destruct (unreserve_counts (pe_id e) (relay s)) as (_ & _ & Es & _). eapply subs_replace; [done..| |done]. cbn.
    by destruct (send_same (Text (make_ok (pe_event_id e) false reason)) x) as (_ & E2 & _).
Qed.
End subscriptions.

(** ** Reservations *)

(** The last entry of a list takes the place of a removed one. *)
Lemma swap_remove_perm {A} i (l : list A) x : l !! i = Some x -> x :: swap_remove i l ≡ₚ l.
Proof.
  intros Hi. unfold swap_remove. destruct (last l) as [y|] eqn:El; [|by apply last_None in El as ->].
  apply last_Some in El as [l0 ->]. rewrite length_app in *. cbn [length]. replace (length l0 + 1 - 1) with (length l0) by lia.
  destruct (Nat.eqb_spec (S i) (length l0 + 1)) as [E|E].
  - assert (i = length l0) as -> by lia. rewrite take_app_length. rewrite list_lookup_middle in Hi by done. injection Hi as ->.
    apply Permutation_cons_append.
  - rewrite take_app_length. apply lookup_app_Some in Hi as [Hi|[Hi1 Hi2]].
    + rewrite <-(Permutation_cons_append l0 y), insert_take_drop by (by eapply lookup_lt_Some).
      transitivity (y :: take i l0 ++ x :: drop (S i) l0); [rewrite <-!Permutation_middle; apply Permutation_swap|].
      by rewrite take_drop_middle.
    + apply lookup_lt_Some in Hi2. cbn in Hi2. lia.
Qed.

Section reservations.
Context `{JL : JsonLib, PL : PairLib}.

(** A reservation belongs to a connection or to a past delivery. *)
Definition owner : Type := N + nat.

Definition reservation (s : System) (log : list Delivery) (o : owner) : option (string * N) :=
  match o with
  | inl c => x ← conns s !! c; e ← pending x; Some (pe_id e, pe_reserved e)
  | inr i => d ← log !! i; Some (pe_id (d_pending d), pe_reserved (d_pending d))
  end.

(** At least the lifetime of an entry apart. *)
Definition apart (r r' : N) : Prop := (ENTRY_TTL <= r - r' \/ ENTRY_TTL <= r' - r)%N.

Lemma ttl_pos : (0 < ENTRY_TTL)%N.
Proof. done. Qed.

(** At time [t]: the entries are distinct and few, a reservation that is not
    too old has its entry, and two reservations of one id are apart. *)
Definition seen_ok (t : N) (s : System) (log : list Delivery) : Prop :=
  NoDup (seen_ids (relay s)).*1 /\ length (seen_ids (relay s)) <= DEDUP_CAP /\
  (forall o id r, reservation s log o = Some (id, r) -> (r <= t)%N /\ ((t - r < ENTRY_TTL)%N -> (id, r) ∈ seen_ids (relay s))) /\
  (forall o o' id r r', o <> o' -> reservation s log o = Some (id, r) -> reservation s log o' = Some (id, r') -> apart r r').

(** The reservations are among those before, each under one owner. *)
Lemma seen_embed t t' s log s' log' (f : owner -> owner) :
  seen_ok t s log -> (t <= t')%N -> seen_ids (relay s') = seen_ids (relay s) ->
  (forall o v, reservation s' log' o = Some v -> reservation s log (f o) = Some v) ->
  (forall o o', is_Some (reservation s' log' o) -> is_Some (reservation s' log' o') -> f o = f o' -> o = o') ->
  seen_ok t' s' log'.
Proof.
  intros (H1 & H2 & H3 & H4) Ht Es Hf Hinj. unfold seen_ok. rewrite Es. split_and!; [done|done| |].
  - intros o id r Ho. apply Hf, H3 in Ho as [Hr Hin]. split; [lia|]. intros Hlt. apply Hin. lia.
  - intros o o' id r r' Hne Ho Ho'. eapply H4; [|by apply Hf|by apply Hf]. intros E. apply Hne, Hinj; [by eexists..|done].
Qed.

(** Nothing is reserved or given up. *)
Lemma seen_same t t' s log s' :
  seen_ok t s log -> (t <= t')%N -> seen_ids (relay s') = seen_ids (relay s) ->
  (forall c x' e, conns s' !! c = Some x' -> pending x' = Some e -> exists x, conns s !! c = Some x /\ pending x = Some e) ->
  seen_ok t' s' log.
Proof.
  intros Hs Ht Es Hp. eapply (seen_embed t t' s log s' log (fun o => o)); [done|done|done| |by intros].
  intros [c|i] v; cbn; [|done]. destruct (conns s' !! c) as [x'|] eqn:Ex; [|done]. cbn. destruct (pending x') as [e|] eqn:Ee; [|done].
  intros [= <-]. destruct (Hp c x' e Ex Ee) as (x & E1 & E2). rewrite E1. cbn. by rewrite E2.
Qed.

Lemma seen_put t t' c x x' r' s log :
  seen_ok t s log -> (t <= t')%N -> conns s !! c = Some x -> seen_ids r' = seen_ids (relay s) -> pending x' = pending x \/ pending x' = None ->
  seen_ok t' (put c x' r' s) log.
Proof.
  intros Hs Ht Hc Es Hp. eapply seen_same; [done|done|done|]. intros k y e Hy He.
  cbn [put conns] in Hy. apply lookup_insert_Some in Hy as [[<- <-]|[_ Hy]]; [|by exists y]. exists x. split; [done|]. destruct Hp; congruence.
Qed.

(** What [reserve_id] keeps: the entries that are young enough. *)
Lemma reserve_keeps now id r r' res :
  reserve_id now id r = (r', res) ->
  sublist (List.filter (fresh_entry now) (seen_ids r)) (seen_ids r') /\
  (res <> New -> seen_ids r' = List.filter (fresh_entry now) (seen_ids r)) /\
  (res = New -> (seen_ids r' = List.filter (fresh_entry now) (seen_ids r) ++ [(id, now)]) /\
     (id ∉ (List.filter (fresh_entry now) (seen_ids r)).*1) /\ length (List.filter (fresh_entry now) (seen_ids r)) < DEDUP_CAP).
Proof.
  unfold reserve_id. destruct (existsb _ _) eqn:E; [intros [= <- <-]; by split_and!|].
  destruct (Nat.leb_spec DEDUP_CAP (length (List.filter (fresh_entry now) (seen_ids r)))); intros [= <- <-]; [by split_and!|].
  split_and!; [by apply sublist_inserts_r|done|]. intros _. split_and!; [done| |done].
  intros Hin. apply not_true_iff_false in E. apply E, existsb_exists. apply list_elem_of_fmap in Hin as (y & -> & Hin).
  exists y. split; [by apply list_elem_of_In|apply String.eqb_refl].
Qed.

Lemma fresh_entry_in now id r l : (id, r) ∈ l -> (now - r < ENTRY_TTL)%N -> (id, r) ∈ List.filter (fresh_entry now) l.
Proof. intros Hin Hlt. apply elem_of_filter_b. split; [done|]. by apply N.ltb_lt. Qed.

Lemma put_reservation c x' r' s log o v :
  reservation (put c x' r' s) log o = Some v ->
  (o = inl c /\ exists e, pending x' = Some e /\ v = (pe_id e, pe_reserved e)) \/ (o <> inl c /\ reservation s log o = Some v).
Proof.
  destruct o as [k|i]; cbn [reservation put conns]; [|by right]. destruct (decide (c = k)) as [<-|Hne].
  - rewrite lookup_insert_eq. cbn. destruct (pending x') as [e|]; [|done]. intros [= <-]. left. split; [done|by exists e].
  - rewrite lookup_insert_ne by done. intros H. right. split; [congruence|done].
Qed.

(** The entries that are too old go. *)
Lemma seen_evict t now r' s log :
  seen_ok t s log -> (t <= now)%N -> seen_ids r' = List.filter (fresh_entry now) (seen_ids (relay s)) ->
  seen_ok now (mkSystem r' (conns s) (refused s)) log.
Proof.
  intros (H1 & H2 & H3 & H4) Ht Es. unfold seen_ok. cbn [relay]. rewrite Es. split_and!.
  - eapply NoDup_fmap_sublist; [apply filter_sublist|done].
  - etransitivity; [|done]. by apply sublist_length, filter_sublist.
  - intros o id r Ho. destruct (H3 o id r Ho) as [Hr Hin]. split; [lia|]. intros Hlt. apply fresh_entry_in; [apply Hin; lia|done].
  - exact H4.
Qed.

(** A new id gets its entry, under a connection that delivers nothing yet. *)
Lemma seen_new now c x x' e r' s log :
  seen_ok now s log -> conns s !! c = Some x -> pending x = None -> pending x' = Some e -> pe_reserved e = now ->
  seen_ids r' = seen_ids (relay s) ++ [(pe_id e, now)] -> (pe_id e ∉ (seen_ids (relay s)).*1) -> length (seen_ids (relay s)) < DEDUP_CAP ->
  seen_ok now (put c x' r' s) log.
Proof.
  intros (H1 & H2 & H3 & H4) Hc Hx Hx' Hnow Es Hfresh Hlen.
  assert (forall o r, reservation s log o = Some (pe_id e, r) -> (ENTRY_TTL <= now - r)%N) as Hold.
  { intros o r Ho. destruct (H3 o _ _ Ho) as [_ Hin]. destruct (N.le_gt_cases ENTRY_TTL (now - r)) as [|Hlt]; [done|]. exfalso.
    apply Hfresh, list_elem_of_fmap. eexists. split; [|by apply Hin]. done. }
  unfold seen_ok. cbn [put relay]. rewrite Es. split_and!.
  - rewrite fmap_app. apply NoDup_app. split_and!; [done| |apply NoDup_singleton]. intros y Hy. cbn. by intros ->%list_elem_of_singleton.
  - rewrite length_app. cbn. lia.
  - intros o id r [(-> & e' & He' & [= -> ->])|[_ Ho]]%put_reservation.
    + rewrite Hx' in He'. injection He' as <-. split; [lia|]. intros _. apply elem_of_app. right. rewrite Hnow. by apply list_elem_of_singleton.
    + destruct (H3 o id r Ho) as [Hr Hin]. split; [done|]. intros Hlt. apply elem_of_app. left. by apply Hin.
  - intros o o' id r r'' Hne Ho Ho'. apply put_reservation in Ho as [(-> & e1 & He1 & [= -> ->])|[Hoc Ho]];
      apply put_reservation in Ho' as [(-> & e2 & He2 & E)|[Hoc' Ho']]; [done|..].
    + rewrite Hx' in He1. injection He1 as <-. left. rewrite Hnow. by eapply Hold.
    + rewrite Hx' in He2. injection He2 as <-. injection E as -> ->. right. rewrite Hnow. by eapply Hold.
    + by apply (H4 o o' id r r'').
Qed.

Lemma seen_effect t c now x r' x' fl s log :
  seen_ok t s log -> (t <= now)%N -> conns s !! c = Some x -> phase x = Reading -> effect c now (relay s) x r' x' fl ->
  seen_ok now (put c (after_frame fl x') r' s) log.
Proof.
  intros Hs Ht Hc Hp He. assert (pending x = None) as Hpend by (unfold pending; by rewrite Hp).
  destruct He as [x' fl (E1 & _) Hfl|x0 x' sid p (E1 & _) _ _ ->|x0 x' (E1 & _) ->|x' id r' res (E1 & _) Hr Hres|x' e r' (E1 & _) Hr Hnow _].
  - eapply seen_put; [done..|]. right. unfold pending. destruct Hfl as [-> | ->]; cbn; by rewrite ?E1, ?Hp.
  - eapply seen_put; [done..|]. right. unfold pending. cbn. by rewrite E1, Hp.
  - eapply seen_put; [done..|]. right. unfold pending. cbn. by rewrite E1, Hp.
  - destruct (reserve_keeps _ _ _ _ _ Hr) as (_ & Ek & _). specialize (Ek Hres).
    apply (seen_put now now c x _ _ (mkSystem r' (conns s) (refused s))); try done; [by eapply seen_evict|].
    right. unfold pending. cbn. by rewrite E1, Hp.
  - destruct (reserve_keeps _ _ _ _ _ Hr) as (_ & _ & Ek). destruct (Ek eq_refl) as (Es & Hid & Hlen).
    set (r1 := mkRelay (subs r') (conn_count r') (next_conn_id r') (List.filter (fresh_entry now) (seen_ids (relay s))) (delivered r')).
    apply (seen_new now c x _ e r' (mkSystem r1 (conns s) (refused s))); try done. by eapply seen_evict.
Qed.

(** The entry of a failed delivery goes, and no other that matters. *)
Lemma seen_unreserve t now c x x' e reason s log :
  seen_ok t s log -> (t <= now)%N -> conns s !! c = Some x -> phase x = Undelivered e reason -> (now - pe_reserved e < ENTRY_TTL)%N ->
  pending x' = None -> seen_ok now (put c x' (unreserve_id (pe_id e) (relay s)) s) log.
Proof.
  intros (H1 & H2 & H3 & H4) Ht Hc Hp Hlt Hx'.
  assert (reservation s log (inl c) = Some (pe_id e, pe_reserved e)) as Hres by (cbn; rewrite Hc; cbn; unfold pending; by rewrite Hp).
  destruct (H3 _ _ _ Hres) as [Hle Hin]. unfold unreserve_id.
  destruct (position _ (seen_ids (relay s))) as [pos|] eqn:Epos.
  2:{ eapply seen_put; [by split_and!|done..|by right]. }
  apply position_lookup in Epos as ([id0 r0] & Hpos & E%String.eqb_eq). cbn [fst] in E. subst id0.
  pose proof (swap_remove_perm _ _ _ Hpos) as Hperm. unfold seen_ok. cbn [put relay seen_ids].
  assert (NoDup ((pe_id e, r0) :: swap_remove pos (seen_ids (relay s))).*1) as Hnd by (by rewrite Hperm).
  apply NoDup_cons in Hnd as [Hnot Hnd]. split_and!; [done| | |].
  - apply Permutation_length in Hperm. cbn in Hperm. lia.
  - intros o id r [(-> & e' & He' & _)|[Hne Ho]]%put_reservation; [congruence|]. destruct (H3 _ _ _ Ho) as [Hr Hin']. split; [lia|].
    intros Hlt'. assert ((id, r) ∈ seen_ids (relay s)) as Hin'' by (apply Hin'; lia).
    rewrite <-Hperm in Hin''. apply elem_of_cons in Hin'' as [[= -> ->]|]; [|done]. exfalso.
    destruct (H4 o (inl c) (pe_id e) r0 (pe_reserved e) Hne Ho Hres); pose proof ttl_pos; lia.
  - intros o o' id r r' Hne [(-> & e' & He' & _)|[_ Ho]]%put_reservation; [congruence|].
    intros [(-> & e' & He' & _)|[_ Ho']]%put_reservation; [congruence|]. by eapply H4.
Qed.

Lemma seen_delivery t now c x e s s' ds log :
  seen_ok t s log -> (t <= now)%N -> conns s !! c = Some x -> phase x = Delivering e -> delivery s c now e s' ds -> seen_ok now s' (log ++ ds).
Proof.
  intros Hs Ht Hc Hp Hd. assert (pending x = Some e) as Hx by (unfold pending; by rewrite Hp).
  destruct Hd as [d reason Hd|sub cs _ _ _ _ Ha _].
  - rewrite app_nil_r. eapply seen_same; [done|done|done|]. intros k y' e' Hy He.
    destruct (alike_back _ _ _ _ _ _ (alike_phase c (Undelivered e reason) (conns s)) Hy) as (y & Hk & _ & _ & _ & E4).
    exists y. split; [done|]. unfold pending in He. rewrite E4 in He. destruct (decide (k = c)) as [->|]; [congruence|done].
  - apply (seen_embed t now s log _ _ (fun o => match o with inr i => if decide (i = length log) then inl c else inr i | _ => o end)); try done.
    + intros [k|i] v; cbn [reservation conns].
      * destruct (cs !! k) as [y'|] eqn:Ey; [|done]. destruct (alike_back _ _ _ _ _ _ Ha Ey) as (y & -> & _ & _ & _ & E4).
        cbn. unfold pending. rewrite E4. by destruct (decide (k = c)).
      * destruct (decide (i = length log)) as [->|Hi].
        -- rewrite list_lookup_middle by done. intros [= <-]. cbn. rewrite Hc. cbn. by rewrite Hx.
        -- intros H. cbn. destruct (decide (i < length log)); [by rewrite lookup_app_l in H|].
           rewrite lookup_ge_None_2 in H; [done|]. rewrite length_app. cbn. lia.
    + assert (reservation (mkSystem (with_delivered (<[pe_p e:=(budget_of (pe_p e) (young now (delivered (relay s))) + 1, now)%N]> (young now (delivered (relay s)))) (relay s)) cs (refused s))
                (log ++ [mkDelivery c e (sub_conn_id sub) (sub_sub_id sub) now]) (inl c) = None) as Hnone.
      { cbn. destruct (cs !! c) as [y'|] eqn:Ey; [|done]. destruct (alike_back _ _ _ _ _ _ Ha Ey) as (y & _ & _ & _ & _ & E4).
        cbn. unfold pending. rewrite E4. by destruct (decide (c = c)). }
      intros [k|i] [k'|i'] [v Hv] [v' Hv']; repeat destruct (decide _); intros E; try congruence.
Qed.

Lemma seen_trans t now a s s' ds log :
  seen_ok t s log -> trans s a s' ds -> now = default t (snd <$> a) ->
  (forall c n, a = Some (c, n) -> (t <= n)%N /\
     forall x e reason, conns s !! c = Some x -> phase x = Undelivered e reason -> (n - pe_reserved e < ENTRY_TTL)%N) ->
  seen_ok now s' (log ++ ds).
Proof.
  intros Hs Ht Hnow Ha. assert (t <= now)%N as Hle by (subst now; destruct a as [[c n]|]; cbn; [by apply (Ha c n)|lia]).
  destruct Ht as [a|a|a Hlt|a Hr|a c x r' Hc Hp Hr'|a c x x' r' Hc Hq|c x x' r' fl n Hc Hp He|c x e n s' ds Hc Hp Hd|c x e reason n Hc Hp];
    rewrite ?app_nil_r.
  - eapply seen_same; [done..|]. intros k y e Hy He. by exists y.
  - eapply seen_same; [done..|]. intros k y e Hy He. by exists y.
  - eapply seen_same; [done..|]. intros k y e Hy He. cbn [conns] in Hy.
    apply lookup_insert_Some in Hy as [[<- <-]|[_ Hy]]; [done|by exists y].
  - eapply seen_same; [done..|]. intros k y e Hy He. by exists y.
  - eapply seen_same; [done..| |].
    + cbn. by destruct Hr' as [[-> _]| ->].
    + intros k y e Hy He. cbn [conns] in Hy. apply lookup_delete_Some in Hy as [_ Hy]. by exists y.
  - destruct Hq as (Hr & Hp & _). eapply seen_put; [done..| |by left]. by destruct Hr as [-> | ->].
  - cbn in Hnow. subst now. by eapply seen_effect.
  - cbn in Hnow. subst now. by eapply seen_delivery.
  - cbn in Hnow. subst now. destruct (Ha c n eq_refl) as [_ Hpr]. eapply seen_unreserve; try done. by eapply Hpr.
Qed.
End reservations.

(** ** Budgets *)

Section budgets.
Context `{JL : JsonLib, PL : PairLib}.

(** When events for [p] were delivered, newest first. *)
Definition times (p : string) (log : list Delivery) : list N :=
  d_at <$> rev (List.filter (fun d => String.eqb (pe_p (d_pending d)) p) log).

(** How many of the newest deliveries followed each other within the lifetime
    of an entry. *)
Fixpoint burst (l : list N) : N :=
  match l with
  | [] => 0
  | t :: rest => 1 + match rest with u :: _ => if (t - u <? ENTRY_TTL)%N then burst rest else 0%N | [] => 0%N end
  end.

Lemma times_app p log d : times p (log ++ [d]) = if String.eqb (pe_p (d_pending d)) p then d_at d :: times p log else times p log.
Proof. unfold times. rewrite List.filter_app, rev_app_distr, fmap_app. cbn. by destruct (String.eqb _ _). Qed.

(** The counter of a recipient covers its burst; without one the newest
    delivery is too old to count. *)
Definition counted (t : N) (o : option (N * N)) (l : list N) : Prop :=
  match o with
  | Some (n, ts) => (n <= MAX_DELIVERED_PER_P)%N /\ head l = Some ts /\ (burst l <= n)%N
  | None => forall u, head l = Some u -> (ENTRY_TTL <= t - u)%N
  end.

Definition budget_ok (t : N) (d : gmap string (N * N)) (log : list Delivery) : Prop :=
  size d <= DELIVERED_MAP_CAP /\ forall p, counted t (d !! p) (times p log) /\ (burst (times p log) <= MAX_DELIVERED_PER_P)%N.

Lemma budget_time t t' d log : budget_ok t d log -> (t <= t')%N -> budget_ok t' d log.
Proof.
  intros [H1 H2] Ht. split; [done|]. intros p. destruct (H2 p) as [H3 H4]. split; [|done]. destruct (d !! p) as [[n ts]|]; [done|].
  intros u Hu. apply H3 in Hu. lia.
Qed.

Lemma young_lookup now d p :
  young now d !! p = match d !! p with Some (n, ts) => if (now - ts <? ENTRY_TTL)%N then Some (n, ts) else None | None => None end.
Proof.
  unfold young. rewrite map_lookup_filter. destruct (d !! p) as [[n ts]|]; [|done]. cbn.
  destruct (N.ltb_spec (now - ts) ENTRY_TTL) as [H|H]; case_guard as G; cbn in G |- *; try done; lia.
Qed.

Lemma budget_young now d log : budget_ok now d log -> budget_ok now (young now d) log.
Proof.
  intros [H1 H2]. split; [etransitivity; [|done]; apply map_subseteq_size, map_filter_subseteq|].
  intros p. destruct (H2 p) as [H3 H4]. split; [|done]. rewrite young_lookup. destruct (d !! p) as [[n ts]|]; [|done].
  destruct (N.ltb_spec (now - ts) ENTRY_TTL); [done|]. intros u Hu. destruct H3 as (_ & H3 & _). rewrite H3 in Hu. by injection Hu as <-.
Qed.

Lemma budget_delivered now d log x p :
  budget_ok now d log -> pe_p (d_pending x) = p -> d_at x = now ->
  (budget_of p (young now d) < MAX_DELIVERED_PER_P)%N -> (size (young now d) < DELIVERED_MAP_CAP \/ is_Some (young now d !! p)) ->
  budget_ok now (<[p := (budget_of p (young now d) + 1, now)%N]> (young now d)) (log ++ [x]).
Proof.
  intros Hb Hp Hat Hlt Hcap. apply budget_young in Hb as [H1 H2]. split.
  { destruct (young now d !! p) as [y|] eqn:Ey.
    - rewrite map_size_insert_Some by (by eexists). done.
    - rewrite map_size_insert_None by done. destruct Hcap as [?|[? ?]]; [lia|congruence]. }
  intros q. rewrite times_app, Hp, Hat. destruct (String.eqb_spec p q) as [<-|Hne].
  - rewrite lookup_insert_eq. destruct (H2 p) as [H3 H4].
    assert (burst (now :: times p log) <= budget_of p (young now d) + 1)%N as Hburst.
    { unfold counted in H3. unfold budget_of in *. destruct (young now d !! p) as [[n ts]|] eqn:Ey.
      - destruct H3 as (_ & Hh & Hbn). cbn [burst]. destruct (times p log) as [|u l]; [done|].
        destruct (now - u <? ENTRY_TTL)%N; lia.
      - cbn [burst]. destruct (times p log) as [|u l]; [lia|]. specialize (H3 u eq_refl).
        destruct (N.ltb_spec (now - u) ENTRY_TTL); lia. }
    split; [|lia]. split_and!; [lia|done|done].
  - rewrite lookup_insert_ne by done. apply H2.
Qed.

Lemma budget_trans t now a s s' ds log :
  budget_ok t (delivered (relay s)) log -> trans s a s' ds -> now = default t (snd <$> a) -> (t <= now)%N ->
  budget_ok now (delivered (relay s')) (log ++ ds).
Proof.
  intros Hb Ht Hnow Hle. apply (budget_time t now) in Hb; [|done].
  destruct Ht as [a|a|a Hlt|a Hr|a c x r' Hc Hp Hr'|a c x x' r' Hc Hq|c x x' r' fl n Hc Hp He|c x e n s' ds Hc Hp Hd|c x e reason n Hc Hp];
    rewrite ?app_nil_r; try done.
  - cbn. by destruct Hr' as [[-> _]| ->].
  - destruct Hq as ([-> | ->] & _); done.
  - apply effect_counts in He as (_ & _ & Ed). cbn [put relay]. by rewrite Ed.
  - cbn in Hnow. subst now. destruct Hd as [d reason [-> | ->]|sub cs _ Hsub H1 H2 _ _]; rewrite ?app_nil_r; [done|by apply budget_young|].
    by apply budget_delivered.
  - destruct (unreserve_counts (pe_id e) (relay s)) as (_ & _ & _ & Ed). cbn [do_unreserve put relay]. by rewrite Ed.
Qed.
End budgets.

(** ** The system *)

Section system.
Context `{JL : JsonLib, PL : PairLib}.

Definition genuine_ok (s : System) (log : list Delivery) : Prop :=
  (forall c x e, conns s !! c = Some x -> pending x = Some e -> genuine e) /\ (forall d, d ∈ log -> genuine (d_pending d)).

Lemma genuine_put c x' r' s log :
  genuine_ok s log -> (forall e, pending x' = Some e -> genuine e) -> genuine_ok (put c x' r' s) log.
Proof.
  intros [H1 H2] Hx. split; [|done]. intros k y e Hy He. cbn [put conns] in Hy.
  apply lookup_insert_Some in Hy as [[<- <-]|[_ Hy]]; [by apply Hx|by eapply H1].
Qed.

Lemma genuine_effect c now r x r' x' fl e :
  effect c now r x r' x' fl -> phase x = Reading -> pending (after_frame fl x') = Some e -> genuine e.
Proof.
  intros He Hp. unfold pending.
  destruct He as [x' fl (E1 & _) Hfl|x0 x' sid p (E1 & _) _ _ ->|x0 x' (E1 & _) ->|x' id r' res (E1 & _) Hr Hres|x' e' r' (E1 & _) Hr Hnow Hg].
  - destruct Hfl as [-> | ->]; cbn; by rewrite ?E1, ?Hp.
  - cbn. by rewrite E1, Hp.
  - cbn. by rewrite E1, Hp.
  - cbn. by rewrite E1, Hp.
  - cbn. by intros [= <-].
Qed.

Lemma genuine_trans a s s' ds log : genuine_ok s log -> trans s a s' ds -> genuine_ok s' (log ++ ds).
Proof.
  intros Hg Ht. pose proof Hg as [H1 H2].
  destruct Ht as [a|a|a Hlt|a Hr|a c x r' Hc Hp Hr'|a c x x' r' Hc Hq|c x x' r' fl n Hc Hp He|c x e n s' ds Hc Hp Hd|c x e reason n Hc Hp];
    rewrite ?app_nil_r; try done.
  - split; [|done]. intros k y e Hy He. cbn [conns] in Hy. apply lookup_insert_Some in Hy as [[<- <-]|[_ Hy]]; [done|by eapply H1].
  - split; [|done]. intros k y e Hy He. cbn [conns] in Hy. apply lookup_delete_Some in Hy as [_ Hy]. by eapply H1.
  - apply genuine_put; [done|]. intros e He. destruct Hq as (_ & Hp & _). rewrite Hp in He. by eapply H1.
  - apply genuine_put; [done|]. intros e. by eapply genuine_effect.
  - assert (genuine e) as Hge by (eapply H1; [done|unfold pending; by rewrite Hp]).
    destruct Hd as [d reason Hd|sub cs _ _ _ _ Ha _]; rewrite ?app_nil_r; (split; [|try done]).
    + intros k y' e' Hy He. destruct (alike_back _ _ _ _ _ _ (alike_phase c (Undelivered e reason) (conns s)) Hy) as (y & Hk & _ & _ & _ & E4).
      unfold pending in He. rewrite E4 in He. destruct (decide (k = c)); [by injection He as <-|by eapply H1].
    + intros k y' e' Hy He. destruct (alike_back _ _ _ _ _ _ Ha Hy) as (y & Hk & _ & _ & _ & E4).
      unfold pending in He. rewrite E4 in He. destruct (decide (k = c)); [done|by eapply H1].
    + intros d [Hd| ->%list_elem_of_singleton]%elem_of_app; [by apply H2|done].
  - apply genuine_put; [done|]. done.
Qed.

Record Inv (t : N) (s : System) (log : list Delivery) : Prop := mkInv {
  inv_slots : slots_ok s;
  inv_attempts : attempts_ok s log;
  inv_subs : subs_ok (relay s) (conns s);
  inv_seen : seen_ok t s log;
  inv_budget : budget_ok t (delivered (relay s)) log;
  inv_genuine : genuine_ok s log;
}.

(** The clock never goes back, and a failed delivery is undone before the
    entry of its id could expire. *)
Definition step_timed (t : N) (o : Op) (s : System) : Prop :=
  forall c now, op_at o = Some (c, now) -> (t <= now)%N /\
    forall x e reason, conns s !! c = Some x -> phase x = Undelivered e reason -> (now - pe_reserved e < ENTRY_TTL)%N.

Definition time_after (t : N) (o : Op) : N := default t (snd <$> op_at o).

Fixpoint timed (t : N) (ops : list Op) (s : System) : Prop :=
  match ops with
  | [] => True
  | o :: ops => step_timed t o s /\ timed (time_after t o) ops (exec o s).1
  end.

Lemma inv_init : Inv 0 system_new [].
Proof.
  split.
  - split_and!; [done|done|]. intros c _. apply lookup_empty.
  - split_and!; [|done|done]. intros c x Hx. cbn in Hx. by rewrite lookup_empty in Hx.
  - split_and!; [constructor|constructor|]. by intros sub ?%not_elem_of_nil.
  - split_and!; [constructor|cbn; lia|by intros [c|i] id r|by intros [c|i] o id r r' _].
  - split; [cbn; rewrite map_size_empty; lia|]. intros p. cbn [system_new relay relay_new delivered]. rewrite lookup_empty. split; [done|]. cbn. lia.
  - split; [intros c x e Hx; cbn in Hx; by rewrite lookup_empty in Hx|]. by intros d ?%not_elem_of_nil.
Qed.

Lemma inv_step t o s s' ds log :
  Inv t s log -> step_timed t o s -> exec o s = (s', ds) -> Inv (time_after t o) s' (log ++ ds).
Proof.
  intros [H1 H2 H3 H4 H5 H6] Ht He%exec_trans. assert (t <= time_after t o)%N as Hle.
  { unfold time_after. destruct (op_at o) as [[c n]|] eqn:E; cbn; [by apply (Ht c n)|lia]. }
  split; [exact (slots_trans _ _ _ _ H1 He)|exact (attempts_trans _ _ _ _ _ H1 H2 He)|exact (subs_trans _ _ _ _ _ H1 H2 H3 He)| | |
          exact (genuine_trans _ _ _ _ _ H6 He)].
  - exact (seen_trans _ _ _ _ _ _ _ H4 He eq_refl Ht).
  - exact (budget_trans _ _ _ _ _ _ _ H5 He eq_refl Hle).
Qed.

Lemma run_cons o ops s : run (o :: ops) s = ((run ops (exec o s).1).1, (exec o s).2 ++ (run ops (exec o s).1).2).
Proof. cbn [run]. destruct (exec o s) as [s' d]. cbn [fst snd]. by destruct (run ops s') as [s'' ds]. Qed.

Lemma inv_run ops t s log : Inv t s log -> timed t ops s -> exists t', Inv t' (run ops s).1 (log ++ (run ops s).2).
Proof.
  revert t s log. induction ops as [|o ops IH]; intros t s log HI Ht.
  - exists t. by rewrite app_nil_r.
  - destruct Ht as [Ho Ht]. rewrite run_cons. cbn [fst snd]. rewrite app_assoc. eapply IH; [|done].
    eapply inv_step; [done|done|by destruct (exec o s)].
Qed.
End system.

(** ** Claims *)

Section claims.
Context `{JL : JsonLib, PL : PairLib}.


Lemma filter_unique {A} (f : A -> string) l x :
  NoDup (f <$> l) -> x ∈ l -> List.filter (fun y => String.eqb (f y) (f x)) l = [x].
Proof.
  induction l as [|y l IH]; [by intros _ ?%not_elem_of_nil|]. rewrite fmap_cons. intros [Hy Hnd]%NoDup_cons [->|Hin]%elem_of_cons.
  - cbn. rewrite String.eqb_refl. f_equal. assert (forall z, z ∈ l -> String.eqb (f z) (f y) = false) as Hno.
    { intros z Hz. apply String.eqb_neq. intros E. apply Hy, list_elem_of_fmap. by exists z. }
    clear -Hno. induction l as [|z l IH]; [done|]. cbn. rewrite Hno by left. apply IH. intros w Hw. apply Hno. by right.
  - cbn. destruct (String.eqb_spec (f y) (f x)) as [E|_]; [|by apply IH]. exfalso. apply Hy, list_elem_of_fmap. by exists x.
Qed.

Lemma unreserve_forgets id r : NoDup (seen_ids r).*1 -> id ∉ (seen_ids (unreserve_id id r)).*1.
Proof.
  intros Hnd. unfold unreserve_id. destruct (position _ (seen_ids r)) as [i|] eqn:E.
  - apply position_lookup in E as ([k v] & Hi & E%String.eqb_eq). cbn in E. subst k. pose proof (swap_remove_perm _ _ _ Hi) as Hp.
    rewrite <-Hp in Hnd. by apply NoDup_cons in Hnd as [? _].
  - intros ([k v] & -> & Hin)%list_elem_of_fmap. revert E Hin. cbn [fst]. generalize (seen_ids r). intros l.
    induction l as [|y l IH]; [by intros _ ?%not_elem_of_nil|]. cbn. destruct (String.eqb_spec y.1 k) as [|Hne]; [done|].
    destruct (position _ l); [done|]. intros _ [<-|Hin]%elem_of_cons; [done|by apply IH].
Qed.

Lemma send_prefix m x : out_queue x `prefix_of` out_queue (send m x).
Proof.
  unfold send. destruct (try_send m x) as [x'|] eqn:E; [|reflexivity]. apply try_send_same in E as [_ E]. cbn [from_option id]. rewrite E. by eexists.
Qed.

Lemma deliver_ok c now x e s s' ds :
  NoDup (p_value <$> subs (relay s)) -> conns s !! c = Some x -> deliverable now e s -> do_deliver c now e s = (s', ds) ->
  exists sub y y',
     ds = [mkDelivery c e (sub_conn_id sub) (sub_sub_id sub) now] /\ p_value sub = pe_p e /\
     conns s !! sub_conn_id sub = Some y /\ conns s' !! sub_conn_id sub = Some y' /\
     (out_queue y ++ [Text (make_event (sub_sub_id sub) (pe_event e))]) `prefix_of` out_queue y' /\
     phase <$> conns s' !! c = Some Reading.
Proof.
  intros Hnd Hc (sub & y & Hin & Hp & Hy & Hroom & Hb & Hcap) Hd. unfold do_deliver, deliver_single, recipient in Hd.
  rewrite <-Hp, (filter_unique _ _ _ Hnd Hin), Hp in Hd. fold (young now (delivered (relay s))) in Hd.
  fold (budget_of (pe_p e) (young now (delivered (relay s)))) in Hd.
  destruct (N.leb_spec MAX_DELIVERED_PER_P (budget_of (pe_p e) (young now (delivered (relay s))))) as [|_]; [lia|].
  assert ((DELIVERED_MAP_CAP <=? size (young now (delivered (relay s))))%nat && bool_decide (young now (delivered (relay s)) !! pe_p e = None) = false) as Hno.
  { apply andb_false_iff. destruct Hcap as [?|[v Hv]]; [left; by apply Nat.leb_gt|right; apply bool_decide_eq_false; congruence]. }
  rewrite Hno, Hy in Hd. cbn [mbind option_bind] in Hd.
  destruct (proj1 (try_send_room (Text (make_event (sub_sub_id sub) (pe_event e))) y) Hroom) as [y1 Ey1]. rewrite Ey1 in Hd.
  injection Hd as <- <-. apply try_send_same in Ey1 as [_ Eq]. cbn [conns].
  destruct (decide (sub_conn_id sub = c)) as [E|Hne].
  - exists sub, y. eexists. rewrite E, lookup_alter_eq, lookup_insert_eq. split_and!; [done|done|by rewrite <-E|done| |done].
    rewrite <-Eq. cbn. apply send_prefix.
  - exists sub, y, y1. rewrite lookup_alter_ne, lookup_insert_eq by done. rewrite lookup_alter_eq, lookup_insert_ne, Hc by done.
    split_and!; try done. by rewrite Eq.
Qed.

(** C24: the pairing relay forwards.  In every reachable state, an accepted
    event is delivered precisely when its recipient has a live subscription
    with room in its channel and the budgets allow it: the subscriber then gets
    the event itself under its subscription id, next after what was already
    waiting, and the sender is free for the next frame.  Otherwise nothing is
    delivered, and when the sender has been told, the id of the event is
    forgotten, so that the event can be sent again. *)
Theorem pair_relay_forwards (ops : list Op) (c now : N) (x : Conn) (e : Pending) :
  timed 0 ops system_new ->
  let s := (run ops system_new).1 in
  conns s !! c = Some x -> phase x = Delivering e ->
  let s' := (exec (OpDeliver c now) s).1 in
  let ds := (exec (OpDeliver c now) s).2 in
  (deliverable now e s -> exists sub y y',
     ds = [mkDelivery c e (sub_conn_id sub) (sub_sub_id sub) now] /\ p_value sub = pe_p e /\
     conns s !! sub_conn_id sub = Some y /\ conns s' !! sub_conn_id sub = Some y' /\
     (out_queue y ++ [Text (make_event (sub_sub_id sub) (pe_event e))]) `prefix_of` out_queue y' /\
     phase <$> conns s' !! c = Some Reading) /\
  (~ deliverable now e s -> ds = [] /\ exists reason, phase <$> conns s' !! c = Some (Undelivered e reason) /\
     forall later, let s'' := (exec (OpUnreserve c later) s').1 in
       phase <$> conns s'' !! c = Some Reading /\ (pe_id e ∉ (seen_ids (relay s'')).*1)).
Proof.
  intros Ht s Hc Hp. destruct (inv_run ops 0 system_new [] inv_init Ht) as (t & [H1 H2 H3 H4 _ _]). fold s in H1, H2, H3, H4.
  intros s' ds. assert (exec (OpDeliver c now) s = do_deliver c now e s) as Hexec by (cbn [exec]; by rewrite Hc, Hp).
  destruct (do_deliver c now e s) as [s1 ds1] eqn:Hd. subst s' ds. rewrite Hexec. cbn [fst snd].
  pose proof (do_deliver_delivery _ _ _ _ _ _ _ Hc Hd) as Hdel. split; intros Hdl.
  - destruct H3 as (Hnd & _). by eapply deliver_ok.
  - destruct Hdel as [d reason _|]; [|done]. split; [done|]. exists reason. cbn [conns]. rewrite lookup_alter_eq, Hc. split; [done|].
    intros later. set (s'' := (exec (OpUnreserve c later) _).1). assert (s'' = do_unreserve c e reason (with_phase (Undelivered e reason) x)
      (mkSystem (with_delivered d (relay s)) (alter (with_phase (Undelivered e reason)) c (conns s)) (refused s))) as ->.
    { unfold s''. cbn [exec conns]. rewrite lookup_alter_eq, Hc. done. }
    cbn [do_unreserve put conns relay]. rewrite lookup_insert_eq. split; [done|]. apply unreserve_forgets. by destruct H4 as (? & _).
Qed.
End claims.

(** ** An instance *)

Fixpoint repeat_str (n : nat) (s : string) : string := match n with O => EmptyString | S n => s +:+ repeat_str n s end.

Definition demo_recipient : string := repeat_str 32 "0a".

Definition demo_pair_event : Value :=
  VObject [("id", VString (repeat_str 64 "0")); ("pubkey", VString (repeat_str 64 "1")); ("created_at", VNumber (PosInt 1000));
           ("kind", VNumber (PosInt 24134)); ("tags", VArray [VArray [VString "p"; VString demo_recipient]]);
           ("content", VString ("Ag" +:+ repeat_str 130 "A")); ("sig", VString (repeat_str 128 "2"))].

#[export] Instance demo_json : JsonLib := {|
  from_str text :=
    if String.eqb text "req" then Some (VArray [VString "REQ"; VString "s"; VObject [("#p", VArray [VString demo_recipient])]])
    else if String.eqb text "event" then Some (VArray [VString "EVENT"; demo_pair_event])
    else None;
  json_text v := match v with VArray (VString verb :: _) => verb | _ => EmptyString end;
|}.

#[export] Instance demo_pair : PairLib := {|
  sha256 _ := repeat_str 32 (String "000" EmptyString);
  xonly_ok _ := true;
  verify_schnorr _ _ _ := true;
|}.

Definition demo_request : Request :=
  mkRequest true true (Some "keep-alive, Upgrade") (Some "websocket") (Some "13") (Some (repeat_str 24 "k")).

(** Two connections; the first subscribes, the second sends. *)
Definition demo_pair_ops : list Op :=
  [OpRequest demo_request; OpUpgraded 0 0; OpRequest demo_request; OpUpgraded 1 0;
   OpFrame 0 1 1000 (Some (MText "req")); OpFrame 1 2 1000 (Some (MText "event"))].

Definition demo_pending : Pending :=
  mkPending (repeat_str 64 "0") (repeat_str 32 (String "000" EmptyString)) (default EmptyString (hex_bytes demo_recipient)) demo_pair_event 2.

(** Shows that a concrete run is timed. *)
Ltac timed_run :=
  repeat match goal with
  | |- timed _ (_ :: _) _ => split; [intros ? ? H; vm_compute in H; (discriminate H || (injection H as <- <-; split; [vm_compute; discriminate|
        let x := fresh in intros x ? ? Hx Hp; vm_compute in Hx; (discriminate Hx || (injection Hx as <-; discriminate Hp))]))|]
  | |- timed _ [] _ => exact I
  end.


Lemma pair_relay_forwards_witness :
  exists y', conns (exec (OpDeliver 1 3) (run demo_pair_ops system_new).1).1 !! 0%N = Some y' /\
  [Text "EOSE"; Text "EVENT"] `prefix_of` out_queue y'.
Proof.
  assert (timed 0 demo_pair_ops system_new) as H by (unfold demo_pair_ops; timed_run).
  destruct (conns (run demo_pair_ops system_new).1 !! 1%N) as [x|] eqn:Hx; [|vm_compute in Hx; discriminate Hx].
  assert (phase x = Delivering demo_pending) as Hp by (vm_compute in Hx; injection Hx as <-; vm_compute; reflexivity).
  destruct (pair_relay_forwards demo_pair_ops 1 3 x demo_pending H Hx Hp) as [Hok _].
  assert (subs (relay (run demo_pair_ops system_new).1) = [mkSub 0 "s" (pe_p demo_pending)]) as Hsubs by (vm_compute; reflexivity).
  destruct Hok as (sub & y & y' & Hds & Hsub & Hy & Hy' & Hpre & _).
  - destruct (conns (run demo_pair_ops system_new).1 !! 0%N) as [y|] eqn:Hy; [|vm_compute in Hy; discriminate Hy].
    exists (mkSub 0 "s" (pe_p demo_pending)), y. rewrite Hsubs. split; [left|]. split; [reflexivity|]. split; [exact Hy|].
    vm_compute in Hy. injection Hy as <-. split; [split; [reflexivity|vm_compute; lia]|]. split; [vm_compute; reflexivity|left; vm_compute; lia].
  - exists y'. assert (sub_conn_id sub = 0%N /\ sub_sub_id sub = "s") as [E1 E2].
    { assert ((exec (OpDeliver 1 3) (run demo_pair_ops system_new).1).2 = [mkDelivery 1 demo_pending 0 "s" 3]) as Hlog by (vm_compute; reflexivity).
      rewrite Hlog in Hds. injection Hds as E1 E2. split; [symmetry; exact E1|symmetry; exact E2]. }
    rewrite E1 in Hy, Hy'. split; [exact Hy'|]. vm_compute in Hy. injection Hy as <-. exact Hpre.
Defined.
